(* ===== verification/_CoqProject ===== *)
-Q . S2P
Prelude.v
Values.v
IdText.v
Intern.v
InternFacts.v
Entity.v
EntityFacts.v
Write.v
Relational.v
WriteFacts.v
RelationalFacts.v
AppendFacts.v
BatchFacts.v
ReadFacts.v
RevertFacts.v
QueryFacts.v
Deployment.v
DeploymentFacts.v
SyncStore.v
UnfailFacts.v
BoundedQueue.v
Writable.v
WritableFacts.v
WritableSamples.v
LfuCache.v
LfuFacts.v
EntityCache.v
EntityCacheFacts.v
DerivedFacts.v
CacheRuns.v
ModificationFacts.v
BlockFacts.v
CacheLimits.v
BlockState.v
HostExports.v
HostFacts.v
CacheSamples.v
EndToEnd.v
HostSamples.v
DataSource.v
Instance.v
InstanceFacts.v
InstanceRuns.v
EthData.v
EthFilter.v
EthTriggers.v
EthFilterFacts.v
EthCallFacts.v
EthOrder.v
EthComplete.v
EthScan.v
EthSamples.v
Float64.v
BlockStream.v
StreamFacts.v
EthAdapter.v
EthStream.v
StreamSamples.v
Poi.v
PoiFacts.v
PoiSamples.v
SourceRange.v
SourceFacts.v
HistoryFacts.v
SourceTriggers.v
SourceScan.v
SourceSamples.v
VidBatcher.v
Prune.v
PruneFacts.v
PruneSamples.v
TriggerProcessor.v
Runner.v
Triples.v
RunnerFacts.v
RunnerDynamic.v
RunnerHosts.v
SyncWritable.v
RunnerSamples.v
