(* ===== verification/Prelude.v ===== *)
(** * graph-node: from a chain to the database

    graph-node indexes blockchains.  A block stream follows a chain and finds
    the triggers of its blocks that matter to a subgraph; for every block the
    runner of the subgraph runs the handlers for the triggers (mappings,
    compiled to WebAssembly), which read and write entities, and stores the
    entities as versions with block ranges in Postgres, so that queries can ask
    for the state at any block and blocks can be reverted.  This library models
    that path, from the requests to an Ethereum node to the rows of the tables.
    It proves that no trigger is lost, that blocks are applied in the order of
    the chain, and that what handlers have done is what queries find.

    ** The parts of the program and the files that model them

    - Data.  [Values] has values, ids and keys (graph/src/data/store/mod.rs and
      id.rs, schema/entity_key.rs), [IdText] the text of ids.  [Intern] has the
      pools of interned strings and the objects whose keys are atoms of a pool
      (graph/src/util/intern.rs), [Entity] has entities as such objects with
      their merges and validation (data/store/mod.rs).  [InternFacts] and
      [EntityFacts] show that an object is the finite map [obj_map].
    - Handlers.  [HostExports] models [store_set], [store_remove], [store_get],
      [store_load_related] and [data_source_create]
      (runtime/wasm/src/host_exports.rs), the gas counter
      (graph/src/runtime/gas) and [invoke_handler]
      (runtime/wasm/src/module/instance.rs).  A mapping is the list of the host
      functions that it calls and the way in which it ends; theorems are about
      all such lists.  [BlockState] has the state of a block
      (components/subgraph/instance.rs): the cache, created data sources, errors
      and the capacity for writes.
    - The entity cache.  [LfuCache] models graph/src/util/lfu_cache.rs,
      [EntityCache] models components/store/entity_cache.rs with its two layers
      of updates, the sequence of vids and [as_modifications].
    - Batches.  [Write] models components/store/write.rs: modifications, row
      groups, the folding of rows in [append_row], batches, and the iterators
      over clamps and chunks of writes.
    - Tables.  [Relational] models the tables of a deployment and the statements
      on them (store/postgres/src/relational.rs, relational_queries.rs,
      block_range.rs, ddl.rs): a table is the list of its versions, a statement
      is a function on it that fails when a constraint is violated.
      [Deployment] adds the head, health, errors, entity count and dynamic data
      sources (deployment.rs, deployment_store.rs, dynds), with the transactions
      that write, revert, rewind, fail and unfail.
    - The write queue.  [BoundedQueue] models graph/src/util/bounded_queue.rs as
      tasks that interleave at their await points, with semaphores that serve
      requests in order as those of tokio do; [Writable] models the queue,
      its writer and the calls of block processing (store/postgres/src/
      writable.rs) as a system of steps.  [SyncStore] is the interface between
      the two: a class of operations with the class of its laws, of which
      [Deployment] is an instance.
    - Data sources and hosts.  [DataSource] models data sources on chains, files
      and other subgraphs (graph/src/data_source), with a chain as the class
      [Blockchain]; [Instance] models the hosts of a subgraph with their indexes
      by address (core/src/subgraph/context/instance) and the decoder of
      triggers.
    - Ethereum.  [EthData] has blocks, calls, logs and data sources
      (chain/ethereum/src/data_source.rs, trigger.rs), [EthFilter] the filters
      for logs, calls and blocks and their requests (adapter.rs), [EthTriggers]
      the search for the triggers of a block and of a range of blocks
      (ethereum_adapter.rs, chain.rs, graph/src/blockchain/block_stream.rs).
    - The block stream.  [BlockStream] models chain/ethereum/src/
      polling_block_stream.rs against the interface [TriggersAdapter];
      [EthAdapter] has the methods of this interface for Ethereum (chain.rs,
      ethereum_adapter.rs).  [Float64] has the floating point arithmetic for the
      sizes of ranges.
    - The runner.  [Poi] models proofs of indexing (graph/src/components/
      subgraph/proof_of_indexing), [TriggerProcessor] how triggers run
      (core/src/subgraph/trigger_processor.rs, context/mod.rs), and [Runner] the
      state machine of a subgraph with the processing of blocks
      (core/src/subgraph/runner).  The runner uses a store through the class
      [WritableStore]; [SyncWritable] is the store without a write queue.
    - Source subgraphs.  A subgraph can have other subgraphs as its sources.
      [SourceRange] models [Layout::find_range] (relational.rs,
      relational_queries.rs, block_range.rs), which tells what blocks have done
      to entities; [SourceTriggers] models [TriggersAdapterWrapper]
      (graph/src/blockchain/block_stream.rs), which makes triggers of it and is
      again a [TriggersAdapter] for the block stream.
    - Pruning.  [VidBatcher] models the batches in which large tables are gone
      through (store/postgres/src/vid_batcher.rs, graph/src/util/ogive.rs),
      [Prune] the removal of old versions (store/postgres/src/relational/
      prune.rs, deployment_store.rs), as a system of steps next to those of the
      writer.

    The parts meet in [EndToEnd]: handlers run on the cache of a block, the
    modifications of the cache become a batch, the batch is written to the
    tables, and queries read the tables.  They meet in [EthStream]: the block
    stream asks the Ethereum adapter.  They meet in [RunnerHosts] and
    [RunnerSamples]: a runner takes events from a stream, runs mappings and
    writes to a deployment.  And they meet in [HistoryFacts], [SourceScan] and
    [PruneFacts]: what the write queue leaves in the tables is what scans of
    source subgraphs and pruning find there.

    ** What the theorems show

    - [EndToEnd]: the handlers of a block, whatever they call and however they
      end, do what their calls ask for, one operation after the other, and are
      kept or discarded as their results demand; the modifications of the block
      make a batch that the store accepts; and queries at the block and later
      find every entity as these operations leave it.
    - [HostFacts]: what [store_set] writes and that a refusal leaves no trace,
      that calls are operations on the cache, how handlers are left, and that
      gas bounds the number of writes.
    - [EntityCacheFacts], [DerivedFacts], [CacheRuns]: the cache behaves like a
      finite map with a second layer for the running handler, also for derived
      fields and for handlers that are discarded.  [ModificationFacts],
      [BlockFacts]: the modifications of a block are those and only those that
      take the store to the last state of that map, and their vids are unique.
      [CacheLimits]: nulls, the limit on writes, generated ids.  [LfuFacts]: the
      frequency cache is a finite map and eviction ends.
    - [WriteFacts], [RelationalFacts], [AppendFacts], [BatchFacts]: the
      statements that write a batch do what its rows do one after the other, and
      appending batches and writing the result is the same as writing both.
      [ReadFacts]: pending rows answer like the table after they are written.
      [RevertFacts]: reverting undoes exactly the blocks that are reverted.
      [QueryFacts]: bind variables, and two queries with surprising results.
      [DeploymentFacts]: the same for deployments.  [UnfailFacts]: unfailing a
      deployment takes it back to before the failed block.
    - [BoundedQueue]: in every interleaving the queue is a bounded FIFO queue, if
      its capacity fits 32 bits, nothing panics, and operations only wait when
      they must or when an older [wait_empty] waits.
      [WritableFacts]: in every interleaving of block processing and the writer,
      the store and the pending requests together hold what the accepted
      requests do, reads see that result, a flush commits it, and after a
      failure of the writer nothing is written and new calls return errors.
    - [InstanceFacts], [InstanceRuns]: the hosts with their indexes behave like
      a list of hosts in every sequence of operations, and no host that handles
      a trigger is missed.
    - [EthFilterFacts], [EthCallFacts]: filters match exactly what data sources
      handle, and the requests for logs select exactly what the filter matches.
      [EthOrder], [EthComplete], [EthScan]: all triggers of a block and of a
      range of final blocks are found, and they are in order.
    - [StreamFacts]: a stream on an adapter that keeps to [TriggersAdapterSpec]
      tells a subgraph to process and revert blocks along the chain, without
      leaving out a block with triggers, and gets to the head of a chain that
      does not change.  [EthStream]: the Ethereum adapter keeps to it.
    - [PoiFacts]: the proof of indexing that is kept block by block is the hash
      of the whole history.
    - [RunnerFacts]: whatever handlers do and whatever fails, the store has the
      blocks that the stream has told and not reverted, up to blocks without
      triggers.  [Triples] has the rules for its proofs.  [RunnerDynamic]: the
      loop over new data sources ends.  [RunnerHosts]: the hosts of dynamic
      data sources are those that the store has, through blocks, reverts and
      restarts, once they have been so.
    - [HistoryFacts]: whatever is written and reverted, no block sees two
      versions of an entity.  [SourceFacts]: for such tables [find_range] gives
      exactly the changes of each block.  [SourceScan]: a scan of source
      subgraphs leaves out no block with changes and no change of a block.
    - [PruneFacts]: no query from the earliest block on notices pruning, in
      every interleaving with the writer and whatever fails, and in the end the
      old versions are gone.
    - Some theorems show behaviour that contradicts what the code means to do:
      [grandchild_pool_collides], [as_single_writes_loses_writes],
      [last_op_crosses_regions], [find_derived_excludes_nothing],
      [find_many_keys_onchain], [revert_count_blocks], [late_push_accepted],
      [queue_derived_stale], [load_related_partial], [set_capacity_underflows],
      [extend_forgets_weight], [extend_takes_capacity],
      [evict_dead_weight_panics], [unfail_hides_errors],
      [unfail_loses_data_source], [escaped_ids_collide],
      [rebuild_needs_region], [batch_size_zero], [wait_empty_truncates].

    [WritableSamples], [CacheSamples], [HostSamples], [EthSamples],
    [StreamSamples], [PoiSamples], [RunnerSamples], [SourceSamples],
    [PruneSamples] and the Modules named
    [..Sample] apply the theorems to concrete deployments, schemas, chains and
    blocks.

    ** How the code is translated

    Fallible code returns [outcome], which has a constructor for panics; methods
    on [&mut self] are functions in the monad [st].  Machine integers are [Z];
    where they wrap, saturate or overflow, the definition says so, and
    [overflow_checks] is the choice of the build.  A [HashMap] is a [gmap], and
    the order of its iteration is a parameter of which only is known that it is
    a permutation ([HashOrder], [DataOrder]); an unstable sort is a parameter
    with its contract ([UnstableSort]).  An [Arc] has an address where the code
    compares addresses.  Concurrent code is a relation on states in which the
    tasks take their steps in any order, and a task can be cancelled where the
    code awaits.

    Code that is not in the repository is a parameter with its documented laws:
    the [priority-queue] crate ([PriorityQueue], [PriorityQueueSpec]), the [hex]
    crate ([Hex], [HexSpec]), Postgres, whose ranges, operators and constraints
    [Relational] spells out, and the fair semaphores of tokio, which
    [BoundedQueue] spells out.  The content of the input schema
    ([InputSchema], [SchemaTypes]), the weights of values and the sizes for gas
    are parameters as well.  [ReadStoreSpec] is what the entity cache expects of
    the store it reads from, for as long as a block is processed.  [find_many]
    meets it for entities of the onchain causality region only
    ([find_many_keys_onchain]).  An Ethereum node is the class [EthereumNode]
    with the laws [NodeSpec]; it can change between two requests, as the time
    at which a request is made is part of the state.  The codec for contract
    ABIs, the hash functions, the graph library behind the log filter and the
    parser of content identifiers are parameters.  So are the casts and the
    order of Postgres in [find_range] ([RangeServer], [RangeServerSpec]), its
    statistics, and how long its statements take.

    ** Fuel

    The lists that model the iterators over clamps and chunks have as fuel one
    more than the number of rows; every call of [next] that returns something
    moves on by a row at least, and [WriteFacts] shows that they are exhausted.
    The loop that evicts entries has as fuel one more than the number of entries;
    each round takes one entry away, and [evict_spec] shows that the loop ends
    before the fuel does.  The loop over data sources that are created in a
    block has as fuel one more than the number of hosts that a subgraph can
    have ([dynamic_loop_ends]).  A run of the block stream has a list of ticks,
    and theorems about it are for all lists; [stream_reaches_head] says that
    some list is long enough.  Pruning is a relation between states and has no
    fuel; it does not end when the size of a batch gets to 0.

    ** What is not modelled

    The WebAssembly engine and the memory of mappings, host functions that only
    compute, the debug fork, and the sizes that determine gas.  The encoding of
    values into columns, filters, ordering and pagination of queries,
    aggregations and rollups, copying, grafting and the creation of deployments,
    the progress that pruning records.  Retries, delays and metrics.  The chain store (blocks and
    calls that are kept in the database), Firehose and other chains than
    Ethereum, the fetching of files.  GraphQL, the parsing of schemas and
    manifests, servers, the configuration and the primary database: they do not
    take part in the path from blocks to entities, or only hand over what is a
    parameter here. *)

From Stdlib Require Import ZArith Lia.
From stdpp Require Import base gmap list strings sorting.

Declare Scope graph_scope.
Delimit Scope graph_scope with graph.

(** ** Results of fallible Rust code

    [Ok] and [Err] are the two constructors of [Result]; [Panic] is the third
    thing a Rust call can do ([unwrap], [expect], [assert!], [unreachable!]). *)

Inductive outcome (E A : Type) : Type :=
| Ok (a : A)
| Err (e : E)
| Panic.

Arguments Ok {E A} a.
Arguments Err {E A} e.
Arguments Panic {E A}.

#[export] Instance outcome_ret {E} : MRet (outcome E) := λ A a, Ok a.
#[export] Instance outcome_bind {E} : MBind (outcome E) := λ A B f m,
  match m with
  | Ok a => f a
  | Err e => Err e
  | Panic => Panic
  end.
#[export] Instance outcome_fmap {E} : FMap (outcome E) := λ A B f m,
  match m with
  | Ok a => Ok (f a)
  | Err e => Err e
  | Panic => Panic
  end.

Definition is_ok {E A} (m : outcome E A) : bool :=
  match m with Ok _ => true | _ => false end.

(** [Result::ok_or_else] on an option, and [Option::unwrap]/[expect]. *)
Definition ok_or {E A} (o : option A) (e : E) : outcome E A :=
  match o with Some a => Ok a | None => Err e end.

(** [Result::map_err] *)
Definition map_err {E E' A} (f : E → E') (m : outcome E A) : outcome E' A :=
  match m with Ok a => Ok a | Err e => Err (f e) | Panic => Panic end.

Definition unwrap {E A} (o : option A) : outcome E A :=
  match o with Some a => Ok a | None => Panic end.

Lemma bind_ok {E A B} (m : outcome E A) (f : A → outcome E B) b :
  m ≫= f = Ok b ↔ ∃ a, m = Ok a ∧ f a = Ok b.
Proof. destruct m; simpl; naive_solver. Qed.

(** ** Methods on [&mut self] that return a [Result]

    The changed receiver comes back together with the result, also when the
    result is an error: what a failed call leaves behind is part of the model. *)

Definition st (S E A : Type) : Type := S → S * outcome E A.

#[export] Instance st_ret {S E} : MRet (st S E) := λ A a s, (s, Ok a).
#[export] Instance st_bind {S E} : MBind (st S E) := λ A B f m s,
  match m s with
  | (s', Ok a) => f a s'
  | (s', Err e) => (s', Err e)
  | (s', Panic) => (s', Panic)
  end.

Definition st_get {S E} : st S E S := λ s, (s, Ok s).
Definition st_put {S E} (s : S) : st S E unit := λ _, (s, Ok tt).
Definition st_fail {S E A} (e : E) : st S E A := λ s, (s, Err e).

(** Iterate a fallible method over a list, stopping at the first failure:
    [for x in l { self.f(x)?; }]. *)
Fixpoint st_for {S E A} (f : A → st S E unit) (l : list A) : st S E unit :=
  match l with
  | [] => mret tt
  | x :: l => f x ;; st_for f l
  end.

Lemma st_for_app {S E A} (f : A → st S E unit) l1 l2 s s1 :
  st_for f l1 s = (s1, Ok tt) → st_for f (l1 ++ l2) s = st_for f l2 s1.
Proof.
  revert s. induction l1 as [|x l1 IH]; intros s; simpl; [by intros [= ->]|].
  unfold mbind, st_bind. destruct (f x s) as [s' [[]| |]]; try done. apply IH.
Qed.

Lemma st_for_nil_ok {S E A} (f : A → st S E unit) s s' :
  st_for f [] s = (s', Ok tt) ↔ s' = s.
Proof. unfold st_for, mret, st_ret. naive_solver. Qed.

Lemma st_for_cons_ok {S E A} (f : A → st S E unit) x l s s' :
  st_for f (x :: l) s = (s', Ok tt) ↔ ∃ s1, f x s = (s1, Ok tt) ∧ st_for f l s1 = (s', Ok tt).
Proof.
  simpl. unfold mbind, st_bind. destruct (f x s) as [s1 [[]| |]]; naive_solver.
Qed.

(** A [Result] inside a method on [&mut self], a method with the errors of
    another one, and a call that can only panic *)
Definition lift {S E A} (m : outcome E A) : st S E A := λ s, (s, m).

Definition st_map_err {S E E' A} (f : E → E') (m : st S E A) : st S E' A := λ s,
  let '(s, r) := m s in (s, map_err f r).

Definition infallible {E A} (m : outcome Empty_set A) : outcome E A :=
  match m with Ok a => Ok a | Err e => match e with end | Panic => Panic end.

(** ** Arithmetic

    On overflow, a build with [overflow-checks] panics, others wrap around. *)

Class Arithmetic := { overflow_checks : bool }.

(** ** Automation

    [st_run] shows the steps of a method, so that the calls in it can be
    rewritten one after the other.  [views] has the equations for lookups in
    finite maps of attributes, and [by_attribute] proves the equality of two of
    them by cases on what they have for one attribute.  [rows] has the lemmas
    on versions and rows whose premises are found in the context, [stores] the
    ones on states of a store, [caches] the ones on entity caches, and [ids] the
    ones on methods that do not generate ids. *)

Ltac st_run := unfold mbind, st_bind, mret, st_ret, st_get, lift; cbn beta iota.

Create Rewrite HintDb views.

Ltac by_attribute :=
  apply map_eq; let k := fresh "k" in intros k;
  repeat (progress autorewrite with views || rewrite lookup_empty || rewrite lookup_union);
  repeat match goal with |- context [?m !! k] => destruct (m !! k) as [[]|] end; done.

Create HintDb rows.
Create HintDb stores.
Create HintDb caches.
Create HintDb ids.
#[export] Hint Resolve map_Forall_empty map_Forall_insert_2 : caches.

(** ** Lists *)

Section ListFacts.
  Context {A : Type}.
  Implicit Types l : list A.

Lemma filter_all (P : A → Prop) `{!∀ x, Decision (P x)} l :
  (∀ x, x ∈ l → P x) → filter P l = l.
Proof.
  induction l as [|x l IH]; intros Hall; [done|].
  rewrite filter_cons_True by (apply Hall; left). f_equal. apply IH. intros y Hy. apply Hall. by right.
Qed.

Lemma filter_none (P : A → Prop) `{!∀ x, Decision (P x)} l :
  (∀ x, x ∈ l → ¬ P x) → filter P l = [].
Proof.
  induction l as [|x l IH]; intros Hall; [done|].
  rewrite filter_cons_False by (apply Hall; left). apply IH. intros y Hy. apply Hall. by right.
Qed.

Lemma StronglySorted_filter (R : A → A → Prop) (P : A → Prop) `{!∀ x, Decision (P x)} l :
  StronglySorted R l → StronglySorted R (filter P l).
Proof.
  induction 1 as [|x l Hl IH Hx]; [constructor|]. rewrite filter_cons. case_decide; [|done].
  constructor; [done|]. rewrite Forall_forall in Hx |- *. intros y [_ Hy]%list_elem_of_filter. auto.
Qed.

Lemma Forall_filter_l (Q P : A → Prop) `{!∀ x, Decision (P x)} l : Forall Q l → Forall Q (filter P l).
Proof. rewrite !Forall_forall. intros HQ x [_ Hx]%list_elem_of_filter. auto. Qed.

Lemma filter_ext_in (P Q : A → Prop) `{!∀ x, Decision (P x), !∀ x, Decision (Q x)} l :
  (∀ x, x ∈ l → P x ↔ Q x) → filter P l = filter Q l.
Proof.
  induction l as [|x l IH]; intros HPQ; [done|]. rewrite !filter_cons.
  rewrite IH by (intros y Hy; apply HPQ; by right). specialize (HPQ x ltac:(by left)).
  destruct (decide (P x)), (decide (Q x)); tauto || done.
Qed.

(** Filtering out one element of a duplicate-free list. *)
Lemma length_filter_ne `{!EqDecision A} (a : A) l :
  NoDup l →
  length (filter (λ b, b ≠ a) l) = length l - (if decide (a ∈ l) then 1 else 0).
Proof.
  induction l as [|b l IH]; [done|]. intros [Hb Hnd]%NoDup_cons. rewrite filter_cons.
  specialize (IH Hnd). destruct (decide (b = a)) as [->|Hne].
  - rewrite decide_False by tauto. rewrite decide_True by left.
    rewrite decide_False in IH by done. simpl. lia.
  - rewrite decide_True by done. simpl. rewrite IH.
    destruct (decide (a ∈ l)) as [Hin|Hin].
    + rewrite decide_True by by right. destruct l; [by apply not_elem_of_nil in Hin|]. simpl. lia.
    + rewrite decide_False; [lia|]. rewrite elem_of_cons. naive_solver.
Qed.

Lemma fmap_id_on (f : A → A) l : (∀ x, x ∈ l → f x = x) → f <$> l = l.
Proof.
  induction l as [|x l IH]; intros Hf; [done|]. rewrite fmap_cons, Hf by left. f_equal.
  apply IH. intros y Hy. apply Hf. by right.
Qed.

Lemma Forall2_impl_l {B} (P : A → Prop) (R S : A → B → Prop) l k :
  Forall P l → Forall2 R l k → (∀ x y, P x → R x y → S x y) → Forall2 S l k.
Proof.
  intros HP HR Himp. induction HR as [|x y l k Hxy HR IH]; [constructor|].
  apply Forall_cons in HP as [Hx HP]. constructor; auto.
Qed.

End ListFacts.
