(* ===== verification/Values.v ===== *)
(** * Values, ids and keys

    The data that entities and their keys are made of:
    [graph/src/data/store/mod.rs] ([Value], [ValueType]),
    [graph/src/data/store/id.rs] ([Id], [IdType], [IdList]),
    [graph/src/schema/entity_key.rs], [graph/src/schema/entity_type.rs] and
    [graph/src/data_source/causality_region.rs].  Integers are [Z]; the bytes
    of a [scalar::Bytes] are a list of [Z] in [[0, 256)]. *)

From Stdlib Require Import ZArith Lia.
From stdpp Require Import base gmap list strings countable.
From S2P Require Import Prelude.

Local Open Scope Z_scope.

(** ** Block numbers ([i32]) *)

Abbreviation BlockNumber := Z (only parsing).

Definition BLOCK_NUMBER_MAX : BlockNumber := 2147483647.

(** ** [ValueType] *)

Inductive ValueType :=
| TBoolean | TBigInt | TBytes | TBigDecimal | TInt | TInt8 | TString | TTimestamp.

#[export] Instance ValueType_eq_dec : EqDecision ValueType.
Proof. solve_decision. Defined.

(** [ValueType::from_str] *)
Definition value_type_from_str (s : string) : outcome string ValueType :=
  if decide (s = "Boolean"%string) then Ok TBoolean
  else if decide (s = "BigInt"%string) then Ok TBigInt
  else if decide (s = "Bytes"%string) then Ok TBytes
  else if decide (s = "BigDecimal"%string) then Ok TBigDecimal
  else if decide (s = "Int"%string) then Ok TInt
  else if decide (s = "Int8"%string) then Ok TInt8
  else if decide (s = "Timestamp"%string) then Ok TTimestamp
  else if decide (s = "String"%string ∨ s = "ID"%string) then Ok TString
  else Err "Type not available in this context"%string.

Definition value_type_is_scalar (s : string) : bool := is_ok (value_type_from_str s).

Definition value_type_is_numeric (t : ValueType) : bool :=
  match t with
  | TBigInt | TBigDecimal | TInt | TInt8 => true
  | TBoolean | TBytes | TString | TTimestamp => false
  end.

Definition value_type_to_str (t : ValueType) : string :=
  match t with
  | TBoolean => "Boolean"
  | TBigInt => "BigInt"
  | TBytes => "Bytes"
  | TBigDecimal => "BigDecimal"
  | TInt => "Int"
  | TInt8 => "Int8"
  | TTimestamp => "Timestamp"
  | TString => "String"
  end.

(** [impl PartialOrd for ValueType]; the arms are tried in order. *)
Definition value_type_partial_cmp (a b : ValueType) : option comparison :=
  match a, b with
  | TBoolean, TBoolean | TBigInt, TBigInt | TBytes, TBytes | TBigDecimal, TBigDecimal
  | TInt, TInt | TInt8, TInt8 | TString, TString => Some Eq
  | TBigInt, TBigDecimal | TInt, TBigInt | TInt, TBigDecimal | TInt, TInt8
  | TInt8, TBigInt | TInt8, TBigDecimal => Some Lt
  | TBigInt, TInt | TBigInt, TInt8 | TBigDecimal, TBigInt | TBigDecimal, TInt
  | TBigDecimal, TInt8 | TInt8, TInt => Some Gt
  | TTimestamp, _ | _, TTimestamp | TBoolean, _ | _, TBoolean | TBytes, _ | _, TBytes
  | TString, _ | _, TString => None
  end.

(** ** [Value]

    A [BigDecimal] is its digits and exponent in the normal form that
    [BigDecimal::new] establishes, for which equality is structural. *)

Inductive Value :=
| VString (s : string)
| VInt (i : Z)
| VInt8 (i : Z)
| VTimestamp (micros : Z)
| VBigDecimal (digits exp : Z)
| VBool (b : bool)
| VList (vs : list Value)
| VNull
| VBytes (bs : list Z)
| VBigInt (i : Z).

Fixpoint Value_eqb (a b : Value) : bool :=
  match a, b with
  | VString s, VString t => bool_decide (s = t)
  | VInt i, VInt j | VInt8 i, VInt8 j | VTimestamp i, VTimestamp j
  | VBigInt i, VBigInt j => bool_decide (i = j)
  | VBigDecimal d e, VBigDecimal d' e' => bool_decide (d = d') && bool_decide (e = e')
  | VBool x, VBool y => bool_decide (x = y)
  | VList xs, VList ys =>
      (fix go (xs ys : list Value) : bool :=
         match xs, ys with
         | [], [] => true
         | x :: xs, y :: ys => Value_eqb x y && go xs ys
         | _, _ => false
         end) xs ys
  | VNull, VNull => true
  | VBytes xs, VBytes ys => bool_decide (xs = ys)
  | _, _ => false
  end.

(** Induction on values that reaches the elements of a list. *)
Lemma Value_ind' (P : Value → Prop) :
  (∀ v, (∀ vs, v ≠ VList vs) → P v) →
  (∀ vs, Forall P vs → P (VList vs)) →
  ∀ v, P v.
Proof.
  intros Hs Hl. fix IH 1. intros [| | | | | |vs| | |]; try (apply Hs; congruence).
  apply Hl. induction vs as [|v vs IHvs]; constructor; [apply IH|apply IHvs].
Qed.

Lemma Value_eqb_eq (a b : Value) : Value_eqb a b = true ↔ a = b.
Proof.
  revert b. induction a as [a Ha|xs IH] using Value_ind'; intros b.
  - destruct a, b; simpl;
      rewrite ?andb_true_iff, ?bool_decide_eq_true; try (split; intros; naive_solver).
  - destruct b as [| | | | | |ys| | |]; simpl; try (split; congruence).
    trans (xs = ys); [|split; congruence].
    revert ys. induction IH as [|x xs Hx _ IH]; intros [|y ys]; try (split; congruence).
    rewrite andb_true_iff, IH, Hx. split; [intros [-> ->]; done|].
    intros [= -> ->]; done.
Qed.

#[export] Instance Value_eq_dec : EqDecision Value.
Proof.
  intros a b. destruct (Value_eqb a b) eqn:E.
  - left. by apply Value_eqb_eq.
  - right. intros ->. apply not_true_iff_false in E. by rewrite Value_eqb_eq in E.
Defined.

Definition value_is_null (v : Value) : bool :=
  match v with VNull => true | _ => false end.

Definition value_as_int (v : Value) : option Z :=
  match v with VInt i => Some i | _ => None end.

Definition value_as_int8 (v : Value) : option Z :=
  match v with VInt8 i => Some i | _ => None end.

(** [Value::is_assignable] *)
Fixpoint value_is_assignable (v : Value) (scalar_type : ValueType) (is_list : bool) : bool :=
  match v, scalar_type with
  | VString _, TString | VBigDecimal _ _, TBigDecimal | VBigInt _, TBigInt
  | VBool _, TBoolean | VBytes _, TBytes | VInt _, TInt | VInt8 _, TInt8
  | VTimestamp _, TTimestamp | VNull, _ => true
  | VList values, _ =>
      if is_list then
        (fix all (vs : list Value) : bool :=
           match vs with
           | [] => true
           | v :: vs => value_is_assignable v scalar_type false && all vs
           end) values
      else false
  | _, _ => false
  end.

(** ** Ids *)

Inductive IdType := IdTString | IdTBytes | IdTInt8.

#[export] Instance IdType_eq_dec : EqDecision IdType.
Proof. solve_decision. Defined.

Inductive Id :=
| IdString (s : string)
| IdBytes (bs : list Z)
| IdInt8 (i : Z).

#[export] Instance Id_eq_dec : EqDecision Id.
Proof. solve_decision. Defined.

#[export] Instance Id_countable : Countable Id.
Proof.
  refine (inj_countable'
    (λ i, match i with
          | IdString s => inl s
          | IdBytes b => inr (inl b)
          | IdInt8 z => inr (inr z)
          end)
    (λ s, match s with
          | inl s => IdString s
          | inr (inl b) => IdBytes b
          | inr (inr z) => IdInt8 z
          end) _).
  by intros [].
Defined.

Definition id_type (i : Id) : IdType :=
  match i with IdString _ => IdTString | IdBytes _ => IdTBytes | IdInt8 _ => IdTInt8 end.

(** [impl PartialEq<Value> for Id] *)
Definition id_eq_value (i : Id) (v : Value) : bool :=
  match i, v with
  | IdString s, VString v => bool_decide (s = v)
  | IdBytes s, VBytes v => bool_decide (s = v)
  | IdInt8 s, VInt8 v => bool_decide (s = v)
  | _, _ => false
  end.

(** [impl TryFrom<Value> for Id] and [impl From<Id> for Value] *)
Definition id_try_from_value (v : Value) : outcome string Id :=
  match v with
  | VString s => Ok (IdString s)
  | VBytes b => Ok (IdBytes b)
  | VInt8 i => Ok (IdInt8 i)
  | _ => Err "expected string or bytes for id"%string
  end.

Definition value_from_id (i : Id) : Value :=
  match i with
  | IdString s => VString s
  | IdBytes b => VBytes b
  | IdInt8 i => VInt8 i
  end.

(** Machine integers as bytes: byte [k] of the little-endian representation
    of [z] at width [8 * n], and the reading of an [i64]. *)
Fixpoint le_bytes (n : nat) (z : Z) : list Z :=
  match n with
  | O => []
  | S n => (z mod 256) :: le_bytes n (z / 256)
  end.

Definition be_bytes (n : nat) (z : Z) : list Z := reverse (le_bytes n z).

Fixpoint le_value (bs : list Z) : Z :=
  match bs with
  | [] => 0
  | b :: bs => b + 256 * le_value bs
  end.

Definition wrap_signed (bits z : Z) : Z :=
  let m := z mod 2 ^ bits in
  if m <? 2 ^ (bits - 1) then m else m - 2 ^ bits.

Definition i64_from_le_bytes (bs : list Z) : Z := wrap_signed 64 (le_value bs).

(** [IdType::generate_id] *)
Definition generate_id (t : IdType) (block : BlockNumber) (seq : Z) : outcome string Id :=
  match t with
  | IdTString => Err "String does not support generating ids"%string
  | IdTBytes => Ok (IdBytes (be_bytes 4 block ++ be_bytes 4 seq))
  | IdTInt8 => Ok (IdInt8 (i64_from_le_bytes (le_bytes 4 seq ++ le_bytes 4 block)))
  end.

(** ** [IdList]: a list of ids that all have one type *)

Inductive IdList :=
| IdListString (ids : list string)
| IdListBytes (ids : list (list Z))
| IdListInt8 (ids : list Z).

Definition id_list_ids (l : IdList) : list Id :=
  match l with
  | IdListString ids => IdString <$> ids
  | IdListBytes ids => IdBytes <$> ids
  | IdListInt8 ids => IdInt8 <$> ids
  end.

Definition id_list_new (t : IdType) : IdList :=
  match t with
  | IdTString => IdListString []
  | IdTBytes => IdListBytes []
  | IdTInt8 => IdListInt8 []
  end.

Definition id_list_len (l : IdList) : nat :=
  match l with
  | IdListString ids => length ids
  | IdListBytes ids => length ids
  | IdListInt8 ids => length ids
  end.

Definition id_list_is_empty (l : IdList) : bool := Nat.eqb (id_list_len l) 0.

(** ** Entity types, causality regions and keys

    An [EntityType] behaves as its name in every comparison
    ([impl PartialEq for EntityType]); what the schema says about a type is in
    the class [InputSchema] of the development, not in the type. *)

Record EntityType := mkEntityType { et_name : string }.

#[export] Instance EntityType_eq_dec : EqDecision EntityType.
Proof. solve_decision. Defined.

#[export] Instance EntityType_countable : Countable EntityType.
Proof. refine (inj_countable' et_name mkEntityType _). by intros []. Defined.

Abbreviation CausalityRegion := Z (only parsing).
Definition ONCHAIN : CausalityRegion := 0.

Record EntityKey := mkEntityKey {
  entity_type : EntityType;
  entity_id : Id;
  causality_region : CausalityRegion;
}.

#[export] Instance EntityKey_eq_dec : EqDecision EntityKey.
Proof. solve_decision. Defined.

#[export] Instance EntityKey_countable : Countable EntityKey.
Proof.
  refine (inj_countable'
    (λ k, (entity_type k, entity_id k, causality_region k))
    (λ t, mkEntityKey (t.1.1) (t.1.2) (t.2)) _).
  by intros [].
Defined.

(** [EntityType::is_poi] *)
Definition POI_OBJECT : string := "Poi$".

Definition is_poi (t : EntityType) : bool := bool_decide (et_name t = POI_OBJECT).

(** ** Fields of object types: [s::Type] of the GraphQL parser with the
    methods of [TypeExt], and [Field] of [graph/src/schema/input/mod.rs]. *)

Inductive GType :=
| NamedType (name : string)
| ListType (inner : GType)
| NonNullType (inner : GType).

Fixpoint get_base_type (t : GType) : string :=
  match t with
  | NamedType name => name
  | NonNullType inner => get_base_type inner
  | ListType inner => get_base_type inner
  end.

Fixpoint is_list (t : GType) : bool :=
  match t with
  | NamedType _ => false
  | NonNullType inner => is_list inner
  | ListType _ => true
  end.

Definition is_non_null (t : GType) : bool :=
  match t with NonNullType _ => true | _ => false end.

Record Field := mkField {
  field_name : string;
  field_type : GType;
  value_type : ValueType;
  derived_from : option string;
}.

Definition is_derived (f : Field) : bool := bool_decide (is_Some (derived_from f)).

(** What the code asks the schema about an entity type
    ([EntityType::is_immutable], [skip_duplicates], [id_type], [object_type]). *)
Class InputSchema := {
  is_immutable : EntityType → bool;
  skip_duplicates : EntityType → bool;
  schema_id_type : EntityType → IdType;
  object_type : EntityType → option (list Field);
  share_interfaces : EntityType → list EntityType;
}.

(** ** Store errors: the variants the modelled code raises.  A message keeps
    the literal text of its format string. *)
Inductive StoreError :=
| InternalError (msg : string)
| InputError (msg : string)
| UnknownAttribute (entity attr : string)
| UnknownTable (name : string)
| QueryExecutionError (msg : string)
| WriteFailure (entity : string) (block : BlockNumber)
| Poisoned
| WriterPanic
| DuplicateBlockProcessing (block : BlockNumber)
| ConflictingId (entity : string) (id : Id) (conflicting : string)
| StatementTimeout
| ConstraintViolation (msg : string)
| PruneFailure (msg : string)
| UnknownError (msg : string).

#[export] Instance StoreError_eq_dec : EqDecision StoreError.
Proof. solve_decision. Defined.

(** [IdList::try_from_iter] *)
Fixpoint collect_string (ids : list Id) : outcome StoreError (list string) :=
  match ids with
  | [] => Ok []
  | IdString s :: ids => l ← collect_string ids; Ok (s :: l)
  | _ :: _ => Err (InternalError "expected string id")
  end.

Fixpoint collect_bytes (ids : list Id) : outcome StoreError (list (list Z)) :=
  match ids with
  | [] => Ok []
  | IdBytes b :: ids => l ← collect_bytes ids; Ok (b :: l)
  | _ :: _ => Err (InternalError "expected bytes id")
  end.

Fixpoint collect_int8 (ids : list Id) : outcome StoreError (list Z) :=
  match ids with
  | [] => Ok []
  | IdInt8 i :: ids => l ← collect_int8 ids; Ok (i :: l)
  | _ :: _ => Err (InternalError "expected int8 id")
  end.

Definition id_list_try_from_iter (t : IdType) (ids : list Id) : outcome StoreError IdList :=
  match t with
  | IdTString => IdListString <$> collect_string ids
  | IdTBytes => IdListBytes <$> collect_bytes ids
  | IdTInt8 => IdListInt8 <$> collect_int8 ids
  end.

(** [IdList::try_from_iter_ref]: the type of the list is that of its first id. *)
(** [IdList::push] *)
Definition id_list_push (l : IdList) (i : Id) : outcome StoreError IdList :=
  match l, i with
  | IdListString ids, IdString s => Ok (IdListString (ids ++ [s]))
  | IdListBytes ids, IdBytes b => Ok (IdListBytes (ids ++ [b]))
  | IdListInt8 ids, IdInt8 n => Ok (IdListInt8 (ids ++ [n]))
  | _, _ => Err (InternalError "expected id of another type")
  end.

Definition id_list_try_from_iter_ref (ids : list Id) : outcome StoreError IdList :=
  match ids with
  | [] => Ok (IdListString [])
  | i :: _ => id_list_try_from_iter (id_type i) ids
  end.
