(* ===== verification/IdText.v ===== *)
(** * The text of entity ids

    Models [IdType::parse] and the [Display] of [Id]
    ([graph/src/data/store/id.rs]), with the conversions of [scalar::Bytes]
    ([graph/src/data/store/scalar/bytes.rs]) and of [i64].  The [hex] crate is a
    parameter with its contract. *)

From Stdlib Require Import ZArith NArith Lia Ascii.
From stdpp Require Import base list strings pretty.
From S2P Require Import Prelude Values.

Local Open Scope Z_scope.

(** ** [hex::encode] and [hex::decode] *)

Class Hex := {
  hex_encode : list Z → string;
  hex_decode : string → option (list Z);
}.

(** A string that does not begin with a prefix that [trim_start_matches]
    takes away *)
Definition trimmed (s : string) : Prop := ∀ rest, s ≠ String "0" (String "x" rest).

(** Lower-case digits only, two for each byte, are what [encode] writes, and
    [decode] reads them. *)
Class HexSpec `{Hex} := {
  hex_encode_trimmed bs : trimmed (hex_encode bs);
  hex_decode_encode bs : Forall (λ b, 0 ≤ b < 256) bs → hex_decode (hex_encode bs) = Some bs;
}.

(** ** [scalar::Bytes] *)

(** [trim_start_matches] takes every repetition of the prefix away. *)
Fixpoint trim_0x (s : string) : string :=
  match s with
  | String "0" (String "x" rest) => trim_0x rest
  | _ => s
  end.

Definition bytes_from_str `{Hex} (s : string) : outcome string (list Z) :=
  ok_or (hex_decode (trim_0x s)) "can not convert to Id::Bytes"%string.

Definition bytes_to_string `{Hex} (bs : list Z) : string := "0x" +:+ hex_encode bs.

(** ** [i64::from_str] and its [Display] *)

Definition digit_value (c : ascii) : option Z :=
  let n := Z.of_N (N_of_ascii c) in
  if (48 <=? n) && (n <=? 57) then Some (n - 48) else None.

Fixpoint digits_value (s : string) (acc : Z) : option Z :=
  match s with
  | EmptyString => Some acc
  | String c s => d ← digit_value c; digits_value s (10 * acc + d)
  end.

Definition in_i64 (z : Z) : bool := (- 2 ^ 63 <=? z) && (z <? 2 ^ 63).

Definition i64_from_digits (negative : bool) (digits : string) : outcome string Z :=
  match digits with
  | EmptyString => Err "cannot parse integer from empty string"%string
  | _ =>
      match digits_value digits 0 with
      | None => Err "invalid digit found in string"%string
      | Some n =>
          let z := if negative then - n else n in
          if in_i64 z then Ok z else Err "number too large or too small to fit in target type"%string
      end
  end.

Definition i64_from_str (s : string) : outcome string Z :=
  match s with
  | String "-" digits => i64_from_digits true digits
  | String "+" digits => i64_from_digits false digits
  | _ => i64_from_digits false s
  end.

Definition i64_to_string (z : Z) : string := pretty z.

(** ** Ids *)

Definition id_type_parse `{Hex} (self : IdType) (s : string) : outcome string Id :=
  match self with
  | IdTString => Ok (IdString s)
  | IdTBytes => b ← bytes_from_str s; Ok (IdBytes b)
  | IdTInt8 => i ← i64_from_str s; Ok (IdInt8 i)
  end.

Definition id_type_as_str (self : IdType) : string :=
  match self with IdTString => "String" | IdTBytes => "Bytes" | IdTInt8 => "Int8" end.

Definition id_to_string `{Hex} (i : Id) : string :=
  match i with
  | IdString s => s
  | IdBytes b => bytes_to_string b
  | IdInt8 i => i64_to_string i
  end.

(** Ids with bytes and integers of their width *)
Definition id_wf (i : Id) : Prop :=
  match i with
  | IdString _ => True
  | IdBytes bs => Forall (λ b, 0 ≤ b < 256) bs
  | IdInt8 z => in_i64 z = true
  end.

(** ** Properties *)

Lemma trim_trimmed s : trimmed s → trim_0x s = s.
Proof.
  intros Ht. destruct s as [|c1 [|c2 s]]; [done|by destruct c1 as [[] [] [] [] [] [] [] []]|].
  destruct (decide (c1 = "0"%char ∧ c2 = "x"%char)) as [[-> ->]|Hne]; [by destruct (Ht s)|].
  destruct c1 as [[] [] [] [] [] [] [] []]; try done. destruct c2 as [[] [] [] [] [] [] [] []]; try done. by destruct Hne.
Qed.

Lemma pretty_digit x : (x < 10)%N → digit_value (pretty_N_char x) = Some (Z.of_N x).
Proof.
  intros Hx. assert (x = 0 ∨ x = 1 ∨ x = 2 ∨ x = 3 ∨ x = 4 ∨ x = 5 ∨ x = 6 ∨ x = 7 ∨ x = 8 ∨ x = 9)%N as Hc by lia.
  by repeat destruct Hc as [->|Hc]; [..|rewrite Hc].
Qed.

Lemma pretty_go_value x s : digits_value (pretty_N_go x s) 0 = digits_value s (Z.of_N x).
Proof.
  revert s. induction (N.lt_wf_0 x) as [x _ IH]. intros s. destruct (decide (x = 0%N)) as [-> |Hx].
  { by rewrite pretty_N_go_0. }
  rewrite pretty_N_go_step by lia. rewrite IH by (apply N.div_lt; lia). simpl.
  rewrite pretty_digit by (apply N.mod_lt; lia). simpl. f_equal. rewrite N2Z.inj_div, N2Z.inj_mod. symmetry. apply Z.div_mod. lia.
Qed.

Lemma pretty_go_cons x s : (0 < x)%N → ∃ d s', pretty_N_go x s = String d s' ∧ digit_value d ≠ None.
Proof.
  revert s. induction (N.lt_wf_0 x) as [x _ IH]. intros s Hx. rewrite pretty_N_go_step by done.
  destruct (decide (x / 10 = 0)%N) as [-> |Hd].
  - rewrite pretty_N_go_0. eexists _, _. split; [done|]. by rewrite pretty_digit by (apply N.mod_lt; lia).
  - apply IH; [apply N.div_lt; lia|by apply N.neq_0_lt_0].
Qed.

(** A number that is printed begins with a digit and has its value. *)
Lemma pretty_N_text x : digits_value (pretty x) 0 = Some (Z.of_N x) ∧ ∃ d s, pretty x = String d s ∧ digit_value d ≠ None.
Proof.
  unfold pretty, pretty_N. destruct (decide (x = 0%N)) as [-> |Hx]; [split; [done|]; by eexists _, _|].
  split; [by rewrite pretty_go_value|]. apply pretty_go_cons. lia.
Qed.

Lemma i64_roundtrip z : in_i64 z = true → i64_from_str (i64_to_string z) = Ok z.
Proof.
  intros Hz. unfold i64_to_string, i64_from_str.
  assert (∀ x, ∃ d s, pretty (N.pos x) = String d s ∧ digits_value (String d s) 0 = Some (Z.pos x) ∧ d ≠ "-"%char ∧ d ≠ "+"%char) as Hp.
  { intros x. destruct (pretty_N_text (N.pos x)) as (Hv & d & s & Hs & Hd). exists d, s. rewrite <-Hs.
    split_and!; [done|done|intros ->; by apply Hd..]. }
  destruct z as [|x|x]; [done|..]; destruct (Hp x) as (d & s & Hs & Hv & Hm & Hpl).
  - change (pretty (Z.pos x)) with (pretty (N.pos x)). rewrite Hs.
    assert (i64_from_digits false (String d s) = Ok (Z.pos x)) as <- by (unfold i64_from_digits; by rewrite Hv, Hz).
    by destruct d as [[] [] [] [] [] [] [] []].
  - change (pretty (Z.neg x)) with ("-" +:+ pretty (N.pos x)). rewrite Hs.
    change (i64_from_digits true (String d s) = Ok (Z.neg x)). unfold i64_from_digits. rewrite Hv. change (- Z.pos x) with (Z.neg x). cbv zeta. by rewrite Hz.
Qed.

(** The text of an id is parsed back into the id. *)
Theorem id_parse_roundtrip `{HexSpec} (i : Id) : id_wf i → id_type_parse (id_type i) (id_to_string i) = Ok i.
Proof.
  destruct i as [s|bs|z]; simpl; intros Hwf; [done|..].
  - unfold bytes_from_str, bytes_to_string. change (trim_0x ("0x" +:+ hex_encode bs)) with (trim_0x (hex_encode bs)).
    rewrite trim_trimmed by apply hex_encode_trimmed. by rewrite hex_decode_encode.
  - by rewrite i64_roundtrip.
Qed.

(** ** A codec *)

Module HexSample.

Definition hex_digit (n : Z) : ascii := ascii_of_N (Z.to_N (if n <? 10 then 48 + n else 87 + n)).

Definition hex_value (c : ascii) : option Z :=
  let n := Z.of_N (N_of_ascii c) in
  if (48 <=? n) && (n <=? 57) then Some (n - 48)
  else if (97 <=? n) && (n <=? 102) then Some (n - 87)
  else if (65 <=? n) && (n <=? 70) then Some (n - 55)
  else None.

Fixpoint encode (bs : list Z) : string :=
  match bs with
  | [] => EmptyString
  | b :: bs => String (hex_digit (b / 16 mod 16)) (String (hex_digit (b mod 16)) (encode bs))
  end.

Fixpoint decode (s : string) : option (list Z) :=
  match s with
  | EmptyString => Some []
  | String _ EmptyString => None
  | String a (String b s) => x ← hex_value a; y ← hex_value b; rest ← decode s; Some (16 * x + y :: rest)
  end.

#[local] Instance sample_hex : Hex := {| hex_encode := encode; hex_decode := decode |}.

Lemma hex_digits n : 0 ≤ n < 16 → hex_value (hex_digit n) = Some n ∧ hex_digit n ≠ "x"%char.
Proof.
  intros Hn. assert (n = 0 ∨ n = 1 ∨ n = 2 ∨ n = 3 ∨ n = 4 ∨ n = 5 ∨ n = 6 ∨ n = 7 ∨ n = 8 ∨ n = 9 ∨ n = 10 ∨ n = 11 ∨
    n = 12 ∨ n = 13 ∨ n = 14 ∨ n = 15) as Hc by lia.
  repeat destruct Hc as [-> |Hc]; [done..|by rewrite Hc].
Defined.

#[local] Instance sample_hex_spec : HexSpec.
Proof.
  split.
  - intros [|b bs] rest; [done|]. simpl. intros [= _ Hx _]. destruct (hex_digits (b mod 16)) as [_ Hd]; [by apply Z.mod_pos_bound|done].
  - intros bs Hbs. simpl. induction Hbs as [|b bs Hb Hbs IH]; [done|]. simpl.
    destruct (hex_digits (b / 16 mod 16)) as [-> _]; [by apply Z.mod_pos_bound|].
    destruct (hex_digits (b mod 16)) as [-> _]; [by apply Z.mod_pos_bound|]. simpl. rewrite IH. simpl. do 2 f_equal.
    rewrite (Z.mod_small (b / 16)) by (split; [apply Z.div_pos|apply Z.div_lt_upper_bound]; lia). symmetry. apply Z.div_mod. lia.
Defined.

Lemma id_parse_roundtrip_witness :
  id_type_parse IdTBytes (id_to_string (IdBytes [222; 173])) = Ok (IdBytes [222; 173]) ∧
  id_type_parse IdTInt8 (id_to_string (IdInt8 (-42))) = Ok (IdInt8 (-42)).
Proof.
  split; [apply (id_parse_roundtrip (IdBytes [222; 173])); repeat constructor; lia|by apply (id_parse_roundtrip (IdInt8 (-42)))].
Defined.

Example id_texts : (id_to_string (IdBytes [222; 173]), id_to_string (IdInt8 (-42))) = ("0xdead", "-42")%string.
Proof. vm_compute. reflexivity. Qed.

End HexSample.
