(* ===== verification/Intern.v ===== *)
(** * Interned strings and objects

    [graph/src/util/intern.rs]: the pool of interned strings [AtomPool], which
    may extend a base pool, and the map [Object] whose keys are atoms of a
    pool.  Entities are objects, so every operation on entities goes through
    this file.

    An [Arc<AtomPool>] is the pool together with its address: [Arc::ptr_eq]
    compares addresses.  The two ways a pool operation can panic
    ("too many atoms", [u16::try_from]) are [Panic]. *)

From Stdlib Require Import ZArith Lia.
From stdpp Require Import base gmap list strings.
From S2P Require Import Prelude.

Local Open Scope Z_scope.

(** ** [AtomPool] *)

Abbreviation Atom := Z (only parsing).

Definition ATOM_MAX : Z := 65535.
Definition TOMBSTONE_KEY : Atom := ATOM_MAX.

Inductive AtomPool := mkAtomPool {
  base : option AtomPool;
  base_sym : Z;
  atoms : list string;
  words : gmap string Atom;
}.

Definition pool_new : AtomPool := mkAtomPool None 0 [] ∅.

(** [AtomInt::try_from] on a [usize] *)
Definition atom_try_from (n : Z) : option Z :=
  if decide (0 ≤ n ≤ ATOM_MAX) then Some n else None.

Definition pool_child (self : AtomPool) : outcome Empty_set AtomPool :=
  base_sym ← unwrap (atom_try_from (Z.of_nat (length (atoms self))));
  Ok (mkAtomPool (Some self) base_sym [] ∅).

Fixpoint pool_get (self : AtomPool) (atom : Atom) : option string :=
  if decide (atom < base_sym self) then
    match self.(base) with
    | Some base => pool_get base atom
    | None => None
    end
  else atoms self !! Z.to_nat (atom - base_sym self).

Fixpoint pool_lookup (self : AtomPool) (word : string) : option Atom :=
  match self.(base) with
  | Some base =>
      match pool_lookup base word with
      | Some atom => Some atom
      | None => words self !! word
      end
  | None => words self !! word
  end.

Definition pool_intern (self : AtomPool) (word : string)
    : outcome Empty_set (AtomPool * Atom) :=
  match pool_lookup self word with
  | Some atom => Ok (self, atom)
  | None =>
      atom ← unwrap (atom_try_from (base_sym self + Z.of_nat (length (atoms self))));
      if decide (atom = TOMBSTONE_KEY) then Panic
      else Ok (mkAtomPool (base self) (base_sym self)
                 (atoms self ++ [word]) (<[word := atom]> (words self)), atom)
  end.

(** [impl FromIterator for AtomPool] *)
Fixpoint pool_intern_all (self : AtomPool) (ws : list string) : outcome Empty_set AtomPool :=
  match ws with
  | [] => Ok self
  | w :: ws => '(p, _) ← pool_intern self w; pool_intern_all p ws
  end.

Definition pool_from_iter (ws : list string) : outcome Empty_set AtomPool :=
  pool_intern_all pool_new ws.

(** ** [Object] *)

Inductive InternError := NotInterned (s : string).

Record ArcPool := mkArcPool { arc_addr : nat; arc_pool : AtomPool }.

Record Entry (V : Type) := mkEntry { key : Atom; value : V }.
Arguments mkEntry {V} key value.
Arguments key {V} e : rename.
Arguments value {V} e : rename.

Record Object (V : Type) := mkObject { pool : ArcPool; entries : list (Entry V) }.
Arguments mkObject {V} pool entries.
Arguments pool {V} o : rename.
Arguments entries {V} o : rename.

(** [NullValue]: the value a tombstone holds. *)
Class NullValue (V : Type) := null_value : V.

Section Object.
  Context {V : Type}.
  Implicit Types (o self other : Object V) (e : Entry V).

Definition obj_new (p : ArcPool) : Object V := mkObject p [].

Definition live (e : Entry V) : Prop := key e ≠ TOMBSTONE_KEY.

#[global] Instance live_dec e : Decision (live e).
Proof. unfold live. apply _. Defined.

Definition obj_len (self : Object V) : nat := length (filter live (entries self)).

Definition obj_is_empty (self : Object V) : bool := Nat.eqb (obj_len self) 0.

Definition find_atom (atom : Atom) (es : list (Entry V)) : option (Entry V) :=
  snd <$> list_find (λ e, key e = atom) es.

Definition obj_get (self : Object V) (k : string) : option V :=
  match pool_lookup (arc_pool (pool self)) k with
  | None => None
  | Some atom => value <$> find_atom atom (entries self)
  end.

Definition obj_get_by_atom (self : Object V) (atom : Atom) : option V :=
  if decide (atom = TOMBSTONE_KEY) then None
  else value <$> find_atom atom (entries self).

(** [ObjectIter], [ObjectOwningIter]: the [unwrap] of the pool lookup panics
    for an atom that is not in the pool. *)
Fixpoint iter_entries (p : AtomPool) (es : list (Entry V)) : outcome Empty_set (list (string * V)) :=
  match es with
  | [] => Ok []
  | e :: es =>
      if decide (key e ≠ TOMBSTONE_KEY) then
        k ← unwrap (pool_get p (key e));
        rest ← iter_entries p es;
        Ok ((k, value e) :: rest)
      else iter_entries p es
  end.

Definition obj_iter (self : Object V) : outcome Empty_set (list (string * V)) :=
  iter_entries (arc_pool (pool self)) (entries self).

(** [AtomIter] *)
Definition obj_atoms (self : Object V) : list Atom := key <$> filter live (entries self).

(** [Object::insert_atom] returns the previous value. *)
Fixpoint replace_or_push (atom : Atom) (v : V) (es : list (Entry V)) : list (Entry V) * option V :=
  match es with
  | [] => ([mkEntry atom v], None)
  | e :: es =>
      if decide (key e = atom) then (mkEntry (key e) v :: es, Some (value e))
      else let '(es', old) := replace_or_push atom v es in (e :: es', old)
  end.

Definition obj_insert_atom (self : Object V) (atom : Atom) (v : V) : Object V * option V :=
  if decide (atom = TOMBSTONE_KEY) then (self, None)
  else let '(es, old) := replace_or_push atom v (entries self) in
       (mkObject (pool self) es, old).

Definition obj_insert (self : Object V) (k : string) (v : V)
    : outcome InternError (Object V * option V) :=
  match pool_lookup (arc_pool (pool self)) k with
  | None => Err (NotInterned k)
  | Some atom => Ok (obj_insert_atom self atom v)
  end.

Definition obj_contains_key (self : Object V) (k : string) : bool :=
  existsb (λ e, bool_decide (pool_get (arc_pool (pool self)) (key e) = Some k)) (entries self).

Definition obj_same_pool (self other : Object V) : bool :=
  Nat.eqb (arc_addr (pool self)) (arc_addr (pool other)).

Definition insert_atoms (self : Object V) (es : list (Entry V)) : Object V :=
  foldl (λ o e, fst (obj_insert_atom o (key e) (value e))) self es.

Fixpoint insert_all (self : Object V) (kvs : list (string * V)) : outcome InternError (Object V) :=
  match kvs with
  | [] => Ok self
  | (k, v) :: kvs => '(o, _) ← obj_insert self k v; insert_all o kvs
  end.

(** [Object::merge]; an attribute of [other] that [self]'s pool does not know
    hits the [expect]. *)
Definition obj_merge (self other : Object V) : outcome Empty_set (Object V) :=
  if obj_same_pool self other then Ok (insert_atoms self (entries other))
  else
    kvs ← obj_iter other;
    match insert_all self kvs with
    | Ok o => Ok o
    | Err _ | Panic => Panic
    end.

(** [Object::retain] *)
Fixpoint retain_entries (p : AtomPool) (f : string → V → bool) (es : list (Entry V))
    : outcome Empty_set (list (Entry V)) :=
  match es with
  | [] => Ok []
  | e :: es =>
      if decide (key e = TOMBSTONE_KEY) then retain_entries p f es
      else
        k ← unwrap (pool_get p (key e));
        rest ← retain_entries p f es;
        Ok (if f k (value e) then e :: rest else rest)
  end.

Definition obj_retain (self : Object V) (f : string → V → bool) : outcome Empty_set (Object V) :=
  es ← retain_entries (arc_pool (pool self)) f (entries self);
  Ok (mkObject (pool self) es).

(** [Object::remove] leaves a tombstone. *)
Fixpoint tombstone_atom `{!NullValue V} (atom : Atom) (es : list (Entry V))
    : list (Entry V) * option V :=
  match es with
  | [] => ([], None)
  | e :: es =>
      if decide (key e = atom) then
        (mkEntry TOMBSTONE_KEY (null_value : V) :: es, Some (value e))
      else let '(es', old) := tombstone_atom atom es in (e :: es', old)
  end.

Definition obj_remove `{!NullValue V} (self : Object V) (k : string) : Object V * option V :=
  match pool_lookup (arc_pool (pool self)) k with
  | None => (self, None)
  | Some atom =>
      let '(es, old) := tombstone_atom atom (entries self) in
      (mkObject (pool self) es, old)
  end.

Definition obj_len_ignore_atom (self : Object V) (atom : Atom) : nat :=
  length (filter (λ e, key e ≠ TOMBSTONE_KEY ∧ key e ≠ atom) (entries self)).

Context `{!EqDecision V}.

(** [Object::eq_ignore_key] and [impl PartialEq for Object] *)
Definition obj_eq_ignore_key (self other : Object V) (ignore_key : string)
    : outcome Empty_set bool :=
  let ignore := pool_lookup (arc_pool (pool self)) ignore_key in
  let len1 := match ignore with
              | Some to_ignore => obj_len_ignore_atom self to_ignore
              | None => obj_len self
              end in
  let len2 := match pool_lookup (arc_pool (pool other)) ignore_key with
              | Some to_ignore => obj_len_ignore_atom other to_ignore
              | None => obj_len other
              end in
  if decide (len1 ≠ len2) then Ok false
  else if obj_same_pool self other then
    Ok (forallb (λ e, bool_decide (obj_get_by_atom other (key e) = Some (value e)))
          (filter (λ e, key e ≠ TOMBSTONE_KEY ∧ ignore ≠ Some (key e)) (entries self)))
  else
    kvs ← obj_iter self;
    Ok (forallb (λ kv, bool_decide (obj_get other kv.1 = Some kv.2))
          (filter (λ kv, kv.1 ≠ ignore_key) kvs)).

Definition obj_eq (self other : Object V) : outcome Empty_set bool :=
  if decide (obj_len self ≠ obj_len other) then Ok false
  else if obj_same_pool self other then
    Ok (forallb (λ e, bool_decide (obj_get_by_atom other (key e) = Some (value e)))
          (filter live (entries self)))
  else
    kvs ← obj_iter self;
    Ok (forallb (λ kv, bool_decide (obj_get other kv.1 = Some kv.2)) kvs).

End Object.
