(* ===== verification/InternFacts.v ===== *)
(** * Correctness of interned strings and objects

    A pool whose chain of base pools is numbered consecutively ([pool_wf])
    is a bijection between its words and an initial segment of the atoms.
    Under it, every operation of [Object] is the operation of a finite map
    from attribute names to values ([obj_map]). *)

From Stdlib Require Import ZArith Lia.
From stdpp Require Import base gmap list strings.
From S2P Require Import Prelude Intern.

Local Open Scope Z_scope.

(** ** Pools *)

Definition pool_total (p : AtomPool) : Z := base_sym p + Z.of_nat (length (atoms p)).

(** The words of one level are exactly its atoms, numbered from [base_sym]. *)
Definition level_ok (p : AtomPool) : Prop :=
  ∀ w a, words p !! w = Some a ↔ base_sym p ≤ a ∧ atoms p !! Z.to_nat (a - base_sym p) = Some w.

Fixpoint pool_wf (p : AtomPool) : Prop :=
  match p.(base) with
  | None => base_sym p = 0
  | Some b =>
      pool_wf b ∧ base_sym p = pool_total b ∧
      ∀ w, is_Some (words p !! w) → pool_lookup b w = None
  end ∧ 0 ≤ base_sym p ∧ pool_total p ≤ ATOM_MAX ∧ level_ok p.

Lemma AtomPool_ind' (P : AtomPool → Prop) :
  (∀ p, base p = None → P p) →
  (∀ p b, base p = Some b → P b → P p) →
  ∀ p, P p.
Proof.
  intros H0 H1. fix IH 1. intros p. destruct p as [[b|] s a w] eqn:E.
  - eapply H1; [done|]. apply IH.
  - by apply H0.
Qed.

Lemma pool_get_bound p a w : pool_wf p → pool_get p a = Some w → 0 ≤ a < pool_total p.
Proof.
  revert a w. induction p as [p Hb|p b Hb IH] using AtomPool_ind'; intros a w Hwf Hg;
    destruct p as [pb s at' ws]; simpl in *; subst; unfold pool_total; simpl.
  - destruct Hwf as (-> & _ & _). case_decide; [done|].
    apply lookup_lt_Some in Hg. lia.
  - destruct Hwf as ((Hwb & Hs & _) & H0 & Hm & _). case_decide.
    + specialize (IH _ _ Hwb Hg). lia.
    + apply lookup_lt_Some in Hg. lia.
Qed.

Lemma pool_lookup_get p w a :
  pool_wf p → pool_lookup p w = Some a ↔ pool_get p a = Some w.
Proof.
  revert w a. induction p as [p Hb|p b Hb IH] using AtomPool_ind'; intros w a Hwf;
    destruct p as [pb s at' ws]; simpl in *; subst.
  - destruct Hwf as (-> & H0 & _ & Hl). rewrite (Hl w a); simpl. case_decide; [|naive_solver lia].
    split; [intros [? _]; lia|done].
  - destruct Hwf as ((Hwb & Hs & Hdis) & H0 & Hm & Hl). specialize (Hl w a); simpl in Hl.
    destruct (pool_lookup b w) as [a'|] eqn:E.
    + assert (ws !! w = None) as Hn.
      { destruct (ws !! w) eqn:Ew; [|done]. by rewrite (Hdis w) in E by eauto. }
      rewrite Hn in Hl. case_decide as Hd.
      * by rewrite <-IH, E.
      * split; [intros [= ->]|].
        -- apply IH in E; [|done]. apply pool_get_bound in E; [|done]. lia.
        -- intros Hat. destruct Hl as [_ Hl]. discriminate Hl. split; [lia|done].
    + rewrite Hl. case_decide as Hd.
      * split; [intros [? _]; lia|]. intros Hg. apply IH in Hg; [congruence|done].
      * naive_solver lia.
Qed.

Lemma pool_lookup_bound p w a : pool_wf p → pool_lookup p w = Some a → 0 ≤ a < ATOM_MAX.
Proof.
  intros Hwf Hl. apply pool_lookup_get in Hl; [|done].
  pose proof (pool_get_bound _ _ _ Hwf Hl).
  assert (pool_total p ≤ ATOM_MAX) by (destruct p; simpl in Hwf; tauto). lia.
Qed.

Lemma pool_lookup_level p w :
  pool_lookup p w = None → words p !! w = None.
Proof. destruct p as [[b|] s at' ws]; simpl; [|done]. by destruct (pool_lookup b w). Qed.

Lemma pool_new_wf : pool_wf pool_new.
Proof.
  repeat split; simpl; try done; unfold level_ok; simpl; intros; simplify_map_eq.
  naive_solver.
Qed.

Lemma pool_intern_wf p w p' a :
  pool_wf p → pool_intern p w = Ok (p', a) → pool_wf p' ∧ pool_lookup p' w = Some a.
Proof.
  unfold pool_intern. intros Hwf. destruct (pool_lookup p w) as [a'|] eqn:E; [by intros [= <- <-]|].
  unfold atom_try_from. case_decide as Hr; [|done]; simpl. case_decide as Ht; [done|].
  intros [= <- <-]. pose proof (pool_lookup_level _ _ E) as Hn.
  destruct p as [pb s at' ws]; simpl in *.
  destruct Hwf as (Hb & H0 & Hm & Hl). unfold pool_total, TOMBSTONE_KEY in *; simpl in *.
  split; [split; [|split; [done|split]]|].
  - destruct pb as [b|]; [|done]. destruct Hb as (Hb & Hs & Hd). split; [done|]. split; [done|].
    intros w'. rewrite lookup_insert. case_decide; [subst w'|by apply Hd].
    intros _. by destruct (pool_lookup b w).
  - unfold pool_total; simpl. rewrite length_app; simpl. lia.
  - intros w' a. simpl. rewrite lookup_insert, lookup_app. specialize (Hl w' a); simpl in Hl.
    case_decide.
    + subst w'. rewrite Hn in Hl. split.
      * intros [= <-]. split; [lia|]. rewrite (lookup_ge_None_2 at') by lia.
        by replace (_ - _)%nat with 0%nat by lia.
      * intros [Ha Hx]. destruct (at' !! Z.to_nat (a - s)) eqn:Ea.
        { simplify_eq. destruct Hl as [_ Hl]. discriminate Hl. done. }
        apply lookup_ge_None in Ea.
        destruct (Z.to_nat (a - s) - length at')%nat eqn:En; [|done]. f_equal. lia.
    + rewrite Hl. split; intros [Ha Hx]; split; try done.
      * by rewrite Hx.
      * destruct (at' !! Z.to_nat (a - s)) eqn:Ea; [done|].
        destruct (Z.to_nat (a - s) - length at')%nat; simpl in Hx; simplify_eq.
  - destruct pb as [b|]; simpl; [|by rewrite lookup_insert_eq].
    destruct (pool_lookup b w); [done|]. by rewrite lookup_insert_eq.
Qed.

(** A child of a root pool continues the numbering of its base. *)
Lemma pool_child_wf p p' :
  pool_wf p → base_sym p = 0 → pool_child p = Ok p' → pool_wf p'.
Proof.
  unfold pool_child, atom_try_from. intros Hwf H0. case_decide as Hr; [|done].
  intros [= <-]. simpl. unfold pool_total; simpl. split.
  - split; [done|]. split; [lia|]. intros w [? Hw]. by rewrite lookup_empty in Hw.
  - split; [lia|]. split; [lia|]. intros w a. simpl. rewrite lookup_empty, lookup_nil. naive_solver.
Qed.

Lemma pool_intern_lookup_mono p w p' a w' a' :
  pool_wf p → pool_intern p w = Ok (p', a) →
  pool_lookup p w' = Some a' → pool_lookup p' w' = Some a'.
Proof.
  unfold pool_intern. intros Hwf. destruct (pool_lookup p w) eqn:E; [by intros [= <- <-]|].
  unfold atom_try_from. case_decide; [|done]; simpl. case_decide; [done|]. intros [= <- <-].
  destruct p as [pb s at' ws]; simpl in *.
  destruct pb as [b|]; simpl.
  - destruct (pool_lookup b w') eqn:E'; [done|]. intros Hw. rewrite lookup_insert_ne; [done|].
    intros ->. rewrite E', Hw in E. done.
  - intros Hw. rewrite lookup_insert_ne; congruence.
Qed.

Lemma pool_intern_all_wf ws : ∀ p p',
  pool_wf p → pool_intern_all p ws = Ok p' →
  pool_wf p' ∧ (∀ w a, pool_lookup p w = Some a → pool_lookup p' w = Some a) ∧
  ∀ w, w ∈ ws → is_Some (pool_lookup p' w).
Proof.
  induction ws as [|w ws IH]; intros p p' Hwf; simpl.
  { intros [= <-]. split_and!; [done|done|set_solver]. }
  destruct (pool_intern p w) as [[p1 a]| |] eqn:E; simpl; try done. intros Hall.
  destruct (pool_intern_wf _ _ _ _ Hwf E) as [Hwf1 Hw].
  destruct (IH _ _ Hwf1 Hall) as (Hwf' & Hmono & Hin). split_and!; [done| |].
  - intros w' a' Hw'. apply Hmono. by eapply (pool_intern_lookup_mono p w p1 a).
  - intros w' [->|Hin']%elem_of_cons; [|by apply Hin]. exists a. by apply Hmono.
Qed.

Lemma pool_intern_base p w p' a :
  pool_intern p w = Ok (p', a) → base p' = base p ∧ base_sym p' = base_sym p.
Proof.
  unfold pool_intern. destruct (pool_lookup p w); [by intros [= <- <-]|].
  destruct (unwrap _); simpl; try done. case_decide; [done|]. by intros [= <- <-].
Qed.

Lemma pool_intern_all_base ws : ∀ p p',
  pool_intern_all p ws = Ok p' → base p' = base p ∧ base_sym p' = base_sym p.
Proof.
  induction ws as [|w ws IH]; intros p p'; simpl; [by intros [= <-]|].
  destruct (pool_intern p w) as [[p1 a]| |] eqn:E; simpl; try done. intros Hall.
  apply pool_intern_base in E as [<- <-]. by apply IH.
Qed.

Lemma pool_child_lookup p c w : pool_child p = Ok c → pool_lookup c w = pool_lookup p w.
Proof.
  unfold pool_child. destruct (unwrap _); simpl; try done. intros [= <-]. simpl.
  by destruct (pool_lookup p w).
Qed.

(** ** Objects as finite maps *)

Section ObjectFacts.
  Context {V : Type}.
  Implicit Types (o : Object V) (es : list (Entry V)).

Definition entry_kv (p : AtomPool) (e : Entry V) : option (string * V) :=
  if decide (key e = TOMBSTONE_KEY) then None
  else (λ k, (k, value e)) <$> pool_get p (key e).

Definition obj_map (o : Object V) : gmap string V :=
  list_to_map (omap (entry_kv (arc_pool (pool o))) (entries o)).

Definition atoms_of (es : list (Entry V)) : list Atom := key <$> filter live es.

(** Live keys are pairwise different and interned. *)
Definition obj_wf (o : Object V) : Prop :=
  pool_wf (arc_pool (pool o)) ∧ NoDup (atoms_of (entries o)) ∧
  ∀ a, a ∈ atoms_of (entries o) → is_Some (pool_get (arc_pool (pool o)) a).

Lemma find_atom_cons a e es :
  find_atom a (e :: es) = if decide (key e = a) then Some e else find_atom a es.
Proof.
  unfold find_atom. simpl. destruct (decide (key e = a)); [done|].
  by destruct (list_find (λ e0, key e0 = a) es) as [[]|].
Qed.

Lemma find_atom_key a es e : find_atom a es = Some e → key e = a ∧ e ∈ es.
Proof.
  induction es as [|e' es IH]; [done|]. rewrite find_atom_cons. case_decide.
  - intros [= ->]. split; [done|]. by left.
  - intros H'. destruct (IH H'). split; [done|]. by right.
Qed.

Lemma obj_map_lookup o k :
  pool_wf (arc_pool (pool o)) → obj_map o !! k = obj_get o k.
Proof.
  unfold obj_map, obj_get. destruct o as [[addr p] es]; simpl. intros Hwf.
  destruct (pool_lookup p k) as [a|] eqn:Ea.
  - pose proof (pool_lookup_bound _ _ _ Hwf Ea) as Hb.
    induction es as [|e es IH]; [done|]. rewrite find_atom_cons. simpl. unfold entry_kv at 1.
    case_decide as Ht.
    + rewrite decide_False; [done|]. unfold TOMBSTONE_KEY in Ht. lia.
    + case_decide as He.
      * subst a. rewrite pool_lookup_get in Ea by done. rewrite Ea. simpl.
        by rewrite lookup_insert_eq.
      * destruct (pool_get p (key e)) as [k'|] eqn:Ek; simpl; [|done].
        rewrite lookup_insert_ne; [done|]. intros ->.
        apply pool_lookup_get in Ek; [|done]. congruence.
  - induction es as [|e es IH]; [done|]. simpl. unfold entry_kv at 1. case_decide; [done|].
    destruct (pool_get p (key e)) as [k'|] eqn:Ek; simpl; [|done].
    rewrite lookup_insert_ne; [done|]. intros ->. apply pool_lookup_get in Ek; [|done]. congruence.
Qed.

Lemma find_atom_replace a b v es :
  find_atom b (replace_or_push a v es).1 =
    if decide (a = b) then Some (mkEntry a v) else find_atom b es.
Proof.
  induction es as [|e es IH]; simpl.
  { rewrite find_atom_cons. simpl. by case_decide. }
  destruct (decide (key e = a)) as [<-|Hne]; simpl.
  { rewrite !find_atom_cons. simpl. by case_decide. }
  destruct (replace_or_push a v es) as [es' old] eqn:E; simpl in *.
  rewrite !find_atom_cons, IH. do 2 case_decide; congruence.
Qed.

Lemma replace_old a v es : (replace_or_push a v es).2 = value <$> find_atom a es.
Proof.
  induction es as [|e es IH]; [done|]. rewrite find_atom_cons. simpl. case_decide; [done|].
  by destruct (replace_or_push a v es).
Qed.

Lemma atoms_of_cons e es :
  atoms_of (e :: es) =
    if decide (key e = TOMBSTONE_KEY) then atoms_of es else key e :: atoms_of es.
Proof. unfold atoms_of. rewrite filter_cons. unfold live. repeat case_decide; done. Qed.

Lemma replace_atoms a v es :
  a ≠ TOMBSTONE_KEY →
  atoms_of (replace_or_push a v es).1 =
    if decide (a ∈ atoms_of es) then atoms_of es else atoms_of es ++ [a].
Proof.
  intros Ha. induction es as [|e es IH]; cbn [replace_or_push].
  { simpl. rewrite atoms_of_cons. simpl. by rewrite decide_False. }
  destruct (decide (key e = a)) as [<-|Hne]; cbn [fst].
  - rewrite !atoms_of_cons. simpl. rewrite !decide_False by done. by rewrite decide_True by set_solver.
  - destruct (replace_or_push a v es) as [es' old] eqn:E; cbn [fst] in *.
    rewrite !atoms_of_cons, IH. repeat case_decide; set_solver.
Qed.

Lemma obj_insert_atom_pool o a v : pool (obj_insert_atom o a v).1 = pool o.
Proof.
  unfold obj_insert_atom. case_decide; [done|]. by destruct (replace_or_push a v (entries o)).
Qed.

Lemma obj_insert_atom_wf o a v :
  obj_wf o → is_Some (pool_get (arc_pool (pool o)) a) → obj_wf (obj_insert_atom o a v).1.
Proof.
  intros (Hp & Hnd & Hin) Ha. unfold obj_insert_atom. case_decide as Ht; [done|].
  destruct (replace_or_push a v (entries o)) as [es old] eqn:E. simpl.
  pose proof (replace_atoms a v (entries o) Ht) as Hat. rewrite E in Hat. simpl in Hat.
  split; [done|]. simpl. rewrite Hat. split; case_decide; try done.
  - apply NoDup_app. split; [done|]. split; [set_solver|]. apply NoDup_singleton.
  - intros b. rewrite elem_of_app, list_elem_of_singleton. naive_solver.
Qed.

Lemma obj_insert_atom_map o a v k :
  obj_wf o → pool_get (arc_pool (pool o)) a = Some k →
  obj_map (obj_insert_atom o a v).1 = <[k := v]> (obj_map o) ∧
  (obj_insert_atom o a v).2 = obj_map o !! k.
Proof.
  intros Hwf Ha. pose proof Hwf as (Hp & _ & _).
  assert (pool_lookup (arc_pool (pool o)) k = Some a) as Hl by by apply pool_lookup_get.
  pose proof (pool_lookup_bound _ _ _ Hp Hl) as Hb.
  assert (a ≠ TOMBSTONE_KEY) as Ht by (unfold TOMBSTONE_KEY; lia).
  split.
  - apply map_eq. intros k'. rewrite obj_map_lookup by by rewrite obj_insert_atom_pool.
    unfold obj_get. rewrite obj_insert_atom_pool. unfold obj_insert_atom. rewrite decide_False by done.
    destruct (replace_or_push a v (entries o)) as [es old] eqn:E. simpl.
    rewrite lookup_insert. rewrite obj_map_lookup by done. unfold obj_get.
    pose proof (λ b, find_atom_replace a b v (entries o)) as Hf. rewrite E in Hf. simpl in Hf.
    destruct (decide (k = k')) as [<-|Hk].
    + rewrite Hl. by rewrite Hf, decide_True.
    + destruct (pool_lookup (arc_pool (pool o)) k') as [b|] eqn:Hb'; [|done].
      rewrite Hf, decide_False; [done|]. intros <-. apply pool_lookup_get in Hb'; [|done]. congruence.
  - rewrite obj_map_lookup by done. unfold obj_get. rewrite Hl.
    unfold obj_insert_atom. rewrite decide_False by done.
    rewrite <-(replace_old a v). by destruct (replace_or_push a v (entries o)).
Qed.


Lemma obj_insert_spec o k v :
  obj_wf o →
  match pool_lookup (arc_pool (pool o)) k with
  | None => obj_insert o k v = Err (NotInterned k)
  | Some _ => ∃ o', obj_insert o k v = Ok (o', obj_map o !! k) ∧ obj_wf o' ∧
                    pool o' = pool o ∧ obj_map o' = <[k := v]> (obj_map o)
  end.
Proof.
  intros Hwf. unfold obj_insert. pose proof Hwf as (Hp & _).
  destruct (pool_lookup _ k) as [a|] eqn:E; [|done].
  apply pool_lookup_get in E; [|done].
  destruct (obj_insert_atom_map o a v k Hwf E) as [Hm Ho].
  exists (obj_insert_atom o a v).1. split_and!.
  - by rewrite <-Ho, <-surjective_pairing.
  - apply obj_insert_atom_wf; eauto.
  - apply obj_insert_atom_pool.
  - done.
Qed.

(** *** Iteration *)

Lemma entries_iter p es :
  (∀ a, a ∈ atoms_of es → is_Some (pool_get p a)) →
  iter_entries p es = Ok (omap (entry_kv p) es).
Proof.
  induction es as [|e es IH]; [done|]. rewrite atoms_of_cons. simpl. unfold entry_kv at 1.
  intros Hin. destruct (decide (key e = TOMBSTONE_KEY)) as [Ht|Ht].
  - rewrite decide_False by tauto. by apply IH.
  - rewrite decide_True by done. destruct (Hin (key e)) as [k Hk]; [set_solver|].
    rewrite Hk. simpl. rewrite IH by set_solver. done.
Qed.

Lemma entries_keys p es :
  (omap (entry_kv p) es).*1 = omap (pool_get p) (atoms_of es).
Proof.
  induction es as [|e es IH]; [done|]. rewrite atoms_of_cons. simpl. unfold entry_kv at 1.
  case_decide; [apply IH|]. simpl. destruct (pool_get p (key e)); simpl; [f_equal; apply IH|apply IH].
Qed.

Lemma entries_keys_nodup p es :
  pool_wf p → NoDup (atoms_of es) → NoDup (omap (entry_kv p) es).*1.
Proof.
  intros Hwf. rewrite entries_keys. induction (atoms_of es) as [|a l IH]; intros Hnd; [constructor|].
  apply NoDup_cons in Hnd as [Ha Hnd]. simpl.
  destruct (pool_get p a) as [k|] eqn:Ek; simpl; [|by apply IH].
  apply NoDup_cons. split; [|by apply IH].
  rewrite list_elem_of_omap. intros (b & Hb & Hk). apply pool_lookup_get in Ek, Hk; [|done..].
  by simplify_eq.
Qed.

Lemma obj_iter_spec o :
  obj_wf o →
  ∃ kvs, obj_iter o = Ok kvs ∧ NoDup kvs.*1 ∧ obj_map o = list_to_map kvs ∧
         kvs = omap (entry_kv (arc_pool (pool o))) (entries o).
Proof.
  intros (Hp & Hnd & Hin). eexists. split; [by apply entries_iter|].
  split; [|done]. by apply entries_keys_nodup.
Qed.

Lemma obj_len_size o : obj_wf o → obj_len o = size (obj_map o).
Proof.
  intros Hwf. destruct (obj_iter_spec o Hwf) as (kvs & _ & Hnd & -> & ->).
  destruct Hwf as (Hp & Hnd' & Hin).
  rewrite <-length_map_to_list, (map_to_list_to_map _ Hnd).
  rewrite <-(length_fmap fst), entries_keys. unfold obj_len.
  replace (length (filter live (entries o))) with (length (atoms_of (entries o)))
    by (unfold atoms_of; by rewrite length_fmap).
  induction (atoms_of (entries o)) as [|a l IH]; [done|]. simpl.
  destruct (Hin a) as [k ->]; [set_solver|]. simpl. f_equal. apply IH; [|set_solver].
  by apply NoDup_cons in Hnd' as [].
Qed.

Lemma obj_contains_key_spec o k :
  obj_wf o → obj_contains_key o k = bool_decide (is_Some (obj_map o !! k)).
Proof.
  intros (Hp & _ & _). rewrite obj_map_lookup by done. apply eq_bool_prop_intro.
  rewrite bool_decide_spec. unfold obj_contains_key, obj_get. rewrite Is_true_true, existsb_exists.
  setoid_rewrite bool_decide_eq_true. setoid_rewrite <-list_elem_of_In. split.
  - intros (e & He & Hk). rewrite <-pool_lookup_get in Hk by done. rewrite Hk.
    induction (entries o) as [|e' es IH]; [set_solver|]. rewrite find_atom_cons.
    case_decide; [by eexists|]. apply IH. set_solver.
  - destruct (pool_lookup _ k) as [a|] eqn:E; [|by intros [? ?]].
    intros [v Hv]. apply fmap_Some in Hv as (e & He & ->). apply find_atom_key in He as [<- He].
    exists e. split; [done|]. by apply pool_lookup_get.
Qed.

(** *** Merging *)

Lemma insert_atoms_spec es : ∀ o,
  obj_wf o → NoDup (atoms_of es) →
  (∀ a, a ∈ atoms_of es → is_Some (pool_get (arc_pool (pool o)) a)) →
  obj_wf (insert_atoms o es) ∧ pool (insert_atoms o es) = pool o ∧
  obj_map (insert_atoms o es) =
    list_to_map (omap (entry_kv (arc_pool (pool o))) es) ∪ obj_map o.
Proof.
  induction es as [|e es IH]; intros o Hwf Hnd Hin; simpl.
  { by rewrite (left_id_L ∅ (∪)). }
  rewrite atoms_of_cons in Hnd, Hin. unfold entry_kv at 1.
  destruct (decide (key e = TOMBSTONE_KEY)) as [Ht|Ht].
  { unfold obj_insert_atom. rewrite decide_True by done. by apply IH. }
  apply NoDup_cons in Hnd as [Hne Hnd]. destruct (Hin (key e)) as [k Hk]; [set_solver|].
  destruct (obj_insert_atom_map o (key e) (value e) k Hwf Hk) as [Hm _].
  destruct (IH (obj_insert_atom o (key e) (value e)).1) as (Hwf' & Hp' & Hm').
  { apply obj_insert_atom_wf; eauto. }
  { done. }
  { rewrite obj_insert_atom_pool. set_solver. }
  rewrite obj_insert_atom_pool in Hp', Hm'. split; [done|]. split; [done|].
  rewrite Hm', Hm, Hk. simpl. rewrite <-insert_union_l. symmetry. apply insert_union_r.
  apply not_elem_of_list_to_map_1. rewrite entries_keys, list_elem_of_omap.
  intros (b & Hb & Hkb). apply pool_lookup_get in Hk, Hkb; [|apply Hwf..].
  by simplify_eq.
Qed.

Lemma insert_all_spec kvs : ∀ o,
  obj_wf o → NoDup kvs.*1 →
  (∀ k, k ∈ kvs.*1 → is_Some (pool_lookup (arc_pool (pool o)) k)) →
  ∃ o', insert_all o kvs = Ok o' ∧ obj_wf o' ∧ pool o' = pool o ∧
        obj_map o' = list_to_map kvs ∪ obj_map o.
Proof.
  induction kvs as [|[k v] kvs IH]; intros o Hwf Hnd Hin; simpl in *.
  { exists o. by rewrite (left_id_L ∅ (∪)). }
  apply NoDup_cons in Hnd as [Hne Hnd].
  pose proof (obj_insert_spec o k v Hwf) as Hi. destruct (Hin k) as [a Ha]; [set_solver|].
  rewrite Ha in Hi. destruct Hi as (o1 & Ho1 & Hwf1 & Hp1 & Hm1).
  destruct (IH o1 Hwf1 Hnd) as (o' & Ho' & Hwf' & Hp' & Hm'); [rewrite Hp1; set_solver|].
  exists o'. rewrite Ho1. simpl. split; [done|]. split; [done|]. split; [congruence|].
  rewrite Hm', Hm1, <-insert_union_l. symmetry. apply insert_union_r.
  by apply not_elem_of_list_to_map_1.
Qed.

Lemma obj_merge_spec o1 o2 :
  obj_wf o1 → obj_wf o2 →
  (obj_same_pool o1 o2 = true → pool o1 = pool o2) →
  (∀ k, is_Some (obj_map o2 !! k) → is_Some (pool_lookup (arc_pool (pool o1)) k)) →
  ∃ o', obj_merge o1 o2 = Ok o' ∧ obj_wf o' ∧ pool o' = pool o1 ∧
        obj_map o' = obj_map o2 ∪ obj_map o1.
Proof.
  intros Hwf1 Hwf2 Hsame Hin. unfold obj_merge. destruct (obj_same_pool o1 o2).
  - specialize (Hsame eq_refl). destruct Hwf2 as (Hp2 & Hnd2 & Hin2).
    destruct (insert_atoms_spec (entries o2) o1 Hwf1 Hnd2) as (Hwf' & Hp' & Hm'); [by rewrite Hsame|].
    eexists. split; [done|]. split; [done|]. split; [done|]. rewrite Hm'. unfold obj_map.
    by rewrite Hsame.
  - destruct (obj_iter_spec o2 Hwf2) as (kvs & Hit & Hnd & Hm & _). rewrite Hit. simpl.
    destruct (insert_all_spec kvs o1 Hwf1 Hnd) as (o' & Ho' & Hwf' & Hp' & Hm').
    { intros k Hk. apply Hin. rewrite Hm. apply elem_of_dom. rewrite dom_list_to_map_L. set_solver. }
    exists o'. rewrite Ho'. split; [done|]. split; [done|]. split; [done|]. by rewrite Hm', Hm.
Qed.


(** *** Removing *)

Lemma tombstone_old `{!NullValue V} a es :
  (tombstone_atom a es).2 = value <$> find_atom a es.
Proof.
  induction es as [|e es IH]; [done|]. rewrite find_atom_cons. simpl. case_decide; [done|].
  by destruct (tombstone_atom a es).
Qed.

Lemma tombstone_atoms `{!NullValue V} a es :
  a ≠ TOMBSTONE_KEY → NoDup (atoms_of es) →
  atoms_of (tombstone_atom a es).1 = filter (λ b, b ≠ a) (atoms_of es).
Proof.
  intros Ha. induction es as [|e es IH]; [done|]. rewrite atoms_of_cons. intros Hnd.
  cbn [tombstone_atom]. destruct (decide (key e = a)) as [<-|Hne]; cbn [fst].
  - rewrite atoms_of_cons. simpl. rewrite decide_False in Hnd |- * by done.
    apply NoDup_cons in Hnd as [Hin _]. rewrite filter_cons_False by tauto.
    symmetry. apply filter_all. intros b Hb ->. done.
  - destruct (tombstone_atom a es) as [es' old] eqn:E. cbn [fst] in *. rewrite atoms_of_cons.
    case_decide; [by apply IH|]. apply NoDup_cons in Hnd as [_ Hnd].
    rewrite filter_cons_True by done. by rewrite IH.
Qed.

Lemma find_atom_tombstone `{!NullValue V} a b es :
  b ≠ TOMBSTONE_KEY → NoDup (atoms_of es) →
  find_atom b (tombstone_atom a es).1 = if decide (a = b) then None else find_atom b es.
Proof.
  intros Hb. induction es as [|e es IH]; intros Hnd; [by case_decide|].
  rewrite atoms_of_cons in Hnd. cbn [tombstone_atom].
  destruct (decide (key e = a)) as [<-|Hne]; cbn [fst].
  - rewrite !find_atom_cons. simpl. rewrite (decide_False (P := TOMBSTONE_KEY = b)) by done.
    destruct (decide (key e = b)) as [He|He]; [|done]. rewrite decide_False in Hnd by congruence.
    apply NoDup_cons in Hnd as [Hin _]. destruct (find_atom b es) as [e'|] eqn:Ef; [|done].
    apply find_atom_key in Ef as [Hk Hin']. destruct Hin. unfold atoms_of.
    apply list_elem_of_fmap. exists e'. split; [congruence|]. apply list_elem_of_filter.
    split; [unfold live; congruence|done].
  - destruct (tombstone_atom a es) as [es' old] eqn:E. cbn [fst] in *. rewrite !find_atom_cons, IH.
    + repeat case_decide; congruence.
    + case_decide; [done|]. by apply NoDup_cons in Hnd as [].
Qed.

Lemma obj_remove_spec `{!NullValue V} o k :
  obj_wf o →
  obj_wf (obj_remove o k).1 ∧ pool (obj_remove o k).1 = pool o ∧
  obj_map (obj_remove o k).1 = delete k (obj_map o) ∧ (obj_remove o k).2 = obj_map o !! k.
Proof.
  intros Hwf. pose proof Hwf as (Hp & Hnd & Hin). unfold obj_remove.
  rewrite (obj_map_lookup o k Hp). unfold obj_get.
  destruct (pool_lookup _ k) as [a|] eqn:E; simpl.
  2:{ split; [done|]. split; [done|]. split; [|done]. symmetry. apply delete_id.
      rewrite obj_map_lookup by done. unfold obj_get. by rewrite E. }
  pose proof (pool_lookup_bound _ _ _ Hp E) as Hb.
  assert (a ≠ TOMBSTONE_KEY) as Ht by (unfold TOMBSTONE_KEY; lia).
  pose proof (tombstone_atoms a (entries o) Ht Hnd) as Hat.
  pose proof (tombstone_old a (entries o)) as Hold.
  pose proof (λ b Hb, find_atom_tombstone a b (entries o) Hb Hnd) as Hf.
  destruct (tombstone_atom a (entries o)) as [es old]. simpl in *. split; [|split; [done|split; [|done]]].
  - split; [done|]. simpl. rewrite Hat. split; [by apply NoDup_filter|].
    intros b [_ Hb']%list_elem_of_filter. by apply Hin.
  - apply map_eq. intros k'. rewrite obj_map_lookup by done. unfold obj_get. simpl.
    rewrite lookup_delete. rewrite obj_map_lookup by done. unfold obj_get.
    destruct (decide (k = k')) as [<-|Hk].
    + by rewrite E, Hf, decide_True.
    + destruct (pool_lookup _ k') as [b|] eqn:E'; [|done].
      pose proof (pool_lookup_bound _ _ _ Hp E').
      rewrite Hf by (unfold TOMBSTONE_KEY; lia). rewrite decide_False; [done|].
      intros <-. apply pool_lookup_get in E, E'; [|done..]. congruence.
Qed.

(** *** Retaining *)

Lemma retain_entries_spec p f es :
  (∀ a, a ∈ atoms_of es → is_Some (pool_get p a)) →
  ∃ es', retain_entries p f es = Ok es' ∧
         sublist (atoms_of es') (atoms_of es) ∧
         omap (entry_kv p) es' = filter (λ kv, f kv.1 kv.2 = true) (omap (entry_kv p) es).
Proof.
  induction es as [|e es IH]; intros Hin; [by exists []|]. rewrite atoms_of_cons in *. simpl.
  unfold entry_kv at 2. destruct (decide (key e = TOMBSTONE_KEY)) as [Ht|Ht]; [by apply IH|].
  destruct (Hin (key e)) as [k Hk]; [set_solver|]. rewrite Hk. simpl.
  destruct IH as (es' & -> & Hs & Hm); [set_solver|]. simpl.
  eexists. split; [done|]. rewrite filter_cons. simpl. destruct (f k (value e)).
  - rewrite atoms_of_cons, decide_False by done. split; [by apply sublist_skip|].
    rewrite decide_True by done. simpl. unfold entry_kv at 1. rewrite decide_False by done.
    rewrite Hk. simpl. f_equal. exact Hm.
  - split; [by apply sublist_cons|]. by rewrite decide_False.
Qed.

Lemma obj_retain_spec o f :
  obj_wf o →
  ∃ o', obj_retain o f = Ok o' ∧ obj_wf o' ∧ pool o' = pool o ∧
        obj_map o' = filter (λ kv, f kv.1 kv.2 = true) (obj_map o).
Proof.
  intros Hwf. destruct (obj_iter_spec o Hwf) as (kvs & _ & Hnd & Hm & Hkvs).
  destruct Hwf as (Hp & Hnda & Hin).
  destruct (retain_entries_spec _ f _ Hin) as (es' & Hr & Hs & Ho).
  unfold obj_retain. rewrite Hr. simpl. eexists. split; [done|]. split; [|split; [done|]].
  - split; [done|]. simpl. split; [by eapply sublist_NoDup|].
    intros a Ha. apply Hin. by eapply elem_of_sublist.
  - unfold obj_map at 1. simpl. rewrite Ho, Hm, Hkvs. rewrite Hkvs in Hnd.
    apply map_eq. intros k. apply option_eq. intros v.
    rewrite map_lookup_filter_Some, <-!elem_of_list_to_map.
    + rewrite list_elem_of_filter. naive_solver.
    + done.
    + eapply sublist_NoDup; [done|]. apply fmap_sublist. apply sublist_filter.
Qed.

(** *** Equality up to one key *)

Lemma obj_len_ignore_spec o k :
  obj_wf o →
  match pool_lookup (arc_pool (pool o)) k with
  | Some a => obj_len_ignore_atom o a
  | None => obj_len o
  end = size (delete k (obj_map o)).
Proof.
  intros Hwf. pose proof Hwf as (Hp & Hnd & Hin).
  destruct (pool_lookup _ k) as [a|] eqn:E.
  - pose proof (pool_lookup_bound _ _ _ Hp E) as Hb.
    assert (obj_len_ignore_atom o a = length (filter (λ b, b ≠ a) (atoms_of (entries o)))) as ->.
    { unfold obj_len_ignore_atom. clear. induction (entries o) as [|e es IH]; [done|].
      rewrite atoms_of_cons, !filter_cons.
      repeat case_decide; simpl; rewrite ?filter_cons; repeat case_decide; simpl;
        try (f_equal; exact IH); try exact IH; tauto. }
    rewrite map_size_delete, <-obj_len_size by done.
    rewrite obj_map_lookup by done. unfold obj_get. rewrite E. unfold obj_len.
    replace (length (filter live (entries o))) with (length (atoms_of (entries o)))
      by (unfold atoms_of; by rewrite length_fmap).
    assert (is_Some (find_atom a (entries o)) ↔ a ∈ atoms_of (entries o)) as Hf.
    { assert (a ≠ TOMBSTONE_KEY) as Ht by (unfold TOMBSTONE_KEY; lia). clear -Ht.
      induction (entries o) as [|e es IH]; [split; [by intros [? ?]|set_solver]|].
      rewrite find_atom_cons, atoms_of_cons. repeat case_decide; set_solver. }
    rewrite length_filter_ne by done. destruct (find_atom a (entries o)) eqn:Ef; simpl.
    + rewrite decide_True by (apply Hf; eauto). lia.
    + rewrite decide_False; [lia|]. rewrite <-Hf. apply is_Some_None.
  - rewrite delete_id; [by apply obj_len_size|]. rewrite obj_map_lookup by done. unfold obj_get.
    by rewrite E.
Qed.

Lemma obj_map_entry o k v :
  obj_wf o →
  obj_map o !! k = Some v ↔
  ∃ e, e ∈ entries o ∧ entry_kv (arc_pool (pool o)) e = Some (k, v).
Proof.
  intros (Hp & Hnd & Hin). unfold obj_map. rewrite <-elem_of_list_to_map.
  - by rewrite list_elem_of_omap.
  - by apply entries_keys_nodup.
Qed.

Lemma obj_get_by_atom_map o a k :
  obj_wf o → pool_get (arc_pool (pool o)) a = Some k → obj_get_by_atom o a = obj_map o !! k.
Proof.
  intros (Hp & _) Ha. rewrite obj_map_lookup by done. apply pool_lookup_get in Ha; [|done].
  unfold obj_get_by_atom, obj_get. rewrite Ha. pose proof (pool_lookup_bound _ _ _ Hp Ha).
  rewrite decide_False; [done|]. unfold TOMBSTONE_KEY. lia.
Qed.

Lemma entry_kv_live o e :
  obj_wf o → e ∈ entries o → live e →
  ∃ k, pool_get (arc_pool (pool o)) (key e) = Some k ∧
       entry_kv (arc_pool (pool o)) e = Some (k, value e).
Proof.
  intros (_ & _ & Hin) He Hl. destruct (Hin (key e)) as [k Hk].
  { apply list_elem_of_fmap. exists e. split; [done|]. by apply list_elem_of_filter. }
  exists k. unfold entry_kv. unfold live in Hl. by rewrite decide_False, Hk by done.
Qed.

Context `{!EqDecision V}.

(** The comparison of the entries of [eq_ignore_key], with equal pools. *)
Lemma eq_entries_spec o1 o2 k :
  obj_wf o1 → obj_wf o2 → pool o1 = pool o2 →
  forallb (λ e, bool_decide (obj_get_by_atom o2 (key e) = Some (value e)))
    (filter (λ e, key e ≠ TOMBSTONE_KEY ∧ pool_lookup (arc_pool (pool o1)) k ≠ Some (key e))
       (entries o1)) = true ↔
  delete k (obj_map o1) ⊆ delete k (obj_map o2).
Proof.
  intros H1 H2 Hp. rewrite forallb_forall. setoid_rewrite <-list_elem_of_In.
  setoid_rewrite list_elem_of_filter. setoid_rewrite bool_decide_eq_true.
  rewrite map_subseteq_spec. setoid_rewrite lookup_delete_Some. split.
  - intros H k' v [Hne Hk']. split; [done|]. apply obj_map_entry in Hk' as (e & He & Hkv); [|done].
    unfold entry_kv in Hkv. case_decide as Ht; [done|].
    destruct (pool_get _ (key e)) as [k''|] eqn:Ek; simplify_eq/=.
    rewrite <-(obj_get_by_atom_map o2 (key e)) by (done || by rewrite <-Hp).
    apply H. split; [|done]. split; [done|]. intros Hl.
    apply pool_lookup_get in Hl; [|apply H1]. congruence.
  - intros H e [[Ht Hi] He]. destruct (entry_kv_live o1 e H1 He Ht) as (k' & Hk' & Hkv).
    rewrite (obj_get_by_atom_map o2 _ k') by (done || by rewrite <-Hp).
    apply H. split; [intros ->|apply obj_map_entry; eauto].
    apply Hi. by apply pool_lookup_get; [apply H1|].
Qed.

(** The same comparison over the key/value pairs, for different pools. *)
Lemma eq_kvs_spec o1 o2 k :
  obj_wf o1 → obj_wf o2 →
  forallb (λ kv, bool_decide (obj_get o2 kv.1 = Some kv.2))
    (filter (λ kv, kv.1 ≠ k) (omap (entry_kv (arc_pool (pool o1))) (entries o1))) = true ↔
  delete k (obj_map o1) ⊆ delete k (obj_map o2).
Proof.
  intros H1 H2. rewrite forallb_forall. setoid_rewrite <-list_elem_of_In.
  setoid_rewrite list_elem_of_filter. setoid_rewrite bool_decide_eq_true.
  rewrite map_subseteq_spec. setoid_rewrite lookup_delete_Some.
  setoid_rewrite <-obj_map_lookup; [|apply H2].
  setoid_rewrite list_elem_of_omap. setoid_rewrite obj_map_entry; [|done..].
  split; [naive_solver|]. intros H [k' v]. naive_solver.
Qed.

Lemma eq_ignore_key_spec o1 o2 k :
  obj_wf o1 → obj_wf o2 → (obj_same_pool o1 o2 = true → pool o1 = pool o2) →
  obj_eq_ignore_key o1 o2 k =
    Ok (bool_decide (delete k (obj_map o1) = delete k (obj_map o2))).
Proof.
  intros H1 H2 Hp. unfold obj_eq_ignore_key. rewrite !obj_len_ignore_spec by done.
  assert (∀ b : bool, size (delete k (obj_map o1)) = size (delete k (obj_map o2)) →
    (b = true ↔ delete k (obj_map o1) ⊆ delete k (obj_map o2)) →
    b = bool_decide (delete k (obj_map o1) = delete k (obj_map o2))) as Hb.
  { intros b Hs Hb. apply eq_bool_prop_intro. rewrite Is_true_true, Hb, bool_decide_spec.
    split; [|by intros ->]. intros. apply map_subseteq_size_eq; [done|lia]. }
  destruct (decide (size (delete k (obj_map o1)) ≠ size (delete k (obj_map o2)))) as [Hs|Hs].
  { f_equal. symmetry. apply bool_decide_eq_false. congruence. }
  apply dec_stable in Hs. destruct (obj_same_pool o1 o2) eqn:Esp.
  - f_equal. apply Hb; [done|]. apply eq_entries_spec; auto.
  - destruct (obj_iter_spec o1 H1) as (kvs & -> & _ & _ & ->). simpl. f_equal. apply Hb; [done|].
    by apply eq_kvs_spec.
Qed.

End ObjectFacts.

(** ** The contract of [Object]

    What a client of [Object] relies on: a finite map from strings to values
    that refuses keys that are not interned.  [object_step] runs the code's
    operation, [map_step] the corresponding operation of the map. *)

Section ObjectContract.
  Context {V : Type} `{!NullValue V}.

Inductive ObjectOp :=
| OpInsert (k : string) (v : V)
| OpRemove (k : string)
| OpRetain (f : string → V → bool)
| OpGet (k : string)
| OpContainsKey (k : string)
| OpLen.

Inductive ObjectRes :=
| RValue (v : option V)
| RBool (b : bool)
| RLen (n : nat)
| RUnit.

Definition object_step (o : Object V) (op : ObjectOp) : outcome InternError (Object V * ObjectRes) :=
  match op with
  | OpInsert k v => '(o', old) ← obj_insert o k v; Ok (o', RValue old)
  | OpRemove k => let '(o', old) := obj_remove o k in Ok (o', RValue old)
  | OpRetain f =>
      match obj_retain o f with
      | Ok o' => Ok (o', RUnit)
      | Err _ | Panic => Panic
      end
  | OpGet k => Ok (o, RValue (obj_get o k))
  | OpContainsKey k => Ok (o, RBool (obj_contains_key o k))
  | OpLen => Ok (o, RLen (obj_len o))
  end.

Definition map_step (interned : string → bool) (m : gmap string V) (op : ObjectOp)
    : outcome InternError (gmap string V * ObjectRes) :=
  match op with
  | OpInsert k v => if interned k then Ok (<[k := v]> m, RValue (m !! k)) else Err (NotInterned k)
  | OpRemove k => Ok (delete k m, RValue (m !! k))
  | OpRetain f => Ok (filter (λ kv, f kv.1 kv.2 = true) m, RUnit)
  | OpGet k => Ok (m, RValue (m !! k))
  | OpContainsKey k => Ok (m, RBool (bool_decide (is_Some (m !! k))))
  | OpLen => Ok (m, RLen (size m))
  end.

Fixpoint run {S} (step : S → ObjectOp → outcome InternError (S * ObjectRes))
    (s : S) (ops : list ObjectOp) : outcome InternError (S * list ObjectRes) :=
  match ops with
  | [] => Ok (s, [])
  | op :: ops =>
      '(s', r) ← step s op;
      '(s'', rs) ← run step s' ops;
      Ok (s'', r :: rs)
  end.

Definition is_interned (p : ArcPool) (k : string) : bool :=
  bool_decide (is_Some (pool_lookup (arc_pool p) k)).

(** Two results agree: same errors, same answers, and the object denotes the map. *)
Definition refines {R} (x : outcome InternError (Object V * R))
    (y : outcome InternError (gmap string V * R)) (p : ArcPool) : Prop :=
  match x, y with
  | Ok (o, r), Ok (m, r') => r = r' ∧ obj_wf o ∧ pool o = p ∧ obj_map o = m
  | Err e, Err e' => e = e'
  | _, _ => False
  end.

Lemma object_step_refines o op :
  obj_wf o →
  refines (object_step o op) (map_step (is_interned (pool o)) (obj_map o) op) (pool o).
Proof.
  intros Hwf. destruct op as [k v|k|f|k|k|]; simpl.
  - pose proof (obj_insert_spec o k v Hwf) as Hi. unfold is_interned.
    destruct (pool_lookup _ k).
    + by destruct Hi as (o' & -> & Hi).
    + by rewrite Hi.
  - pose proof (obj_remove_spec o k Hwf) as Hr. destruct (obj_remove o k). simpl in *. naive_solver.
  - destruct (obj_retain_spec o f Hwf) as (o' & -> & Hr). done.
  - rewrite obj_map_lookup by apply Hwf. done.
  - by rewrite obj_contains_key_spec.
  - by rewrite obj_len_size.
Qed.

(** An [Object] implements a finite map over the interned keys.  Any
    sequence of insert, remove, retain, get, contains_key and len operations
    on a well-formed object gives the answers and the error of the same
    sequence on the map the object denotes; it never panics, and the object
    stays well-formed, over the same pool, and denotes the resulting map. *)
Theorem object_refines_map o ops :
  obj_wf o →
  refines (run object_step o ops) (run (map_step (is_interned (pool o))) (obj_map o) ops) (pool o).
Proof.
  revert o. induction ops as [|op ops IH]; intros o Hwf; simpl; [done|].
  pose proof (object_step_refines o op Hwf) as Hs.
  destruct (object_step o op) as [[o1 r]|e|], (map_step _ _ op) as [[m1 r']|e'|]; simpl in *; try done.
  destruct Hs as (-> & Hwf1 & Hp & <-). specialize (IH o1 Hwf1). rewrite Hp in IH.
  destruct (run object_step o1 ops) as [[o2 rs]|e|], (run _ (obj_map o1) ops) as [[m2 rs']|e'|];
    simpl in *; naive_solver.
Qed.

End ObjectContract.

(** ** Pools as the schema code builds them *)

(** Interning round trip.  For a pool built from the words [ws] and a
    child pool that interns [ws'] on top of it, every word of both lists has
    an atom, [lookup] and [get] are inverse to each other, and the child
    gives the words of the base pool the atoms they have there. *)
Theorem pool_roundtrip ws ws' p c p' :
  pool_from_iter ws = Ok p → pool_child p = Ok c → pool_intern_all c ws' = Ok p' →
  (∀ w a, pool_lookup p' w = Some a ↔ pool_get p' a = Some w) ∧
  (∀ w, w ∈ ws ++ ws' → is_Some (pool_lookup p' w)) ∧
  (∀ w a, pool_lookup p w = Some a → pool_lookup p' w = Some a).
Proof.
  intros Hp Hc Hp'. destruct (pool_intern_all_wf _ _ _ pool_new_wf Hp) as (Hwf & _ & Hin).
  destruct (pool_intern_all_base _ _ _ Hp) as [_ Hb].
  pose proof (pool_child_wf _ _ Hwf Hb Hc) as Hwfc.
  destruct (pool_intern_all_wf _ _ _ Hwfc Hp') as (Hwf' & Hmono & Hin').
  setoid_rewrite (pool_child_lookup _ _ _ Hc) in Hmono.
  split_and!; [by intros; apply pool_lookup_get| |done].
  intros w [Hw|Hw]%elem_of_app; [|by apply Hin'].
  destruct (Hin w Hw) as [a Ha]. exists a. by apply Hmono.
Qed.

Definition sample_pool : AtomPool :=
  match pool_from_iter ["id"; "name"]%string with Ok p => p | _ => pool_new end.

Definition sample_child : AtomPool :=
  match pool_child sample_pool with Ok p => p | _ => pool_new end.

Definition sample_child_full : AtomPool :=
  match pool_intern_all sample_child ["vid"; "id"; "User"]%string with Ok p => p | _ => pool_new end.

Lemma pool_roundtrip_witness :
  (∀ w a, pool_lookup sample_child_full w = Some a ↔ pool_get sample_child_full a = Some w) ∧
  (∀ w, w ∈ ["id"; "name"; "vid"; "id"; "User"]%string → is_Some (pool_lookup sample_child_full w)) ∧
  (∀ w a, pool_lookup sample_pool w = Some a → pool_lookup sample_child_full w = Some a).
Proof.
  apply (pool_roundtrip ["id"; "name"]%string ["vid"; "id"; "User"]%string sample_pool sample_child);
    vm_compute; reflexivity.
Defined.

Definition sample_grandchild : AtomPool :=
  match c ← pool_intern_all sample_child ["vid"]%string; g ← pool_child c;
        pool_intern_all g ["extra"]%string with
  | Ok p => p
  | _ => pool_new
  end.

(** A child of a child pool does not work.  [child] numbers the new pool
    from the length of the last level only, so with the pools "id", "name" /
    "vid" / "extra" the third level resolves the atom of "name" to "extra" and
    does not know the atom of "vid" at all, although it looks both words up. *)
Theorem grandchild_pool_collides :
  ∃ g, (p ← pool_from_iter ["id"; "name"]%string; c ← pool_child p;
        c ← pool_intern_all c ["vid"]%string; g ← pool_child c;
        pool_intern_all g ["extra"]%string) = Ok g ∧
       pool_lookup g "name" = Some 1 ∧ pool_get g 1 = Some "extra"%string ∧
       pool_lookup g "vid" = Some 2 ∧ pool_get g 2 = None.
Proof.
  exists sample_grandchild. split; [vm_compute; reflexivity|].
  split_and!; vm_compute; reflexivity.
Qed.

#[local] Instance sample_null : NullValue Z := 0.

Definition sample_object : Object Z :=
  mkObject (mkArcPool 0 sample_pool) [mkEntry 0 7; mkEntry TOMBSTONE_KEY 0].

Lemma sample_pool_wf : pool_wf sample_pool.
Proof.
  destruct (pool_intern_all_wf ["id"; "name"]%string pool_new sample_pool pool_new_wf) as [? _];
    [vm_compute; reflexivity|done].
Defined.

Lemma object_refines_map_witness :
  refines (run object_step sample_object [OpInsert "name"%string 3; OpRemove "id"%string; OpLen])
    (run (map_step (is_interned (pool sample_object))) (obj_map sample_object)
       [OpInsert "name"%string 3; OpRemove "id"%string; OpLen]) (pool sample_object).
Proof.
  apply object_refines_map. split; [exact sample_pool_wf|]. simpl. split.
  - apply NoDup_singleton.
  - intros a ->%list_elem_of_singleton. vm_compute. by eexists.
Defined.
