(* ===== verification/Entity.v ===== *)
(** * Entities

    [Entity] of [graph/src/data/store/mod.rs]: an [Object] of values with a
    hidden attribute ["vid"].  Construction, the two merges, validation
    against the schema and the equality that ignores the vid. *)

From Stdlib Require Import ZArith Lia.
From stdpp Require Import base gmap list strings sorting.
From S2P Require Import Prelude Values Intern InternFacts.

Local Open Scope Z_scope.

Abbreviation Entity := (Object Value) (only parsing).

#[export] Instance value_null : NullValue Value := VNull.

Definition VID_FIELD : string := "vid".

(** The errors keep the values that the code prints into its messages. *)
Inductive EntityValidationError :=
| UnknownEntityType (key : EntityKey)
| MismatchedElementTypeInList (key : EntityKey) (field : Field) (value elt : Value) (index : nat)
| InvalidFieldType (key : EntityKey) (field : Field) (value : Value)
| MissingValueForNonNullableField (key : EntityKey) (field : string)
| CannotSetDerivedField (key : EntityKey) (field : string)
| UnknownKey (key : string)
| MissingIDAttribute (entity : Entity)
| UnsupportedTypeForIDAttribute.

Definition entity_get (self : Entity) (k : string) : option Value :=
  if decide (k = VID_FIELD) then None else obj_get self k.

Definition entity_contains_key (self : Entity) (k : string) : bool :=
  if decide (k = VID_FIELD) then false else obj_contains_key self k.

(** [impl IntoIterator for &Entity] *)
Definition entity_iter (self : Entity) : outcome Empty_set (list (string * Value)) :=
  kvs ← obj_iter self;
  Ok (filter (λ kv, kv.1 ≠ VID_FIELD) kvs).

(** [Entity::sorted], [sorted_ref]: sorted by attribute name. *)
Definition kv_le (a b : string * Value) : Prop := String.leb a.1 b.1 = true.

#[export] Instance kv_le_dec : RelDecision kv_le.
Proof. intros a b. unfold kv_le. apply _. Defined.

Definition entity_sorted (self : Entity) : outcome Empty_set (list (string * Value)) :=
  kvs ← entity_iter self;
  Ok (merge_sort kv_le kvs).

Definition entity_check_id (self : Entity) : outcome EntityValidationError unit :=
  match entity_get self "id" with
  | None => Err (MissingIDAttribute self)
  | Some (VString _) | Some (VBytes _) | Some (VInt8 _) => Ok tt
  | _ => Err UnsupportedTypeForIDAttribute
  end.

(** [Entity::make] *)
Definition entity_make (p : ArcPool) (iter : list (string * Value))
    : outcome EntityValidationError Entity :=
  match insert_all (obj_new p) iter with
  | Err (NotInterned k) => Err (UnknownKey k)
  | Panic => Panic
  | Ok obj => _ ← entity_check_id obj; Ok obj
  end.

(** [Entity::try_make]: the items of the iterator may be errors. *)
Inductive TryMakeError (E : Type) :=
| ItemError (e : E)
| UnknownAttributeError (k : string)
| ValidationError (e : EntityValidationError).
Arguments ItemError {E} e.
Arguments UnknownAttributeError {E} k.
Arguments ValidationError {E} e.

Fixpoint try_insert_all {E} (obj : Entity) (iter : list (outcome E (string * Value)))
    : outcome (TryMakeError E) Entity :=
  match iter with
  | [] => Ok obj
  | Err e :: _ => Err (ItemError e)
  | Panic :: _ => Panic
  | Ok (k, v) :: iter =>
      match obj_insert obj k v with
      | Err (NotInterned k) => Err (UnknownAttributeError k)
      | Panic => Panic
      | Ok (obj', _) => try_insert_all obj' iter
      end
  end.

Definition entity_try_make {E} (p : ArcPool) (iter : list (outcome E (string * Value)))
    : outcome (TryMakeError E) Entity :=
  obj ← try_insert_all (obj_new p) iter;
  match entity_check_id obj with
  | Ok _ => Ok obj
  | Err e => Err (ValidationError e)
  | Panic => Panic
  end.

(** [Entity::id] and [Entity::vid] panic when the attribute is missing or has
    the wrong type. *)
Definition entity_id_of (self : Entity) : outcome Empty_set Id :=
  v ← unwrap (entity_get self "id");
  match id_try_from_value v with
  | Ok id => Ok id
  | Err _ | Panic => Panic
  end.

Definition entity_vid (self : Entity) : outcome Empty_set Z :=
  v ← unwrap (obj_get self VID_FIELD);
  unwrap (value_as_int8 v).

Definition entity_set_vid (self : Entity) (value : Z) : outcome InternError (Entity * option Value) :=
  obj_insert self VID_FIELD (VInt8 value).

Definition entity_merge (self update : Entity) : outcome Empty_set Entity :=
  obj_merge self update.

(** [Entity::merge_remove_null_fields]: [self] is changed in place, also when
    the call fails half way. *)
Fixpoint merge_null_loop (self : Entity) (changed : bool) (kvs : list (string * Value))
    : Entity * outcome InternError bool :=
  match kvs with
  | [] => (self, Ok changed)
  | (k, v) :: kvs =>
      let is_vid := bool_decide (k = VID_FIELD) in
      match v with
      | VNull =>
          let '(self', old) := obj_remove self k in
          merge_null_loop self' (changed || (bool_decide (is_Some old) && negb is_vid)) kvs
      | _ =>
          let different := bool_decide (obj_get self k ≠ Some v) in
          match obj_insert self k v with
          | Ok (self', _) => merge_null_loop self' (changed || (different && negb is_vid)) kvs
          | Err e => (self, Err e)
          | Panic => (self, Panic)
          end
      end
  end.

Definition entity_merge_remove_null_fields (self update : Entity)
    : Entity * outcome InternError bool :=
  match obj_iter update with
  | Ok kvs => merge_null_loop self false kvs
  | Err _ | Panic => (self, Panic)
  end.

Definition entity_remove_null_fields (self : Entity) : outcome Empty_set Entity :=
  obj_retain self (λ _ v, negb (value_is_null v)).

Definition entity_merge_iter (self : Entity) (iter : list (string * Value))
    : outcome InternError Entity :=
  insert_all self iter.

(** [Entity::validate] *)
Fixpoint validate_elts (key : EntityKey) (field : Field) (v : Value) (elts : list Value)
    (index : nat) : outcome EntityValidationError unit :=
  match elts with
  | [] => Ok tt
  | elt :: elts =>
      if negb (value_is_assignable elt (value_type field) false)
      then Err (MismatchedElementTypeInList key field v elt index)
      else validate_elts key field v elts (S index)
  end.

Definition validate_field (self : Entity) (key : EntityKey) (field : Field)
    : outcome EntityValidationError unit :=
  match entity_get self (field_name field), is_derived field with
  | Some v, false =>
      _ ← (if is_list (field_type field) then
             match v with
             | VList elts => validate_elts key field v elts 0
             | _ => Ok tt
             end
           else Ok tt);
      if negb (value_is_assignable v (value_type field) (is_list (field_type field)))
      then Err (InvalidFieldType key field v)
      else Ok tt
  | None, false =>
      if is_non_null (field_type field)
      then Err (MissingValueForNonNullableField key (field_name field))
      else Ok tt
  | Some _, true => Err (CannotSetDerivedField key (field_name field))
  | None, true => Ok tt
  end.

Fixpoint validate_fields (self : Entity) (key : EntityKey) (fields : list Field)
    : outcome EntityValidationError unit :=
  match fields with
  | [] => Ok tt
  | f :: fields => _ ← validate_field self key f; validate_fields self key fields
  end.

Definition entity_validate `{InputSchema} (self : Entity) (key : EntityKey)
    : outcome EntityValidationError unit :=
  if is_poi (entity_type key) then Ok tt
  else
    match object_type (entity_type key) with
    | None => Err (UnknownEntityType key)
    | Some fields => validate_fields self key fields
    end.

(** [impl PartialEq for Entity] *)
Definition entity_eq (self other : Entity) : outcome Empty_set bool :=
  obj_eq_ignore_key self other VID_FIELD.
