(* ===== verification/EntityFacts.v ===== *)
(** * Correctness of entities

    What the two merges, the removal of nulls, the comparison and the
    validation of entities do to the map that an entity denotes. *)

From Stdlib Require Import ZArith Lia.
From stdpp Require Import base gmap list strings.
From S2P Require Import Prelude Values Intern InternFacts Entity.

Local Open Scope Z_scope.

Implicit Types (m u : gmap string Value) (e self update : Object Value).

(** ** The merges on maps *)

(** The effect of [merge_remove_null_fields]: attributes of the update win,
    and its nulls delete. *)
Definition null_merge m u : gmap string Value :=
  merge (λ old new, match new with
                    | Some VNull => None
                    | Some v => Some v
                    | None => old
                    end) m u.

Definition strip_nulls m : gmap string Value :=
  filter (λ kv, value_is_null kv.2 = false) m.

(** What the rest of the system can see of an entity. *)
Definition visible m : gmap string Value := delete VID_FIELD m.

Lemma null_merge_lookup m u k :
  null_merge m u !! k =
    match u !! k with
    | Some VNull => None
    | Some v => Some v
    | None => m !! k
    end.
Proof. unfold null_merge. rewrite lookup_merge. by destruct (m !! k), (u !! k) as [[]|]. Qed.

#[export] Hint Rewrite null_merge_lookup : views.

Lemma null_merge_empty m : null_merge m ∅ = m.
Proof. by_attribute. Qed.

Lemma null_merge_step m k v kvs :
  k ∉ kvs.*1 →
  null_merge m (list_to_map ((k, v) :: kvs)) =
  null_merge (match v with VNull => delete k m | _ => <[k := v]> m end) (list_to_map kvs).
Proof.
  intros Hk. apply map_eq. intros k'. rewrite !null_merge_lookup. simpl.
  destruct (decide (k = k')) as [<-|Hne].
  - rewrite lookup_insert_eq, not_elem_of_list_to_map_1 by done.
    by destruct v; rewrite ?lookup_delete_eq, ?lookup_insert_eq.
  - rewrite lookup_insert_ne by done. destruct (list_to_map kvs !! k') as [[]|]; try done.
    by destruct v; rewrite ?lookup_delete_ne, ?lookup_insert_ne.
Qed.

(** An update applied on top of another one. *)
Lemma null_merge_assoc m u1 u2 :
  null_merge (null_merge m u1) u2 = null_merge m (u2 ∪ u1).
Proof. by_attribute. Qed.

Lemma strip_nulls_lookup m k :
  strip_nulls m !! k = match m !! k with Some VNull => None | o => o end.
Proof.
  unfold strip_nulls. destruct (m !! k) as [v|] eqn:E.
  - destruct v; [rewrite map_lookup_filter_Some_2 with (x := _) by done; done..| | |];
      try (by apply map_lookup_filter_Some_2). apply map_lookup_filter_None. right.
    intros v Hv. simplify_eq. done.
  - apply map_lookup_filter_None. by left.
Qed.

#[export] Hint Rewrite strip_nulls_lookup : views.

Lemma strip_nulls_union m u : strip_nulls (u ∪ m) = null_merge (strip_nulls m) u.
Proof. by_attribute. Qed.

Lemma strip_nulls_null_merge m u : strip_nulls (null_merge m u) = null_merge (strip_nulls m) u.
Proof. by_attribute. Qed.

Lemma visible_eq_at m m1 k :
  (∀ k', k' ≠ k → m1 !! k' = m !! k') →
  visible m = visible m1 ↔ k = VID_FIELD ∨ m !! k = m1 !! k.
Proof.
  intros Ho. unfold visible. rewrite map_eq_iff. split.
  - intros Hv. destruct (decide (k = VID_FIELD)); [by left|right]. specialize (Hv k).
    by rewrite !lookup_delete_ne in Hv by done.
  - intros Hk k'. destruct (decide (k' = VID_FIELD)) as [->|Hne]; [by rewrite !lookup_delete_eq|].
    rewrite !lookup_delete_ne by done. destruct (decide (k' = k)) as [->|]; [naive_solver|].
    symmetry. by apply Ho.
Qed.

Lemma visible_split m m1 mm k :
  (∀ k', k' ≠ k → m1 !! k' = m !! k') → mm !! k = m1 !! k →
  visible m = visible mm ↔ visible m = visible m1 ∧ visible m1 = visible mm.
Proof.
  intros Ho Hk. split; [|by intros [-> ->]]. intros Hv.
  assert (visible m = visible m1) as Heq; [|by rewrite <-Heq].
  apply (visible_eq_at _ _ k); [done|]. destruct (decide (k = VID_FIELD)); [by left|right].
  apply (f_equal (.!! k)) in Hv. unfold visible in Hv. rewrite !lookup_delete_ne in Hv by done.
  congruence.
Qed.

Lemma changed_step m m1 mm k (changed b : bool) :
  (∀ k', k' ≠ k → m1 !! k' = m !! k') → mm !! k = m1 !! k →
  b = bool_decide (m !! k ≠ m1 !! k) →
  changed || (b && negb (bool_decide (k = VID_FIELD))) || bool_decide (visible m1 ≠ visible mm) =
  changed || bool_decide (visible m ≠ visible mm).
Proof.
  intros Ho Hk ->. rewrite <-orb_assoc. f_equal. apply eq_bool_prop_intro.
  rewrite orb_True, andb_True, negb_True, !bool_decide_spec.
  rewrite (visible_split m m1 mm k), (visible_eq_at m m1 k) by done.
  destruct (decide (visible m1 = visible mm)), (decide (k = VID_FIELD)), (decide (m !! k = m1 !! k));
    naive_solver.
Qed.

(** ** The operations of entities on the maps they denote *)

Lemma merge_null_loop_spec kvs : ∀ self changed,
  obj_wf self → NoDup kvs.*1 →
  (∀ k v, (k, v) ∈ kvs → v ≠ VNull → is_Some (pool_lookup (arc_pool (pool self)) k)) →
  ∃ self', merge_null_loop self changed kvs =
      (self', Ok (changed || bool_decide (visible (obj_map self) ≠
                                          visible (null_merge (obj_map self) (list_to_map kvs))))) ∧
    obj_wf self' ∧ pool self' = pool self ∧
    obj_map self' = null_merge (obj_map self) (list_to_map kvs).
Proof.
  induction kvs as [|[k v] kvs IH]; intros self changed Hwf Hnd Hin.
  { exists self. rewrite null_merge_empty, bool_decide_false, orb_false_r by naive_solver. done. }
  apply NoDup_cons in Hnd as [Hk Hnd]. rewrite null_merge_step by done. cbn [merge_null_loop].
  assert (∀ self1 b, obj_wf self1 → pool self1 = pool self →
    obj_map self1 = (match v with VNull => delete k (obj_map self) | _ => <[k:=v]> (obj_map self) end) →
    b = bool_decide (obj_map self !! k ≠ obj_map self1 !! k) →
    ∃ self', merge_null_loop self1 (changed || (b && negb (bool_decide (k = VID_FIELD)))) kvs =
      (self', Ok (changed || bool_decide (visible (obj_map self) ≠
                                          visible (null_merge (obj_map self1) (list_to_map kvs))))) ∧
    obj_wf self' ∧ pool self' = pool self ∧
    obj_map self' = null_merge (obj_map self1) (list_to_map kvs)) as Hstep.
  { intros self1 b Hwf1 Hp Hm Hb.
    destruct (IH self1 (changed || (b && negb (bool_decide (k = VID_FIELD)))) Hwf1 Hnd) as (s & Hs & ? & ? & ?).
    { intros k' v' Hkv Hv'. rewrite Hp. by eapply Hin; [right|]. }
    exists s. split; [|split_and!; congruence]. rewrite Hs. do 2 f_equal. apply (changed_step _ _ _ k).
    - intros k' Hne. rewrite Hm. by destruct v; rewrite ?lookup_delete_ne, ?lookup_insert_ne.
    - rewrite null_merge_lookup. by rewrite not_elem_of_list_to_map_1.
    - done. }
  destruct (decide (v = VNull)) as [->|Hv].
  - destruct (obj_remove_spec self k Hwf) as (Hwf1 & Hp1 & Hm1 & Ho1).
    destruct (obj_remove self k) as [self1 old]. simpl in *. rewrite <-Hm1. apply Hstep; [done..|].
    apply bool_decide_ext. rewrite Ho1, Hm1, lookup_delete_eq. destruct (obj_map self !! k); naive_solver.
  - pose proof (obj_insert_spec self k v Hwf) as Hi.
    destruct (Hin k v) as [a Ha]; [by left|done|]. rewrite Ha in Hi.
    destruct Hi as (self1 & -> & Hwf1 & Hp1 & Hm1).
    assert (obj_map self1 = (match v with VNull => delete k (obj_map self) | _ => <[k:=v]> (obj_map self) end))
      as Hm1' by (rewrite Hm1; by destruct v).
    destruct (Hstep self1 (bool_decide (obj_get self k ≠ Some v)) Hwf1 Hp1 Hm1') as (s & Hs & ?).
    { apply bool_decide_ext. by rewrite Hm1, lookup_insert_eq, obj_map_lookup by apply Hwf. }
    rewrite Hm1' in Hs. exists s. rewrite <-Hm1'. rewrite <-Hm1' in Hs. split; [|done].
    rewrite <-Hs. by destruct v.
Qed.

(** The attributes an update sets are all known to the schema of [self]. *)
Definition fits_pool (self update : Object Value) : Prop :=
  ∀ k, is_Some (obj_map update !! k) → is_Some (pool_lookup (arc_pool (pool self)) k).

Lemma merge_remove_null_fields_map self update :
  obj_wf self → obj_wf update → fits_pool self update →
  ∃ self', entity_merge_remove_null_fields self update =
      (self', Ok (bool_decide (visible (obj_map self) ≠ visible (obj_map self')))) ∧
    obj_wf self' ∧ pool self' = pool self ∧
    obj_map self' = null_merge (obj_map self) (obj_map update).
Proof.
  intros Hwf Hwfu Hfit. unfold entity_merge_remove_null_fields.
  destruct (obj_iter_spec update Hwfu) as (kvs & -> & Hnd & Hm & _).
  destruct (merge_null_loop_spec kvs self false Hwf Hnd) as (self' & Hs & Hwf' & Hp & Hm').
  { intros k v Hkv _. apply Hfit. rewrite Hm. exists v. by apply elem_of_list_to_map_1. }
  exists self'. rewrite Hs, Hm', Hm. done.
Qed.

Lemma remove_null_fields_spec self :
  obj_wf self →
  ∃ self', entity_remove_null_fields self = Ok self' ∧ obj_wf self' ∧ pool self' = pool self ∧
           obj_map self' = strip_nulls (obj_map self).
Proof.
  intros Hwf. destruct (obj_retain_spec self (λ _ v, negb (value_is_null v)) Hwf)
    as (self' & Hr & Hwf' & Hp & Hm).
  exists self'. split; [done|]. split; [done|]. split; [done|]. rewrite Hm. unfold strip_nulls.
  apply map_filter_ext. intros k v _. simpl. by destruct (value_is_null v).
Qed.

Lemma null_merge_idemp m u : null_merge (null_merge m u) u = null_merge m u.
Proof. rewrite null_merge_assoc. by rewrite map_union_idemp. Qed.

(** [merge_remove_null_fields] never fails on an update whose attributes
    belong to the schema.  The attributes of the update win, its nulls delete
    attributes, everything else is kept, and the returned flag is true
    exactly when the visible part of the entity (all but the vid) changed.
    Merging the same update a second time reports no change. *)
Theorem merge_remove_null_fields_spec self update :
  obj_wf self → obj_wf update → fits_pool self update →
  ∃ self' self'',
    entity_merge_remove_null_fields self update =
      (self', Ok (bool_decide (visible (obj_map self) ≠ visible (obj_map self')))) ∧
    obj_wf self' ∧ pool self' = pool self ∧
    obj_map self' = null_merge (obj_map self) (obj_map update) ∧
    entity_merge_remove_null_fields self' update = (self'', Ok false) ∧
    obj_map self'' = obj_map self'.
Proof.
  intros Hwf Hwfu Hfit.
  destruct (merge_remove_null_fields_map self update Hwf Hwfu Hfit) as (s1 & H1 & Hwf1 & Hp1 & Hm1).
  destruct (merge_remove_null_fields_map s1 update Hwf1 Hwfu) as (s2 & H2 & _ & _ & Hm2).
  { unfold fits_pool. by rewrite Hp1. }
  assert (obj_map s2 = obj_map s1) as Heq by by rewrite Hm2, Hm1, null_merge_idemp.
  exists s1, s2. split_and!; try done. rewrite H2, Heq. by rewrite bool_decide_false by naive_solver.
Qed.

(** *** Construction *)

Lemma obj_new_wf (p : ArcPool) : pool_wf (arc_pool p) → obj_wf (obj_new p : Object Value).
Proof. intros Hp. split; [done|]. split; [constructor|]. intros a Ha. by apply not_elem_of_nil in Ha. Qed.

Lemma insert_all_total kvs : ∀ self,
  obj_wf self →
  (∀ k, k ∈ kvs.*1 → is_Some (pool_lookup (arc_pool (pool self)) k)) →
  ∃ self', insert_all self kvs = Ok self' ∧ obj_wf self' ∧ pool self' = pool self ∧
           obj_map self' = list_to_map (reverse kvs) ∪ obj_map self.
Proof.
  induction kvs as [|[k v] kvs IH]; intros self Hwf Hin; simpl in *.
  { exists self. by rewrite (left_id_L ∅ (∪)). }
  pose proof (obj_insert_spec self k v Hwf) as Hi. destruct (Hin k) as [a Ha]; [by left|].
  rewrite Ha in Hi. destruct Hi as (o1 & -> & Hwf1 & Hp1 & Hm1). simpl.
  destruct (IH o1 Hwf1) as (o' & Ho' & Hwf' & Hp' & Hm').
  { intros k' Hk'. rewrite Hp1. apply Hin. by right. }
  exists o'. split; [done|]. split; [done|]. split; [congruence|].
  rewrite Hm', Hm1. rewrite reverse_cons, list_to_map_app. simpl.
  rewrite <-(assoc_L (∪)), <-insert_union_l. by rewrite (left_id_L ∅ (∪)).
Qed.

Lemma insert_all_interned kvs : ∀ self self',
  insert_all self kvs = Ok self' →
  ∀ k, k ∈ kvs.*1 → is_Some (pool_lookup (arc_pool (pool self)) k).
Proof.
  induction kvs as [|[k v] kvs IH]; intros o obj; simpl.
  { intros _ k Hk. by apply not_elem_of_nil in Hk. }
  unfold obj_insert. destruct (pool_lookup (arc_pool (pool o)) k) as [a|] eqn:Ea; simpl; [|done].
  destruct (obj_insert_atom o a v) as [o' old] eqn:Eo. intros Hi.
  pose proof (obj_insert_atom_pool o a v) as Hpo. rewrite Eo in Hpo. simpl in Hpo.
  intros k' [->|Hk']%elem_of_cons; [by eexists|]. rewrite <-Hpo. by eapply IH.
Qed.

Lemma insert_all_unknown kvs : ∀ self k,
  insert_all self kvs = Err (NotInterned k) →
  k ∈ kvs.*1 ∧ pool_lookup (arc_pool (pool self)) k = None.
Proof.
  induction kvs as [|[k v] kvs IH]; intros self k'; simpl; [done|]. unfold obj_insert.
  destruct (pool_lookup (arc_pool (pool self)) k) as [a|] eqn:E; simpl.
  - destruct (obj_insert_atom self a v) as [o old] eqn:Eo. intros Hi. apply IH in Hi as [Hin Hl].
    split; [by right|]. pose proof (obj_insert_atom_pool self a v) as Hp. rewrite Eo in Hp.
    simpl in Hp. by rewrite <-Hp.
  - intros [= <-]. split; [by left|done].
Qed.

Lemma insert_all_no_panic kvs : ∀ self, insert_all self kvs ≠ Panic.
Proof.
  induction kvs as [|[k v] kvs IH]; intros self; simpl; [done|]. unfold obj_insert.
  destruct (pool_lookup _ k); simpl; [|done]. by destruct (obj_insert_atom self _ v).
Qed.

Lemma entity_get_map self k :
  obj_wf self → k ≠ VID_FIELD → entity_get self k = obj_map self !! k.
Proof. intros (Hp & _) Hk. unfold entity_get. by rewrite decide_False, obj_map_lookup by done. Qed.

(** The ids an entity may have. *)
Definition valid_id_value (v : Value) : Prop :=
  match v with VString _ | VBytes _ | VInt8 _ => True | _ => False end.

Lemma check_id_ok self :
  entity_check_id self = Ok tt ↔ ∃ v, entity_get self "id" = Some v ∧ valid_id_value v.
Proof. unfold entity_check_id. destruct (entity_get self "id") as [[]|]; naive_solver. Qed.

Definition all_interned (p : ArcPool) (ks : list string) : Prop :=
  ∀ k, k ∈ ks → is_Some (pool_lookup (arc_pool p) k).

(** The results [Entity::make] may have for the attributes [kvs], of which the
    last one with a given name counts. *)
Definition make_contract (p : ArcPool) (kvs : list (string * Value))
    (r : outcome EntityValidationError (Object Value)) : Prop :=
  let attrs : gmap string Value := list_to_map (reverse kvs) in
  match r with
  | Ok e =>
      all_interned p kvs.*1 ∧ obj_wf e ∧ pool e = p ∧ obj_map e = attrs ∧
      ∃ id, entity_id_of e = Ok id ∧ attrs !! "id"%string = Some (value_from_id id)
  | Err (UnknownKey k) => k ∈ kvs.*1 ∧ pool_lookup (arc_pool p) k = None
  | Err (MissingIDAttribute _) => all_interned p kvs.*1 ∧ attrs !! "id"%string = None
  | Err UnsupportedTypeForIDAttribute =>
      all_interned p kvs.*1 ∧ ∃ v, attrs !! "id"%string = Some v ∧ ¬ valid_id_value v
  | _ => False
  end.

(** The whole behaviour of [Entity::make].  It succeeds exactly when all
    names are interned and the last ["id"] is a String, Bytes or Int8; the
    entity then holds, for every attribute, the last value given for it and
    [Entity::id] returns that id without a panic.  Otherwise it reports the
    unknown key, the missing id or the unsupported type of the id, and it
    never panics. *)
Theorem entity_make_spec (p : ArcPool) (kvs : list (string * Value)) :
  pool_wf (arc_pool p) → make_contract p kvs (entity_make p kvs).
Proof.
  intros Hp. unfold make_contract, entity_make.
  destruct (insert_all (obj_new p) kvs) as [obj|[k]|] eqn:E.
  - assert (all_interned p kvs.*1) as Hin by exact (insert_all_interned kvs (obj_new p) obj E).
    destruct (insert_all_total kvs (obj_new p) (obj_new_wf p Hp) Hin) as (o' & Ho' & Hwf & Hpo & Hm).
    rewrite E in Ho'. injection Ho' as <-.
    assert (obj_map obj = list_to_map (reverse kvs)) as Hm' by (rewrite Hm; apply (right_id_L ∅ (∪))).
    rewrite <-Hm', <-entity_get_map by done. unfold entity_check_id, entity_id_of.
    destruct (entity_get obj "id") as [[]|] eqn:Eid; simpl; rewrite ?Eid; simpl; naive_solver.
  - by apply insert_all_unknown in E.
  - by apply insert_all_no_panic in E.
Qed.

(** *** Equality *)

(** Two entities compare equal exactly when they denote the same
    attributes apart from the vid, also when they live in different pools. *)
Theorem entity_eq_spec (e1 e2 : Object Value) :
  obj_wf e1 → obj_wf e2 → (obj_same_pool e1 e2 = true → pool e1 = pool e2) →
  entity_eq e1 e2 = Ok (bool_decide (visible (obj_map e1) = visible (obj_map e2))).
Proof. intros. unfold entity_eq, visible. by apply eq_ignore_key_spec. Qed.

(** *** Validation *)

(** What the schema demands of one field. *)
Definition field_valid (self : Object Value) (f : Field) : Prop :=
  match entity_get self (field_name f) with
  | None => is_derived f = false → is_non_null (field_type f) = false
  | Some v => is_derived f = false ∧ value_is_assignable v (value_type f) (is_list (field_type f)) = true
  end.

Lemma assignable_list vs t :
  value_is_assignable (VList vs) t true = forallb (λ v, value_is_assignable v t false) vs.
Proof. simpl. destruct t; induction vs as [|v vs IH]; simpl; congruence. Qed.

Lemma validate_elts_ok key f v elts : ∀ index,
  validate_elts key f v elts index = Ok tt ↔
  forallb (λ v, value_is_assignable v (value_type f) false) elts = true.
Proof.
  induction elts as [|elt elts IH]; intros index; simpl; [done|].
  destruct (value_is_assignable elt _ false); simpl; [apply IH|done].
Qed.

Lemma validate_elts_err key f v elts : ∀ index,
  validate_elts key f v elts index = Ok tt ∨
  ∃ n elt, elts !! n = Some elt ∧ value_is_assignable elt (value_type f) false = false ∧
    validate_elts key f v elts index = Err (MismatchedElementTypeInList key f v elt (index + n)).
Proof.
  induction elts as [|elt elts IH]; intros index; simpl; [by left|].
  destruct (value_is_assignable elt _ false) eqn:Ea; simpl.
  - destruct (IH (S index)) as [?|(n & e & ? & ? & ?)]; [by left|]. right. exists (S n), e.
    split_and!; try done. by rewrite Nat.add_succ_r.
  - right. exists 0%nat, elt. rewrite Nat.add_0_r. done.
Qed.

Lemma validate_field_ok self key f : validate_field self key f = Ok tt ↔ field_valid self f.
Proof.
  unfold validate_field, field_valid.
  destruct (entity_get self (field_name f)) as [v|], (is_derived f) eqn:Ed; [naive_solver| |naive_solver|].
  - destruct (is_list (field_type f)) eqn:El; simpl.
    + destruct v as [| | | | | |vs| | |]; try (destruct (value_is_assignable _ _ _); naive_solver).
      rewrite assignable_list. destruct (validate_elts_err key f (VList vs) vs 0) as [Hv|(n & e & Hn & He & Hv)].
      * rewrite Hv. simpl. apply validate_elts_ok in Hv. rewrite Hv. naive_solver.
      * rewrite Hv. simpl. split; [done|]. intros [_ Hall].
        apply (validate_elts_ok key f (VList vs) vs 0) in Hall. congruence.
    + destruct (value_is_assignable _ _ _); naive_solver.
  - destruct (is_non_null (field_type f)); naive_solver.
Qed.

Lemma validate_fields_ok self key fs :
  validate_fields self key fs = Ok tt ↔ Forall (field_valid self) fs.
Proof.
  induction fs as [|f fs IH]; simpl; [done|]. rewrite Forall_cons, <-IH, <-(validate_field_ok self key).
  destruct (validate_field self key f) as [[]| |]; simpl; naive_solver.
Qed.

(** [Entity::validate] accepts an entity exactly when it is a proof of
    indexing, or its type is known and every field is valid: a derived field
    is not set, a field that is set has a value assignable to its type (every
    element of a list, for a list), and a non-nullable field that is not
    derived is set. *)
Theorem validate_spec `{InputSchema} self key :
  entity_validate self key = Ok tt ↔
  is_poi (entity_type key) = true ∨
  ∃ fields, object_type (entity_type key) = Some fields ∧ Forall (field_valid self) fields.
Proof.
  unfold entity_validate. destruct (is_poi (entity_type key)); [naive_solver|].
  destruct (object_type (entity_type key)) as [fields|]; [|naive_solver].
  rewrite validate_fields_ok. naive_solver.
Qed.

(** A null passes validation for a non-nullable field.  Whatever the type
    of the field, [Some Null] is assignable to it, so an entity that sets a
    non-nullable field to null is accepted although it can not be stored. *)
Theorem null_passes_non_null self key f :
  entity_get self (field_name f) = Some VNull → is_derived f = false →
  validate_field self key f = Ok tt.
Proof.
  intros Hg Hd. apply validate_field_ok. unfold field_valid. rewrite Hg. split; [done|]. done.
Qed.

(** ** Concrete entities *)

Definition sample_arc : ArcPool := mkArcPool 1 sample_child_full.

Lemma sample_arc_wf : pool_wf (arc_pool sample_arc).
Proof.
  destruct (pool_intern_all_wf ["vid"; "id"; "User"]%string sample_child sample_child_full) as [? _].
  - apply (pool_child_wf sample_pool); [exact sample_pool_wf|vm_compute; reflexivity..].
  - vm_compute. reflexivity.
  - done.
Defined.

Definition sample_user (kvs : list (Atom * Value)) : Object Value :=
  mkObject sample_arc ((λ kv, mkEntry kv.1 kv.2) <$> kvs).

Lemma sample_user_wf kvs :
  NoDup kvs.*1 → forallb (λ a, bool_decide (0 ≤ a < 3)) kvs.*1 = true → obj_wf (sample_user kvs).
Proof.
  intros Hnd Hr. assert (atoms_of (entries (sample_user kvs)) = kvs.*1) as Hat.
  { unfold sample_user. simpl. clear Hnd. induction kvs as [|[a v] kvs IH]; [done|].
    cbn [fmap list_fmap] in *. rewrite atoms_of_cons. simpl in *.
    apply andb_true_iff in Hr as [Ha Hr]. apply bool_decide_eq_true in Ha.
    rewrite decide_False by (unfold TOMBSTONE_KEY, ATOM_MAX; lia). f_equal. by apply IH. }
  split; [exact sample_arc_wf|]. rewrite Hat. split; [done|]. intros a Ha.
  rewrite forallb_forall in Hr. specialize (Hr a). rewrite <-list_elem_of_In, bool_decide_eq_true in Hr.
  specialize (Hr Ha). simpl. assert (a = 0 ∨ a = 1 ∨ a = 2) as [-> | [-> | ->]] by lia;
    vm_compute; by eexists.
Defined.

Definition sample_ann : Object Value :=
  sample_user [(0, VString "u1"); (1, VString "Ann"); (2, VInt8 7)].

Definition sample_update : Object Value := sample_user [(1, VNull); (2, VInt8 8)].

Lemma merge_remove_null_fields_witness :
  ∃ self' self'',
    entity_merge_remove_null_fields sample_ann sample_update =
      (self', Ok (bool_decide (visible (obj_map sample_ann) ≠ visible (obj_map self')))) ∧
    obj_wf self' ∧ pool self' = pool sample_ann ∧
    obj_map self' = null_merge (obj_map sample_ann) (obj_map sample_update) ∧
    entity_merge_remove_null_fields self' sample_update = (self'', Ok false) ∧
    obj_map self'' = obj_map self'.
Proof.
  apply merge_remove_null_fields_spec.
  - apply sample_user_wf; [|done]. by apply (bool_decide_unpack _).
  - apply sample_user_wf; [|done]. by apply (bool_decide_unpack _).
  - intros k. rewrite obj_map_lookup by exact sample_arc_wf. unfold obj_get.
    change (pool sample_update) with (pool sample_ann).
    destruct (pool_lookup _ k); [by eexists|by intros [? ?]].
Defined.

Lemma entity_make_witness :
  let kvs := [("id"%string, VString "u1"); ("name"%string, VString "Ann")] in
  make_contract sample_arc kvs (entity_make sample_arc kvs).
Proof. intros kvs. apply entity_make_spec. exact sample_arc_wf. Defined.

Lemma entity_eq_witness :
  entity_eq sample_ann sample_update =
  Ok (bool_decide (visible (obj_map sample_ann) = visible (obj_map sample_update))).
Proof.
  apply entity_eq_spec; [..|done]; (apply sample_user_wf; [|done]); by apply (bool_decide_unpack _).
Defined.

Definition sample_key : EntityKey := mkEntityKey (mkEntityType "User") (IdString "u1") ONCHAIN.

Definition name_field : Field := mkField "name" (NonNullType (NamedType "String")) TString None.

Lemma null_passes_non_null_witness :
  is_non_null (field_type name_field) = true ∧
  validate_field sample_update sample_key name_field = Ok tt.
Proof. split; [done|]. by apply null_passes_non_null. Defined.
