(* ===== verification/Write.v ===== *)
(** * The write batch

    [graph/src/components/store/write.rs]: entity modifications, the row
    groups that collect them per entity type, the batch that the write queue
    accumulates, and the iterators that the SQL generation reads a group with.

    Iterators are given by their [next] function on a position and by the list
    of the items they produce; the fuel of those lists is one more than the
    number of rows, which is enough because every [next] that returns an item
    advances the position ([clamps_by_block_exhausted], [write_chunks_exhausted]
    in [WriteFacts]).  The weight of a batch comes from the derived
    [CacheWeight] implementation and is an argument.  [sort_unstable_by_key] of
    the standard library is specified by [UnstableSort]. *)

From Stdlib Require Import ZArith Lia.
From stdpp Require Import base gmap list strings sorting.
From S2P Require Import Prelude Values Intern Entity.

Local Open Scope Z_scope.

(** ** Environment variables of the write path *)

Class EnvVars := {
  write_batch_memoize : bool;
  insert_extra_cols : nat;
  use_brin_for_all_query_types : bool;
}.

(** ** [EntityModification] *)

Inductive EntityModification :=
| Insert (key : EntityKey) (data : Entity) (block : BlockNumber) (end_ : option BlockNumber)
| Overwrite (key : EntityKey) (data : Entity) (block : BlockNumber) (end_ : option BlockNumber)
| Remove (key : EntityKey) (block : BlockNumber).

Record EntityWrite := mkEntityWrite {
  ew_id : Id;
  ew_entity : Entity;
  ew_causality_region : CausalityRegion;
  ew_block : BlockNumber;
  ew_end : option BlockNumber;
}.

(** [impl TryFrom<&EntityModification> for EntityWrite], [as_write] *)
Definition as_write (emod : EntityModification) : option EntityWrite :=
  match emod with
  | Insert key data block end_ | Overwrite key data block end_ =>
      Some (mkEntityWrite (entity_id key) data (causality_region key) block end_)
  | Remove _ _ => None
  end.

Definition emod_key (self : EntityModification) : EntityKey :=
  match self with Insert key _ _ _ | Overwrite key _ _ _ | Remove key _ => key end.

Definition emod_id (self : EntityModification) : Id :=
  match self with
  | Insert key _ _ _ | Overwrite key _ _ _ | Remove key _ => entity_id key
  end.

Definition emod_block (self : EntityModification) : BlockNumber :=
  match self with
  | Insert _ _ block _ | Overwrite _ _ block _ | Remove _ block => block
  end.

Definition is_write (self : EntityModification) : bool :=
  match self with Insert _ _ _ _ | Overwrite _ _ _ _ => true | Remove _ _ => false end.

Definition is_clamp (self : EntityModification) : bool :=
  match self with Insert _ _ _ _ => false | Overwrite _ _ _ _ | Remove _ _ => true end.

Definition creates_entity (self : EntityModification) : bool :=
  match self with Insert _ _ _ _ => true | Overwrite _ _ _ _ | Remove _ _ => false end.

Definition emod_entity_count_change (self : EntityModification) : Z :=
  match self with
  | Insert _ _ _ None => 1
  | Insert _ _ _ (Some _) => 0
  | Overwrite _ _ _ None => 0
  | Overwrite _ _ _ (Some _) => -1
  | Remove _ _ => -1
  end.

(** [EntityModification::clamp] *)
Definition emod_clamp (self : EntityModification) (block : BlockNumber)
    : outcome StoreError EntityModification :=
  match self with
  | Insert key data b end_ =>
      match end_ with
      | Some _ => Err (InternalError "can not clamp")
      | None => Ok (Insert key data b (Some block))
      end
  | Overwrite key data b end_ =>
      match end_ with
      | Some _ => Err (InternalError "can not clamp")
      | None => Ok (Overwrite key data b (Some block))
      end
  | Remove _ _ => Err (InternalError "can not clamp block range for removal")
  end.

Definition into_insert (self : EntityModification) : outcome StoreError EntityModification :=
  match self with
  | Insert _ _ _ _ => Ok self
  | Overwrite key data block end_ => Ok (Insert key data block end_)
  | Remove _ _ => Err (InternalError "a remove can not be converted into an insert")
  end.

(** [EntityOp]: what a batch does to an entity *)
Inductive EntityOp :=
| OpWrite (key : EntityKey) (entity : Entity)
| OpRemove (key : EntityKey).

(** [as_entity_op]; the [debug_assert!] on the block is not part of the
    release build. *)
Definition as_entity_op (self : EntityModification) (at_ : BlockNumber) : EntityOp :=
  match self with
  | Insert key data _ None | Overwrite key data _ None => OpWrite key data
  | Insert key data _ (Some end_) | Overwrite key data _ (Some end_) =>
      if at_ <? end_ then OpWrite key data else OpRemove key
  | Remove key _ => OpRemove key
  end.

Definition emod_insert (key : EntityKey) (data : Entity) (block : BlockNumber) : EntityModification :=
  Insert key data block None.
Definition emod_overwrite (key : EntityKey) (data : Entity) (block : BlockNumber) : EntityModification :=
  Overwrite key data block None.
Definition emod_remove (key : EntityKey) (block : BlockNumber) : EntityModification :=
  Remove key block.

(** ** [LastMod] *)

Abbreviation LastMod := (gmap Id nat) (only parsing).

Definition last_mod_new : LastMod := ∅.

Definition last_mod_get `{EnvVars} (self : LastMod) (id : Id) : option nat :=
  if write_batch_memoize then self !! id else None.

Definition last_mod_insert `{EnvVars} (self : LastMod) (id : Id) (idx : nat) : LastMod :=
  if write_batch_memoize then <[id := idx]> self else self.

(** ** [RowGroup] *)

Record RowGroup := mkRowGroup {
  group_type : EntityType;
  rows : list EntityModification;
  last_mod : LastMod;
}.

Definition group_new (t : EntityType) : RowGroup := mkRowGroup t [] last_mod_new.

Definition row_count (self : RowGroup) : nat := length (rows self).

Definition group_entity_count_change (self : RowGroup) : Z :=
  foldr Z.add 0 (emod_entity_count_change <$> rows self).

Definition writes (self : RowGroup) : list EntityModification :=
  filter (λ row, is_write row = true) (rows self).

Definition has_clamps (self : RowGroup) : bool := existsb is_clamp (rows self).

Definition group_ids (self : RowGroup) : list Id := emod_id <$> rows self.

Section RowGroup.
  Context `{EnvVars}.

Definition push_row (self : RowGroup) (row : EntityModification) : RowGroup :=
  mkRowGroup (group_type self) (rows self ++ [row])
    (last_mod_insert (last_mod self) (emod_id row) (length (rows self))).

(** [Iterator::rfind] *)
Fixpoint rfind {A} (f : A → bool) (l : list A) : option A :=
  match l with
  | [] => None
  | x :: l => match rfind f l with
              | Some y => Some y
              | None => if f x then Some x else None
              end
  end.

(** The index that [prev_row_mut] returns a reference to. *)
Fixpoint rfind_index {A} (f : A → bool) (l : list A) : option nat :=
  match l with
  | [] => None
  | x :: l => match rfind_index f l with
              | Some n => Some (S n)
              | None => if f x then Some 0%nat else None
              end
  end.

Definition prev_row_mut (self : RowGroup) (id : Id) : option (nat * EntityModification) :=
  match last_mod_get (last_mod self) id with
  | Some idx => (λ r, (idx, r)) <$> rows self !! idx
  | None =>
      idx ← rfind_index (λ emod, bool_decide (emod_id emod = id)) (rows self);
      (λ r, (idx, r)) <$> rows self !! idx
  end.

Definition set_row (self : RowGroup) (idx : nat) (row : EntityModification) : RowGroup :=
  mkRowGroup (group_type self) (<[idx := row]> (rows self)) (last_mod self).

Definition append_row_immutable `{InputSchema} (row : EntityModification)
    : st RowGroup StoreError unit := λ self,
  match row with
  | Insert _ _ _ _ =>
      match idx ← last_mod_get (last_mod self) (emod_id row); rows self !! idx with
      | Some prev =>
          if decide (emod_block prev ≠ emod_block row) then
            if skip_duplicates (group_type self) then (self, Ok tt)
            else (self, Err (InputError "entity is immutable; inserting it is not possible"))
          else (push_row self row, Ok tt)
      | None => (push_row self row, Ok tt)
      end
  | Overwrite _ _ _ _ | Remove _ _ =>
      if skip_duplicates (group_type self) then (self, Ok tt)
      else (self, Err (InternalError "immutable entity type only allows inserts"))
  end.

(** The match on the previous and the new row of [append_row] *)
Definition combine_rows (idx : nat) (prev_row row : EntityModification)
    : st RowGroup StoreError unit := λ self,
  match prev_row, row with
  | (Insert _ _ _ None | Overwrite _ _ _ None), Insert _ _ _ _
  | Remove _ _, Overwrite _ _ _ _
  | (Insert _ _ _ (Some _) | Overwrite _ _ _ (Some _)), (Overwrite _ _ _ _ | Remove _ _) =>
      (self, Err (InternalError "impossible combination of entity operations"))
  | Remove _ _, Remove _ _ => (self, Ok tt)
  | (Insert _ _ _ (Some _) | Overwrite _ _ _ (Some _) | Remove _ _), Insert _ _ _ _ =>
      (push_row self row, Ok tt)
  | (Insert _ _ _ None | Overwrite _ _ _ None), Overwrite _ _ block _ =>
      match emod_clamp prev_row block with
      | Ok prev_row' =>
          let self' := set_row self idx prev_row' in
          match into_insert row with
          | Ok row' => (push_row self' row', Ok tt)
          | Err e => (self', Err e)
          | Panic => (self', Panic)
          end
      | Err e => (self, Err e)
      | Panic => (self, Panic)
      end
  | (Insert _ _ _ None | Overwrite _ _ _ None), Remove _ block =>
      match emod_clamp prev_row block with
      | Ok prev_row' => (set_row self idx prev_row', Ok tt)
      | Err e => (self, Err e)
      | Panic => (self, Panic)
      end
  end.

Definition append_row `{InputSchema} (row : EntityModification) : st RowGroup StoreError unit :=
  λ self,
  if is_immutable (group_type self) then append_row_immutable row self
  else
    match prev_row_mut self (emod_id row) with
    | Some (idx, prev_row) =>
        if emod_block row <=? emod_block prev_row then
          (self, Err (InternalError "can not append operations that go backwards"))
        else if decide (emod_id row ≠ emod_id prev_row) then
          (self, Err (InternalError "last_mod map is corrupted"))
        else combine_rows idx prev_row row self
    | None => (push_row self row, Ok tt)
    end.

(** [RowGroup::push] *)
Definition group_push `{InputSchema} (emod : EntityModification) (block : BlockNumber)
    : st RowGroup StoreError unit := λ self,
  let is_forward :=
    match last (rows self) with
    | Some emod => emod_block emod <=? block
    | None => true
    end in
  if negb is_forward then
    (self, Err (InternalError "we already have a modification for a later block"))
  else append_row emod self.

Definition group_append `{InputSchema} (group : RowGroup) : st RowGroup StoreError unit := λ self,
  if decide (group_type self ≠ group_type group) then
    (self, Err (InternalError "Can not append a row group to a row group of another type"))
  else st_for append_row (rows group) self.

(** [RowGroup::last_op] *)
Definition last_op_scan (self : RowGroup) (key : EntityKey) (at_ : BlockNumber) : option EntityOp :=
  (λ emod, as_entity_op emod at_) <$>
    rfind (λ emod, bool_decide (emod_key emod = key) && (emod_block emod <=? at_)) (rows self).

Definition group_last_op (self : RowGroup) (key : EntityKey) (at_ : BlockNumber) : option EntityOp :=
  match idx ← last_mod_get (last_mod self) (entity_id key);
        emod ← rows self !! idx;
        if emod_block emod <=? at_ then Some (as_entity_op emod at_) else None with
  | Some op => Some op
  | None => last_op_scan self key at_
  end.

(** [RowGroup::effective_ops]: newest first, one operation per id. *)
Fixpoint effective_filter (at_ : BlockNumber) (seen : gset Id) (l : list EntityModification)
    : list EntityModification :=
  match l with
  | [] => []
  | emod :: l =>
      if emod_block emod <=? at_ then
        if decide (emod_id emod ∈ seen) then effective_filter at_ seen l
        else emod :: effective_filter at_ ({[emod_id emod]} ∪ seen) l
      else effective_filter at_ seen l
  end.

Definition group_effective_ops (self : RowGroup) (at_ : BlockNumber) : list EntityOp :=
  (λ emod, as_entity_op emod at_) <$> effective_filter at_ ∅ (reverse (rows self)).

End RowGroup.

(** ** [ClampsByBlockIterator] *)

Fixpoint skip_to_clamp (rest : list EntityModification) (position : nat) : nat :=
  match rest with
  | [] => position
  | row :: rest => if is_clamp row then position else skip_to_clamp rest (S position)
  end.

Fixpoint clamp_run (block : BlockNumber) (rest : list EntityModification) (next : nat) : nat :=
  match rest with
  | [] => next
  | row :: rest =>
      if (emod_block row =? block) && is_clamp row then clamp_run block rest (S next) else next
  end.

Definition clamps_next (rws : list EntityModification) (position : nat)
    : option (BlockNumber * list EntityModification) * nat :=
  let position := skip_to_clamp (drop position rws) position in
  match rws !! position with
  | None => (None, position)
  | Some row =>
      let block := emod_block row in
      let next := clamp_run block (drop position rws) position in
      (Some (block, take (next - position) (drop position rws)), next)
  end.

Fixpoint clamps_collect (fuel : nat) (rws : list EntityModification) (position : nat)
    : list (BlockNumber * list EntityModification) :=
  match fuel with
  | O => []
  | S fuel =>
      match clamps_next rws position with
      | (None, _) => []
      | (Some item, next) => item :: clamps_collect fuel rws next
      end
  end.

Definition clamps_by_block (self : RowGroup) : list (BlockNumber * list EntityModification) :=
  clamps_collect (S (length (rows self))) (rows self) 0.

(** ** [WriteChunker] and [WriteChunk] *)

Record WriteChunk := mkWriteChunk {
  chunk_group : RowGroup;
  chunk_size : nat;
  chunk_position : nat;
}.

(** The loop of [WriteChunker::next] that moves to the start of the next chunk *)
Fixpoint advance (size : nat) (rest : list EntityModification) (count position : nat) : nat :=
  match rest with
  | [] => position
  | row :: rest =>
      if Nat.ltb count size then
        advance size rest (if is_write row then S count else count) (S position)
      else position
  end.

Definition chunker_next (group : RowGroup) (size position : nat) : option WriteChunk * nat :=
  (if Nat.ltb position (length (rows group)) then Some (mkWriteChunk group size position) else None,
   advance size (drop position (rows group)) 0 position).

Fixpoint chunks_collect (fuel : nat) (group : RowGroup) (size position : nat) : list WriteChunk :=
  match fuel with
  | O => []
  | S fuel =>
      match chunker_next group size position with
      | (None, _) => []
      | (Some chunk, next) => chunk :: chunks_collect fuel group size next
      end
  end.

Definition write_chunks (self : RowGroup) (size : nat) : list WriteChunk :=
  chunks_collect (S (length (rows self))) self size 0.

(** [WriteChunkIter] *)
Fixpoint chunk_writes (size : nat) (rest : list EntityModification) (count : nat)
    : list EntityWrite :=
  match rest with
  | [] => []
  | row :: rest =>
      if Nat.ltb count size then
        match as_write row with
        | Some w => w :: chunk_writes size rest (S count)
        | None => chunk_writes size rest count
        end
      else []
  end.

Definition chunk_iter (self : WriteChunk) : list EntityWrite :=
  chunk_writes (chunk_size self) (drop (chunk_position self) (rows (chunk_group self))) 0.

Definition chunk_is_empty (self : WriteChunk) : bool :=
  match chunk_iter self with [] => true | _ => false end.

Definition chunk_len (self : WriteChunk) : nat :=
  (row_count (chunk_group self) - chunk_position self) `min` chunk_size self.

Definition as_single_writes (self : WriteChunk) : list WriteChunk :=
  (λ position, mkWriteChunk (chunk_group self) 1 (chunk_position self + position))
    <$> seq 0 (chunk_len self).

(** ** [RowGroups] *)

Record RowGroups := mkRowGroups { groups : list RowGroup }.

Definition groups_new : RowGroups := mkRowGroups [].

Definition groups_group (self : RowGroups) (t : EntityType) : option RowGroup :=
  snd <$> list_find (λ group, group_type group = t) (groups self).

(** [group_entry(t)] followed by a method on the group it returns *)
Definition with_group_entry {E A} (t : EntityType) (f : st RowGroup E A) : st RowGroups E A :=
  λ self,
  match list_find (λ group, group_type group = t) (groups self) with
  | Some (pos, group) =>
      let '(group', res) := f group in
      (mkRowGroups (<[pos := group']> (groups self)), res)
  | None =>
      let '(group', res) := f (group_new t) in
      (mkRowGroups (groups self ++ [group']), res)
  end.

Definition groups_entity_count (self : RowGroups) : nat :=
  foldr Nat.add 0%nat (row_count <$> groups self).

Definition groups_append `{EnvVars} `{InputSchema} (other : RowGroups)
    : st RowGroups StoreError unit :=
  st_for (λ group, with_group_entry (group_type group) (group_append group)) (groups other).

(** ** [DataSources] *)

Record BlockPtr := mkBlockPtr { ptr_number : BlockNumber; ptr_hash : list Z }.

Record StoredDynamicDataSource := mkDataSource {
  manifest_idx : Z;
  param : option (list Z);
  context : option string;
  creation_block : option BlockNumber;
  done_at : option Z;
  ds_causality_region : CausalityRegion;
}.

#[export] Instance StoredDynamicDataSource_eq_dec : EqDecision StoredDynamicDataSource.
Proof. solve_decision. Defined.

Record DataSources := mkDataSources { ds_entries : list (BlockPtr * list StoredDynamicDataSource) }.

Definition data_sources_new (ptr : BlockPtr) (es : list StoredDynamicDataSource) : DataSources :=
  mkDataSources (match es with [] => [] | _ => [(ptr, es)] end).

Definition data_sources_is_empty (self : DataSources) : bool :=
  forallb (λ e, match e.2 with [] => true | _ => false end) (ds_entries self).

Definition data_sources_append (self other : DataSources) : DataSources :=
  mkDataSources (ds_entries self ++ ds_entries other).

(** [SubgraphError], without the hash of the deployment *)
Record SubgraphError := mkSubgraphError {
  err_message : string;
  err_block_ptr : option BlockPtr;
  err_handler : option string;
  deterministic : bool;
}.

(** ** [Batch] *)

Record Batch := mkBatch {
  block_ptr : BlockPtr;
  block_times : list (BlockNumber * Z);
  first_block : BlockNumber;
  firehose_cursor : option string;
  mods : RowGroups;
  data_sources : DataSources;
  deterministic_errors : list SubgraphError;
  offchain_to_remove : DataSources;
  error : option StoreError;
  is_non_fatal_errors_active : bool;
  indirect_weight : Z;
}.

(** [slice::sort_unstable_by_key]: some permutation that is sorted by the key. *)
Class UnstableSort := {
  sort_unstable_by_key : ∀ {A}, (A → Z) → list A → list A;
  sort_unstable_perm : ∀ {A} (f : A → Z) (l : list A), sort_unstable_by_key f l ≡ₚ l;
  sort_unstable_sorted : ∀ {A} (f : A → Z) (l : list A),
    StronglySorted (λ a b, f a ≤ f b) (sort_unstable_by_key f l);
}.

Definition sort_rank (emod : EntityModification) : Z :=
  match emod with Insert _ _ _ _ => 2 | Overwrite _ _ _ _ => 1 | Remove _ _ => 0 end.

Section Batch.
  Context `{EnvVars} `{InputSchema} `{UnstableSort}.
  Context (mods_weight : RowGroups → Z).

Definition weigh (self : Batch) : Batch :=
  mkBatch (block_ptr self) (block_times self) (first_block self) (firehose_cursor self)
    (mods self) (data_sources self) (deterministic_errors self) (offchain_to_remove self)
    (error self) (is_non_fatal_errors_active self) (mods_weight (mods self)).

Definition batch_new (ptr : BlockPtr) (block_time : Z) (cursor : option string)
    (raw_mods : list EntityModification) (dss : list StoredDynamicDataSource)
    (errors : list SubgraphError) (to_remove : list StoredDynamicDataSource) (nonfatal : bool)
    : outcome StoreError Batch :=
  let block := ptr_number ptr in
  let raw_mods := sort_unstable_by_key sort_rank raw_mods in
  match st_for (λ m, with_group_entry (entity_type (emod_key m)) (group_push m block))
          raw_mods groups_new with
  | (mods, Ok _) =>
      Ok (weigh (mkBatch ptr [(block, block_time)] (ptr_number ptr) cursor mods
                   (data_sources_new ptr dss) errors (data_sources_new ptr to_remove)
                   None nonfatal 0))
  | (_, Err e) => Err e
  | (_, Panic) => Panic
  end.

Definition append_inner (batch : Batch) : st Batch StoreError unit := λ self,
  if ptr_number (block_ptr batch) <=? ptr_number (block_ptr self) then
    (self, Err (InternalError "Batches must go forward"))
  else
    let '(mods', res) := groups_append (mods batch) (mods self) in
    let self' :=
      mkBatch (block_ptr batch) (block_times self ++ block_times batch) (first_block self)
        (firehose_cursor batch) mods' (data_sources self) (deterministic_errors self)
        (offchain_to_remove self) (error self) (is_non_fatal_errors_active self)
        (indirect_weight self) in
    match res with
    | Ok _ =>
        (mkBatch (block_ptr self') (block_times self') (first_block self') (firehose_cursor self')
           (mods self') (data_sources_append (data_sources self) (data_sources batch))
           (deterministic_errors self ++ deterministic_errors batch)
           (data_sources_append (offchain_to_remove self) (offchain_to_remove batch))
           (error self') (is_non_fatal_errors_active self') (indirect_weight self'), Ok tt)
    | Err e => (self', Err e)
    | Panic => (self', Panic)
    end.

Definition set_error (self : Batch) (e : StoreError) : Batch :=
  mkBatch (block_ptr self) (block_times self) (first_block self) (firehose_cursor self)
    (mods self) (data_sources self) (deterministic_errors self) (offchain_to_remove self)
    (Some e) (is_non_fatal_errors_active self) (indirect_weight self).

Definition batch_append (batch : Batch) : st Batch StoreError unit := λ self,
  let '(self', res) := append_inner batch self in
  match res with
  | Err e => (weigh (set_error self' e), res)
  | _ => (weigh self', res)
  end.

Definition batch_entity_count (self : Batch) : nat := groups_entity_count (mods self).

Definition batch_last_op (self : Batch) (key : EntityKey) (block : BlockNumber) : option EntityOp :=
  group ← groups_group (mods self) (entity_type key);
  group_last_op group key block.

Definition batch_effective_ops (self : Batch) (t : EntityType) (at_ : BlockNumber)
    : list EntityOp :=
  match groups_group (mods self) t with
  | Some group => group_effective_ops group at_
  | None => []
  end.

Definition new_data_sources (self : Batch) (at_ : BlockNumber) : list StoredDynamicDataSource :=
  filter (λ ds, ¬ Exists (λ e, ds ∈ e.2) (ds_entries (offchain_to_remove self)))
    (concat (snd <$> filter (λ e, ptr_number e.1 ≤ at_) (ds_entries (data_sources self)))).

End Batch.
