(* ===== verification/Relational.v ===== *)
(** * Entity tables

    What the store does to the tables of a deployment:
    [store/postgres/src/block_range.rs] (block ranges and the SQL fragments on
    them), [relational_queries.rs] (the queries that insert, clamp, revert and
    find versions), [relational.rs] (the operations of [Layout] built from
    them), [relational/ddl.rs] (the constraints of the tables) and
    [deployment_store.rs] ([apply_entity_modifications]).

    A table is the list of its entity versions.  A version carries the entity
    of the write; how its values are encoded into columns is not modelled.
    The server is modelled by what it documents: [int4range] and its operators,
    primary key, unique and exclusion constraints, [ON CONFLICT DO NOTHING].
    A statement that the client library refuses as too large is the oracle
    [value_too_large].  A failed operation is rolled back by its transaction,
    so these definitions return no state with an error. *)

From Stdlib Require Import ZArith Lia.
From stdpp Require Import base gmap list strings.
From S2P Require Import Prelude Values Intern Entity Write.

Local Open Scope Z_scope.

(** ** [int4range] *)

Inductive BlockRange :=
| REmpty
| RRange (lower : BlockNumber) (upper : option BlockNumber).

Definition int4range (lower : BlockNumber) (upper : option BlockNumber)
    : outcome StoreError BlockRange :=
  match upper with
  | None => Ok (RRange lower None)
  | Some u =>
      if lower <? u then Ok (RRange lower (Some u))
      else if lower =? u then Ok REmpty
      else Err (UnknownError
                  "range lower bound must be less than or equal to range upper bound")
  end.

(** [r @> block] *)
Definition range_contains (r : BlockRange) (block : BlockNumber) : bool :=
  match r with
  | REmpty => false
  | RRange lower None => lower <=? block
  | RRange lower (Some u) => (lower <=? block) && (block <? u)
  end.

(** [r1 && r2] *)
Definition range_overlaps (r1 r2 : BlockRange) : bool :=
  match r1, r2 with
  | RRange l1 u1, RRange l2 u2 =>
      match u1 with None => true | Some u => l2 <? u end &&
      match u2 with None => true | Some u => l1 <? u end
  | _, _ => false
  end.

Definition range_lower (r : BlockRange) : option BlockNumber :=
  match r with REmpty => None | RRange l _ => Some l end.

Definition range_upper (r : BlockRange) : option BlockNumber :=
  match r with REmpty => None | RRange _ u => u end.

(** ** Tables *)

Record Column := mkColumn {
  col_field : string;
  col_nullable : bool;
  col_tsvector : bool;
  fulltext_fields : option (list string);
}.

Record Table := mkTable {
  object : EntityType;
  columns : list Column;
  is_account_like : bool;
  immutable : bool;
  table_skip_duplicates : bool;
  has_causality_region : bool;
  has_vid_seq : bool;
}.

(** The value of the [block$] or the [block_range] column *)
Inductive BlockColumn :=
| BlockCol (block : BlockNumber)
| RangeCol (range : BlockRange).

(** [v_vid] is the vid when graph-node assigns it, [None] when the database does. *)
Record Version := mkVersion {
  v_vid : option Z;
  v_id : Id;
  v_cr : CausalityRegion;
  v_data : Entity;
  v_block : BlockColumn;
}.

Abbreviation Layout := (gmap EntityType Table) (only parsing).
Abbreviation DB := (gmap EntityType (list Version)) (only parsing).

Definition db_versions (db : DB) (t : EntityType) : list Version := default [] (db !! t).

Definition table_for_entity (layout : Layout) (t : EntityType) : outcome StoreError Table :=
  ok_or (layout !! t) (UnknownTable (et_name t)).

(** ** SQL conditions on versions *)

(** [BlockRangeValue::new] and the value the server stores for it *)
Definition block_range_value (table : Table) (block : BlockNumber) (end_ : option BlockNumber)
    : outcome StoreError BlockColumn :=
  if immutable table then Ok (BlockCol block) else RangeCol <$> int4range block end_.

(** [BlockRangeColumn::contains], [AtBlock::walk_ast] *)
Definition at_block `{EnvVars} (table : Table) (block : BlockNumber) (filters_by_id : bool)
    (v : Version) : bool :=
  match v_block v with
  | BlockCol b => if block =? BLOCK_NUMBER_MAX then true else b <=? block
  | RangeCol r =>
      range_contains r block &&
      (let should_use_brin := negb filters_by_id || use_brin_for_all_query_types in
       if is_account_like table && (block <? BLOCK_NUMBER_MAX) && should_use_brin then
         (block <? default BLOCK_NUMBER_MAX (range_upper r)) &&
         match range_lower r with Some l => l <=? block | None => false end
       else true)
  end.

(** [BlockRangeColumn::latest] *)
Definition latest (v : Version) : bool :=
  match v_block v with
  | BlockCol _ => true
  | RangeCol r => range_contains r BLOCK_NUMBER_MAX
  end.

(** [BlockRangeColumn::changed_since] *)
Definition changed_since (block : BlockNumber) (v : Version) : bool :=
  match v_block v with
  | BlockCol b => block <=? b
  | RangeCol r => match range_lower r with Some l => block <=? l | None => false end
  end.

(** [BelongsToCausalityRegion] *)
Definition belongs_to_causality_region (table : Table) (cr : CausalityRegion) (v : Version) : bool :=
  if has_causality_region table then v_cr v =? cr else true.

(** ** Constraints ([create_table], [exclusion_ddl])

    The exclusion constraint exists for tables with causality regions, and for
    all mutable tables in debug builds. *)

Class BuildConfig := { CREATE_EXCLUSION_CONSTRAINT : bool }.

Definition as_constraint `{BuildConfig} (table : Table) : bool :=
  has_causality_region table || CREATE_EXCLUSION_CONSTRAINT.

Definition excludes (v w : Version) : bool :=
  bool_decide (v_id v = v_id w) &&
  match v_block v, v_block w with
  | RangeCol r, RangeCol r' => range_overlaps r r'
  | _, _ => false
  end.

Definition same_vid (v w : Version) : bool :=
  match v_vid v, v_vid w with
  | Some a, Some b => a =? b
  | _, _ => false
  end.

Section Queries.
  Context `{EnvVars} `{InputSchema} `{BuildConfig}.

(** ** [InsertQuery] *)

Definition POSTGRES_MAX_PARAMETERS : Z := 32767.

(** The number of bind variables a column may need *)
Definition column_params (c : Column) : nat :=
  match fulltext_fields c with Some fields => length fields | None => 1%nat end.

Definition row_params (table : Table) : nat :=
  (1 + insert_extra_cols + (if has_causality_region table then 1 else 0)
   + (if has_vid_seq table then 1 else 0)
   + foldr Nat.add 0 (column_params <$> columns table))%nat.

(** [InsertQuery::chunk_size] *)
Definition insert_chunk_size (table : Table) : nat :=
  Z.to_nat (POSTGRES_MAX_PARAMETERS / Z.of_nat (row_params table)).

(** [InsertQuery::unique_columns] *)
Definition column_used (c : Column) (w : EntityWrite) : bool :=
  match fulltext_fields c with
  | Some fields => existsb (entity_contains_key (ew_entity w)) fields
  | None => bool_decide (is_Some (entity_get (ew_entity w) (col_field c)))
  end.

Definition unique_columns (table : Table) (ws : list EntityWrite) : list Column :=
  filter (λ c, existsb (column_used c) ws = true) (columns table).

(** One value of an [InsertRow]: the fulltext values, or the attribute. *)
Inductive InsertValue :=
| IVValue (v : Value)
| IVFulltext (values : list string).

Fixpoint fulltext_values (w : EntityWrite) (fields : list string) : outcome StoreError (list string) :=
  match fields with
  | [] => Ok []
  | field :: fields =>
      match entity_get (ew_entity w) field with
      | None | Some VNull => fulltext_values w fields
      | Some (VString s) => rest ← fulltext_values w fields; Ok (s :: rest)
      | Some _ => Err (InternalError "fulltext fields must be strings")
      end
  end.

Definition insert_value (w : EntityWrite) (c : Column) : outcome StoreError InsertValue :=
  match fulltext_fields c with
  | Some fields =>
      values ← fulltext_values w fields;
      if col_tsvector c then Ok (IVFulltext values)
      else Err (UnknownError "FulltextColumnMissingConfig")
  | None => Ok (IVValue (default VNull (entity_get (ew_entity w) (col_field c))))
  end.

Record InsertRow := mkInsertRow {
  ir_values : list InsertValue;
  ir_write : EntityWrite;
  ir_vid : Z;
}.

Fixpoint insert_values (w : EntityWrite) (cs : list Column) : outcome StoreError (list InsertValue) :=
  match cs with
  | [] => Ok []
  | c :: cs => v ← insert_value w c; vs ← insert_values w cs; Ok (v :: vs)
  end.

(** [InsertRow::new]; [Entity::vid] panics when the vid is missing. *)
Definition insert_row_new (cs : list Column) (w : EntityWrite) : outcome StoreError InsertRow :=
  values ← insert_values w cs;
  match entity_vid (ew_entity w) with
  | Ok vid => Ok (mkInsertRow values w vid)
  | Err _ | Panic => Panic
  end.

Fixpoint insert_rows_new (cs : list Column) (ws : list EntityWrite)
    : outcome StoreError (list InsertRow) :=
  match ws with
  | [] => Ok []
  | w :: ws => r ← insert_row_new cs w; rs ← insert_rows_new cs ws; Ok (r :: rs)
  end.

Definition missing_column (table : Table) (w : EntityWrite) : bool :=
  existsb (λ c, negb (col_nullable c) && negb (entity_contains_key (ew_entity w) (col_field c)))
    (columns table).

(** [InsertQuery::new] *)
Definition insert_query_new (table : Table) (ws : list EntityWrite)
    : outcome StoreError (list InsertRow) :=
  if existsb (missing_column table) ws then
    Err (QueryExecutionError "can not insert entity since value for non-nullable attribute is missing")
  else insert_rows_new (unique_columns table ws) ws.

(** The bind variables that [walk_ast] pushes for one row *)
Definition value_binds (v : InsertValue) : nat :=
  match v with
  | IVValue VNull => 0
  | IVValue _ => 1
  | IVFulltext values => length values
  end.

Definition row_binds (table : Table) (r : InsertRow) : nat :=
  (foldr Nat.add 0 (value_binds <$> ir_values r) + 1
   + (if has_causality_region table then 1 else 0) + (if has_vid_seq table then 1 else 0))%nat.

(** Execution of the statement: one row after the other, with the constraints
    of the table. *)
Definition insert_version (table : Table) (r : InsertRow) (vs : list Version)
    : outcome StoreError (list Version) :=
  let w := ir_write r in
  block ← block_range_value table (ew_block w) (ew_end w);
  let v := mkVersion (if has_vid_seq table then Some (ir_vid r) else None) (ew_id w)
             (if has_causality_region table then ew_causality_region w else ONCHAIN)
             (ew_entity w) block in
  if immutable table && existsb (λ v', bool_decide (v_id v' = v_id v)) vs then
    if table_skip_duplicates table then Ok vs
    else Err (ConstraintViolation "duplicate key value violates unique constraint")
  else if existsb (same_vid v) vs then
    Err (ConstraintViolation "duplicate key value violates unique constraint")
  else if negb (immutable table) && as_constraint table && existsb (excludes v) vs then
    Err (UnknownError "conflicting key value violates exclusion constraint")
  else Ok (vs ++ [v]).

Fixpoint insert_versions (table : Table) (rs : list InsertRow) (vs : list Version)
    : outcome StoreError (list Version) :=
  match rs with
  | [] => Ok vs
  | r :: rs => vs' ← insert_version table r vs; insert_versions table rs vs'
  end.

(** The block that [chunk_details] reports for a chunk *)
Definition chunk_last_block (c : WriteChunk) : BlockNumber :=
  match ew_block <$> chunk_iter c with
  | [] => 0
  | b :: bs => foldl Z.max b bs
  end.

(** [StoreError::write_failure] *)
Definition write_failure (error : StoreError) (entity : string) (block : BlockNumber) : StoreError :=
  match error with
  | ConstraintViolation _ | StatementTimeout => error
  | _ => WriteFailure entity block
  end.

(** A statement without rows is not valid SQL. *)
Definition exec_insert (table : Table) (c : WriteChunk) (rs : list InsertRow) (vs : list Version)
    : outcome StoreError (list Version) :=
  map_err (λ e, write_failure e (et_name (object table)) (chunk_last_block c))
    (match rs with
     | [] => Err (UnknownError "syntax error at end of input")
     | _ => insert_versions table rs vs
     end).

(** ** [ClampRangeQuery] *)

Definition clamp_version (ids : list Id) (block : BlockNumber) (v : Version)
    : outcome StoreError Version :=
  if bool_decide (v_id v ∈ ids) && latest v then
    match v_block v with
    | RangeCol (RRange l _) =>
        r ← int4range l (Some block);
        Ok (mkVersion (v_vid v) (v_id v) (v_cr v) (v_data v) (RangeCol r))
    | _ => Ok v
    end
  else Ok v.

Fixpoint clamp_versions (ids : list Id) (block : BlockNumber) (vs : list Version)
    : outcome StoreError (list Version) :=
  match vs with
  | [] => Ok []
  | v :: vs => v' ← clamp_version ids block v; vs' ← clamp_versions ids block vs; Ok (v' :: vs')
  end.

(** [ClampRangeQuery::new] and its execution by [Layout::delete] *)
Definition clamp_query (table : Table) (ids : IdList) (block : BlockNumber) (vs : list Version)
    : outcome StoreError (list Version) :=
  if immutable table then Err (InternalError "immutable entities can not be deleted or updated")
  else map_err (λ e, write_failure e (et_name (object table)) block)
         (clamp_versions (id_list_ids ids) block vs).

(** ** [Layout::delete] *)

Definition DELETE_OPERATION_CHUNK_SIZE : nat := 1000.

(** [slice::chunks] *)
Fixpoint chunks_fuel {A} (fuel n : nat) (l : list A) : list (list A) :=
  match fuel, l with
  | O, _ | _, [] => []
  | S fuel, _ => take n l :: chunks_fuel fuel n (drop n l)
  end.

Definition chunks {A} (n : nat) (l : list A) : list (list A) := chunks_fuel (length l) n l.

Fixpoint delete_chunks (table : Table) (t : IdType) (block : BlockNumber) (cs : list (list Id))
    (vs : list Version) : outcome StoreError (list Version) :=
  match cs with
  | [] => Ok vs
  | c :: cs =>
      ids ← id_list_try_from_iter t c;
      vs' ← clamp_query table ids block vs;
      delete_chunks table t block cs vs'
  end.

Fixpoint delete_clamps (table : Table) (t : IdType)
    (clamps : list (BlockNumber * list EntityModification)) (vs : list Version)
    : outcome StoreError (list Version) :=
  match clamps with
  | [] => Ok vs
  | (block, rws) :: clamps =>
      vs' ← delete_chunks table t block (chunks DELETE_OPERATION_CHUNK_SIZE (emod_id <$> rws)) vs;
      delete_clamps table t clamps vs'
  end.

Definition set_versions (t : EntityType) (vs : list Version) (db : DB) : DB := <[t := vs]> db.

Definition layout_delete (layout : Layout) (group : RowGroup) (db : DB) : outcome StoreError DB :=
  if negb (has_clamps group) then Ok db
  else
    table ← table_for_entity layout (group_type group);
    if immutable table then
      if table_skip_duplicates table then Ok db
      else Err (InternalError "entities can not be deleted since they are immutable")
    else
      vs ← delete_clamps table (schema_id_type (group_type group)) (clamps_by_block group)
             (db_versions db (group_type group));
      Ok (set_versions (group_type group) vs db).

(** ** [Layout::insert] *)

(** Whether the client library refuses a statement as too large *)
Context (value_too_large : list EntityWrite → bool).

Fixpoint insert_singles (table : Table) (cs : list WriteChunk) (vs : list Version)
    : outcome StoreError (list Version) :=
  match cs with
  | [] => Ok vs
  | c :: cs =>
      rs ← insert_query_new table (chunk_iter c);
      vs' ← (if value_too_large (chunk_iter c)
             then Err (WriteFailure (et_name (object table)) (chunk_last_block c))
             else exec_insert table c rs vs);
      insert_singles table cs vs'
  end.

Fixpoint insert_chunks (table : Table) (cs : list WriteChunk) (vs : list Version)
    : outcome StoreError (list Version) :=
  match cs with
  | [] => Ok vs
  | c :: cs =>
      if chunk_is_empty c then insert_chunks table cs vs
      else
        rs ← insert_query_new table (chunk_iter c);
        vs' ← (if value_too_large (chunk_iter c) then insert_singles table (as_single_writes c) vs
               else exec_insert table c rs vs);
        insert_chunks table cs vs'
  end.

Definition layout_insert (layout : Layout) (group : RowGroup) (db : DB) : outcome StoreError DB :=
  table ← table_for_entity layout (group_type group);
  vs ← insert_chunks table (write_chunks group (insert_chunk_size table))
         (db_versions db (group_type group));
  Ok (set_versions (group_type group) vs db).

(** ** [check_intf_uniqueness] and [ConflictingEntitiesQuery] *)

Fixpoint conflicting_tables (layout : Layout) (ts : list EntityType)
    : outcome StoreError (list Table) :=
  match ts with
  | [] => Ok []
  | t :: ts => table ← table_for_entity layout t; tables ← conflicting_tables layout ts; Ok (table :: tables)
  end.

Definition conflicting_entities (layout : Layout) (ts : list EntityType) (group : RowGroup) (db : DB)
    : outcome StoreError (option (EntityType * Id)) :=
  tables ← conflicting_tables layout ts;
  ids ← id_list_try_from_iter_ref (group_ids group);
  Ok (last (concat ((λ table,
        (λ v, (object table, v_id v)) <$>
          filter (λ v, v_id v ∈ id_list_ids ids) (db_versions db (object table))) <$> tables))).

Definition check_intf_uniqueness (layout : Layout) (group : RowGroup) (db : DB)
    : outcome StoreError unit :=
  match share_interfaces (group_type group) with
  | [] => Ok tt
  | ts =>
      c ← conflicting_entities layout ts group db;
      match c with
      | Some (conflicting_entity, id) =>
          Err (ConflictingId (et_name (group_type group)) id (et_name conflicting_entity))
      | None => Ok tt
      end
  end.

(** [DeploymentStore::apply_entity_modifications]: the tables after all groups
    were written, and the change of the entity count. *)
Fixpoint apply_entity_modifications (layout : Layout) (gs : list RowGroup) (db : DB) (count : Z)
    : outcome StoreError (DB * Z) :=
  match gs with
  | [] => Ok (db, count)
  | group :: gs =>
      db1 ← layout_delete layout group db;
      _ ← check_intf_uniqueness layout group db1;
      db2 ← layout_insert layout group db1;
      apply_entity_modifications layout gs db2 (count + group_entity_count_change group)
  end.

(** ** Finding entities *)

(** [Layout::find]: the first row of the result, if there is one. *)
Definition find_matches (table : Table) (key : EntityKey) (block : BlockNumber) (v : Version) : bool :=
  bool_decide (v_id v = entity_id key) && at_block table block false v &&
  belongs_to_causality_region table (causality_region key) v.

Definition layout_find (layout : Layout) (key : EntityKey) (block : BlockNumber) (db : DB)
    : outcome StoreError (option Entity) :=
  table ← table_for_entity layout (entity_type key);
  Ok (v_data <$> head (filter (λ v, find_matches table key block v = true)
                         (db_versions db (entity_type key)))).

(** [CausalityRegion::from_entity] *)
Definition region_from_entity (e : Entity) : CausalityRegion :=
  default ONCHAIN (entity_get e "causality_region" ≫= value_as_int).

Definition region_filter (table : Table) (cr : CausalityRegion) (v : Version) : bool :=
  if has_causality_region table then v_cr v =? cr else true.

(** [FindManyQuery] and [Layout::find_many]; [ids_for_type] in the order of the
    [BTreeMap]. *)
Definition find_many_rows (table : Table) (cr : CausalityRegion) (ids : IdList)
    (block : BlockNumber) (db : DB) : list (EntityType * Version) :=
  (λ v, (object table, v)) <$>
    filter (λ v, v_id v ∈ id_list_ids ids ∧ region_filter table cr v = true ∧
                 at_block table block true v = true) (db_versions db (object table)).

Fixpoint find_many_query (layout : Layout)
    (ids_for_type : list (EntityType * CausalityRegion * IdList)) (block : BlockNumber) (db : DB)
    : outcome StoreError (list (EntityType * Version)) :=
  match ids_for_type with
  | [] => Ok []
  | (t, cr, ids) :: rest =>
      table ← table_for_entity layout t;
      rows ← find_many_query layout rest block db;
      Ok (find_many_rows table cr ids block db ++ rows)
  end.

(** The key of a row read through [EntityData]: the entity's own id, and the
    region that the attributes of the entity name. *)
Definition row_key (t : EntityType) (e : Entity) : outcome StoreError EntityKey :=
  match entity_id_of e with
  | Ok id => Ok (mkEntityKey t id (region_from_entity e))
  | Err _ | Panic => Panic
  end.

Fixpoint collect_entities (rws : list (EntityType * Version)) (entities : gmap EntityKey Entity)
    : outcome StoreError (gmap EntityKey Entity) :=
  match rws with
  | [] => Ok entities
  | (t, v) :: rws =>
      key ← row_key t (v_data v);
      match entities !! key with
      | Some _ => Err (InternalError "duplicate entity in result set")
      | None => collect_entities rws (<[key := v_data v]> entities)
      end
  end.

Definition layout_find_many (layout : Layout)
    (ids_for_type : list (EntityType * CausalityRegion * IdList)) (block : BlockNumber) (db : DB)
    : outcome StoreError (gmap EntityKey Entity) :=
  match ids_for_type with
  | [] => Ok ∅
  | _ => rows ← find_many_query layout ids_for_type block db; collect_entities rows ∅
  end.

(** [FindDerivedQuery] and [Layout::find_derived] *)
Record DerivedEntityQuery := mkDerivedEntityQuery {
  dq_entity_type : EntityType;
  dq_entity_field : string;
  dq_value : Id;
  dq_causality_region : CausalityRegion;
}.

(** [DerivedEntityQuery::matches] *)
Definition derived_matches (self : DerivedEntityQuery) (key : EntityKey) (e : Entity) : bool :=
  bool_decide (entity_type key = dq_entity_type self) &&
  (causality_region key =? dq_causality_region self) &&
  match entity_get e (dq_entity_field self) with
  | Some v => id_eq_value (dq_value self) v
  | None => false
  end.

(** [id != any(excluded)], left out for an empty list *)
Definition not_excluded (excluded : list Id) (id : Id) : bool :=
  match excluded with
  | [] => true
  | _ => existsb (λ x, bool_decide (id ≠ x)) excluded
  end.

Definition find_derived_row (table : Table) (q : DerivedEntityQuery) (block : BlockNumber)
    (excluded : list Id) (v : Version) : bool :=
  not_excluded excluded (v_id v) &&
  match entity_get (v_data v) (dq_entity_field q) with
  | Some x => id_eq_value (dq_value q) x
  | None => false
  end &&
  region_filter table (dq_causality_region q) v &&
  at_block table block false v.

Fixpoint insert_entities (t : EntityType) (vs : list Version) (entities : gmap EntityKey Entity)
    : outcome StoreError (gmap EntityKey Entity) :=
  match vs with
  | [] => Ok entities
  | v :: vs => key ← row_key t (v_data v); insert_entities t vs (<[key := v_data v]> entities)
  end.

Definition layout_find_derived (layout : Layout) (q : DerivedEntityQuery) (block : BlockNumber)
    (excluded_keys : list EntityKey) (db : DB) : outcome StoreError (gmap EntityKey Entity) :=
  table ← table_for_entity layout (dq_entity_type q);
  ids ← id_list_try_from_iter (schema_id_type (dq_entity_type q)) (entity_id <$> excluded_keys);
  insert_entities (dq_entity_type q)
    (filter (λ v, find_derived_row table q block (id_list_ids ids) v = true)
       (db_versions db (dq_entity_type q))) ∅.

(** ** Reverting blocks *)

(** [RevertRemoveQuery]: the versions kept, and the ids returned. *)
Definition revert_remove (block : BlockNumber) (vs : list Version) : list Version * gset Id :=
  (filter (λ v, changed_since block v = false) vs,
   list_to_set (v_id <$> filter (λ v, changed_since block v = true) vs)).

(** [RevertClampQuery] *)
Definition unclamps (block : BlockNumber) (v : Version) : bool :=
  match v_block v with
  | BlockCol _ => false
  | RangeCol r =>
      range_contains r block && negb (range_contains r BLOCK_NUMBER_MAX) &&
      match range_lower r with Some l => l <=? block | None => false end &&
      (block <? default BLOCK_NUMBER_MAX (range_upper r)) &&
      (default BLOCK_NUMBER_MAX (range_upper r) <? BLOCK_NUMBER_MAX)
  end.

Definition unclamp_version (block : BlockNumber) (v : Version) : Version :=
  if unclamps block v then
    match v_block v with
    | RangeCol (RRange l _) =>
        mkVersion (v_vid v) (v_id v) (v_cr v) (v_data v) (RangeCol (RRange l None))
    | _ => v
    end
  else v.

Definition revert_clamp (block : BlockNumber) (vs : list Version) : list Version * gset Id :=
  (unclamp_version block <$> vs,
   list_to_set (v_id <$> filter (λ v, unclamps block v = true) vs)).

(** One iteration of [Layout::revert_block]: the versions that remain and the
    change of the entity count. *)
Definition revert_table (table : Table) (block : BlockNumber) (vs : list Version)
    : list Version * Z :=
  let '(vs1, removed) := revert_remove block vs in
  let '(vs2, unclamped) :=
    if immutable table then (vs1, ∅) else revert_clamp (block - 1) vs1 in
  let deleted := Z.of_nat (size (removed ∖ unclamped)) in
  let inserted := Z.of_nat (size (unclamped ∖ removed)) in
  (vs2, inserted - deleted).

(** [Layout::revert_block] on all tables of the layout, in some order *)
Fixpoint revert_tables (tables : list (EntityType * Table)) (block : BlockNumber) (db : DB) (count : Z)
    : DB * Z :=
  match tables with
  | [] => (db, count)
  | (t, table) :: tables =>
      let '(vs, c) := revert_table table block (db_versions db t) in
      revert_tables tables block (set_versions t vs db) (count + c)
  end.

Definition revert_block (layout : Layout) (block : BlockNumber) (db : DB) : DB * Z :=
  revert_tables (map_to_list layout) block db 0.

(** [Layout::truncate_tables] *)
Definition truncate_tables (layout : Layout) (db : DB) : DB :=
  map_imap (λ t vs, if decide (is_Some (layout !! t)) then Some [] else Some vs) db.

End Queries.
