(* ===== verification/WriteFacts.v ===== *)
(** * Correctness of the iterators over row groups

    [clamps_by_block] yields exactly the clamps of a group in order, grouped
    into runs of one block; [write_chunks] yields exactly the writes, in chunks
    of the requested size; both iterators are exhausted by the lists that model
    them.  The single-write chunks of a chunk are right for groups without
    removals, and wrong otherwise. *)

From Stdlib Require Import ZArith Lia.
From stdpp Require Import base gmap list strings.
From S2P Require Import Prelude Values Intern Entity Write.

Local Open Scope nat_scope.

(** ** [ClampsByBlockIterator] *)

Lemma skip_to_clamp_spec rest : ∀ p,
  ∃ n, skip_to_clamp rest p = p + n ∧ n ≤ length rest ∧
       Forall (λ r, is_clamp r = false) (take n rest) ∧
       match drop n rest with [] => True | r :: _ => is_clamp r = true end.
Proof.
  induction rest as [|r rest IH]; intros p; simpl.
  { exists 0. split_and!; [lia|done|constructor|done]. }
  destruct (is_clamp r) eqn:E.
  { exists 0. split_and!; [lia|lia|constructor|done]. }
  destruct (IH (S p)) as (n & -> & Hn & Ht & Hd). exists (S n). split_and!; [lia|lia| |done].
  simpl. by constructor.
Qed.

Lemma clamp_run_spec b rest : ∀ p,
  ∃ n, clamp_run b rest p = p + n ∧ n ≤ length rest ∧
       Forall (λ r, emod_block r = b ∧ is_clamp r = true) (take n rest).
Proof.
  induction rest as [|r rest IH]; intros p; simpl.
  { exists 0. split_and!; [lia|done|constructor]. }
  destruct (Z.eqb_spec (emod_block r) b) as [Hb|Hb]; simpl; [|exists 0; split_and!; [lia|lia|constructor]].
  destruct (is_clamp r) eqn:E; [|exists 0; split_and!; [lia|lia|constructor]].
  destruct (IH (S p)) as (n & -> & Hn & Ht). exists (S n). split_and!; [lia|lia|].
  simpl. by constructor.
Qed.

Lemma clamp_run_first b r rest p :
  emod_block r = b → is_clamp r = true → p < clamp_run b (r :: rest) p.
Proof.
  intros Hb Hc. simpl. rewrite Hc, Hb, Z.eqb_refl. simpl.
  destruct (clamp_run_spec b rest (S p)) as (n & -> & _). lia.
Qed.

Lemma clamps_next_spec rws p :
  p ≤ length rws →
  match clamps_next rws p with
  | (None, q) => filter (λ r, is_clamp r = true) (drop p rws) = []
  | (Some (b, item), q) =>
      p < q ≤ length rws ∧ item ≠ [] ∧
      Forall (λ r, emod_block r = b ∧ is_clamp r = true) item ∧
      filter (λ r, is_clamp r = true) (drop p rws) =
        item ++ filter (λ r, is_clamp r = true) (drop q rws)
  end.
Proof.
  intros Hp. unfold clamps_next.
  destruct (skip_to_clamp_spec (drop p rws) p) as (n & -> & Hn & Hskip & Hfirst).
  rewrite length_drop in Hn. rewrite drop_drop in Hfirst.
  assert (filter (λ r, is_clamp r = true) (drop p rws) =
          filter (λ r, is_clamp r = true) (drop (p + n) rws)) as Hf.
  { rewrite <-(take_drop n (drop p rws)) at 1. rewrite filter_app, drop_drop.
    rewrite filter_none; [done|]. intros r Hr. rewrite Forall_forall in Hskip.
    rewrite Hskip by done. done. }
  destruct (rws !! (p + n)) as [row|] eqn:Erow.
  - rewrite (drop_S _ _ _ Erow) in Hfirst.
    pose proof (drop_S _ _ _ Erow) as Hd.
    destruct (clamp_run_spec (emod_block row) (drop (p + n) rws) (p + n)) as (k & Hk & Hkl & Hrun).
    rewrite length_drop in Hkl.
    assert (p + n < clamp_run (emod_block row) (drop (p + n) rws) (p + n)) as Hlt.
    { rewrite Hd. by apply clamp_run_first. }
    rewrite Hk in *. replace (p + n + k - (p + n)) with k by lia. split; [lia|].
    split; [|split; [done|]].
    + intros Hnil. apply (f_equal length) in Hnil. rewrite length_take, length_drop in Hnil.
      simpl in Hnil. lia.
    + rewrite Hf. rewrite <-(take_drop k (drop (p + n) rws)) at 1. rewrite filter_app, drop_drop.
      f_equal. apply filter_all. intros r Hr. rewrite Forall_forall in Hrun. by apply Hrun.
  - rewrite Hf. apply lookup_ge_None in Erow. by rewrite drop_ge.
Qed.

Lemma clamps_collect_spec fuel rws : ∀ p,
  p ≤ length rws → length rws - p < fuel →
  concat (snd <$> clamps_collect fuel rws p) = filter (λ r, is_clamp r = true) (drop p rws) ∧
  Forall (λ bi, bi.2 ≠ [] ∧ Forall (λ r, emod_block r = bi.1 ∧ is_clamp r = true) bi.2)
    (clamps_collect fuel rws p).
Proof.
  induction fuel as [|fuel IH]; intros p Hp Hfuel; [lia|]. simpl.
  pose proof (clamps_next_spec rws p Hp) as Hn.
  destruct (clamps_next rws p) as [[[b item]|] q].
  - destruct Hn as (Hq & Hne & Hall & Hf). destruct (IH q) as [Hc Ha]; [lia|lia|]. split.
    + rewrite Hf. cbn [fmap list_fmap concat snd]. by rewrite Hc.
    + by constructor.
  - by rewrite Hn.
Qed.

(** The clamps of a group, and that the list of runs is complete. *)
Lemma clamps_by_block_concat g :
  concat (snd <$> clamps_by_block g) = filter (λ r, is_clamp r = true) (rows g).
Proof. destruct (clamps_collect_spec (S (length (rows g))) (rows g) 0) as [H _]; [lia..|]. done. Qed.

Lemma clamps_by_block_runs g :
  Forall (λ bi, bi.2 ≠ [] ∧ Forall (λ r, emod_block r = bi.1 ∧ is_clamp r = true) bi.2)
    (clamps_by_block g).
Proof. by destruct (clamps_collect_spec (S (length (rows g))) (rows g) 0) as [_ H]; [lia..|]. Qed.

(** Repeating the clamp positions does not need more fuel. *)
Lemma clamps_by_block_exhausted g n :
  clamps_collect (S (length (rows g)) + n) (rows g) 0 = clamps_by_block g.
Proof.
  unfold clamps_by_block. generalize (rows g). intros rws.
  assert (∀ f p, p ≤ length rws → length rws - p < f →
    clamps_collect (f + n) rws p = clamps_collect f rws p) as H; [|apply H; lia].
  induction f as [|f IH]; intros p Hp Hf; [lia|]. simpl.
  pose proof (clamps_next_spec rws p Hp) as Hn. destruct (clamps_next rws p) as [[[b item]|] q]; [|done].
  f_equal. destruct Hn as [Hq _]. apply IH; lia.
Qed.

(** ** [WriteChunker] *)

Lemma advance_spec size rest : ∀ count p,
  count ≤ size →
  ∃ n, advance size rest count p = p + n ∧ n ≤ length rest ∧
       chunk_writes size rest count = omap as_write (take n rest) ∧
       (n < length rest → count + length (omap as_write (take n rest)) = size) ∧
       count + length (omap as_write (take n rest)) ≤ size ∧
       (count < size → rest ≠ [] → 0 < n).
Proof.
  induction rest as [|r rest IH]; intros count p Hc; simpl.
  { exists 0. split_and!; simpl; try done; lia. }
  destruct (Nat.ltb_spec count size) as [Hlt|Hge].
  - destruct (IH (if is_write r then S count else count) (S p)) as (n & -> & Hn & Hw & Hfull & Hle & _).
    { destruct (is_write r); lia. }
    exists (S n). split; [lia|]. split; [lia|].
    change (omap as_write (take (S n) (r :: rest))) with
      (match as_write r with
       | Some w => w :: omap as_write (take n rest)
       | None => omap as_write (take n rest)
       end).
    destruct r; cbn [as_write is_write length] in *; rewrite Hw; split_and!; try done; intros; lia.
  - exists 0. split_and!; simpl; try done; intros; lia.
Qed.

Lemma chunks_collect_spec fuel g size : ∀ p,
  0 < size → p ≤ length (rows g) → length (rows g) - p < fuel →
  concat (chunk_iter <$> chunks_collect fuel g size p) = omap as_write (drop p (rows g)) ∧
  Forall (λ c, chunk_group c = g ∧ chunk_size c = size ∧ length (chunk_iter c) ≤ size)
    (chunks_collect fuel g size p).
Proof.
  induction fuel as [|fuel IH]; intros p Hs Hp Hf; [lia|]. cbn [chunks_collect].
  unfold chunker_next. destruct (Nat.ltb_spec p (length (rows g))) as [Hlt|Hge].
  2:{ rewrite drop_ge by done. by split. }
  destruct (advance_spec size (drop p (rows g)) 0 p) as (n & -> & Hn & Hw & _ & Hle & Hpos); [lia|].
  rewrite length_drop in Hn.
  assert (0 < n) as Hn0.
  { apply Hpos; [done|]. intros Hd. apply (f_equal length) in Hd. rewrite length_drop in Hd. simpl in Hd. lia. }
  destruct (IH (p + n)) as [Hc Ha]; [lia..|]. split.
  - cbn [fmap list_fmap concat]. rewrite Hc. unfold chunk_iter at 1. simpl. rewrite Hw.
    rewrite <-(take_drop n (drop p (rows g))) at 2. by rewrite omap_app, drop_drop.
  - constructor; [|done]. simpl. split_and!; try done. unfold chunk_iter. simpl. rewrite Hw. lia.
Qed.

Lemma write_chunks_concat g size :
  0 < size → concat (chunk_iter <$> write_chunks g size) = omap as_write (rows g).
Proof.
  intros Hs. destruct (chunks_collect_spec (S (length (rows g))) g size 0) as [H _]; [lia..|]. done.
Qed.

Lemma write_chunks_size g size :
  0 < size →
  Forall (λ c, chunk_group c = g ∧ chunk_size c = size ∧ length (chunk_iter c) ≤ size)
    (write_chunks g size).
Proof.
  intros Hs. by destruct (chunks_collect_spec (S (length (rows g))) g size 0) as [_ H]; [lia..|].
Qed.

Lemma write_chunks_exhausted g size n :
  0 < size → chunks_collect (S (length (rows g)) + n) g size 0 = write_chunks g size.
Proof.
  intros Hs. unfold write_chunks.
  assert (∀ f p, p ≤ length (rows g) → length (rows g) - p < f →
    chunks_collect (f + n) g size p = chunks_collect f g size p) as H; [|apply H; lia].
  induction f as [|f IH]; intros p Hp Hf; [lia|]. simpl.
  destruct (Nat.ltb_spec p (length (rows g))) as [Hlt|Hge]; [|done]. f_equal.
  destruct (advance_spec size (drop p (rows g)) 0 p) as (k & -> & Hk & _ & _ & _ & Hpos); [lia|].
  rewrite length_drop in Hk.
  assert (0 < k) by (apply Hpos; [done|]; intros Hd; apply (f_equal length) in Hd;
                     rewrite length_drop in Hd; simpl in Hd; lia).
  apply IH; lia.
Qed.

(** ** [as_single_writes] *)

Lemma chunk_writes_one r w rest : as_write r = Some w → chunk_writes 1 (r :: rest) 0 = [w].
Proof. intros Hw. simpl. rewrite Hw. f_equal. by destruct rest. Qed.

Lemma chunk_writes_all size rest : ∀ count,
  count ≤ size → Forall (λ r, is_write r = true) rest →
  chunk_writes size rest count = omap as_write (take (size - count) rest).
Proof.
  induction rest as [|r rest IH]; intros count Hc Hall; [by rewrite take_nil|].
  apply Forall_cons in Hall as [Hr Hall]. simpl. destruct (Nat.ltb_spec count size) as [Hlt|Hge].
  - replace (size - count) with (S (size - S count)) by lia.
    destruct r; try done; simpl; f_equal; apply IH; (lia || done).
  - by replace (size - count) with 0 by lia.
Qed.

Lemma single_writes_concat g p n :
  Forall (λ r, is_write r = true) (rows g) → p + n ≤ length (rows g) →
  concat (chunk_iter <$> ((λ i, mkWriteChunk g 1 (p + i)) <$> seq 0 n)) =
  omap as_write (take n (drop p (rows g))).
Proof.
  intros Hall. revert p. induction n as [|n IH]; intros p Hn; [done|].
  rewrite <-cons_seq, <-fmap_S_seq, !fmap_cons. cbn [concat].
  destruct (lookup_lt_is_Some_2 (rows g) p) as [r Hr]; [lia|].
  assert (∃ w, as_write r = Some w) as [w Hw].
  { rewrite Forall_lookup in Hall. specialize (Hall _ _ Hr). destruct r; try done; by eexists. }
  rewrite (drop_S _ _ _ Hr). cbn [take].
  change (omap as_write (r :: take n (drop (S p) (rows g)))) with
    (match as_write r with
     | Some w => w :: omap as_write (take n (drop (S p) (rows g)))
     | None => omap as_write (take n (drop (S p) (rows g)))
     end). rewrite Hw.
  unfold chunk_iter at 1. simpl chunk_size. simpl chunk_position. simpl chunk_group.
  rewrite Nat.add_0_r, (drop_S _ _ _ Hr), (chunk_writes_one _ w) by done. simpl. f_equal.
  rewrite <-IH by lia. f_equal. rewrite <-!list_fmap_compose. apply list_fmap_ext.
  intros i x _. simpl. by rewrite Nat.add_succ_r.
Qed.

(** [clamps_by_block] yields every clamp of the group exactly once and in
    order, in non-empty runs of one block each, and asking the iterator for
    more items after that gives nothing. *)
Theorem clamps_by_block_complete g :
  concat (snd <$> clamps_by_block g) = filter (λ r, is_clamp r = true) (rows g) ∧
  Forall (λ bi, bi.2 ≠ [] ∧ Forall (λ r, emod_block r = bi.1 ∧ is_clamp r = true) bi.2)
    (clamps_by_block g) ∧
  ∀ n, clamps_collect (S (length (rows g)) + n) (rows g) 0 = clamps_by_block g.
Proof.
  split; [apply clamps_by_block_concat|]. split; [apply clamps_by_block_runs|].
  apply clamps_by_block_exhausted.
Qed.

(** For a positive chunk size, [write_chunks] terminates and its chunks
    hold every write of the group exactly once and in order, at most
    [chunk_size] of them in each chunk. *)
Theorem write_chunks_complete g size :
  0 < size →
  concat (chunk_iter <$> write_chunks g size) = omap as_write (rows g) ∧
  Forall (λ c, length (chunk_iter c) ≤ size) (write_chunks g size) ∧
  ∀ n, chunks_collect (S (length (rows g)) + n) g size 0 = write_chunks g size.
Proof.
  intros Hs. split; [by apply write_chunks_concat|]. split; [|by intros; apply write_chunks_exhausted].
  eapply Forall_impl; [by apply write_chunks_size|]. naive_solver.
Qed.

(** When a group has only writes, the single-write chunks of a chunk hold
    exactly the writes of the chunk, one each, so that the fallback to
    row-by-row inserts writes the same rows. *)
Theorem as_single_writes_writes_only c :
  Forall (λ r, is_write r = true) (rows (chunk_group c)) →
  concat (chunk_iter <$> as_single_writes c) = chunk_iter c ∧
  Forall (λ c', length (chunk_iter c') ≤ 1) (as_single_writes c).
Proof.
  destruct c as [g size p]. unfold as_single_writes, chunk_len, row_count. simpl. intros Hall. split.
  - destruct (decide (p ≤ length (rows g))) as [Hp|Hp].
    + rewrite single_writes_concat by (done || lia). unfold chunk_iter. simpl.
      rewrite chunk_writes_all; [|lia|by apply Forall_drop]. rewrite Nat.sub_0_r.
      f_equal. destruct (decide (size ≤ length (rows g) - p)).
      * by rewrite Nat.min_r by lia.
      * rewrite Nat.min_l by lia. rewrite !take_ge; [done|rewrite length_drop; lia..].
    + replace (length (rows g) - p) with 0 by lia. simpl. unfold chunk_iter. simpl.
      by rewrite drop_ge by lia.
  - apply Forall_fmap, Forall_true. intros i. simpl. unfold chunk_iter. simpl.
    destruct (advance_spec 1 (drop (p + i) (rows g)) 0 0) as (n & _ & _ & Hw & _ & Hle & _); [lia|].
    rewrite Hw. lia.
Qed.

(** A group with a removal before two inserts *)
Definition removal_group (a b c : EntityKey) (e : Object Value) : RowGroup :=
  mkRowGroup (entity_type a) [Remove a 1; Insert b e 1 None; Insert c e 1 None] ∅.

(** With a removal among the rows, the single-write chunks are wrong:
    [len] counts rows and not writes, so that of the two writes of the chunk
    the first one is written twice and the second one never. *)
Theorem as_single_writes_loses_writes (a b c : EntityKey) (e : Object Value) :
  let chunk := mkWriteChunk (removal_group a b c e) 2 0 in
  ew_id <$> chunk_iter chunk = [entity_id b; entity_id c] ∧
  ew_id <$> concat (chunk_iter <$> as_single_writes chunk) = [entity_id b; entity_id b].
Proof. done. Qed.

Definition sample_group : RowGroup :=
  mkRowGroup (mkEntityType "User")
    [Insert (mkEntityKey (mkEntityType "User") (IdString "u1") ONCHAIN)
       (mkObject (mkArcPool 0 pool_new) []) 3 None] ∅.

Lemma write_chunks_complete_witness :
  0 < 2 ∧
  concat (chunk_iter <$> write_chunks sample_group 2) = omap as_write (rows sample_group) ∧
  Forall (λ c, length (chunk_iter c) ≤ 2) (write_chunks sample_group 2) ∧
  ∀ n, chunks_collect (S (length (rows sample_group)) + n) sample_group 2 0 =
       write_chunks sample_group 2.
Proof. split; [lia|]. apply write_chunks_complete. lia. Defined.

Lemma as_single_writes_witness :
  concat (chunk_iter <$> as_single_writes (mkWriteChunk sample_group 2 0)) =
    chunk_iter (mkWriteChunk sample_group 2 0) ∧
  Forall (λ c', length (chunk_iter c') ≤ 1) (as_single_writes (mkWriteChunk sample_group 2 0)).
Proof. apply as_single_writes_writes_only. repeat constructor. Defined.
