(* ===== verification/RelationalFacts.v ===== *)
(** * Writing a row group, one row at a time

    [Layout::delete] and [Layout::insert] clamp and insert in bulk, in runs,
    chunks and multi-row statements.  This file shows that, for a well-formed
    group, they do to the versions of a table exactly what processing the rows
    of the group one after the other does ([rows_seq]). *)

From Stdlib Require Import ZArith Lia.
From stdpp Require Import base gmap list strings.
From S2P Require Import Prelude Values Intern InternFacts Entity EntityFacts Write WriteFacts Relational.

Local Open Scope Z_scope.

(** ** Clamping *)

Definition clamp_fn (ids : list Id) (b : BlockNumber) (v : Version) : Version :=
  if bool_decide (v_id v ∈ ids) && latest v then
    match v_block v with
    | RangeCol (RRange l _) =>
        mkVersion (v_vid v) (v_id v) (v_cr v) (v_data v)
          (RangeCol (if l <? b then RRange l (Some b) else REmpty))
    | _ => v
    end
  else v.

(** The condition under which the server accepts the new range *)
Definition clamp_guard (ids : list Id) (b : BlockNumber) (v : Version) : Prop :=
  v_id v ∈ ids → latest v = true → ∀ l u, v_block v = RangeCol (RRange l u) → l ≤ b.

Lemma clamp_version_ok ids b v v' :
  clamp_version ids b v = Ok v' ↔ clamp_guard ids b v ∧ v' = clamp_fn ids b v.
Proof.
  unfold clamp_version, clamp_guard, clamp_fn.
  destruct (bool_decide_reflect (v_id v ∈ ids)); simpl; [|naive_solver].
  destruct (latest v) eqn:El; [|naive_solver].
  destruct (v_block v) as [|[|l u]] eqn:Eb; [naive_solver..|]. unfold int4range.
  destruct (Z.ltb_spec l b); simpl; [split; [intros [= <-]|]; naive_solver lia|].
  destruct (Z.eqb_spec l b); simpl; [split; [intros [= <-]|]; naive_solver lia|].
  split; [done|]. intros [Hg _]. specialize (Hg ltac:(done) ltac:(done) l u eq_refl). lia.
Qed.

Lemma clamp_versions_ok ids b vs : ∀ vs',
  clamp_versions ids b vs = Ok vs' ↔ Forall (clamp_guard ids b) vs ∧ vs' = clamp_fn ids b <$> vs.
Proof.
  induction vs as [|v vs IH]; intros vs'; simpl.
  { split; [intros [= <-]|intros [_ ->]]; repeat constructor. }
  rewrite Forall_cons.
  destruct (clamp_version ids b v) as [v1| |] eqn:Ev; simpl.
  - apply clamp_version_ok in Ev as [Hg ->].
    destruct (clamp_versions ids b vs) as [vs1| |] eqn:Evs; simpl.
    + destruct (IH vs1) as [[Hgs ->] _]; [done|]. split; [by intros [= <-]|by intros [_ ->]].
    + split; [done|]. intros [[_ Hgs] _].
      pose proof (proj2 (IH _) (conj Hgs eq_refl)). done.
    + split; [done|]. intros [[_ Hgs] _].
      pose proof (proj2 (IH _) (conj Hgs eq_refl)). done.
  - split; [done|]. intros [[Hg _] _].
    assert (clamp_version ids b v = Ok (clamp_fn ids b v)) by by apply clamp_version_ok. congruence.
  - split; [done|]. intros [[Hg _] _].
    assert (clamp_version ids b v = Ok (clamp_fn ids b v)) by by apply clamp_version_ok. congruence.
Qed.

Lemma clamp_fn_id ids b v : v_id (clamp_fn ids b v) = v_id v.
Proof. unfold clamp_fn. case_match; [|done]. by repeat case_match. Qed.

Lemma clamp_fn_vid ids b v : v_vid (clamp_fn ids b v) = v_vid v.
Proof. unfold clamp_fn. case_match; [|done]. by repeat case_match. Qed.

Lemma clamp_fn_other ids b v : v_id v ∉ ids → clamp_fn ids b v = v.
Proof. intros Hv. unfold clamp_fn. by rewrite bool_decide_false. Qed.

(** After a clamp to a block, no version is current any more. *)
Lemma clamp_fn_latest ids b v :
  b ≤ BLOCK_NUMBER_MAX → v_id v ∈ ids → (∃ r, v_block v = RangeCol r) →
  latest (clamp_fn ids b v) = false.
Proof.
  intros Hb Hv [r Hr]. unfold clamp_fn. rewrite bool_decide_true by done. simpl.
  destruct (latest v) eqn:El; [|done]. rewrite Hr.
  destruct r as [|l u]; [unfold latest in El; by rewrite Hr in El|].
  unfold latest. simpl. destruct (l <? b); simpl; [|done].
  apply andb_false_iff. right. apply Z.ltb_ge. lia.
Qed.

(** The versions of a mutable table all have block ranges. *)
Definition ranged (v : Version) : Prop := ∃ r, v_block v = RangeCol r.

Lemma clamp_fn_ranged ids b v : ranged v → ranged (clamp_fn ids b v).
Proof.
  intros [r Hr]. unfold clamp_fn. rewrite Hr. destruct r as [|l u]; case_match; try by eexists.
Qed.

Lemma clamp_fn_app ids1 ids2 b v :
  b ≤ BLOCK_NUMBER_MAX → ranged v →
  clamp_fn ids2 b (clamp_fn ids1 b v) = clamp_fn (ids1 ++ ids2) b v.
Proof.
  intros Hb Hr. destruct (decide (v_id v ∈ ids1)) as [H1|H1].
  - unfold clamp_fn at 1. rewrite clamp_fn_latest, andb_false_r by done. unfold clamp_fn.
    by rewrite !bool_decide_true by set_solver.
  - rewrite (clamp_fn_other ids1) by done. unfold clamp_fn.
    destruct (decide (v_id v ∈ ids2)); [by rewrite !bool_decide_true by set_solver|].
    by rewrite !bool_decide_false by set_solver.
Qed.

Lemma clamp_guard_app ids1 ids2 b v :
  b ≤ BLOCK_NUMBER_MAX → ranged v →
  clamp_guard (ids1 ++ ids2) b v ↔ clamp_guard ids1 b v ∧ clamp_guard ids2 b (clamp_fn ids1 b v).
Proof.
  intros Hb Hr. unfold clamp_guard. rewrite clamp_fn_id.
  destruct (decide (v_id v ∈ ids1)) as [H1|H1].
  - rewrite clamp_fn_latest by done. set_solver.
  - rewrite (clamp_fn_other ids1) by done. set_solver.
Qed.

Lemma clamp_versions_app ids1 ids2 b vs vs' :
  b ≤ BLOCK_NUMBER_MAX → Forall ranged vs →
  clamp_versions (ids1 ++ ids2) b vs = Ok vs' ↔
  ∃ vs1, clamp_versions ids1 b vs = Ok vs1 ∧ clamp_versions ids2 b vs1 = Ok vs'.
Proof.
  intros Hb Hr. setoid_rewrite clamp_versions_ok.
  assert (Forall (clamp_guard (ids1 ++ ids2) b) vs ↔
    Forall (clamp_guard ids1 b) vs ∧ Forall (clamp_guard ids2 b) (clamp_fn ids1 b <$> vs)) as ->.
  { rewrite Forall_fmap, <-Forall_and, !Forall_forall. pose proof (proj1 (Forall_forall _ _) Hr) as Hr'.
    split; intros Hg v Hv; simpl.
    - apply clamp_guard_app; auto.
    - apply clamp_guard_app; [done|auto|]. exact (Hg v Hv). }
  assert (clamp_fn (ids1 ++ ids2) b <$> vs = clamp_fn ids2 b <$> (clamp_fn ids1 b <$> vs)) as ->.
  { rewrite <-list_fmap_compose. apply list_fmap_ext. intros i v Hv. simpl. symmetry.
    apply clamp_fn_app; [done|]. by eapply Forall_lookup_1 in Hr. }
  naive_solver.
Qed.

Lemma clamp_versions_nil b vs : clamp_versions [] b vs = Ok vs.
Proof.
  apply clamp_versions_ok. split.
  - apply Forall_true. intros v Hv. by apply not_elem_of_nil in Hv.
  - symmetry. apply fmap_id_on. intros v _. apply clamp_fn_other, not_elem_of_nil.
Qed.

Lemma clamp_versions_ranged ids b vs vs' :
  Forall ranged vs → clamp_versions ids b vs = Ok vs' → Forall ranged vs'.
Proof.
  intros Hr [_ ->]%clamp_versions_ok. apply Forall_fmap. eapply Forall_impl; [done|].
  intros v Hv. by apply clamp_fn_ranged.
Qed.

#[export] Hint Resolve clamp_versions_ranged : rows.

(** One clamp after the other *)
Fixpoint clamps_seq (rws : list EntityModification) (vs : list Version)
    : outcome StoreError (list Version) :=
  match rws with
  | [] => Ok vs
  | r :: rws =>
      if is_clamp r then
        vs1 ← clamp_versions [emod_id r] (emod_block r) vs;
        clamps_seq rws vs1
      else clamps_seq rws vs
  end.

Lemma clamps_seq_filter rws vs :
  clamps_seq (filter (λ r, is_clamp r = true) rws) vs = clamps_seq rws vs.
Proof.
  revert vs. induction rws as [|r rws IH]; intros vs; [done|]. rewrite filter_cons. simpl.
  destruct (is_clamp r) eqn:E; simpl; [|apply IH]. rewrite E.
  destruct (clamp_versions _ _ vs); simpl; [apply IH|done..].
Qed.

Lemma clamps_seq_app rws1 rws2 vs vs' :
  clamps_seq (rws1 ++ rws2) vs = Ok vs' ↔
  ∃ vs1, clamps_seq rws1 vs = Ok vs1 ∧ clamps_seq rws2 vs1 = Ok vs'.
Proof.
  revert vs. induction rws1 as [|r rws1 IH]; intros vs; simpl; [naive_solver|].
  destruct (is_clamp r); [|apply IH]. destruct (clamp_versions _ _ vs); simpl; [apply IH|naive_solver..].
Qed.

Lemma clamps_seq_ranged rws vs vs' :
  Forall ranged vs → clamps_seq rws vs = Ok vs' → Forall ranged vs'.
Proof.
  revert vs. induction rws as [|r rws IH]; intros vs Hr; simpl; [by intros [= <-]|].
  destruct (is_clamp r); [|by apply IH].
  destruct (clamp_versions _ _ vs) eqn:E; simpl; try done. apply IH.
  by eauto with rows.
Qed.

(** A run of clamps of one block *)
Lemma clamps_seq_run b rws vs vs' :
  b ≤ BLOCK_NUMBER_MAX → Forall ranged vs →
  Forall (λ r, emod_block r = b ∧ is_clamp r = true) rws →
  clamp_versions (emod_id <$> rws) b vs = Ok vs' ↔ clamps_seq rws vs = Ok vs'.
Proof.
  intros Hb. revert vs. induction rws as [|r rws IH]; intros vs Hr Hall.
  { rewrite clamp_versions_nil. naive_solver. }
  apply Forall_cons in Hall as [[Hrb Hrc] Hall]. rewrite fmap_cons.
  change (emod_id r :: (emod_id <$> rws)) with ([emod_id r] ++ (emod_id <$> rws)).
  rewrite clamp_versions_app by done. simpl. rewrite Hrc, Hrb.
  destruct (clamp_versions [emod_id r] b vs) as [vs1| |] eqn:E; simpl; [|naive_solver..].
  rewrite <-IH by (done || by eauto with rows). naive_solver.
Qed.

(** *** Chunks of ids *)

Lemma chunks_fuel_concat {A} n fuel (l : list A) :
  (0 < n)%nat → (length l ≤ fuel)%nat → concat (chunks_fuel fuel n l) = l.
Proof.
  intros Hn. revert l. induction fuel as [|fuel IH]; intros [|x l] Hf; simpl in *; try done; [lia|].
  rewrite IH; [by apply take_drop|]. destruct n as [|n]; [lia|]. simpl. rewrite length_drop. lia.
Qed.

Lemma chunks_concat {A} n (l : list A) : (0 < n)%nat → concat (chunks n l) = l.
Proof. intros. by apply chunks_fuel_concat. Qed.

Lemma id_list_typed t ids :
  Forall (λ i, id_type i = t) ids →
  ∃ l, id_list_try_from_iter t ids = Ok l ∧ id_list_ids l = ids.
Proof.
  intros Hall. destruct t; simpl.
  - assert (∃ l, collect_string ids = Ok l ∧ IdString <$> l = ids) as (l & -> & Hl); [|by eexists].
    induction Hall as [|[] ids Hi Hall IH]; simpl in *; try done; [by exists []|].
    destruct IH as (l & -> & <-). by eexists.
  - assert (∃ l, collect_bytes ids = Ok l ∧ IdBytes <$> l = ids) as (l & -> & Hl); [|by eexists].
    induction Hall as [|[] ids Hi Hall IH]; simpl in *; try done; [by exists []|].
    destruct IH as (l & -> & <-). by eexists.
  - assert (∃ l, collect_int8 ids = Ok l ∧ IdInt8 <$> l = ids) as (l & -> & Hl); [|by eexists].
    induction Hall as [|[] ids Hi Hall IH]; simpl in *; try done; [by exists []|].
    destruct IH as (l & -> & <-). by eexists.
Qed.

Lemma map_err_ok {E E' A} (f : E → E') (m : outcome E A) a : map_err f m = Ok a ↔ m = Ok a.
Proof. destruct m; simpl; naive_solver. Qed.

Section Delete.
  Context (table : Table) (t : IdType).
  Hypothesis Hmut : immutable table = false.

Lemma delete_chunks_ok b cs vs vs' :
  b ≤ BLOCK_NUMBER_MAX → Forall ranged vs → Forall (λ i, id_type i = t) (concat cs) →
  delete_chunks table t b cs vs = Ok vs' ↔ clamp_versions (concat cs) b vs = Ok vs'.
Proof.
  intros Hb. revert vs. induction cs as [|c cs IH]; intros vs Hr Hty; simpl in *.
  { by rewrite clamp_versions_nil. }
  apply Forall_app in Hty as [Hc Hcs]. destruct (id_list_typed t c Hc) as (l & -> & Hl). simpl.
  rewrite clamp_versions_app by done. unfold clamp_query. rewrite Hmut, Hl.
  destruct (clamp_versions c b vs) as [vs1| |] eqn:E; simpl; [|naive_solver..].
  rewrite IH by (done || by eauto with rows). naive_solver.
Qed.

Lemma delete_clamps_ok clamps vs vs' :
  Forall ranged vs →
  Forall (λ bi, bi.1 ≤ BLOCK_NUMBER_MAX ∧ Forall (λ r, id_type (emod_id r) = t) bi.2 ∧
                Forall (λ r, emod_block r = bi.1 ∧ is_clamp r = true) bi.2) clamps →
  delete_clamps table t clamps vs = Ok vs' ↔ clamps_seq (concat (snd <$> clamps)) vs = Ok vs'.
Proof.
  revert vs. induction clamps as [|[b rws] clamps IH]; intros vs Hr Hall; [done|].
  apply Forall_cons in Hall as [(Hb & Hty & Hrun) Hall]. cbn [delete_clamps fmap list_fmap concat snd].
  assert (∀ vs1, delete_chunks table t b (chunks DELETE_OPERATION_CHUNK_SIZE (emod_id <$> rws)) vs =
    Ok vs1 ↔ clamps_seq rws vs = Ok vs1) as Hd.
  { intros vs1. rewrite <-(clamps_seq_run b) by done. rewrite delete_chunks_ok; [|done..|].
    - rewrite chunks_concat; [done|]. unfold DELETE_OPERATION_CHUNK_SIZE. lia.
    - rewrite chunks_concat; [by apply Forall_fmap|]. unfold DELETE_OPERATION_CHUNK_SIZE. lia. }
  rewrite clamps_seq_app.
  destruct (delete_chunks _ _ _ _ vs) as [vs1| |] eqn:E.
  - pose proof (proj1 (Hd vs1) eq_refl) as E'. simpl. rewrite E'. rewrite IH by (done || by eapply clamps_seq_ranged). naive_solver.
  - simpl. split; [done|]. intros (vs1 & H1 & _). apply Hd in H1. done.
  - simpl. split; [done|]. intros (vs1 & H1 & _). apply Hd in H1. done.
Qed.

End Delete.

(** ** Inserting *)

Section Insert.
  Context `{EnvVars} `{InputSchema} `{BuildConfig} (table : Table).

(** What a write must satisfy for its row to be built *)
Definition write_ok (w : EntityWrite) : Prop :=
  missing_column table w = false ∧ (∃ vid, entity_vid (ew_entity w) = Ok vid) ∧
  ∀ c, c ∈ columns table → column_used c w = true → ∃ iv, insert_value w c = Ok iv.

Lemma insert_value_entity w w' c :
  ew_entity w' = ew_entity w → insert_value w' c = insert_value w c.
Proof.
  intros He. unfold insert_value. rewrite He. destruct (fulltext_fields c) as [fields|]; [|done].
  assert (fulltext_values w' fields = fulltext_values w fields) as ->; [|done].
  induction fields as [|f fields IH]; [done|]. simpl. by rewrite He, IH.
Qed.

(** Only the entity of a write matters. *)
Lemma write_ok_entity w w' : ew_entity w' = ew_entity w → write_ok w → write_ok w'.
Proof.
  intros He (Hm & Hv & Hc). unfold write_ok, missing_column, column_used in *. rewrite He.
  split_and!; try done. intros c Hin Hu. rewrite (insert_value_entity w w') by done. by apply Hc.
Qed.

Lemma contains_key_get (e : Object Value) k :
  obj_wf e → entity_contains_key e k = bool_decide (is_Some (entity_get e k)).
Proof.
  intros Hwf. unfold entity_contains_key, entity_get. case_decide; [done|].
  rewrite obj_contains_key_spec by done. by rewrite obj_map_lookup by apply Hwf.
Qed.

(** A column that a row does not use has no value for the row. *)
Lemma insert_value_unused w c :
  obj_wf (ew_entity w) → column_used c w = false →
  insert_value w c = match fulltext_fields c with
                     | Some _ => if col_tsvector c then Ok (IVFulltext [])
                                 else Err (UnknownError "FulltextColumnMissingConfig")
                     | None => Ok (IVValue VNull)
                     end.
Proof.
  intros Hwf. unfold column_used, insert_value. destruct (fulltext_fields c) as [fields|].
  - intros Hu. assert (fulltext_values w fields = Ok []) as ->; [|done].
    induction fields as [|f fields IH]; [done|]. simpl in *. apply orb_false_iff in Hu as [Hf Hu].
    rewrite contains_key_get, bool_decide_eq_false, <-eq_None_not_Some in Hf by done. rewrite Hf. by apply IH.
  - rewrite bool_decide_eq_false, <-eq_None_not_Some. by intros ->.
Qed.

Lemma insert_value_tsvector w c iv fields :
  insert_value w c = Ok iv → fulltext_fields c = Some fields → col_tsvector c = true.
Proof.
  unfold insert_value. intros Hi Hf. rewrite Hf in Hi.
  destruct (fulltext_values w fields); simpl in Hi; try done. by destruct (col_tsvector c).
Qed.

Lemma insert_values_ok w cs :
  (∃ ivs, insert_values w cs = Ok ivs) ↔ ∀ c, c ∈ cs → ∃ iv, insert_value w c = Ok iv.
Proof.
  induction cs as [|c cs IH]; simpl.
  { split; [|by eexists]. intros _ c Hc. by apply not_elem_of_nil in Hc. }
  setoid_rewrite elem_of_cons. destruct (insert_value w c) as [iv| |] eqn:E; simpl.
  - destruct (insert_values w cs) as [ivs| |]; simpl.
    + split; [|by eexists]. intros _ c' [->|Hc']; [by eexists|]. apply IH; eauto.
    + split; [naive_solver|]. intros Hall. destruct IH as [_ IH]. destruct IH; naive_solver.
    + split; [naive_solver|]. intros Hall. destruct IH as [_ IH]. destruct IH; naive_solver.
  - split; [naive_solver|]. intros Hall. destruct (Hall c); [by left|]. congruence.
  - split; [naive_solver|]. intros Hall. destruct (Hall c); [by left|]. congruence.
Qed.

Definition row_for (r : InsertRow) (w : EntityWrite) : Prop :=
  ir_write r = w ∧ entity_vid (ew_entity w) = Ok (ir_vid r).

Lemma insert_rows_ok cs ws :
  (∃ rs, insert_rows_new cs ws = Ok rs) ↔
  Forall (λ w, (∃ ivs, insert_values w cs = Ok ivs) ∧ ∃ vid, entity_vid (ew_entity w) = Ok vid) ws.
Proof.
  induction ws as [|w ws IH]; simpl; [split; [constructor|by eexists]|].
  rewrite Forall_cons, <-IH. unfold insert_row_new.
  destruct (insert_values w cs) as [ivs| |]; simpl; [|naive_solver..].
  destruct (entity_vid (ew_entity w)) as [vid|[]|]; simpl; [|naive_solver].
  destruct (insert_rows_new cs ws); simpl; naive_solver.
Qed.

Lemma insert_rows_for cs ws : ∀ rs, insert_rows_new cs ws = Ok rs → Forall2 row_for rs ws.
Proof.
  induction ws as [|w ws IH]; simpl; intros rs; [by intros [= <-]|]. unfold insert_row_new.
  destruct (insert_values w cs) as [ivs| |]; simpl; try done.
  destruct (entity_vid (ew_entity w)) as [vid|[]|] eqn:Ev; simpl; try done.
  destruct (insert_rows_new cs ws) as [rs'| |]; simpl; try done. intros [= <-].
  constructor; [done|]. by apply IH.
Qed.

Lemma insert_query_ok ws :
  Forall (λ w, obj_wf (ew_entity w)) ws →
  (∃ rs, insert_query_new table ws = Ok rs) ↔ Forall write_ok ws.
Proof.
  intros Hwf. unfold insert_query_new. destruct (existsb (missing_column table) ws) eqn:Em.
  { split; [naive_solver|]. intros Hok. apply existsb_exists in Em as (w & Hw & Hm).
    rewrite Forall_forall in Hok. apply list_elem_of_In in Hw. destruct (Hok w Hw) as [? _]. congruence. }
  rewrite insert_rows_ok. rewrite !Forall_forall. setoid_rewrite insert_values_ok.
  assert (∀ w, w ∈ ws → missing_column table w = false) as Hm.
  { intros w Hw. destruct (missing_column table w) eqn:E; [|done]. exfalso.
    rewrite <-not_true_iff_false in Em. apply Em. apply existsb_exists. exists w.
    by rewrite <-list_elem_of_In. }
  assert (∀ c, c ∈ unique_columns table ws ↔
    c ∈ columns table ∧ ∃ w, w ∈ ws ∧ column_used c w = true) as Hu.
  { intros c. unfold unique_columns. rewrite list_elem_of_filter, existsb_exists.
    setoid_rewrite <-list_elem_of_In. naive_solver. }
  split.
  - intros Hall w Hw. destruct (Hall w Hw) as [Hc Hv]. split; [by apply Hm|]. split; [done|].
    intros c Hcol Hused. apply Hc. apply Hu. eauto.
  - intros Hall w Hw. destruct (Hall w Hw) as (_ & Hv & Hc). split; [|done].
    intros c (Hcol & w' & Hw' & Hused)%Hu. destruct (column_used c w) eqn:Ew; [by apply Hc|].
    rewrite insert_value_unused; [|by apply (proj1 (Forall_forall _ _) Hwf)|done].
    destruct (fulltext_fields c) as [fields|] eqn:Ef; [|by eexists].
    destruct (Hall w' Hw') as (_ & _ & Hc'). destruct (Hc' c Hcol Hused) as [iv Hiv].
    rewrite (insert_value_tsvector _ _ _ _ Hiv Ef). by eexists.
Qed.

(** One write after the other *)
Definition insert_write (w : EntityWrite) (vs : list Version) : outcome StoreError (list Version) :=
  match entity_vid (ew_entity w) with
  | Ok vid => insert_version table (mkInsertRow [] w vid) vs
  | Err _ | Panic => Panic
  end.

Fixpoint writes_seq (ws : list EntityWrite) (vs : list Version) : outcome StoreError (list Version) :=
  match ws with
  | [] => Ok vs
  | w :: ws => vs' ← insert_write w vs; writes_seq ws vs'
  end.

Lemma writes_seq_app ws1 ws2 vs vs' :
  writes_seq (ws1 ++ ws2) vs = Ok vs' ↔
  ∃ vs1, writes_seq ws1 vs = Ok vs1 ∧ writes_seq ws2 vs1 = Ok vs'.
Proof.
  revert vs. induction ws1 as [|w ws1 IH]; intros vs; simpl; [naive_solver|].
  destruct (insert_write w vs); simpl; [apply IH|naive_solver..].
Qed.

Lemma insert_versions_seq rs ws vs :
  Forall2 row_for rs ws → insert_versions table rs vs = writes_seq ws vs.
Proof.
  intros Hrs. revert vs. induction Hrs as [|r w rs ws [Hw Hv] _ IH]; intros vs; [done|]. simpl.
  unfold insert_write. rewrite Hv. destruct r as [ivs w' vid]. simpl in *. subst w'.
  change (insert_version table (mkInsertRow ivs w vid) vs)
    with (insert_version table (mkInsertRow [] w vid) vs).
  destruct (insert_version _ _ vs); simpl; [apply IH|done..].
Qed.

Lemma insert_chunks_ok (value_too_large : list EntityWrite → bool) cs vs vs' :
  (∀ ws, value_too_large ws = false) →
  Forall (λ w, obj_wf (ew_entity w)) (concat (chunk_iter <$> cs)) →
  insert_chunks value_too_large table cs vs = Ok vs' ↔
  Forall write_ok (concat (chunk_iter <$> cs)) ∧ writes_seq (concat (chunk_iter <$> cs)) vs = Ok vs'.
Proof.
  intros Hlarge. revert vs. induction cs as [|c cs IH]; intros vs Hwf; [naive_solver|].
  cbn [insert_chunks fmap list_fmap concat]. cbn [fmap list_fmap concat] in Hwf.
  apply Forall_app in Hwf as [Hc Hcs]. unfold chunk_is_empty.
  destruct (chunk_iter c) as [|w ws] eqn:Ec; [by rewrite IH|]. rewrite <-Ec in *. rewrite Hlarge.
  rewrite Forall_app, writes_seq_app, <-(insert_query_ok (chunk_iter c)) by done.
  destruct (insert_query_new table (chunk_iter c)) as [rs| |] eqn:Eq; simpl; [|naive_solver..].
  assert (Forall2 row_for rs (chunk_iter c)) as Hrs.
  { unfold insert_query_new in Eq. destruct (existsb _ _); [done|]. by eapply insert_rows_for. }
  unfold exec_insert. destruct rs as [|r rs]; [rewrite Ec in Hrs; by inversion Hrs|].
  rewrite (insert_versions_seq _ (chunk_iter c)) by done.
  destruct (writes_seq (chunk_iter c) vs) as [vs1| |] eqn:Es; simpl; [rewrite IH by done|..]; naive_solver.
Qed.

End Insert.

(** ** Row by row *)

Section Rows.
  Context `{EnvVars} `{InputSchema} `{BuildConfig} (table : Table).

(** The version that a write creates *)
Definition new_version (w : EntityWrite) : option Version :=
  match entity_vid (ew_entity w), block_range_value table (ew_block w) (ew_end w) with
  | Ok vid, Ok block =>
      Some (mkVersion (if has_vid_seq table then Some vid else None) (ew_id w)
              (if has_causality_region table then ew_causality_region w else ONCHAIN)
              (ew_entity w) block)
  | _, _ => None
  end.

Lemma new_version_id w v : new_version w = Some v → v_id v = ew_id w.
Proof. unfold new_version. repeat case_match; naive_solver. Qed.

Definition write_row (row : EntityModification) (vs : list Version) : outcome StoreError (list Version) :=
  vs1 ← (if is_clamp row then clamp_versions [emod_id row] (emod_block row) vs else Ok vs);
  match as_write row with
  | Some w => insert_write table w vs1
  | None => Ok vs1
  end.

Fixpoint rows_seq (rws : list EntityModification) (vs : list Version)
    : outcome StoreError (list Version) :=
  match rws with
  | [] => Ok vs
  | r :: rws => vs' ← write_row r vs; rows_seq rws vs'
  end.

Lemma rows_seq_app rws1 rws2 vs vs' :
  rows_seq (rws1 ++ rws2) vs = Ok vs' ↔
  ∃ vs1, rows_seq rws1 vs = Ok vs1 ∧ rows_seq rws2 vs1 = Ok vs'.
Proof.
  revert vs. induction rws1 as [|r rws1 IH]; intros vs; simpl; [naive_solver|].
  destruct (write_row r vs); simpl; [apply IH|naive_solver..].
Qed.

Hypothesis Hmut : immutable table = false.

Lemma insert_write_ok w vs vs' :
  insert_write table w vs = Ok vs' ↔
  ∃ v, new_version w = Some v ∧ existsb (same_vid v) vs = false ∧
       as_constraint table && existsb (excludes v) vs = false ∧ vs' = vs ++ [v].
Proof.
  unfold insert_write, new_version, insert_version.
  destruct (entity_vid (ew_entity w)) as [vid|[]|]; [|naive_solver]. simpl.
  destruct (block_range_value table (ew_block w) (ew_end w)) as [block| |]; simpl; [|naive_solver..].
  rewrite Hmut. simpl. set (v := mkVersion _ _ _ _ _). clearbody v.
  destruct (existsb (same_vid v) vs) eqn:Es.
  { split; [done|]. intros (? & [= <-] & ? & _). congruence. }
  destruct (as_constraint table && existsb (excludes v) vs) eqn:Ex.
  { split; [done|]. intros (? & [= <-] & _ & ? & _). congruence. }
  split; [intros [= <-]; by exists v|]. by intros (? & [= <-] & _ & _ & ->).
Qed.

Lemma new_version_ranged w v : new_version w = Some v → ranged v.
Proof.
  unfold new_version, block_range_value. rewrite Hmut.
  destruct (entity_vid (ew_entity w)); try done. destruct (int4range _ _) as [r| |]; try done.
  intros [= <-]. by exists r.
Qed.

Lemma insert_write_ranged w vs vs' :
  Forall ranged vs → insert_write table w vs = Ok vs' → Forall ranged vs'.
Proof.
  intros Hr (v & Hv & _ & _ & ->)%insert_write_ok. apply Forall_app. split; [done|].
  constructor; [|constructor]. by eapply new_version_ranged.
Qed.

Lemma write_row_ranged r vs vs' : Forall ranged vs → write_row r vs = Ok vs' → Forall ranged vs'.
Proof.
  intros Hr. unfold write_row.
  destruct (if is_clamp r then _ else _) as [vs1| |] eqn:E; simpl; try done.
  assert (Forall ranged vs1) as Hr1.
  { destruct (is_clamp r); [by eauto with rows|by simplify_eq]. }
  destruct (as_write r); [by apply insert_write_ranged|by intros [= <-]].
Qed.

(** Checks of a new version do not see a clamp of another entity. *)
Lemma existsb_same_vid v ids b vs :
  existsb (same_vid v) (clamp_fn ids b <$> vs) = existsb (same_vid v) vs.
Proof.
  induction vs as [|x vs IH]; [done|]. simpl. unfold same_vid at 1. rewrite clamp_fn_vid.
  f_equal. exact IH.
Qed.

Lemma existsb_excludes v ids b vs :
  v_id v ∉ ids → existsb (excludes v) (clamp_fn ids b <$> vs) = existsb (excludes v) vs.
Proof.
  intros Hv. induction vs as [|x vs IH]; [done|]. simpl. f_equal; [|exact IH].
  destruct (decide (v_id x ∈ ids)); [|by rewrite clamp_fn_other].
  unfold excludes. rewrite clamp_fn_id. by rewrite bool_decide_false by congruence.
Qed.

Lemma insert_clamp_commute w ids b vs vs' :
  ew_id w ∉ ids →
  (∃ vs1, insert_write table w vs = Ok vs1 ∧ clamp_versions ids b vs1 = Ok vs') ↔
  (∃ vs1, clamp_versions ids b vs = Ok vs1 ∧ insert_write table w vs1 = Ok vs').
Proof.
  intros Hw. setoid_rewrite insert_write_ok. setoid_rewrite clamp_versions_ok. split.
  - intros (vs1 & (v & Hv & Hvid & Hex & ->) & Hg & ->). apply Forall_app in Hg as [Hg _].
    eexists. split; [done|]. exists v. pose proof (new_version_id _ _ Hv) as Hid.
    rewrite existsb_same_vid, existsb_excludes by congruence. split_and!; try done.
    rewrite fmap_app. simpl. by rewrite clamp_fn_other by congruence.
  - intros (vs1 & [Hg ->] & v & Hv & Hvid & Hex & ->). pose proof (new_version_id _ _ Hv) as Hid.
    rewrite existsb_same_vid in Hvid. rewrite existsb_excludes in Hex by congruence.
    exists (vs ++ [v]). split; [by exists v|]. split.
    + apply Forall_app. split; [done|]. constructor; [|constructor]. intros Hin. congruence.
    + rewrite fmap_app. simpl. by rewrite clamp_fn_other by congruence.
Qed.

(** Clamps of a group come before the writes of the same entity. *)
Fixpoint clamps_first (rws : list EntityModification) : Prop :=
  match rws with
  | [] => True
  | r :: rws =>
      (is_write r = true → Forall (λ r', is_clamp r' = true → emod_id r' ≠ emod_id r) rws) ∧
      clamps_first rws
  end.

Lemma insert_clamps_commute w rws vs vs' :
  Forall (λ r', is_clamp r' = true → emod_id r' ≠ ew_id w) rws →
  (∃ vs1, insert_write table w vs = Ok vs1 ∧ clamps_seq rws vs1 = Ok vs') ↔
  (∃ vs1, clamps_seq rws vs = Ok vs1 ∧ insert_write table w vs1 = Ok vs').
Proof.
  revert vs. induction rws as [|r rws IH]; intros vs Hall; simpl; [naive_solver|].
  apply Forall_cons in Hall as [Hr Hall]. destruct (is_clamp r); [|by apply IH].
  trans (∃ vs2, (∃ vs1, insert_write table w vs = Ok vs1 ∧
                        clamp_versions [emod_id r] (emod_block r) vs1 = Ok vs2) ∧
                clamps_seq rws vs2 = Ok vs').
  { setoid_rewrite bind_ok. split; [intros (? & ? & ? & ? & ?)|intros (? & (? & ? & ?) & ?)]; eauto 8. }
  setoid_rewrite insert_clamp_commute; [|set_solver].
  trans (∃ vs1, clamp_versions [emod_id r] (emod_block r) vs = Ok vs1 ∧
          ∃ vs2, insert_write table w vs1 = Ok vs2 ∧ clamps_seq rws vs2 = Ok vs').
  { split; [intros (? & (? & ? & ?) & ?)|intros (? & ? & ? & ? & ?)]; eauto 8. }
  setoid_rewrite IH; [|done]. setoid_rewrite bind_ok.
  split; [intros (? & ? & ? & ? & ?)|intros (? & (? & ? & ?) & ?)]; eauto 8.
Qed.

(** The clamp part of a row *)
Definition row_clamp (r : EntityModification) (vs : list Version) : outcome StoreError (list Version) :=
  if is_clamp r then clamp_versions [emod_id r] (emod_block r) vs else Ok vs.

Lemma clamps_seq_cons r rws vs vs' :
  clamps_seq (r :: rws) vs = Ok vs' ↔ ∃ vsa, row_clamp r vs = Ok vsa ∧ clamps_seq rws vsa = Ok vs'.
Proof.
  unfold row_clamp. simpl. destruct (is_clamp r); [by rewrite bind_ok|].
  split; [eauto|]. by intros (? & [= <-] & ?).
Qed.

Lemma rows_seq_cons r rws vs vs' :
  rows_seq (r :: rws) vs = Ok vs' ↔
  ∃ vsa, row_clamp r vs = Ok vsa ∧
    (match as_write r with Some w => insert_write table w vsa | None => Ok vsa end ≫= rows_seq rws)
    = Ok vs'.
Proof.
  simpl. unfold write_row. fold (row_clamp r vs). rewrite bind_ok. setoid_rewrite bind_ok. split.
  - intros (vs1 & (vsa & Hc & Hi) & Hs). eauto.
  - intros (vsa & Hc & vs1 & Hi & Hs). eauto.
Qed.

(** All clamps and then all writes is the same as row by row. *)
Lemma clamps_writes_rows rws vs vs' :
  clamps_first rws →
  (∃ vs1, clamps_seq rws vs = Ok vs1 ∧ writes_seq table (omap as_write rws) vs1 = Ok vs') ↔
  rows_seq rws vs = Ok vs'.
Proof.
  revert vs. induction rws as [|r rws IH]; intros vs.
  { intros _. simpl. split; [by intros (? & [= <-] & ?)|by eexists]. }
  intros [Hr Hrws]. setoid_rewrite clamps_seq_cons. rewrite rows_seq_cons.
  trans (∃ vsa, row_clamp r vs = Ok vsa ∧
    ∃ vs1, clamps_seq rws vsa = Ok vs1 ∧ writes_seq table (omap as_write (r :: rws)) vs1 = Ok vs').
  { split; [intros (? & (? & ? & ?) & ?)|intros (? & ? & ? & ? & ?)]; eauto 8. }
  apply exist_proper. intros vsa. apply and_iff_compat_l.
  change (omap as_write (r :: rws)) with
    (match as_write r with Some w => w :: omap as_write rws | None => omap as_write rws end).
  destruct (as_write r) as [w|] eqn:Ew; [|by apply IH].
  assert (emod_id r = ew_id w ∧ is_write r = true) as [Hid Hw] by (destruct r; by simplify_eq/=).
  cbn [writes_seq]. setoid_rewrite bind_ok. setoid_rewrite <-IH; [|done].
  trans (∃ vs2, (∃ vs1, clamps_seq rws vsa = Ok vs1 ∧ insert_write table w vs1 = Ok vs2) ∧
    writes_seq table (omap as_write rws) vs2 = Ok vs').
  { split; [intros (? & ? & ? & ? & ?)|intros (? & (? & ? & ?) & ?)]; eauto 8. }
  setoid_rewrite <-insert_clamps_commute; [|rewrite <-Hid; by apply Hr].
  split; [intros (? & (? & ? & ?) & ?)|intros (? & ? & ? & ? & ?)]; eauto 8.
Qed.

End Rows.

#[export] Hint Resolve write_row_ranged : rows.
