(* ===== verification/AppendFacts.v ===== *)
(** * Appending to a row group

    [RowGroup::append_row] folds a row into the rows that are already there.
    The main lemma ([append_row_refines]) says that writing the folded group is
    the same as writing the group first and then the row; [group_append] and
    the batch lift it.  The invariants of row groups that the code relies on
    ([group_wf]) are preserved by every operation. *)

From Stdlib Require Import ZArith Lia.
From stdpp Require Import base gmap list strings.
From S2P Require Import Prelude Values Intern InternFacts Entity EntityFacts.
From S2P Require Import Write WriteFacts Relational RelationalFacts.

Local Open Scope Z_scope.

(** ** The most recent row for an id *)

Lemma rfind_None {A} (f : A → bool) l : rfind f l = None ↔ Forall (λ x, f x = false) l.
Proof.
  induction l as [|x l IH]; simpl; [by split|]. rewrite Forall_cons, <-IH.
  destruct (rfind f l); [naive_solver|]. destruct (f x); naive_solver.
Qed.

Lemma rfind_Some {A} (f : A → bool) l x : rfind f l = Some x → x ∈ l ∧ f x = true.
Proof.
  induction l as [|y l IH]; simpl; [done|]. destruct (rfind f l) as [z|].
  - intros [= ->]. destruct IH as [Hx Hf]; [done|]. split; [by right|done].
  - destruct (f y) eqn:Ef; [|done]. intros [= <-]. split; [left|done].
Qed.

Lemma rfind_index_spec {A} (f : A → bool) l :
  match rfind_index f l with
  | Some n => ∃ pre x post, l = pre ++ x :: post ∧ length pre = n ∧ f x = true ∧
                            Forall (λ y, f y = false) post
  | None => Forall (λ y, f y = false) l
  end.
Proof.
  induction l as [|x l IH]; simpl; [constructor|].
  destruct (rfind_index f l) as [n|].
  - destruct IH as (pre & y & post & -> & <- & Hy & Hpost). by exists (x :: pre), y, post.
  - destruct (f x) eqn:E; [by exists [], x, l|by constructor].
Qed.

Lemma rfind_index_app_None {A} (f : A → bool) l1 l2 :
  Forall (λ y, f y = false) l2 → rfind_index f (l1 ++ l2) = rfind_index f l1.
Proof.
  intros Hl2. induction l1 as [|x l1 IH]; simpl; [|by rewrite IH].
  induction Hl2 as [|y l2 Hy _ IH]; simpl; [done|]. by rewrite IH, Hy.
Qed.

Lemma rfind_index_snoc {A} (f : A → bool) l x :
  rfind_index f (l ++ [x]) = if f x then Some (length l) else rfind_index f l.
Proof.
  induction l as [|y l IH]; simpl; [done|]. rewrite IH. by destruct (f x).
Qed.

Lemma rfind_index_ext {A} (f : A → bool) l1 l2 :
  f <$> l1 = f <$> l2 → rfind_index f l1 = rfind_index f l2.
Proof.
  revert l2. induction l1 as [|x l1 IH]; intros [|y l2]; simpl; try done.
  intros [= Hf Hl]. by rewrite (IH _ Hl), Hf.
Qed.

Section Groups.
  Context `{EnvVars} `{InputSchema}.
  Implicit Types (g : RowGroup) (row : EntityModification).

Definition has_id (id : Id) row : bool := bool_decide (emod_id row = id).

(** [last_mod] points to the most recent row of every id, if it is used. *)
Definition last_mod_ok g : Prop :=
  write_batch_memoize = true → ∀ id, last_mod g !! id = rfind_index (has_id id) (rows g).

Lemma prev_row_spec g id :
  last_mod_ok g →
  match prev_row_mut g id with
  | Some (idx, prev) =>
      ∃ pre post, rows g = pre ++ prev :: post ∧ length pre = idx ∧ emod_id prev = id ∧
                  Forall (λ r, emod_id r ≠ id) post
  | None => Forall (λ r, emod_id r ≠ id) (rows g)
  end.
Proof.
  intros Hok. unfold prev_row_mut, last_mod_get.
  assert (∀ o, o = rfind_index (has_id id) (rows g) →
    match (idx ← o; (λ r, (idx, r)) <$> rows g !! idx) with
    | Some (idx, prev) => ∃ pre post, rows g = pre ++ prev :: post ∧ length pre = idx ∧
        emod_id prev = id ∧ Forall (λ r, emod_id r ≠ id) post
    | None => Forall (λ r, emod_id r ≠ id) (rows g)
    end) as Hgen.
  { intros o ->. pose proof (rfind_index_spec (has_id id) (rows g)) as Hspec.
    assert (∀ r, has_id id r = false → emod_id r ≠ id) as Hne.
    { intros r. unfold has_id. by rewrite bool_decide_eq_false. }
    destruct (rfind_index (has_id id) (rows g)) as [n|]; simpl.
    - destruct Hspec as (pre & x & post & Hl & <- & Hx & Hpost). rewrite Hl.
      rewrite list_lookup_middle by done. simpl. exists pre, post. split_and!; try done.
      + by apply bool_decide_eq_true in Hx.
      + eapply Forall_impl; [done|]. naive_solver.
    - eapply Forall_impl; [done|]. naive_solver. }
  destruct write_batch_memoize eqn:Em.
  - specialize (Hok Em id). destruct (last_mod g !! id) as [idx|] eqn:El.
    + by apply (Hgen (Some idx)).
    + by apply Hgen.
  - by apply Hgen.
Qed.

Lemma push_row_last_mod g row : last_mod_ok g → last_mod_ok (push_row g row).
Proof.
  intros Hok Hm id. unfold push_row, last_mod_insert. simpl. rewrite Hm.
  rewrite rfind_index_snoc. unfold has_id at 1. rewrite lookup_insert.
  destruct (decide (emod_id row = id)) as [->|Hne].
  - by rewrite bool_decide_true.
  - rewrite bool_decide_false by done. by apply Hok.
Qed.

Lemma set_row_last_mod g pre prev prev' post :
  rows g = pre ++ prev :: post → emod_id prev' = emod_id prev → last_mod_ok g →
  last_mod_ok (set_row g (length pre) prev').
Proof.
  intros Hrows Hid Hok Hm id. unfold set_row. simpl. rewrite (Hok Hm id).
  apply rfind_index_ext. rewrite Hrows. rewrite insert_app_r_alt, Nat.sub_diag by done. simpl.
  rewrite !fmap_app. simpl. unfold has_id. by rewrite Hid.
Qed.

(** ** The cases of [append_row] *)

(** The previous row with its range closed *)
Definition close_row row (b : BlockNumber) : EntityModification :=
  match row with
  | Insert key data block _ => Insert key data block (Some b)
  | Overwrite key data block _ => Overwrite key data block (Some b)
  | Remove key block => Remove key block
  end.

Definition is_open row : bool :=
  match row with Insert _ _ _ None | Overwrite _ _ _ None => true | _ => false end.

Inductive append_case g row : RowGroup → Prop :=
| append_new :
    Forall (λ r, emod_id r ≠ emod_id row) (rows g) →
    append_case g row (push_row g row)
| append_recreate pre prev post :
    rows g = pre ++ prev :: post → emod_id prev = emod_id row →
    Forall (λ r, emod_id r ≠ emod_id row) post →
    emod_block prev < emod_block row → is_open prev = false → creates_entity row = true →
    append_case g row (push_row g row)
| append_removed pre prev post :
    rows g = pre ++ prev :: post → emod_id prev = emod_id row →
    Forall (λ r, emod_id r ≠ emod_id row) post →
    emod_block prev < emod_block row → is_write prev = false → is_write row = false →
    append_case g row g
| append_update pre prev post key data b e :
    rows g = pre ++ prev :: post → emod_id prev = emod_id row →
    Forall (λ r, emod_id r ≠ emod_id row) post →
    emod_block prev < emod_block row → is_open prev = true → row = Overwrite key data b e →
    append_case g row (push_row (set_row g (length pre) (close_row prev b)) (Insert key data b e))
| append_remove pre prev post key b :
    rows g = pre ++ prev :: post → emod_id prev = emod_id row →
    Forall (λ r, emod_id r ≠ emod_id row) post →
    emod_block prev < emod_block row → is_open prev = true → row = Remove key b →
    append_case g row (set_row g (length pre) (close_row prev b)).

Lemma append_row_cases g row g' :
  is_immutable (group_type g) = false → last_mod_ok g →
  append_row row g = (g', Ok tt) → append_case g row g'.
Proof.
  intros Hmut Hok. unfold append_row. rewrite Hmut.
  pose proof (prev_row_spec g (emod_id row) Hok) as Hprev.
  destruct (prev_row_mut g (emod_id row)) as [[idx prev]|].
  2:{ intros [= <-]. by constructor. }
  destruct Hprev as (pre & post & Hrows & <- & Hid & Hpost).
  destruct (Z.leb_spec (emod_block row) (emod_block prev)) as [|Hlt]; [done|].
  rewrite decide_False by (rewrite Hid; tauto). unfold combine_rows.
  destruct prev as [k d b [e|]|k d b [e|]|k b], row as [k' d' b' e'|k' d' b' e'|k' b'];
    cbn [emod_clamp into_insert]; intros Hres; try discriminate Hres;
    injection Hres as <-;
    solve [ by eapply append_recreate | by eapply append_removed
          | exact (append_update _ _ pre _ post _ _ _ _ Hrows Hid Hpost Hlt eq_refl eq_refl)
          | exact (append_remove _ _ pre _ post _ _ Hrows Hid Hpost Hlt eq_refl eq_refl) ].
Qed.

(** ** Invariants of row groups *)

Lemma clamps_first_snoc rws row :
  clamps_first (rws ++ [row]) ↔
  clamps_first rws ∧ (is_clamp row = true → Forall (λ r, is_write r = true → emod_id row ≠ emod_id r) rws).
Proof.
  induction rws as [|r rws IH]; simpl.
  { split; [|done]. intros _. split; [done|]. intros _. constructor. }
  rewrite IH, Forall_app, Forall_singleton, Forall_cons. naive_solver.
Qed.

Lemma clamps_first_set pre x x' post :
  is_write x' = is_write x → is_clamp x' = is_clamp x → emod_id x' = emod_id x →
  clamps_first (pre ++ x :: post) → clamps_first (pre ++ x' :: post).
Proof.
  intros Hw Hc Hid. induction pre as [|r pre IH]; simpl.
  - by rewrite Hw, Hid.
  - intros [Hr Hpre]. split; [|by apply IH]. intros Hrw. specialize (Hr Hrw).
    rewrite Forall_app, Forall_cons in *. by rewrite Hc, Hid.
Qed.

(** What holds of the rows one by one: block numbers are [i32]s, the rows are
    of the type of the group with ids of the type's id type, the entities
    they carry are well-formed, and a closed range is not empty. *)
Definition row_wf (t : EntityType) row : Prop :=
  emod_block row ≤ BLOCK_NUMBER_MAX ∧ entity_type (emod_key row) = t ∧
  id_type (emod_id row) = schema_id_type t ∧
  match row with
  | Insert _ data block end_ | Overwrite _ data block end_ =>
      obj_wf data ∧ match end_ with Some e => block < e ≤ BLOCK_NUMBER_MAX | None => True end
  | Remove _ _ => True
  end.

Definition group_wf g : Prop :=
  last_mod_ok g ∧ clamps_first (rows g) ∧ Forall (row_wf (group_type g)) (rows g) ∧
  (is_immutable (group_type g) = true → Forall (λ r, is_open r = true ∧ creates_entity r = true) (rows g)).

Lemma close_row_id row b : emod_id (close_row row b) = emod_id row.
Proof. by destruct row. Qed.
Lemma close_row_block row b : emod_block (close_row row b) = emod_block row.
Proof. by destruct row. Qed.
Lemma close_row_write row b : is_write (close_row row b) = is_write row.
Proof. by destruct row. Qed.
Lemma close_row_clamp row b : is_clamp (close_row row b) = is_clamp row.
Proof. by destruct row. Qed.

Lemma close_row_wf t row b :
  row_wf t row → is_open row = true → emod_block row < b ≤ BLOCK_NUMBER_MAX →
  row_wf t (close_row row b).
Proof. destruct row as [? ? ? []|? ? ? []|]; simpl; try done; intros (? & ? & ? & ? & ?) _ ?; done. Qed.

Lemma rows_set_row g pre prev post row :
  rows g = pre ++ prev :: post → rows (set_row g (length pre) row) = pre ++ row :: post.
Proof. intros Hrows. unfold set_row. simpl. rewrite Hrows, insert_app_r_alt, Nat.sub_diag by done. done. Qed.

Lemma group_new_wf t : group_wf (group_new t).
Proof. split; [|repeat constructor]. intros _ id. simpl. apply lookup_empty. Qed.

Lemma push_row_wf g row :
  group_wf g → row_wf (group_type g) row →
  (is_clamp row = true → Forall (λ r, is_write r = true → emod_id row ≠ emod_id r) (rows g)) →
  (is_immutable (group_type g) = true → is_open row = true ∧ creates_entity row = true) →
  group_wf (push_row g row).
Proof.
  intros (Hlm & Hcf & Hwf & Him) Hrow Hc Hi. split; [by apply push_row_last_mod|].
  simpl. split; [by apply clamps_first_snoc|]. split.
  - by apply Forall_app_2, Forall_singleton.
  - intros Himm. apply Forall_app_2; [by apply Him|]. apply Forall_singleton. by apply Hi.
Qed.

Lemma set_close_wf g pre prev post b :
  is_immutable (group_type g) = false → group_wf g →
  rows g = pre ++ prev :: post → is_open prev = true → emod_block prev < b ≤ BLOCK_NUMBER_MAX →
  group_wf (set_row g (length pre) (close_row prev b)).
Proof.
  intros Hmut (Hlm & Hcf & Hwf & Him) Hrows Hopen Hb. split.
  { eapply set_row_last_mod; [done| |done]. apply close_row_id. }
  rewrite (rows_set_row _ _ _ _ _ Hrows). simpl. rewrite Hrows in Hcf, Hwf. split; [|split].
  - eapply clamps_first_set; [..|done].
    + apply close_row_write.
    + apply close_row_clamp.
    + apply close_row_id.
  - rewrite Forall_app, Forall_cons in *. destruct Hwf as (? & ? & ?). split_and!; try done.
    by apply close_row_wf.
  - congruence.
Qed.

Lemma append_row_group_wf g row g' :
  group_wf g → row_wf (group_type g) row →
  (is_immutable (group_type g) = true → is_open row = true) →
  append_row row g = (g', Ok tt) → group_wf g' ∧ group_type g' = group_type g.
Proof.
  intros Hg Hrow Hopen Happ. destruct (is_immutable (group_type g)) eqn:Him.
  - unfold append_row in Happ. rewrite Him in Happ. unfold append_row_immutable in Happ.
    specialize (Hopen eq_refl).
    assert (creates_entity row = true → group_wf (push_row g row)) as Hpush.
    { intros Hc. apply push_row_wf; try done. by destruct row. }
    destruct row; repeat (case_match; try done); simplify_eq; split; auto.
  - assert (last_mod_ok g) as Hlm by apply Hg.
    pose proof (append_row_cases _ _ _ Him Hlm Happ) as Hcase. destruct Hcase; subst; split; try done.
    + apply push_row_wf; try done; try congruence. intros _. eapply Forall_impl; [done|].
      naive_solver.
    + apply push_row_wf; try done; try congruence. intros Hc. destruct row; done.
    + apply push_row_wf; try done; simpl; try congruence.
      eapply set_close_wf; try done. split; [done|]. apply Hrow.
    + eapply set_close_wf; try done. split; [done|]. apply Hrow.
Qed.

End Groups.

(** ** Appending one row, for mutable types *)

Section Refine.
  Context `{EnvVars} `{InputSchema} `{BuildConfig} (table : Table) (strict : bool).
  Hypothesis Hmut : immutable table = false.

(** No version of the entity is current. *)
Definition none_current (id : Id) (vs : list Version) : Prop :=
  Forall (λ v, v_id v = id → latest v = false) vs.

(** An insert is only made for an entity that has no current version; when
    [strict] is not set, this is only required for inserts that stay current. *)
Definition row_fresh (row : EntityModification) (vs : list Version) : Prop :=
  match row with
  | Insert key _ _ None => none_current (entity_id key) vs
  | Insert key _ _ (Some _) => strict = true → none_current (entity_id key) vs
  | _ => True
  end.

Fixpoint rows_fresh (rws : list EntityModification) (vs : list Version) : Prop :=
  match rws with
  | [] => True
  | r :: rws => row_fresh r vs ∧ ∀ vs', write_row table r vs = Ok vs' → rows_fresh rws vs'
  end.

Lemma rows_fresh_app rws1 rws2 vs vs1 :
  rows_seq table rws1 vs = Ok vs1 →
  rows_fresh (rws1 ++ rws2) vs ↔ rows_fresh rws1 vs ∧ rows_fresh rws2 vs1.
Proof.
  revert vs. induction rws1 as [|r rws1 IH]; intros vs; simpl; [naive_solver|].
  rewrite bind_ok. intros (vs2 & Hr & Hs). rewrite Hr. split.
  - intros [Hf Hall]. specialize (Hall vs2 eq_refl). apply IH in Hall as [? ?]; [|done].
    split; [split; [done|]|done]. by intros vs' [= <-].
  - intros [[Hf Hall] H2]. split; [done|]. intros vs' [= <-]. apply IH; [done|].
    split; [by apply Hall|done].
Qed.

Lemma clamp_fn_none id b vs : none_current id vs → clamp_fn [id] b <$> vs = vs.
Proof.
  intros Hn. apply fmap_id_on. intros v Hv. unfold none_current in Hn. rewrite Forall_forall in Hn.
  unfold clamp_fn. case_bool_decide as Hid; [|done]. simpl. rewrite Hn; [done..|].
  by apply list_elem_of_singleton in Hid.
Qed.

Lemma clamp_none_current id b vs :
  b ≤ BLOCK_NUMBER_MAX → Forall ranged vs → none_current id (clamp_fn [id] b <$> vs).
Proof.
  intros Hb Hr. apply Forall_fmap. eapply Forall_impl; [done|]. intros v Hv. simpl. rewrite clamp_fn_id.
  intros Hid. apply clamp_fn_latest; [done|by apply list_elem_of_singleton|done].
Qed.

Lemma clamp_fn_comm id1 b1 id2 b2 v :
  id1 ≠ id2 →
  clamp_fn [id1] b1 (clamp_fn [id2] b2 v) = clamp_fn [id2] b2 (clamp_fn [id1] b1 v).
Proof.
  intros Hne. destruct (decide (v_id v = id1)) as [Hid|Hid].
  - rewrite (clamp_fn_other [id2] b2 v) by (rewrite list_elem_of_singleton; congruence).
    symmetry. apply clamp_fn_other. rewrite clamp_fn_id, list_elem_of_singleton. congruence.
  - rewrite (clamp_fn_other [id1] b1 v) by (rewrite list_elem_of_singleton; congruence).
    rewrite clamp_fn_other; [done|]. rewrite clamp_fn_id, list_elem_of_singleton. congruence.
Qed.

(** A row does not see a clamp of another entity. *)
Lemma write_row_other row id b vs vs' :
  emod_id row ≠ id → write_row table row vs = Ok vs' →
  write_row table row (clamp_fn [id] b <$> vs) = Ok (clamp_fn [id] b <$> vs').
Proof.
  intros Hne. unfold write_row. rewrite !bind_ok. intros (vs1 & Hc & Hi).
  exists (clamp_fn [id] b <$> vs1). split.
  - destruct (is_clamp row); [|by simplify_eq]. apply clamp_versions_ok in Hc as [Hg ->].
    apply clamp_versions_ok. split.
    + apply Forall_fmap. eapply Forall_impl; [done|]. intros v Hv Hin. simpl in *.
      rewrite clamp_fn_id in Hin. rewrite clamp_fn_other; [by apply Hv|].
      rewrite list_elem_of_singleton in *. congruence.
    + rewrite <-!list_fmap_compose. apply list_fmap_ext. intros i v _. simpl. by apply clamp_fn_comm.
  - destruct (as_write row) as [w|] eqn:Ew; [|by simplify_eq].
    assert (ew_id w = emod_id row) as Hid by (destruct row; by simplify_eq/=).
    apply insert_write_ok in Hi as (v & Hv & Hvid & Hex & ->); [|done].
    apply insert_write_ok; [done|]. exists v. pose proof (new_version_id _ _ _ Hv) as Hvi.
    rewrite existsb_same_vid, existsb_excludes by (rewrite list_elem_of_singleton; congruence).
    split_and!; try done. rewrite fmap_app. simpl.
    by rewrite clamp_fn_other by (rewrite list_elem_of_singleton; congruence).
Qed.

Lemma rows_seq_other rws id b vs vs' :
  Forall (λ r, emod_id r ≠ id) rws → rows_seq table rws vs = Ok vs' →
  rows_seq table rws (clamp_fn [id] b <$> vs) = Ok (clamp_fn [id] b <$> vs').
Proof.
  intros Hall. revert vs. induction Hall as [|r rws Hr _ IH]; intros vs; simpl; [by intros [= <-]|].
  rewrite !bind_ok. intros (vs1 & Hw & Hs). eexists. split; [by apply write_row_other|]. by apply IH.
Qed.

Lemma none_current_clamp_other id id' b vs :
  none_current id vs → none_current id (clamp_fn [id'] b <$> vs).
Proof.
  intros Hn. apply Forall_fmap. eapply Forall_impl; [done|]. intros v Hv. simpl. rewrite clamp_fn_id.
  intros Hid. specialize (Hv Hid). unfold clamp_fn. by rewrite Hv, andb_false_r.
Qed.

Lemma rows_fresh_other rws id b vs vs' :
  Forall (λ r, emod_id r ≠ id) rws → rows_seq table rws vs = Ok vs' →
  rows_fresh rws vs → rows_fresh rws (clamp_fn [id] b <$> vs).
Proof.
  intros Hall. revert vs. induction Hall as [|r rws Hr _ IH]; intros vs; simpl; [done|].
  rewrite bind_ok. intros (vs1 & Hw & Hs) [Hf Hfs]. split.
  - destruct r as [k d bl [e|]| |]; simpl in *; try done; intros; apply none_current_clamp_other; auto.
  - intros vs2. rewrite (write_row_other _ _ _ _ _ Hr Hw). intros [= <-]. apply IH; [done|].
    by apply Hfs.
Qed.

(** Rows of other entities leave an entity without current version alone. *)
Lemma write_row_none_current row id vs vs' :
  emod_id row ≠ id → write_row table row vs = Ok vs' → none_current id vs → none_current id vs'.
Proof.
  intros Hne. unfold write_row. rewrite bind_ok. intros (vs1 & Hc & Hi) Hn.
  assert (none_current id vs1) as Hn1.
  { destruct (is_clamp row); [|by simplify_eq]. apply clamp_versions_ok in Hc as [_ ->].
    by apply none_current_clamp_other. }
  destruct (as_write row) as [w|] eqn:Ew; [|by simplify_eq].
  apply insert_write_ok in Hi as (v & Hv & _ & _ & ->); [|done].
  apply Forall_app. split; [done|]. apply Forall_singleton. intros Hid.
  apply new_version_id in Hv. destruct row; simplify_eq/=; congruence.
Qed.

Lemma rows_seq_none_current rws id vs vs' :
  Forall (λ r, emod_id r ≠ id) rws → rows_seq table rws vs = Ok vs' →
  none_current id vs → none_current id vs'.
Proof.
  intros Hall. revert vs. induction Hall as [|r rws Hr _ IH]; intros vs; simpl; [by intros [= <-]|].
  rewrite bind_ok. intros (vs1 & Hw & Hs) Hn. eapply IH; [done|]. by eapply write_row_none_current.
Qed.

Lemma rows_seq_ranged rws vs vs' :
  Forall ranged vs → rows_seq table rws vs = Ok vs' → Forall ranged vs'.
Proof.
  revert vs. induction rws as [|r rws IH]; intros vs Hr; simpl; [by intros [= <-]|].
  rewrite bind_ok. intros (vs1 & Hw & Hs). eapply IH; [|done]. by eauto with rows.
Qed.

#[local] Hint Resolve rows_seq_ranged : rows.

(** The same version with an end *)
Lemma new_version_close w w' v b :
  ew_id w' = ew_id w → ew_entity w' = ew_entity w →
  ew_causality_region w' = ew_causality_region w → ew_block w' = ew_block w →
  ew_end w = None → ew_end w' = Some b → ew_block w < b → ew_block w ≤ BLOCK_NUMBER_MAX →
  new_version table w = Some v →
  new_version table w' = Some (clamp_fn [ew_id w] b v) ∧
  (∀ x, excludes v x = false → excludes (clamp_fn [ew_id w] b v) x = false).
Proof.
  intros Hid He Hcr Hb Hend Hend' Hlt Hmax Hv.
  unfold new_version, block_range_value in *. rewrite Hmut, Hid, He, Hcr, Hb, Hend', Hend in *.
  destruct (entity_vid (ew_entity w)); try done. simpl in *. injection Hv as <-.
  rewrite (proj2 (Z.ltb_lt _ _) Hlt). simpl. unfold clamp_fn, latest. simpl.
  rewrite bool_decide_true by by apply list_elem_of_singleton. simpl.
  rewrite (proj2 (Z.leb_le _ _) Hmax), (proj2 (Z.ltb_lt _ _) Hlt). split; [done|].
  intros x. unfold excludes. simpl. case_bool_decide; simpl; [|done].
  destruct (v_block x) as [|[|l [u|]]]; simpl; try done.
  intros ->. by rewrite andb_false_r.
Qed.

(** Writing a row whose range is closed later is writing it and clamping it. *)
Lemma write_row_close prev b va vb :
  is_open prev = true → emod_block prev < b → emod_block prev ≤ BLOCK_NUMBER_MAX →
  Forall ranged va → row_fresh prev va → write_row table prev va = Ok vb →
  write_row table (close_row prev b) va = Ok (clamp_fn [emod_id prev] b <$> vb).
Proof.
  intros Hopen Hlt Hmax Hr Hf. unfold write_row. rewrite !bind_ok, close_row_clamp, close_row_id, close_row_block.
  intros (va1 & Hc & Hi). exists va1. split; [done|].
  assert (none_current (emod_id prev) va1) as Hn.
  { destruct prev as [k d bl [e|]|k d bl [e|]|]; simpl in *; simplify_eq/=; try done.
    apply clamp_versions_ok in Hc as [_ ->]. by apply clamp_none_current. }
  assert (∃ w, as_write prev = Some w ∧ ew_id w = emod_id prev ∧ ew_block w = emod_block prev ∧ ew_end w = None)
    as (w & Hw & Hwid & Hwb & Hwe).
  { destruct prev as [k d bl [e|]|k d bl [e|]|]; try done; by eexists. }
  assert (∃ w', as_write (close_row prev b) = Some w' ∧ ew_id w' = ew_id w ∧ ew_entity w' = ew_entity w ∧
    ew_causality_region w' = ew_causality_region w ∧ ew_block w' = ew_block w ∧ ew_end w' = Some b)
    as (w' & Hw' & Hi1 & He1 & Hc1 & Hb1 & Hend1).
  { destruct prev as [k d bl [e|]|k d bl [e|]|]; try done; injection Hw as <-; by eexists. }
  rewrite Hw in Hi. rewrite Hw'.
  apply insert_write_ok in Hi as (v & Hv & Hvid & Hex & ->); [|done].
  destruct (new_version_close w w' v b) as [Hv' Hex']; try done; [lia..|].
  apply insert_write_ok; [done|]. eexists. split; [done|]. rewrite fmap_app, clamp_fn_none by done.
  simpl. rewrite <-Hwid. split_and!; [| |done].
  - rewrite <-Hvid. clear. induction va1 as [|x va1 IH]; [done|]. simpl. rewrite IH. f_equal.
    unfold same_vid. by rewrite clamp_fn_vid.
  - destruct (as_constraint table); [|done]. simpl in *. clear -Hex Hex'.
    induction va1 as [|x va1 IH]; [done|]. simpl in *. apply orb_false_iff in Hex as [Hx Hex].
    by rewrite Hex', IH.
Qed.

(** Closing the last row for an id clamps its version in the table. *)
Lemma close_row_refines t pre prev post id b vs vs1 :
  Forall (row_wf t) (pre ++ prev :: post) → Forall ranged vs → rows_fresh (pre ++ prev :: post) vs →
  rows_seq table (pre ++ prev :: post) vs = Ok vs1 → emod_id prev = id →
  Forall (λ r, emod_id r ≠ id) post → emod_block prev < b → is_open prev = true →
  rows_seq table (pre ++ close_row prev b :: post) vs = Ok (clamp_fn [id] b <$> vs1) ∧
  rows_fresh (pre ++ close_row prev b :: post) vs.
Proof.
  intros Hrw Hr Hf1 Hs1 Hid Hpost Hlt Hopen.
  apply rows_seq_app in Hs1 as (va & Hpre & Hs1). simpl in Hs1.
  apply bind_ok in Hs1 as (vb & Hprev & Hs1).
  pose proof (proj1 (rows_fresh_app _ _ _ _ Hpre) Hf1) as [Hfpre [Hfprev Hfpost]].
  apply Forall_app in Hrw as [_ [Hprevwf _]%Forall_cons].
  assert (write_row table (close_row prev b) va = Ok (clamp_fn [id] b <$> vb)) as Hw.
  { rewrite <-Hid. apply write_row_close; try done; [apply Hprevwf|by eauto with rows]. }
  split.
  - apply rows_seq_app. exists va. split; [done|]. simpl. rewrite Hw. simpl. by apply rows_seq_other.
  - apply (rows_fresh_app _ _ _ _ Hpre). split; [done|]. split.
    + destruct prev as [? ? ? []|? ? ? []|]; simpl in *; auto; done.
    + intros vb'. rewrite Hw. intros [= <-]. eapply rows_fresh_other; [done..|]. by apply Hfpost.
Qed.

(** After a remove, no version of the entity is current. *)
Lemma removed_none_current t pre prev post id vs vs1 :
  Forall (row_wf t) (pre ++ prev :: post) → Forall ranged vs → rows_seq table (pre ++ prev :: post) vs = Ok vs1 →
  is_write prev = false → emod_id prev = id → Forall (λ r, emod_id r ≠ id) post → none_current id vs1.
Proof.
  intros Hrw Hr Hs1 Hcl Hid Hpost. apply rows_seq_app in Hs1 as (va & Hpre & Hs1). simpl in Hs1.
  apply bind_ok in Hs1 as (vb & Hprev & Hs1). apply Forall_app in Hrw as [_ [Hprevwf _]%Forall_cons].
  eapply rows_seq_none_current; [done..|]. destruct prev as [| |k b]; try done.
  unfold write_row in Hprev. simpl in Hprev. apply bind_ok in Hprev as (vb' & Hc & [= <-]).
  apply clamp_versions_ok in Hc as [_ ->]. simpl in Hid. rewrite Hid.
  apply clamp_none_current; [apply Hprevwf|]. by eauto with rows.
Qed.

(** Folding a row into a group: writing the result is writing the group and
    then the row. *)
Lemma append_row_refines g row g' vs vs1 vs2 :
  is_immutable (group_type g) = false → group_wf g → row_wf (group_type g) row →
  Forall ranged vs → rows_fresh (rows g ++ [row]) vs →
  append_row row g = (g', Ok tt) →
  rows_seq table (rows g) vs = Ok vs1 → write_row table row vs1 = Ok vs2 →
  rows_seq table (rows g') vs = Ok vs2 ∧ rows_fresh (rows g') vs.
Proof.
  intros Him (Hlm & Hcf & Hrw & _) Hrow Hr Hfresh Happ Hs1 Hs2.
  pose proof (proj1 (rows_fresh_app _ _ _ _ Hs1) Hfresh) as [Hf1 [Hf2 _]].
  assert (rows_seq table (rows g ++ [row]) vs = Ok vs2) as Hpush.
  { apply rows_seq_app. exists vs1. split; [done|]. simpl. by rewrite Hs2. }
  destruct (append_row_cases _ _ _ Him Hlm Happ) as
    [Hnew|pre prev post Hrows Hid Hpost Hlt Hcl Hcr|pre prev post Hrows Hid Hpost Hlt Hcl Hcr
    |pre prev post key data b e Hrows Hid Hpost Hlt Hopen ->|pre prev post key b Hrows Hid Hpost Hlt Hopen ->].
  - done.
  - done.
  - rewrite Hs1. split; [|done]. f_equal. rewrite Hrows in Hs1, Hrw.
    pose proof (removed_none_current _ _ _ _ _ _ _ Hrw Hr Hs1 Hcl Hid Hpost) as Hn.
    destruct row as [| |k b]; try done. unfold write_row in Hs2. simpl in Hs2.
    apply bind_ok in Hs2 as (vs2' & Hc & [= <-]). apply clamp_versions_ok in Hc as [_ ->].
    by rewrite clamp_fn_none.
  - rewrite Hrows in Hs1, Hf1, Hrw.
    destruct (close_row_refines _ pre prev post _ b vs vs1 Hrw Hr Hf1 Hs1 Hid Hpost Hlt Hopen) as [Hseq Hfr].
    unfold push_row. cbn [rows]. rewrite (rows_set_row _ _ _ _ _ Hrows).
    unfold write_row in Hs2. apply bind_ok in Hs2 as (vs1' & Hc & Hi).
    apply clamp_versions_ok in Hc as [_ ->]. split.
    + apply rows_seq_app. eexists. split; [done|]. simpl. apply bind_ok. by exists vs2.
    + apply (rows_fresh_app _ _ _ _ Hseq). split; [done|]. split; [|done].
      assert (none_current (entity_id key) (clamp_fn [entity_id key] b <$> vs1)); [|destruct e; simpl; auto].
      apply clamp_none_current; [apply Hrow|]. by eauto with rows.
  - rewrite Hrows in Hs1, Hf1, Hrw.
    destruct (close_row_refines _ pre prev post _ b vs vs1 Hrw Hr Hf1 Hs1 Hid Hpost Hlt Hopen) as [Hseq Hfr].
    rewrite (rows_set_row _ _ _ _ _ Hrows). unfold write_row in Hs2. simpl in Hs2.
    apply bind_ok in Hs2 as (vs1' & Hc & [= <-]). apply clamp_versions_ok in Hc as [_ ->]. done.
Qed.

Lemma group_append_rows rws g g' vs vs1 vs2 :
  is_immutable (group_type g) = false → group_wf g → Forall (row_wf (group_type g)) rws →
  Forall ranged vs → rows_fresh (rows g ++ rws) vs →
  st_for append_row rws g = (g', Ok tt) →
  rows_seq table (rows g) vs = Ok vs1 → rows_seq table rws vs1 = Ok vs2 →
  rows_seq table (rows g') vs = Ok vs2 ∧ rows_fresh (rows g') vs.
Proof.
  revert g vs1. induction rws as [|row rws IH]; intros g vs1 Him Hg Hrws Hr Hfresh Happ Hs1 Hs2.
  { apply st_for_nil_ok in Happ as ->. simpl in *. simplify_eq. by rewrite app_nil_r in Hfresh. }
  apply Forall_cons in Hrws as [Hrow Hrws]. apply st_for_cons_ok in Happ as (ga & Hrowa & Happ).
  simpl in Hs2. apply bind_ok in Hs2 as (vsa & Hw & Hs2).
  destruct (append_row_group_wf g row ga Hg Hrow) as [Hga Hty]; [congruence|done|].
  assert (rows_fresh (rows g ++ [row]) vs ∧ rows_fresh rws vsa) as [Hfr Hfrs].
  { change (row :: rws) with ([row] ++ rws) in Hfresh. rewrite app_assoc in Hfresh.
    apply (rows_fresh_app _ _ _ vsa) in Hfresh; [done|]. apply rows_seq_app. exists vs1.
    split; [done|]. simpl. by rewrite Hw. }
  destruct (append_row_refines g row ga vs vs1 vsa) as [Hsa Hfa]; try done.
  apply (IH ga vsa); try done; rewrite ?Hty; try done. by apply (rows_fresh_app _ _ _ _ Hsa).
Qed.

End Refine.

#[export] Hint Resolve rows_seq_ranged : rows.

(** ** Appending, for immutable types *)

Section RefineImmutable.
  Context `{EnvVars} `{InputSchema} `{BuildConfig} (table : Table).
  Hypothesis Himm : immutable table = true.

Definition present (id : Id) (vs : list Version) : Prop := id ∈ v_id <$> vs.

Lemma insert_write_imm w vs vs' :
  insert_write table w vs = Ok vs' →
  present (ew_id w) vs' ∧ (∀ id, present id vs → present id vs') ∧
  (present (ew_id w) vs → vs' = vs).
Proof.
  unfold insert_write, insert_version. destruct (entity_vid (ew_entity w)) as [vid|[]|]; [|done]. simpl.
  destruct (block_range_value table (ew_block w) (ew_end w)) as [bl| |]; simpl; try done.
  rewrite Himm. simpl. unfold present. setoid_rewrite list_elem_of_fmap.
  destruct (existsb _ vs) eqn:Ep.
  - destruct (table_skip_duplicates table); [|done]. intros [= <-].
    apply existsb_exists in Ep as (v & Hv & Hid). apply bool_decide_eq_true in Hid.
    apply list_elem_of_In in Hv. split_and!; try done. by exists v.
  - destruct (existsb (same_vid _) vs); [done|]. intros [= <-]. split_and!.
    + eexists. split; [|apply elem_of_app; right; by left]. done.
    + intros id (v & -> & Hv). exists v. split; [done|]. apply elem_of_app. by left.
    + intros (v & Hid & Hv). exfalso. rewrite <-not_true_iff_false in Ep. apply Ep.
      apply existsb_exists. exists v. rewrite <-list_elem_of_In, bool_decide_eq_true. done.
Qed.

(** The rows of an immutable group *)
Definition plain_insert (row : EntityModification) : Prop :=
  is_open row = true ∧ creates_entity row = true.

Lemma write_row_imm row vs vs' :
  plain_insert row → write_row table row vs = Ok vs' →
  present (emod_id row) vs' ∧ (∀ id, present id vs → present id vs') ∧
  (present (emod_id row) vs → vs' = vs).
Proof.
  intros [Ho Hc] Hw. destruct row as [k d b [e|]| |]; try done.
  unfold write_row in Hw. simpl in Hw. by apply insert_write_imm in Hw.
Qed.

Lemma rows_seq_present rws vs vs' :
  Forall plain_insert rws → rows_seq table rws vs = Ok vs' →
  (∀ id, present id vs → present id vs') ∧ ∀ r, r ∈ rws → present (emod_id r) vs'.
Proof.
  intros Hall. revert vs. induction Hall as [|r rws Hr _ IH]; intros vs; simpl.
  { intros [= <-]. split; [done|]. intros r Hr. by apply not_elem_of_nil in Hr. }
  rewrite bind_ok. intros (vs1 & Hw & Hs). apply IH in Hs as [Hmono Hin].
  apply write_row_imm in Hw as (Hp & Hm & _); [|done]. split; [by auto|].
  intros r' [->|Hr']%elem_of_cons; auto.
Qed.

Lemma append_row_imm_refines g row g' vs vs1 vs2 :
  is_immutable (group_type g) = true → group_wf g → plain_insert row →
  append_row row g = (g', Ok tt) →
  rows_seq table (rows g) vs = Ok vs1 → write_row table row vs1 = Ok vs2 →
  rows_seq table (rows g') vs = Ok vs2.
Proof.
  intros Hty (Hlm & _ & _ & Hall) [Hopen Hcr]. specialize (Hall Hty).
  unfold append_row. rewrite Hty. unfold append_row_immutable.
  intros Happ Hs1 Hs2.
  assert (rows_seq table (rows g ++ [row]) vs = Ok vs2) as Hpush.
  { apply rows_seq_app. exists vs1. split; [done|]. simpl. by rewrite Hs2. }
  destruct row as [k d b [e|]|k d b [e|]|k b]; try done.
  destruct (idx ← last_mod_get (last_mod g) _; rows g !! idx) as [prev|] eqn:Ep; [|by simplify_eq].
    case_decide as Hb; [|by simplify_eq].
    destruct (skip_duplicates (group_type g)); simplify_eq. rewrite Hs1. f_equal.
    assert (present (emod_id (Insert k d b None)) vs1) as Hp.
    { apply bind_Some in Ep as (idx & Hidx & Hrow). unfold last_mod_get in Hidx.
      destruct write_batch_memoize eqn:Em; [|done]. rewrite (Hlm Em) in Hidx.
      pose proof (rfind_index_spec (has_id (emod_id (Insert k d b None))) (rows g')) as Hspec.
      rewrite Hidx in Hspec. destruct Hspec as (pre & x & post & Hl & _ & Hx & _).
      apply bool_decide_eq_true in Hx. rewrite <-Hx.
      eapply rows_seq_present; [exact Hall|exact Hs1|]. rewrite Hl. apply elem_of_app. right. by left. }
    destruct (write_row_imm (Insert k d b None) vs1 vs2) as (_ & _ & Heq); [done|done|].
    symmetry. by apply Heq.
Qed.

Lemma group_append_imm_rows rws g g' vs vs1 vs2 :
  is_immutable (group_type g) = true → group_wf g → Forall (row_wf (group_type g)) rws →
  Forall plain_insert rws → st_for append_row rws g = (g', Ok tt) →
  rows_seq table (rows g) vs = Ok vs1 → rows_seq table rws vs1 = Ok vs2 →
  rows_seq table (rows g') vs = Ok vs2.
Proof.
  revert g vs1. induction rws as [|row rws IH]; intros g vs1 Hty Hg Hrws Hins Happ Hs1 Hs2.
  { apply st_for_nil_ok in Happ as ->. simpl in *. by simplify_eq. }
  apply Forall_cons in Hrws as [Hrow Hrws]. apply Forall_cons in Hins as [Hin Hins].
  apply st_for_cons_ok in Happ as (ga & Hrowa & Happ).
  simpl in Hs2. apply bind_ok in Hs2 as (vsa & Hw & Hs2).
  destruct (append_row_group_wf g row ga Hg Hrow) as [Hga Hta]; [by intros; apply Hin|done|].
  apply (IH ga vsa); try done; rewrite ?Hta; try done. by eapply append_row_imm_refines.
Qed.

End RefineImmutable.
