(* ===== verification/BatchFacts.v ===== *)
(** * Writing batches

    [apply_entity_modifications] writes the groups of a batch into the tables
    of a deployment.  This file lifts the row-level results to groups, to the
    row groups of a batch and to [Batch::append], whose contract is the main
    theorem [batch_append_refines]: writing the appended batch has the same
    effect as writing the two batches one after the other. *)

From Stdlib Require Import ZArith Lia.
From stdpp Require Import base gmap list strings sorting.
From S2P Require Import Prelude Values Intern InternFacts Entity EntityFacts.
From S2P Require Import Write WriteFacts Relational RelationalFacts AppendFacts.

Local Open Scope Z_scope.

(** ** The groups of a batch as a map *)

Definition group_types (gs : list RowGroup) : list EntityType := group_type <$> gs.

Lemma groups_group_Some gs t g :
  NoDup (group_types (groups gs)) →
  groups_group gs t = Some g ↔ g ∈ groups gs ∧ group_type g = t.
Proof.
  unfold groups_group. intros Hnd. rewrite fmap_Some. split.
  - intros ([i g'] & Hf & ->). apply list_find_Some in Hf as (Hi & Ht & _). simpl. split; [|done].
    by eapply list_elem_of_lookup_2.
  - intros [Hg Ht]. destruct (list_find (λ g, group_type g = t) (groups gs)) as [[i g']|] eqn:E.
    + exists (i, g'). split; [done|]. simpl. apply list_find_Some in E as (Hi & Ht' & _).
      apply list_elem_of_lookup in Hg as [j Hj].
      assert (i = j) as ->; [|congruence]. eapply (NoDup_lookup (group_types (groups gs))); [done| |].
      * unfold group_types. by rewrite list_lookup_fmap, Hi.
      * unfold group_types. rewrite list_lookup_fmap, Hj. simpl. by rewrite Ht, Ht'.
    + apply list_find_None in E. rewrite Forall_forall in E. by destruct (E g).
Qed.

Lemma groups_group_None gs t : groups_group gs t = None ↔ t ∉ group_types (groups gs).
Proof.
  unfold groups_group, group_types. rewrite fmap_None, list_find_None, Forall_forall, list_elem_of_fmap.
  split; [intros Hall (g & -> & Hg); by eapply Hall|]. intros Hn g Hg Ht. apply Hn. by exists g.
Qed.

(** A method on the entry for [t] changes the group of [t] only. *)
Lemma with_group_entry_spec {E A} t (f : st RowGroup E A) gs gs' a :
  NoDup (group_types (groups gs)) →
  (∀ g g', f g = (g', Ok a) → group_type g' = group_type g) →
  with_group_entry t f gs = (gs', Ok a) →
  ∃ g', f (default (group_new t) (groups_group gs t)) = (g', Ok a) ∧
    NoDup (group_types (groups gs')) ∧
    ∀ t', groups_group gs' t' = if decide (t' = t) then Some g' else groups_group gs t'.
Proof.
  intros Hnd Hf. unfold with_group_entry.
  destruct (list_find (λ g, group_type g = t) (groups gs)) as [[pos g]|] eqn:Efind.
  - assert (groups_group gs t = Some g) as Hg by (unfold groups_group; by rewrite Efind).
    rewrite Hg. simpl. destruct (f g) as [g' res] eqn:Eres. intros [= <- ->].
    apply list_find_Some in Efind as (Hpos & Hgt & _). pose proof (Hf _ _ Eres) as Hty.
    assert (group_types (<[pos:=g']> (groups gs)) = group_types (groups gs)) as Htypes.
    { unfold group_types. rewrite list_fmap_insert. apply list_insert_id. rewrite list_lookup_fmap, Hpos.
      simpl. by rewrite Hty. }
    exists g'. split; [done|]. simpl. rewrite Htypes. split; [done|].
    intros t'. apply option_eq. intros x. rewrite groups_group_Some by (simpl; by rewrite Htypes). simpl.
    assert (pos < length (groups gs))%nat as Hlen by by eapply lookup_lt_Some.
    case_decide as Hd.
    + subst t'. split; [|intros [= <-]; split; [|congruence]; apply list_elem_of_lookup;
        exists pos; by rewrite list_lookup_insert_eq].
      intros [Hin Hxt]. apply list_elem_of_lookup in Hin as [i Hi].
      assert (i = pos) as ->; [|rewrite list_lookup_insert_eq in Hi by done; congruence].
      eapply (NoDup_lookup (group_types (<[pos:=g']> (groups gs)))); [by rewrite Htypes| |];
        unfold group_types; rewrite list_lookup_fmap.
      * by rewrite Hi.
      * rewrite list_lookup_insert_eq by done. simpl. congruence.
    + rewrite groups_group_Some by done. split; intros [Hin Hxt]; (split; [|done]);
        apply list_elem_of_lookup in Hin as [i Hi]; apply list_elem_of_lookup; exists i.
      * rewrite list_lookup_insert_ne in Hi; [done|]. intros ->.
        rewrite list_lookup_insert_eq in Hi by done. congruence.
      * rewrite list_lookup_insert_ne; [done|]. intros ->. congruence.
  - assert (groups_group gs t = None) as Hg by (unfold groups_group; by rewrite Efind).
    rewrite Hg. simpl. destruct (f (group_new t)) as [g' res] eqn:Eres. intros [= <- ->].
    pose proof (Hf _ _ Eres) as Hty. simpl in Hty. exists g'. split; [done|].
    assert (NoDup (group_types (groups gs ++ [g']))) as Hnd'.
    { unfold group_types. rewrite fmap_app. apply NoDup_app. split; [done|]. split; [|apply NoDup_singleton].
      intros x Hx Hx'. simpl in Hx'. apply list_elem_of_singleton in Hx' as ->.
      apply groups_group_None in Hg. rewrite Hty in Hx. done. }
    split; [done|]. intros t'. apply option_eq. intros x. rewrite groups_group_Some by done. simpl.
    rewrite elem_of_app, list_elem_of_singleton. case_decide as Hd.
    + subst t'. split; [|intros [= <-]; by auto]. intros [[Hin| ->] Hxt]; [|done].
      exfalso. apply groups_group_None in Hg. apply Hg. rewrite <-Hxt. by apply list_elem_of_fmap_2.
    + rewrite groups_group_Some by done. split; [|tauto]. intros [[Hin| ->] Hxt]; [done|congruence].
Qed.

Section Batches.
  Context `{EnvVars} `{InputSchema} `{BuildConfig}.
  Context (value_too_large : list EntityWrite → bool) (layout : gmap EntityType Table).

(** The layout was generated from the schema, and a row fits into a statement. *)
Definition table_ok (t : EntityType) (table : Table) : Prop :=
  object table = t ∧ immutable table = is_immutable t ∧
  table_skip_duplicates table = skip_duplicates t ∧
  Z.of_nat (row_params table) ≤ POSTGRES_MAX_PARAMETERS.

Definition layout_ok : Prop := ∀ t table, layout !! t = Some table → table_ok t table.

(** Tables of mutable types hold block ranges. *)
Definition db_ok (db : gmap EntityType (list Version)) : Prop :=
  ∀ t, is_immutable t = false → Forall ranged (db_versions db t).

Hypothesis Hlarge : ∀ ws, value_too_large ws = false.
Hypothesis Hlayout : layout_ok.

Lemma chunk_size_pos t table : layout !! t = Some table → (0 < insert_chunk_size table)%nat.
Proof.
  intros Ht. destruct (Hlayout _ _ Ht) as (_ & _ & _ & Hp). unfold insert_chunk_size.
  assert (0 < Z.of_nat (row_params table)) as Hpos by (unfold row_params; lia).
  assert (1 ≤ POSTGRES_MAX_PARAMETERS / Z.of_nat (row_params table)); [|lia].
  apply Z.div_le_lower_bound; lia.
Qed.

Lemma rows_entities_wf g :
  group_wf g → Forall (λ w, obj_wf (ew_entity w)) (omap as_write (rows g)).
Proof.
  intros (_ & _ & Hrows & _). apply Forall_forall. intros w (r & Hr & Hw)%list_elem_of_omap.
  rewrite Forall_forall in Hrows. destruct (Hrows r Hr) as (_ & _ & _ & Hd).
  destruct r; simplify_eq/=; by destruct Hd.
Qed.

Lemma layout_insert_ok g db db' table :
  layout !! group_type g = Some table → group_wf g →
  layout_insert value_too_large layout g db = Ok db' ↔
  Forall (write_ok table) (omap as_write (rows g)) ∧
  ∃ vs', writes_seq table (omap as_write (rows g)) (db_versions db (group_type g)) = Ok vs' ∧
         db' = <[group_type g := vs']> db.
Proof.
  intros Ht Hg. unfold layout_insert, table_for_entity, set_versions. rewrite Ht. simpl.
  pose proof (write_chunks_concat g _ (chunk_size_pos _ _ Ht)) as Hc.
  rewrite bind_ok. setoid_rewrite insert_chunks_ok; [|done|by rewrite Hc; apply rows_entities_wf].
  rewrite Hc. naive_solver.
Qed.

Lemma has_clamps_false g :
  has_clamps g = false → filter (λ r, is_clamp r = true) (rows g) = [].
Proof.
  unfold has_clamps. induction (rows g) as [|r rws IH]; simpl; [done|]. intros [Hr Hrws]%orb_false_iff.
  rewrite filter_cons_False by congruence. by apply IH.
Qed.

Lemma layout_delete_ok g db db' table :
  layout !! group_type g = Some table → immutable table = false → group_wf g →
  Forall ranged (db_versions db (group_type g)) →
  layout_delete layout g db = Ok db' ↔
  ∃ vs', clamps_seq (rows g) (db_versions db (group_type g)) = Ok vs' ∧
         db' = if has_clamps g then <[group_type g := vs']> db else db.
Proof.
  intros Ht Hmut (_ & _ & Hrows & _) Hr. unfold layout_delete, table_for_entity, set_versions. rewrite Ht.
  destruct (has_clamps g) eqn:Ec; simpl.
  - rewrite Hmut, bind_ok. setoid_rewrite delete_clamps_ok; [|done..|].
    + rewrite clamps_by_block_concat. setoid_rewrite clamps_seq_filter. naive_solver.
    + pose proof (clamps_by_block_runs g) as Hruns. pose proof (clamps_by_block_concat g) as Hconc.
      rewrite Forall_forall in Hruns. rewrite Forall_forall in Hrows.
      apply Forall_forall. intros [b rws] Hin.
      destruct (Hruns _ Hin) as [Hne Hall]. simpl in *.
      assert (∀ r, r ∈ rws → r ∈ rows g) as Hsub.
      { intros r Hr'. assert (r ∈ filter (λ r, is_clamp r = true) (rows g)) as Hf.
        { rewrite <-Hconc. apply list_elem_of_In, in_concat. exists rws.
          rewrite <-!list_elem_of_In. split; [|done]. apply list_elem_of_fmap. by exists (b, rws). }
        by apply list_elem_of_filter in Hf as []. }
      split_and!; [|apply Forall_forall; intros r Hr'; by apply Hrows, Hsub|done].
      destruct rws as [|r rws]; [done|]. apply Forall_cons in Hall as [[<- _] _].
      apply Hrows, Hsub. by left.
  - rewrite <-clamps_seq_filter, has_clamps_false by done. simpl. naive_solver.
Qed.

(** ** One group *)

Definition write_group (g : RowGroup) (db : gmap EntityType (list Version)) :=
  db1 ← layout_delete layout g db;
  layout_insert value_too_large layout g db1.

Lemma imm_writes_rows table rws vs :
  Forall plain_insert rws → writes_seq table (omap as_write rws) vs = rows_seq table rws vs.
Proof.
  intros Hall. revert vs. induction Hall as [|r rws [Ho Hc] _ IH]; intros vs; [done|].
  destruct r as [k d b [e|]| |]; try done. simpl. unfold write_row. simpl.
  destruct (insert_write table _ vs); simpl; [apply IH|done..].
Qed.

(** Writing a group changes its table as processing its rows one by one does. *)
Lemma write_group_rows g db db' table :
  layout !! group_type g = Some table → group_wf g → db_ok db →
  write_group g db = Ok db' ↔
  Forall (write_ok table) (omap as_write (rows g)) ∧
  ∃ vs', rows_seq table (rows g) (db_versions db (group_type g)) = Ok vs' ∧
         db' = <[group_type g := vs']> db.
Proof.
  intros Ht Hg Hdb. destruct (Hlayout _ _ Ht) as (_ & Himm & _). unfold write_group. rewrite bind_ok.
  setoid_rewrite layout_insert_ok; [|done..].
  destruct (immutable table) eqn:Em.
  - pose proof Hg as (_ & _ & _ & Hins). specialize (Hins (eq_sym Himm)).
    rewrite <-(imm_writes_rows table) by done.
    assert (has_clamps g = false) as Hc.
    { unfold has_clamps. induction Hins as [|r rws [Ho Hc] _ IH]; [done|]. simpl. rewrite IH.
      by destruct r. }
    unfold layout_delete. rewrite Hc. simpl. naive_solver.
  - pose proof (Hdb _ (eq_sym Himm)) as Hr. setoid_rewrite layout_delete_ok; [|done..].
    setoid_rewrite <-(clamps_writes_rows table); [|done|apply Hg].
    assert (∀ vs1, db_versions (if has_clamps g then <[group_type g:=vs1]> db else db) (group_type g) =
      if has_clamps g then vs1 else db_versions db (group_type g)) as Hv.
    { intros vs1. destruct (has_clamps g); [|done]. unfold db_versions. by rewrite lookup_insert_eq. }
    assert (∀ vs1, clamps_seq (rows g) (db_versions db (group_type g)) = Ok vs1 →
      (if has_clamps g then vs1 else db_versions db (group_type g)) = vs1) as Hsame.
    { intros vs1 Hs. destruct (has_clamps g) eqn:E; [done|].
      rewrite <-clamps_seq_filter, has_clamps_false in Hs by done. by injection Hs. }
    assert (∀ vs1 vs2 : list Version, <[group_type g:=vs2]>
      (if has_clamps g then <[group_type g:=vs1]> db else db) = <[group_type g:=vs2]> db) as Hins.
    { intros. destruct (has_clamps g); [apply insert_insert_eq|done]. }
    split.
    + intros (db1 & (vs1 & Hc & ->) & Hok & vs2 & Hw & ->). rewrite Hv, (Hsame _ Hc) in Hw.
      rewrite Hins. eauto 8.
    + intros (Hok & vs2 & (vs1 & Hc & Hw) & ->). eexists. split; [by eauto|]. split; [done|].
      exists vs2. by rewrite Hv, (Hsame _ Hc), Hins.
Qed.

(** ** All groups of a batch *)

(** No two types of the schema share an interface. *)
Hypothesis Hintf : ∀ t, share_interfaces t = [].

(** The groups of a batch: one per type, each well-formed and with a table. *)
Definition groups_wf (gs : list RowGroup) : Prop :=
  NoDup (group_types gs) ∧ Forall group_wf gs.

(** What writing the group [g] does to its table *)
Definition group_written (g : RowGroup) (db db' : gmap EntityType (list Version)) : Prop :=
  ∃ table vs', layout !! group_type g = Some table ∧
    Forall (write_ok table) (omap as_write (rows g)) ∧
    rows_seq table (rows g) (db_versions db (group_type g)) = Ok vs' ∧
    db' !! group_type g = Some vs'.

Lemma write_group_written g db db' :
  group_wf g → db_ok db → write_group g db = Ok db' →
  group_written g db db' ∧ ∀ t, t ≠ group_type g → db' !! t = db !! t.
Proof.
  intros Hg Hdb Hw. destruct (layout !! group_type g) as [table|] eqn:Ht.
  - destruct (proj1 (write_group_rows _ _ _ _ Ht Hg Hdb) Hw) as (Hok & vs' & Hs & ->). split.
    + exists table, vs'. split_and!; try done. apply lookup_insert_eq.
    + intros t Hne. by apply lookup_insert_ne.
  - unfold write_group, layout_insert, table_for_entity in Hw. rewrite Ht in Hw.
    apply bind_ok in Hw as (db1 & _ & Hw). done.
Qed.

Lemma apply_cons g gs db c db' c' :
  apply_entity_modifications value_too_large layout (g :: gs) db c = Ok (db', c') ↔
  ∃ db1, write_group g db = Ok db1 ∧
    apply_entity_modifications value_too_large layout gs db1 (c + group_entity_count_change g) =
      Ok (db', c').
Proof.
  cbn [apply_entity_modifications]. unfold write_group, check_intf_uniqueness. rewrite Hintf.
  destruct (layout_delete layout g db) as [db1| |]; cbn [mbind outcome_bind]; [|naive_solver..].
  destruct (layout_insert value_too_large layout g db1) as [db2| |]; cbn [mbind outcome_bind]; naive_solver.
Qed.

Lemma rows_seq_ranged_imm table g db vs' :
  layout !! group_type g = Some table → db_ok db →
  rows_seq table (rows g) (db_versions db (group_type g)) = Ok vs' →
  is_immutable (group_type g) = false → Forall ranged vs'.
Proof.
  intros Ht Hdb Hs Him. destruct (Hlayout _ _ Ht) as (_ & Hi & _).
  eapply rows_seq_ranged; [|by apply Hdb|done]. congruence.
Qed.

Lemma group_written_db_ok g db db' :
  db_ok db → group_written g db db' → (∀ t, t ≠ group_type g → db' !! t = db !! t) → db_ok db'.
Proof.
  intros Hdb (table & vs' & Ht & _ & Hs & Hl) Ho t Him.
  destruct (decide (t = group_type g)) as [->|Hne].
  - unfold db_versions. rewrite Hl. simpl. by eapply rows_seq_ranged_imm.
  - unfold db_versions. rewrite Ho by done. by apply Hdb.
Qed.

(** Writing the groups is writing each one into its own table. *)
Lemma apply_written gs db c db' c' :
  groups_wf gs → db_ok db →
  apply_entity_modifications value_too_large layout gs db c = Ok (db', c') →
  Forall (λ g, group_written g db db') gs ∧ (∀ t, t ∉ group_types gs → db' !! t = db !! t) ∧
  db_ok db' ∧ c' = c + foldr Z.add 0 (group_entity_count_change <$> gs).
Proof.
  revert db c. induction gs as [|g gs IH]; intros db c [Hnd Hwf] Hdb.
  { simpl. intros [= <- <-]. split_and!; [constructor|done|done|lia]. }
  rewrite apply_cons. intros (db1 & Hw & Ha).
  apply Forall_cons in Hwf as [Hg Hwf]. apply NoDup_cons in Hnd as [Hgt Hnd].
  destruct (write_group_written g db db1 Hg Hdb Hw) as [Hgw Ho].
  pose proof (group_written_db_ok _ _ _ Hdb Hgw Ho) as Hdb1.
  destruct (IH db1 _ (conj Hnd Hwf) Hdb1 Ha) as (Hall & Ho' & Hdb' & ->). split_and!.
  - constructor.
    + destruct Hgw as (table & vs' & Ht & Hok & Hs & Hl). exists table, vs'. split_and!; try done.
      by rewrite Ho'.
    + apply Forall_forall. intros g' Hg'. rewrite Forall_forall in Hall.
      destruct (Hall g' Hg') as (table & vs' & Ht & Hok & Hs & Hl). exists table, vs'.
      split_and!; try done. rewrite <-Hs. unfold db_versions. rewrite Ho; [done|].
      intros Heq. apply Hgt. rewrite <-Heq. by apply list_elem_of_fmap_2.
  - intros t [Hne Hnt]%not_elem_of_cons. rewrite Ho' by done. by apply Ho.
  - done.
  - rewrite fmap_cons. cbn [foldr]. lia.
Qed.

Lemma apply_written_intro gs db db' c :
  groups_wf gs → db_ok db →
  Forall (λ g, group_written g db db') gs → (∀ t, t ∉ group_types gs → db' !! t = db !! t) →
  apply_entity_modifications value_too_large layout gs db c =
    Ok (db', c + foldr Z.add 0 (group_entity_count_change <$> gs)).
Proof.
  revert db c. induction gs as [|g gs IH]; intros db c [Hnd Hwf] Hdb Hall Ho.
  { simpl. rewrite Z.add_0_r. do 2 f_equal. apply map_eq. intros t. symmetry. apply Ho.
    apply not_elem_of_nil. }
  apply apply_cons. apply Forall_cons in Hwf as [Hg Hwf]. apply NoDup_cons in Hnd as [Hgt Hnd].
  apply Forall_cons in Hall as [(table & vs' & Ht & Hok & Hs & Hl) Hall].
  exists (<[group_type g := vs']> db). split.
  { apply (write_group_rows _ _ _ _ Ht Hg Hdb). eauto. }
  replace (c + foldr Z.add 0 (group_entity_count_change <$> g :: gs)) with
    (c + group_entity_count_change g + foldr Z.add 0 (group_entity_count_change <$> gs)) by (rewrite fmap_cons; cbn [foldr]; lia).
  apply IH; [done| | |].
  - apply (group_written_db_ok g db); [done| |by intros; apply lookup_insert_ne].
    exists table, vs'. split_and!; try done. apply lookup_insert_eq.
  - apply Forall_forall. intros g' Hg'. rewrite Forall_forall in Hall.
    destruct (Hall g' Hg') as (table' & vs2 & Ht' & Hok' & Hs' & Hl'). exists table', vs2.
    split_and!; try done. rewrite <-Hs'. unfold db_versions. rewrite lookup_insert_ne; [done|].
    intros Heq. apply Hgt. rewrite Heq. by apply list_elem_of_fmap_2.
  - intros t Hnt. destruct (decide (t = group_type g)) as [->|Hne].
    + by rewrite lookup_insert_eq.
    + rewrite lookup_insert_ne by done. apply Ho. by apply not_elem_of_cons.
Qed.

(** ** Appending batches *)

Lemma append_rows_wf rws g g' :
  group_wf g → Forall (row_wf (group_type g)) rws →
  (is_immutable (group_type g) = true → Forall plain_insert rws) →
  st_for append_row rws g = (g', Ok tt) → group_wf g' ∧ group_type g' = group_type g.
Proof.
  revert g. induction rws as [|row rws IH]; intros g Hg Hrws Hi Happ.
  { apply st_for_nil_ok in Happ as ->. done. }
  apply Forall_cons in Hrws as [Hrow Hrws]. apply st_for_cons_ok in Happ as (ga & Hrowa & Happ).
  destruct (append_row_group_wf g row ga Hg Hrow) as [Hga Hta]; [|done|].
  { intros Him. specialize (Hi Him). by apply Forall_cons in Hi as [[? _] _]. }
  destruct (IH ga Hga) as [Hg' Ht']; [by rewrite Hta| |done|split; [done|congruence]].
  rewrite Hta. intros Him. specialize (Hi Him). by apply Forall_cons in Hi as [_ ?].
Qed.

Lemma group_append_wf g1 g2 g' :
  group_wf g1 → group_wf g2 → group_append g2 g1 = (g', Ok tt) →
  group_wf g' ∧ group_type g' = group_type g1 ∧ group_type g1 = group_type g2.
Proof.
  intros Hg1 (Hlm & Hcf & Hrows & Hins). unfold group_append. case_decide as Hty; [done|].
  intros Happ.
  destruct (append_rows_wf (rows g2) g1 g') as [? ?]; rewrite ?Hty; try done. split_and!; congruence || done.
Qed.

Lemma group_append_type g1 g2 g' :
  group_append g2 g1 = (g', Ok tt) → group_type g' = group_type g1.
Proof.
  unfold group_append. case_decide as Hty; [done|]. clear Hty. generalize (rows g2). intros rws.
  revert g1. induction rws as [|row rws IH]; intros g1 Happ.
  { by apply st_for_nil_ok in Happ as ->. }
  apply st_for_cons_ok in Happ as (ga & Hrow & Happ). rewrite (IH ga) by done.
  clear Happ IH. revert Hrow. unfold append_row, append_row_immutable, combine_rows.
  repeat case_match; intros; by simplify_eq.
Qed.

(** What [RowGroups::append] leaves in each group *)
Definition appended (B1 B2 B : RowGroups) : Prop :=
  ∀ t, match groups_group B2 t with
       | Some g2 =>
           ∃ g', group_append g2 (default (group_new t) (groups_group B1 t)) = (g', Ok tt) ∧
                 groups_group B t = Some g'
       | None => groups_group B t = groups_group B1 t
       end.

Lemma groups_append_spec B1 B2 B :
  NoDup (group_types (groups B1)) → NoDup (group_types (groups B2)) →
  groups_append B2 B1 = (B, Ok tt) → NoDup (group_types (groups B)) ∧ appended B1 B2 B.
Proof.
  unfold groups_append, appended, groups_group at 1. destruct B2 as [gs2]. simpl.
  revert B1. induction gs2 as [|g2 gs2 IH]; intros B1 Hnd1 Hnd2 Happ.
  { apply st_for_nil_ok in Happ as ->. done. }
  apply st_for_cons_ok in Happ as (Ba & Hg & Happ). apply NoDup_cons in Hnd2 as [Hnin Hnd2].
  apply with_group_entry_spec in Hg as (g' & Hg' & Hnda & Hba);
    [|done|intros; by eapply group_append_type].
  destruct (IH Ba Hnda Hnd2 Happ) as [Hnd Hall]. split; [done|]. intros t. specialize (Hall t).
  rewrite Hba in Hall. simpl. destruct (decide (group_type g2 = t)) as [Ht|Ht]; simpl.
  - subst t. rewrite decide_True in Hall by done.
    assert (list_find (λ g, group_type g = group_type g2) gs2 = None) as Hnone.
    { apply list_find_None, Forall_forall. intros g Hg Heq. apply Hnin. rewrite <-Heq.
      by apply list_elem_of_fmap_2. }
    rewrite Hnone in Hall. simpl in Hall. by exists g'.
  - rewrite decide_False in Hall by congruence.
    destruct (list_find (λ g, group_type g = t) gs2) as [[i g]|]; simpl in *; done.
Qed.

(** The entities of the rows can be inserted. *)
Definition row_ok (table : Table) (r : EntityModification) : Prop :=
  ∀ w, as_write r = Some w → write_ok table w.

Lemma rows_ok_writes table rws :
  Forall (row_ok table) rws ↔ Forall (write_ok table) (omap as_write rws).
Proof.
  rewrite !Forall_forall. setoid_rewrite list_elem_of_omap. unfold row_ok. naive_solver.
Qed.

Lemma append_row_rows_ok table row g g' :
  Forall (row_ok table) (rows g) → row_ok table row → last_mod_ok g →
  append_row row g = (g', Ok tt) → Forall (row_ok table) (rows g').
Proof.
  intros Hg Hrow Hlm Happ. assert (Forall (row_ok table) (rows g ++ [row])) as Hpush.
  { by apply Forall_app_2, Forall_singleton. }
  destruct (is_immutable (group_type g)) eqn:Him.
  - unfold append_row, append_row_immutable in Happ. rewrite Him in Happ.
    destruct row; repeat (case_match; try done); by simplify_eq.
  - assert (∀ pre prev post b, rows g = pre ++ prev :: post → is_open prev = true →
      Forall (row_ok table) (pre ++ close_row prev b :: post)) as Hclose.
    { intros pre prev post b Hrows Hopen. rewrite Hrows, Forall_app, Forall_cons in Hg.
      destruct Hg as (? & Hprev & ?). apply Forall_app. split; [done|]. constructor; [|done].
      intros w Hw. destruct prev as [k d bl [e|]|k d bl [e|]|]; simplify_eq/=;
        by eapply write_ok_entity; [|apply (Hprev _ eq_refl)]. }
    destruct (append_row_cases _ _ _ Him Hlm Happ); try done; subst.
    + unfold push_row. cbn [rows]. erewrite rows_set_row by done. apply Forall_app_2; [by apply Hclose|].
      apply Forall_singleton. intros w [= <-].
      by eapply write_ok_entity; [|apply (Hrow _ eq_refl)].
    + erewrite rows_set_row by done. by apply Hclose.
Qed.

Lemma append_rows_ok table rws g g' :
  group_wf g → Forall (row_wf (group_type g)) rws →
  (is_immutable (group_type g) = true → Forall plain_insert rws) →
  Forall (row_ok table) (rows g) → Forall (row_ok table) rws →
  st_for append_row rws g = (g', Ok tt) → Forall (row_ok table) (rows g').
Proof.
  revert g. induction rws as [|row rws IH]; intros g Hg Hrw Hi Hok Hoks Happ.
  { by apply st_for_nil_ok in Happ as ->. }
  apply Forall_cons in Hrw as [Hrow Hrws]. apply Forall_cons in Hoks as [Hrok Hoks].
  apply st_for_cons_ok in Happ as (ga & Hrowa & Happ).
  destruct (append_row_group_wf g row ga Hg Hrow) as [Hga Hta]; [|done|].
  { intros Him. specialize (Hi Him). by apply Forall_cons in Hi as [[? _] _]. }
  apply (IH ga); rewrite ?Hta; try done.
  - intros Him. specialize (Hi Him). by apply Forall_cons in Hi as [_ ?].
  - eapply append_row_rows_ok; [done..| |done]. apply Hg.
Qed.

(** The exclusion constraint only lets inserts through for entities without a
    current version. *)
Lemma constraint_fresh table rws vs vs' t :
  immutable table = false → as_constraint table = true → Forall (row_wf t) rws →
  Forall ranged vs → rows_seq table rws vs = Ok vs' → rows_fresh table false rws vs.
Proof.
  intros Hmut Hcon Hwf. revert vs. induction Hwf as [|r rws Hr _ IH]; intros vs Hrg; simpl; [done|].
  rewrite bind_ok. intros (vs1 & Hw & Hs). split.
  - destruct r as [k d b [e|]| |]; simpl; try done. unfold write_row in Hw. simpl in Hw.
    apply insert_write_ok in Hw as (v & Hv & _ & Hex & _); [|done]. rewrite Hcon in Hex. simpl in Hex.
    apply Forall_forall. intros x Hx Hid. destruct (latest x) eqn:El; [|done]. exfalso.
    rewrite <-not_true_iff_false in Hex. apply Hex. apply existsb_exists. exists x.
    rewrite <-list_elem_of_In. split; [done|]. pose proof (new_version_id _ _ _ Hv) as Hvi. simpl in Hvi.
    unfold excludes. rewrite bool_decide_true by congruence. simpl.
    unfold new_version, block_range_value in Hv. rewrite Hmut in Hv. simpl in Hv.
    destruct (entity_vid d); try done. injection Hv as <-. simpl.
    unfold latest in El. rewrite Forall_forall in Hrg. destruct (Hrg x Hx) as [rg Hrx]. rewrite Hrx in *.
    destruct rg as [|l [u|]]; simpl in *; try done. apply andb_true_iff in El as [_ El].
    apply Z.ltb_lt. apply Z.ltb_lt in El. destruct Hr as [Hb _]. simpl in Hb. lia.
  - intros vs2 Hw'. rewrite Hw in Hw'. injection Hw' as <-. apply IH; [|done].
    by eauto with rows.
Qed.

Definition rows_of (B : RowGroups) (t : EntityType) : list EntityModification :=
  match groups_group B t with Some g => rows g | None => [] end.

(** Inserts are only made for entities that have no current version, or the
    database checks it. *)
Definition inserts_fresh (B1 B2 : RowGroups) (db : gmap EntityType (list Version)) : Prop :=
  ∀ t table, layout !! t = Some table → is_immutable t = false →
    as_constraint table = true ∨ rows_fresh table false (rows_of B1 t ++ rows_of B2 t) (db_versions db t).

(** Two groups of one type: writing the appended group. *)
Lemma group_append_written t g1 g2 g' table vs vs1 vs2 :
  layout !! t = Some table → group_type g1 = t → group_wf g1 → group_wf g2 →
  (is_immutable t = false → Forall ranged vs) →
  (is_immutable t = false → as_constraint table = true ∨ rows_fresh table false (rows g1 ++ rows g2) vs) →
  Forall (row_ok table) (rows g1) → Forall (row_ok table) (rows g2) →
  rows_seq table (rows g1) vs = Ok vs1 → rows_seq table (rows g2) vs1 = Ok vs2 →
  group_append g2 g1 = (g', Ok tt) →
  Forall (row_ok table) (rows g') ∧ rows_seq table (rows g') vs = Ok vs2.
Proof.
  intros Ht Hty Hg1 Hg2 Hr Hfresh Hok1 Hok2 Hs1 Hs2. pose proof Hg2 as (_ & _ & Hrw & Hins).
  unfold group_append. case_decide as Hteq; [done|]. intros Happ. rewrite <-Hteq in Hrw, Hins.
  split; [eapply (append_rows_ok table (rows g2) g1); done|].
  destruct (Hlayout _ _ Ht) as (_ & Himm & _). destruct (is_immutable t) eqn:Hit.
  - eapply (group_append_imm_rows table Himm (rows g2) g1); try done; [congruence|].
    apply Hins. congruence.
  - assert (rows_fresh table false (rows g1 ++ rows g2) vs) as Hf.
    { destruct (Hfresh eq_refl) as [Hc|]; [|done]. eapply (constraint_fresh _ _ _ vs2 t); try done.
      - apply Forall_app. split; [|by rewrite <-Hty]. rewrite <-Hty. apply Hg1.
      - by apply Hr.
      - apply rows_seq_app. by exists vs1. }
    eapply (group_append_rows table false Himm (rows g2) g1); try done; [congruence|by apply Hr].
Qed.

Lemma groups_wf_group B t g :
  groups_wf (groups B) → groups_group B t = Some g → group_wf g ∧ group_type g = t.
Proof.
  intros [Hnd Hwf] Hg. apply groups_group_Some in Hg as [Hin Ht]; [|done]. split; [|done].
  rewrite Forall_forall in Hwf. by apply Hwf.
Qed.

Lemma groups_append_wf B1 B2 B :
  groups_wf (groups B1) → groups_wf (groups B2) → groups_append B2 B1 = (B, Ok tt) →
  groups_wf (groups B).
Proof.
  intros HB1 HB2 Happ. destruct (groups_append_spec B1 B2 B) as [Hnd Hall]; [apply HB1|apply HB2|done|].
  split; [done|]. apply Forall_forall. intros g Hg. specialize (Hall (group_type g)).
  assert (groups_group B (group_type g) = Some g) as HgB by by apply groups_group_Some.
  destruct (groups_group B2 (group_type g)) as [g2|] eqn:E2.
  - destruct Hall as (g' & Hga & Hg'). rewrite HgB in Hg'. injection Hg' as <-.
    destruct (groups_wf_group _ _ _ HB2 E2) as [Hg2 _].
    destruct (groups_group B1 (group_type g)) as [g1|] eqn:E1; simpl in Hga.
    + destruct (groups_wf_group _ _ _ HB1 E1) as [Hg1 _].
      by destruct (group_append_wf g1 g2 g Hg1 Hg2 Hga).
    + by destruct (group_append_wf _ g2 g (group_new_wf _) Hg2 Hga).
  - rewrite HgB in Hall. by destruct (groups_wf_group _ _ _ HB1 (eq_sym Hall)).
Qed.

Abbreviation write_groups B db := (apply_entity_modifications value_too_large layout (groups B) db 0).

(** The group of a type before the append, possibly a new one *)
Lemma written_before B1 db db1 t table :
  groups_wf (groups B1) → (∀ g, g ∈ groups B1 → group_written g db db1) →
  (∀ t, t ∉ group_types (groups B1) → db1 !! t = db !! t) → layout !! t = Some table →
  ∃ g1, default (group_new t) (groups_group B1 t) = g1 ∧ group_type g1 = t ∧ group_wf g1 ∧
    rows g1 = rows_of B1 t ∧ Forall (row_ok table) (rows g1) ∧
    rows_seq table (rows g1) (db_versions db t) = Ok (db_versions db1 t).
Proof.
  intros HB1 Hall Ho Ht. eexists. split; [done|]. unfold rows_of.
  destruct (groups_group B1 t) as [g1|] eqn:E1; simpl.
  - destruct (groups_wf_group _ _ _ HB1 E1) as [Hg1 Ht1].
    apply groups_group_Some in E1 as [Hin1 _]; [|apply HB1].
    destruct (Hall _ Hin1) as (table' & vs1 & Ht' & Hok1 & Hs1 & Hl1). rewrite Ht1 in *.
    assert (table' = table) as -> by congruence. split_and!; try done.
    + by apply rows_ok_writes.
    + unfold db_versions at 2. by rewrite Hl1.
  - split; [done|]. split; [apply group_new_wf|]. split; [done|]. split; [constructor|].
    f_equal. unfold db_versions. rewrite Ho; [done|]. by apply groups_group_None.
Qed.

(** Writing the appended groups, table by table. *)
Lemma groups_append_refines B1 B2 B db db1 db2 c1 c2 :
  groups_wf (groups B1) → groups_wf (groups B2) → db_ok db → inserts_fresh B1 B2 db →
  write_groups B1 db = Ok (db1, c1) → write_groups B2 db1 = Ok (db2, c2) →
  groups_append B2 B1 = (B, Ok tt) →
  ∃ c, write_groups B db = Ok (db2, c).
Proof.
  intros HB1 HB2 Hdb Hfresh Hw1 Hw2 Happ.
  destruct (apply_written _ _ _ _ _ HB1 Hdb Hw1) as (Hall1 & Ho1 & Hdb1 & _).
  destruct (apply_written _ _ _ _ _ HB2 Hdb1 Hw2) as (Hall2 & Ho2 & _ & _).
  rewrite Forall_forall in Hall1. rewrite Forall_forall in Hall2.
  pose proof (groups_append_wf _ _ _ HB1 HB2 Happ) as HB.
  destruct (groups_append_spec B1 B2 B) as [Hnd Happd]; [apply HB1|apply HB2|done|].
  clear Happ. rename Happd into Happ. eexists. apply apply_written_intro; [done|done| |].
  - apply Forall_forall. intros g Hg. specialize (Happ (group_type g)).
    assert (groups_group B (group_type g) = Some g) as HgB by by apply groups_group_Some.
    set (t := group_type g) in *. specialize (Hfresh t).
    destruct (groups_group B2 t) as [g2|] eqn:E2.
    + destruct Happ as (g' & Hga & Hg'). rewrite HgB in Hg'. injection Hg' as <-.
      destruct (groups_wf_group _ _ _ HB2 E2) as [Hg2 Ht2].
      assert (g2 ∈ groups B2) as Hin2 by (apply groups_group_Some in E2 as [? _]; [done|apply HB2]).
      destruct (Hall2 _ Hin2) as (table & vs2 & Ht & Hok2 & Hs2 & Hl2). rewrite Ht2 in *.
      destruct (written_before B1 db db1 t table) as (g1 & Hg1eq & Ht1 & Hg1 & Hr1 & Hok1 & Hs1);
        [done|by intros; apply Hall1|done..|].
      rewrite Hg1eq in Hga.
      destruct (group_append_written t g1 g2 g table (db_versions db t) (db_versions db1 t) vs2)
        as [Hok Hs]; try done.
      { apply Hdb. }
      { intros Him. rewrite Hr1. unfold rows_of in Hfresh at 2. rewrite E2 in Hfresh.
        by apply Hfresh. }
      { by apply rows_ok_writes. }
      exists table, vs2. split_and!; try done. by apply rows_ok_writes.
    + rewrite HgB in Happ. symmetry in Happ.
      apply groups_group_Some in Happ as [Hin1 _]; [|apply HB1].
      destruct (Hall1 _ Hin1) as (table & vs1 & Ht & Hok & Hs & Hl). exists table, vs1.
      split_and!; try done. rewrite Ho2; [done|]. by apply groups_group_None.
  - intros t Ht. specialize (Happ t). apply groups_group_None in Ht.
    destruct (groups_group B2 t) as [g2|] eqn:E2.
    + destruct Happ as (g' & _ & Hg'). congruence.
    + rewrite Ho2 by by apply groups_group_None. apply Ho1. apply groups_group_None. congruence.
Qed.

End Batches.

(** ** The contract of [Batch::append] *)

Section BatchAppend.
  Context `{EnvVars} `{InputSchema} `{BuildConfig}.
  Context (mods_weight : RowGroups → Z).

Lemma batch_append_mods batch self self' :
  batch_append mods_weight batch self = (self', Ok tt) →
  groups_append (mods batch) (mods self) = (mods self', Ok tt) ∧
  block_ptr self' = block_ptr batch ∧ first_block self' = first_block self ∧
  block_times self' = block_times self ++ block_times batch ∧
  firehose_cursor self' = firehose_cursor batch ∧
  ds_entries (data_sources self') = ds_entries (data_sources self) ++ ds_entries (data_sources batch) ∧
  deterministic_errors self' = deterministic_errors self ++ deterministic_errors batch ∧
  error self' = error self ∧ ptr_number (block_ptr self) < ptr_number (block_ptr batch) ∧
  indirect_weight self' = mods_weight (mods self').
Proof.
  unfold batch_append, append_inner.
  destruct (Z.leb_spec (ptr_number (block_ptr batch)) (ptr_number (block_ptr self))); [done|].
  destruct (groups_append (mods batch) (mods self)) as [mods' [[]| |]]; try done.
  intros [= <-]. simpl. done.
Qed.

(** C2: the contract of [Batch::append].  If writing [self] and then [batch]
    in separate transactions takes the database from [db] to [db2], and
    [append] succeeds, then writing the appended batch takes [db] to the very
    same tables [db2]: every version of every entity, with its block range, is
    identical.  The appended batch is well-formed and carries the block
    pointer, block times, cursor and data sources of both.  The conditions:
    no two types share an interface (the check for ids that several types have
    would see other tables), no value is too large for a statement, and
    inserts are of entities without a current version, unless the database
    checks this. *)
Theorem batch_append_refines value_too_large (layout : gmap EntityType Table)
    batch self self' db db1 db2 c1 c2 :
  (∀ ws, value_too_large ws = false) → layout_ok layout → (∀ t, share_interfaces t = []) →
  groups_wf (groups (mods self)) → groups_wf (groups (mods batch)) →
  db_ok db → inserts_fresh layout (mods self) (mods batch) db →
  apply_entity_modifications value_too_large layout (groups (mods self)) db 0 = Ok (db1, c1) →
  apply_entity_modifications value_too_large layout (groups (mods batch)) db1 0 = Ok (db2, c2) →
  batch_append mods_weight batch self = (self', Ok tt) →
  (∃ c, apply_entity_modifications value_too_large layout (groups (mods self')) db 0 = Ok (db2, c)) ∧
  groups_wf (groups (mods self')) ∧
  block_ptr self' = block_ptr batch ∧ first_block self' = first_block self ∧
  block_times self' = block_times self ++ block_times batch ∧
  firehose_cursor self' = firehose_cursor batch ∧
  ds_entries (data_sources self') = ds_entries (data_sources self) ++ ds_entries (data_sources batch).
Proof.
  intros Hlarge Hlayout Hintf Hself Hbatch Hdb Hfresh Hw1 Hw2 Happ.
  destruct (batch_append_mods _ _ _ Happ) as (Hmods & ? & ? & ? & ? & ? & _).
  split_and!; try done.
  - by eapply (groups_append_refines value_too_large layout Hlarge Hlayout Hintf
      (mods self) (mods batch) (mods self') db db1 db2 c1 c2).
  - eapply (groups_append_wf (mods self) (mods batch)); done.
Qed.

Lemma st_for_no_panic {S E A} (f : A → st S E unit) l s :
  (∀ x s, (f x s).2 ≠ Panic) → (st_for f l s).2 ≠ Panic.
Proof.
  intros Hf. revert s. induction l as [|x l IH]; intros s; [done|]. simpl. unfold mbind, st_bind.
  specialize (Hf x s). destruct (f x s) as [s' [[]| |]]; simpl in *; [apply IH|done|done].
Qed.

Lemma append_row_no_panic row g : (append_row row g).2 ≠ Panic.
Proof. unfold append_row, append_row_immutable, combine_rows. repeat case_match; done. Qed.

Lemma group_entry_no_panic {E} t (f : st RowGroup E unit) gs : (∀ g, (f g).2 ≠ Panic) → (with_group_entry t f gs).2 ≠ Panic.
Proof.
  intros Hf. unfold with_group_entry. destruct (list_find _ (groups gs)) as [[pos g0]|].
  - specialize (Hf g0). by destruct (f g0).
  - specialize (Hf (group_new t)). by destruct (f (group_new t)).
Qed.

Lemma batch_append_no_panic batch self : (batch_append mods_weight batch self).2 ≠ Panic.
Proof.
  unfold batch_append, append_inner. destruct (_ <=? _); [done|].
  assert ((groups_append (mods batch) (mods self)).2 ≠ Panic) as Hg.
  { apply st_for_no_panic. intros g gs. apply group_entry_no_panic. intros g0. unfold group_append.
    case_decide; [done|]. apply st_for_no_panic. apply append_row_no_panic. }
  by destruct (groups_append (mods batch) (mods self)) as [mods' [[]| |]].
Qed.

Lemma batch_new_no_panic `{UnstableSort} ptr time cursor raw_mods dss errors to_remove nonfatal :
  batch_new mods_weight ptr time cursor raw_mods dss errors to_remove nonfatal ≠ Panic.
Proof.
  unfold batch_new.
  assert (∀ ms, (st_for (λ m, with_group_entry (entity_type (emod_key m)) (group_push m (ptr_number ptr)))
             ms groups_new).2 ≠ Panic) as Hn.
  { intros ms. apply st_for_no_panic. intros m gs. apply group_entry_no_panic. intros g. unfold group_push.
    destruct (negb _); [done|]. apply append_row_no_panic. }
  specialize (Hn (sort_unstable_by_key sort_rank raw_mods)). by destruct (st_for _ _ groups_new) as [? []].
Qed.

Lemma batch_append_fails batch self self' e :
  batch_append mods_weight batch self = (self', Err e) →
  error self' = Some e ∧ first_block self' = first_block self.
Proof.
  unfold batch_append, append_inner.
  destruct (Z.leb_spec (ptr_number (block_ptr batch)) (ptr_number (block_ptr self))).
  { by intros [= <- <-]. }
  destruct (groups_append (mods batch) (mods self)) as [mods' [[]| |]]; try done.
  by intros [= <- <-].
Qed.

(** A failed [append] leaves a mark.  If [append] returns an error, the
    batch records that error, so that the writer will not write a batch that
    is only partly appended. *)
Theorem batch_append_error batch self self' e :
  batch_append mods_weight batch self = (self', Err e) →
  error self' = Some e ∧ first_block self' = first_block self.
Proof. apply batch_append_fails. Qed.

(** ** [Batch::new] *)

(** What the caller of [Batch::new] provides *)
Definition raw_mod_ok (m : EntityModification) : Prop :=
  row_wf (entity_type (emod_key m)) m ∧ is_open m || negb (is_write m) = true ∧
  (is_immutable (entity_type (emod_key m)) = true → is_open m = true).

Lemma group_push_wf m b g g' :
  group_wf g → group_type g = entity_type (emod_key m) → raw_mod_ok m →
  group_push m b g = (g', Ok tt) → group_wf g' ∧ group_type g' = group_type g.
Proof.
  intros Hg Ht (Hrow & _ & Him). unfold group_push. destruct (negb _); [done|].
  apply append_row_group_wf; [done|by rewrite Ht|by rewrite Ht].
Qed.

Lemma group_push_type m b g g' : group_push m b g = (g', Ok tt) → group_type g' = group_type g.
Proof.
  unfold group_push. destruct (negb _); [done|].
  unfold append_row, append_row_immutable, combine_rows. repeat case_match; intros; by simplify_eq.
Qed.

(** What every [push] preserves holds for the groups of a batch. *)
Lemma push_mods_inv (P : RowGroup → Prop) (Q : EntityModification → Prop) b ms gs gs' :
  (∀ t, P (group_new t)) →
  (∀ m g g', Q m → group_type g = entity_type (emod_key m) → P g → group_push m b g = (g', Ok tt) → P g') →
  Forall Q ms → NoDup (group_types (groups gs)) → Forall P (groups gs) →
  st_for (λ m, with_group_entry (entity_type (emod_key m)) (group_push m b)) ms gs = (gs', Ok tt) →
  NoDup (group_types (groups gs')) ∧ Forall P (groups gs').
Proof.
  intros Hnew Hpush Hall. revert gs. induction Hall as [|m ms Hm _ IH]; intros gs Hnd HP Hst.
  { by apply st_for_nil_ok in Hst as ->. }
  apply st_for_cons_ok in Hst as (gs1 & Hgs1 & Hst).
  apply with_group_entry_spec in Hgs1 as (g' & Hg' & Hnd' & Hlook); [|done|intros; by eapply group_push_type].
  apply (IH gs1); [done| |done]. apply Forall_forall. intros g Hg.
  assert (groups_group gs1 (group_type g) = Some g) as Hgg by by apply groups_group_Some.
  rewrite Forall_forall in HP. rewrite Hlook in Hgg. case_decide as Hd.
  - injection Hgg as <-. destruct (groups_group gs (entity_type (emod_key m))) as [g0|] eqn:E0; simpl in Hg'.
    + apply groups_group_Some in E0 as [Hin Ht]; [|done]. apply (Hpush m g0); auto.
    + by eapply (Hpush m (group_new (entity_type (emod_key m)))).
  - apply groups_group_Some in Hgg as [Hin _]; [|done]. by apply HP.
Qed.

Lemma push_mods_wf b ms gs gs' :
  Forall raw_mod_ok ms → groups_wf (groups gs) →
  st_for (λ m, with_group_entry (entity_type (emod_key m)) (group_push m b)) ms gs = (gs', Ok tt) →
  groups_wf (groups gs').
Proof.
  intros Hall [Hnd Hwf]. apply (push_mods_inv group_wf raw_mod_ok); try done.
  intros m g g' Hm Ht Hg Hp. by destruct (group_push_wf m b g g').
Qed.

(** [Batch::new] builds a well-formed batch from the modifications of a
    block, in whatever order the unstable sort leaves them: one group per
    type, an accurate [last_mod], and clamps before the writes of an entity. *)
Theorem batch_new_wf `{UnstableSort} ptr time cursor raw_mods dss errors to_remove nonfatal b :
  Forall raw_mod_ok raw_mods →
  batch_new mods_weight ptr time cursor raw_mods dss errors to_remove nonfatal = Ok b →
  groups_wf (groups (mods b)) ∧ first_block b = ptr_number ptr ∧ block_ptr b = ptr ∧ error b = None.
Proof.
  intros Hraw. unfold batch_new.
  destruct (st_for _ _ groups_new) as [gs [[]| |]] eqn:Est; try done. intros [= <-]. simpl.
  split; [|done]. eapply (push_mods_wf _ _ groups_new); [|split; constructor|done].
  by rewrite sort_unstable_perm.
Qed.

(** ** The entity count *)

(** The row that [row] would be combined with is a removal, as [row] is. *)
Definition double_remove (g : RowGroup) (row : EntityModification) : bool :=
  match prev_row_mut g (emod_id row), row with
  | Some (_, Remove _ _), Remove _ _ => true
  | _, _ => false
  end.

Lemma count_app rws1 rws2 :
  foldr Z.add 0 (emod_entity_count_change <$> rws1 ++ rws2) =
  foldr Z.add 0 (emod_entity_count_change <$> rws1) +
  foldr Z.add 0 (emod_entity_count_change <$> rws2).
Proof.
  induction rws1 as [|r rws1 IH]; [done|]. cbn [app]. rewrite !fmap_cons. cbn [foldr]. rewrite IH. lia.
Qed.

Lemma count_close prev b :
  is_open prev = true →
  emod_entity_count_change (close_row prev b) = emod_entity_count_change prev - 1.
Proof. by destruct prev as [? ? ? []|? ? ? []|]. Qed.

(** The entity count of a group.  Appending a row to the group of a
    mutable type changes the group's count by the count of the row, except
    that a removal that follows a removal of the same entity is not counted
    again. *)
Theorem append_row_count g row g' :
  is_immutable (group_type g) = false → last_mod_ok g → append_row row g = (g', Ok tt) →
  group_entity_count_change g' =
    group_entity_count_change g + emod_entity_count_change row
    + (if double_remove g row then 1 else 0).
Proof.
  intros Him Hlm Happ. unfold group_entity_count_change, double_remove.
  pose proof (prev_row_spec g (emod_id row) Hlm) as Hprev.
  unfold append_row in Happ. rewrite Him in Happ.
  destruct (prev_row_mut g (emod_id row)) as [[idx prev]|].
  2:{ injection Happ as <-. simpl. rewrite count_app. simpl. lia. }
  destruct Hprev as (pre & post & Hrows & <- & Hid & Hpost).
  destruct (emod_block row <=? emod_block prev); [done|].
  rewrite decide_False in Happ by (rewrite Hid; tauto). unfold combine_rows in Happ.
  destruct prev as [k d bl [e|]|k d bl [e|]|k bl], row as [k' d' b' [e'|]|k' d' b' [e'|]|k' b'];
    cbn [emod_clamp into_insert] in Happ; try discriminate Happ; injection Happ as <-;
    unfold push_row; cbn [rows]; erewrite ?rows_set_row by done; rewrite ?Hrows, ?count_app,
      ?fmap_cons; cbn [foldr fmap list_fmap emod_entity_count_change]; lia.
Qed.

End BatchAppend.

(** ** A concrete deployment *)

Module BatchSample.

#[local] Instance sample_env : EnvVars :=
  {| write_batch_memoize := true; insert_extra_cols := 0; use_brin_for_all_query_types := false |}.

#[local] Instance sample_schema : InputSchema :=
  {| is_immutable := λ _, false; skip_duplicates := λ _, false;
     schema_id_type := λ _, IdTString; object_type := λ _, None; share_interfaces := λ _, [] |}.

#[local] Instance sample_build : BuildConfig := {| CREATE_EXCLUSION_CONSTRAINT := true |}.

#[local] Instance sample_sort : UnstableSort.
Proof.
  refine {| sort_unstable_by_key := λ A f l,
              @merge_sort A (λ a b, f a ≤ f b) (λ a b, Z_le_dec (f a) (f b)) l |}.
  - intros A f l. apply merge_sort_Permutation.
  - intros A f l. apply StronglySorted_merge_sort; [intros a b c; lia|intros a b; destruct (Z.le_ge_cases (f a) (f b)); auto].
Defined.

Definition user : EntityType := mkEntityType "User".
Definition u1 : EntityKey := mkEntityKey user (IdString "u1") ONCHAIN.

Definition user_table : Table :=
  mkTable user [mkColumn "id" false false None; mkColumn "name" true false None]
    false false false false true.

Definition user_layout : gmap EntityType Table := {[ user := user_table ]}.

Lemma user_layout_ok : layout_ok user_layout.
Proof.
  intros t table Ht. unfold user_layout in Ht. apply lookup_singleton_Some in Ht as [<- <-]. done.
Defined.

Definition ann : Object Value := sample_user [(0, VString "u1"); (1, VString "Ann"); (2, VInt8 1)].
Definition bob : Object Value := sample_user [(0, VString "u1"); (1, VString "Bob"); (2, VInt8 2)].

Lemma ann_wf : obj_wf ann.
Proof. apply sample_user_wf; [|done]. by apply (bool_decide_unpack _). Defined.
Lemma bob_wf : obj_wf bob.
Proof. apply sample_user_wf; [|done]. by apply (bool_decide_unpack _). Defined.

Definition sample_batch (row : EntityModification) : Batch :=
  mkBatch (mkBlockPtr (emod_block row) []) [(emod_block row, 0)] (emod_block row) None
    (mkRowGroups [push_row (group_new user) row]) (mkDataSources []) [] (mkDataSources []) None false 0.

Lemma sample_batch_wf row : row_wf user row → groups_wf (groups (mods (sample_batch row))).
Proof.
  intros Hrow. split; [apply NoDup_singleton|]. apply Forall_singleton.
  apply push_row_wf; [apply group_new_wf|done|by intros; constructor|done].
Defined.

Definition insert_ann : EntityModification := Insert u1 ann 1 None.
Definition overwrite_bob : EntityModification := Overwrite u1 bob 2 None.

Definition no_weight (_ : RowGroups) : Z := 0.
Definition never_large (_ : list EntityWrite) : bool := false.

(** The tables after writing the rows *)
Definition written (rws : list EntityModification) (db : gmap EntityType (list Version)) :=
  match rows_seq user_table rws (db_versions db user) with
  | Ok vs => <[user := vs]> db
  | _ => db
  end.

Definition db1 := written [insert_ann] ∅.
Definition db2 := written [overwrite_bob] db1.
Definition appended_batch : Batch := (batch_append no_weight (sample_batch overwrite_bob) (sample_batch insert_ann)).1.

Lemma batch_append_refines_witness :
  (∃ c, apply_entity_modifications never_large user_layout (groups (mods appended_batch)) ∅ 0 =
        Ok (db2, c)) ∧
  groups_wf (groups (mods appended_batch)) ∧
  block_ptr appended_batch = block_ptr (sample_batch overwrite_bob) ∧
  first_block appended_batch = first_block (sample_batch insert_ann) ∧
  block_times appended_batch = [(1, 0)] ++ [(2, 0)] ∧
  firehose_cursor appended_batch = None ∧ ds_entries (data_sources appended_batch) = [] ++ [].
Proof.
  apply (batch_append_refines no_weight never_large user_layout (sample_batch overwrite_bob)
           (sample_batch insert_ann) appended_batch ∅ db1 db2 1 0).
  - done.
  - exact user_layout_ok.
  - done.
  - apply sample_batch_wf. split_and!; try done. exact (conj ann_wf I).
  - apply sample_batch_wf. split_and!; try done. exact (conj bob_wf I).
  - intros t _. unfold db_versions. rewrite lookup_empty. constructor.
  - intros t table Ht _. left. unfold user_layout in Ht. apply lookup_singleton_Some in Ht as [_ <-]. done.
  - vm_compute. reflexivity.
  - vm_compute. reflexivity.
  - vm_compute. reflexivity.
Defined.

Lemma batch_append_error_witness :
  error (batch_append no_weight (sample_batch insert_ann) (sample_batch overwrite_bob)).1 =
    Some (InternalError "Batches must go forward") ∧
  first_block (batch_append no_weight (sample_batch insert_ann) (sample_batch overwrite_bob)).1 =
    first_block (sample_batch overwrite_bob).
Proof.
  apply (batch_append_error no_weight (sample_batch insert_ann)). vm_compute. reflexivity.
Defined.

Definition new_batch : Batch :=
  match batch_new no_weight (mkBlockPtr 1 []) 0 None [insert_ann] [] [] [] false with
  | Ok b => b
  | _ => sample_batch insert_ann
  end.

Lemma batch_new_wf_witness :
  groups_wf (groups (mods new_batch)) ∧ first_block new_batch = 1 ∧
  block_ptr new_batch = mkBlockPtr 1 [] ∧ error new_batch = None.
Proof.
  apply (batch_new_wf no_weight (mkBlockPtr 1 []) 0 None [insert_ann] [] [] [] false).
  - apply Forall_singleton. split; [|done]. split_and!; try done. exact (conj ann_wf I).
  - vm_compute. reflexivity.
Defined.

Definition ann_group : RowGroup := push_row (group_new user) insert_ann.

Lemma append_row_count_witness :
  group_entity_count_change (append_row overwrite_bob ann_group).1 =
  group_entity_count_change ann_group + emod_entity_count_change overwrite_bob
    + (if double_remove ann_group overwrite_bob then 1 else 0).
Proof.
  apply append_row_count.
  - done.
  - apply push_row_last_mod. apply group_new_wf.
  - vm_compute. reflexivity.
Defined.

End BatchSample.
