(* ===== verification/ReadFacts.v ===== *)
(** * Reading back what a batch writes

    The store answers reads from batches that are not written yet
    ([RowGroup::last_op], [effective_ops]).  This file shows that the answer is
    what a query of the table gives once the group has been written, for every
    block, and that the parts of the block range conditions that only serve
    Postgres' indexes do not change what a query finds. *)

From Stdlib Require Import ZArith Lia ZifyBool.
From stdpp Require Import base gmap list strings.
From S2P Require Import Prelude Values Intern InternFacts Entity EntityFacts.
From S2P Require Import Write WriteFacts Relational RelationalFacts AppendFacts BatchFacts.

Local Open Scope Z_scope.

(** ** Block range conditions *)

(** Whether a version exists at a block *)
Definition exists_at (b : BlockNumber) (v : Version) : bool :=
  match v_block v with
  | BlockCol l => l <=? b
  | RangeCol r => range_contains r b
  end.

Lemma at_block_exists `{EnvVars} table b by_id v :
  b < BLOCK_NUMBER_MAX ∨ (∃ r, v_block v = RangeCol r) ∨ (∃ l, v_block v = BlockCol l ∧ l ≤ b) →
  at_block table b by_id v = exists_at b v.
Proof.
  unfold at_block, exists_at. destruct (v_block v) as [l|r].
  - intros [Hb|[[r Hr]|(l' & [= <-] & Hl)]].
    + destruct (Z.eqb_spec b BLOCK_NUMBER_MAX); [lia|done].
    + done.
    + destruct (b =? BLOCK_NUMBER_MAX); [|done]. symmetry. by apply Z.leb_le.
  - intros _. destruct (is_account_like table && (b <? BLOCK_NUMBER_MAX) &&
      (negb by_id || use_brin_for_all_query_types)) eqn:E; [|by rewrite andb_true_r].
    apply andb_true_iff in E as [[_ Hmax]%andb_true_iff _]. apply Z.ltb_lt in Hmax.
    destruct r as [|l [u|]]; simpl; [done|..].
    + destruct (Z.leb_spec l b), (Z.ltb_spec b u); simpl; try done; try lia.
    + destruct (Z.leb_spec l b); simpl; [|done].
      destruct (Z.ltb_spec b BLOCK_NUMBER_MAX); simpl; [done|lia].
Qed.

(** The additional conditions that [contains] and [AtBlock] generate for
    account-like tables, which repeat the range test on the bounds so that the
    BRIN index can be used, do not change the rows a query finds: for every
    mutable version, every block and every setting, the condition holds
    exactly when the version's range contains the block. *)
Theorem brin_clause_redundant `{EnvVars} table b by_id v r :
  v_block v = RangeCol r → at_block table b by_id v = range_contains r b.
Proof.
  intros Hr. rewrite at_block_exists by eauto. unfold exists_at. by rewrite Hr.
Qed.

(** ** Rows of one entity follow each other *)

(** The end of what a row writes is not after [b]. *)
Definition ends_by (r : EntityModification) (b : BlockNumber) : Prop :=
  match r with
  | Insert _ _ _ (Some e) | Overwrite _ _ _ (Some e) => e ≤ b
  | Insert _ _ _ None | Overwrite _ _ _ None => False
  | Remove _ b0 => b0 ≤ b
  end.

Fixpoint chain (rws : list EntityModification) : Prop :=
  match rws with
  | [] => True
  | r :: rws => Forall (λ r', emod_id r' = emod_id r → ends_by r (emod_block r')) rws ∧ chain rws
  end.

(** All that rows do happens in the blocks from [lo] to [hi]. *)
Definition row_within (lo hi : BlockNumber) (r : EntityModification) : Prop :=
  lo ≤ emod_block r ≤ hi ∧
  match r with
  | Insert _ _ _ (Some e) | Overwrite _ _ _ (Some e) => e ≤ hi
  | _ => True
  end.

(** ** What exists at a block *)

Section View.
  Context `{EnvVars} `{InputSchema} `{BuildConfig} (table : Table) (id : Id).
  Hypothesis Hmut : immutable table = false.

(** The entities that a query for the id at block [b] finds *)
Definition view (b : BlockNumber) (vs : list Version) : list (Object Value) :=
  v_data <$> filter (λ v, v_id v = id ∧ exists_at b v = true) vs.

(** What the table holds for the id comes before block [b]: closed ranges end
    by [b], and the current version began before [b] or at [b]. *)
Definition before (b : BlockNumber) (v : Version) : Prop :=
  v_id v = id →
  match v_block v with
  | RangeCol (RRange l (Some u)) => u ≤ b
  | RangeCol (RRange l None) => l ≤ b
  | _ => True
  end.

(** Every insert is made when the entity has no current version. *)
Fixpoint inserts_ok (rws : list EntityModification) (vs : list Version) : Prop :=
  match rws with
  | [] => True
  | r :: rws =>
      (creates_entity r = true → none_current (emod_id r) vs) ∧
      ∀ vs', write_row table r vs = Ok vs' → inserts_ok rws vs'
  end.

Lemma view_app b vs1 vs2 : view b (vs1 ++ vs2) = view b vs1 ++ view b vs2.
Proof. unfold view. by rewrite filter_app, fmap_app. Qed.

Lemma view_none b vs : (∀ v, v ∈ vs → v_id v = id → exists_at b v = false) → view b vs = [].
Proof. intros Hn. unfold view. rewrite filter_none; [done|]. intros v Hv [Hid He]. by rewrite Hn in He. Qed.

Lemma view_singleton b v :
  view b [v] = if decide (v_id v = id ∧ exists_at b v = true) then [v_data v] else [].
Proof. unfold view. rewrite filter_cons. by case_decide. Qed.

Lemma view_map b (f : Version → Version) vs :
  (∀ v, v ∈ vs → v_id (f v) = v_id v ∧ v_data (f v) = v_data v ∧
                 (v_id v = id → exists_at b (f v) = exists_at b v)) →
  view b (f <$> vs) = view b vs.
Proof.
  unfold view. induction vs as [|v vs IH]; intros Hf; [done|]. rewrite fmap_cons, !filter_cons.
  destruct (Hf v) as (Hi & Hd & He); [by left|]. rewrite Hi.
  assert (v_data <$> filter (λ v, v_id v = id ∧ exists_at b v = true) (f <$> vs) =
          v_data <$> filter (λ v, v_id v = id ∧ exists_at b v = true) vs) as IH'.
  { apply IH. intros v' Hv'. apply Hf. by right. }
  destruct (decide (v_id v = id ∧ exists_at b (f v) = true)) as [[Hv Hx]|Hn].
  - rewrite decide_True by (rewrite <-He; done). rewrite !fmap_cons. by rewrite Hd, IH'.
  - rewrite decide_False; [done|]. intros [Hv Hx]. apply Hn. by rewrite He.
Qed.

Lemma clamp_fn_data ids b v : v_data (clamp_fn ids b v) = v_data v.
Proof. unfold clamp_fn. case_match; [|done]. by repeat case_match. Qed.

(** A clamp after the block does not change what exists at the block. *)
Lemma clamp_exists_after ids b at_ v :
  ranged v → clamp_guard ids b v → at_ < b → b ≤ BLOCK_NUMBER_MAX →
  exists_at at_ (clamp_fn ids b v) = exists_at at_ v.
Proof.
  intros [r Hr] Hg Hlt Hmax. unfold clamp_fn. case_bool_decide as Hin; simpl; [|done].
  destruct (latest v) eqn:El; [|done]. specialize (Hg Hin El). rewrite Hr in Hg |- *.
  destruct r as [|l u]; [done|]. specialize (Hg l u eq_refl). unfold exists_at. simpl. rewrite Hr.
  unfold latest in El. rewrite Hr in El. simpl in El.
  destruct (Z.ltb_spec l b), u as [u|]; simpl; lia.
Qed.

(** After a clamp, nothing that was there before exists at the block or later. *)
Lemma clamp_exists_before b at_ v :
  ranged v → before b v → v_id v = id → b ≤ at_ → b ≤ BLOCK_NUMBER_MAX →
  exists_at at_ (clamp_fn [id] b v) = false.
Proof.
  intros [r Hr] Hbef Hid Hle Hmax. specialize (Hbef Hid). unfold clamp_fn.
  rewrite bool_decide_true by by apply list_elem_of_singleton. simpl. unfold latest. rewrite Hr in *.
  destruct r as [|l [u|]]; simpl; [unfold exists_at; by rewrite Hr|..].
  - replace ((l <=? BLOCK_NUMBER_MAX) && (BLOCK_NUMBER_MAX <? u)) with false by lia.
    unfold exists_at. rewrite Hr. simpl. lia.
  - replace (l <=? BLOCK_NUMBER_MAX) with true by lia. unfold exists_at. simpl.
    destruct (Z.ltb_spec l b); simpl; lia.
Qed.

Lemma new_version_mut w v :
  new_version table w = Some v →
  v_data v = ew_entity w ∧ v_id v = ew_id w ∧
  v_cr v = (if has_causality_region table then ew_causality_region w else ONCHAIN) ∧
  match ew_end w with
  | None => v_block v = RangeCol (RRange (ew_block w) None)
  | Some e => ew_block w < e → v_block v = RangeCol (RRange (ew_block w) (Some e))
  end.
Proof.
  unfold new_version, block_range_value. rewrite Hmut.
  destruct (entity_vid (ew_entity w)); try done.
  destruct (ew_end w) as [e|]; simpl.
  - destruct (Z.ltb_spec (ew_block w) e); simpl; [by intros [= <-]|].
    destruct (ew_block w =? e); simpl; try done. intros [= <-]. simpl. split_and!; try done. lia.
  - by intros [= <-].
Qed.

(** *** Rows of other entities *)

Lemma write_row_view_other r b vs vs' :
  emod_id r ≠ id → write_row table r vs = Ok vs' → view b vs' = view b vs.
Proof.
  intros Hne. unfold write_row. rewrite bind_ok. intros (vs1 & Hc & Hi).
  assert (view b vs1 = view b vs) as Hv1.
  { destruct (is_clamp r); [|by simplify_eq]. apply clamp_versions_ok in Hc as [_ ->].
    apply view_map. intros v _. rewrite clamp_fn_id, clamp_fn_data. split_and!; try done.
    intros Hid. rewrite clamp_fn_other; [done|]. rewrite list_elem_of_singleton. congruence. }
  destruct (as_write r) as [w|] eqn:Ew; [|by simplify_eq].
  apply insert_write_ok in Hi as (v & Hv & _ & _ & ->); [|done].
  rewrite view_app, Hv1, view_singleton, decide_False, app_nil_r; [done|]. intros [Hid _].
  apply new_version_id in Hv. destruct r; simplify_eq/=; congruence.
Qed.

Lemma write_row_before_other r c vs vs' :
  emod_id r ≠ id → write_row table r vs = Ok vs' → Forall (before c) vs → Forall (before c) vs'.
Proof.
  intros Hne. unfold write_row. rewrite bind_ok. intros (vs1 & Hc & Hi) Hb.
  assert (Forall (before c) vs1) as Hb1.
  { destruct (is_clamp r); [|by simplify_eq]. apply clamp_versions_ok in Hc as [_ ->].
    apply Forall_fmap. eapply Forall_impl; [done|]. intros v Hv. simpl. unfold before.
    rewrite clamp_fn_id. intros Hid. rewrite clamp_fn_other; [by apply Hv|].
    rewrite list_elem_of_singleton. congruence. }
  destruct (as_write r) as [w|] eqn:Ew; [|by simplify_eq].
  apply insert_write_ok in Hi as (v & Hv & _ & _ & ->); [|done].
  apply Forall_app. split; [done|]. apply Forall_singleton. intros Hid.
  apply new_version_id in Hv. destruct r; simplify_eq/=; congruence.
Qed.

(** *** Rows of the entity *)

Definition op_view (op : EntityOp) : list (Object Value) :=
  match op with OpWrite _ e => [e] | OpRemove _ => [] end.

(** The table after the clamp that a row needs, if it needs one *)
Lemma row_clamp_fn r vs vs1 :
  emod_id r = id → (creates_entity r = true → none_current id vs) →
  row_clamp r vs = Ok vs1 →
  vs1 = clamp_fn [id] (emod_block r) <$> vs ∧
  (is_clamp r = true → Forall (clamp_guard [id] (emod_block r)) vs).
Proof.
  intros Hid Hfresh. unfold row_clamp. destruct r as [k d b e|k d b e|k b]; simpl in *.
  - intros [= <-]. split; [|done]. symmetry. apply clamp_fn_none. by apply Hfresh.
  - rewrite Hid. by intros [? ->]%clamp_versions_ok.
  - rewrite Hid. by intros [? ->]%clamp_versions_ok.
Qed.

Lemma exists_at_new at_ w v t r :
  as_write r = Some w → row_wf t r → new_version table w = Some v →
  exists_at at_ v = (emod_block r <=? at_) && match ew_end w with None => true | Some e => at_ <? e end.
Proof.
  intros Hw (_ & _ & _ & Hr) Hv. apply new_version_mut in Hv as (_ & _ & _ & Hb). unfold exists_at.
  destruct r as [k d b [e|]|k d b [e|]|k b]; simplify_eq/=; try (rewrite Hb by apply Hr); try rewrite Hb;
    simpl; lia.
Qed.

Lemma write_row_view r at_ vs vs' t :
  emod_id r = id → row_wf t r → Forall ranged vs → Forall (before (emod_block r)) vs →
  (creates_entity r = true → none_current id vs) → write_row table r vs = Ok vs' →
  view at_ vs' = if emod_block r <=? at_ then op_view (as_entity_op r at_) else view at_ vs.
Proof.
  intros Hid Hr Hrg Hbef Hfresh. unfold write_row. fold (row_clamp r vs). rewrite bind_ok.
  intros (vs1 & Hc & Hi). destruct (row_clamp_fn _ _ _ Hid Hfresh Hc) as [-> Hg]. clear Hc.
  pose proof Hr as [Hmax _]. rewrite Forall_forall in Hrg. rewrite Forall_forall in Hbef.
  assert (view at_ (clamp_fn [id] (emod_block r) <$> vs) =
          if emod_block r <=? at_ then [] else view at_ vs) as Hview.
  { destruct (Z.leb_spec (emod_block r) at_).
    - apply view_none. intros v (v0 & -> & Hv0)%list_elem_of_fmap. rewrite clamp_fn_id. intros Hv.
      apply clamp_exists_before; auto.
    - destruct (creates_entity r) eqn:Ec; [by rewrite clamp_fn_none by auto|].
      assert (is_clamp r = true) as Hcl by (by destruct r). specialize (Hg Hcl).
      rewrite Forall_forall in Hg. apply view_map. intros v Hv. rewrite clamp_fn_id, clamp_fn_data.
      split_and!; try done. intros _. apply clamp_exists_after; auto. }
  destruct (as_write r) as [w|] eqn:Ew.
  - apply insert_write_ok in Hi as (v & Hv & _ & _ & ->); [|done].
    rewrite view_app, Hview, view_singleton, (exists_at_new at_ w v t r) by done.
    apply new_version_mut in Hv as (Hd & Hvi & _).
    assert (v_id v = id) as Hvid by (destruct r; simplify_eq/=; congruence).
    destruct (Z.leb_spec (emod_block r) at_); simpl.
    + destruct r as [k d b [e|]|k d b [e|]|k b]; simplify_eq/=;
        try (destruct (Z.ltb_spec at_ e)); simpl;
        rewrite ?decide_True by (split; lia || done); rewrite ?decide_False by (intros [_ ?]; lia);
        rewrite ?Hd; done.
    + rewrite decide_False by (intros [_ ?]; done). by rewrite app_nil_r.
  - destruct r; try done. injection Hi as <-. exact Hview.
Qed.

Lemma write_row_before r c vs vs' t :
  emod_id r = id → row_wf t r → Forall ranged vs → (creates_entity r = true → none_current id vs) →
  ends_by r c → write_row table r vs = Ok vs' → Forall (before c) vs → Forall (before c) vs'.
Proof.
  intros Hid Hr Hrg Hfresh Hends. unfold write_row. fold (row_clamp r vs). rewrite bind_ok.
  intros (vs1 & Hc & Hi) Hb. destruct (row_clamp_fn _ _ _ Hid Hfresh Hc) as [-> Hg]. clear Hc.
  assert (emod_block r ≤ c) as Hle.
  { destruct Hr as (_ & _ & _ & Hr). destruct r as [k d b [e|]|k d b [e|]|k b]; simpl in *; lia. }
  assert (Forall (before c) (clamp_fn [id] (emod_block r) <$> vs)) as Hb1.
  { apply Forall_fmap. eapply Forall_impl; [done|]. intros v Hv. simpl. unfold before.
    rewrite clamp_fn_id. intros Hvi. specialize (Hv Hvi). unfold clamp_fn.
    destruct (bool_decide (v_id v ∈ [id]) && latest v); [|done].
    destruct (v_block v) as [|[|l u]] eqn:Evb; rewrite ?Evb; try done. simpl.
    by destruct (l <? emod_block r). }
  destruct (as_write r) as [w|] eqn:Ew; [|by simplify_eq].
  apply insert_write_ok in Hi as (v & Hv & _ & _ & ->); [|done].
  apply Forall_app. split; [done|]. apply Forall_singleton. intros _.
  apply new_version_mut in Hv as (_ & _ & _ & Hvb). destruct Hr as (_ & _ & _ & Hr).
  destruct r as [k d b [e|]|k d b [e|]|k b]; simplify_eq/=; try done; by rewrite Hvb by apply Hr.
Qed.

(** What a query finds after a group was written, for any block. *)
Lemma rows_view rws at_ vs vs' t :
  chain rws → Forall (row_wf t) rws → Forall ranged vs →
  (∀ r, r ∈ rws → emod_id r = id → Forall (before (emod_block r)) vs) →
  inserts_ok rws vs → rows_seq table rws vs = Ok vs' →
  view at_ vs' =
    match rfind (λ r, has_id id r && (emod_block r <=? at_)) rws with
    | Some r => op_view (as_entity_op r at_)
    | None => view at_ vs
    end.
Proof.
  revert vs. induction rws as [|r rws IH]; intros vs Hch Hwf Hrg Hbef Hins; simpl; [by intros [= <-]|].
  rewrite bind_ok. intros (vs1 & Hw & Hs). destruct Hch as [Hr Hch]. destruct Hins as [Hfresh Hins].
  apply Forall_cons in Hwf as [Hrw Hwf].
  pose proof (write_row_ranged _ Hmut _ _ _ Hrg Hw) as Hrg1.
  destruct (decide (emod_id r = id)) as [Hid|Hne].
  - rewrite Hid in Hfresh. rewrite (IH vs1); try done.
    + destruct (rfind _ rws); [done|]. unfold has_id. rewrite bool_decide_true by done. simpl.
      rewrite (write_row_view r at_ vs vs1 t); try done; [|apply Hbef; [by left|done]].
      by destruct (emod_block r <=? at_).
    + intros r' Hr' Hid'. rewrite Forall_forall in Hr.
      eapply (write_row_before r _ vs); try done.
      * apply Hr; [done|congruence].
      * apply Hbef; [by right|done].
    + by apply Hins.
  - rewrite (IH vs1); try done.
    + destruct (rfind _ rws); [done|]. unfold has_id. rewrite bool_decide_false by done. simpl.
      by eapply write_row_view_other.
    + intros r' Hr' Hid'. eapply write_row_before_other; [done..|]. apply Hbef; [by right|done].
    + by apply Hins.
Qed.

End View.

(** ** [last_op] *)

Lemma rfind_app_some {A} (f : A → bool) pre x post :
  f x = true → Forall (λ y, f y = false) post → rfind f (pre ++ x :: post) = Some x.
Proof.
  intros Hx Hpost. assert (rfind f post = None) as Hn.
  { induction Hpost as [|y post Hy _ IH]; [done|]. simpl. by rewrite IH, Hy. }
  induction pre as [|y pre IH]; simpl; [by rewrite Hn, Hx|by rewrite IH].
Qed.

Lemma rfind_ext {A} (f g : A → bool) l : (∀ x, x ∈ l → f x = g x) → rfind f l = rfind g l.
Proof.
  induction l as [|x l IH]; intros Hfg; [done|]. simpl. rewrite IH by (intros; apply Hfg; by right).
  by rewrite Hfg by left.
Qed.

Section LastOp.
  Context `{EnvVars} `{InputSchema}.

(** Within a group, the id of an entity determines its key. *)
Definition id_determines_key (g : RowGroup) (key : EntityKey) : Prop :=
  ∀ r, r ∈ rows g → emod_id r = entity_id key → emod_key r = key.

Lemma emod_key_id r : entity_id (emod_key r) = emod_id r.
Proof. by destruct r. Qed.

Lemma last_op_scan_id g key at_ :
  id_determines_key g key →
  last_op_scan g key at_ =
    (λ r, as_entity_op r at_) <$>
      rfind (λ r, has_id (entity_id key) r && (emod_block r <=? at_)) (rows g).
Proof.
  intros Hkey. unfold last_op_scan. f_equal. apply rfind_ext. intros r Hr. f_equal. unfold has_id.
  apply bool_decide_ext. split; [intros <-; by rewrite emod_key_id|]. by apply Hkey.
Qed.

Lemma last_op_fast g key at_ :
  last_mod_ok g → id_determines_key g key → group_last_op g key at_ = last_op_scan g key at_.
Proof.
  intros Hlm Hkey. unfold group_last_op, last_mod_get.
  destruct write_batch_memoize eqn:Em; [|done]. rewrite (Hlm Em).
  pose proof (rfind_index_spec (has_id (entity_id key)) (rows g)) as Hspec.
  destruct (rfind_index _ (rows g)) as [idx|]; [|done].
  destruct Hspec as (pre & r & post & Hrows & <- & Hr & Hpost). simpl.
  rewrite Hrows at 1. rewrite list_lookup_middle by done. simpl.
  destruct (emod_block r <=? at_) eqn:Eb; [|done]. rewrite last_op_scan_id by done. rewrite Hrows.
  rewrite (rfind_app_some _ pre r post); [done|by rewrite Hr, Eb|].
  eapply Forall_impl; [done|]. intros y Hy. simpl in *. by rewrite Hy.
Qed.

(** The memoized fast path of [last_op] agrees with the scan through all
    rows, for every key and block, as long as ids determine keys within the
    group.  It does so whether [write_batch_memoize] is on or off. *)
Theorem last_op_fast_path g key at_ :
  group_wf g → id_determines_key g key →
  group_last_op g key at_ = last_op_scan g key at_.
Proof. intros [Hlm _] Hkey. by apply last_op_fast. Qed.

(** The fast path of [last_op] ignores the causality region.  With
    memoization, the lookup of a key in one region returns the write of an
    entity with the same id that another region made, while the scan through
    the rows, which compares the whole key, finds nothing. *)
Theorem last_op_crosses_regions t id (r1 r2 at_ : Z) e b :
  write_batch_memoize = true → r1 ≠ r2 → b ≤ at_ →
  let g := push_row (group_new t) (Insert (mkEntityKey t id r1) e b None) in
  group_last_op g (mkEntityKey t id r2) at_ = Some (OpWrite (mkEntityKey t id r1) e) ∧
  last_op_scan g (mkEntityKey t id r2) at_ = None.
Proof.
  intros Hm Hr Hb g. split.
  - unfold group_last_op, g, push_row, last_mod_get, last_mod_insert. simpl. rewrite Hm.
    rewrite lookup_insert_eq. simpl. by replace (b <=? at_) with true by lia.
  - unfold last_op_scan, g. simpl. rewrite bool_decide_false; [done|]. congruence.
Qed.

End LastOp.

(** ** Queries after a write *)

Section Find.
  Context `{EnvVars} `{InputSchema} `{BuildConfig}.

Lemma before_mono id b c v : before id b v → b ≤ c → before id c v.
Proof. unfold before. intros Hb Hle Hid. specialize (Hb Hid). repeat case_match; lia || done. Qed.

(** The exclusion constraint makes sure that inserts are right. *)
Lemma constraint_inserts_ok table rws vs vs' t :
  immutable table = false → as_constraint table = true → chain rws → Forall (row_wf t) rws →
  Forall ranged vs → (∀ r, r ∈ rws → Forall (before (emod_id r) (emod_block r)) vs) →
  rows_seq table rws vs = Ok vs' → inserts_ok table rws vs.
Proof.
  intros Hmut Hcon. revert vs. induction rws as [|r rws IH]; intros vs Hch Hwf Hrg Hbef; simpl; [done|].
  rewrite bind_ok. intros (vs1 & Hw & Hs). destruct Hch as [Hch1 Hch]. apply Forall_cons in Hwf as [Hr Hwf].
  assert (creates_entity r = true → none_current (emod_id r) vs) as Hfresh.
  { intros Hc. destruct r as [k d b e| |]; try done. unfold write_row in Hw. simpl in Hw.
    apply insert_write_ok in Hw as (v & Hv & _ & Hex & _); [|done]. rewrite Hcon in Hex. simpl in Hex.
    apply Forall_forall. intros x Hx Hid. destruct (latest x) eqn:El; [|done]. exfalso.
    rewrite <-not_true_iff_false in Hex. apply Hex. apply existsb_exists. exists x.
    rewrite <-list_elem_of_In. split; [done|].
    apply new_version_mut in Hv as (_ & Hvi & _ & Hvb); [|done]. simpl in *.
    unfold excludes. rewrite bool_decide_true by congruence. simpl.
    specialize (Hbef (Insert k d b e) ltac:(by left)). rewrite Forall_forall in Hbef.
    specialize (Hbef x Hx Hid). simpl in Hbef. unfold latest in El.
    rewrite Forall_forall in Hrg. destruct (Hrg x Hx) as [rg Hrx]. rewrite Hrx in *.
    destruct Hr as (Hmax & _ & _ & _ & Hend). simpl in Hmax.
    destruct e as [e|], rg as [|l [u|]]; simpl in *; try done; try lia;
      rewrite Hvb; simpl; try apply Hend; lia. }
  split; [done|]. intros vs2 Hw2. rewrite Hw in Hw2. injection Hw2 as <-.
  apply IH; try done; [by eauto with rows|]. intros r' Hr'.
  destruct (decide (emod_id r = emod_id r')) as [Heq|Hne].
  - eapply (write_row_before table (emod_id r') Hmut r _ vs); try done.
    + by rewrite <-Heq.
    + rewrite Forall_forall in Hch1. by apply Hch1.
    + apply Hbef. by right.
  - eapply (write_row_before_other table (emod_id r') Hmut r); try done. apply Hbef. by right.
Qed.

(** All versions of the key's id are in the key's region. *)
Definition in_region (table : Table) (key : EntityKey) (v : Version) : Prop :=
  v_id v = entity_id key → belongs_to_causality_region table (causality_region key) v = true.

Lemma find_view table key at_ vs :
  Forall ranged vs → Forall (in_region table key) vs →
  v_data <$> head (filter (λ v, find_matches table key at_ v = true) vs) =
  head (view (entity_id key) at_ vs).
Proof.
  intros Hrg Hin. unfold view. induction vs as [|v vs IH]; [done|].
  apply Forall_cons in Hrg as [[r Hr] Hrg]. apply Forall_cons in Hin as [Hv Hin].
  assert (find_matches table key at_ v = true ↔ v_id v = entity_id key ∧ exists_at at_ v = true) as Hm.
  { unfold find_matches. rewrite !andb_true_iff, bool_decide_eq_true.
    rewrite at_block_exists by (right; left; eauto). naive_solver. }
  rewrite !filter_cons.
  destruct (decide (find_matches table key at_ v = true)) as [Hf|Hf].
  - by rewrite decide_True by by apply Hm.
  - rewrite decide_False by (intros ?; apply Hf; by apply Hm). by apply IH.
Qed.

Lemma rows_seq_region table key rws vs vs' :
  immutable table = false → (∀ r, r ∈ rws → emod_id r = entity_id key → emod_key r = key) →
  Forall (in_region table key) vs → rows_seq table rws vs = Ok vs' → Forall (in_region table key) vs'.
Proof.
  intros Hmut. revert vs. induction rws as [|r rws IH]; intros vs Hkey Hin; simpl; [by intros [= <-]|].
  rewrite bind_ok. intros (vs1 & Hw & Hs). apply (IH vs1); [by intros; apply Hkey; [right|]| |done].
  unfold write_row in Hw. apply bind_ok in Hw as (vs0 & Hc & Hi).
  assert (Forall (in_region table key) vs0) as Hin0.
  { destruct (is_clamp r); [|by simplify_eq]. apply clamp_versions_ok in Hc as [_ ->].
    apply Forall_fmap. eapply Forall_impl; [done|]. intros v Hv. simpl. unfold in_region.
    rewrite clamp_fn_id. intros Hid. specialize (Hv Hid). unfold belongs_to_causality_region in *.
    unfold clamp_fn. repeat case_match; done. }
  destruct (as_write r) as [w|] eqn:Ew; [|by simplify_eq].
  apply insert_write_ok in Hi as (v & Hv & _ & _ & ->); [|done].
  apply Forall_app. split; [done|]. apply Forall_singleton. intros Hid.
  apply new_version_mut in Hv as (_ & Hvi & Hcr & _); [|done].
  assert (emod_key r = key) as Hk.
  { apply Hkey; [by left|]. destruct r; simplify_eq/=; congruence. }
  unfold belongs_to_causality_region. destruct (has_causality_region table); [|done].
  rewrite Hcr. apply Z.eqb_eq. destruct r; by simplify_eq/=.
Qed.

End Find.

Section Query.
  Context `{EnvVars} `{InputSchema} `{BuildConfig}.
  Context (value_too_large : list EntityWrite → bool) (layout : gmap EntityType Table).

(** What a read of the batch answers, with the answer of the store as fallback *)
Definition op_answer {E} (op : option EntityOp) (fallback : outcome E (option (Object Value)))
    : outcome E (option (Object Value)) :=
  match op with
  | Some (OpWrite _ e) => Ok (Some e)
  | Some (OpRemove _) => Ok None
  | None => fallback
  end.

Lemma written_query g key at_ db db' :
  layout_ok layout → db_ok db →
  group_wf g → chain (rows g) → group_type g = entity_type key →
  is_immutable (entity_type key) = false → id_determines_key g key →
  (∀ table, layout !! entity_type key = Some table →
     Forall (in_region table key) (db_versions db (entity_type key)) ∧
     (as_constraint table = true ∨ inserts_ok table (rows g) (db_versions db (entity_type key)))) →
  (∀ r, r ∈ rows g → Forall (before (emod_id r) (emod_block r)) (db_versions db (entity_type key))) →
  group_written layout g db db' →
  layout_find layout key at_ db' =
    op_answer (group_last_op g key at_) (layout_find layout key at_ db).
Proof.
  intros Hlayout Hdb Hg Hch Hty Him Hkey Htab Hbef (table & vs' & Ht & _ & Hs & Hl). rewrite Hty in *.
  destruct (Htab table Ht) as [Hin Hcon]. destruct (Hlayout _ _ Ht) as (_ & Himm & _). rewrite Him in Himm.
  pose proof (Hdb _ Him) as Hrg.
  rewrite last_op_fast, last_op_scan_id by (done || apply Hg).
  unfold layout_find, table_for_entity. rewrite Ht. simpl.
  pose proof Hg as (_ & _ & Hwf & _). rewrite Hty in Hwf.
  assert (db_versions db' (entity_type key) = vs') as -> by (unfold db_versions; by rewrite Hl).
  rewrite !find_view; try done; [|by eauto with rows|by eapply rows_seq_region].
  rewrite (rows_view table (entity_id key) Himm (rows g) at_ (db_versions db (entity_type key)) vs'
             (entity_type key)); try done.
  - destruct (rfind _ (rows g)) as [r|]; simpl; [|done]. by destruct (as_entity_op r at_).
  - intros r Hr Hid. rewrite <-Hid. by apply Hbef.
  - destruct Hcon as [Hcon|]; [|done]. by eapply constraint_inserts_ok.
Qed.


End Query.

(** ** Batches keep the rows of an entity in order *)

Section Ordered.
  Context `{EnvVars} `{InputSchema}.

Lemma chain_snoc rws row :
  chain (rws ++ [row]) ↔
  chain rws ∧ Forall (λ r, emod_id row = emod_id r → ends_by r (emod_block row)) rws.
Proof.
  induction rws as [|r rws IH]; simpl.
  { split; [|done]. intros _. split; [done|constructor]. }
  rewrite IH, Forall_app, Forall_singleton, Forall_cons. naive_solver.
Qed.

Lemma chain_set pre x x' post :
  emod_id x' = emod_id x → emod_block x' = emod_block x →
  Forall (λ r, emod_id r ≠ emod_id x) post →
  chain (pre ++ x :: post) → chain (pre ++ x' :: post).
Proof.
  intros Hid Hb Hpost. induction pre as [|r pre IH]; simpl.
  - intros [_ Hch]. split; [|done]. eapply Forall_impl; [done|]. simpl. intros r Hr Heq.
    exfalso. apply Hr. congruence.
  - intros [Hr Hch]. split; [|by apply IH]. rewrite Forall_app, Forall_cons in *. by rewrite Hid, Hb.
Qed.

Lemma row_within_mono lo hi hi' r : row_within lo hi r → hi ≤ hi' → row_within lo hi' r.
Proof. destruct r as [? ? ? []|? ? ? []|]; unfold row_within; simpl; lia. Qed.

Lemma ends_by_le r b c : ends_by r b → b ≤ c → ends_by r c.
Proof. destruct r as [? ? ? []|? ? ? []|]; simpl; lia. Qed.

(** All rows of the entity before its last row end before that row. *)
Lemma chain_last pre prev post b :
  chain (pre ++ prev :: post) → emod_block prev < b → ends_by prev b →
  Forall (λ r, emod_id r ≠ emod_id prev) post →
  Forall (λ r, emod_id prev = emod_id r → ends_by r b) (pre ++ prev :: post).
Proof.
  intros Hch Hlt Hend Hpost. rewrite Forall_app, Forall_cons. split_and!.
  - clear Hend. induction pre as [|r pre IH]; [constructor|]. destruct Hch as [Hr Hch].
    constructor; [|by apply IH]. intros Hid. rewrite Forall_app, Forall_cons in Hr.
    destruct Hr as (_ & Hp & _). apply (ends_by_le _ (emod_block prev)); [by apply Hp|lia].
  - done.
  - eapply Forall_impl; [done|]. simpl. congruence.
Qed.

(** Rows of the entity that are closed end by block [c]. *)
Definition closed_by (c : BlockNumber) (id : Id) (r : EntityModification) : Prop :=
  emod_id r = id → is_open r = false → ends_by r c.

Lemma close_row_ends r b : is_open r = true → ends_by (close_row r b) b.
Proof. destruct r as [? ? ? []|? ? ? []|]; simpl; done || lia. Qed.

Lemma append_row_chain g row g' :
  is_immutable (group_type g) = false → last_mod_ok g → chain (rows g) →
  Forall (closed_by (emod_block row) (emod_id row)) (rows g) →
  append_row row g = (g', Ok tt) → chain (rows g').
Proof.
  intros Him Hlm Hch Hcl Happ.
  destruct (append_row_cases _ _ _ Him Hlm Happ) as
    [Hnew|pre prev post Hrows Hid Hpost Hltp Hopen Hcr|pre prev post Hrows Hid Hpost Hltp Hopen Hcr
    |pre prev post key data b e Hrows Hid Hpost Hltp Hopen ->|pre prev post key b Hrows Hid Hpost Hltp Hopen ->].
  - apply chain_snoc. split; [done|]. eapply Forall_impl; [done|]. simpl. congruence.
  - apply chain_snoc. split; [done|]. rewrite Hrows in Hch, Hcl |- *. rewrite <-Hid in *.
    apply chain_last; try done. apply Forall_app in Hcl as [_ [Hp _]%Forall_cons]. by apply Hp.
  - done.
  - unfold push_row. cbn [rows]. rewrite (rows_set_row _ _ _ _ _ Hrows). rewrite Hrows in Hch.
    rewrite <-Hid in Hpost. assert (chain (pre ++ close_row prev b :: post)) as Hch'.
    { eapply chain_set; [apply close_row_id|apply close_row_block|done|done]. }
    apply chain_snoc. split; [done|]. simpl in Hid.
    change (emod_id (Insert key data b e)) with (entity_id key).
    change (emod_block (Insert key data b e)) with b. rewrite <-Hid, <-(close_row_id prev b).
    apply chain_last; try done; [by rewrite close_row_block|by apply close_row_ends|by rewrite close_row_id].
  - rewrite (rows_set_row _ _ _ _ _ Hrows). rewrite Hrows in Hch. rewrite <-Hid in Hpost.
    eapply chain_set; [apply close_row_id|apply close_row_block|done|done].
Qed.

(** The rows after an append: those before, possibly closed by the new row,
    and the new row, possibly as an insert. *)
Lemma append_row_forall (P : EntityModification → Prop) g row g' :
  is_immutable (group_type g) = false → last_mod_ok g →
  (∀ key data b e, row = Overwrite key data b e → P row → P (Insert key data b e)) →
  (∀ r, P r → P row → is_open r = true → emod_id r = emod_id row → P (close_row r (emod_block row))) →
  Forall P (rows g) → P row → append_row row g = (g', Ok tt) → Forall P (rows g').
Proof.
  intros Him Hlm Hins Hcl HP Hrow Happ.
  assert (Forall P (rows g ++ [row])) as Hpush by by apply Forall_app_2, Forall_singleton.
  destruct (append_row_cases _ _ _ Him Hlm Happ) as
    [Hnew|pre prev post Hrows Hid Hpost Hltp Hopen Hcr|pre prev post Hrows Hid Hpost Hltp Hopen Hcr
    |pre prev post key data b e Hrows Hid Hpost Hltp Hopen ->|pre prev post key b Hrows Hid Hpost Hltp Hopen ->];
    try done.
  - unfold push_row. cbn [rows]. rewrite (rows_set_row _ _ _ _ _ Hrows). rewrite Hrows in HP.
    apply Forall_app in HP as [Hpre [Hp Hpo]%Forall_cons].
    apply Forall_app_2; [|by apply Forall_singleton, (Hins _ _ _ _ eq_refl)].
    apply Forall_app_2; [done|]. constructor; [|done]. by apply Hcl.
  - rewrite (rows_set_row _ _ _ _ _ Hrows). rewrite Hrows in HP.
    apply Forall_app in HP as [Hpre [Hp Hpo]%Forall_cons].
    apply Forall_app_2; [done|]. constructor; [|done]. by apply Hcl.
Qed.

Lemma append_row_within g row g' lo hi :
  is_immutable (group_type g) = false → last_mod_ok g →
  Forall (row_within lo hi) (rows g) → row_within lo hi row →
  append_row row g = (g', Ok tt) → Forall (row_within lo hi) (rows g').
Proof.
  intros Him Hlm. apply append_row_forall; [done..| |].
  - by intros key data b e -> ?.
  - intros r [Hr _] [[_ Hb] _] Hopen _. split; [by rewrite close_row_block|].
    destruct r as [? ? ? []|? ? ? []|]; done.
Qed.

Lemma append_row_closed g row g' c id :
  is_immutable (group_type g) = false → last_mod_ok g →
  Forall (closed_by c id) (rows g) → closed_by c id row → (emod_id row = id → emod_block row ≤ c) →
  append_row row g = (g', Ok tt) → Forall (closed_by c id) (rows g').
Proof.
  intros Him Hlm Hg Hrow Hle. apply append_row_forall; try done.
  - intros key data b e -> Hr Hid Hop. apply Hr; [done|]. by destruct e.
  - intros r _ _ Hopen Hid. intros Hcid _. rewrite close_row_id in Hcid.
    eapply ends_by_le; [by apply close_row_ends|]. apply Hle. congruence.
Qed.

Lemma append_rows_chain rws g g' lo hi :
  is_immutable (group_type g) = false → group_wf g → Forall (row_wf (group_type g)) rws →
  chain (rows g) → chain rws →
  (∀ r, r ∈ rws → Forall (closed_by (emod_block r) (emod_id r)) (rows g)) →
  Forall (row_within lo hi) (rows g) → Forall (row_within lo hi) rws →
  st_for append_row rws g = (g', Ok tt) →
  chain (rows g') ∧ Forall (row_within lo hi) (rows g').
Proof.
  revert g. induction rws as [|row rws IH]; intros g Him Hg Hwf Hch Hchr Hcl Hwi Hwir Happ.
  { by apply st_for_nil_ok in Happ as ->. }
  apply Forall_cons in Hwf as [Hrow Hwf]. apply Forall_cons in Hwir as [Hwrow Hwir].
  destruct Hchr as [Hr Hchr]. apply st_for_cons_ok in Happ as (g1 & Hrow1 & Happ).
  pose proof Hg as (Hlm & _).
  destruct (append_row_group_wf g row g1 Hg Hrow) as [Hg1 Ht1]; [congruence|done|].
  apply (IH g1); rewrite ?Ht1; try done.
  - eapply append_row_chain; [done..| |done]. apply Hcl. by left.
  - intros r Hrin. eapply append_row_closed; [done..| | | |done].
    + apply Hcl. by right.
    + intros Hid _. rewrite Forall_forall in Hr. by apply Hr.
    + intros Hid. rewrite Forall_forall in Hr. specialize (Hr r Hrin (eq_sym Hid)).
      destruct Hrow as (_ & _ & _ & Hrow). destruct row as [? ? ? []|? ? ? []|]; simpl in *; lia.
  - by eapply append_row_within.
Qed.

Lemma append_rows_imm_within rws g g' lo hi :
  is_immutable (group_type g) = true →
  Forall (row_within lo hi) (rows g) → Forall (row_within lo hi) rws →
  st_for append_row rws g = (g', Ok tt) → Forall (row_within lo hi) (rows g').
Proof.
  intros Him Hg Hrws. revert g Him Hg. induction Hrws as [|row rws Hrow _ IH]; intros g Him Hg Happ.
  { by apply st_for_nil_ok in Happ as ->. }
  apply st_for_cons_ok in Happ as (g1 & Hrow1 & Happ).
  assert (group_type g1 = group_type g ∧ (rows g1 = rows g ∨ rows g1 = rows g ++ [row])) as [Ht Hr].
  { revert Hrow1. clear -Him. unfold append_row, append_row_immutable. rewrite Him.
    repeat case_match; intros; simplify_eq/=; auto. }
  apply (IH g1); [congruence| |done]. destruct Hr as [-> | ->]; [done|]. by apply Forall_app_2, Forall_singleton.
Qed.

(** Groups and batches whose rows are in order *)
Definition group_ordered (lo hi : BlockNumber) (g : RowGroup) : Prop :=
  (is_immutable (group_type g) = false → chain (rows g)) ∧ Forall (row_within lo hi) (rows g).

Definition batch_ordered (b : Batch) : Prop :=
  first_block b ≤ ptr_number (block_ptr b) ∧
  Forall (group_ordered (first_block b) (ptr_number (block_ptr b))) (groups (mods b)).

Lemma group_new_ordered lo hi t : group_ordered lo hi (group_new t).
Proof. split; [done|constructor]. Qed.

Lemma within_closed_by lo hi r c id : row_within lo hi r → hi ≤ c → closed_by c id r.
Proof. intros [Hb He] Hc Hid Hop. destruct r as [? ? ? []|? ? ? []|]; simpl in *; done || lia. Qed.

Lemma group_append_ordered lo hi lo2 hi2 g1 g2 g' :
  group_wf g1 → group_wf g2 → group_ordered lo hi g1 → group_ordered lo2 hi2 g2 →
  lo ≤ lo2 → hi < lo2 → hi ≤ hi2 → group_append g2 g1 = (g', Ok tt) → group_ordered lo hi2 g'.
Proof.
  intros Hg1 Hg2 [Hc1 Hw1] [Hc2 Hw2] Hlo Hlt Hle Happ.
  destruct (group_append_wf g1 g2 g' Hg1 Hg2 Happ) as (_ & Ht & _).
  unfold group_append in Happ. case_decide as Hteq; [done|].
  assert (Forall (row_within lo hi2) (rows g1)) as Hw1'.
  { eapply Forall_impl; [exact Hw1|]. intros r Hr. by eapply row_within_mono. }
  assert (Forall (row_within lo hi2) (rows g2)) as Hw2'.
  { eapply Forall_impl; [exact Hw2|]. intros r [[Hb1 Hb2] He]. split; [lia|done]. }
  unfold group_ordered. rewrite Ht. destruct (is_immutable (group_type g1)) eqn:Him.
  { split; [done|]. by eapply append_rows_imm_within. }
  assert (chain (rows g') ∧ Forall (row_within lo hi2) (rows g')) as [? ?]; [|done].
  eapply (append_rows_chain (rows g2) g1); try done.
  - rewrite Hteq. apply Hg2.
  - by apply Hc1.
  - apply Hc2. congruence.
  - intros r Hr. rewrite Forall_forall in Hw2. destruct (Hw2 r Hr) as [[Hb _] _].
    eapply Forall_impl; [exact Hw1|]. intros r0 Hr0. eapply within_closed_by; [done|lia].
Qed.

Lemma groups_append_ordered lo hi lo2 hi2 B1 B2 B :
  groups_wf (groups B1) → groups_wf (groups B2) →
  Forall (group_ordered lo hi) (groups B1) → Forall (group_ordered lo2 hi2) (groups B2) →
  lo ≤ lo2 → hi < lo2 → hi ≤ hi2 → groups_append B2 B1 = (B, Ok tt) →
  Forall (group_ordered lo hi2) (groups B).
Proof.
  intros HB1 HB2 Ho1 Ho2 Hlo Hlt Hle Happ.
  destruct (groups_append_spec B1 B2 B) as [Hnd Hall]; [apply HB1|apply HB2|done|].
  apply Forall_forall. intros g Hg. specialize (Hall (group_type g)).
  assert (groups_group B (group_type g) = Some g) as HgB by by apply groups_group_Some.
  assert (∀ t g1, groups_group B1 t = Some g1 → group_wf g1 ∧ group_ordered lo hi g1) as HG1.
  { intros t g1 E1. split; [by destruct (groups_wf_group B1 t g1 HB1 E1)|]. apply groups_group_Some in E1 as [Hin _]; [|apply HB1].
    rewrite Forall_forall in Ho1. by apply Ho1. }
  destruct (groups_group B2 (group_type g)) as [g2|] eqn:E2.
  - destruct Hall as (g' & Hga & Hg'). rewrite HgB in Hg'. injection Hg' as <-.
    destruct (groups_wf_group _ _ _ HB2 E2) as [Hg2 _].
    assert (group_ordered lo2 hi2 g2) as Hg2o.
    { apply groups_group_Some in E2 as [Hin _]; [|apply HB2]. rewrite Forall_forall in Ho2. by apply Ho2. }
    destruct (groups_group B1 (group_type g)) as [g1|] eqn:E1; simpl in Hga.
    + destruct (HG1 _ _ E1) as [Hg1 Hg1o]. by eapply (group_append_ordered lo hi lo2 hi2 g1 g2).
    + eapply (group_append_ordered lo hi lo2 hi2 _ g2 g (group_new_wf _) Hg2 (group_new_ordered _ _ _)); done.
  - rewrite HgB in Hall. destruct (HG1 _ _ (eq_sym Hall)) as [_ [Hc Hw]].
    split; [done|]. eapply Forall_impl; [exact Hw|]. intros r Hr. by eapply row_within_mono.
Qed.

Lemma batch_append_ordered mods_weight batch self self' :
  groups_wf (groups (mods self)) → groups_wf (groups (mods batch)) →
  batch_ordered self → batch_ordered batch → ptr_number (block_ptr self) < first_block batch →
  batch_append mods_weight batch self = (self', Ok tt) → batch_ordered self'.
Proof.
  intros Hw1 Hw2 [Hb1 Ho1] [Hb2 Ho2] Hlt Happ.
  destruct (batch_append_mods _ _ _ _ Happ) as (Hmods & Hp & Hf & _). unfold batch_ordered.
  rewrite Hp, Hf. split; [lia|]. eapply groups_append_ordered; [exact Hw1|exact Hw2|exact Ho1|exact Ho2|..|done]; lia.
Qed.

Lemma group_push_ordered m b g g' :
  group_wf g → group_type g = entity_type (emod_key m) → raw_mod_ok m → emod_block m = b →
  group_ordered b b g → group_push m b g = (g', Ok tt) → group_ordered b b g'.
Proof.
  intros Hg Ht Hm Hb [Hch Hw] Hpush. destruct (group_push_wf m b g g' Hg Ht Hm Hpush) as [_ Ht'].
  unfold group_push in Hpush. destruct (negb _); [done|].
  destruct Hm as (Hrow & Hopen & _). rewrite <-Ht in Hrow.
  assert (row_within b b m) as Hwm by (split; [lia|by destruct m as [? ? ? []|? ? ? []|]]).
  assert (st_for append_row [m] g = (g', Ok tt)) as Hst.
  { apply st_for_cons_ok. exists g'. by rewrite st_for_nil_ok. }
  unfold group_ordered. rewrite Ht'. destruct (is_immutable (group_type g)) eqn:Him.
  { split; [done|]. eapply (append_rows_imm_within [m] g); try done. by apply Forall_singleton. }
  assert (chain (rows g') ∧ Forall (row_within b b) (rows g')) as [? ?]; [|done].
  eapply (append_rows_chain [m] g); try done.
  - by apply Forall_singleton.
  - by apply Hch.
  - intros r ->%list_elem_of_singleton. eapply Forall_impl; [exact Hw|].
    intros r0 Hr0. eapply within_closed_by; [done|lia].
  - by apply Forall_singleton.
Qed.

Lemma batch_new_ordered `{UnstableSort} mods_weight ptr time cursor raw_mods dss errors to_remove nonfatal b :
  Forall raw_mod_ok raw_mods → Forall (λ m, emod_block m = ptr_number ptr) raw_mods →
  batch_new mods_weight ptr time cursor raw_mods dss errors to_remove nonfatal = Ok b → batch_ordered b.
Proof.
  intros Hraw Hbl. unfold batch_new.
  destruct (st_for _ _ groups_new) as [gs [[]| |]] eqn:Est; try done. intros [= <-].
  unfold batch_ordered. simpl. split; [done|].
  destruct (push_mods_inv (λ g, group_wf g ∧ group_ordered (ptr_number ptr) (ptr_number ptr) g)
     (λ m, raw_mod_ok m ∧ emod_block m = ptr_number ptr) (ptr_number ptr)
     (sort_unstable_by_key sort_rank raw_mods) groups_new gs) as [_ Hall]; try done.
  - intros m g g' [Hm Hb] Ht [Hg Ho] Hp. split; [by destruct (group_push_wf m (ptr_number ptr) g g')|].
    by eapply group_push_ordered.
  - rewrite sort_unstable_perm. by apply Forall_and.
  - apply NoDup_nil_2.
  - eapply Forall_impl; [exact Hall|]. by intros g [_ ?].
Qed.

End Ordered.

(** ** Witnesses *)

Module ReadSample.
Import BatchSample.
#[local] Existing Instances sample_env sample_schema sample_build.

(** The two batches of the sample deployment in one group *)
Definition users : RowGroup := (append_row overwrite_bob ann_group).1.
Definition users_db : gmap EntityType (list Version) := written (rows users) ∅.

Lemma ann_group_wf : group_wf ann_group.
Proof. apply push_row_wf; [apply group_new_wf| |by intros; constructor|done]. split_and!; try done. exact (conj ann_wf I). Defined.

Lemma users_wf : group_wf users.
Proof.
  destruct (append_row_group_wf ann_group overwrite_bob users ann_group_wf) as [Hg _]; [|done|by vm_compute|done].
  split_and!; try done. exact (conj bob_wf I).
Defined.

Lemma users_key : id_determines_key users u1.
Proof. intros r Hr _. by repeat (apply elem_of_cons in Hr as [-> | Hr]; [done|]); apply elem_of_nil in Hr. Defined.

Lemma last_op_fast_path_witness : group_last_op users u1 7 = last_op_scan users u1 7.
Proof. apply last_op_fast_path; [exact users_wf|exact users_key]. Defined.

Lemma last_op_crosses_regions_witness :
  let g := push_row (group_new user) (Insert (mkEntityKey user (IdString "f") 3) ann 5 None) in
  group_last_op g (mkEntityKey user (IdString "f") ONCHAIN) 8 =
    Some (OpWrite (mkEntityKey user (IdString "f") 3) ann) ∧
  last_op_scan g (mkEntityKey user (IdString "f") ONCHAIN) 8 = None.
Proof. apply (last_op_crosses_regions user (IdString "f") 3 ONCHAIN 8 ann 5); [done|done|lia]. Defined.

(** An account-like table *)
Definition account_table : Table := mkTable user (columns user_table) true false false false true.

Lemma brin_clause_redundant_witness :
  at_block account_table 5 false (mkVersion (Some 1) (IdString "u1") ONCHAIN ann (RangeCol (RRange 2 (Some 7)))) =
    range_contains (RRange 2 (Some 7)) 5.
Proof. by apply (brin_clause_redundant account_table 5 false). Defined.


End ReadSample.
