(* ===== verification/RevertFacts.v ===== *)
(** * Reverting blocks

    [Layout::revert_block] removes the versions that blocks from a given one
    on have written, and makes the versions current again that these blocks
    had closed.  This file shows that it undoes exactly what the batches of
    these blocks have written, and what queries find afterwards.  The change
    of the entity count that [revert_block] reports is right when one block is
    reverted; the last part shows that it is not right in general. *)

From Stdlib Require Import ZArith Lia ZifyBool.
From stdpp Require Import base gmap list strings.
From S2P Require Import Prelude Values Intern InternFacts Entity EntityFacts.
From S2P Require Import Write WriteFacts Relational RelationalFacts AppendFacts BatchFacts ReadFacts.

Local Open Scope Z_scope.

(** ** What queries find after a revert *)

(** Block ranges as the store writes them *)
Definition range_ok (v : Version) : Prop :=
  match v_block v with
  | RangeCol (RRange _ (Some u)) => u < BLOCK_NUMBER_MAX
  | _ => True
  end.

Lemma unclamp_version_fields b v :
  v_id (unclamp_version b v) = v_id v ∧ v_data (unclamp_version b v) = v_data v.
Proof. unfold unclamp_version. repeat case_match; done. Qed.

Lemma revert_exists block b v :
  ranged v → range_ok v → changed_since block v = false →
  exists_at b (unclamp_version (block - 1) v) = exists_at (Z.min b (block - 1)) v.
Proof.
  intros [r Hr] Hok Hch. unfold unclamp_version, unclamps, exists_at, changed_since, range_ok in *.
  rewrite Hr in *. destruct r as [|l [u|]]; simpl in *; rewrite ?Hr; simpl; [done|..];
  match goal with |- context [if ?c then _ else _] => destruct c eqn:Ec end; simpl; rewrite ?Hr; simpl; lia.
Qed.

Section View.
  Context (table : Table) (id : Id).

Lemma view_fmap_filter (P : Version → Prop) `{!∀ v, Decision (P v)} (f : Version → Version) b c vs :
  (∀ v, v ∈ vs → v_id (f v) = v_id v ∧ v_data (f v) = v_data v) →
  (∀ v, v ∈ vs → P v → exists_at b (f v) = exists_at c v) →
  (∀ v, v ∈ vs → ¬ P v → exists_at c v = false) →
  view id b (f <$> filter P vs) = view id c vs.
Proof.
  unfold view. induction vs as [|v vs IH]; intros Hf Hk Hd; [done|].
  assert (v_data <$> filter (λ v, v_id v = id ∧ exists_at b v = true) (f <$> filter P vs) =
          v_data <$> filter (λ v, v_id v = id ∧ exists_at c v = true) vs) as IH'.
  { apply IH; intros x Hx; [apply Hf|apply Hk|apply Hd]; by right. }
  destruct (Hf v) as [Hi Hdt]; [by left|]. destruct (decide (P v)) as [HP|HP].
  - rewrite (filter_cons_True P) by done. rewrite fmap_cons, !filter_cons.
    rewrite Hi, (Hk v) by (by left || done). case_decide; [|done]. rewrite !fmap_cons. by rewrite Hdt, IH'.
  - rewrite (filter_cons_False P) by done. rewrite filter_cons_False; [done|].
    rewrite (Hd v) by (by left || done). naive_solver.
Qed.

Lemma exists_changed block v : changed_since block v = true → ∀ c, c < block → exists_at c v = false.
Proof.
  unfold changed_since, exists_at. destruct (v_block v) as [l|[|l [u|]]]; simpl; intros; try done; lia.
Qed.

(** C24: what queries find after a revert.  After [revert_block] of block [n],
    a query at any block before [n] finds what it found before the revert,
    and a query at block [n] or later finds what existed at block [n - 1]. *)
Theorem revert_table_view n b vs :
  immutable table = false → Forall ranged vs → Forall range_ok vs →
  view id b (revert_table table n vs).1 = view id (Z.min b (n - 1)) vs.
Proof.
  intros Hmut Hrg Hok. unfold revert_table, revert_remove, revert_clamp. rewrite Hmut. simpl.
  rewrite Forall_forall in Hrg. rewrite Forall_forall in Hok.
  apply view_fmap_filter.
  - intros v _. apply unclamp_version_fields.
  - intros v Hv Hch. apply revert_exists; auto.
  - intros v Hv Hch. apply not_false_iff_true in Hch. eapply exists_changed; [done|lia].
Qed.

End View.

(** ** A revert undoes what was written *)

(** All that has happened to the version happened before block [n]. *)
Definition settled (n : BlockNumber) (v : Version) : Prop :=
  match v_block v with
  | BlockCol l => l < n
  | RangeCol (RRange l u) => l < n ∧ match u with Some u => u < n | None => True end
  | RangeCol REmpty => True
  end.

(** The version after the blocks from [n] on: closed by one of them if it was
    current and one of the ids that they clamped. *)
Definition touched (n : BlockNumber) (ids : list Id) (v0 v : Version) : Prop :=
  if decide (v_id v0 ∈ ids ∧ latest v0 = true) then
    ∃ l u, v_block v0 = RangeCol (RRange l None) ∧ n ≤ u < BLOCK_NUMBER_MAX ∧
      v = mkVersion (v_vid v0) (v_id v0) (v_cr v0) (v_data v0) (RangeCol (RRange l (Some u)))
  else v = v0.

Lemma touched_clamp n ids id b v0 v :
  ranged v0 → settled n v0 → n ≤ b < BLOCK_NUMBER_MAX → touched n ids v0 v →
  touched n (ids ++ [id]) v0 (clamp_fn [id] b v).
Proof.
  intros [r Hr] Hs Hb. unfold touched.
  destruct (decide (v_id v0 ∈ ids ∧ latest v0 = true)) as [[Hin Hl]|Hn].
  - intros (l & u & Hv0 & Hu & ->). rewrite decide_True by set_solver. exists l, u. split_and!; try done; try lia.
    unfold clamp_fn. simpl. unfold latest. simpl.
    replace ((l <=? BLOCK_NUMBER_MAX) && (BLOCK_NUMBER_MAX <? u)) with false by lia. by rewrite andb_false_r.
  - intros ->. unfold clamp_fn. destruct (decide (v_id v0 = id)) as [Hid|Hid].
    + rewrite bool_decide_true by set_solver. simpl. destruct (latest v0) eqn:El.
      2:{ rewrite decide_False by naive_solver. done. }
      rewrite decide_True by set_solver. unfold latest, settled in *. rewrite Hr in *.
      destruct r as [|l [u|]]; simpl in *; try done; [lia|]. exists l, b. split_and!; try done; try lia.
      by replace (l <? b) with true by lia.
    + rewrite bool_decide_false by set_solver. simpl. rewrite decide_False by set_solver. done.
Qed.

Section Undo.
  Context (table : Table) (t : EntityType) `{InputSchema} `{BuildConfig} (n : BlockNumber).

(** The version that a row writes *)
Definition row_version (r : EntityModification) (v : Version) : Prop :=
  ∃ w, as_write r = Some w ∧ new_version table w = Some v.

Lemma row_version_id r v : row_version r v → v_id v = emod_id r.
Proof. intros (w & Hw & Hv). rewrite (new_version_id _ _ _ Hv). by destruct r; simplify_eq/=. Qed.

Section Mutable.
  Hypothesis Hmut : immutable table = false.

Lemma row_version_ended r v b :
  row_version r v → row_wf t r → ends_by r b → latest v = false.
Proof.
  intros (w & Hw & Hv) (_ & _ & _ & Hr) Hends. apply new_version_mut in Hv as (_ & _ & _ & Hb); [|done].
  unfold latest. destruct r as [k d bl [e|]|k d bl [e|]|k bl]; simplify_eq/=; try done; rewrite Hb by lia; simpl; lia.
Qed.

Lemma row_version_changed r v : row_version r v → row_wf t r → n ≤ emod_block r → changed_since n v = true.
Proof.
  intros (w & Hw & Hv) (_ & _ & _ & Hr) Hn. apply new_version_mut in Hv as (_ & _ & _ & Hb); [|done].
  unfold changed_since.
  destruct r as [k d bl [e|]|k d bl [e|]|k bl]; simplify_eq/=; rewrite Hb by lia; simpl; lia.
Qed.

(** The versions after rows of blocks from [n] on have been written: those
    before, some of them closed, and one for each write. *)
Lemma rows_seq_shape rws vs0 vs :
  chain rws → Forall (row_wf t) rws → Forall (λ r, n ≤ emod_block r < BLOCK_NUMBER_MAX) rws →
  Forall ranged vs0 → Forall (settled n) vs0 → rows_seq table rws vs0 = Ok vs →
  ∃ old new, vs = old ++ new ∧
    Forall2 (touched n (emod_id <$> filter (λ r, is_clamp r = true) rws)) vs0 old ∧
    Forall2 row_version (filter (λ r, is_write r = true) rws) new.
Proof.
  intros Hch Hwf Hbl Hrg Hset. revert vs. induction rws as [|r rws IH] using rev_ind; intros vs.
  { simpl. intros [= <-]. exists vs0, []. rewrite app_nil_r. split_and!; [done| |constructor].
    apply Forall_Forall2_diag, Forall_true. intros v. unfold touched. rewrite decide_False; [done|]. set_solver. }
  rewrite rows_seq_app. intros (vs1 & Hs1 & Hs). simpl in Hs. apply bind_ok in Hs as (vs2 & Hw & [= ->]).
  apply chain_snoc in Hch as [Hch Hlast]. apply Forall_app in Hwf as [Hwf [Hr _]%Forall_cons].
  apply Forall_app in Hbl as [Hbl [Hb _]%Forall_cons].
  destruct (IH Hch Hwf Hbl _ Hs1) as (old & new & -> & Hold & Hnew). rewrite !filter_app, fmap_app.
  apply bind_ok in Hw as (vs3 & Hc & Hi).
  assert (∃ old', vs3 = old' ++ new ∧ Forall2 (touched n ((emod_id <$> filter (λ r, is_clamp r = true) rws) ++
            (emod_id <$> filter (λ r, is_clamp r = true) [r]))) vs0 old') as (old' & -> & Hold').
  { rewrite filter_cons. destruct (is_clamp r) eqn:Ec.
    - rewrite decide_True by done. apply clamp_versions_ok in Hc as [_ ->]. rewrite fmap_app.
      exists (clamp_fn [emod_id r] (emod_block r) <$> old). split.
      + f_equal. apply fmap_id_on. intros v Hv.
        apply list_elem_of_lookup in Hv as [i Hi']. destruct (Forall2_lookup_r _ _ _ _ _ Hnew Hi') as (r0 & Hr0 & Hv0).
        unfold clamp_fn.
        destruct (decide (v_id v = emod_id r)) as [Hid|Hid]; [|by rewrite bool_decide_false by set_solver].
        rewrite (row_version_id _ _ Hv0) in Hid.
        apply list_elem_of_lookup_2, list_elem_of_filter in Hr0 as [_ Hr0].
        rewrite Forall_forall in Hlast. rewrite Forall_forall in Hwf.
        rewrite (row_version_ended r0 v (emod_block r)); auto. by rewrite andb_false_r.
      + apply Forall2_fmap_r. eapply (Forall2_impl_l (λ v, ranged v ∧ settled n v)); [by apply Forall_and|exact Hold|].
        intros v0 v [? ?] ?. simpl. by apply touched_clamp.
    - rewrite decide_False by done. injection Hc as <-. exists old. by rewrite app_nil_r. }
  rewrite (filter_cons (λ r, is_write r = true)). destruct (as_write r) as [w|] eqn:Ew.
  - rewrite decide_True by by destruct r. apply insert_write_ok in Hi as (v & Hv & _ & _ & ->); [|done].
    exists old', (new ++ [v]). rewrite app_assoc. split_and!; try done.
    apply Forall2_app; [done|]. constructor; [|constructor]. by exists w.
  - rewrite decide_False by by destruct r. injection Hi as <-. exists old', new. split_and!; try done.
    by rewrite app_nil_r.
Qed.

(** Reverting a version that the blocks from [n] on may have closed *)
Lemma revert_touched ids v0 v :
  n ≤ BLOCK_NUMBER_MAX → ranged v0 → settled n v0 → touched n ids v0 v →
  changed_since n v = false ∧ unclamp_version (n - 1) v = v0 ∧ v_id v = v_id v0 ∧
  (unclamps (n - 1) v = true ↔ v_id v0 ∈ ids ∧ latest v0 = true).
Proof.
  intros Hn [r Hr] Hs. unfold touched. case_decide as Hd.
  - intros (l & u & Hv0 & Hu & ->). unfold settled in Hs. rewrite Hv0 in Hs.
    assert (unclamps (n - 1) (mkVersion (v_vid v0) (v_id v0) (v_cr v0) (v_data v0)
              (RangeCol (RRange l (Some u)))) = true) as Hun by (unfold unclamps; simpl; lia).
    unfold changed_since, unclamp_version. rewrite Hun. simpl.
    split_and!; [lia| |done|done]. destruct v0. simpl in *. by rewrite Hv0.
  - intros ->. unfold changed_since, unclamp_version, settled, latest in *. rewrite Hr in *.
    assert (unclamps (n - 1) v0 = false) as ->.
    { unfold unclamps. rewrite Hr. destruct r as [|l [u|]]; simpl in *; [done|lia..]. }
    split_and!; [|done..]. destruct r as [|l u]; simpl in *; [done|lia].
Qed.

Lemma revert_shape ids vs0 old new :
  n ≤ BLOCK_NUMBER_MAX → Forall ranged vs0 → Forall (settled n) vs0 →
  Forall2 (touched n ids) vs0 old → Forall (λ v, changed_since n v = true) new →
  let R := list_to_set (v_id <$> new) : gset Id in
  let U := list_to_set (v_id <$> filter (λ v, v_id v ∈ ids ∧ latest v = true) vs0) : gset Id in
  revert_table table n (old ++ new) = (vs0, Z.of_nat (size (U ∖ R)) - Z.of_nat (size (R ∖ U))).
Proof.
  intros Hn Hrg Hset Hold Hnew R U. unfold revert_table, revert_remove, revert_clamp. rewrite Hmut.
  assert (Forall2 (λ v0 v, changed_since n v = false ∧ unclamp_version (n - 1) v = v0 ∧ v_id v = v_id v0 ∧
    (unclamps (n - 1) v = true ↔ v_id v0 ∈ ids ∧ latest v0 = true)) vs0 old) as Hall.
  { eapply (Forall2_impl_l (λ v, ranged v ∧ settled n v)); [by apply Forall_and|exact Hold|]. intros v0 v [? ?] ?. by apply revert_touched. }
  clear Hold. rewrite Forall_forall in Hnew. rewrite !filter_app.
  rewrite (filter_none _ new), (filter_all _ new), app_nil_r by (intros v Hv; rewrite Hnew; done).
  assert (filter (λ v, changed_since n v = false) old = old ∧ filter (λ v, changed_since n v = true) old = [] ∧
    unclamp_version (n - 1) <$> old = vs0 ∧
    v_id <$> filter (λ v, unclamps (n - 1) v = true) old =
    v_id <$> filter (λ v, v_id v ∈ ids ∧ latest v = true) vs0) as (H1 & H2 & H3 & H4).
  2:{ rewrite H1, H2. cbn [app fst snd]. by rewrite H3, filter_nil, app_nil_r, H4. }
  clear -Hall. induction Hall as [|v0 v vs0 old (Hc & Hu & Hi & Hun) _ (IH1 & IH2 & IH3 & IH4)]; [done|].
  rewrite !filter_cons, fmap_cons, IH1, IH2, IH3, Hu. rewrite decide_True, decide_False by congruence.
  split_and!; try done. destruct (decide (v_id v0 ∈ ids ∧ latest v0 = true)) as [Hd|Hd].
  - rewrite decide_True by by apply Hun. rewrite !fmap_cons. by rewrite Hi, IH4.
  - rewrite decide_False by (by rewrite Hun). done.
Qed.

Lemma revert_rows rws vs0 vs :
  n ≤ BLOCK_NUMBER_MAX → chain rws → Forall (row_wf t) rws →
  Forall (λ r, n ≤ emod_block r < BLOCK_NUMBER_MAX) rws →
  Forall ranged vs0 → Forall (settled n) vs0 → rows_seq table rws vs0 = Ok vs →
  let R := list_to_set (emod_id <$> filter (λ r, is_write r = true) rws) : gset Id in
  let U := list_to_set (v_id <$> filter (λ v, v_id v ∈ emod_id <$> filter (λ r, is_clamp r = true) rws
                                               ∧ latest v = true) vs0) : gset Id in
  revert_table table n vs = (vs0, Z.of_nat (size (U ∖ R)) - Z.of_nat (size (R ∖ U))).
Proof.
  intros Hn Hch Hwf Hbl Hrg Hset Hs.
  destruct (rows_seq_shape rws vs0 vs) as (old & new & -> & Hold & Hnew); [done..|].
  assert (Forall (λ v, changed_since n v = true) new) as Hchg.
  { apply Forall_forall. intros v Hv. apply list_elem_of_lookup in Hv as [i Hi].
    destruct (Forall2_lookup_r _ _ _ _ _ Hnew Hi) as (r & Hr & Hv).
    apply list_elem_of_lookup_2, list_elem_of_filter in Hr as [_ Hr].
    rewrite Forall_forall in Hwf. rewrite Forall_forall in Hbl.
    eapply row_version_changed; [done|by apply Hwf|by apply Hbl]. }
  assert (v_id <$> new = emod_id <$> filter (λ r, is_write r = true) rws) as Hids.
  { clear -Hnew. induction Hnew as [|r v ? ? Hv _ IH]; [done|]. rewrite !fmap_cons, IH.
    by rewrite (row_version_id _ _ Hv). }
  rewrite <-Hids. by apply revert_shape.
Qed.

End Mutable.

(** An immutable table: the versions of the rows are removed again. *)
Lemma revert_rows_imm rws vs0 vs :
  immutable table = true → Forall plain_insert rws → Forall (λ r, n ≤ emod_block r) rws →
  Forall (λ v, changed_since n v = false) vs0 → rows_seq table rws vs0 = Ok vs →
  (revert_table table n vs).1 = vs0.
Proof.
  intros Him Hpl Hbl Hset Hs.
  assert (filter (λ v, changed_since n v = false) vs = filter (λ v, changed_since n v = false) vs0) as Hf.
  { clear Hset. revert vs0 Hs. induction rws as [|r rws IH]; intros vs0; simpl; [by intros [= <-]|].
    rewrite bind_ok. intros (vs1 & Hw & Hs). apply Forall_cons in Hpl as [[Hop Hcr] Hpl].
    apply Forall_cons in Hbl as [Hb Hbl]. rewrite (IH Hpl Hbl _ Hs). clear IH Hs.
    destruct r as [k d b [e|]| |]; try done. unfold write_row, insert_write, insert_version in Hw. simpl in Hw.
    destruct (entity_vid d) as [vid|[]|]; try done. unfold block_range_value in Hw. rewrite Him in Hw. simpl in Hw.
    destruct (existsb _ vs0); [destruct (table_skip_duplicates table); by simplify_eq|].
    destruct (existsb _ vs0); [done|]. injection Hw as <-. rewrite filter_app, filter_cons_False, app_nil_r; [done|].
    unfold changed_since. simpl in *. lia. }
  unfold revert_table, revert_remove. rewrite Him. simpl. rewrite Hf. apply filter_all.
  by rewrite Forall_forall in Hset.
Qed.

End Undo.

(** ** [Layout::revert_block] *)

Lemma revert_tables_versions tables n db c t :
  NoDup tables.*1 →
  db_versions (revert_tables tables n db c).1 t =
    match list_find (λ p, p.1 = t) tables with
    | Some (_, (_, table)) => (revert_table table n (db_versions db t)).1
    | None => db_versions db t
    end.
Proof.
  revert db c. induction tables as [|[t' table] tables IH]; intros db c Hnd; [done|].
  rewrite fmap_cons in Hnd. apply NoDup_cons in Hnd as [Hnt Hnd]. simpl.
  destruct (revert_table table n (db_versions db t')) as [vs c'] eqn:Er. rewrite IH by done.
  unfold set_versions. destruct (decide (t' = t)) as [<-|Hne]; simpl.
  - assert (list_find (λ p : EntityType * Table, p.1 = t') tables = None) as ->.
    { apply list_find_None, Forall_forall. intros p Hp Heq. apply Hnt. simpl. rewrite <-Heq. by apply (list_elem_of_fmap_2 fst). }
    unfold db_versions at 1. rewrite lookup_insert_eq. simpl. by rewrite Er.
  - assert (db_versions (<[t' := vs]> db) t = db_versions db t) as ->
      by (unfold db_versions; by rewrite lookup_insert_ne).
    destruct (list_find _ tables) as [[i [t2 table2]]|]; done.
Qed.

Lemma revert_block_versions layout n db t table :
  layout !! t = Some table →
  db_versions (revert_block layout n db).1 t = (revert_table table n (db_versions db t)).1.
Proof.
  intros Ht. unfold revert_block. pose proof (NoDup_fst_map_to_list layout) as Hnd.
  rewrite revert_tables_versions by done.
  destruct (list_find _ (map_to_list layout)) as [[i [t' table']]|] eqn:Ef.
  - apply list_find_Some in Ef as (Hi & Heq & _). simpl in Heq. subst t'.
    apply list_elem_of_lookup_2, elem_of_map_to_list in Hi. congruence.
  - apply list_find_None in Ef. rewrite Forall_forall in Ef. exfalso.
    apply (Ef (t, table)); [by apply elem_of_map_to_list|done].
Qed.

Section RevertBlock.
  Context `{EnvVars} `{InputSchema} `{BuildConfig}.
  Context (value_too_large : list EntityWrite → bool) (layout : gmap EntityType Table).

(** The groups of a batch that starts with block [n] *)
Definition group_from (n : BlockNumber) (g : RowGroup) : Prop :=
  Forall (λ r, n ≤ emod_block r < BLOCK_NUMBER_MAX) (rows g) ∧
  (is_immutable (group_type g) = false → chain (rows g)).

Lemma settled_changed n v : settled n v → changed_since n v = false.
Proof. unfold settled, changed_since. destruct (v_block v) as [|[|l u]]; simpl; done || lia. Qed.

Lemma group_written_revert n g db db' table :
  n ≤ BLOCK_NUMBER_MAX → layout_ok layout → db_ok db → group_wf g → group_from n g →
  layout !! group_type g = Some table →
  Forall (settled n) (db_versions db (group_type g)) → group_written layout g db db' →
  (revert_table table n (db_versions db' (group_type g))).1 = db_versions db (group_type g).
Proof.
  intros Hn Hlayout Hdb (_ & _ & Hwf & Hins) [Hbl Hch] Ht Hset (table' & vs' & Ht' & _ & Hs & Hl).
  assert (table' = table) as -> by congruence.
  assert (db_versions db' (group_type g) = vs') as -> by (unfold db_versions; by rewrite Hl).
  destruct (Hlayout _ _ Ht) as (_ & Himm & _). destruct (is_immutable (group_type g)) eqn:Ei.
  - eapply revert_rows_imm; [done|by apply Hins| | |done].
    + eapply Forall_impl; [exact Hbl|]. simpl. lia.
    + eapply Forall_impl; [exact Hset|]. intros v. apply settled_changed.
  - erewrite revert_rows; [done|done|done|by apply Hch|exact Hwf|done|by apply Hdb|done|done].
Qed.

Lemma settled_revert n table vs :
  n ≤ BLOCK_NUMBER_MAX → (immutable table = false → Forall ranged vs) → Forall (settled n) vs →
  (revert_table table n vs).1 = vs.
Proof.
  intros Hn Hrg Hset. destruct (immutable table) eqn:Ei.
  - eapply (revert_rows_imm table n []); try done.
    eapply Forall_impl; [exact Hset|]. intros v. apply settled_changed.
  - erewrite (revert_rows table (mkEntityType EmptyString) n Ei [] vs); try done. by apply Hrg.
Qed.

Lemma apply_revert gs n db db' c c' t table :
  (∀ ws, value_too_large ws = false) → layout_ok layout → (∀ t, share_interfaces t = []) →
  n ≤ BLOCK_NUMBER_MAX → groups_wf gs → Forall (group_from n) gs → db_ok db →
  Forall (settled n) (db_versions db t) →
  apply_entity_modifications value_too_large layout gs db c = Ok (db', c') →
  layout !! t = Some table → db_versions (revert_block layout n db').1 t = db_versions db t.
Proof.
  intros Hlarge Hlayout Hintf Hn Hgs Hfrom Hdb Hset Happ Ht.
  rewrite (revert_block_versions layout n db' t table Ht).
  destruct (apply_written value_too_large layout Hlarge Hlayout Hintf gs db c db' c' Hgs Hdb Happ)
    as (Hall & Ho & _ & _). destruct Hgs as [Hnd Hwf].
  destruct (decide (t ∈ group_types gs)) as [Hin|Hnin].
  - apply list_elem_of_fmap in Hin as (g & -> & Hg). rewrite Forall_forall in Hall.
    rewrite Forall_forall in Hwf. rewrite Forall_forall in Hfrom.
    eapply group_written_revert; auto.
  - assert (db_versions db' t = db_versions db t) as -> by (unfold db_versions; by rewrite Ho).
    apply settled_revert; [done| |done]. intros Him. apply Hdb.
    destruct (Hlayout _ _ Ht) as (_ & Himm & _). congruence.
Qed.

(** C17: a revert undoes the blocks it reverts.  If all that the tables hold
    comes from blocks before [n], and a batch of blocks from [n] on is
    written, then reverting block [n] restores every table to exactly the
    versions that it held before: what the batch inserted is gone, and what
    it updated or removed is current again. *)
Theorem revert_block_undoes gs n db db' c c' :
  (∀ ws, value_too_large ws = false) → layout_ok layout → (∀ t, share_interfaces t = []) →
  n ≤ BLOCK_NUMBER_MAX → groups_wf gs → Forall (group_from n) gs → db_ok db →
  (∀ t, Forall (settled n) (db_versions db t)) →
  apply_entity_modifications value_too_large layout gs db c = Ok (db', c') →
  ∀ t table, layout !! t = Some table →
    db_versions (revert_block layout n db').1 t = db_versions db t.
Proof.
  intros Hlarge Hlayout Hintf Hn Hgs Hfrom Hdb Hset Happ t table Ht. by apply (apply_revert gs n db db' c c' t table).
Qed.

End RevertBlock.

(** ** The entity count *)

Section Count.
  Context (table : Table) (t : EntityType) `{InputSchema} `{BuildConfig}.
  Hypothesis Hmut : immutable table = false.

(** The rows that one block makes: one for each entity it changes, updates and
    removals for entities that exist and inserts for those that do not. *)
Definition block_rows (n : BlockNumber) (rws : list EntityModification) (vs : list Version) : Prop :=
  NoDup (emod_id <$> rws) ∧ Forall (row_wf t) rws ∧
  Forall (λ r, emod_block r = n ∧ is_open r || negb (is_write r) = true) rws ∧
  ∀ r, r ∈ rws → is_clamp r = true ↔ ∃ v, v ∈ vs ∧ v_id v = emod_id r ∧ latest v = true.

Lemma block_rows_chain n rws vs : block_rows n rws vs → chain rws.
Proof.
  intros [Hnd _]. induction rws as [|r rws IH]; [done|]. rewrite fmap_cons in Hnd.
  apply NoDup_cons in Hnd as [Hr Hnd]. split; [|by apply IH]. apply Forall_forall. intros r' Hr' Hid. exfalso.
  apply Hr. rewrite <-Hid. by apply list_elem_of_fmap_2.
Qed.

Lemma rows_count rws :
  Forall (λ r, is_open r || negb (is_write r) = true) rws →
  foldr Z.add 0 (emod_entity_count_change <$> rws) =
    Z.of_nat (length (filter (λ r, is_clamp r = false) rws)) -
    Z.of_nat (length (filter (λ r, is_write r = false) rws)).
Proof.
  induction 1 as [|r rws Hr _ IH]; [done|]. rewrite fmap_cons, !filter_cons. cbn [foldr]. rewrite IH.
  destruct r as [? ? ? []|? ? ? []|]; simpl in *; try done; lia.
Qed.

Lemma size_ids (P : EntityModification → Prop) `{!∀ r, Decision (P r)} rws :
  NoDup (emod_id <$> rws) →
  size (list_to_set (emod_id <$> filter P rws) : gset Id) = length (filter P rws).
Proof.
  intros Hnd. rewrite size_list_to_set, length_fmap; [done|].
  eapply sublist_NoDup; [exact Hnd|]. apply fmap_sublist, sublist_filter.
Qed.

(** The ids of the rows that satisfy [P] and not [Q] *)
Lemma ids_difference (P Q S : EntityModification → Prop) `{!∀ r, Decision (P r), !∀ r, Decision (Q r), !∀ r, Decision (S r)} rws :
  NoDup (emod_id <$> rws) → (∀ r, r ∈ rws → S r ↔ P r ∧ ¬ Q r) →
  (list_to_set (emod_id <$> filter P rws) ∖ list_to_set (emod_id <$> filter Q rws) : gset Id) =
  list_to_set (emod_id <$> filter S rws).
Proof.
  intros Hnd HS. apply set_eq. intros id.
  rewrite elem_of_difference, !elem_of_list_to_set, !list_elem_of_fmap. setoid_rewrite list_elem_of_filter. split.
  - intros [(r & -> & HP & Hr) HQ]. exists r. split_and!; try done. apply HS; [done|]. split; [done|]. eauto 6.
  - intros (r & -> & Hs & Hr). destruct (proj1 (HS r Hr) Hs) as [HP HQ]. split; [by eauto|].
    intros (r' & Hid & HQ' & Hr'). apply HQ.
    apply list_elem_of_lookup in Hr as [i Hi]. apply list_elem_of_lookup in Hr' as [j Hj].
    assert (i = j) as ->.
    { apply (NoDup_lookup _ i j (emod_id r) Hnd); rewrite list_lookup_fmap, ?Hi, ?Hj; simpl; by rewrite ?Hid. }
    congruence.
Qed.

(** The entity count when one block is reverted.  If the rows that were
    written for block [n] only insert entities that did not exist and only
    update and remove entities that did, then the change that [revert_block]
    reports is the opposite of the change that was reported when the rows were
    written. *)
Theorem revert_count_block n rws vs0 vs :
  n < BLOCK_NUMBER_MAX → block_rows n rws vs0 → Forall ranged vs0 → Forall (settled n) vs0 →
  rows_seq table rws vs0 = Ok vs →
  (revert_table table n vs).2 = - foldr Z.add 0 (emod_entity_count_change <$> rws).
Proof.
  intros Hn Hrows Hrg Hset Hs. pose proof (block_rows_chain _ _ _ Hrows) as Hch.
  destruct Hrows as (Hnd & Hwf & Hbl & Htrue).
  rewrite (revert_rows table t n Hmut rws vs0 vs); try done; [|lia|].
  2:{ eapply Forall_impl; [exact Hbl|]. simpl. intros r [-> _]. lia. }
  cbn [snd]. rewrite rows_count by (eapply Forall_impl; [exact Hbl|]; by intros r [_ ?]).
  assert (list_to_set (v_id <$> filter (λ v, v_id v ∈ emod_id <$> filter (λ r, is_clamp r = true) rws
             ∧ latest v = true) vs0) =
          (list_to_set (emod_id <$> filter (λ r, is_clamp r = true) rws) : gset Id)) as ->.
  { apply set_eq. intros id. rewrite !elem_of_list_to_set, !list_elem_of_fmap.
    setoid_rewrite list_elem_of_filter. setoid_rewrite list_elem_of_fmap. setoid_rewrite list_elem_of_filter.
    split.
    - intros (v & -> & [(r & Hid & Hc & Hr) Hl] & Hv). eauto.
    - intros (r & -> & Hc & Hr). destruct (proj1 (Htrue r Hr) Hc) as (v & Hv & Hid & Hl).
      exists v. split_and!; try done. eauto. }
  rewrite (ids_difference _ _ (λ r, is_write r = false)) by
    (try done; intros r _; destruct r; simpl; naive_solver).
  rewrite (ids_difference _ _ (λ r, is_clamp r = false)) by
    (try done; intros r _; destruct r; simpl; naive_solver).
  rewrite !size_ids by done. lia.
Qed.

(** The entity count when several blocks are reverted.  If an entity is
    created at block [b] and removed at a later block [e], these changes leave
    the entity count as it was; reverting both blocks at once removes the
    entity's version and restores the empty table, but [revert_block] reports
    a change of -1, so that the count ends up one too small. *)
Theorem revert_count_blocks key data b e vs1 vs2 :
  b < e < BLOCK_NUMBER_MAX → row_wf t (Insert key data b None) →
  write_row table (Insert key data b None) [] = Ok vs1 → write_row table (Remove key e) vs1 = Ok vs2 →
  emod_entity_count_change (Insert key data b None) + emod_entity_count_change (Remove key e) = 0 ∧
  revert_table table b vs2 = ([], -1).
Proof.
  intros Hb Hwf H1 H2. split; [done|].
  unfold write_row in H1, H2. simpl in H1, H2.
  apply insert_write_ok in H1 as (v & Hv & _ & _ & ->); [|done].
  apply bind_ok in H2 as (vs3 & Hc & [= <-]). apply clamp_versions_ok in Hc as [_ ->].
  apply new_version_mut in Hv as (_ & Hid & _ & Hvb); [|done]. simpl in *.
  unfold clamp_fn. rewrite bool_decide_true by set_solver. unfold latest. rewrite Hvb. simpl.
  replace (b <=? BLOCK_NUMBER_MAX) with true by lia. simpl. replace (b <? e) with true by lia.
  unfold revert_table, revert_remove, revert_clamp. rewrite Hmut.
  rewrite filter_cons_False, filter_cons_True by (unfold changed_since; simpl; lia).
  rewrite !filter_nil. cbn [fmap list_fmap list_to_set]. f_equal.
  rewrite union_empty_r_L, difference_empty_L.
  match goal with |- context [size (?A ∖ ?B)] => assert (A ∖ B = ∅) as -> by set_solver end.
  by rewrite size_singleton, size_empty.
Qed.

End Count.

(** ** Witnesses *)

Module RevertSample.
Import BatchSample ReadSample.
#[local] Existing Instances sample_env sample_schema sample_build.

(** The table after block 1, and after block 2, which overwrites the user *)
Definition user_version (e : Object Value) (vid : Z) (r : BlockRange) : Version :=
  mkVersion (Some vid) (IdString "u1") ONCHAIN e (RangeCol r).

Definition users1 : list Version := [user_version ann 1 (RRange 1 None)].
Definition users2 : list Version :=
  [user_version ann 1 (RRange 1 (Some 2)); user_version bob 2 (RRange 2 None)].

Lemma db1_eq : db1 = {[ user := users1 ]}.
Proof. vm_compute. reflexivity. Defined.

Lemma db1_versions t : db_versions db1 t = if decide (t = user) then users1 else [].
Proof.
  unfold db_versions. rewrite db1_eq. case_decide as Ht; [subst; by rewrite lookup_singleton_eq|].
  by rewrite lookup_singleton_ne.
Defined.

Lemma users1_ok : Forall ranged users1 ∧ Forall (settled 2) users1.
Proof. split; apply Forall_singleton; [by eexists|done]. Defined.

Lemma users2_ok : Forall ranged users2 ∧ Forall range_ok users2.
Proof. split; repeat apply Forall_cons_2; try apply Forall_nil_2; try by eexists. Defined.

Lemma revert_table_view_witness :
  view (IdString "u1") 7 (revert_table user_table 2 users2).1 = view (IdString "u1") (Z.min 7 (2 - 1)) users2 ∧
  view (IdString "u1") 7 (revert_table user_table 2 users2).1 = [ann].
Proof.
  split; [|by vm_compute]. apply (revert_table_view user_table (IdString "u1") 2 7 users2).
  - done.
  - apply users2_ok.
  - apply users2_ok.
Defined.

Lemma revert_block_undoes_witness :
  db_versions (revert_block user_layout 2 db2).1 user = db_versions db1 user.
Proof.
  eapply (revert_block_undoes never_large user_layout (groups (mods (sample_batch overwrite_bob))) 2 db1 db2 0 0).
  - done.
  - exact user_layout_ok.
  - done.
  - done.
  - apply sample_batch_wf. split_and!; try done. exact (conj bob_wf I).
  - apply Forall_singleton. split; [by apply Forall_singleton|]. intros _. split; [constructor|done].
  - intros t _. rewrite db1_versions. case_decide; [apply users1_ok|constructor].
  - intros t. rewrite db1_versions. case_decide; [apply users1_ok|constructor].
  - vm_compute. reflexivity.
  - apply lookup_singleton_eq.
Defined.

Lemma revert_count_block_witness :
  (revert_table user_table 2 users2).2 =
    - foldr Z.add 0 (emod_entity_count_change <$> [overwrite_bob]).
Proof.
  apply (revert_count_block user_table user eq_refl 2 [overwrite_bob] users1 users2).
  - done.
  - split; [apply NoDup_singleton|]. split; [|split; [by apply Forall_singleton|]].
    + apply Forall_singleton. split_and!; try done. exact (conj bob_wf I).
    + intros r ->%list_elem_of_singleton. split; [|done]. intros _.
      exists (user_version ann 1 (RRange 1 None)). split; [left|done].
  - apply users1_ok.
  - apply users1_ok.
  - vm_compute. reflexivity.
Defined.

(** The user created at block 1 is removed at block 4. *)
Definition users_removed : list Version := [user_version ann 1 (RRange 1 (Some 4))].

Lemma revert_count_blocks_witness :
  emod_entity_count_change insert_ann + emod_entity_count_change (Remove u1 4) = 0 ∧
  revert_table user_table 1 users_removed = ([], -1).
Proof.
  apply (revert_count_blocks user_table user eq_refl u1 ann 1 4 users1 users_removed).
  - done.
  - split_and!; try done. exact ann_wf.
  - vm_compute. reflexivity.
  - vm_compute. reflexivity.
Defined.

End RevertSample.
