(* ===== verification/QueryFacts.v ===== *)
(** * Statements and queries

    The number of bind variables of an insert statement, the exclusion list of
    [FindDerivedQuery] and the keys that [Layout::find_many] returns. *)

From Stdlib Require Import ZArith Lia ZifyBool.
From stdpp Require Import base gmap list strings.
From S2P Require Import Prelude Values Intern InternFacts Entity EntityFacts.
From S2P Require Import Write WriteFacts Relational RelationalFacts AppendFacts BatchFacts ReadFacts.

Local Open Scope Z_scope.

(** ** Bind variables *)

Section Binds.
  Context `{EnvVars} (table : Table).

Abbreviation sum := (foldr Nat.add 0%nat).

Lemma fulltext_values_length w fields vs :
  fulltext_values w fields = Ok vs → (length vs ≤ length fields)%nat.
Proof.
  revert vs. induction fields as [|f fields IH]; simpl; intros vs; [by intros [= <-]|].
  destruct (entity_get (ew_entity w) f) as [[]|]; try (intros Hvs%IH; lia); try done.
  rewrite bind_ok. intros (rest & Hrest%IH & [= <-]). simpl. lia.
Qed.

Lemma insert_value_binds w c v : insert_value w c = Ok v → (value_binds v ≤ column_params c)%nat.
Proof.
  unfold insert_value, column_params. destruct (fulltext_fields c) as [fields|].
  - rewrite bind_ok. intros (vs & Hvs%fulltext_values_length & Hv). by destruct (col_tsvector c); simplify_eq.
  - intros [= <-]. simpl. case_match; lia.
Qed.

Lemma insert_values_binds w cs vs :
  insert_values w cs = Ok vs → (sum (value_binds <$> vs) ≤ sum (column_params <$> cs))%nat.
Proof.
  revert vs. induction cs as [|c cs IH]; intros vs; cbn [insert_values]; [by intros [= <-]|].
  rewrite bind_ok. intros (v & Hv%insert_value_binds & Hvs). apply bind_ok in Hvs as (vs' & Hvs'%IH & [= <-]).
  rewrite !fmap_cons. cbn [foldr]. lia.
Qed.

Lemma sum_filter (P : Column → Prop) `{!∀ c, Decision (P c)} cs :
  (sum (column_params <$> filter P cs) ≤ sum (column_params <$> cs))%nat.
Proof.
  induction cs as [|c cs IH]; [done|]. rewrite filter_cons, fmap_cons. case_decide; rewrite ?fmap_cons; cbn [foldr]; lia.
Qed.

Lemma insert_rows_binds cs ws rs :
  (sum (column_params <$> cs) ≤ sum (column_params <$> columns table))%nat →
  insert_rows_new cs ws = Ok rs → (sum (row_binds table <$> rs) ≤ length ws * row_params table)%nat.
Proof.
  intros Hcs. revert rs. induction ws as [|w ws IH]; intros rs; cbn [insert_rows_new length]; [by intros [= <-]|].
  rewrite bind_ok. intros (r & Hr & Hrs). apply bind_ok in Hrs as (rs' & Hrs'%IH & [= <-]).
  rewrite fmap_cons. cbn [foldr]. unfold insert_row_new in Hr. apply bind_ok in Hr as (vs & Hvs%insert_values_binds & Hr).
  destruct (entity_vid (ew_entity w)) as [a| |]; try done. injection Hr as <-.
  assert (row_binds table (mkInsertRow vs w a) ≤ row_params table)%nat by (unfold row_binds, row_params; cbn [ir_values]; lia).
  rewrite Nat.mul_succ_l. lia.
Qed.

(** A statement for a chunk of at most [chunk_size] entities never uses
    more bind variables than the protocol allows, whatever columns the
    entities set and however many fulltext fields there are. *)
Theorem insert_query_binds ws rs :
  (length ws ≤ insert_chunk_size table)%nat → insert_query_new table ws = Ok rs →
  Z.of_nat (foldr Nat.add 0%nat (row_binds table <$> rs)) ≤ POSTGRES_MAX_PARAMETERS.
Proof.
  intros Hlen. unfold insert_query_new. destruct (existsb _ ws); [done|]. intros Hrs%insert_rows_binds.
  2: apply sum_filter.
  assert (0 < row_params table)%nat by (unfold row_params; lia).
  assert (Z.of_nat (insert_chunk_size table) * Z.of_nat (row_params table) ≤ POSTGRES_MAX_PARAMETERS).
  { unfold insert_chunk_size. rewrite Z2Nat.id by (apply Z.div_pos; unfold POSTGRES_MAX_PARAMETERS; lia).
    rewrite Z.mul_comm. apply Z.mul_div_le. lia. }
  etrans; [apply Nat2Z.inj_le, Hrs|]. rewrite Nat2Z.inj_mul. nia.
Qed.

End Binds.

(** ** The exclusion list of [FindDerivedQuery] *)

Section Derived.
  Context `{EnvVars} `{InputSchema}.

Lemma not_excluded_two excluded x y id :
  x ∈ excluded → y ∈ excluded → x ≠ y → not_excluded excluded id = true.
Proof.
  intros Hx Hy Hne. unfold not_excluded. destruct excluded as [|z excluded]; [done|].
  apply existsb_exists. destruct (decide (id = x)) as [->|Hid].
  - exists y. rewrite <-list_elem_of_In, bool_decide_eq_true. done.
  - exists x. rewrite <-list_elem_of_In, bool_decide_eq_true. done.
Qed.

(** [FindDerivedQuery] compares the id with [id != any(excluded)], which
    holds as soon as the list has an element that differs from the id.  With
    two excluded entities, nothing is excluded: the query returns what it
    returns without an exclusion list, the excluded entities included. *)
Theorem find_derived_excludes_nothing layout q block k1 k2 db :
  id_type (entity_id k1) = schema_id_type (dq_entity_type q) →
  id_type (entity_id k2) = schema_id_type (dq_entity_type q) → entity_id k1 ≠ entity_id k2 →
  layout_find_derived layout q block [k1; k2] db = layout_find_derived layout q block [] db.
Proof.
  intros H1 H2 Hne. unfold layout_find_derived.
  destruct (table_for_entity layout (dq_entity_type q)) as [table| |]; simpl; [|done..].
  destruct (id_list_typed (schema_id_type (dq_entity_type q)) [entity_id k1; entity_id k2]) as (l & -> & Hl).
  { by repeat constructor. }
  destruct (id_list_typed (schema_id_type (dq_entity_type q)) []) as (l0 & -> & Hl0); [constructor|].
  simpl. rewrite Hl, Hl0. f_equal. apply list_filter_iff. intros v. unfold find_derived_row.
  rewrite (not_excluded_two _ (entity_id k1) (entity_id k2)) by (try done; set_solver). done.
Qed.

End Derived.

(** ** The keys of [Layout::find_many] *)

Section FindMany.
  Context `{EnvVars} `{InputSchema}.

Lemma collect_entities_keys rws m m' :
  Forall (λ tv, region_from_entity (v_data tv.2) = ONCHAIN) rws →
  collect_entities rws m = Ok m' →
  ∀ key, is_Some (m' !! key) → is_Some (m !! key) ∨ causality_region key = ONCHAIN.
Proof.
  intros Hall. revert m. induction Hall as [|[t v] rws Hv _ IH]; simpl; intros m; [intros [= <-]; by left|].
  rewrite bind_ok. intros (key & Hkey & Hm) k Hk. destruct (m !! key); [done|].
  destruct (IH _ Hm k Hk) as [Hin|]; [|by right]. apply lookup_insert_is_Some in Hin as [<- |[_ Hin]]; [|by left].
  right. unfold row_key in Hkey. destruct (entity_id_of (v_data v)); try done. injection Hkey as <-. done.
Qed.

Lemma find_many_rows_in layout ids_for_type block db rws :
  find_many_query layout ids_for_type block db = Ok rws →
  Forall (λ tv, ∃ t, tv.2 ∈ db_versions db t) rws.
Proof.
  revert rws. induction ids_for_type as [|[[t cr] ids] rest IH]; simpl; intros rws; [by intros [= <-]|].
  rewrite bind_ok. intros (table & _ & Hr). apply bind_ok in Hr as (rws' & Hr & [= <-]).
  apply Forall_app. split; [|by apply IH]. apply Forall_fmap, Forall_forall. intros v Hv. simpl.
  exists (object table). by apply list_elem_of_filter in Hv as [_ Hv].
Qed.

(** The keys that [Layout::find_many] returns are always in the onchain
    region when the entities have no attribute that names their region, which
    is what the rows of the tables look like, where the region is a column of
    its own: an entity that was found for an offchain region is returned under
    a key of the onchain region. *)
Theorem find_many_keys_onchain layout ids_for_type block db entities key :
  (∀ t v, v ∈ db_versions db t → entity_get (v_data v) "causality_region" = None) →
  layout_find_many layout ids_for_type block db = Ok entities →
  is_Some (entities !! key) → causality_region key = ONCHAIN.
Proof.
  intros Hattr Hfind Hkey. unfold layout_find_many in Hfind.
  destruct ids_for_type as [|p rest]; [injection Hfind as <-; by apply lookup_empty_is_Some in Hkey|].
  apply bind_ok in Hfind as (rws & Hrws & Hent).
  destruct (collect_entities_keys rws ∅ entities) with (key := key) as [Hin|]; try done.
  - eapply Forall_impl; [by eapply find_many_rows_in|]. intros tv [t Hv]. unfold region_from_entity.
    by rewrite (Hattr t).
  - by apply lookup_empty_is_Some in Hin.
Qed.

End FindMany.

(** ** Witnesses *)

Module QuerySample.
Import BatchSample.
#[local] Existing Instances sample_env sample_schema sample_build.

Definition ann_write : EntityWrite := mkEntityWrite (IdString "u1") ann ONCHAIN 1 None.

Definition ann_rows : list InsertRow :=
  match insert_query_new user_table [ann_write] with Ok rs => rs | _ => [] end.

Lemma insert_query_binds_witness :
  Z.of_nat (foldr Nat.add 0%nat (row_binds user_table <$> ann_rows)) ≤ POSTGRES_MAX_PARAMETERS ∧
  foldr Nat.add 0%nat (row_binds user_table <$> ann_rows) = 4%nat.
Proof.
  split; [|by vm_compute]. apply (insert_query_binds user_table [ann_write] ann_rows).
  - apply Nat.leb_le. vm_compute. reflexivity.
  - vm_compute. reflexivity.
Defined.

(** A table of offchain entities, with one version in region 3 *)
Definition file_table : Table := mkTable user (columns user_table) false false false true true.
Definition file_layout : gmap EntityType Table := {[ user := file_table ]}.
Definition file_version : Version := mkVersion (Some 1) (IdString "u1") 3 ann (RangeCol (RRange 1 None)).
Definition file_db : gmap EntityType (list Version) := {[ user := [file_version] ]}.
Definition by_name : DerivedEntityQuery := mkDerivedEntityQuery user "name" (IdString "Ann") 3.

Lemma find_derived_excludes_nothing_witness :
  layout_find_derived file_layout by_name 5 [u1; mkEntityKey user (IdString "u2") 3] file_db =
  layout_find_derived file_layout by_name 5 [] file_db.
Proof. by apply (find_derived_excludes_nothing file_layout by_name 5 u1). Defined.

Definition found : gmap EntityKey (Object Value) :=
  match layout_find_many file_layout [(user, 3, IdListString ["u1"%string])] 5 file_db with Ok m => m | _ => ∅ end.

Lemma find_many_keys_onchain_witness : causality_region u1 = ONCHAIN ∧ found !! u1 = Some ann.
Proof.
  split; [|by vm_compute].
  apply (find_many_keys_onchain file_layout [(user, 3, IdListString ["u1"%string])] 5 file_db found u1).
  - intros t v Hv. unfold db_versions, file_db in Hv. destruct (decide (t = user)) as [->|Hne].
    + rewrite lookup_singleton_eq in Hv. simpl in Hv. apply list_elem_of_singleton in Hv as ->. by vm_compute.
    + rewrite lookup_singleton_ne in Hv by done. by apply elem_of_nil in Hv.
  - assert (is_ok (layout_find_many file_layout [(user, 3, IdListString ["u1"%string])] 5 file_db) = true) as Hok
      by (vm_compute; reflexivity).
    unfold found. by destruct (layout_find_many _ _ _ _).
  - exists ann. vm_compute. reflexivity.
Defined.

End QuerySample.
