(* ===== verification/Deployment.v ===== *)
(** * The deployment store

    A deployment in the database: its entity tables, its head and status
    (deployment.rs), its dynamic data sources (dynds/private.rs) and its
    errors, with the operations of [DeploymentStore] that write, revert and
    rewind (deployment_store.rs).  An operation runs in one transaction: when
    it fails, the result is an error and the deployment is as it was.  The
    model is for deployments with their own [data_sources$] table and without
    aggregations, for which [Layout::rollup] has nothing to do; pruning, which
    [transact_block_operations] may start in the background once it has
    committed, is not part of it. *)

From Stdlib Require Import ZArith.
From stdpp Require Import base gmap list strings.
From S2P Require Import Prelude Values Intern Entity Write Relational.

Local Open Scope Z_scope.

(** ** Tables *)

(** [subgraphs.head] *)
Record Head := mkHead {
  head_ptr : option BlockPtr;
  head_cursor : option string;
  entity_count : Z;
}.

Inductive SubgraphHealth := Failed | Healthy | Unhealthy.

#[export] Instance SubgraphHealth_eq_dec : EqDecision SubgraphHealth.
Proof. solve_decision. Defined.

Definition is_failed (h : SubgraphHealth) : bool :=
  match h with Failed => true | Healthy | Unhealthy => false end.

(** [subgraphs.deployment] *)
Record Status := mkStatus {
  earliest_block : BlockNumber;
  reorg_count : Z;
  current_reorg_depth : Z;
  max_reorg_depth : Z;
  failed : bool;
  health : SubgraphHealth;
  fatal_error : option string;
  non_fatal_errors : list string;
}.

(** [subgraphs.subgraph_error]; [er_block] is the start of the block range *)
Record ErrorRow := mkErrorRow {
  er_id : string;
  er_block_hash : option (list Z);
  er_deterministic : bool;
  er_block : BlockNumber;
}.

Record Deployment := mkDeployment {
  d_tables : gmap EntityType (list Version);
  d_head : Head;
  d_status : Status;
  (** the rows of [data_sources$] in the order of their [vid] *)
  d_data_sources : list StoredDynamicDataSource;
  d_errors : list ErrorRow;
}.

Definition set_tables (db : gmap EntityType (list Version)) (d : Deployment) : Deployment :=
  mkDeployment db (d_head d) (d_status d) (d_data_sources d) (d_errors d).
Definition set_head (h : Head) (d : Deployment) : Deployment :=
  mkDeployment (d_tables d) h (d_status d) (d_data_sources d) (d_errors d).
Definition set_status (s : Status) (d : Deployment) : Deployment :=
  mkDeployment (d_tables d) (d_head d) s (d_data_sources d) (d_errors d).
Definition set_data_sources (dss : list StoredDynamicDataSource) (d : Deployment) : Deployment :=
  mkDeployment (d_tables d) (d_head d) (d_status d) dss (d_errors d).
Definition set_errors (es : list ErrorRow) (d : Deployment) : Deployment :=
  mkDeployment (d_tables d) (d_head d) (d_status d) (d_data_sources d) es.

(** ** Dynamic data sources ([DataSourcesTable]) *)

(** [sort_by_key], which is stable *)
Fixpoint insert_by_key {A} (key : A → option Z) (x : A) (l : list A) : list A :=
  match l with
  | [] => [x]
  | y :: l' =>
      if match key x, key y with
         | None, _ => true
         | Some _, None => false
         | Some a, Some b => a <=? b
         end
      then x :: l else y :: insert_by_key key x l'
  end.

Definition sort_by_key {A} (key : A → option Z) (l : list A) : list A :=
  foldr (insert_by_key key) [] l.

(** [load]; a range without a lower bound can not be loaded. *)
Definition dds_live (block : BlockNumber) (ds : StoredDynamicDataSource) : bool :=
  match creation_block ds with Some b => b <=? block | None => true end.

Definition dds_load (block : BlockNumber) (dss : list StoredDynamicDataSource)
    : outcome StoreError (list StoredDynamicDataSource) :=
  let live := filter (λ ds, dds_live block ds = true) dss in
  if existsb (λ ds, match creation_block ds with None => true | Some _ => false end) live then Panic
  else Ok (sort_by_key creation_block live).

(** [insert] *)
Definition dds_insert_one (block : BlockNumber) (ds : StoredDynamicDataSource)
    : st (list StoredDynamicDataSource) StoreError unit := λ dss,
  if (ds_causality_region ds =? ONCHAIN) && negb (bool_decide (creation_block ds = Some block)) then
    (dss, Err (InternalError "mismatching creation blocks"))
  else (dss ++ [ds], Ok tt).

Definition dds_insert (entries : DataSources) : st (list StoredDynamicDataSource) StoreError unit :=
  st_for (λ entry, st_for (dds_insert_one (ptr_number entry.1)) entry.2) (ds_entries entries).

(** [revert]: delete the data sources that were created at or after [block]. *)
Definition dds_revert (block : BlockNumber) (dss : list StoredDynamicDataSource)
    : list StoredDynamicDataSource :=
  filter (λ ds, match creation_block ds with Some b => b <? block | None => true end = true) dss.

(** [update_offchain_status] *)
Definition set_done_at (at_ : option Z) (ds : StoredDynamicDataSource) : StoredDynamicDataSource :=
  mkDataSource (manifest_idx ds) (param ds) (context ds) (creation_block ds) at_ (ds_causality_region ds).

Definition update_done_at (ds : StoredDynamicDataSource)
    : st (list StoredDynamicDataSource) StoreError unit := λ dss,
  let count := length (filter (λ row, ds_causality_region row = ds_causality_region ds) dss) in
  let dss' :=
    (λ row, if ds_causality_region row =? ds_causality_region ds then set_done_at (done_at ds) row else row)
      <$> dss in
  if (1 <? count)%nat then
    (dss', Err (InternalError "expected to remove at most one offchain data source"))
  else (dss', Ok tt).

Definition update_offchain_status (entries : DataSources)
    : st (list StoredDynamicDataSource) StoreError unit :=
  if data_sources_is_empty entries then mret tt
  else st_for (λ entry, st_for update_done_at entry.2) (ds_entries entries).

(** [causality_region_curr_val] *)
Definition causality_region_curr_val (dss : list StoredDynamicDataSource) : option CausalityRegion :=
  match ds_causality_region <$> dss with
  | [] => None
  | r :: rs => Some (foldl Z.max r rs)
  end.

(** ** Head, status and errors (deployment.rs) *)

(** [GRAPH_ETHEREUM_REORG_THRESHOLD], the hash that is the id of an error, and
    the graft block of the deployment *)
Class DeploymentConfig := {
  reorg_threshold : Z;
  error_id : SubgraphError → string;
  graft_block : option BlockNumber;
}.

Definition BLOCK_UNVERSIONED : BlockNumber := -1.

Section Metadata.
  Context `{DeploymentConfig}.

(** [insert_subgraph_error], which does nothing if the error exists *)
Definition error_row (e : SubgraphError) : ErrorRow :=
  mkErrorRow (error_id e) (ptr_hash <$> err_block_ptr e) (deterministic e)
    (match err_block_ptr e with None => BLOCK_UNVERSIONED | Some p => ptr_number p end).

Definition insert_subgraph_error (e : SubgraphError) (es : list ErrorRow) : list ErrorRow :=
  if decide (error_id e ∈ er_id <$> es) then es else es ++ [error_row e].

Definition has_deterministic_errors (block : BlockNumber) (es : list ErrorRow) : bool :=
  existsb (λ e, er_deterministic e && (er_block e <=? block)) es.

Definition set_health (h : SubgraphHealth) (s : Status) : Status :=
  mkStatus (earliest_block s) (reorg_count s) (current_reorg_depth s) (max_reorg_depth s)
    (failed s) h (fatal_error s) (non_fatal_errors s).

(** [check_health] *)
Definition check_health (block : BlockNumber) (d : Deployment) : Deployment :=
  let '(new, old) :=
    if has_deterministic_errors block (d_errors d) then (Unhealthy, Healthy) else (Healthy, Unhealthy) in
  if decide (health (d_status d) = old) then set_status (set_health new (d_status d)) d else d.

Definition insert_subgraph_errors (errors : list SubgraphError) (latest_block : BlockNumber)
    (d : Deployment) : Deployment :=
  check_health latest_block (set_errors (foldl (λ es e, insert_subgraph_error e es) (d_errors d) errors) d).

Definition update_deployment_status (h : SubgraphHealth) (fatal : option string)
    (non_fatal : option (list string)) (d : Deployment) : Deployment :=
  let s := d_status d in
  set_status
    (mkStatus (earliest_block s) (reorg_count s) (current_reorg_depth s) (max_reorg_depth s)
       (is_failed h) h fatal (default [] non_fatal)) d.

Definition update_non_fatal_errors (h : SubgraphHealth) (errors : option (list SubgraphError))
    (d : Deployment) : Deployment :=
  update_deployment_status h None (option_map (map error_id) errors) d.

Definition revert_subgraph_errors (reverted_block : BlockNumber) (d : Deployment) : Deployment :=
  let d := set_errors (filter (λ e, er_block e < reverted_block) (d_errors d)) d in
  let d := check_health (reverted_block - 1) d in
  let s := d_status d in
  if failed s && bool_decide (health s = Failed) then
    set_status
      (mkStatus (earliest_block s) (reorg_count s) (current_reorg_depth s) (max_reorg_depth s)
         false Healthy (fatal_error s) (non_fatal_errors s)) d
  else d.

(** [fail] *)
Definition fail (e : SubgraphError) (d : Deployment) : Deployment :=
  update_deployment_status Failed (Some (error_id e)) None
    (set_errors (insert_subgraph_error e (d_errors d)) d).

(** [ErrorDetail::fatal] *)
Definition fatal (d : Deployment) : option ErrorRow :=
  id ← fatal_error (d_status d);
  snd <$> list_find (λ e, er_id e = id) (d_errors d).

Definition delete_error (id : string) (d : Deployment) : Deployment :=
  set_errors (filter (λ e, er_id e ≠ id) (d_errors d)) d.

Definition reset_reorg_count (s : Status) : Status :=
  if 0 <? current_reorg_depth s then
    mkStatus (earliest_block s) (reorg_count s) 0 (max_reorg_depth s)
      (failed s) (health s) (fatal_error s) (non_fatal_errors s)
  else s.

(** [transact_block]: the deployment and its earliest block *)
Definition transact_block (ptr : BlockPtr) (cursor : option string) (count : Z) (d : Deployment)
    : outcome StoreError (Deployment * BlockNumber) :=
  if match head_ptr (d_head d) with Some from => ptr_number ptr <=? ptr_number from | None => false end then
    Err (DuplicateBlockProcessing (ptr_number ptr))
  else
    let d := set_status (reset_reorg_count (d_status d)) d in
    Ok (set_head (mkHead (Some ptr) cursor (entity_count (d_head d) + count)) d,
        earliest_block (d_status d)).

(** [revert_block_ptr] *)
Definition revert_block_ptr (ptr : BlockPtr) (cursor : option string) (d : Deployment)
    : outcome StoreError Deployment :=
  let earliest := Z.max (ptr_number ptr - reorg_threshold) 0 in
  let s := d_status d in
  if earliest_block s <=? earliest then
    let s' :=
      mkStatus (earliest_block s) (reorg_count s + 1) (current_reorg_depth s + 1)
        (Z.max (current_reorg_depth s + 1) (max_reorg_depth s))
        (failed s) (health s) (fatal_error s) (non_fatal_errors s) in
    Ok (set_head (mkHead (Some ptr) cursor (entity_count (d_head d))) (set_status s' d))
  else Err (UnknownError "No rows affected").

(** [update_entity_count] and [clear_entity_count] *)
Definition update_entity_count (count : Z) (h : Head) : Head :=
  if count =? 0 then h else mkHead (head_ptr h) (head_cursor h) (entity_count h + count).

Definition clear_entity_count (h : Head) : Head := mkHead (head_ptr h) (head_cursor h) 0.

(** [Layout::revert_metadata] *)
Definition revert_metadata (block : BlockNumber) (d : Deployment) : Deployment :=
  revert_subgraph_errors block (set_data_sources (dds_revert block (d_data_sources d)) d).

End Metadata.

(** ** [DeploymentStore] *)

Section DeploymentStore.
  Context `{EnvVars} `{InputSchema} `{BuildConfig} `{DeploymentConfig}.
  Context (value_too_large : list EntityWrite → bool) (layout : gmap EntityType Table).

(** The result of running a method that can fail on a part of the deployment *)
Definition lift_st {S} (m : st S StoreError unit) (s : S) : outcome StoreError S :=
  match m s with
  | (s', Ok _) => Ok s'
  | (_, Err e) => Err e
  | (_, Panic) => Panic
  end.

(** The errors of a batch in [transact_block_operations] *)
Definition record_errors (batch : Batch) (d : Deployment) : Deployment :=
  match deterministic_errors batch with
  | [] => d
  | errors =>
      let d := insert_subgraph_errors errors (ptr_number (block_ptr batch)) d in
      if is_non_fatal_errors_active batch then update_non_fatal_errors Unhealthy (Some errors) d else d
  end.

(** [transact_block_operations] *)
Definition transact_block_operations (batch : Batch) (d : Deployment) : outcome StoreError Deployment :=
  '(db, count) ← apply_entity_modifications value_too_large layout (groups (mods batch)) (d_tables d) 0;
  let d := set_tables db d in
  dss ← lift_st (dds_insert (data_sources batch)) (d_data_sources d);
  dss ← lift_st (update_offchain_status (offchain_to_remove batch)) dss;
  let d := set_data_sources dss d in
  let d := record_errors batch d in
  '(d, _) ← transact_block (block_ptr batch) (firehose_cursor batch) count d;
  Ok d.

(** [rewind_or_truncate_with_conn] *)
Definition rewind_or_truncate (block_ptr_to : BlockPtr) (cursor : option string) (truncate : bool)
    (d : Deployment) : outcome StoreError Deployment :=
  let block := ptr_number block_ptr_to + 1 in
  d ← revert_block_ptr block_ptr_to cursor d;
  let d :=
    if truncate then
      set_head (clear_entity_count (d_head d)) (set_tables (truncate_tables layout (d_tables d)) d)
    else
      let '(db, count) := revert_block layout block (d_tables d) in
      set_head (update_entity_count count (d_head d)) (set_tables db d) in
  Ok (revert_metadata block d).

(** [truncate] and [rewind]; the check that they go backwards builds an error
    and drops it. *)
Definition truncate (block_ptr_to : BlockPtr) (d : Deployment) : outcome StoreError Deployment :=
  rewind_or_truncate block_ptr_to None true d.

Definition rewind (block_ptr_to : BlockPtr) (d : Deployment) : outcome StoreError Deployment :=
  rewind_or_truncate block_ptr_to None false d.

(** [revert_block_operations] *)
Definition revert_block_operations (block_ptr_to : BlockPtr) (cursor : option string) (d : Deployment)
    : outcome StoreError Deployment :=
  match head_ptr (d_head d) with
  | None => Panic
  | Some deployment_head =>
      if ptr_number deployment_head <=? ptr_number block_ptr_to then Panic
      else if match graft_block with Some g => ptr_number block_ptr_to <? g | None => false end then
        Err (InternalError "Can not revert subgraph past a graft point")
      else rewind_or_truncate block_ptr_to cursor false d
  end.

Inductive UnfailOutcome := Noop | Unfailed | BehindErrorBlock.

(** [unfail_deterministic_error] *)
Definition unfail_deterministic_error (current_ptr parent_ptr : BlockPtr) (d : Deployment)
    : outcome StoreError (Deployment * UnfailOutcome) :=
  match fatal d with
  | None => Ok (d, Noop)
  | Some subgraph_error =>
      if negb (er_deterministic subgraph_error) then Ok (d, Noop)
      else
        let prev_health :=
          if has_deterministic_errors (ptr_number parent_ptr) (d_errors d) then Unhealthy else Healthy in
        match er_block_hash subgraph_error with
        | Some bytes =>
            if decide (bytes = ptr_hash current_ptr) then
              d ← revert_block_operations parent_ptr None d;
              Ok (update_deployment_status prev_health None None d, Unfailed)
            else Ok (d, Noop)
        | None => Ok (d, Noop)
        end
  end.

(** [unfail_non_deterministic_error] *)
Definition unfail_non_deterministic_error (current_ptr : BlockPtr) (d : Deployment)
    : outcome StoreError (Deployment * UnfailOutcome) :=
  match fatal d with
  | None => Ok (d, Noop)
  | Some subgraph_error =>
      if er_deterministic subgraph_error then Ok (d, Noop)
      else if er_block subgraph_error <=? ptr_number current_ptr then
        let d := update_deployment_status Healthy None None d in
        Ok (delete_error (er_id subgraph_error) d, Unfailed)
      else Ok (d, BehindErrorBlock)
  end.

(** [get], [get_many] and [get_derived] *)
Definition deployment_get (key : EntityKey) (block : BlockNumber) (d : Deployment)
    : outcome StoreError (option (Object Value)) :=
  layout_find layout key block (d_tables d).

Definition deployment_get_many (ids_for_type : list (EntityType * CausalityRegion * IdList))
    (block : BlockNumber) (d : Deployment) : outcome StoreError (gmap EntityKey (Object Value)) :=
  layout_find_many layout ids_for_type block (d_tables d).

Definition deployment_get_derived (q : DerivedEntityQuery) (block : BlockNumber)
    (excluded_keys : list EntityKey) (d : Deployment) : outcome StoreError (gmap EntityKey (Object Value)) :=
  layout_find_derived layout q block excluded_keys (d_tables d).

End DeploymentStore.
