(* ===== verification/DeploymentFacts.v ===== *)
(** * What the deployment store promises to its clients

    After a batch is written, a query at any block finds what the batch says
    about the key, or what was there before; after a revert, it finds what was
    there at the block reverted to; and a query at the head or later always
    finds the same.  These facts are what the write queue relies on when it
    answers reads from requests that are still pending. *)

From Stdlib Require Import ZArith Lia ZifyBool.
From stdpp Require Import base gmap list strings.
From S2P Require Import Prelude Values Intern InternFacts Entity EntityFacts.
From S2P Require Import Write WriteFacts Relational RelationalFacts AppendFacts BatchFacts ReadFacts RevertFacts.
From S2P Require Import Deployment.

Local Open Scope Z_scope.

(** ** Versions of immutable entities *)

Definition blocked (v : Version) : Prop := ∃ l, v_block v = BlockCol l ∧ l ≤ BLOCK_NUMBER_MAX.

Section Immutable.
  Context `{EnvVars} `{InputSchema} `{BuildConfig} (table : Table).
  Hypothesis Himm : immutable table = true.

Lemma find_view_imm key at_ vs :
  Forall blocked vs → Forall (in_region table key) vs →
  v_data <$> head (filter (λ v, find_matches table key at_ v = true) vs) =
  head (view (entity_id key) at_ vs).
Proof.
  intros Hrg Hin. unfold view. induction vs as [|v vs IH]; [done|].
  apply Forall_cons in Hrg as [(l & Hl & Hle) Hrg]. apply Forall_cons in Hin as [Hv Hin].
  assert (find_matches table key at_ v = true ↔ v_id v = entity_id key ∧ exists_at at_ v = true) as Hm.
  { unfold find_matches. rewrite !andb_true_iff, bool_decide_eq_true.
    rewrite at_block_exists; [naive_solver|]. destruct (Z.lt_ge_cases at_ BLOCK_NUMBER_MAX); [by left|].
    right. right. exists l. split; [done|lia]. }
  rewrite !filter_cons.
  destruct (decide (find_matches table key at_ v = true)) as [Hf|Hf].
  - by rewrite decide_True by by apply Hm.
  - rewrite decide_False by (intros ?; apply Hf; by apply Hm). by apply IH.
Qed.

(** What a row writes into an immutable table that does not skip duplicates *)
Lemma write_row_imm_new r vs vs' :
  table_skip_duplicates table = false → plain_insert r → write_row table r vs = Ok vs' →
  ∃ v, vs' = vs ++ [v] ∧ v_id v = emod_id r ∧ v_block v = BlockCol (emod_block r) ∧
    (∃ k, as_entity_op r BLOCK_NUMBER_MAX = OpWrite k (v_data v)) ∧
    (v_cr v = if has_causality_region table then causality_region (emod_key r) else ONCHAIN) ∧
    ¬ present (emod_id r) vs.
Proof.
  intros Hskip [Hop Hcr]. destruct r as [k d b [e|]| |]; try done.
  unfold write_row, insert_write, insert_version, block_range_value. simpl. rewrite Himm, Hskip. simpl.
  destruct (entity_vid d) as [vid|[]|]; try done. destruct (existsb _ vs) eqn:Ep; [done|].
  destruct (existsb (same_vid _) vs); [done|]. intros [= <-]. eexists. split_and!; try done; simpl.
  - by eexists.
  - unfold present. intros (v & Hid & Hv)%list_elem_of_fmap. rewrite <-not_true_iff_false in Ep. apply Ep.
    apply existsb_exists. exists v. rewrite <-list_elem_of_In, bool_decide_eq_true. by rewrite Hid.
Qed.

Lemma view_absent id b vs : ¬ present id vs → view id b vs = [].
Proof.
  intros Hp. apply view_none. intros v Hv Hid. exfalso. apply Hp. unfold present. rewrite <-Hid.
  by apply list_elem_of_fmap_2.
Qed.

(** Once an id is present, no row with the id can be written. *)
Lemma rows_seq_absent id rws vs vs' :
  table_skip_duplicates table = false → Forall plain_insert rws → present id vs →
  rows_seq table rws vs = Ok vs' → Forall (λ r, emod_id r ≠ id) rws.
Proof.
  intros Hskip Hpl. revert vs. induction Hpl as [|r rws Hr _ IH]; intros vs Hp; simpl; [constructor|].
  rewrite bind_ok. intros (vs1 & Hw & Hs). destruct (write_row_imm_new r vs vs1) as (v & -> & Hv & _ & _ & _ & Hnp); try done.
  constructor; [by intros <-|]. eapply IH; [|done]. unfold present in *. rewrite fmap_app. set_solver.
Qed.

Lemma rows_view_imm id rws at_ vs vs' :
  table_skip_duplicates table = false → Forall plain_insert rws → rows_seq table rws vs = Ok vs' →
  view id at_ vs' =
    match rfind (λ r, has_id id r && (emod_block r <=? at_)) rws with
    | Some r => op_view (as_entity_op r at_)
    | None => view id at_ vs
    end.
Proof.
  intros Hskip Hpl. revert vs. induction Hpl as [|r rws Hr Hpl IH]; intros vs; simpl; [by intros [= <-]|].
  rewrite bind_ok. intros (vs1 & Hw & Hs).
  destruct (write_row_imm_new r vs vs1) as (v & Hvs1 & Hv & Hvb & [k Hop] & _ & Hnp); try done.
  rewrite (IH _ Hs). unfold has_id at 3. destruct (decide (emod_id r = id)) as [Hid|Hid].
  - assert (rfind (λ r, has_id id r && (emod_block r <=? at_)) rws = None) as ->.
    { assert (Forall (λ r, emod_id r ≠ id) rws) as Hall.
      { eapply rows_seq_absent; [done..| |exact Hs]. unfold present. rewrite Hvs1, fmap_app, <-Hid, <-Hv. set_solver. }
      clear -Hall. induction Hall as [|r rws Hr _ IH]; [done|]. simpl. rewrite IH. unfold has_id.
      by rewrite bool_decide_false. }
    rewrite bool_decide_true by done. subst vs1 id. rewrite view_app, view_absent, view_singleton by done. simpl.
    unfold exists_at. rewrite Hvb. destruct Hr as [Ho Hc]. destruct r as [k' d b [e|]| |]; try done. simpl in *.
    destruct (Z.leb_spec b at_); [rewrite decide_True by done|rewrite decide_False by (intros [_ ?]; lia)]; simpl; [congruence|done].
  - rewrite bool_decide_false by done. simpl. destruct (rfind _ rws); [done|]. subst vs1.
    rewrite view_app, view_singleton, decide_False, app_nil_r; [done|]. rewrite Hv. tauto.
Qed.

Lemma rows_seq_imm_forall (P : Version → Prop) rws vs vs' :
  Forall plain_insert rws →
  (∀ r v, r ∈ rws → v_id v = emod_id r → v_block v = BlockCol (emod_block r) →
     (v_cr v = if has_causality_region table then causality_region (emod_key r) else ONCHAIN) → P v) →
  Forall P vs → rows_seq table rws vs = Ok vs' → Forall P vs'.
Proof.
  intros Hpl. revert vs. induction Hpl as [|r rws Hr Hpl IH]; intros vs HP Hvs; simpl; [by intros [= <-]|].
  rewrite bind_ok. intros (vs1 & Hw & Hs). eapply IH; [intros r' v' Hr'; apply HP; by right| |exact Hs].
  destruct Hr as [Hop Hcr]. destruct r as [k d b [e|]| |]; try done.
  unfold write_row, insert_write, insert_version, block_range_value in Hw. simpl in Hw. rewrite Himm in Hw. simpl in Hw.
  destruct (entity_vid d) as [vid|[]|]; try done. destruct (existsb _ vs).
  { destruct (table_skip_duplicates table); by simplify_eq. }
  destruct (existsb (same_vid _) vs); [done|]. injection Hw as <-. apply Forall_app_2; [done|].
  apply Forall_singleton. eapply HP; [by left|done..].
Qed.

End Immutable.

(** ** Tables at a head *)

(** All that the tables hold was written up to block [h]. *)
Definition tables_ok `{InputSchema} (layout : gmap EntityType Table) (h : BlockNumber)
    (db : gmap EntityType (list Version)) : Prop :=
  db_ok db ∧
  ∀ t table, layout !! t = Some table →
    Forall (settled (h + 1)) (db_versions db t) ∧
    (immutable table = true → Forall blocked (db_versions db t)).

Lemma settled_mono n m v : settled n v → n ≤ m → settled m v.
Proof. unfold settled. destruct (v_block v) as [|[|l [u|]]]; simpl; try done; lia. Qed.

Lemma settled_before n id b v : settled n v → n ≤ b → before id b v.
Proof. unfold settled, before. intros Hs Hb _. destruct (v_block v) as [|[|l [u|]]]; try done; lia. Qed.

Section Mutable.
  Context `{EnvVars} `{InputSchema} `{BuildConfig} (table : Table) (t : EntityType).
  Hypothesis Hmut : immutable table = false.

Lemma clamp_fn_settled n ids b v : settled n v → b < n → settled n (clamp_fn ids b v).
Proof.
  unfold settled, clamp_fn. intros Hs Hb. destruct (_ && _); [|done].
  destruct (v_block v) as [l|[|l u]] eqn:Ev; rewrite ?Ev; try done. simpl. destruct (l <? b); simpl; lia.
Qed.

Lemma rows_seq_settled n lo hi rws vs vs' :
  Forall (row_wf t) rws → Forall (row_within lo hi) rws → hi < n →
  Forall (settled n) vs → rows_seq table rws vs = Ok vs' → Forall (settled n) vs'.
Proof.
  intros Hwf Hwi Hhi. revert vs. induction rws as [|r rws IH]; intros vs Hs; simpl; [by intros [= <-]|].
  apply Forall_cons in Hwf as [Hr Hwf]. apply Forall_cons in Hwi as [Hw Hwi].
  rewrite bind_ok. intros (vs1 & Hw1 & Hs1). apply (IH Hwf Hwi vs1); [|done]. clear IH Hs1.
  unfold write_row in Hw1. apply bind_ok in Hw1 as (vs2 & Hc & Hi).
  assert (Forall (settled n) vs2) as Hs2.
  { destruct (is_clamp r); [|by simplify_eq]. apply clamp_versions_ok in Hc as [_ ->].
    apply Forall_fmap. eapply Forall_impl; [exact Hs|]. intros v Hv. simpl. apply clamp_fn_settled; [done|].
    destruct Hw as [[_ ?] _]. lia. }
  destruct (as_write r) as [w|] eqn:Ew; [|by simplify_eq].
  apply insert_write_ok in Hi as (v & Hv & _ & _ & ->); [|done]. apply Forall_app_2; [done|].
  apply Forall_singleton. apply new_version_mut in Hv as (_ & _ & _ & Hvb); [|done]. unfold settled.
  destruct Hr as (_ & _ & _ & Hr), Hw as [Hw1 Hw2].
  destruct r as [k d b [e|]|k d b [e|]|k b]; simplify_eq/=; rewrite Hvb by lia; simpl; lia.
Qed.

End Mutable.

Lemma unclamp_ranged b v : ranged v → ranged (unclamp_version b v).
Proof.
  intros [r Hr]. unfold unclamp_version. destruct (unclamps b v); [|by exists r]. rewrite Hr.
  destruct r as [|l u]; [by exists REmpty|by exists (RRange l None)].
Qed.

(** After a revert to block [r], all comes from the blocks up to [r]. *)
Lemma revert_table_settled table r h vs :
  r ≤ h → h < BLOCK_NUMBER_MAX → Forall (settled (h + 1)) vs →
  (immutable table = true → Forall blocked vs) →
  Forall (settled (r + 1)) (revert_table table (r + 1) vs).1.
Proof.
  intros Hr Hh Hs Hb. unfold revert_table, revert_remove, revert_clamp. simpl.
  rewrite Forall_forall in Hs. destruct (immutable table) eqn:Hi; simpl.
  - apply Forall_forall. intros v [Hc Hv]%list_elem_of_filter. specialize (Hb eq_refl).
    rewrite Forall_forall in Hb. destruct (Hb v Hv) as (l & Hl & _). unfold changed_since, settled in *.
    rewrite Hl in *. lia.
  - apply Forall_fmap, Forall_forall. intros v [Hc Hv]%list_elem_of_filter. specialize (Hs v Hv).
    simpl. unfold unclamp_version, unclamps, settled, changed_since in *.
    destruct (v_block v) as [l|[|l [u|]]] eqn:Ev; simpl in *; rewrite ?Ev; try done; try lia;
      match goal with |- context [if ?c then _ else _] => destruct c eqn:Ec end; simpl; rewrite ?Ev; simpl; lia.
Qed.

(** ** Writing and reverting the tables of a layout *)

Section Tables.
  Context `{EnvVars} `{InputSchema} `{BuildConfig}.
  Context (value_too_large : list EntityWrite → bool) (layout : gmap EntityType Table).
  Hypothesis Hlarge : ∀ ws, value_too_large ws = false.
  Hypothesis Hlayout : layout_ok layout.
  Hypothesis Hintf : ∀ t, share_interfaces t = [].

(** Inserts are only made for entities without a current version, or the
    database makes sure of it. *)
Definition inserts_fit (B : RowGroups) (db : gmap EntityType (list Version)) : Prop :=
  ∀ t table, layout !! t = Some table → is_immutable t = false →
    as_constraint table = true ∨ inserts_ok table (rows_of B t) (db_versions db t).

(** A batch that can follow the tables' head [h] *)
Definition batch_fits (h : BlockNumber) (b : Batch) : Prop :=
  groups_wf (groups (mods b)) ∧ batch_ordered b ∧ h < first_block b ∧
  ptr_number (block_ptr b) < BLOCK_NUMBER_MAX.

(** All that is written for the id of the key is written for the key. *)
Definition key_fits (key : EntityKey) (B : RowGroups) : Prop :=
  ∀ g, groups_group B (entity_type key) = Some g → id_determines_key g key.

(** The rows of appended groups have the keys of the rows that were appended. *)
Lemma append_row_keys (P : EntityKey → Prop) row g g' :
  append_row row g = (g', Ok tt) → P (emod_key row) → Forall (λ r, P (emod_key r)) (rows g) →
  Forall (λ r, P (emod_key r)) (rows g').
Proof.
  unfold append_row, append_row_immutable, push_row. intros Happ Hrow Hg.
  assert (∀ m, P (emod_key m) → Forall (λ r, P (emod_key r)) (rows g ++ [m])) as Hpush.
  { intros m Hm. apply Forall_app_2; [done|]. by constructor. }
  destruct (is_immutable (group_type g)).
  { destruct row; repeat case_match; simplify_eq/=; auto. }
  destruct (prev_row_mut g (emod_id row)) as [[idx prev]|] eqn:Ep; [|simplify_eq/=; auto].
  destruct (_ <=? _); [done|]. case_decide; [done|].
  assert (P (emod_key prev)) as Hprev.
  { assert (∃ i, rows g !! i = Some prev) as [i Hi].
    { unfold prev_row_mut in Ep. case_match; [|apply bind_Some in Ep as (? & _ & Ep)];
        apply fmap_Some in Ep as (r & Hr & [= -> ->]); eauto. }
    by eapply Forall_lookup_1 in Hg. }
  assert (∀ m, P (emod_key m) → Forall (λ r, P (emod_key r)) (<[idx := m]> (rows g))) as Hset
    by (intros m Hm; by apply Forall_insert).
  unfold combine_rows in Happ. destruct prev as [? ? ? []|? ? ? []|], row; simplify_eq/=; auto;
    apply Forall_app_2; auto.
Qed.

Lemma group_append_keys (P : EntityKey → Prop) g2 g g' :
  group_append g2 g = (g', Ok tt) → Forall (λ r, P (emod_key r)) (rows g2) →
  Forall (λ r, P (emod_key r)) (rows g) → Forall (λ r, P (emod_key r)) (rows g').
Proof.
  unfold group_append. case_decide as Hd; [done|]. clear Hd. intros Hst Hg2. revert g Hst.
  induction Hg2 as [|r rs Hr _ IH]; intros g Hst Hg; [by apply st_for_nil_ok in Hst as ->|].
  apply st_for_cons_ok in Hst as (g1 & Hg1 & Hst). eauto using append_row_keys.
Qed.

Lemma key_fits_rows key B :
  key_fits key B ↔ ∀ g, groups_group B (entity_type key) = Some g →
    Forall (λ r, entity_id (emod_key r) = entity_id key → emod_key r = key) (rows g).
Proof.
  unfold key_fits, id_determines_key. split; intros Hk g Hg.
  - apply Forall_forall. intros r Hr. rewrite emod_key_id. by apply (Hk g).
  - intros r Hr. rewrite <-emod_key_id. specialize (Hk g Hg). rewrite Forall_forall in Hk. by apply Hk.
Qed.

Lemma key_fits_append key B1 B2 B :
  groups_wf (groups B1) → groups_wf (groups B2) → groups_append B2 B1 = (B, Ok tt) →
  key_fits key B1 → key_fits key B2 → key_fits key B.
Proof.
  rewrite !key_fits_rows. intros HB1 HB2 Happ Hk1 Hk2 g Hg.
  destruct (groups_append_spec B1 B2 B) as [_ Hall]; [apply HB1|apply HB2|done|]. specialize (Hall (entity_type key)).
  destruct (groups_group B2 (entity_type key)) as [g2|]; [|apply Hk1; congruence].
  destruct Hall as (g' & Hga & Hg'). assert (g' = g) as -> by congruence.
  eapply (group_append_keys (λ k, entity_id k = entity_id key → k = key)); [exact Hga|by apply Hk2|].
  destruct (groups_group B1 (entity_type key)) as [g1|]; simpl; [by apply Hk1|constructor].
Qed.

Definition key_ok (key : EntityKey) (db : gmap EntityType (list Version)) : Prop :=
  ∀ table, layout !! entity_type key = Some table →
    Forall (in_region table key) (db_versions db (entity_type key)) ∧
    (immutable table = true → table_skip_duplicates table = false).

Lemma batch_group b t g :
  groups_wf (groups (mods b)) → batch_ordered b → groups_group (mods b) t = Some g →
  g ∈ groups (mods b) ∧ group_wf g ∧ group_type g = t ∧
  (is_immutable t = false → chain (rows g)) ∧
  Forall (row_within (first_block b) (ptr_number (block_ptr b))) (rows g).
Proof.
  intros Hwf [_ Hord] Hg. destruct (groups_wf_group _ _ _ Hwf Hg) as [Hgw Ht].
  apply groups_group_Some in Hg as [Hin _]; [|apply Hwf]. rewrite Forall_forall in Hord.
  destruct (Hord g Hin) as [Hc Hw]. rewrite Ht in Hc. done.
Qed.

(** Table by table *)
Lemma apply_versions b db db' c c' t :
  groups_wf (groups (mods b)) → db_ok db →
  apply_entity_modifications value_too_large layout (groups (mods b)) db c = Ok (db', c') →
  match groups_group (mods b) t with
  | Some g => group_written layout g db db'
  | None => db_versions db' t = db_versions db t
  end.
Proof.
  intros Hwf Hdb Happ.
  destruct (apply_written value_too_large layout Hlarge Hlayout Hintf _ db c db' c' Hwf Hdb Happ) as (Hall & Ho & _).
  destruct (groups_group (mods b) t) as [g|] eqn:Eg.
  - apply groups_group_Some in Eg as [Hin _]; [|apply Hwf]. rewrite Forall_forall in Hall. by apply Hall.
  - apply groups_group_None in Eg. unfold db_versions. by rewrite Ho.
Qed.

Lemma apply_tables_ok h b db db' c c' :
  tables_ok layout h db → batch_fits h b →
  apply_entity_modifications value_too_large layout (groups (mods b)) db c = Ok (db', c') →
  tables_ok layout (ptr_number (block_ptr b)) db'.
Proof.
  intros [Hdb Htab] (Hwf & Hord & Hh & Hmax) Happ.
  pose proof (apply_written value_too_large layout Hlarge Hlayout Hintf _ db c db' c' Hwf Hdb Happ) as (_ & _ & Hdb' & _).
  split; [done|]. intros t table Ht. pose proof (apply_versions b db db' c c' t Hwf Hdb Happ) as Hv.
  destruct (Htab t table Ht) as [Hset Hbl].
  assert (Forall (settled (ptr_number (block_ptr b) + 1)) (db_versions db t)) as Hset'.
  { eapply Forall_impl; [exact Hset|]. intros v Hv'. eapply settled_mono; [done|]. destruct Hord. lia. }
  destruct (groups_group (mods b) t) as [g|] eqn:Eg; [|by rewrite Hv].
  destruct (batch_group b t g Hwf Hord Eg) as (_ & Hgw & Hty & _ & Hwi).
  destruct Hv as (table' & vs' & Ht' & _ & Hs & Hl). rewrite Hty in *. assert (table' = table) as -> by congruence.
  assert (db_versions db' t = vs') as -> by (unfold db_versions; by rewrite Hl).
  destruct Hgw as (_ & _ & Hrw & Hins). rewrite Hty in Hrw, Hins. destruct (Hlayout _ _ Ht) as (_ & Himm & _).
  destruct (immutable table) eqn:Ei.
  - assert (Forall plain_insert (rows g)) as Hpl by (apply Hins; congruence). rewrite Forall_forall in Hwi.
    split; [|intros _]; eapply (rows_seq_imm_forall table Ei _ (rows g) (db_versions db t)); try done; try by apply Hbl.
    + intros r v Hr _ Hvb _. unfold settled. rewrite Hvb. destruct (Hwi r Hr) as [[_ ?] _]. lia.
    + intros r v Hr _ Hvb _. exists (emod_block r). split; [done|]. destruct (Hwi r Hr) as [[_ ?] _]. lia.
  - split; [|done]. eapply (rows_seq_settled table t Ei _ _ _ (rows g) (db_versions db t)); try done. lia.
Qed.

Lemma apply_find h b db db' c c' key at_ :
  tables_ok layout h db → batch_fits h b → inserts_fit (mods b) db → key_fits key (mods b) → key_ok key db →
  apply_entity_modifications value_too_large layout (groups (mods b)) db c = Ok (db', c') →
  layout_find layout key at_ db' = op_answer (batch_last_op b key at_) (layout_find layout key at_ db).
Proof.
  intros [Hdb Htab] (Hwf & Hord & Hh & Hmax) Hfit Hkey Hok Happ. unfold batch_last_op.
  pose proof (apply_versions b db db' c c' (entity_type key) Hwf Hdb Happ) as Hv.
  destruct (groups_group (mods b) (entity_type key)) as [g|] eqn:Eg; simpl.
  2:{ unfold layout_find. destruct (table_for_entity layout (entity_type key)); simpl; [|done..]. by rewrite Hv. }
  destruct (batch_group b _ g Hwf Hord Eg) as (_ & Hgw & Hty & Hch & Hwi). specialize (Hkey g Eg).
  destruct Hv as (table & vs' & Ht & Hwok & Hs & Hl). rewrite Hty in *.
  destruct (Htab _ table Ht) as [Hset Hbl]. destruct (Hok table Ht) as [Hreg Hskip].
  destruct (Hlayout _ _ Ht) as (_ & Himm & _). destruct (is_immutable (entity_type key)) eqn:Ei.
  - rewrite last_op_fast, last_op_scan_id by (done || apply Hgw).
    pose proof Hgw as (_ & _ & Hrw & Hins). rewrite Hty in Hrw, Hins.
    unfold layout_find, table_for_entity. rewrite Ht. simpl.
    assert (db_versions db' (entity_type key) = vs') as -> by (unfold db_versions; by rewrite Hl).
    assert (Forall blocked vs' ∧ Forall (in_region table key) vs') as [Hbl' Hreg'].
    { rewrite Forall_forall in Hrw. split; eapply (rows_seq_imm_forall table Himm _ (rows g) (db_versions db (entity_type key))); try done; try by (apply Hins || apply Hbl).
      - intros r v Hr _ Hvb _. exists (emod_block r). split; [done|]. by apply (Hrw r Hr).
      - intros r v Hr Hid _ Hcr Hid'. unfold belongs_to_causality_region. destruct (has_causality_region table); [|done].
        rewrite Hcr. rewrite (Hkey r Hr) by congruence. by apply Z.eqb_eq. }
    rewrite !find_view_imm by (try done; by apply Hbl).
    rewrite (rows_view_imm table Himm (entity_id key) (rows g) at_ (db_versions db (entity_type key)) vs');
      [|by apply Hskip|by apply Hins|done].
    destruct (rfind _ (rows g)) as [r|]; simpl; [|done]. by destruct (as_entity_op r at_).
  - apply written_query; try done.
    + by apply Hch.
    + intros table' Ht'. assert (table' = table) as -> by congruence. split; [done|].
      destruct (Hfit _ table Ht Ei) as [|Hf]; [by left|right]. unfold rows_of in Hf. by rewrite Eg in Hf.
    + intros r Hr. rewrite Forall_forall in Hwi. destruct (Hwi r Hr) as [[Hb _] _].
      eapply Forall_impl; [exact Hset|]. intros v Hv. eapply settled_before; [done|]. lia.
    + exists table, vs'. rewrite Hty. done.
Qed.

(** *** Reverting *)

Lemma find_head key at_ db table :
  db_ok db → layout !! entity_type key = Some table → key_ok key db →
  (immutable table = true → Forall blocked (db_versions db (entity_type key))) →
  layout_find layout key at_ db = Ok (head (view (entity_id key) at_ (db_versions db (entity_type key)))).
Proof.
  intros Hdb Ht Hok Hbl. destruct (Hok table Ht) as [Hreg _]. destruct (Hlayout _ _ Ht) as (_ & Himm & _).
  unfold layout_find, table_for_entity. rewrite Ht. simpl. f_equal.
  destruct (immutable table) eqn:Ei; [apply find_view_imm; [done|by apply Hbl|done]|].
  apply find_view; [|done]. apply Hdb. congruence.
Qed.

(** What a revert keeps of each version *)
Lemma revert_table_in table n vs v :
  v ∈ (revert_table table n vs).1 → ∃ v0, v0 ∈ vs ∧ v_id v = v_id v0 ∧ v_cr v = v_cr v0 ∧
    (ranged v0 → ranged v) ∧ (immutable table = true → v = v0).
Proof.
  unfold revert_table, revert_remove, revert_clamp. destruct (immutable table); simpl.
  - intros [_ Hv]%list_elem_of_filter. exists v. done.
  - intros (v0 & -> & [_ Hv]%list_elem_of_filter)%list_elem_of_fmap. exists v0.
    destruct (unclamp_version_fields (n - 1) v0) as [Hi _]. split_and!; try done.
    + unfold unclamp_version. repeat case_match; done.
    + apply unclamp_ranged.
Qed.

Lemma revert_other n db t : layout !! t = None → db_versions (revert_block layout n db).1 t = db_versions db t.
Proof.
  intros Ht. unfold revert_block. rewrite revert_tables_versions by apply NoDup_fst_map_to_list.
  destruct (list_find _ (map_to_list layout)) as [[i [t' table']]|] eqn:Ef; [|done].
  apply list_find_Some in Ef as (Hi & Heq & _). simpl in Heq. subst t'.
  apply list_elem_of_lookup_2, elem_of_map_to_list in Hi. congruence.
Qed.

Lemma revert_tables_ok r h db :
  tables_ok layout h db → r ≤ h → h < BLOCK_NUMBER_MAX →
  tables_ok layout r (revert_block layout (r + 1) db).1.
Proof.
  intros [Hdb Htab] Hr Hh. split.
  - intros t Him. specialize (Hdb t Him). destruct (layout !! t) as [table|] eqn:Ht; [|by rewrite revert_other].
    rewrite (revert_block_versions layout _ db t table Ht). rewrite Forall_forall in Hdb |- *. intros v Hv.
    destruct (revert_table_in _ _ _ _ Hv) as (v0 & Hv0 & _ & _ & Hrg & _). by apply Hrg, Hdb.
  - intros t table Ht. rewrite (revert_block_versions layout _ db t table Ht).
    destruct (Htab t table Ht) as [Hset Hbl]. split; [by eapply revert_table_settled|].
    intros Hi. specialize (Hbl Hi). rewrite Forall_forall in Hbl |- *. intros v Hv.
    destruct (revert_table_in _ _ _ _ Hv) as (v0 & Hv0 & _ & _ & _ & Heq). rewrite (Heq Hi). by apply Hbl.
Qed.

Lemma revert_table_view_imm table id n b vs :
  immutable table = true → Forall blocked vs →
  view id b (revert_table table n vs).1 = view id (Z.min b (n - 1)) vs.
Proof.
  intros Hi Hbl. unfold revert_table, revert_remove. rewrite Hi. simpl. rewrite Forall_forall in Hbl.
  rewrite <-(list_fmap_id (filter _ vs)). apply view_fmap_filter; [done|..].
  - intros v Hv Hc. destruct (Hbl v Hv) as (l & Hl & _). unfold changed_since, exists_at in *.
    simpl. rewrite Hl in *. lia.
  - intros v Hv Hc. apply not_false_iff_true in Hc. eapply exists_changed; [done|lia].
Qed.

Lemma revert_key_ok key n db : key_ok key db → key_ok key (revert_block layout n db).1.
Proof.
  intros Hok table Ht. destruct (Hok table Ht) as [Hreg Hskip]. split; [|done].
  rewrite (revert_block_versions layout n db _ table Ht). rewrite Forall_forall in Hreg |- *. intros v Hv.
  destruct (revert_table_in _ _ _ _ Hv) as (v0 & Hv0 & Hid & Hcr & _). intros Hvid.
  specialize (Hreg v0 Hv0). unfold in_region, belongs_to_causality_region in *. rewrite Hcr. apply Hreg. congruence.
Qed.

Lemma revert_find h r key at_ db :
  tables_ok layout h db → h < BLOCK_NUMBER_MAX → key_ok key db →
  layout_find layout key at_ (revert_block layout (r + 1) db).1 = layout_find layout key (Z.min at_ r) db.
Proof.
  intros [Hdb Htab] Hh Hok. destruct (layout !! entity_type key) as [table|] eqn:Ht.
  2:{ unfold layout_find, table_for_entity. by rewrite Ht. }
  destruct (Htab _ table Ht) as [Hset Hbl]. destruct (Hlayout _ _ Ht) as (_ & Himm & _).
  rewrite (find_head key _ db table) by done.
  assert (db_ok (revert_block layout (r + 1) db).1) as Hdb'.
  { intros t Him. specialize (Hdb t Him). destruct (layout !! t) as [table'|] eqn:Ht'; [|by rewrite revert_other].
    rewrite (revert_block_versions layout _ db t table' Ht'). rewrite Forall_forall in Hdb |- *. intros v Hv.
    destruct (revert_table_in _ _ _ _ Hv) as (v0 & Hv0 & _ & _ & Hrg & _). by apply Hrg, Hdb. }
  rewrite (find_head key _ _ table); [|done|done|by apply revert_key_ok|].
  2:{ intros Hi. specialize (Hbl Hi). rewrite (revert_block_versions layout _ db _ table Ht).
      rewrite Forall_forall in Hbl |- *. intros v Hv.
      destruct (revert_table_in _ _ _ _ Hv) as (v0 & Hv0 & _ & _ & _ & Heq). rewrite (Heq Hi). by apply Hbl. }
  do 2 f_equal. rewrite (revert_block_versions layout _ db _ table Ht).
  replace r with (r + 1 - 1) at 2 by lia.
  destruct (immutable table) eqn:Ei; [apply revert_table_view_imm; [done|by apply Hbl]|].
  apply revert_table_view; [done|apply Hdb; congruence|].
  eapply Forall_impl; [exact Hset|]. intros v. unfold settled, range_ok.
  destruct (v_block v) as [|[|l [u|]]]; simpl; try done. lia.
Qed.

Lemma find_after_head h key at1 at2 db :
  tables_ok layout h db → key_ok key db → h ≤ at1 → h ≤ at2 →
  layout_find layout key at1 db = layout_find layout key at2 db.
Proof.
  intros [Hdb Htab] Hok Hat1 Hat2. destruct (layout !! entity_type key) as [table|] eqn:Ht.
  2:{ unfold layout_find, table_for_entity. by rewrite Ht. }
  destruct (Htab _ table Ht) as [Hset Hbl]. rewrite !(find_head key _ db table) by done. do 2 f_equal.
  rewrite Forall_forall in Hset. unfold view. f_equal. apply filter_ext_in. intros v Hv.
  specialize (Hset v Hv). unfold settled, exists_at in *.
  destruct (v_block v) as [l|[|l [u|]]]; simpl in *; try done; try (replace (l <=? at1) with true by lia; by replace (l <=? at2) with true by lia).
  replace (at1 <? u) with false by lia. replace (at2 <? u) with false by lia. by rewrite !andb_false_r.
Qed.

(** *** Keys *)

Lemma apply_key_ok h b db db' c c' key :
  tables_ok layout h db → batch_fits h b → key_fits key (mods b) → key_ok key db →
  apply_entity_modifications value_too_large layout (groups (mods b)) db c = Ok (db', c') →
  key_ok key db'.
Proof.
  intros [Hdb Htab] (Hwf & Hord & Hh & Hmax) Hkey Hok Happ table Ht.
  destruct (Hok table Ht) as [Hreg Hskip]. split; [|done].
  pose proof (apply_versions b db db' c c' (entity_type key) Hwf Hdb Happ) as Hv.
  destruct (groups_group (mods b) (entity_type key)) as [g|] eqn:Eg; [|by rewrite Hv].
  destruct (batch_group b _ g Hwf Hord Eg) as (_ & Hgw & Hty & Hch & Hwi). specialize (Hkey g Eg).
  destruct Hv as (table' & vs' & Ht' & _ & Hs & Hl). rewrite Hty in *. assert (table' = table) as -> by congruence.
  assert (db_versions db' (entity_type key) = vs') as -> by (unfold db_versions; by rewrite Hl).
  destruct (immutable table) eqn:Ei.
  - destruct Hgw as (_ & _ & Hrw & Hins). rewrite Hty in Hrw, Hins. destruct (Hlayout _ _ Ht) as (_ & Himm & _).
    eapply (rows_seq_imm_forall table Ei _ (rows g) (db_versions db (entity_type key))); try done; [apply Hins; congruence|].
    intros r v Hr Hid _ Hcr Hid'. unfold belongs_to_causality_region. destruct (has_causality_region table); [|done].
    rewrite Hcr. rewrite (Hkey r Hr) by congruence. by apply Z.eqb_eq.
  - eapply rows_seq_region; [done| |exact Hreg|exact Hs]. exact Hkey.
Qed.

End Tables.
