(* ===== verification/SyncStore.v ===== *)
(** * The interface between the write queue and the deployment store

    [SyncStore] (writable.rs) is what the queue calls to write, revert and
    read a deployment; its methods retry the methods of [DeploymentStore].
    The class [SyncStore] has the operations, the class [SyncStoreSpec] what
    the queue relies on.  The deployment store of [Deployment.v] is an
    instance. *)

From Stdlib Require Import ZArith Lia ZifyBool.
From stdpp Require Import base gmap list strings.
From S2P Require Import Prelude Values Intern InternFacts Entity EntityFacts.
From S2P Require Import Write WriteFacts Relational RelationalFacts AppendFacts BatchFacts ReadFacts RevertFacts.
From S2P Require Import Deployment DeploymentFacts.

Local Open Scope Z_scope.

(** ** Operations *)

Class SyncStore (S : Type) := {
  sync_transact : Batch → S → outcome StoreError S;
  sync_revert : BlockPtr → option string → S → outcome StoreError S;
  sync_get : EntityKey → BlockNumber → S → outcome StoreError (option (Object Value));
  sync_get_many : list EntityKey → BlockNumber → S → outcome StoreError (gmap EntityKey (Object Value));
  sync_get_derived : DerivedEntityQuery → BlockNumber → list EntityKey → S →
    outcome StoreError (gmap EntityKey (Object Value));
  sync_load_dds : BlockNumber → S → outcome StoreError (list StoredDynamicDataSource);
}.

(** ** What the queue relies on

    [accepts b s] says that the batch [b] is one that block processing can
    produce for the store [s].  States of the store are compared with a
    relation, since the entity count and the status of a deployment depend on
    how its changes were batched. *)
Class SyncStoreSpec `{EnvVars} `{InputSchema} (S : Type) `{SyncStore S} `{Equiv S}
    (mods_weight : RowGroups → Z) := {
  sync_head : S → BlockNumber;
  store_ok : S → Prop;
  accepts : Batch → S → Prop;
  key_known : EntityKey → S → Prop;
  sync_equiv :: Equivalence (≡@{S});
  accepts_fits b s : accepts b s → batch_fits (sync_head s) b;
  head_proper s s' : s ≡ s' → sync_head s = sync_head s';
  ok_proper s s' : s ≡ s' → store_ok s → store_ok s';
  accepts_proper b s s' : s ≡ s' → accepts b s → accepts b s';
  get_proper key at_ s s' : s ≡ s' → sync_get key at_ s = sync_get key at_ s';
  known_proper key s s' : s ≡ s' → key_known key s → key_known key s';
  transact_proper b s s' t : s ≡ s' → sync_transact b s = Ok t → ∃ t', sync_transact b s' = Ok t' ∧ t ≡ t';
  revert_proper p c s s' t : s ≡ s' → sync_revert p c s = Ok t → ∃ t', sync_revert p c s' = Ok t' ∧ t ≡ t';
  transact_ok b s t :
    store_ok s → accepts b s → sync_transact b s = Ok t → store_ok t ∧ sync_head t = ptr_number (block_ptr b);
  revert_ok p c s t :
    store_ok s → sync_revert p c s = Ok t → store_ok t ∧ sync_head t = ptr_number p ∧ ptr_number p < sync_head s;
  transact_append b1 b2 b' s t1 t2 :
    store_ok s → accepts b1 s → sync_transact b1 s = Ok t1 → accepts b2 t1 → sync_transact b2 t1 = Ok t2 →
    batch_append mods_weight b2 b1 = (b', Ok tt) →
    accepts b' s ∧ ∃ t', sync_transact b' s = Ok t' ∧ t' ≡ t2;
  transact_get key b s t :
    store_ok s → accepts b s → key_fits key (mods b) → key_known key s → sync_transact b s = Ok t →
    key_known key t ∧
    ∀ at_, sync_get key at_ t = op_answer (batch_last_op b key at_) (sync_get key at_ s);
  revert_get key p c s t :
    store_ok s → key_known key s → sync_revert p c s = Ok t →
    key_known key t ∧ ∀ at_, sync_get key at_ t = sync_get key (Z.min at_ (ptr_number p)) s;
  get_after_head key s at1 at2 :
    store_ok s → key_known key s → sync_head s ≤ at1 → sync_head s ≤ at2 →
    sync_get key at1 s = sync_get key at2 s;
}.

#[export] Hint Resolve ok_proper known_proper accepts_proper : stores.

(** ** The deployment store as [SyncStore] *)

(** The grouping of keys in [SyncStore::get_many] *)
Fixpoint ids_by_type `{InputSchema} (keys : list EntityKey)
    (by_type : gmap (EntityType * CausalityRegion) IdList)
    : outcome StoreError (gmap (EntityType * CausalityRegion) IdList) :=
  match keys with
  | [] => Ok by_type
  | key :: keys =>
      let entry := (entity_type key, causality_region key) in
      let ids := default (id_list_new (schema_id_type (entity_type key))) (by_type !! entry) in
      ids ← id_list_push ids (entity_id key);
      ids_by_type keys (<[entry := ids]> by_type)
  end.

Section Instance.
  Context `{EnvVars} `{InputSchema} `{BuildConfig} `{DeploymentConfig}.
  Context (value_too_large : list EntityWrite → bool) (layout : gmap EntityType Table).

Definition deployment_store : SyncStore Deployment := {|
  sync_transact := transact_block_operations value_too_large layout;
  sync_revert := revert_block_operations layout;
  sync_get := deployment_get layout;
  sync_get_many := λ keys block d,
    by_type ← ids_by_type keys ∅;
    deployment_get_many layout (map_to_list by_type) block d;
  sync_get_derived := deployment_get_derived layout;
  sync_load_dds := λ block d, dds_load block (d_data_sources d);
|}.

(** ** Data sources when batches are appended *)

Definition all_dss (l : DataSources) : list StoredDynamicDataSource := concat (snd <$> ds_entries l).
Definition regions (dss : list StoredDynamicDataSource) : list CausalityRegion := ds_causality_region <$> dss.

(** The data sources that a batch adds are new, and the ones it marks as done
    are known offchain data sources. *)
Definition dds_fit (b : Batch) (dss : list StoredDynamicDataSource) : Prop :=
  Forall (λ ds, ds_causality_region ds ≠ ONCHAIN → ds_causality_region ds ∉ regions dss) (all_dss (data_sources b)) ∧
  Forall (λ ds, ds_causality_region ds ≠ ONCHAIN ∧
                ds_causality_region ds ∈ regions (dss ++ all_dss (data_sources b))) (all_dss (offchain_to_remove b)).

(** One update of [done_at] *)
Definition mark_done (ds : StoredDynamicDataSource) (dss : list StoredDynamicDataSource) : list StoredDynamicDataSource :=
  (λ row, if ds_causality_region row =? ds_causality_region ds then set_done_at (done_at ds) row else row) <$> dss.

Definition marks_one (ds : StoredDynamicDataSource) (dss : list StoredDynamicDataSource) : Prop :=
  (length (filter (λ row, ds_causality_region row = ds_causality_region ds) dss) ≤ 1)%nat.

Definition inserts_one (block : BlockNumber) (ds : StoredDynamicDataSource) : Prop :=
  ds_causality_region ds = ONCHAIN → creation_block ds = Some block.

Lemma lift_st_ok {S} (m : st S StoreError unit) s s' : lift_st m s = Ok s' ↔ m s = (s', Ok tt).
Proof. unfold lift_st. destruct (m s) as [s1 [[]| |]]; naive_solver. Qed.

Lemma dds_insert_dss block dss new dss' :
  st_for (dds_insert_one block) new dss = (dss', Ok tt) ↔ Forall (inserts_one block) new ∧ dss' = dss ++ new.
Proof.
  revert dss. induction new as [|ds new IH]; intros dss.
  { rewrite st_for_nil_ok, app_nil_r. split; [intros ->; split; [constructor|done]|by intros [_ ->]]. }
  rewrite st_for_cons_ok, Forall_cons. unfold dds_insert_one at 1, inserts_one at 1.
  destruct (Z.eqb_spec (ds_causality_region ds) ONCHAIN) as [Hr|Hr]; simpl.
  - case_bool_decide as Hc; simpl; [|naive_solver]. setoid_rewrite IH. split.
    + intros (dss1 & [= <-] & Hf & ->). rewrite <-app_assoc. done.
    + intros [[_ Hf] ->]. eexists. split; [done|]. rewrite <-app_assoc. done.
  - setoid_rewrite IH. split.
    + intros (dss1 & [= <-] & Hf & ->). rewrite <-app_assoc. done.
    + intros [[_ Hf] ->]. eexists. split; [done|]. rewrite <-app_assoc. done.
Qed.

Lemma dds_insert_ok es dss dss' :
  dds_insert es dss = (dss', Ok tt) ↔
  Forall (λ e, Forall (inserts_one (ptr_number e.1)) e.2) (ds_entries es) ∧ dss' = dss ++ all_dss es.
Proof.
  unfold dds_insert, all_dss. generalize (ds_entries es) as l. intros l. revert dss.
  induction l as [|e l IH]; intros dss.
  { rewrite st_for_nil_ok, app_nil_r. split; [intros ->; split; [constructor|done]|by intros [_ ->]]. }
  rewrite st_for_cons_ok, Forall_cons, fmap_cons. setoid_rewrite IH. setoid_rewrite dds_insert_dss. cbn [concat].
  split.
  - intros (dss1 & [Hf ->] & Hl & ->). by rewrite app_assoc.
  - intros [[Hf Hl] ->]. eexists. split; [done|]. by rewrite app_assoc.
Qed.

(** All updates of [done_at], one after the other *)
Fixpoint mark_all (l : list StoredDynamicDataSource) (dss : list StoredDynamicDataSource) : list StoredDynamicDataSource :=
  match l with
  | [] => dss
  | ds :: l => mark_all l (mark_done ds dss)
  end.

Lemma mark_done_regions ds dss : regions (mark_done ds dss) = regions dss.
Proof.
  unfold regions, mark_done. rewrite <-list_fmap_compose. apply list_fmap_ext. intros i row _. simpl.
  by destruct (_ =? _).
Qed.

Lemma mark_all_regions l dss : regions (mark_all l dss) = regions dss.
Proof. revert dss. induction l as [|ds l IH]; intros dss; [done|]. simpl. by rewrite IH, mark_done_regions. Qed.

Lemma mark_all_regions_app l dss new : regions (mark_all l dss ++ new) = regions (dss ++ new).
Proof. unfold regions. rewrite !fmap_app. f_equal. apply mark_all_regions. Qed.

Lemma marks_one_regions ds dss :
  marks_one ds dss ↔ (length (filter (λ r, r = ds_causality_region ds) (regions dss)) ≤ 1)%nat.
Proof.
  unfold marks_one, regions. assert (length (filter (λ row, ds_causality_region row = ds_causality_region ds) dss) =
    length (filter (λ r, r = ds_causality_region ds) (ds_causality_region <$> dss))) as ->; [|done].
  induction dss as [|x dss IH]; [done|]. rewrite fmap_cons, !filter_cons. by case_decide; simpl; rewrite IH.
Qed.

Lemma marks_ok l dss dss' :
  st_for update_done_at l dss = (dss', Ok tt) ↔ Forall (λ ds, marks_one ds dss) l ∧ dss' = mark_all l dss.
Proof.
  revert dss. induction l as [|ds l IH]; intros dss.
  { rewrite st_for_nil_ok. split; [intros ->; split; [constructor|done]|by intros [_ ->]]. }
  rewrite st_for_cons_ok, Forall_cons. setoid_rewrite IH. simpl.
  assert (Forall (λ ds0, marks_one ds0 (mark_done ds dss)) l ↔ Forall (λ ds0, marks_one ds0 dss) l) as Hf.
  { apply Forall_iff. intros x. by rewrite !marks_one_regions, mark_done_regions. }
  unfold update_done_at. fold (mark_done ds dss). unfold marks_one at 2.
  destruct (Nat.ltb_spec 1 (length (filter (λ row, ds_causality_region row = ds_causality_region ds) dss))).
  - split; [naive_solver|]. intros [[? _] _]. lia.
  - split.
    + intros (dss1 & [= <-] & Hl & ->). rewrite <-Hf. done.
    + intros [[_ Hl] ->]. eexists. split; [done|]. by rewrite Hf.
Qed.

Lemma update_offchain_ok es dss dss' :
  update_offchain_status es dss = (dss', Ok tt) ↔
  Forall (λ ds, marks_one ds dss) (all_dss es) ∧ dss' = mark_all (all_dss es) dss.
Proof.
  rewrite <-marks_ok. unfold update_offchain_status, data_sources_is_empty, all_dss.
  generalize (ds_entries es) as l. intros l. destruct (forallb _ l) eqn:El.
  - assert (concat (snd <$> l) = []) as ->; [|by rewrite st_for_nil_ok; unfold mret, st_ret; naive_solver].
    induction l as [|[p dss1] l IH]; [done|]. simpl in El. apply andb_true_iff in El as [He El].
    destruct dss1; [|done]. by apply IH.
  - clear El. revert dss. induction l as [|e l IH]; intros dss; [done|]. rewrite st_for_cons_ok, fmap_cons. cbn [concat].
    assert (st_for update_done_at (e.2 ++ concat (snd <$> l)) dss = (dss', Ok tt) ↔
      ∃ s1, st_for update_done_at e.2 dss = (s1, Ok tt) ∧ st_for update_done_at (concat (snd <$> l)) s1 = (dss', Ok tt)) as ->.
    { generalize e.2 as l1. intros l1. revert dss. induction l1 as [|x l1 IH1]; intros dss; cbn [app].
      - setoid_rewrite st_for_nil_ok. naive_solver.
      - rewrite st_for_cons_ok. setoid_rewrite st_for_cons_ok. setoid_rewrite IH1. naive_solver. }
    by setoid_rewrite IH.
Qed.

Lemma mark_all_app l1 l2 dss : mark_all (l1 ++ l2) dss = mark_all l2 (mark_all l1 dss).
Proof. revert dss. induction l1 as [|ds l1 IH]; intros dss; [done|]. simpl. apply IH. Qed.

Lemma mark_all_dss_app l dss1 dss2 : mark_all l (dss1 ++ dss2) = mark_all l dss1 ++ mark_all l dss2.
Proof.
  revert dss1 dss2. induction l as [|ds l IH]; intros dss1 dss2; [done|]. simpl. rewrite <-IH. f_equal.
  unfold mark_done. by rewrite fmap_app.
Qed.

Lemma mark_all_other l dss :
  Forall (λ ds, ds_causality_region ds ∉ regions dss) l → mark_all l dss = dss.
Proof.
  induction 1 as [|ds l Hds _ IH]; [done|]. simpl. assert (mark_done ds dss = dss) as ->; [|done].
  apply fmap_id_on. intros row Hrow. destruct (Z.eqb_spec (ds_causality_region row) (ds_causality_region ds)) as [Heq|]; [|done].
  exfalso. apply Hds. rewrite <-Heq. by apply list_elem_of_fmap_2.
Qed.

Lemma marks_one_app ds dss1 dss2 :
  ds_causality_region ds ∉ regions dss2 → marks_one ds (dss1 ++ dss2) ↔ marks_one ds dss1.
Proof.
  intros Hn. rewrite !marks_one_regions. unfold regions at 1. rewrite fmap_app, filter_app.
  rewrite (filter_none _ (ds_causality_region <$> dss2)), app_nil_r; [done|]. intros r Hr ->. done.
Qed.

(** ** The operations, by what they do to each part *)

#[export] Instance Deployment_equiv : Equiv Deployment := λ d d',
  d_tables d = d_tables d' ∧ d_data_sources d = d_data_sources d' ∧
  head_ptr (d_head d) = head_ptr (d_head d') ∧ head_cursor (d_head d) = head_cursor (d_head d') ∧
  earliest_block (d_status d) = earliest_block (d_status d').

#[export] Instance Deployment_equivalence : Equivalence (≡@{Deployment}).
Proof.
  split; [by intros d|by intros d d' (? & ? & ? & ? & ?)|].
  intros d1 d2 d3 (? & ? & ? & ? & ?) (? & ? & ? & ? & ?). split_and!; congruence.
Qed.

Definition head_number (d : Deployment) : BlockNumber :=
  match head_ptr (d_head d) with Some p => ptr_number p | None => -1 end.

(** What errors do not change *)
Definition same_data (d d' : Deployment) : Prop :=
  d_tables d = d_tables d' ∧ d_data_sources d = d_data_sources d' ∧ d_head d = d_head d' ∧
  earliest_block (d_status d) = earliest_block (d_status d').

Lemma check_health_data b d : same_data (check_health b d) d.
Proof. unfold check_health. destruct (has_deterministic_errors _ _); by case_decide. Qed.

Lemma insert_errors_data es b d : same_data (insert_subgraph_errors es b d) d.
Proof. unfold insert_subgraph_errors. apply (check_health_data b (set_errors _ d)). Qed.

Lemma record_errors_data b d : same_data (record_errors b d) d.
Proof.
  unfold record_errors. destruct (deterministic_errors b) as [|e es]; [done|].
  pose proof (insert_errors_data (e :: es) (ptr_number (block_ptr b)) d) as Hd.
  destruct (is_non_fatal_errors_active b); [|done]. unfold update_non_fatal_errors, update_deployment_status.
  destruct Hd as (? & ? & ? & ?). by split_and!.
Qed.

(** The block number of the head is smaller than that of the pointer. *)
Definition goes_forward (p : BlockPtr) (d : Deployment) : Prop :=
  match head_ptr (d_head d) with Some from => ptr_number from < ptr_number p | None => True end.

Definition insertable (es : DataSources) : Prop :=
  Forall (λ e, Forall (inserts_one (ptr_number e.1)) e.2) (ds_entries es).

Lemma transact_spec b d d' :
  transact_block_operations value_too_large layout b d = Ok d' →
  ∃ c, apply_entity_modifications value_too_large layout (groups (mods b)) (d_tables d) 0 = Ok (d_tables d', c) ∧
    insertable (data_sources b) ∧
    Forall (λ ds, marks_one ds (d_data_sources d ++ all_dss (data_sources b))) (all_dss (offchain_to_remove b)) ∧
    d_data_sources d' = mark_all (all_dss (offchain_to_remove b)) (d_data_sources d ++ all_dss (data_sources b)) ∧
    goes_forward (block_ptr b) d ∧ head_ptr (d_head d') = Some (block_ptr b) ∧
    head_cursor (d_head d') = firehose_cursor b ∧
    earliest_block (d_status d') = earliest_block (d_status d).
Proof.
  unfold transact_block_operations. rewrite bind_ok. intros ([db c] & Happ & Hd). exists c.
  apply bind_ok in Hd as (dss1 & Hi%lift_st_ok%dds_insert_ok & Hd). destruct Hi as [Hins ->].
  apply bind_ok in Hd as (dss2 & Hu%lift_st_ok%update_offchain_ok & Hd). destruct Hu as [Hm ->].
  apply bind_ok in Hd as ([d2 eb] & Ht & [= <-]).
  unfold transact_block in Ht.
  match type of Ht with context [record_errors b ?x] =>
    destruct (record_errors_data b x) as (Ht1 & Hd1 & Hh1 & He1); set (de := record_errors b x) in * end.
  cbn [d_tables d_data_sources d_head d_status set_data_sources set_tables] in *.
  unfold goes_forward. rewrite Hh1 in Ht. destruct (head_ptr (d_head d)) as [from|].
  - destruct (Z.leb_spec (ptr_number (block_ptr b)) (ptr_number from)); [done|]. injection Ht as <- <-. simpl.
    rewrite Ht1, Hd1. split_and!; try done; try lia. rewrite <-He1. unfold reset_reorg_count. by destruct (0 <? _).
  - injection Ht as <- <-. simpl. rewrite Ht1, Hd1. split_and!; try done. rewrite <-He1. unfold reset_reorg_count. by destruct (0 <? _).
Qed.

Lemma transact_intro b d db c :
  apply_entity_modifications value_too_large layout (groups (mods b)) (d_tables d) 0 = Ok (db, c) →
  insertable (data_sources b) →
  Forall (λ ds, marks_one ds (d_data_sources d ++ all_dss (data_sources b))) (all_dss (offchain_to_remove b)) →
  goes_forward (block_ptr b) d →
  ∃ d', transact_block_operations value_too_large layout b d = Ok d' ∧ d_tables d' = db.
Proof.
  intros Happ Hins Hm Hfwd. unfold transact_block_operations. rewrite Happ. cbn [mbind outcome_bind]. cbn [d_data_sources set_tables].
  rewrite (proj2 (lift_st_ok _ _ _) (proj2 (dds_insert_ok _ _ _) (conj Hins eq_refl))). cbn [mbind outcome_bind].
  rewrite (proj2 (lift_st_ok _ _ _) (proj2 (update_offchain_ok _ _ _) (conj Hm eq_refl))). cbn [mbind outcome_bind].
  match goal with |- context [record_errors b ?x] =>
    destruct (record_errors_data b x) as (Ht1 & _ & Hh1 & _); set (de := record_errors b x) in * end.
  unfold transact_block. rewrite Hh1. cbn [d_head set_data_sources set_tables].
  unfold goes_forward in Hfwd. destruct (head_ptr (d_head d)) as [from|].
  - destruct (Z.leb_spec (ptr_number (block_ptr b)) (ptr_number from)); [lia|]. eexists. split; [done|]. simpl. by rewrite Ht1.
  - eexists. split; [done|]. simpl. by rewrite Ht1.
Qed.

Lemma revert_spec p c d d' :
  revert_block_operations layout p c d = Ok d' →
  (∃ hp, head_ptr (d_head d) = Some hp ∧ ptr_number p < ptr_number hp) ∧
  match graft_block with Some g => g ≤ ptr_number p | None => True end ∧
  earliest_block (d_status d) ≤ Z.max (ptr_number p - reorg_threshold) 0 ∧
  d_tables d' = (revert_block layout (ptr_number p + 1) (d_tables d)).1 ∧
  d_data_sources d' = dds_revert (ptr_number p + 1) (d_data_sources d) ∧
  head_ptr (d_head d') = Some p ∧ head_cursor (d_head d') = c ∧
  earliest_block (d_status d') = earliest_block (d_status d).
Proof.
  unfold revert_block_operations. destruct (head_ptr (d_head d)) as [hp|]; [|done].
  destruct (Z.leb_spec (ptr_number hp) (ptr_number p)); [done|]. intros Hr. split; [by exists hp|].
  assert (match graft_block with Some g => g ≤ ptr_number p | None => True end ∧
          rewind_or_truncate layout p c false d = Ok d') as [Hg Hr'].
  { destruct graft_block as [g|]; [|done]. destruct (Z.ltb_spec (ptr_number p) g); [done|]. done. }
  split; [done|]. clear Hr. unfold rewind_or_truncate in Hr'. apply bind_ok in Hr' as (d1 & Hp & Hd).
  unfold revert_block_ptr in Hp. destruct (Z.leb_spec (earliest_block (d_status d)) (Z.max (ptr_number p - reorg_threshold) 0)); [|done].
  injection Hp as <-. cbn [d_tables set_head set_status] in Hd.
  destruct (revert_block layout (ptr_number p + 1) (d_tables d)) as [db cnt] eqn:Er. injection Hd as <-.
  unfold revert_metadata, revert_subgraph_errors.
  match goal with |- context [check_health ?b ?x] =>
    destruct (check_health_data b x) as (Ht1 & Hd1 & Hh1 & He1); set (dc := check_health b x) in * end.
  cbn [d_tables d_data_sources d_head d_status set_errors set_data_sources set_head set_tables set_status earliest_block] in *.
  destruct (failed (d_status dc) && _); cbn [d_tables d_data_sources d_head d_status set_status earliest_block];
    rewrite Ht1, Hd1, Hh1, He1; unfold update_entity_count; destruct (cnt =? 0); done.
Qed.

Lemma revert_intro p c d hp :
  head_ptr (d_head d) = Some hp → ptr_number p < ptr_number hp →
  match graft_block with Some g => g ≤ ptr_number p | None => True end →
  earliest_block (d_status d) ≤ Z.max (ptr_number p - reorg_threshold) 0 →
  ∃ d', revert_block_operations layout p c d = Ok d'.
Proof.
  intros Hhp Hlt Hg He. unfold revert_block_operations. rewrite Hhp.
  destruct (Z.leb_spec (ptr_number hp) (ptr_number p)); [lia|].
  assert (match graft_block with Some g => ptr_number p <? g | None => false end = false) as ->.
  { destruct graft_block; [lia|done]. }
  unfold rewind_or_truncate, revert_block_ptr.
  destruct (Z.leb_spec (earliest_block (d_status d)) (Z.max (ptr_number p - reorg_threshold) 0)); [|lia].
  cbn [mbind outcome_bind d_tables set_head set_status]. destruct (revert_block _ _ _). by eexists.
Qed.

(** ** Appended batches *)

Lemma inserts_ok_fresh table rws vs : inserts_ok table rws vs ↔ rows_fresh table true rws vs.
Proof.
  revert vs. induction rws as [|r rws IH]; intros vs; simpl; [done|]. setoid_rewrite IH.
  apply and_iff_compat_r. destruct r as [k d b [e|]| |]; simpl; naive_solver.
Qed.

Lemma rows_fresh_weaken table rws vs : rows_fresh table true rws vs → rows_fresh table false rws vs.
Proof.
  revert vs. induction rws as [|r rws IH]; intros vs; simpl; [done|]. intros [Hr Hall]. split; [|auto].
  by destruct r as [k d b [e|]| |].
Qed.

Lemma batch_append_removed mods_weight b1 b2 b' :
  batch_append mods_weight b2 b1 = (b', Ok tt) →
  all_dss (data_sources b') = all_dss (data_sources b1) ++ all_dss (data_sources b2) ∧
  ds_entries (data_sources b') = ds_entries (data_sources b1) ++ ds_entries (data_sources b2) ∧
  all_dss (offchain_to_remove b') = all_dss (offchain_to_remove b1) ++ all_dss (offchain_to_remove b2).
Proof.
  unfold batch_append, append_inner. destruct (_ <=? _); [done|].
  destruct (groups_append (mods b2) (mods b1)) as [mods' [[]| |]]; try done. intros [= <-].
  unfold all_dss. simpl. rewrite !fmap_app, !concat_app. done.
Qed.

Section Laws.
  Hypothesis Hlarge : ∀ ws, value_too_large ws = false.
  Hypothesis Hlayout : layout_ok layout.
  Hypothesis Hintf : ∀ t, share_interfaces t = [].
  Context (mods_weight : RowGroups → Z).

(** The freshness of two batches written one after the other, as rows of one
    table *)
Lemma inserts_fit_rows B1 B2 db db1 c1 t table :
  groups_wf (groups B1) → db_ok db →
  apply_entity_modifications value_too_large layout (groups B1) db 0 = Ok (db1, c1) →
  inserts_fit layout B1 db → inserts_fit layout B2 db1 → layout !! t = Some table → is_immutable t = false →
  as_constraint table = true ∨
  rows_fresh table true (rows_of B1 t ++ rows_of B2 t) (db_versions db t).
Proof.
  intros HB1 Hdb Hw1 Hf1 Hf2 Ht Him.
  destruct (Hf1 t table Ht Him) as [|Ho1%inserts_ok_fresh]; [by left|].
  destruct (Hf2 t table Ht Him) as [|Ho2%inserts_ok_fresh]; [by left|]. right.
  destruct (apply_written value_too_large layout Hlarge Hlayout Hintf _ _ _ _ _ HB1 Hdb Hw1) as (Hall & Ho & _).
  rewrite Forall_forall in Hall.
  destruct (written_before layout B1 db db1 t table) as (g1 & _ & _ & _ & Hr1 & _ & Hs1); [done|auto|done|done|].
  rewrite Hr1 in Hs1. by apply (rows_fresh_app table true _ _ _ _ Hs1).
Qed.

Lemma inserts_fit_append B1 B2 B db db1 db2 c1 c2 :
  groups_wf (groups B1) → groups_wf (groups B2) → db_ok db →
  apply_entity_modifications value_too_large layout (groups B1) db 0 = Ok (db1, c1) →
  apply_entity_modifications value_too_large layout (groups B2) db1 0 = Ok (db2, c2) →
  inserts_fit layout B1 db → inserts_fit layout B2 db1 →
  groups_append B2 B1 = (B, Ok tt) → inserts_fit layout B db.
Proof.
  intros HB1 HB2 Hdb Hw1 Hw2 Hf1 Hf2 Happ t table Ht Him.
  destruct (inserts_fit_rows B1 B2 db db1 c1 t table) as [|Hfresh]; [done..|by left|]. right. apply inserts_ok_fresh.
  destruct (apply_written value_too_large layout Hlarge Hlayout Hintf _ _ _ _ _ HB1 Hdb Hw1) as (Hall1 & Ho1 & Hdb1 & _).
  destruct (apply_written value_too_large layout Hlarge Hlayout Hintf _ _ _ _ _ HB2 Hdb1 Hw2) as (Hall2 & _ & _ & _).
  rewrite Forall_forall in Hall1. rewrite Forall_forall in Hall2.
  destruct (written_before layout B1 db db1 t table) as (g1 & Hg1eq & Ht1 & Hg1 & Hr1 & _ & Hs1); [done|auto|done|done|].
  destruct (groups_append_spec B1 B2 B) as [_ Happd]; [apply HB1|apply HB2|done|]. specialize (Happd t).
  unfold rows_of in Hfresh |- *. destruct (groups_group B2 t) as [g2|] eqn:E2.
  - destruct Happd as (g' & Hga & ->). rewrite Hg1eq in Hga.
    destruct (groups_wf_group _ _ _ HB2 E2) as [Hg2 Ht2].
    assert (g2 ∈ groups B2) as Hin2 by (apply groups_group_Some in E2 as [? _]; [done|apply HB2]).
    destruct (Hall2 _ Hin2) as (table' & vs2 & Ht' & _ & Hs2 & _). rewrite Ht2 in *.
    assert (table' = table) as -> by congruence. destruct (Hlayout _ _ Ht) as (_ & Himm & _).
    unfold group_append in Hga. case_decide as Hteq; [done|]. unfold rows_of in Hr1. rewrite <-Hr1 in Hfresh.
    eapply (group_append_rows table true); [congruence| |exact Hg1| | |exact Hfresh|exact Hga|exact Hs1|exact Hs2].
    + congruence.
    + rewrite Ht1, <-Ht2. apply Hg2.
    + by apply Hdb.
  - rewrite Happd. by rewrite app_nil_r in Hfresh.
Qed.

(** ** The laws *)

Definition deployment_ok (d : Deployment) : Prop :=
  tables_ok layout (head_number d) (d_tables d) ∧ head_number d < BLOCK_NUMBER_MAX.

Definition deployment_accepts (b : Batch) (d : Deployment) : Prop :=
  batch_fits (head_number d) b ∧ inserts_fit layout (mods b) (d_tables d) ∧ dds_fit b (d_data_sources d).

Lemma head_number_equiv d d' : d ≡ d' → head_number d = head_number d'.
Proof. intros (_ & _ & Hh & _). unfold head_number. by rewrite Hh. Qed.

Lemma deployment_transact_proper b d d' t :
  d ≡ d' → transact_block_operations value_too_large layout b d = Ok t →
  ∃ t', transact_block_operations value_too_large layout b d' = Ok t' ∧ t ≡ t'.
Proof.
  intros (Ht & Hd & Hh & Hc & He) Htr.
  destruct (transact_spec b d t Htr) as (c & Happ & Hins & Hm & Hds & Hf & Hp & Hcu & Hea).
  destruct (transact_intro b d' (d_tables t) c) as (t' & Htr' & Htab).
  - by rewrite <-Ht.
  - done.
  - by rewrite <-Hd.
  - unfold goes_forward in *. by rewrite <-Hh.
  - exists t'. split; [done|].
    destruct (transact_spec b d' t' Htr') as (c' & _ & _ & _ & Hds' & _ & Hp' & Hcu' & Hea').
    split_and!; congruence.
Qed.

Lemma deployment_revert_proper p c d d' t :
  d ≡ d' → revert_block_operations layout p c d = Ok t →
  ∃ t', revert_block_operations layout p c d' = Ok t' ∧ t ≡ t'.
Proof.
  intros (Ht & Hd & Hh & Hc & He) Hr.
  destruct (revert_spec p c d t Hr) as ((hp & Hhp & Hlt) & Hg & Hea & Htab & Hds & Hp & Hcu & Hea').
  destruct (revert_intro p c d' hp) as [t' Hr']; [congruence|done|done|congruence|].
  exists t'. split; [done|]. destruct (revert_spec p c d' t' Hr') as (_ & _ & _ & Htab' & Hds' & Hp' & Hcu' & Hea2).
  split_and!; congruence.
Qed.

Lemma deployment_transact_ok b d t :
  deployment_ok d → deployment_accepts b d → transact_block_operations value_too_large layout b d = Ok t →
  deployment_ok t ∧ head_number t = ptr_number (block_ptr b).
Proof.
  intros [Hok Hh] (Hfit & _) Htr. destruct (transact_spec b d t Htr) as (c & Happ & _ & _ & _ & _ & Hp & _).
  assert (head_number t = ptr_number (block_ptr b)) as Ht by (unfold head_number; by rewrite Hp).
  unfold deployment_ok. rewrite Ht. split; [|done].
  split; [eapply (apply_tables_ok value_too_large layout Hlarge Hlayout Hintf); done|].
  destruct Hfit as (_ & [Hb _] & ? & ?). lia.
Qed.

Lemma deployment_revert_ok p c d t :
  deployment_ok d → revert_block_operations layout p c d = Ok t →
  deployment_ok t ∧ head_number t = ptr_number p ∧ ptr_number p < head_number d.
Proof.
  intros [Hok Hh] Hr. destruct (revert_spec p c d t Hr) as ((hp & Hhp & Hlt) & _ & _ & Htab & _ & Hp & _).
  assert (head_number t = ptr_number p) as Ht by (unfold head_number; by rewrite Hp).
  assert (head_number d = ptr_number hp) as Hd by (unfold head_number; by rewrite Hhp).
  unfold deployment_ok. rewrite Ht, Htab. rewrite Hd in *. split; [|split; [done|lia]]. split; [|lia].
  eapply (revert_tables_ok layout); [exact Hok|lia|lia].
Qed.

(** The data sources that a batch marks as done are not among the new ones of
    the batch that follows. *)
Lemma dds_fit_disjoint b1 b2 dss :
  dds_fit b1 dss → dds_fit b2 (mark_all (all_dss (offchain_to_remove b1)) (dss ++ all_dss (data_sources b1))) →
  Forall (λ ds, ds_causality_region ds ∉ regions (all_dss (data_sources b2))) (all_dss (offchain_to_remove b1)).
Proof.
  intros [_ Hrm1] [Hnew2 _]. eapply Forall_impl; [exact Hrm1|]. simpl.
  intros ds [Hoff Hin] (x & Hx & Hxin)%list_elem_of_fmap. rewrite Forall_forall in Hnew2.
  apply (Hnew2 x Hxin); [congruence|]. by rewrite mark_all_regions, <-Hx.
Qed.

Lemma dds_fit_append b1 b2 b' dss :
  all_dss (data_sources b') = all_dss (data_sources b1) ++ all_dss (data_sources b2) →
  all_dss (offchain_to_remove b') = all_dss (offchain_to_remove b1) ++ all_dss (offchain_to_remove b2) →
  dds_fit b1 dss → dds_fit b2 (mark_all (all_dss (offchain_to_remove b1)) (dss ++ all_dss (data_sources b1))) →
  dds_fit b' dss.
Proof.
  intros Hall Hrem [Hnew1 Hrm1] [Hnew2 Hrm2].
  unfold dds_fit. rewrite Hrem, Hall. split; apply Forall_app_2.
  - done.
  - eapply Forall_impl; [exact Hnew2|]. simpl. intros ds Hn Hoff Hin. apply (Hn Hoff). rewrite mark_all_regions.
    unfold regions in *. rewrite fmap_app. set_solver.
  - eapply Forall_impl; [exact Hrm1|]. simpl. intros ds [? Hin]. split; [done|]. rewrite app_assoc. unfold regions in *.
    rewrite fmap_app. set_solver.
  - eapply Forall_impl; [exact Hrm2|]. simpl. intros ds [? Hin]. split; [done|].
    by rewrite app_assoc, <-(mark_all_regions_app (all_dss (offchain_to_remove b1))).
Qed.

Lemma marks_one_append b1 b2 dss :
  Forall (λ ds, ds_causality_region ds ∉ regions (all_dss (data_sources b2))) (all_dss (offchain_to_remove b1)) →
  Forall (λ ds, marks_one ds (dss ++ all_dss (data_sources b1))) (all_dss (offchain_to_remove b1)) →
  Forall (λ ds, marks_one ds (mark_all (all_dss (offchain_to_remove b1)) (dss ++ all_dss (data_sources b1)) ++ all_dss (data_sources b2)))
    (all_dss (offchain_to_remove b2)) →
  Forall (λ ds, marks_one ds ((dss ++ all_dss (data_sources b1)) ++ all_dss (data_sources b2)))
    (all_dss (offchain_to_remove b1) ++ all_dss (offchain_to_remove b2)).
Proof.
  intros Hdisj Hm1 Hm2. apply Forall_app_2.
  - rewrite Forall_forall in Hm1. rewrite Forall_forall in Hdisj. apply Forall_forall. intros ds Hds.
    apply marks_one_app; [by apply Hdisj|by apply Hm1].
  - eapply Forall_impl; [exact Hm2|]. intros ds. by rewrite !marks_one_regions, mark_all_regions_app.
Qed.

Lemma deployment_transact_append b1 b2 b' d t1 t2 :
  deployment_ok d → deployment_accepts b1 d →
  transact_block_operations value_too_large layout b1 d = Ok t1 → deployment_accepts b2 t1 →
  transact_block_operations value_too_large layout b2 t1 = Ok t2 →
  batch_append mods_weight b2 b1 = (b', Ok tt) →
  deployment_accepts b' d ∧ ∃ t', transact_block_operations value_too_large layout b' d = Ok t' ∧ t' ≡ t2.
Proof.
  intros [[Hdb _] Hh] (Hfit1 & Hins1 & Hd1) Htr1 (Hfit2 & Hins2 & Hd2) Htr2 Happ.
  destruct (transact_spec b1 d t1 Htr1) as (c1 & Ha1 & Hi1 & Hm1 & Hds1 & Hf1 & Hp1 & _ & He1).
  destruct (transact_spec b2 t1 t2 Htr2) as (c2 & Ha2 & Hi2 & Hm2 & Hds2 & Hf2 & Hp2 & Hc2 & He2).
  destruct (batch_append_mods _ _ _ _ Happ) as (Hmods & Hptr & Hfirst & _ & Hcur & _).
  destruct (batch_append_removed _ _ _ _ Happ) as (Hall & Hent & Hrem).
  destruct Hfit1 as (Hwf1 & Hord1 & Hlt1 & Hmax1), Hfit2 as (Hwf2 & Hord2 & Hlt2 & Hmax2).
  assert (head_number t1 = ptr_number (block_ptr b1)) as Ht1 by (unfold head_number; by rewrite Hp1).
  rewrite Ht1 in Hlt2.
  assert (batch_fits (head_number d) b') as Hfit'.
  { split_and!; [eapply groups_append_wf; [exact Hwf1|exact Hwf2|done]|eapply batch_append_ordered; [exact Hwf1|exact Hwf2|done..]
      |rewrite Hfirst; done|rewrite Hptr; done]. }
  rewrite Hds1 in Hd2. pose proof (dds_fit_disjoint _ _ _ Hd1 Hd2) as Hdisj.
  assert (deployment_accepts b' d) as Hacc'.
  { split; [done|]. split; [eapply inserts_fit_append; [exact Hwf1|exact Hwf2|exact Hdb|exact Ha1|exact Ha2|done..]|].
    by apply (dds_fit_append b1 b2). }
  split; [done|].
  destruct (groups_append_refines value_too_large layout Hlarge Hlayout Hintf (mods b1) (mods b2) (mods b')
    (d_tables d) (d_tables t1) (d_tables t2) c1 c2) as [c' Ha']; try done.
  { intros t table Ht Him. destruct (inserts_fit_rows (mods b1) (mods b2) (d_tables d) (d_tables t1) c1 t table) as [|Hf]; try done;
      [by left|right]. by apply rows_fresh_weaken. }
  destruct (transact_intro b' d (d_tables t2) c') as (t' & Htr' & Htab').
  - done.
  - unfold insertable. rewrite Hent. by apply Forall_app_2.
  - rewrite Hds1 in Hm2. rewrite Hrem, Hall, app_assoc. by apply marks_one_append.
  - rewrite Hptr. unfold goes_forward in *. destruct (head_ptr (d_head d)); [|done]. rewrite Hp1 in Hf2. lia.
  - exists t'. split; [done|].
    destruct (transact_spec b' d t' Htr') as (_ & _ & _ & _ & Hds' & _ & Hp' & Hcu' & He').
    split_and!; [done| |congruence|congruence|congruence].
    rewrite Hds', Hrem, Hall, app_assoc, mark_all_app, mark_all_dss_app, Hds2, Hds1. f_equal. f_equal.
    by apply mark_all_other.
Qed.

Lemma deployment_transact_get key b d t :
  deployment_ok d → deployment_accepts b d → key_fits key (mods b) → key_ok layout key (d_tables d) →
  transact_block_operations value_too_large layout b d = Ok t →
  key_ok layout key (d_tables t) ∧
  ∀ at_, deployment_get layout key at_ t =
    op_answer (batch_last_op b key at_) (deployment_get layout key at_ d).
Proof.
  intros [Hok Hh] (Hfit & Hins & _) Hkey Hkok Htr. destruct (transact_spec b d t Htr) as (c & Happ & _). split.
  - by eapply (apply_key_ok value_too_large layout Hlarge Hlayout Hintf).
  - intros at_. by eapply (apply_find value_too_large layout Hlarge Hlayout Hintf).
Qed.

Lemma deployment_revert_get key p c d t :
  deployment_ok d → key_ok layout key (d_tables d) → revert_block_operations layout p c d = Ok t →
  key_ok layout key (d_tables t) ∧
  ∀ at_, deployment_get layout key at_ t = deployment_get layout key (Z.min at_ (ptr_number p)) d.
Proof.
  intros [Hok Hh] Hkok Hr. destruct (revert_spec p c d t Hr) as (_ & _ & _ & Htab & _). rewrite Htab. split.
  - by apply revert_key_ok.
  - intros at_. unfold deployment_get. rewrite Htab. by eapply revert_find.
Qed.

Lemma deployment_get_after_head key d at1 at2 :
  deployment_ok d → key_ok layout key (d_tables d) → head_number d ≤ at1 → head_number d ≤ at2 →
  deployment_get layout key at1 d = deployment_get layout key at2 d.
Proof. intros [Hok _] Hkok Ha1 Ha2. by eapply find_after_head. Qed.

#[local] Existing Instance deployment_store.

Definition deployment_store_spec : SyncStoreSpec Deployment mods_weight.
Proof.
  refine {|
    sync_head := head_number;
    store_ok := deployment_ok;
    accepts := deployment_accepts;
    key_known := λ key d, key_ok layout key (d_tables d);
    transact_proper := deployment_transact_proper;
    revert_proper := deployment_revert_proper;
    transact_ok := deployment_transact_ok;
    revert_ok := deployment_revert_ok;
    transact_append := deployment_transact_append;
    transact_get := deployment_transact_get;
    revert_get := deployment_revert_get;
    get_after_head := deployment_get_after_head;
  |}.
  - by intros b d [? _].
  - apply head_number_equiv.
  - intros d d' Heq [Hok Hh]. pose proof (head_number_equiv d d' Heq) as Hn. destruct Heq as (Ht & _).
    unfold deployment_ok. by rewrite <-Hn, <-Ht.
  - intros b d d' Heq (Hf & Hi & Hd). pose proof (head_number_equiv d d' Heq) as Hn. destruct Heq as (Ht & Hds & _).
    unfold deployment_accepts. by rewrite <-Hn, <-Ht, <-Hds.
  - intros key at_ d d' (Ht & _). simpl. unfold deployment_get. by rewrite Ht.
  - intros key d d' (Ht & _). by rewrite Ht.
Defined.

End Laws.

End Instance.
