(* ===== verification/UnfailFacts.v ===== *)
(** * Failing and unfailing a deployment

    [fail_subgraph] stores a fatal error and stops a deployment.  On the next
    start, [unfail_deterministic_error] reverts the block of a deterministic
    error so that it is processed again; after a block was processed,
    [unfail_non_deterministic_error] forgets an error that is in the past. *)

From Stdlib Require Import ZArith Lia ZifyBool.
From stdpp Require Import base gmap list strings.
From S2P Require Import Prelude Values Intern InternFacts Entity EntityFacts.
From S2P Require Import Write WriteFacts Relational RelationalFacts AppendFacts BatchFacts ReadFacts RevertFacts.
From S2P Require Import Deployment DeploymentFacts SyncStore.

Local Open Scope Z_scope.

Section Unfail.
  Context `{EV : EnvVars} `{IS : InputSchema} `{BC : BuildConfig} `{DC : DeploymentConfig}.
  Context (value_too_large : list EntityWrite → bool) (layout : gmap EntityType Table).
  Implicit Types (d : Deployment) (e : SubgraphError).

(** If there is an error with the id of [e], it is [e]. *)
Definition id_identifies e d : Prop := ∀ r, r ∈ d_errors d → er_id r = error_id e → r = error_row e.

Lemma insert_error_rows e es r :
  r ∈ insert_subgraph_error e es ↔ r ∈ es ∨ (r = error_row e ∧ error_id e ∉ er_id <$> es).
Proof.
  unfold insert_subgraph_error. case_decide; [naive_solver|]. rewrite elem_of_app, list_elem_of_singleton. naive_solver.
Qed.

(** The fatal error of a deployment that has just failed *)
Lemma fail_fatal e d : id_identifies e d → fatal (fail e d) = Some (error_row e).
Proof.
  intros Hid. unfold fatal, fail, update_deployment_status. cbn [fatal_error d_status set_status d_errors mbind option_bind set_errors].
  destruct (list_find _ _) as [[i r]|] eqn:Ef.
  - apply list_find_Some in Ef as (Hr & Heq & _). simpl. f_equal.
    apply list_elem_of_lookup_2, insert_error_rows in Hr as [Hr|[-> _]]; [by apply Hid|done].
  - exfalso. apply list_find_None in Ef. rewrite Forall_forall in Ef. unfold insert_subgraph_error in Ef. case_decide as Hin.
    + apply list_elem_of_fmap in Hin as (r & Heq & Hr). by apply (Ef r Hr).
    + apply (Ef (error_row e)); [|done]. apply elem_of_app. right. by apply list_elem_of_singleton.
Qed.

(** [fail] only changes the status and the errors. *)
Lemma fail_data e d : same_data (fail e d) d.
Proof. done. Qed.

(** Both methods leave a deployment without a fatal error alone. *)
Lemma unfail_noop current parent d :
  fatal d = None →
  unfail_deterministic_error layout current parent d = Ok (d, Noop) ∧ unfail_non_deterministic_error current d = Ok (d, Noop).
Proof. intros Hf. unfold unfail_deterministic_error, unfail_non_deterministic_error. by rewrite Hf. Qed.

(** ** The errors of blocks *)

(** All errors are from blocks up to [n]. *)
Definition errors_until (n : BlockNumber) d : Prop := Forall (λ r, er_block r ≤ n) (d_errors d).

(** The errors of a batch are from its blocks. *)
Definition batch_errors_ok (b : Batch) : Prop :=
  Forall (λ e, ∃ p, err_block_ptr e = Some p ∧ first_block b ≤ ptr_number p) (deterministic_errors b).

Lemma insert_error_until n e es :
  (∃ p, err_block_ptr e = Some p ∧ n < ptr_number p) →
  filter (λ r, er_block r < n + 1) (insert_subgraph_error e es) = filter (λ r, er_block r < n + 1) es.
Proof.
  intros (p & Hp & Hn). unfold insert_subgraph_error. case_decide; [done|]. rewrite filter_app, filter_cons, filter_nil.
  rewrite decide_False; [by rewrite app_nil_r|]. unfold error_row. rewrite Hp. simpl. lia.
Qed.

Lemma insert_errors_until n errors es :
  Forall (λ e, ∃ p, err_block_ptr e = Some p ∧ n < ptr_number p) errors →
  filter (λ r, er_block r < n + 1) (foldl (λ es e, insert_subgraph_error e es) es errors) = filter (λ r, er_block r < n + 1) es.
Proof.
  revert es. induction errors as [|e errors IH]; intros es Hall; [done|]. apply Forall_cons in Hall as [He Hall]. simpl.
  by rewrite IH, insert_error_until.
Qed.

Lemma check_health_errors b d : d_errors (check_health b d) = d_errors d.
Proof. unfold check_health. destruct (has_deterministic_errors _ _); by case_decide. Qed.

Lemma record_errors_until n b d :
  n < first_block b → batch_errors_ok b →
  filter (λ r, er_block r < n + 1) (d_errors (record_errors b d)) = filter (λ r, er_block r < n + 1) (d_errors d).
Proof.
  intros Hn Hb. unfold record_errors. unfold batch_errors_ok in Hb. destruct (deterministic_errors b) as [|e es] eqn:Ee; [done|].
  assert (Forall (λ e, ∃ p, err_block_ptr e = Some p ∧ n < ptr_number p) (e :: es)) as Hall.
  { eapply Forall_impl; [exact Hb|]. simpl. intros e' (p & ? & ?). exists p. split; [done|lia]. }
  assert (filter (λ r, er_block r < n + 1) (d_errors (insert_subgraph_errors (e :: es) (ptr_number (block_ptr b)) d)) =
          filter (λ r, er_block r < n + 1) (d_errors d)) as Hi.
  { unfold insert_subgraph_errors. rewrite check_health_errors. by apply insert_errors_until. }
  by destruct (is_non_fatal_errors_active b).
Qed.

Lemma transact_errors n b d d' :
  transact_block_operations value_too_large layout b d = Ok d' → n < first_block b → batch_errors_ok b →
  filter (λ r, er_block r < n + 1) (d_errors d') = filter (λ r, er_block r < n + 1) (d_errors d).
Proof.
  intros Htr Hn Hb. unfold transact_block_operations in Htr. apply bind_ok in Htr as ([db c] & _ & Htr).
  apply bind_ok in Htr as (dss1 & _ & Htr). apply bind_ok in Htr as (dss2 & _ & Htr).
  apply bind_ok in Htr as ([d2 eb] & Ht & [= <-]). unfold transact_block in Ht.
  assert (∀ (c : bool) x, (if c then Err (DuplicateBlockProcessing (ptr_number (block_ptr b))) else Ok x) = Ok (d2, eb) → x = (d2, eb)) as Hif
    by (intros [] x; naive_solver).
  apply Hif in Ht. injection Ht as <- _. cbn [d_errors set_head set_status]. by rewrite record_errors_until.
Qed.

Lemma revert_errors p c d d' :
  revert_block_operations layout p c d = Ok d' → d_errors d' = filter (λ r, er_block r < ptr_number p + 1) (d_errors d).
Proof.
  unfold revert_block_operations. destruct (head_ptr (d_head d)); [|done]. destruct (_ <=? _); [done|].
  case_match; [done|]. unfold rewind_or_truncate. rewrite bind_ok. intros (d1 & Hp & [= <-]).
  unfold revert_block_ptr in Hp. destruct (_ <=? _); [|done]. injection Hp as <-. cbn [d_tables set_head set_status].
  destruct (revert_block _ _ _) as [db cnt]. unfold revert_metadata, revert_subgraph_errors.
  destruct (failed _ && _); cbn [d_errors set_status]; by rewrite check_health_errors.
Qed.

Lemma has_errors_until n es :
  has_deterministic_errors n (filter (λ r, er_block r < n + 1) es) = has_deterministic_errors n es.
Proof.
  unfold has_deterministic_errors. induction es as [|r es IH]; [done|]. rewrite filter_cons. case_decide; simpl; rewrite IH; [done|].
  destruct (Z.leb_spec (er_block r) n); [lia|]. by rewrite andb_false_r.
Qed.

Lemma filter_until n d : errors_until n d → filter (λ r, er_block r < n + 1) (d_errors d) = d_errors d.
Proof.
  unfold errors_until. induction (d_errors d) as [|r es IH]; [done|]. intros [Hr Hes]%Forall_cons.
  rewrite filter_cons, decide_True by lia. by rewrite IH.
Qed.

(** ** Unfailing *)

Section Laws.
  Hypothesis Hlarge : ∀ ws, value_too_large ws = false.
  Hypothesis Hlayout : layout_ok layout.
  Hypothesis Hintf : ∀ t, share_interfaces t = [].

(** Reverting the batch that was written last restores the tables. *)
Lemma transact_revert_tables b p c d d1 d2 d' t table :
  deployment_ok layout d → deployment_accepts layout b d →
  transact_block_operations value_too_large layout b d = Ok d1 → d_tables d2 = d_tables d1 →
  ptr_number p = head_number d → revert_block_operations layout p c d2 = Ok d' →
  layout !! t = Some table → db_versions (d_tables d') t = db_versions (d_tables d) t.
Proof.
  intros [[Hdb Hok] Hh] ((Hwf & Hord & Hlt & Hmax) & _) Htr Heq Hp Hrev Ht.
  destruct (transact_spec _ _ _ _ _ Htr) as (n & Happ & _). destruct (revert_spec _ _ _ _ _ Hrev) as (_ & _ & _ & -> & _).
  rewrite Heq, Hp. eapply (apply_revert value_too_large layout (groups (mods b)) _ _ _ 0 n); try done; [lia| |by eapply Hok].
  apply Forall_forall. intros g Hg. destruct Hord as [_ Hord]. rewrite Forall_forall in Hord. destruct (Hord g Hg) as [Hc Hw].
  split; [|done]. eapply Forall_impl; [exact Hw|]. simpl. intros r [Hb _]. lia.
Qed.

(** C25: unfailing undoes the block that failed.  A block is written, it has a
    deterministic fatal error, and the deployment is failed.  Then
    [unfail_deterministic_error] takes the deployment back to the block
    before: the head, every version in the tables, and the errors are as they
    were, there is no fatal error, and the health tells whether there are
    deterministic errors. *)
Theorem unfail_undoes_block b e parent d d1 :
  deployment_ok layout d → deployment_accepts layout b d →
  transact_block_operations value_too_large layout b d = Ok d1 →
  head_ptr (d_head d) = Some parent → errors_until (ptr_number parent) d → batch_errors_ok b →
  deterministic e = true → err_block_ptr e = Some (block_ptr b) → id_identifies e d1 →
  match graft_block with Some g => g ≤ ptr_number parent | None => True end →
  earliest_block (d_status d) ≤ Z.max (ptr_number parent - reorg_threshold) 0 →
  ∃ d', unfail_deterministic_error layout (block_ptr b) parent (fail e d1) = Ok (d', Unfailed) ∧
    head_ptr (d_head d') = Some parent ∧ head_cursor (d_head d') = None ∧
    (∀ t table, layout !! t = Some table → db_versions (d_tables d') t = db_versions (d_tables d) t) ∧
    d_errors d' = d_errors d ∧ fatal d' = None ∧ failed (d_status d') = false ∧
    health (d_status d') = (if has_deterministic_errors (ptr_number parent) (d_errors d) then Unhealthy else Healthy).
Proof.
  intros Hok Hacc Htr Hhead Hun Hbe Hdet Hptr Hid Hg He. pose proof Hacc as ((_ & [Hfl _] & Hlt & _) & _).
  assert (head_number d = ptr_number parent) as Hn by (unfold head_number; by rewrite Hhead). rewrite Hn in Hlt.
  destruct (transact_spec _ _ _ _ _ Htr) as (n & _ & _ & _ & _ & _ & Hh1 & _ & He1).
  destruct (revert_intro layout parent None (fail e d1) (block_ptr b)) as [dr Hrev]; [done|lia|done|simpl; by rewrite He1|].
  assert (d_errors dr = d_errors d) as Herr.
  { rewrite (revert_errors _ _ _ _ Hrev). unfold fail. cbn [d_errors update_deployment_status set_status set_errors].
    rewrite insert_error_until by (exists (block_ptr b); split; [done|lia]). rewrite (transact_errors _ _ _ _ Htr Hlt Hbe).
    by apply filter_until. }
  exists (update_deployment_status
           (if has_deterministic_errors (ptr_number parent) (d_errors d) then Unhealthy else Healthy) None None dr).
  destruct (revert_spec _ _ _ _ _ Hrev) as (_ & _ & _ & _ & _ & Hp & Hc & _). split_and!; try done.
  - unfold unfail_deterministic_error. rewrite fail_fatal by done. cbn [er_deterministic error_row er_block_hash].
    rewrite Hdet, Hptr. simpl. rewrite decide_True by done. rewrite Hrev. simpl.
    rewrite <-(has_errors_until (ptr_number parent) (insert_subgraph_error e (d_errors d1))).
    assert (filter (λ r, er_block r < ptr_number parent + 1) (insert_subgraph_error e (d_errors d1)) = d_errors d) as ->; [|done].
    by rewrite <-Herr, (revert_errors _ _ _ _ Hrev).
  - intros t table Ht. by eapply (transact_revert_tables b parent None d d1 (fail e d1) dr).
  - simpl. by destruct (has_deterministic_errors _ _).
Qed.

End Laws.

(** What [unfail_non_deterministic_error] does with an error of block [n]: it is
    forgotten once the head has reached [n], and nothing but the status and the
    errors changes. *)
Theorem unfail_non_deterministic_spec e current d n :
  deterministic e = false → er_block (error_row e) = n → id_identifies e d →
  unfail_deterministic_error layout current current (fail e d) = Ok (fail e d, Noop) ∧
  (ptr_number current < n → unfail_non_deterministic_error current (fail e d) = Ok (fail e d, BehindErrorBlock)) ∧
  (n ≤ ptr_number current →
   ∃ d', unfail_non_deterministic_error current (fail e d) = Ok (d', Unfailed) ∧ same_data d' d ∧
     fatal d' = None ∧ failed (d_status d') = false ∧ health (d_status d') = Healthy ∧
     ∀ r, r ∈ d_errors d' ↔ r ∈ d_errors d ∧ er_id r ≠ error_id e).
Proof.
  intros Hdet Hn Hid. unfold unfail_deterministic_error, unfail_non_deterministic_error. rewrite fail_fatal by done.
  rewrite Hn. cbn [er_deterministic error_row er_id]. rewrite Hdet. split; [done|]. split.
  - intros Hlt. by rewrite (proj2 (Z.leb_gt _ _)) by lia.
  - intros Hle. rewrite (proj2 (Z.leb_le _ _)) by lia. eexists. split; [done|]. do 4 (split; [done|]).
    intros r. cbn [delete_error set_errors d_errors]. rewrite list_elem_of_filter.
    unfold fail. cbn [d_errors update_deployment_status set_status set_errors]. rewrite insert_error_rows.
    split; [|naive_solver]. intros [Hne [?|[-> _]]]; done.
Qed.

(** The health is set without looking at the other errors: an unhealthy
    deployment is healthy after it has failed and was unfailed. *)
Theorem unfail_hides_errors e current d n :
  deterministic e = false → er_block (error_row e) ≤ ptr_number current → error_id e ∉ er_id <$> d_errors d →
  has_deterministic_errors n (d_errors d) = true →
  ∃ d', unfail_non_deterministic_error current (fail e d) = Ok (d', Unfailed) ∧
    health (d_status d') = Healthy ∧ has_deterministic_errors n (d_errors d') = true.
Proof.
  intros Hdet Hle Hnew Herr. assert (∀ r, r ∈ d_errors d → er_id r ≠ error_id e) as Hother.
  { intros r Hr Heq. apply Hnew. rewrite <-Heq. by apply list_elem_of_fmap_2. }
  destruct (unfail_non_deterministic_spec e current d _ Hdet eq_refl) as (_ & _ & Hun); [intros r Hr Heq; by destruct (Hother r Hr)|].
  destruct (Hun Hle) as (d' & Hd' & _ & _ & _ & Hh & Hrows). exists d'. do 2 (split; [done|]).
  unfold has_deterministic_errors in *. apply existsb_exists in Herr as (r & Hr%list_elem_of_In & Hdr). apply existsb_exists.
  exists r. split; [|done]. apply list_elem_of_In, Hrows. auto.
Qed.

End Unfail.
