(* ===== verification/BoundedQueue.v ===== *)
(** * The bounded queue

    [BoundedQueue] (graph/src/util/bounded_queue.rs) is the queue between the
    code that processes blocks and the task that writes them.  Its operations
    take permits from two semaphores and lock the queue for a moment, so that
    operations of several tasks interleave.  The model is a machine of tasks:
    each task is at a point of one of the operations, [task_step] is what it
    does until the next point where another task can run, and [sys_step] runs,
    starts and cancels tasks in any order.

    The semaphores are the fair ones of tokio, as it documents them: permits
    are given out in the order in which they were requested, a request for
    several permits at the front collects permits while it waits and holds up
    the requests behind it, and a request that is dropped loses its place and
    gives back what it has collected. *)

From Stdlib Require Import ZArith Lia.
From stdpp Require Import base list relations.
From S2P Require Import Prelude.
Local Close Scope Z_scope.

(** ** Fair semaphores *)

(** A semaphore: the permits that are available, and the requests that wait,
    oldest first, each with the task that made it and the permits that it
    still misses *)
Record Semaphore := mkSemaphore {
  permits : nat;
  waiters : list (nat * nat);
}.

Definition sem_new (n : nat) : Semaphore := mkSemaphore n [].

(** [add_permits], also when a permit is dropped: the requests that wait are
    served in order *)
Fixpoint serve (k : nat) (ws : list (nat * nat)) : Semaphore :=
  match ws with
  | [] => mkSemaphore k []
  | (i, r) :: ws => if decide (r ≤ k) then serve (k - r) ws else mkSemaphore 0 ((i, r - k) :: ws)
  end.

Definition add_permits (k : nat) (s : Semaphore) : Semaphore := serve (permits s + k) (waiters s).

(** [acquire_many]: take the permits, or wait for the ones that are missing *)
Definition acquire_many (i n : nat) (s : Semaphore) : bool * Semaphore :=
  if decide (n ≤ permits s) then (true, mkSemaphore (permits s - n) (waiters s))
  else (false, mkSemaphore 0 (waiters s ++ [(i, n - permits s)])).

Definition try_acquire (s : Semaphore) : option Semaphore :=
  if decide (1 ≤ permits s) then Some (mkSemaphore (permits s - 1) (waiters s)) else None.

(** The permits that a request of task [i] still misses *)
Definition missing_permits (i : nat) (s : Semaphore) : nat :=
  foldr (λ w n, if decide (w.1 = i) then w.2 + n else n) 0 (waiters s).

(** Dropping a request for [n] permits that has waited *)
Definition drop_request (i n : nat) (s : Semaphore) : Semaphore :=
  add_permits (n - missing_permits i s)
    (mkSemaphore (permits s) (filter (λ w, w.1 ≠ i) (waiters s))).

Definition is_waiting (i : nat) (s : Semaphore) : bool := bool_decide (i ∈ (waiters s).*1).

(** ** The queue *)

Record BoundedQueue (T : Type) := mkBoundedQueue {
  capacity : nat;
  queue : list T;
  push_semaphore : Semaphore;
  pop_semaphore : Semaphore;
}.
Arguments mkBoundedQueue {T} _ _ _ _.
Arguments capacity {T} _.
Arguments queue {T} _.
Arguments push_semaphore {T} _.
Arguments pop_semaphore {T} _.

(** [capacity as u32] *)
Definition capacity_u32 (n : nat) : nat := Z.to_nat (Z.of_nat n mod 2 ^ 32).

Section Queue.
  Context {T : Type}.
  Implicit Types (q : BoundedQueue T) (x : T).

Definition with_capacity (n : nat) : BoundedQueue T :=
  mkBoundedQueue n [] (sem_new n) (sem_new 0).

Definition set_queue (l : list T) q : BoundedQueue T :=
  mkBoundedQueue (capacity q) l (push_semaphore q) (pop_semaphore q).

Definition set_push (s : Semaphore) q : BoundedQueue T :=
  mkBoundedQueue (capacity q) (queue q) s (pop_semaphore q).

Definition set_pop (s : Semaphore) q : BoundedQueue T :=
  mkBoundedQueue (capacity q) (queue q) (push_semaphore q) s.

(** The operations that only lock the queue *)
Definition len q : nat := length (queue q).
Definition is_empty q : bool := match queue q with [] => true | _ => false end.

Fixpoint list_find_map {B} (f : T → option B) (l : list T) : option B :=
  match l with
  | [] => None
  | x :: l => match f x with Some b => Some b | None => list_find_map f l end
  end.

Definition find_map {B} (f : T → option B) q : option B := list_find_map f (rev (queue q)).
Definition map_newest {R} (f : option T → R) q : R := f (last (queue q)).
Definition fold {B} (f : B → T → B) (init : B) q : B := foldl f init (rev (queue q)).

(** ** Tasks *)

Inductive Task :=
| Push (x : T)           (* [push]: before [push_semaphore.acquire] *)
| PushWait (x : T)       (* waiting for the permit *)
| PushAcquired (x : T)   (* before [push_back] *)
| PushStored             (* before [pop_semaphore.add_permits] *)
| Pop                    (* [pop]: before [pop_semaphore.acquire] *)
| PopWait                (* waiting for the permit *)
| TryPop                 (* [try_pop]: before [pop_semaphore.try_acquire] *)
| PopAcquired            (* before [pop_front] *)
| PopTaken (x : T)       (* before [push_semaphore.add_permits] *)
| Peek                   (* [peek], [peek_with]: before [pop_semaphore.acquire] *)
| PeekWait               (* waiting for the permit *)
| PeekAcquired           (* before [front] *)
| PeekRead (x : T)       (* before the permit is dropped *)
| WaitEmpty              (* [wait_empty]: before [acquire_many] *)
| EmptyWait              (* waiting for the permits *)
| EmptyAcquired          (* before the permits are dropped *)
| Returned (r : option T).

(** A task can not run, panics, or goes on *)
Inductive StepResult :=
| Blocked
| Panicked
| Continue (t : Task) (q : BoundedQueue T).

(** [acquire] or [acquire_many] of task [i] on one of the semaphores *)
Definition acquire_push (i n : nat) (granted waiting : Task) q : StepResult :=
  let '(b, s) := acquire_many i n (push_semaphore q) in
  Continue (if b then granted else waiting) (set_push s q).

Definition acquire_pop (i : nat) (granted waiting : Task) q : StepResult :=
  let '(b, s) := acquire_many i 1 (pop_semaphore q) in
  Continue (if b then granted else waiting) (set_pop s q).

(** A task that waits goes on once its request is served *)
Definition resume (i : nat) (s : Semaphore) (granted : Task) q : StepResult :=
  if is_waiting i s then Blocked else Continue granted q.

(** What task [i] does at a point [t] of its operation *)
Definition task_step (i : nat) (t : Task) q : StepResult :=
  match t with
  | Push x => acquire_push i 1 (PushAcquired x) (PushWait x) q
  | PushWait x => resume i (push_semaphore q) (PushAcquired x) q
  | PushAcquired x => Continue PushStored (set_queue (queue q ++ [x]) q)
  | PushStored => Continue (Returned None) (set_pop (add_permits 1 (pop_semaphore q)) q)
  | Pop => acquire_pop i PopAcquired PopWait q
  | PopWait => resume i (pop_semaphore q) PopAcquired q
  | TryPop =>
      match try_acquire (pop_semaphore q) with
      | Some s => Continue PopAcquired (set_pop s q)
      | None => Continue (Returned None) q
      end
  | PopAcquired =>
      match queue q with
      | x :: l => Continue (PopTaken x) (set_queue l q)
      | [] => Panicked
      end
  | PopTaken x => Continue (Returned (Some x)) (set_push (add_permits 1 (push_semaphore q)) q)
  | Peek => acquire_pop i PeekAcquired PeekWait q
  | PeekWait => resume i (pop_semaphore q) PeekAcquired q
  | PeekAcquired =>
      match queue q with
      | x :: _ => Continue (PeekRead x) q
      | [] => Panicked
      end
  | PeekRead x => Continue (Returned (Some x)) (set_pop (add_permits 1 (pop_semaphore q)) q)
  | WaitEmpty => acquire_push i (capacity_u32 (capacity q)) EmptyAcquired EmptyWait q
  | EmptyWait => resume i (push_semaphore q) EmptyAcquired q
  | EmptyAcquired =>
      Continue (Returned None)
        (set_push (add_permits (capacity_u32 (capacity q)) (push_semaphore q)) q)
  | Returned _ => Blocked
  end.

(** Dropping the future of task [i].  An operation can be dropped where it
    waits; before it has started, there is nothing to give back. *)
Definition task_cancel (i : nat) (t : Task) q : option (BoundedQueue T) :=
  match t with
  | Push _ | Pop | TryPop | Peek | WaitEmpty => Some q
  | PushWait _ => Some (set_push (drop_request i 1 (push_semaphore q)) q)
  | EmptyWait =>
      Some (set_push (drop_request i (capacity_u32 (capacity q)) (push_semaphore q)) q)
  | PopWait | PeekWait => Some (set_pop (drop_request i 1 (pop_semaphore q)) q)
  | _ => None
  end.

(** Where an operation starts *)
Definition is_start (t : Task) : bool :=
  match t with Push _ | Pop | TryPop | Peek | WaitEmpty => true | _ => false end.

(** In the middle of an operation, and not waiting for a permit *)
Definition is_active (i : nat) (t : Task) q : bool :=
  match t with
  | PushWait _ | EmptyWait => negb (is_waiting i (push_semaphore q))
  | PopWait | PeekWait => negb (is_waiting i (pop_semaphore q))
  | Returned _ => false
  | _ => negb (is_start t)
  end.

Record System := mkSystem { sys_queue : BoundedQueue T; tasks : list Task }.

Inductive sys_step : System → System → Prop :=
| step_start t q ts :
    is_start t = true → sys_step (mkSystem q ts) (mkSystem q (ts ++ [t]))
| step_cancel i t q q' ts :
    ts !! i = Some t → task_cancel i t q = Some q' →
    sys_step (mkSystem q ts) (mkSystem q' (<[i := Returned None]> ts))
| step_run i t t' q q' ts :
    ts !! i = Some t → task_step i t q = Continue t' q' →
    sys_step (mkSystem q ts) (mkSystem q' (<[i := t']> ts)).

Definition reachable (n : nat) : System → Prop :=
  rtc sys_step (mkSystem (with_capacity n) []).

(** [clear]: [try_pop] until there is nothing left *)
Definition try_pop q : option (BoundedQueue T) * option T :=
  match try_acquire (pop_semaphore q) with
  | None => (Some q, None)
  | Some s =>
      match queue q with
      | x :: l =>
          (Some (set_push (add_permits 1 (push_semaphore q)) (set_queue l (set_pop s q))), Some x)
      | [] => (None, None)
      end
  end.

Fixpoint clear_fuel (fuel : nat) q : option (BoundedQueue T) :=
  match fuel with
  | 0 => None
  | S fuel =>
      match try_pop q with
      | (Some q, Some _) => clear_fuel fuel q
      | (r, None) => r
      | (None, _) => None
      end
  end.

Definition clear q : option (BoundedQueue T) := clear_fuel (S (permits (pop_semaphore q))) q.

(** ** The specification: a queue of bounded length *)

Inductive Event :=
| EPush (x : T)
| EPop (x : T)
| EPeek (x : T)
| EEmpty
| EInternal.

Inductive fifo_step (n : nat) : Event → list T → list T → Prop :=
| fifo_push x l : length l < n → fifo_step n (EPush x) l (l ++ [x])
| fifo_pop x l : fifo_step n (EPop x) (x :: l) l
| fifo_peek x l : fifo_step n (EPeek x) (x :: l) (x :: l)
| fifo_empty : fifo_step n EEmpty [] []
| fifo_internal l : fifo_step n EInternal l l.

(** The step in which an operation takes effect *)
Definition step_event (t t' : Task) : Event :=
  match t, t' with
  | PushAcquired x, _ => EPush x
  | PopAcquired, PopTaken x => EPop x
  | PeekAcquired, PeekRead x => EPeek x
  | (WaitEmpty | EmptyWait), EmptyAcquired => EEmpty
  | _, _ => EInternal
  end.

End Queue.
Arguments Task : clear implicits.
Arguments System : clear implicits.
Arguments Event : clear implicits.

(** ** Facts about semaphores *)

(** All permits that requests still miss *)
Definition owed (ws : list (nat * nat)) : nat := foldr (λ w n, w.2 + n) 0 ws.

(** The requests of a semaphore, where task [i] has asked for [want i]: one
    for each task, all of them miss something, and only the oldest one has
    collected permits *)
Definition requests_ok (want : nat → nat) (ws : list (nat * nat)) : Prop :=
  NoDup ws.*1 ∧ Forall (λ w, 0 < w.2 ≤ want w.1) ws ∧ Forall (λ w, w.2 = want w.1) (tail ws).

Definition sem_ok (want : nat → nat) (s : Semaphore) : Prop :=
  requests_ok want (waiters s) ∧ (waiters s = [] ∨ permits s = 0).

Lemma requests_ok_tail want w ws : requests_ok want (w :: ws) → requests_ok want ws.
Proof.
  intros (Hnd & Hall & Htl). apply NoDup_cons in Hnd as [_ Hnd]. apply Forall_cons in Hall as [_ Hall].
  split_and!; [done..|]. simpl in Htl. destruct ws; [done|]. by apply Forall_cons in Htl as [_ ?].
Qed.

Lemma serve_balance k ws : permits (serve k ws) + owed ws = k + owed (waiters (serve k ws)).
Proof.
  revert k. induction ws as [|[i r] ws IH]; intros k; simpl; [done|].
  case_decide; simpl; [pose proof (IH (k - r))|]; lia.
Qed.

Lemma serve_ok want k ws : requests_ok want ws → sem_ok want (serve k ws).
Proof.
  revert k. induction ws as [|[i r] ws IH]; intros k Hws; simpl; [split; [done|by left]|].
  case_decide; [by eapply IH, requests_ok_tail|].
  destruct Hws as (Hnd & Hall & Htl). apply Forall_cons in Hall as [Hr Hall]. simpl in *.
  split; [|by right]. split_and!; [done| |done]. constructor; [simpl; lia|done].
Qed.

Lemma serve_waiting k ws : (waiters (serve k ws)).*1 ⊆ ws.*1.
Proof.
  revert k. induction ws as [|[i r] ws IH]; intros k; simpl; [done|].
  case_decide; [|done]. intros j Hj. right. by eapply IH.
Qed.

Lemma add_permits_ok want k s : sem_ok want s → sem_ok want (add_permits k s).
Proof. intros [Hws _]. by apply serve_ok. Qed.

Lemma add_permits_balance k s :
  permits (add_permits k s) + owed (waiters s) = permits s + k + owed (waiters (add_permits k s)).
Proof. apply serve_balance. Qed.

Lemma add_permits_waiting k s : (waiters (add_permits k s)).*1 ⊆ (waiters s).*1.
Proof. apply serve_waiting. Qed.

Lemma owed_app ws1 ws2 : owed (ws1 ++ ws2) = owed ws1 + owed ws2.
Proof. unfold owed. induction ws1; simpl; lia. Qed.

Lemma acquire_balance i n s b s' :
  acquire_many i n s = (b, s') → permits s' + n + owed (waiters s) = permits s + owed (waiters s').
Proof.
  unfold acquire_many. case_decide; intros [= <- <-]; simpl; [lia|]. rewrite owed_app. simpl. lia.
Qed.

Lemma acquire_ok want i n s b s' :
  sem_ok want s → i ∉ (waiters s).*1 → want i = n → acquire_many i n s = (b, s') → sem_ok want s'.
Proof.
  intros [(Hnd & Hall & Htl) Hav] Hi Hwant. unfold acquire_many. case_decide; intros [= <- <-].
  { split; [done|]. simpl. destruct Hav; [by left|right; lia]. }
  split; [|by right]. simpl. split_and!.
  - rewrite fmap_app. apply NoDup_app. split_and!; [done| |apply NoDup_singleton].
    intros j Hj Hin%list_elem_of_singleton. simpl in Hin. by subst.
  - apply Forall_app. split; [done|]. constructor; [simpl; lia|done].
  - destruct (waiters s) as [|w ws] eqn:Ews; [done|]. simpl in *. apply Forall_app. split; [done|].
    constructor; [|done]. simpl. destruct Hav; [done|lia].
Qed.

Lemma acquire_granted i n s s' :
  acquire_many i n s = (true, s') → waiters s' = waiters s.
Proof. unfold acquire_many. case_decide; by intros [= <-]. Qed.

Lemma try_acquire_acquire i s s' : try_acquire s = Some s' → acquire_many i 1 s = (true, s').
Proof. unfold try_acquire, acquire_many. case_decide; by intros [= <-]. Qed.

Lemma missing_owed i s :
  owed (filter (λ w, w.1 ≠ i) (waiters s)) + missing_permits i s = owed (waiters s).
Proof.
  unfold missing_permits. induction (waiters s) as [|w ws IH]; [done|].
  rewrite filter_cons. simpl. repeat case_decide; simpl; lia || done.
Qed.

Lemma missing_none i s : i ∉ (waiters s).*1 → missing_permits i s = 0.
Proof.
  unfold missing_permits. induction (waiters s) as [|w ws IH]; [done|]. simpl.
  intros [Hne Hin]%not_elem_of_cons. rewrite decide_False by done. auto.
Qed.

Lemma missing_want want i s : sem_ok want s → missing_permits i s ≤ want i.
Proof.
  intros [(Hnd & Hall & _) _]. unfold missing_permits. induction (waiters s) as [|w ws IH]; simpl; [lia|].
  apply Forall_cons in Hall as [Hw Hall]. simpl in Hnd. apply NoDup_cons in Hnd as [Hin Hnd].
  case_decide as E; [|auto]. subst i. pose proof (missing_none w.1 (mkSemaphore 0 ws) Hin) as Hz.
  unfold missing_permits in Hz. simpl in Hz. lia.
Qed.

Lemma Forall_filter_keep {A} (P Q : A → Prop) `{∀ x, Decision (Q x)} (l : list A) :
  Forall P l → Forall P (filter Q l).
Proof. rewrite !Forall_forall. intros HP x [_ Hx]%list_elem_of_filter. auto. Qed.

Lemma Forall_tail {A} (P : A → Prop) (l : list A) : Forall P l → Forall P (tail l).
Proof. by destruct 1. Qed.

Lemma requests_ok_filter want i ws :
  requests_ok want ws → requests_ok want (filter (λ w : nat * nat, w.1 ≠ i) ws).
Proof.
  intros (Hnd & Hall & Htl). split_and!.
  - eapply sublist_NoDup; [done|]. apply fmap_sublist, sublist_filter.
  - by apply Forall_filter_keep.
  - destruct ws as [|w ws]; [done|]. rewrite filter_cons. simpl in Htl. case_decide; simpl.
    + by apply Forall_filter_keep.
    + by apply Forall_tail, Forall_filter_keep.
Qed.

Lemma drop_request_ok want i n s : sem_ok want s → sem_ok want (drop_request i n s).
Proof. intros [Hws _]. apply serve_ok. simpl. by apply requests_ok_filter. Qed.

Lemma drop_request_balance want i s :
  sem_ok want s →
  permits (drop_request i (want i) s) + owed (waiters s) =
  permits s + want i + owed (waiters (drop_request i (want i) s)).
Proof.
  intros Hok. pose proof (missing_want want i s Hok). pose proof (missing_owed i s).
  unfold drop_request.
  pose proof (add_permits_balance (want i - missing_permits i s)
    (mkSemaphore (permits s) (filter (λ w, w.1 ≠ i) (waiters s)))) as Hb. simpl in Hb. lia.
Qed.

Lemma drop_request_gone i n s : i ∉ (waiters (drop_request i n s)).*1.
Proof.
  intros Hi%add_permits_waiting. simpl in Hi. apply list_elem_of_fmap in Hi as (w & -> & Hw).
  by apply list_elem_of_filter in Hw as [??].
Qed.

Lemma sem_ok_ext want want' s :
  (∀ i, i ∈ (waiters s).*1 → want i = want' i) → sem_ok want s → sem_ok want' s.
Proof.
  intros Hext [(Hnd & Hall & Htl) Hav]. split; [|done].
  assert (∀ w, w ∈ waiters s → want w.1 = want' w.1) as Hext'.
  { intros w Hw. apply Hext. by apply list_elem_of_fmap_2. }
  rewrite Forall_forall in Hall, Htl. split_and!; [done|apply Forall_forall..].
  - intros w Hw. rewrite <-Hext' by done. by apply Hall.
  - intros w Hw. rewrite <-Hext'; [by apply Htl|]. destruct (waiters s); [done|]. by right.
Qed.

Lemma sem_ok_waiting want s i : sem_ok want s → i ∈ (waiters s).*1 → 0 < want i.
Proof.
  intros [(_ & Hall & _) _] (w & -> & Hw)%list_elem_of_fmap. rewrite Forall_forall in Hall.
  specialize (Hall w Hw). lia.
Qed.

(** ** The invariant *)

Section Facts.
  Context {T : Type}.
  Implicit Types (q : BoundedQueue T) (t : Task T) (ts : list (Task T)) (f asked wants : Task T → nat).

(** The push permits that a task has asked for or has to give back, and the
    ones that it waits for; [m] is what [wait_empty] acquires *)
Definition asked_push (m : nat) t : nat :=
  match t with
  | PushWait _ | PushAcquired _ | PopTaken _ => 1
  | EmptyWait | EmptyAcquired => m
  | _ => 0
  end.

Definition wants_push (m : nat) t : nat :=
  match t with PushWait _ => 1 | EmptyWait => m | _ => 0 end.

(** The same for pop permits *)
Definition asked_pop t : nat :=
  match t with
  | PushStored | PopWait | PopAcquired | PeekWait | PeekAcquired | PeekRead _ => 1
  | _ => 0
  end.

Definition wants_pop t : nat :=
  match t with PopWait | PeekWait => 1 | _ => 0 end.

Definition total f ts : nat := foldr Nat.add 0 (f <$> ts).

(** What task [i] waits for *)
Definition want f ts (i : nat) : nat := default 0 (f <$> ts !! i).

(** A semaphore whose permits, with those that tasks have and with [used],
    are [all] *)
Definition side_ok asked wants (s : Semaphore) ts (used all : nat) : Prop :=
  sem_ok (want wants ts) s ∧
  permits s + total asked ts + used = all + owed (waiters s).

Definition sys_ok (n : nat) (sys : System T) : Prop :=
  let q := sys_queue sys in
  let m := capacity_u32 n in
  capacity q = n ∧
  side_ok (asked_push m) (wants_push m) (push_semaphore q) (tasks sys) (length (queue q)) n ∧
  side_ok asked_pop wants_pop (pop_semaphore q) (tasks sys) 0 (length (queue q)).

Lemma total_app f ts1 ts2 : total f (ts1 ++ ts2) = total f ts1 + total f ts2.
Proof.
  unfold total. rewrite fmap_app. induction ts1 as [|t ts1 IH]; [done|].
  rewrite !fmap_cons. simpl. rewrite IH. lia.
Qed.

Lemma total_one f t : total f [t] = f t.
Proof. unfold total. simpl. lia. Qed.

Lemma total_insert f ts i t t' :
  ts !! i = Some t → total f (<[i := t']> ts) + f t = total f ts + f t'.
Proof.
  intros Hi. rewrite <-(take_drop_middle ts i t Hi) at 2. rewrite insert_take_drop by by eapply lookup_lt_Some.
  rewrite !total_app. unfold total. rewrite !fmap_cons. simpl. lia.
Qed.

Lemma total_lookup f ts i t : ts !! i = Some t → f t ≤ total f ts.
Proof.
  intros Hi. rewrite <-(take_drop_middle ts i t Hi), total_app. unfold total at 2. rewrite fmap_cons. simpl. lia.
Qed.

Lemma total_zero f ts : (∀ i t, ts !! i = Some t → f t = 0) → total f ts = 0.
Proof.
  unfold total. induction ts as [|t ts IH]; [done|]. intros Hz. rewrite fmap_cons. simpl.
  rewrite (Hz 0 t eq_refl), IH; [done|]. intros i t' Hi. by apply (Hz (S i)).
Qed.

(** The tasks with a request, and the others *)
Lemma total_split f (ids : list nat) ts :
  f (Returned None) = 0 → NoDup ids →
  ∃ ts', total f ts = foldr (λ i n, want f ts i + n) 0 ids + total f ts' ∧
    (∀ j, j ∉ ids → ts' !! j = ts !! j) ∧ (∀ j t, j ∈ ids → ts' !! j = Some t → t = Returned None).
Proof.
  intros Hf. induction ids as [|i ids IH]; intros Hnd; simpl.
  { exists ts. split_and!; [done|done|]. by intros j t ?%not_elem_of_nil. }
  apply NoDup_cons in Hnd as [Hi Hnd]. destruct (IH Hnd) as (ts' & Ht & Hout & Hin).
  exists (<[i := Returned None]> ts'). split_and!.
  - rewrite Ht. unfold want at 2. rewrite <-(Hout i Hi). destruct (ts' !! i) as [t|] eqn:E; simpl.
    + pose proof (total_insert f ts' i t (Returned None) E). lia.
    + by rewrite list_insert_ge by by apply lookup_ge_None.
  - intros j [Hne Hj]%not_elem_of_cons. rewrite list_lookup_insert_ne by done. auto.
  - intros j t Hj Hl. destruct (decide (i = j)) as [<-|Hne].
    + by apply list_lookup_insert_Some in Hl as [(_ & -> & _)|[? _]].
    + rewrite list_lookup_insert_ne in Hl by done. apply elem_of_cons in Hj as [?|?]; [done|eauto].
Qed.

Lemma want_lookup f ts i t : ts !! i = Some t → want f ts i = f t.
Proof. unfold want. by intros ->. Qed.

Lemma want_insert_ne f ts i j t : i ≠ j → want f (<[i := t]> ts) j = want f ts j.
Proof. unfold want. intros Hne. by rewrite list_lookup_insert_ne. Qed.

Lemma want_insert f ts i t t' : ts !! i = Some t → want f (<[i := t']> ts) i = f t'.
Proof. intros Hi. apply want_lookup, list_lookup_insert_eq. by eapply lookup_lt_Some. Qed.

(** *** What the steps of a task do to a semaphore *)

Section Side.
  Context (asked wants : Task T → nat).
  Hypothesis wants_asked : ∀ t, wants t = 0 ∨ wants t = asked t.
  Hypothesis returned_none : ∀ r, asked (Returned r) = 0.

Lemma side_idle s ts used all i t :
  side_ok asked wants s ts used all → ts !! i = Some t → wants t = 0 → i ∉ (waiters s).*1.
Proof.
  intros [Hok _] Hi Hw Hin. pose proof (sem_ok_waiting _ _ _ Hok Hin) as Hlt.
  rewrite (want_lookup _ _ _ _ Hi) in Hlt. lia.
Qed.

Lemma sem_ok_insert s ts i t' :
  sem_ok (want wants ts) s → i ∉ (waiters s).*1 → sem_ok (want wants (<[i := t']> ts)) s.
Proof.
  intros Hok Hi. eapply sem_ok_ext; [|done]. intros j Hj. rewrite want_insert_ne; [done|]. by intros ->.
Qed.

Lemma side_other s ts used all used' all' i t t' :
  side_ok asked wants s ts used all → ts !! i = Some t → i ∉ (waiters s).*1 →
  used' + asked t' + all = used + asked t + all' →
  side_ok asked wants s (<[i := t']> ts) used' all'.
Proof.
  intros [Hok Hb] Hi Hw Heq. split; [by apply sem_ok_insert|].
  pose proof (total_insert asked ts i t t' Hi). lia.
Qed.

Lemma side_add k s ts used all i t t' :
  side_ok asked wants s ts used all → ts !! i = Some t → i ∉ (waiters s).*1 → asked t = asked t' + k →
  side_ok asked wants (add_permits k s) (<[i := t']> ts) used all.
Proof.
  intros [Hok Hb] Hi Hw Heq. split.
  - apply sem_ok_insert; [by apply add_permits_ok|]. by intros ?%add_permits_waiting.
  - pose proof (total_insert asked ts i t t' Hi). pose proof (add_permits_balance k s). lia.
Qed.

Lemma side_acquire k s b s' ts used all i t t' :
  side_ok asked wants s ts used all → ts !! i = Some t → i ∉ (waiters s).*1 →
  acquire_many i k s = (b, s') → asked t' = asked t + k → (b = false → wants t' = k) →
  side_ok asked wants s' (<[i := t']> ts) used all.
Proof.
  intros [Hok Hb] Hi Hw Hacq Heq Hwait. split.
  - destruct b.
    + apply sem_ok_insert; [|by rewrite (acquire_granted _ _ _ _ Hacq)].
      unfold acquire_many in Hacq. case_decide; [|done]. injection Hacq as <-.
      destruct Hok as [Hws Hav]. split; [done|]. simpl. destruct Hav; [by left|right; lia].
    + eapply acquire_ok; [apply sem_ok_insert; [exact Hok|done]|done| |done].
      rewrite (want_insert _ _ _ _ _ Hi). auto.
  - pose proof (total_insert asked ts i t t' Hi). pose proof (acquire_balance _ _ _ _ _ Hacq). lia.
Qed.

Lemma side_drop s ts used all i t r :
  side_ok asked wants s ts used all → ts !! i = Some t → wants t = asked t →
  side_ok asked wants (drop_request i (wants t) s) (<[i := Returned r]> ts) used all.
Proof.
  intros [Hok Hb] Hi Hw. split.
  - apply sem_ok_insert; [by apply drop_request_ok|]. apply drop_request_gone.
  - pose proof (total_insert asked ts i t (Returned r) Hi) as Ht. rewrite returned_none in Ht.
    pose proof (drop_request_balance _ i s Hok) as Hd. rewrite (want_lookup _ _ _ _ Hi) in Hd. lia.
Qed.

Lemma side_start s ts used all t :
  side_ok asked wants s ts used all → asked t = 0 → side_ok asked wants s (ts ++ [t]) used all.
Proof.
  intros [Hok Hb] Ha. split.
  - eapply sem_ok_ext; [|done]. intros j Hj. pose proof (sem_ok_waiting _ _ _ Hok Hj) as Hlt.
    unfold want in *. destruct (ts !! j) as [t'|] eqn:E; simpl in *; [|lia]. by rewrite (lookup_app_l_Some _ _ _ _ E).
  - rewrite total_app, total_one. lia.
Qed.

(** What requests miss is less than what their tasks have asked for *)
Lemma requests_le ts ws :
  Forall (λ w, 0 < w.2 ≤ want wants ts w.1) ws →
  owed ws ≤ foldr (λ i n, want asked ts i + n) 0 ws.*1.
Proof.
  induction 1 as [|w ws Hw _ IH]; [done|]. rewrite fmap_cons. unfold owed in *. cbn [foldr].
  assert (want wants ts w.1 ≤ want asked ts w.1).
  { unfold want. destruct (ts !! w.1) as [t|]; simpl; [|lia]. destruct (wants_asked t); lia. }
  lia.
Qed.

Lemma side_bound s ts used all i t :
  side_ok asked wants s ts used all → ts !! i = Some t → i ∉ (waiters s).*1 →
  permits s + asked t + used ≤ all.
Proof.
  intros [[(Hnd & Hall & _) _] Hb] Hi Hw.
  destruct (total_split asked _ ts (returned_none None) Hnd) as (ts' & Ht & Hout & _).
  pose proof (requests_le _ _ Hall). pose proof (Hout i Hw) as Hi'. rewrite Hi in Hi'.
  pose proof (total_lookup asked ts' i t Hi'). lia.
Qed.

Lemma side_used s ts used all : side_ok asked wants s ts used all → permits s + used ≤ all.
Proof.
  intros [[(Hnd & Hall & _) _] Hb].
  destruct (total_split asked _ ts (returned_none None) Hnd) as (ts' & Ht & _).
  pose proof (requests_le _ _ Hall). lia.
Qed.

(** When only tasks that wait have asked for permits, nothing but the oldest
    request has collected any *)
Lemma side_quiescent s ts used all :
  side_ok asked wants s ts used all →
  (∀ i t, ts !! i = Some t → asked t ≠ 0 → wants t = asked t ∧ i ∈ (waiters s).*1) →
  match waiters s with
  | [] => permits s + used = all
  | (i, r) :: _ => permits s = 0 ∧ want wants ts i + used = all + r ∧ 0 < r ≤ want wants ts i
  end.
Proof.
  intros [[(Hnd & Hall & Htl) Hav] Hb] Hq.
  destruct (total_split asked _ ts (returned_none None) Hnd) as (ts' & Ht & Hout & Hin).
  assert (total asked ts' = 0) as Hz.
  { apply total_zero. intros i t Hi. destruct (decide (i ∈ (waiters s).*1)) as [E|E].
    - by rewrite (Hin i t E Hi).
    - destruct (decide (asked t = 0)) as [|Hne]; [done|]. rewrite (Hout i E) in Hi.
      by destruct (Hq i t Hi Hne) as [_ ?]. }
  assert (∀ i, i ∈ (waiters s).*1 → want asked ts i = want wants ts i) as Hsame.
  { intros i (w & -> & Hw)%list_elem_of_fmap. rewrite Forall_forall in Hall. pose proof (Hall w Hw) as Hlt.
    unfold want in *. destruct (ts !! w.1) as [t|]; simpl in *; [|lia]. destruct (wants_asked t); lia. }
  clear Hnd Hin Hout Hq. destruct (waiters s) as [|[i r] ws]; [simpl in *; lia|].
  rewrite fmap_cons in *. unfold owed in *. cbn [foldr fst snd tail] in *.
  assert (foldr (λ i n, want asked ts i + n) 0 ws.*1 = foldr (λ w n, w.2 + n) 0 ws) as Hws.
  { assert (∀ j, j ∈ ws.*1 → want asked ts j = want wants ts j) as Hsame' by (intros; apply Hsame; by right).
    clear -Htl Hsame'. induction Htl as [|w ws Hw _ IH]; [done|]. rewrite fmap_cons in *. cbn [foldr].
    rewrite IH by (intros; apply Hsame'; by right). rewrite Hsame' by by left. lia. }
  apply Forall_cons in Hall as [Hr _]. simpl in Hr. rewrite (Hsame i) in Ht by by left.
  destruct Hav; [done|]. lia.
Qed.

End Side.

Lemma wants_asked_push m t : wants_push m t = 0 ∨ wants_push m t = asked_push m t.
Proof. destruct t; auto. Qed.

Lemma wants_asked_pop t : wants_pop t = 0 ∨ wants_pop t = asked_pop t.
Proof. destruct t; auto. Qed.

Lemma is_waiting_false i s : is_waiting i s = false ↔ (i ∉ (waiters s).*1).
Proof. apply bool_decide_eq_false. Qed.

Lemma resume_continue i s (t t' : Task T) q q' :
  resume i s t q = Continue t' q' → (i ∉ (waiters s).*1) ∧ t' = t ∧ q' = q.
Proof.
  unfold resume. destruct (is_waiting i s) eqn:E; [done|]. intros [= <- <-].
  by apply is_waiting_false in E.
Qed.

#[local] Hint Resolve wants_asked_push wants_asked_pop : core.

(** The step of a task leaves one of the semaphores alone, takes permits from
    it or gives permits back. *)
Ltac solve_side :=
  first
    [ eapply side_other; [eassumption|eassumption|first [eassumption|by eapply side_idle]|
        simpl; rewrite ?length_app; simpl; lia]
    | eapply side_add; [eassumption|eassumption|by eapply side_idle|done]
    | eapply side_acquire; [eassumption|eassumption|by eapply side_idle|eassumption|done|done] ].

(** What a step of a task does to the permits *)
Lemma task_step_ok n q ts i t t' q' :
  sys_ok n (mkSystem q ts) → ts !! i = Some t → task_step i t q = Continue t' q' →
  sys_ok n (mkSystem q' (<[i := t']> ts)).
Proof.
  intros (Hcap & Hpush & Hpop) Hi Hstep. unfold sys_ok. simpl in *.
  destruct t; simpl in Hstep; rewrite ?Hcap in Hstep;
    unfold acquire_push, acquire_pop in Hstep;
    try (apply resume_continue in Hstep as (Hw & -> & ->));
    try match type of Hstep with
        | context [acquire_many ?j ?k ?s] => destruct (acquire_many j k s) as [[] s'] eqn:Ha
        | context [try_acquire ?s] =>
            destruct (try_acquire s) as [s'|] eqn:Ha; [apply (try_acquire_acquire i) in Ha|]
        | context [queue q] => destruct (queue q) as [|y l] eqn:Eq
        end; simplify_eq/=; split_and!; try done; try solve_side;
    rewrite Eq; solve_side.
Qed.

Lemma task_cancel_ok n q ts i t q' :
  sys_ok n (mkSystem q ts) → ts !! i = Some t → task_cancel i t q = Some q' →
  sys_ok n (mkSystem q' (<[i := Returned None]> ts)).
Proof.
  intros (Hcap & Hpush & Hpop) Hi Hc. unfold sys_ok. simpl in *.
  destruct t; simpl in Hc; rewrite ?Hcap in Hc; simplify_eq/=; split_and!; try done; try solve_side;
    first [ exact (side_drop _ _ (λ _, eq_refl) _ _ _ _ i _ None Hpush Hi eq_refl)
          | exact (side_drop _ _ (λ _, eq_refl) _ _ _ _ i _ None Hpop Hi eq_refl) ].
Qed.

Lemma sys_step_ok n s s' : sys_ok n s → sys_step s s' → sys_ok n s'.
Proof.
  intros Hok Hst. revert Hok. destruct Hst as [t q ts Ht|i t q q' ts Hi Ht|i t t' q q' ts Hi Hs]; intros Hok.
  - destruct Hok as (Hc & Hpu & Hpo). split_and!; [done|apply side_start; [done|by destruct t]..].
  - by eapply task_cancel_ok.
  - by eapply task_step_ok.
Qed.

Lemma reachable_ok n s : reachable n s → sys_ok n s.
Proof.
  unfold reachable. assert (sys_ok n (mkSystem (with_capacity n) [] : System T)) as Hinit.
  { split_and!; [done|..]; (split; [split; [split_and!; constructor|by left]|]); unfold total; simpl; lia. }
  intros Hr. revert Hinit. induction Hr as [s|s1 s2 s3 Hs _ IH]; [done|]. intros Hok.
  apply IH. by eapply sys_step_ok.
Qed.

(** A task that has a permit for an item finds one *)
Lemma holds_item n sys i t :
  sys_ok n sys → tasks sys !! i = Some t → wants_pop t = 0 → asked_pop t = 1 →
  0 < length (queue (sys_queue sys)).
Proof.
  intros (_ & _ & Hpop) Hi Hw Ha.
  assert (i ∉ (waiters (pop_semaphore (sys_queue sys))).*1) as Hout by by eapply side_idle.
  pose proof (side_bound _ _ wants_asked_pop (λ _, eq_refl) _ _ _ _ _ _ Hpop Hi Hout). lia.
Qed.

(** ** Properties *)

(** C27: no operation of the queue panics.  In every state that any
    interleaving of operations reaches, a task that is in the middle of an
    operation can go on, so that [expect("the queue is not empty")] never
    fails, and no operation waits while it owes a permit. *)
Theorem queue_no_panic n s i t :
  reachable n s → tasks s !! i = Some t →
  task_step i t (sys_queue s) ≠ Panicked ∧
  (is_active i t (sys_queue s) = true → ∃ t' q', task_step i t (sys_queue s) = Continue t' q').
Proof.
  intros Hr%reachable_ok Hi. pose proof (holds_item n s i t Hr Hi) as Hitem.
  destruct t; simpl in *; unfold acquire_push, acquire_pop, resume;
    try (destruct (acquire_many _ _ _); by eauto); try (destruct (is_waiting _ _); by eauto);
    try (destruct (try_acquire _); by eauto); try (split; [done|]; by eauto);
    (destruct (queue (sys_queue s)) as [|y l]; simpl in *; [specialize (Hitem eq_refl eq_refl); lia|]);
    split; [done|by eauto|done|by eauto].
Qed.

Lemma capacity_u32_small n : (Z.of_nat n < 2 ^ 32)%Z → capacity_u32 n = n.
Proof. intros Hn. unfold capacity_u32. rewrite Z.mod_small by lia. lia. Qed.

(** While [wait_empty] has its permits, the queue is empty *)
Lemma holds_all n sys i t :
  sys_ok n sys → (Z.of_nat n < 2 ^ 32)%Z → tasks sys !! i = Some t →
  i ∉ (waiters (push_semaphore (sys_queue sys))).*1 → asked_push n t = n →
  queue (sys_queue sys) = [].
Proof.
  intros (_ & Hpush & _) Hn Hi Hout Ha. rewrite (capacity_u32_small n Hn) in Hpush.
  pose proof (side_bound _ _ (wants_asked_push n) (λ _, eq_refl) _ _ _ _ _ _ Hpush Hi Hout).
  apply nil_length_inv. lia.
Qed.

(** The step in which [wait_empty] gets its permits *)
Lemma empty_event n q ts i t q' :
  reachable n (mkSystem q ts) → (Z.of_nat n < 2 ^ 32)%Z → ts !! i = Some t →
  task_step i t q = Continue EmptyAcquired q' → queue q = [] ∧ queue q' = [].
Proof.
  intros Hr Hn Hi Hstep.
  assert (sys_step (mkSystem q ts) (mkSystem q' (<[i := EmptyAcquired]> ts))) as Hst by by econstructor.
  pose proof (reachable_ok n _ (rtc_r _ _ _ Hr Hst)) as Hok.
  assert (<[i := EmptyAcquired]> ts !! i = Some EmptyAcquired) as Hi'.
  { apply list_lookup_insert_eq. by eapply lookup_lt_Some. }
  assert (queue q' = []) as Hq'.
  { apply (holds_all n _ i EmptyAcquired Hok Hn); [done| |done].
    destruct Hok as (_ & Hpush & _). by apply (side_idle _ _ _ _ _ _ _ _ Hpush Hi'). }
  split; [|done]. rewrite <-Hq'. destruct t; simpl in Hstep; unfold acquire_push, acquire_pop in Hstep;
    try (apply resume_continue in Hstep as (_ & ? & ?)); repeat case_match; by simplify_eq/=.
Qed.

(** C26: the queue is a bounded first-in-first-out queue.  For every capacity
    that fits 32 bits, every step of every interleaving either leaves the
    items alone or does one of: append an item when there are fewer than
    [capacity], take the oldest item, read the oldest item, or report that
    there are no items.  In particular [wait_empty] only returns after a
    moment at which the queue was empty. *)
Theorem queue_refines_fifo n q ts i t t' q' :
  (Z.of_nat n < 2 ^ 32)%Z →
  reachable n (mkSystem q ts) → ts !! i = Some t → task_step i t q = Continue t' q' →
  fifo_step n (step_event t t') (queue q) (queue q').
Proof.
  intros Hn Hr Hi Hstep. destruct (reachable_ok n _ Hr) as (Hcap & Hpush & Hpop). simpl in *.
  destruct (step_event t t') eqn:Ev.
  4: { assert (t' = EmptyAcquired) as -> by (by destruct t, t').
       destruct (empty_event n q ts i t q' Hr Hn Hi Hstep) as [-> ->]. constructor. }
  all: destruct t; simpl in Ev, Hstep; unfold acquire_push, acquire_pop in Hstep;
    try (apply resume_continue in Hstep as (_ & -> & ->)); repeat case_match; simplify_eq/=;
    try constructor.
  - eapply (side_bound _ _ (wants_asked_push _) (λ _, eq_refl)) in Hpush; [|done|by eapply side_idle].
    simpl in Hpush. lia.
  - match goal with H : queue _ = _ |- _ => rewrite H end. constructor.
Qed.

(** [capacity as u32] is 0 for a queue of 2^32 entries: [wait_empty] returns
    at once, whatever the queue holds. *)
Lemma wait_empty_truncates q i :
  (Z.of_nat (capacity q) mod 2 ^ 32 = 0)%Z → task_step i WaitEmpty q = Continue EmptyAcquired q.
Proof.
  intros Hm. simpl. unfold acquire_push, acquire_many, capacity_u32. rewrite Hm. change (Z.to_nat 0) with 0.
  rewrite decide_True by lia. destruct q as [c l [p w] s]. unfold set_push. simpl. by rewrite Nat.sub_0_r.
Qed.

(** No task is in the middle of an operation, other than to wait *)
Definition quiescent q ts : Prop := ∀ i t, ts !! i = Some t → is_active i t q = false.

Lemma quiescent_push n q ts i t :
  quiescent q ts → ts !! i = Some t → asked_push n t ≠ 0 →
  wants_push n t = asked_push n t ∧ i ∈ (waiters (push_semaphore q)).*1.
Proof.
  intros Hq Hi Ha. specialize (Hq i t Hi).
  destruct t; simpl in *; try done; (split; [done|]); by apply negb_false_iff, bool_decide_eq_true in Hq.
Qed.

Lemma quiescent_pop q ts i t :
  quiescent q ts → ts !! i = Some t → asked_pop t ≠ 0 →
  wants_pop t = asked_pop t ∧ i ∈ (waiters (pop_semaphore q)).*1.
Proof.
  intros Hq Hi Ha. specialize (Hq i t Hi).
  destruct t; simpl in *; try done; (split; [done|]); by apply negb_false_iff, bool_decide_eq_true in Hq.
Qed.

(** At rest there is a pop permit for each item *)
Lemma quiescent_pop_permits n q ts :
  reachable n (mkSystem q ts) → quiescent q ts → permits (pop_semaphore q) = length (queue q).
Proof.
  intros (_ & _ & Hpop)%reachable_ok Hq. simpl in Hpop. pose proof Hpop as Hrest.
  apply (side_quiescent _ _ wants_asked_pop (λ _, eq_refl)) in Hrest;
    [|intros i t; by apply quiescent_pop].
  destruct (waiters (pop_semaphore q)) as [|[i r] ws]; [lia|]. destruct Hrest as (-> & Hw & Hr).
  unfold want in Hw. destruct (ts !! i) as [[]|]; simpl in Hw; lia.
Qed.

(** At rest there is a push permit for each empty spot, unless [wait_empty]
    has the oldest request; it has collected these permits *)
Lemma quiescent_push_permits n q ts :
  (Z.of_nat n < 2 ^ 32)%Z → reachable n (mkSystem q ts) → quiescent q ts →
  permits (push_semaphore q) + length (queue q) = n ∨
  ∃ i r ws, waiters (push_semaphore q) = (i, r) :: ws ∧ ts !! i = Some EmptyWait ∧
    permits (push_semaphore q) = 0 ∧ length (queue q) = r ∧ 0 < r.
Proof.
  intros Hn (_ & Hpush & _)%reachable_ok Hq. simpl in Hpush. rewrite (capacity_u32_small n Hn) in Hpush.
  pose proof Hpush as Hrest.
  apply (side_quiescent _ _ (wants_asked_push n) (λ _, eq_refl)) in Hrest;
    [|intros i t; by apply quiescent_push].
  destruct (waiters (push_semaphore q)) as [|[i r] ws]; [left; lia|]. destruct Hrest as (-> & Hw & Hr).
  unfold want in Hw, Hr. destruct (ts !! i) as [[]|] eqn:E; simpl in *; try lia.
  right. exists i, r, ws. split_and!; done || lia.
Qed.

(** A task that waits finds no permits *)
Lemma waiting_no_permits want s i :
  sem_ok want s → is_waiting i s = true → permits s = 0 ∧ 0 < want i.
Proof.
  intros Hok Hi%bool_decide_eq_true. pose proof (sem_ok_waiting _ _ _ Hok Hi).
  destruct Hok as [_ [Hnil|?]]; [|done]. rewrite Hnil in Hi. by apply not_elem_of_nil in Hi.
Qed.

Lemma quiescent_wait_pop n q ts i t :
  reachable n (mkSystem q ts) → quiescent q ts → ts !! i = Some t → wants_pop t = 1 → queue q = [].
Proof.
  intros Hr Hq Hi Hw. pose proof (quiescent_pop_permits n q ts Hr Hq) as Hp.
  apply reachable_ok in Hr as (_ & _ & [Hok _]). specialize (Hq i t Hi).
  destruct (waiting_no_permits _ _ i Hok) as [H0 _].
  { by destruct t; simpl in *; try done; apply negb_false_iff in Hq. }
  apply nil_length_inv. simpl in *. lia.
Qed.

Lemma quiescent_wait_push n q ts i t :
  (Z.of_nat n < 2 ^ 32)%Z → reachable n (mkSystem q ts) → quiescent q ts → ts !! i = Some t →
  wants_push 1 t = 1 → permits (push_semaphore q) = 0 ∧ 0 < wants_push n t.
Proof.
  intros Hn Hr Hq Hi Hw. apply reachable_ok in Hr as (_ & [Hok _] & _). specialize (Hq i t Hi).
  simpl in Hok. rewrite (capacity_u32_small n Hn) in Hok.
  rewrite <-(want_lookup (wants_push n) ts i t Hi). apply waiting_no_permits; [done|].
  by destruct t; simpl in *; try done; apply negb_false_iff in Hq.
Qed.

(** When a new request has to wait *)
Lemma acquire_push_waits i k (t t' : Task T) q :
  t ≠ t' → (∃ q', acquire_push i k t t' q = Continue t' q') ↔ permits (push_semaphore q) < k.
Proof.
  intros Hne. unfold acquire_push, acquire_many. case_decide; simpl.
  - split; [by intros (q' & [= ? _])|lia].
  - split; [lia|by eauto].
Qed.

Lemma acquire_pop_waits i (t t' : Task T) q :
  t ≠ t' → (∃ q', acquire_pop i t t' q = Continue t' q') ↔ permits (pop_semaphore q) = 0.
Proof.
  intros Hne. unfold acquire_pop, acquire_many. case_decide; simpl.
  - split; [by intros (q' & [= ? _])|lia].
  - split; [lia|by eauto].
Qed.

(** C28: the comments on the semaphores, where permits are given out in the
    order of the requests.  When no operation is half done, there are as many
    pop permits as items, so that [pop] and [peek] wait only when the queue is
    empty; [wait_empty] waits only when it is not; and if no [wait_empty]
    waits, there are as many push permits as empty spots and [push] waits only
    when the queue is full.  When a [push] waits although there is room, the
    oldest request is that of a [wait_empty], which the items of the queue
    hold up. *)
Theorem queue_quiescent n q ts :
  (Z.of_nat n < 2 ^ 32)%Z → reachable n (mkSystem q ts) → quiescent q ts →
  permits (pop_semaphore q) = length (queue q) ∧
  (∀ i, ts !! i = Some PopWait ∨ ts !! i = Some PeekWait → queue q = []) ∧
  (∀ i, ts !! i = Some EmptyWait → queue q ≠ []) ∧
  ((∀ i, ts !! i ≠ Some EmptyWait) → permits (push_semaphore q) = n - length (queue q)) ∧
  (∀ i x, ts !! i = Some (PushWait x) →
    length (queue q) = n ∨
    ∃ j r ws, waiters (push_semaphore q) = (j, r) :: ws ∧ ts !! j = Some EmptyWait ∧
      r = length (queue q)) ∧
  (∀ i, (∃ q', task_step i Pop q = Continue PopWait q') ↔ queue q = []) ∧
  (∀ i, (∃ q', task_step i Peek q = Continue PeekWait q') ↔ queue q = []) ∧
  (∀ i, (∃ q', task_step i WaitEmpty q = Continue EmptyWait q') ↔ queue q ≠ []) ∧
  (∀ i x, (∀ j, ts !! j ≠ Some EmptyWait) →
    (∃ q', task_step i (Push x) q = Continue (PushWait x) q') ↔ length (queue q) = n).
Proof.
  intros Hn Hr Hq. pose proof (quiescent_pop_permits n q ts Hr Hq) as Hpop.
  pose proof (quiescent_push_permits n q ts Hn Hr Hq) as Hpush.
  destruct (reachable_ok n _ Hr) as (Hcap & Hside & _). simpl in Hcap, Hside.
  apply (side_used _ _ (wants_asked_push _) (λ _, eq_refl)) in Hside.
  assert (length (queue q) = 0 ↔ queue q = []) as Hnil by (by destruct (queue q)).
  split_and!.
  - done.
  - by intros i [Hi|Hi]; apply (quiescent_wait_pop n q ts i _ Hr Hq Hi).
  - intros i Hi. destruct (quiescent_wait_push n q ts i _ Hn Hr Hq Hi eq_refl) as [H0 Hlt].
    simpl in Hlt. rewrite <-Hnil. destruct Hpush as [?|(j & r & ws & _ & _ & _ & ? & ?)]; lia.
  - intros Hno. destruct Hpush as [?|(j & r & ws & _ & Hj & _)]; [lia|]. by destruct (Hno j).
  - intros i x Hi. destruct (quiescent_wait_push n q ts i _ Hn Hr Hq Hi eq_refl) as [H0 _].
    destruct Hpush as [?|(j & r & ws & Hws & Hj & _ & Hlen & _)]; [left; lia|right; by exists j, r, ws].
  - intros i. rewrite <-Hnil, <-Hpop. by apply acquire_pop_waits.
  - intros i. rewrite <-Hnil, <-Hpop. by apply acquire_pop_waits.
  - intros i. cbn [task_step]. rewrite acquire_push_waits by done. rewrite Hcap, capacity_u32_small, <-Hnil by done.
    destruct Hpush as [?|(j & r & ws & _ & _ & ? & ? & ?)]; lia.
  - intros i x Hno. cbn [task_step]. rewrite acquire_push_waits by done.
    destruct Hpush as [?|(j & r & ws & _ & Hj & _)]; [lia|]. by destruct (Hno j).
Qed.

Lemma clear_fuel_ok q fuel :
  permits (pop_semaphore q) = length (queue q) → length (queue q) < fuel →
  ∃ q', clear_fuel fuel q = Some q' ∧ queue q' = [] ∧ permits (pop_semaphore q') = 0.
Proof.
  revert q. induction fuel as [|fuel IH]; intros q Hp Hlt; [lia|]. cbn [clear_fuel].
  unfold try_pop, try_acquire. case_decide.
  - destruct (queue q) as [|x l] eqn:E; simpl in *; [lia|]. apply IH; simpl; lia.
  - exists q. split_and!; [done| |lia]. apply nil_length_inv. lia.
Qed.

(** [clear] empties the queue, when no other operation is half done. *)
Theorem queue_clear n q ts :
  reachable n (mkSystem q ts) → quiescent q ts →
  ∃ q', clear q = Some q' ∧ queue q' = [] ∧ permits (pop_semaphore q') = 0.
Proof.
  intros Hr Hq. pose proof (quiescent_pop_permits n q ts Hr Hq). apply clear_fuel_ok; lia.
Qed.

End Facts.

(** ** Schedules *)

Inductive Action (T : Type) :=
| Start (t : Task T)
| Run (i : nat).
Arguments Start {T} _.
Arguments Run {T} _.

(** Run a schedule, as long as every step of it is possible *)
Fixpoint run_schedule {T} (acts : list (Action T)) (s : System T) : option (System T) :=
  match acts with
  | [] => Some s
  | Start t :: acts =>
      if is_start t then run_schedule acts (mkSystem (sys_queue s) (tasks s ++ [t])) else None
  | Run i :: acts =>
      t ← tasks s !! i;
      match task_step i t (sys_queue s) with
      | Continue t' q' => run_schedule acts (mkSystem q' (<[i := t']> (tasks s)))
      | _ => None
      end
  end.

Lemma run_schedule_steps {T} (acts : list (Action T)) s s' :
  run_schedule acts s = Some s' → rtc sys_step s s'.
Proof.
  revert s. induction acts as [|[t|i] acts IH]; intros [q ts]; simpl; [by intros [= <-]| |].
  - destruct (is_start t) eqn:Et; [|done]. intros Hs%IH. eapply rtc_l; [|exact Hs]. by constructor.
  - destruct (ts !! i) as [t|] eqn:Ei; simpl; [|done]. destruct (task_step i t q) as [| |t' q'] eqn:Es; try done.
    intros Hs%IH. eapply rtc_l; [|exact Hs]. by econstructor.
Qed.

Module QueueSample.

(** A queue with two spots: after an item is pushed, a [wait_empty] waits and
    has collected the permit of the other spot, so that the next push waits. *)
Definition waiting : System nat :=
  mkSystem (mkBoundedQueue 2 [7] (mkSemaphore 0 [(1, 1); (2, 1)]) (mkSemaphore 1 []))
    [Returned None; EmptyWait; PushWait 8].

(** The item is taken, which serves the [wait_empty] *)
Definition popping : System nat :=
  mkSystem (mkBoundedQueue 2 [7] (mkSemaphore 0 [(1, 1); (2, 1)]) (mkSemaphore 0 []))
    [Returned None; EmptyWait; PushWait 8; PopAcquired].
Definition served : System nat :=
  mkSystem (mkBoundedQueue 2 [] (mkSemaphore 0 [(2, 1)]) (mkSemaphore 0 []))
    [Returned None; EmptyWait; PushWait 8; Returned (Some 7)].

Definition to_waiting : list (Action nat) :=
  [Start (Push 7); Run 0; Run 0; Run 0; Start WaitEmpty; Run 1; Start (Push 8); Run 2].

Lemma waiting_reachable : reachable 2 waiting.
Proof. apply (run_schedule_steps to_waiting). reflexivity. Defined.

Lemma popping_reachable : reachable 2 popping.
Proof. apply (run_schedule_steps (to_waiting ++ [Start Pop; Run 3])). reflexivity. Defined.

Lemma served_reachable : reachable 2 served.
Proof. apply (run_schedule_steps (to_waiting ++ [Start Pop; Run 3; Run 3; Run 3])). reflexivity. Defined.

Lemma queue_no_panic_witness :
  task_step 3 PopAcquired (sys_queue popping) ≠ Panicked ∧
  (is_active 3 PopAcquired (sys_queue popping) = true →
   ∃ t' q', task_step 3 PopAcquired (sys_queue popping) = Continue t' q').
Proof. apply (queue_no_panic 2 popping 3); [exact popping_reachable|reflexivity]. Defined.

Lemma queue_refines_fifo_witness :
  fifo_step 2 (EPop 7) [7] [] ∧ fifo_step (T := nat) 2 EEmpty [] [].
Proof.
  split.
  - apply (queue_refines_fifo 2 (sys_queue popping) (tasks popping) 3 PopAcquired (PopTaken 7)
             (set_queue [] (sys_queue popping))); [lia|exact popping_reachable|reflexivity|reflexivity].
  - apply (queue_refines_fifo 2 (sys_queue served) (tasks served) 1 EmptyWait EmptyAcquired
             (sys_queue served)); [lia|exact served_reachable|reflexivity|reflexivity].
Defined.

Lemma waiting_quiescent : quiescent (sys_queue waiting) (tasks waiting).
Proof. intros [|[|[|i]]] t; simpl; intros [= <-]; reflexivity. Defined.

Lemma queue_quiescent_witness :
  length (queue (sys_queue waiting)) = 2 ∨
  ∃ j r ws, waiters (push_semaphore (sys_queue waiting)) = (j, r) :: ws ∧
    tasks waiting !! j = Some EmptyWait ∧ r = length (queue (sys_queue waiting)).
Proof.
  destruct (queue_quiescent 2 (sys_queue waiting) (tasks waiting) ltac:(lia) waiting_reachable waiting_quiescent)
    as (_ & _ & _ & _ & Hpush & _).
  by apply (Hpush 2 8).
Defined.

Lemma queue_clear_witness : ∃ q', clear (sys_queue waiting) = Some q' ∧ queue q' = [] ∧ permits (pop_semaphore q') = 0.
Proof. apply (queue_clear 2 _ (tasks waiting)); [exact waiting_reachable|exact waiting_quiescent]. Defined.

End QueueSample.
