(* ===== verification/Writable.v ===== *)
(** * The write queue

    The queue between block processing and the database (writable.rs).  Block
    processing pushes requests, appending the changes of a block to the newest
    batch in the queue when it can; a background task, the writer, executes
    the request at the front of the queue; and reads combine what is in the
    queue with what is in the store.

    [Queue] and its operations are in the first part.  [System] puts together
    the store, the queue, the writer and the task that processes blocks, each
    at a point of its code; [sys_step] interleaves their steps.  The queue of
    requests behaves like the list that [BoundedQueue.queue_refines_fifo]
    shows it to be: the front is only removed by [pop], and a [push] waits for
    a free spot. *)

From Stdlib Require Import ZArith.
From stdpp Require Import base gmap list strings relations.
From S2P Require Import Prelude Values Intern Entity Write Relational BoundedQueue SyncStore.

Local Open Scope Z_scope.

(** ** [LastRollupTracker] *)

Inductive LastRollup :=
| NotNeeded
| RollupUnknown
| RollupSome (block_time : Z).

(** [set]; the error for an unset block time is built and dropped. *)
Definition rollup_set (block_time : option Z) (last : LastRollup) : LastRollup :=
  match last, block_time with
  | NotNeeded, _ => last
  | RollupSome _, Some t | RollupUnknown, Some t => RollupSome t
  | RollupSome _, None | RollupUnknown, None => last
  end.

Definition rollup_get (last : LastRollup) : option Z :=
  match last with NotNeeded | RollupUnknown => None | RollupSome t => Some t end.

(** ** [BlockTracker] *)

Record BlockTracker := mkTracker { bt_revert : BlockNumber; bt_block : BlockNumber }.

Definition tracker_new : BlockTracker := mkTracker BLOCK_NUMBER_MAX BLOCK_NUMBER_MAX.

Definition tracker_write (ptr : BlockPtr) (t : BlockTracker) : BlockTracker :=
  mkTracker (bt_revert t) (Z.min (bt_block t) (ptr_number ptr - 1)).

Definition tracker_revert (ptr : BlockPtr) (t : BlockTracker) : BlockTracker :=
  mkTracker (Z.min (bt_revert t) (ptr_number ptr)) (Z.min (bt_block t) (ptr_number ptr)).

(** ** [QueuedBatch] and [Request]

    [QueuedBatch::Invalid] only exists while [close] holds the lock on the
    batch. *)

Inductive QueuedBatch :=
| Open (batch : Batch)
| Closed (batch : Batch).

Definition qb_batch (qb : QueuedBatch) : Batch :=
  match qb with Open b | Closed b => b end.

Inductive Request :=
| ReqWrite (queued : Z) (batch : QueuedBatch) (processed : bool)
| ReqRevertTo (block_ptr : BlockPtr) (firehose_cursor : option string) (processed : bool)
| ReqStop.

Definition request_write (now : Z) (b : Batch) : Request := ReqWrite now (Open b) false.
Definition request_revert (ptr : BlockPtr) (cursor : option string) : Request :=
  ReqRevertTo ptr cursor false.

Definition start_process (r : Request) : Request :=
  match r with
  | ReqWrite queued b _ => ReqWrite queued b true
  | ReqRevertTo ptr cursor _ => ReqRevertTo ptr cursor true
  | ReqStop => ReqStop
  end.

Definition req_processed (r : Request) : bool :=
  match r with ReqWrite _ _ p | ReqRevertTo _ _ p => p | ReqStop => false end.

Definition req_is_write (r : Request) : bool :=
  match r with ReqWrite _ _ _ => true | ReqRevertTo _ _ _ | ReqStop => false end.

(** ** Walking the queue, newest request first *)

Section Tracker.
  Context {R : Type}.

(** [BlockTracker::find_map] *)
Fixpoint tracker_find_map (f : Batch → BlockNumber → option R) (l : list Request) (t : BlockTracker)
    : option R * BlockTracker :=
  match l with
  | [] => (None, t)
  | ReqWrite _ qb _ :: l =>
      let batch := qb_batch qb in
      let t := tracker_write (block_ptr batch) t in
      match (if first_block batch <=? bt_revert t then f batch (bt_revert t) else None) with
      | Some r => (Some r, t)
      | None => tracker_find_map f l t
      end
  | ReqRevertTo ptr _ _ :: l => tracker_find_map f l (tracker_revert ptr t)
  | ReqStop :: l => tracker_find_map f l t
  end.

(** [BlockTracker::fold] *)
Fixpoint tracker_fold (f : R → Batch → BlockNumber → R) (l : list Request) (acc : R) (t : BlockTracker)
    : R * BlockTracker :=
  match l with
  | [] => (acc, t)
  | ReqWrite _ qb _ :: l =>
      let batch := qb_batch qb in
      let t := tracker_write (block_ptr batch) t in
      let acc := if first_block batch <=? bt_revert t then f acc batch (bt_revert t) else acc in
      tracker_fold f l acc t
  | ReqRevertTo ptr _ _ :: l => tracker_fold f l acc (tracker_revert ptr t)
  | ReqStop :: l => tracker_fold f l acc t
  end.

End Tracker.

(** ** [Queue] *)

(** [ENV_VARS.store], and the size of a [Batch] without what it points to *)
Class QueueEnv := {
  write_batch_size : Z;
  write_batch_duration : Z;
  size_of_batch : Z;
}.

Record Queue := mkQueue {
  q_reqs : list Request;
  q_capacity : nat;
  write_err : option StoreError;
  poisoned : bool;
  batch_writes : bool;
}.

Definition queue_new (capacity : nat) : Queue := mkQueue [] capacity None false true.

Definition set_reqs (l : list Request) (q : Queue) : Queue :=
  mkQueue l (q_capacity q) (write_err q) (poisoned q) (batch_writes q).
Definition set_batching (b : bool) (q : Queue) : Queue :=
  mkQueue (q_reqs q) (q_capacity q) (write_err q) (poisoned q) b.

Definition stop_batching (q : Queue) : Queue := set_batching false q.
Definition start_batching (q : Queue) : Queue := set_batching true q.

(** [check_err]: the error of the writer is reported once. *)
Definition check_err : st Queue StoreError unit := λ q,
  match write_err q with
  | Some e => (mkQueue (q_reqs q) (q_capacity q) None (poisoned q) (batch_writes q), Err e)
  | None => (q, if poisoned q then Err Poisoned else Ok tt)
  end.

(** [record_err] *)
Definition record_err (e : StoreError) (q : Queue) : Queue :=
  mkQueue [] (q_capacity q) (Some e) true (batch_writes q).

Section Queue.
  Context `{EnvVars} `{InputSchema} `{QueueEnv} (mods_weight : RowGroups → Z).

Definition batch_weight (b : Batch) : Z := size_of_batch + indirect_weight b.

(** [Request::should_process] *)
Definition should_process (now : Z) (r : Request) : bool :=
  match r with
  | ReqWrite queued qb _ =>
      (write_batch_size <=? batch_weight (qb_batch qb)) || (write_batch_duration <=? now - queued)
  | ReqRevertTo _ _ _ | ReqStop => true
  end.

Definition qb_append (other : Batch) : st QueuedBatch StoreError unit := λ qb,
  match qb with
  | Open b => let '(b', res) := batch_append mods_weight other b in (Open b', res)
  | Closed _ => (qb, Err (InternalError "attempt to append to closed batch"))
  end.

Definition qb_close (qb : QueuedBatch) : QueuedBatch * Batch :=
  match qb with Open b | Closed b => (Closed b, b) end.

(** The first part of [push_write]: append to the newest request, if that is
    possible.  [lock_free] says that nothing holds the lock on its batch. *)
Definition merge_newest (now : Z) (lock_free : bool) (batch : Batch)
    : st Queue StoreError (option Batch) := λ q,
  if (write_batch_size =? 0) || (write_batch_duration =? 0) || negb (batch_writes q) then (q, Ok (Some batch))
  else
    match last (q_reqs q) with
    | None => (q, Ok (Some batch))
    | Some newest =>
        if req_processed newest then (q, Ok (Some batch))
        else
          match newest with
          | ReqWrite queued existing p =>
              if now - queued <? write_batch_duration then
                if lock_free then
                  if batch_weight (qb_batch existing) <? write_batch_size then
                    let '(existing', res) := qb_append batch existing in
                    (set_reqs (removelast (q_reqs q) ++ [ReqWrite queued existing' p]) q,
                     match res with Ok _ => Ok None | Err e => Err e | Panic => Panic end)
                  else (q, Ok (Some batch))
                else (q, Ok (Some batch))
              else (q, Ok (Some batch))
          | ReqRevertTo _ _ _ | ReqStop => (q, Ok (Some batch))
          end
    end.

End Queue.

(** ** Reads *)

Section Reads.
  Context `{EnvVars} `{InputSchema} {S : Type} `{SyncStore S}.

(** [Queue::get] *)
Definition queue_get (reqs : list Request) (key : EntityKey) (s : S)
    : outcome StoreError (option (Object Value)) :=
  let '(op, t) := tracker_find_map (λ batch at_, batch_last_op batch key at_) (rev reqs) tracker_new in
  match op with
  | Some (OpWrite _ entity) => Ok (Some entity)
  | Some (OpRemove _) => Ok None
  | None => sync_get key (bt_block t) s
  end.

(** [Queue::get_many]; the keys in the order of the set *)
Definition many_in_batch (keys : list EntityKey) (m : gmap EntityKey (option (Object Value)))
    (batch : Batch) (at_ : BlockNumber) : gmap EntityKey (option (Object Value)) :=
  foldl (λ m key,
    match m !! key with
    | Some _ => m
    | None =>
        match batch_last_op batch key at_ with
        | Some (OpWrite _ entity) => <[key := Some entity]> m
        | Some (OpRemove _) => <[key := None]> m
        | None => m
        end
    end) m keys.

Fixpoint extend_entities (l : list (EntityKey * option (Object Value)))
    (m : gmap EntityKey (Object Value)) : outcome StoreError (gmap EntityKey (Object Value)) :=
  match l with
  | [] => Ok m
  | (key, Some entity) :: l =>
      match m !! key with
      | Some _ => Panic
      | None => extend_entities l (<[key := entity]> m)
      end
  | (_, None) :: l => extend_entities l m
  end.

Definition queue_get_many (reqs : list Request) (keys : list EntityKey) (s : S)
    : outcome StoreError (gmap EntityKey (Object Value)) :=
  let '(in_queue, t) := tracker_fold (many_in_batch keys) (rev reqs) ∅ tracker_new in
  m ← sync_get_many (filter (λ key, in_queue !! key = None) keys) (bt_block t) s;
  extend_entities (map_to_list in_queue) m.

(** [Queue::get_derived] *)
Definition is_related (q : DerivedEntityQuery) (entity : Object Value) : bool :=
  match entity_get entity (dq_entity_field q) with
  | Some v => id_eq_value (dq_value q) v
  | None => false
  end.

Definition derived_op (q : DerivedEntityQuery) (op : EntityOp) : option (EntityKey * option (Object Value)) :=
  match op with
  | OpWrite key entity => if is_related q entity then Some (key, Some entity) else None
  | OpRemove key => Some (key, None)
  end.

Definition derived_in_batch (q : DerivedEntityQuery) (m : gmap EntityKey (option (Object Value)))
    (batch : Batch) (at_ : BlockNumber) : gmap EntityKey (option (Object Value)) :=
  foldl (λ m kv, match m !! kv.1 with Some _ => m | None => <[kv.1 := kv.2]> m end) m
    (omap (derived_op q) (batch_effective_ops batch (dq_entity_type q) at_)).

Definition queue_get_derived (reqs : list Request) (q : DerivedEntityQuery) (s : S)
    : outcome StoreError (gmap EntityKey (Object Value)) :=
  let '(in_queue, t) := tracker_fold (derived_in_batch q) (rev reqs) ∅ tracker_new in
  from_db ← sync_get_derived q (bt_block t) (map_to_list in_queue).*1 s;
  Ok (omap id in_queue ∪ from_db).

(** [Queue::load_dynamic_data_sources] *)
Definition queue_load_dds (reqs : list Request) (s : S)
    : outcome StoreError (list StoredDynamicDataSource) :=
  let '(queue_dds, t) :=
    tracker_fold (λ dds batch at_, dds ++ new_data_sources batch at_) (rev reqs) [] tracker_new in
  dds ← sync_load_dds (bt_block t) s;
  Ok (dds ++ Deployment.sort_by_key creation_block queue_dds).

End Reads.

(** ** The writer, block processing and the queue together *)

Inductive ExecResult := ExContinue | ExStop.

(** Where the writer is in [start_writer] *)
Inductive WriterPc :=
| WTop                                            (* start of the loop *)
| WWait                                           (* inner loop, before [peek] *)
| WSleep                                          (* waiting for time or a notification *)
| WPeek                                           (* before [peek_with] *)
| WExec                                           (* before [execute] *)
| WResult (res : outcome StoreError ExecResult)   (* before [pop] or [record_err] *)
| WFinished.

(** Where block processing is: not in a call, waiting in [push] (with the
    block pointer that a write sets when it is done), or waiting in [flush]. *)
Inductive ClientPc :=
| CIdle
| CPush (req : Request) (k : option (BlockPtr * option string))
| CFlush (batching : bool).

(** What was accepted: the changes of blocks, and reverts *)
Inductive LogOp :=
| LWrite (batch : Batch)
| LRevert (block_ptr : BlockPtr) (firehose_cursor : option string).

Definition req_op (r : Request) : option LogOp :=
  match r with
  | ReqWrite _ qb _ => Some (LWrite (qb_batch qb))
  | ReqRevertTo ptr cursor _ => Some (LRevert ptr cursor)
  | ReqStop => None
  end.

(** The arguments of [transact_block_operations] *)
Record BlockChanges := mkBlockChanges {
  bc_ptr : BlockPtr;
  bc_time : Z;
  bc_cursor : option string;
  bc_mods : list EntityModification;
  bc_data_sources : list StoredDynamicDataSource;
  bc_errors : list SubgraphError;
  bc_processed : list StoredDynamicDataSource;
  bc_nonfatal : bool;
  bc_caught_up : bool;
}.

Section System.
  Context `{EnvVars} `{InputSchema} `{UnstableSort} `{QueueEnv} (mods_weight : RowGroups → Z).
  Context {S : Type} `{SyncStore S}.

Record System := mkSystem {
  sys_store : S;
  sys_queue : Queue;
  sys_writer : WriterPc;
  sys_client : ClientPc;
  (** the fields of [WritableStore] *)
  sys_block_ptr : option BlockPtr;
  sys_block_cursor : option string;
  sys_log : list LogOp;
}.

Definition set_queue (q : Queue) (sys : System) : System :=
  mkSystem (sys_store sys) q (sys_writer sys) (sys_client sys) (sys_block_ptr sys) (sys_block_cursor sys) (sys_log sys).
Definition set_client (c : ClientPc) (sys : System) : System :=
  mkSystem (sys_store sys) (sys_queue sys) (sys_writer sys) c (sys_block_ptr sys) (sys_block_cursor sys) (sys_log sys).
Definition set_writer (w : WriterPc) (sys : System) : System :=
  mkSystem (sys_store sys) (sys_queue sys) w (sys_client sys) (sys_block_ptr sys) (sys_block_cursor sys) (sys_log sys).
Definition set_ptr (ptr : BlockPtr) (cursor : option string) (sys : System) : System :=
  mkSystem (sys_store sys) (sys_queue sys) (sys_writer sys) (sys_client sys) (Some ptr) cursor (sys_log sys).
Definition log_op (op : LogOp) (sys : System) : System :=
  mkSystem (sys_store sys) (sys_queue sys) (sys_writer sys) (sys_client sys) (sys_block_ptr sys)
    (sys_block_cursor sys) (sys_log sys ++ [op]).

(** *** Calls of block processing

    A call returns a result, or [None] when it has to wait. *)
Definition call := System → System * option (outcome StoreError unit).

Definition check_err_call : System → System * outcome StoreError unit := λ sys,
  let '(q, res) := check_err (sys_queue sys) in (set_queue q sys, res).

(** [Writer::check_queue_running] *)
Definition check_queue_running : System → System * outcome StoreError unit := λ sys,
  let '(sys, res) := check_err_call sys in
  match res with
  | Ok _ =>
      (sys, match sys_writer sys with
            | WFinished => Err (InternalError "Subgraph writer is not running")
            | _ => Ok tt
            end)
  | _ => (sys, res)
  end.

(** [Queue::push], up to the point where it waits for a free spot *)
Definition push_call (req : Request) (k : option (BlockPtr * option string)) : call := λ sys,
  let '(sys, res) := check_err_call sys in
  match res with
  | Ok _ =>
      let q := if req_is_write req then sys_queue sys else stop_batching (sys_queue sys) in
      (set_client (CPush req k) (set_queue q sys), None)
  | _ => (sys, Some res)
  end.

(** [WritableStore::transact_block_operations], with [Writer::write] and
    [Queue::push_write]; that a deployment that has caught up is marked as
    synced in the database is left out. *)
Definition transact_call (now : Z) (lock_free : bool) (bc : BlockChanges) : call := λ sys,
  let sys :=
    set_queue (if bc_caught_up bc then stop_batching (sys_queue sys) else start_batching (sys_queue sys)) sys in
  if match sys_block_ptr sys with Some p => ptr_number (bc_ptr bc) <=? ptr_number p | None => false end then
    (sys, Some (Err (InternalError "transact_block_operations called for a block but its head is already there")))
  else
    match batch_new mods_weight (bc_ptr bc) (bc_time bc) (bc_cursor bc) (bc_mods bc) (bc_data_sources bc)
            (bc_errors bc) (bc_processed bc) (bc_nonfatal bc) with
    | Err e => (sys, Some (Err e))
    | Panic => (sys, Some Panic)
    | Ok batch =>
        let '(sys, res) := check_queue_running sys in
        match res with
        | Ok _ =>
            let '(q, res) := merge_newest mods_weight now lock_free batch (sys_queue sys) in
            match res with
            | Ok None =>
                (set_ptr (bc_ptr bc) (bc_cursor bc) (log_op (LWrite batch) (set_queue q sys)), Some (Ok tt))
            | Ok (Some batch) =>
                push_call (request_write now batch) (Some (bc_ptr bc, bc_cursor bc)) (set_queue q sys)
            | Err e => (set_queue q sys, Some (Err e))
            | Panic => (set_queue q sys, Some Panic)
            end
        | _ => (sys, Some res)
        end
    end.

(** [WritableStore::revert_block_operations] and [Writer::revert] *)
Definition revert_call (ptr : BlockPtr) (cursor : option string) : call := λ sys,
  let sys := set_ptr ptr cursor sys in
  let '(sys, res) := check_queue_running sys in
  match res with
  | Ok _ => push_call (request_revert ptr cursor) None sys
  | _ => (sys, Some res)
  end.

(** [Writer::stop] *)
Definition stop_call : call := λ sys,
  push_call ReqStop None (set_queue (stop_batching (sys_queue sys)) sys).

(** [Writer::flush], up to [wait_empty] *)
Definition flush_call : call := λ sys,
  let '(sys, res) := check_queue_running sys in
  match res with
  | Ok _ =>
      let '(sys, res) := check_err_call sys in
      match res with
      | Ok _ =>
          let batching := batch_writes (sys_queue sys) in
          (set_client (CFlush batching) (set_queue (stop_batching (sys_queue sys)) sys), None)
      | _ => (sys, Some res)
      end
  | _ => (sys, Some res)
  end.

(** The rest of a call that waited: [push] once there is a free spot, [flush]
    once the queue is empty. *)
Definition resume_call : System → option (System * outcome StoreError unit) := λ sys,
  match sys_client sys with
  | CIdle => None
  | CPush req k =>
      if decide (length (q_reqs (sys_queue sys)) < q_capacity (sys_queue sys))%nat then
        let sys := set_client CIdle (set_queue (set_reqs (q_reqs (sys_queue sys) ++ [req]) (sys_queue sys)) sys) in
        let sys := match req_op req with Some op => log_op op sys | None => sys end in
        Some (match k with Some (ptr, cursor) => set_ptr ptr cursor sys | None => sys end, Ok tt)
      else None
  | CFlush batching =>
      match q_reqs (sys_queue sys) with
      | [] =>
          let sys := set_client CIdle (set_queue (set_batching batching (sys_queue sys)) sys) in
          Some (check_err_call sys)
      | _ => None
      end
  end.

(** *** The writer *)

(** [Request::execute]: the request, the store and the result *)
Definition execute (r : Request) (s : S) : Request * S * outcome StoreError ExecResult :=
  match r with
  | ReqWrite queued qb p =>
      let '(qb', batch) := qb_close qb in
      let r' := ReqWrite queued qb' p in
      match error batch with
      | Some e => (r', s, Err e)
      | None =>
          match sync_transact batch s with
          | Ok s' => (r', s', Ok ExContinue)
          | Err e => (r', s, Err e)
          | Panic => (r', s, Panic)
          end
      end
  | ReqRevertTo ptr cursor _ =>
      match sync_revert ptr cursor s with
      | Ok s' => (r, s', Ok ExContinue)
      | Err e => (r, s, Err e)
      | Panic => (r, s, Panic)
      end
  | ReqStop => (r, s, Ok ExStop)
  end.

(** One step of [start_writer]; [None] when the writer waits or has ended *)
Definition writer_step (now : Z) (sys : System) : option System :=
  let q := sys_queue sys in
  match sys_writer sys with
  | WTop => Some (set_writer (if batch_writes q && (length (q_reqs q) <=? 1)%nat then WWait else WPeek) sys)
  | WWait =>
      match q_reqs q with
      | [] => None
      | r :: _ =>
          Some (set_writer
            (if negb (batch_writes q) || (1 <? length (q_reqs q))%nat || should_process now r then WPeek else WSleep) sys)
      end
  | WSleep => Some (set_writer WWait sys)
  | WPeek =>
      match q_reqs q with
      | [] => None
      | r :: rest => Some (set_writer WExec (set_queue (set_reqs (start_process r :: rest) q) sys))
      end
  | WExec =>
      match q_reqs q with
      | [] => None
      | r :: rest =>
          let '(r', s', res) := execute r (sys_store sys) in
          Some (mkSystem s' (set_reqs (r' :: rest) q) (WResult res) (sys_client sys)
                  (sys_block_ptr sys) (sys_block_cursor sys) (sys_log sys))
      end
  | WResult res =>
      Some (match res with
            | Ok ExContinue => set_writer WTop (set_queue (set_reqs (tail (q_reqs q)) q) sys)
            | Ok ExStop => set_writer WFinished (set_queue (set_reqs (tail (q_reqs q)) q) sys)
            | Err e => set_writer WFinished (set_queue (record_err e q) sys)
            | Panic => set_writer WFinished (set_queue (record_err WriterPanic q) sys)
            end)
  | WFinished => None
  end.

(** *** All together *)

Inductive sys_step : System → System → Prop :=
| step_transact now lock_free bc sys :
    sys_client sys = CIdle → sys_step sys (transact_call now lock_free bc sys).1
| step_revert ptr cursor sys :
    sys_client sys = CIdle → sys_step sys (revert_call ptr cursor sys).1
| step_stop sys :
    sys_client sys = CIdle → sys_step sys (stop_call sys).1
| step_flush sys :
    sys_client sys = CIdle → sys_step sys (flush_call sys).1
| step_resume sys sys' res :
    resume_call sys = Some (sys', res) → sys_step sys sys'
| step_writer now sys sys' :
    writer_step now sys = Some sys' → sys_step sys sys'.

Definition sys_init (capacity : nat) (s : S) (ptr : option BlockPtr) (cursor : option string) : System :=
  mkSystem s (queue_new capacity) WTop CIdle ptr cursor [].

End System.
Arguments System : clear implicits.
