(* ===== verification/WritableFacts.v ===== *)
(** * Properties of the write queue

    The queue is correct when, whatever the interleaving of block processing
    and the writer, the store ends up with what the accepted requests do when
    they are executed one after the other, and reads see that result at all
    times.  The proofs use the store only through [SyncStoreSpec]. *)

From Stdlib Require Import ZArith Lia ZifyBool.
From stdpp Require Import base gmap list strings relations.
From S2P Require Import Prelude Values Intern InternFacts Entity EntityFacts.
From S2P Require Import Write WriteFacts Relational RelationalFacts AppendFacts BatchFacts ReadFacts.
From S2P Require Import Deployment DeploymentFacts SyncStore Writable.

Local Open Scope Z_scope.

(** ** Executing requests one after the other *)

Section Runs.
  Context `{EnvVars} `{InputSchema} `{QueueEnv} (mods_weight : RowGroups → Z).
  Context {S : Type} `{SyncStore S} `{Equiv S} `{!SyncStoreSpec S mods_weight}.

Inductive runs : list LogOp → S → S → Prop :=
| runs_nil s t : s ≡ t → runs [] s t
| runs_write b ops s t u :
    accepts b s → sync_transact b s = Ok t → runs ops t u → runs (LWrite b :: ops) s u
| runs_revert p c ops s t u :
    sync_revert p c s = Ok t → runs ops t u → runs (LRevert p c :: ops) s u.

Lemma runs_proper_l ops s s' t : s ≡ s' → runs ops s t → runs ops s' t.
Proof.
  intros Heq Hr. revert s' Heq.
  induction Hr as [s t Hst|b ops s t u Hacc Htr Hr IH|p c ops s t u Htr Hr IH]; intros s' Heq.
  - constructor. by rewrite <-Heq.
  - destruct (transact_proper b s s' t Heq Htr) as (t' & Htr' & Ht).
    econstructor; [by eapply accepts_proper|done|by apply IH].
  - destruct (revert_proper p c s s' t Heq Htr) as (t' & Htr' & Ht). econstructor; [done|by apply IH].
Qed.

Lemma runs_proper_r ops s t t' : t ≡ t' → runs ops s t → runs ops s t'.
Proof.
  intros Heq Hr. induction Hr as [s t Hst|b ops s t u Hacc Htr Hr IH|p c ops s t u Htr Hr IH].
  - constructor. by rewrite Hst.
  - econstructor; [done|done|by apply IH].
  - econstructor; [done|by apply IH].
Qed.

Lemma runs_app ops1 ops2 s u :
  runs (ops1 ++ ops2) s u ↔ ∃ t, runs ops1 s t ∧ runs ops2 t u.
Proof.
  split.
  - revert s. induction ops1 as [|op ops1 IH]; intros s Hr; simpl in Hr; [by exists s; split; [constructor|]|].
    inversion Hr as [|b ops' s' t' u' Hacc Htr Hr'|p c ops' s' t' u' Htr Hr']; subst;
      destruct (IH _ Hr') as (t & H1' & H2'); exists t; split; try done; by econstructor.
  - intros (t & Hr1 & Hr2). revert Hr2.
    induction Hr1 as [s t Hst|b ops s t' t Hacc Htr Hr IH|p c ops s t' t Htr Hr IH]; intros Hr2; simpl.
    + by eapply runs_proper_l.
    + econstructor; [done|done|by apply IH].
    + econstructor; [done|by apply IH].
Qed.

Lemma runs_det ops s t t' : runs ops s t → runs ops s t' → t ≡ t'.
Proof.
  intros Hr. induction Hr as [s t Hst|b ops s t u Hacc Htr Hr IH|p c ops s t u Htr Hr IH]; intros Hr'.
  - inversion Hr'; subst. by rewrite <-Hst.
  - inversion Hr'; subst. apply IH. congruence.
  - inversion Hr'; subst. apply IH. congruence.
Qed.

Lemma runs_wf ops b s t : runs ops s t → LWrite b ∈ ops → groups_wf (groups (mods b)).
Proof.
  intros Hr. induction Hr as [s t Hst|b' ops s t u Hacc Htr Hr IH|p c ops s t u Htr Hr IH]; rewrite ?elem_of_nil, ?elem_of_cons;
    [done| |naive_solver]. intros [[= ->]|Hb]; [|by apply IH]. by destruct (accepts_fits _ _ Hacc).
Qed.

Lemma runs_ok ops s t : store_ok s → runs ops s t → store_ok t.
Proof.
  intros Hok Hr. induction Hr as [s t Hst|b ops s t u Hacc Htr Hr IH|p c ops s t u Htr Hr IH].
  - by eauto with stores.
  - apply IH. by destruct (transact_ok b s t Hok Hacc Htr).
  - apply IH. by destruct (revert_ok p c s t Hok Htr).
Qed.

#[local] Hint Resolve runs_ok : stores.

(** Appending a batch to the last one is executing it after the last one. *)
Lemma runs_append ops b1 b2 b' s t u :
  store_ok s → runs (ops ++ [LWrite b1]) s t → runs [LWrite b2] t u →
  batch_append mods_weight b2 b1 = (b', Ok tt) → runs (ops ++ [LWrite b']) s u.
Proof.
  intros Hok Hr1 Hr2 Happ. apply runs_app in Hr1 as (x & Hx & Hr1). apply runs_app. exists x. split; [done|].
  inversion Hr1 as [|b ops' s' y u' Hacc1 Htr1 Hy|]; subst. inversion Hy as [? ? Hyt| |]; subst.
  inversion Hr2 as [|b ops' s' z u' Hacc2 Htr2 Hz|]; subst. inversion Hz as [? ? Hzu| |]; subst.
  apply accepts_proper with (s' := y) in Hacc2; [|by symmetry].
  destruct (transact_proper b2 t y z) as (z' & Htr2' & Hzz'); [by symmetry|done|].
  destruct (transact_append b1 b2 b' x y z') as (Hacc' & w & Htr' & Hw); try done; [by eauto with stores|].
  econstructor; [done|done|]. constructor. by rewrite Hw, <-Hzz'.
Qed.

End Runs.

#[export] Hint Resolve runs_ok : stores.

(** ** The queue executes what was accepted *)

Section Queue.
  Context `{EnvVars} `{InputSchema} `{UnstableSort} `{QueueEnv} (mods_weight : RowGroups → Z).
  Context {S : Type} `{SyncStore S} `{Equiv S} `{!SyncStoreSpec S mods_weight}.
  Implicit Types (sys : System S) (s t u base : S).

Abbreviation runs := (runs mods_weight).
Abbreviation sys_step := (sys_step mods_weight).

Definition reachable (capacity : nat) (s0 : S) ptr cursor : System S → Prop :=
  rtc sys_step (sys_init capacity s0 ptr cursor).

(** A request that the writer has not looked at *)
Definition untouched (r : Request) : Prop :=
  req_processed r = false ∧ match r with ReqWrite _ (Closed _) _ => False | _ => True end.

Definition request_ok (r : Request) : Prop :=
  match r with ReqWrite _ qb _ => error (qb_batch qb) = None | _ => True end.

(** The request that the writer works on is marked as processed, and all that
    come after it are untouched. *)
Definition flags_ok (w : WriterPc) (reqs : list Request) : Prop :=
  match w with
  | WExec | WResult _ =>
      match reqs with
      | r :: rest =>
          (r = ReqStop ∨ req_processed r = true) ∧
          match w with WResult (Ok _) => request_ok r | _ => True end ∧ Forall untouched rest
      | [] => False
      end
  | _ => Forall untouched reqs
  end.

(** The result of executing a request in the store *)
Definition op_result (op : option LogOp) (s : S) : outcome StoreError S :=
  match op with
  | Some (LWrite b) => sync_transact b s
  | Some (LRevert p c) => sync_revert p c s
  | None => Ok s
  end.

(** The store before the request that the writer has executed but not removed *)
Definition base_of (w : WriterPc) (reqs : list Request) (base s : S) : Prop :=
  match w with
  | WResult (Ok ExContinue) =>
      ∃ r rest, reqs = r :: rest ∧ r ≠ ReqStop ∧ op_result (req_op r) base = Ok s
  | WResult (Ok ExStop) => base = s ∧ ∃ rest, reqs = ReqStop :: rest
  | WResult _ => base = s ∧ ∃ r rest, reqs = r :: rest ∧ ∀ t, op_result (req_op r) base ≠ Ok t
  | _ => base = s
  end.

(** All that is written for the id of the key is written for the key. *)
Definition op_fits (key : EntityKey) (op : LogOp) : Prop :=
  match op with LWrite b => key_fits key (mods b) | LRevert _ _ => True end.

(** [ops] does in [base] what [log] does in [s0]. *)
Definition continues (s0 : S) (log : list LogOp) (base : S) (ops : list LogOp) : Prop :=
  ∀ u, runs log s0 u →
    store_ok base ∧ runs ops base u ∧
    ∀ key, key_known key s0 → Forall (op_fits key) log → key_known key base ∧ Forall (op_fits key) ops.

Definition sys_inv (s0 : S) sys : Prop :=
  let q := sys_queue sys in
  flags_ok (sys_writer sys) (q_reqs q) ∧
  match sys_client sys with CPush r _ => untouched r | _ => True end ∧
  (poisoned q = false → Forall request_ok (q_reqs q) →
   ∃ base, base_of (sys_writer sys) (q_reqs q) base (sys_store sys) ∧
     continues s0 (sys_log sys) base (omap req_op (q_reqs q))).

(** *** Steps that do not concern the invariant *)

(** The parts of the system that the invariant is about are the same. *)
Definition same_core sys sys' : Prop :=
  sys_store sys' = sys_store sys ∧ sys_writer sys' = sys_writer sys ∧
  q_reqs (sys_queue sys') = q_reqs (sys_queue sys) ∧ poisoned (sys_queue sys') = poisoned (sys_queue sys) ∧
  sys_log sys' = sys_log sys.

Lemma same_core_trans sys1 sys2 sys3 : same_core sys1 sys2 → same_core sys2 sys3 → same_core sys1 sys3.
Proof. unfold same_core. intuition congruence. Qed.

Lemma same_core_inv s0 sys sys' :
  same_core sys sys' → match sys_client sys' with CPush r _ => untouched r | _ => True end →
  sys_inv s0 sys → sys_inv s0 sys'.
Proof.
  intros (Hs & Hw & Hr & Hp & Hl) Hc (Hf & _ & Hinv). unfold sys_inv. rewrite Hs, Hw, Hr, Hp, Hl. done.
Qed.

Lemma check_err_core sys sys' res :
  check_err_call sys = (sys', res) → same_core sys sys' ∧ sys_client sys' = sys_client sys.
Proof. unfold check_err_call, check_err. destruct (write_err _); intros [= <- _]; done. Qed.

Lemma check_running_core sys sys' res :
  check_queue_running sys = (sys', res) → same_core sys sys' ∧ sys_client sys' = sys_client sys.
Proof.
  unfold check_queue_running. destruct (check_err_call sys) as [sys1 r1] eqn:E.
  apply check_err_core in E as [? ?]. destruct r1; by intros [= <- _].
Qed.

Lemma push_call_core req k sys :
  sys_client sys = CIdle → untouched req →
  same_core sys (push_call req k sys).1 ∧
  match sys_client (push_call req k sys).1 with CPush r _ => untouched r | _ => True end.
Proof.
  intros Hc Hu. unfold push_call. destruct (check_err_call sys) as [sys1 r1] eqn:E.
  apply check_err_core in E as [Hcore Hc1]. destruct r1; simpl; [|by rewrite Hc1, Hc..].
  split; [|done]. destruct Hcore as (? & ? & ? & ? & ?). by destruct (req_is_write req).
Qed.

Lemma inv_push s0 req k sys :
  sys_client sys = CIdle → untouched req → sys_inv s0 sys → sys_inv s0 (push_call req k sys).1.
Proof. intros Hc Hu. destruct (push_call_core req k sys Hc Hu). by apply same_core_inv. Qed.

(** *** Appending to the newest request *)

Lemma merge_newest_cases now lf b q q' res :
  merge_newest mods_weight now lf b q = (q', res) →
  (q_reqs q' = q_reqs q ∧ poisoned q' = poisoned q ∧ (res = Ok (Some b) ∨ ∃ e, res = Err e)) ∨
  ∃ l queued B B' r0, q_reqs q = l ++ [ReqWrite queued (Open B) false] ∧
    q' = Writable.set_reqs (l ++ [ReqWrite queued (Open B') false]) q ∧
    batch_append mods_weight b B = (B', r0) ∧
    res = match r0 with Ok _ => Ok None | Err e => Err e | Panic => Panic end.
Proof.
  unfold merge_newest. destruct (_ || _); [intros [= <- <-]; by left; auto|].
  destruct (last (q_reqs q)) as [newest|] eqn:El; [|intros [= <- <-]; by left; auto].
  destruct (req_processed newest) eqn:Ep; [intros [= <- <-]; by left; auto|].
  destruct newest as [queued qb p|ptr c p|]; [|intros [= <- <-]; by left; auto..].
  destruct (_ <? _); [|intros [= <- <-]; by left; auto]. destruct lf; [|intros [= <- <-]; by left; auto].
  destruct (_ <? _); [|intros [= <- <-]; by left; auto].
  apply last_Some in El as [l El]. simpl in Ep. subst p. rewrite El, removelast_last.
  destruct qb as [B|B]; simpl.
  - destruct (batch_append mods_weight b B) as [B' r0] eqn:Ea. intros [= <- <-]. right. by exists l, queued, B, B', r0.
  - intros [= <- <-]. left. simpl. eauto 6.
Qed.

(** The last request is not the one that the writer works on. *)
Lemma flags_replace w l r r' :
  untouched r → r ≠ ReqStop → untouched r' → flags_ok w (l ++ [r]) → flags_ok w (l ++ [r']).
Proof.
  intros Hu Hns Hu'. unfold flags_ok. destruct w; rewrite ?Forall_app, ?Forall_singleton; try (by intros [? _]);
    (destruct l as [|x l]; simpl; [intros [[-> |Hp] _]; [done|destruct Hu; congruence]|]);
    rewrite !Forall_app, !Forall_singleton; by intros (? & ? & ? & _).
Qed.

Lemma flags_snoc w l r : untouched r → flags_ok w l → flags_ok w (l ++ [r]).
Proof.
  intros Hu. unfold flags_ok. destruct w; rewrite ?Forall_app, ?Forall_singleton; try done;
    (destruct l as [|x l]; simpl; [done|]); rewrite Forall_app, Forall_singleton; by intros (? & ? & ?).
Qed.

Lemma base_replace w l r r' base s :
  untouched r → flags_ok w (l ++ [r]) → r ≠ ReqStop →
  base_of w (l ++ [r]) base s → base_of w (l ++ [r']) base s.
Proof.
  intros Hu Hf Hns. unfold base_of. destruct w as [| | | | |res|]; try done. simpl in Hf.
  destruct l as [|y l]; simpl in *; [destruct Hf as [[-> |Hp] _]; [done|destruct Hu; congruence]|].
  destruct res as [[]| |]; naive_solver.
Qed.

Lemma base_snoc w l r base s : base_of w l base s → base_of w (l ++ [r]) base s.
Proof.
  unfold base_of. destruct w as [| | | | |res|]; try done. destruct res as [[]| |].
  - intros (x & rest & -> & Hop). by exists x, (rest ++ [r]).
  - intros [-> [rest ->]]. split; [done|]. by exists (rest ++ [r]).
  - intros (-> & x & rest & -> & Hop). split; [done|]. by exists x, (rest ++ [r]).
  - intros (-> & x & rest & -> & Hop). split; [done|]. by exists x, (rest ++ [r]).
Qed.

(** A batch that was appended to the newest request *)
Lemma inv_append s0 sys sys' l queued B B' b :
  sys_inv s0 sys →
  q_reqs (sys_queue sys) = l ++ [ReqWrite queued (Open B) false] →
  q_reqs (sys_queue sys') = l ++ [ReqWrite queued (Open B') false] →
  poisoned (sys_queue sys') = poisoned (sys_queue sys) →
  sys_store sys' = sys_store sys → sys_writer sys' = sys_writer sys → sys_client sys' = CIdle →
  sys_log sys' = sys_log sys ++ [LWrite b] →
  batch_append mods_weight b B = (B', Ok tt) → sys_inv s0 sys'.
Proof.
  intros (Hf & _ & Hinv) Hl Hl' Hp Hs Hw Hc Hlog Happ. rewrite Hl in *. unfold sys_inv. rewrite Hl', Hp, Hs, Hw, Hc, Hlog.
  split; [by apply (flags_replace _ _ (ReqWrite queued (Open B) false))|]. split; [done|]. intros Hnp Hok.
  destruct (batch_append_mods _ _ _ _ Happ) as (Hmods & _ & _ & _ & _ & _ & _ & Herr & _).
  apply Forall_app in Hok as [Hok [Hok1 _]%Forall_cons]. simpl in Hok1.
  destruct Hinv as (base & Hbase & Hruns); [done|apply Forall_app_2; [done|]; apply Forall_singleton; simpl; congruence|].
  exists base. split; [by apply (base_replace _ _ (ReqWrite queued (Open B) false))|]. intros u Hu.
  apply runs_app in Hu as (t & Ht & Hu). destruct (Hruns t Ht) as (Hbok & Hrt & Hkeys). rewrite omap_app in *. simpl in *.
  split; [done|]. split; [by eapply runs_append|]. intros key Hk0 [Hk1 [Hkb _]%Forall_cons]%Forall_app.
  destruct (Hkeys key Hk0 Hk1) as [Hkbase [Hkl [HkB _]%Forall_cons]%Forall_app]. split; [done|].
  apply Forall_app_2; [done|]. constructor; [|done].
  apply (key_fits_append key (mods B) (mods b)); [eapply (runs_wf _ _ _ _ _ Hrt)|eapply (runs_wf _ _ _ _ _ Hu)|done..];
    set_solver.
Qed.

(** A batch that could only be appended in part *)
Lemma inv_append_fails s0 sys sys' l queued B B' b e :
  sys_inv s0 sys →
  q_reqs (sys_queue sys) = l ++ [ReqWrite queued (Open B) false] →
  q_reqs (sys_queue sys') = l ++ [ReqWrite queued (Open B') false] →
  sys_writer sys' = sys_writer sys → sys_client sys' = CIdle →
  batch_append mods_weight b B = (B', Err e) → sys_inv s0 sys'.
Proof.
  intros (Hf & _ & _) Hl Hl' Hw Hc Happ. rewrite Hl in *. unfold sys_inv. rewrite Hl', Hw, Hc.
  split; [by apply (flags_replace _ _ (ReqWrite queued (Open B) false))|]. split; [done|]. intros _ Hok. exfalso.
  apply Forall_app in Hok as [_ [Hok _]%Forall_cons]. simpl in Hok.
  destruct (batch_append_fails _ _ _ _ _ Happ). congruence.
Qed.

(** *** Every step keeps the invariant *)

Lemma inv_transact s0 now lf bc sys :
  sys_client sys = CIdle → sys_inv s0 sys → sys_inv s0 (transact_call mods_weight now lf bc sys).1.
Proof.
  intros Hc Hinv. unfold transact_call.
  set (sys1 := Writable.set_queue _ sys).
  assert (sys_inv s0 sys1 ∧ sys_client sys1 = CIdle) as [Hinv1 Hc1].
  { split; [|done]. apply (same_core_inv _ sys); [|by simpl; rewrite Hc|done]. unfold sys1, same_core. by destruct (bc_caught_up bc). }
  clearbody sys1. destruct (match sys_block_ptr sys1 with Some p => _ | None => _ end); [done|].
  destruct (batch_new _ _ _ _ _ _ _ _ _) as [batch|e|]; [|done..].
  destruct (check_queue_running sys1) as [sys2 r2] eqn:E2. apply check_running_core in E2 as [Hcore2 Hc2].
  assert (sys_inv s0 sys2) as Hinv2 by (apply (same_core_inv _ sys1); [done|by rewrite Hc2, Hc1|done]).
  rewrite Hc1 in Hc2. destruct r2; [|done..].
  destruct (merge_newest mods_weight now lf batch (sys_queue sys2)) as [q res] eqn:Em.
  apply merge_newest_cases in Em as [(Hr & Hp & Hres)|(l & queued & B & B' & r0 & Hr & -> & Happ & ->)].
  - assert (sys_inv s0 (Writable.set_queue q sys2)) by (apply (same_core_inv _ sys2); [done|by simpl; rewrite Hc2|done]).
    destruct Hres as [-> |[e ->]]; [|done]. by apply inv_push.
  - destruct r0 as [[]|e|]; simpl; [eapply inv_append; (done || by simpl)|eapply inv_append_fails; (done || by simpl)|].
    destruct (batch_append_no_panic mods_weight batch B). by rewrite Happ.
Qed.

Lemma inv_revert s0 ptr cursor sys :
  sys_client sys = CIdle → sys_inv s0 sys → sys_inv s0 (revert_call ptr cursor sys).1.
Proof.
  intros Hc Hinv. unfold revert_call.
  destruct (check_queue_running (set_ptr ptr cursor sys)) as [sys2 r2] eqn:E2.
  apply check_running_core in E2 as [Hcore2 Hc2].
  assert (sys_inv s0 sys2) as Hinv2 by (apply (same_core_inv _ sys); [done|by rewrite Hc2; simpl; rewrite Hc|done]).
  destruct r2; [|done..]. apply inv_push; [by rewrite Hc2|done|done].
Qed.

Lemma inv_flush s0 sys : sys_client sys = CIdle → sys_inv s0 sys → sys_inv s0 (flush_call sys).1.
Proof.
  intros Hc Hinv. unfold flush_call. destruct (check_queue_running sys) as [sys2 r2] eqn:E2.
  apply check_running_core in E2 as [Hcore2 Hc2].
  assert (sys_inv s0 sys2) as Hinv2 by (apply (same_core_inv _ sys); [done|by rewrite Hc2, Hc|done]).
  destruct r2; [|done..]. destruct (check_err_call sys2) as [sys3 r3] eqn:E3. apply check_err_core in E3 as [Hcore3 Hc3].
  destruct r3; simpl; apply (same_core_inv _ sys2); try done; by rewrite Hc3, Hc2, Hc.
Qed.

Lemma inv_resume s0 sys sys' res : resume_call sys = Some (sys', res) → sys_inv s0 sys → sys_inv s0 sys'.
Proof.
  unfold resume_call. destruct (sys_client sys) as [|req k|batching] eqn:Hc; [done| |].
  - destruct (decide _); [|done]. intros Heq (Hf & Hu & Hinv). rewrite Hc in Hu.
    assert (sys_store sys' = sys_store sys ∧ sys_writer sys' = sys_writer sys ∧
      q_reqs (sys_queue sys') = q_reqs (sys_queue sys) ++ [req] ∧ poisoned (sys_queue sys') = poisoned (sys_queue sys) ∧
      sys_client sys' = CIdle ∧ sys_log sys' = sys_log sys ++ omap req_op [req]) as (Hs & Hw & Hr & Hp & Hc' & Hl).
    { injection Heq as <- _. destruct k as [[? ?]|], (req_op req) eqn:Ho; simpl; by rewrite ?Ho, ?app_nil_r. }
    unfold sys_inv. rewrite Hs, Hw, Hr, Hp, Hc', Hl. split; [by apply flags_snoc|]. split; [done|].
    intros Hnp [Hok _]%Forall_app. destruct (Hinv Hnp Hok) as (base & Hbase & Hruns).
    exists base. split; [by apply base_snoc|]. intros u (t & (Hbok & Hrt & Hkeys)%Hruns & Hu')%runs_app.
    rewrite omap_app. split; [done|]. split; [apply runs_app; eauto|].
    intros key Hk0 [Hk1 Hk2]%Forall_app. destruct (Hkeys key Hk0 Hk1). split; [done|]. by apply Forall_app_2.
  - destruct (q_reqs (sys_queue sys)) eqn:Hq; [|done]. intros [= Heq]. apply check_err_core in Heq as [Hcore Hc'].
    apply same_core_inv; [done|by rewrite Hc'].
Qed.

Definition req_fits (key : EntityKey) (r : Request) : Prop :=
  match req_op r with Some op => op_fits key op | None => True end.

Lemma fits_reqs key reqs : Forall (op_fits key) (omap req_op reqs) ↔ Forall (req_fits key) reqs.
Proof.
  induction reqs as [|r reqs IH]; [by split|]. unfold req_fits. rewrite Forall_cons, <-IH. simpl.
  destruct (req_op r); [by rewrite Forall_cons|naive_solver].
Qed.

(** One request *)
Lemma step_get key r s u :
  store_ok s → key_known key s → req_fits key r → runs (omap req_op [r]) s u →
  store_ok u ∧ key_known key u ∧
  ∀ at_, sync_get key at_ u =
    match r with
    | ReqWrite _ qb _ => op_answer (batch_last_op (qb_batch qb) key at_) (sync_get key at_ s)
    | ReqRevertTo p _ _ => sync_get key (Z.min at_ (ptr_number p)) s
    | ReqStop => sync_get key at_ s
    end.
Proof.
  intros Hok Hk Hfit Hr. split; [by eauto with stores|]. destruct r as [queued qb p|ptr c p|]; simpl in Hr.
  - inversion Hr as [|b ops s' t u' Hacc Htr Hn|]; subst. inversion Hn as [? ? Heq| |]; subst.
    destruct (transact_get key (qb_batch qb) s t) as [Hk' Hget]; try done.
    split; [by eauto with stores|]. intros at_. by rewrite <-(get_proper key at_ t u).
  - inversion Hr as [| |p' c' ops s' t u' Htr Hn]; subst. inversion Hn as [? ? Heq| |]; subst.
    destruct (revert_get key ptr c s t) as [Hk' Hget]; try done.
    split; [by eauto with stores|]. intros at_. by rewrite <-(get_proper key at_ t u).
  - inversion Hr as [? ? Heq| |]; subst. split; [by eauto with stores|]. intros at_. symmetry. by apply get_proper.
Qed.

(** The request that was executed leaves the queue. *)
Lemma runs_pop r rest base s u :
  base_of (WResult (Ok ExContinue)) (r :: rest) base s → runs (omap req_op (r :: rest)) base u →
  runs (omap req_op [r]) base s ∧ runs (omap req_op rest) s u.
Proof.
  intros (r' & rest' & [= <- <-] & Hns & Hop). simpl.
  destruct (req_op r) as [[b|p c]|] eqn:Er; [| |by destruct r]; intros Hr; simpl in Hop.
  - inversion Hr as [|b' ops' s' t u' Hacc Htr Hr'|]; subst. assert (t = s) as -> by congruence.
    split; [|done]. econstructor; [done..|]. by constructor.
  - inversion Hr as [| |p' c' ops' s' t u' Htr Hr']; subst. assert (t = s) as -> by congruence.
    split; [|done]. econstructor; [done..|]. by constructor.
Qed.

Lemma continues_pop s0 log r rest base s :
  base_of (WResult (Ok ExContinue)) (r :: rest) base s → continues s0 log base (omap req_op (r :: rest)) →
  continues s0 log s (omap req_op rest).
Proof.
  intros Hbase Hcont u Hu. destruct (Hcont u Hu) as (Hok & Hru & Hkeys).
  destruct (runs_pop _ _ _ _ _ Hbase Hru) as [Hr1 Hr2]. split; [by eauto with stores|]. split; [done|].
  intros key Hk0 Hlog. destruct (Hkeys key Hk0 Hlog) as [Hkb [Hfr Hfit]%fits_reqs%Forall_cons].
  split; [|by apply fits_reqs]. by destruct (step_get key r base s) as (_ & ? & _).
Qed.

Lemma execute_cases r s r' s' res :
  execute r s = (r', s', res) →
  (r' = ReqStop ↔ r = ReqStop) ∧ req_processed r' = req_processed r ∧ req_op r' = req_op r ∧
  (request_ok r' ↔ request_ok r) ∧
  match res with
  | Ok ExContinue =>
      request_ok r ∧ r ≠ ReqStop ∧ op_result (req_op r) s = Ok s'
  | Ok ExStop => r = ReqStop ∧ s' = s
  | _ => s' = s ∧ (request_ok r → ∀ t, op_result (req_op r) s ≠ Ok t)
  end.
Proof.
  destruct r as [queued qb p|ptr c p|]; simpl.
  - assert (qb_close qb = (Closed (qb_batch qb), qb_batch qb)) as -> by by destruct qb.
    destruct (error (qb_batch qb)) eqn:He; [intros [= <- <- <-]; naive_solver|].
    destruct (sync_transact (qb_batch qb) s); intros [= <- <- <-]; naive_solver.
  - destruct (sync_revert ptr c s); intros [= <- <- <-]; naive_solver.
  - intros [= <- <- <-]; naive_solver.
Qed.

Lemma inv_exec s0 sys r rest r' s' res :
  sys_writer sys = WExec → q_reqs (sys_queue sys) = r :: rest → execute r (sys_store sys) = (r', s', res) →
  sys_inv s0 sys →
  sys_inv s0 (mkSystem s' (Writable.set_reqs (r' :: rest) (sys_queue sys)) (WResult res) (sys_client sys)
                (sys_block_ptr sys) (sys_block_cursor sys) (sys_log sys)).
Proof.
  intros Hw Hr Hex (Hf & Hu & Hinv). rewrite Hw, Hr in *. unfold sys_inv. simpl in *.
  apply execute_cases in Hex as (Hstop & Hp & Hop & Hrok & Hres). destruct Hf as (Hfr & _ & Hf).
  split; [rewrite Hp, Hstop; split_and!; [done| |done]; destruct res as [[]|e|]; try done; rewrite Hrok;
          [by destruct Hres|by destruct Hres as [-> _]]|].
  split; [done|]. rewrite Forall_cons, Hrok, <-Forall_cons, Hop.
  intros Hnp Hok. destruct (Hinv Hnp Hok) as (base & -> & Hruns). apply Forall_cons in Hok as [Hok _].
  exists (sys_store sys). split; [|done]. destruct res as [[]|e|]; simpl.
  - exists r', rest. rewrite Hop, Hstop. by destruct Hres.
  - destruct Hres as [-> ->]. split; [done|]. exists rest. by rewrite (proj2 Hstop).
  - destruct Hres as [-> Hres]. split; [done|]. exists r', rest. rewrite Hop. eauto.
  - destruct Hres as [-> Hres]. split; [done|]. exists r', rest. rewrite Hop. eauto.
Qed.

Lemma inv_pop s0 sys res w :
  sys_writer sys = WResult (Ok res) → (w = WTop ∨ w = WFinished) → sys_inv s0 sys →
  sys_inv s0 (set_writer w (Writable.set_queue (Writable.set_reqs (tail (q_reqs (sys_queue sys))) (sys_queue sys)) sys)).
Proof.
  intros Hw Hw' (Hf & Hu & Hinv). rewrite Hw in *. unfold sys_inv. simpl in *.
  destruct (q_reqs (sys_queue sys)) as [|r rest] eqn:Hr; [done|]. destruct Hf as (Hfr & Hrok & Hf). simpl.
  split; [by destruct Hw' as [-> | ->]|]. split; [done|]. intros Hnp Hok.
  destruct Hinv as (base & Hbase & Hruns); [done|by constructor|].
  exists (sys_store sys). split; [by destruct Hw' as [-> | ->]|]. destruct res.
  - by eapply continues_pop.
  - by destruct Hbase as [-> [rest' [= -> ->]]].
Qed.

Lemma inv_writer s0 now sys sys' : writer_step now sys = Some sys' → sys_inv s0 sys → sys_inv s0 sys'.
Proof.
  intros Hstep Hinv. unfold writer_step in Hstep. destruct (sys_writer sys) as [| | | | |res|] eqn:Hw; [| | | | | |done].
  1-3: assert (∃ w, sys' = set_writer w sys ∧ (w = WWait ∨ w = WPeek ∨ w = WSleep)) as (w & -> & Hw')
         by (repeat case_match; simplify_eq; eauto);
       destruct Hinv as (Hf & Hu & Hinv); rewrite Hw in *; by destruct Hw' as [-> |[-> | ->]].
  - destruct (q_reqs (sys_queue sys)) as [|r rest] eqn:Hr; [done|]. injection Hstep as <-.
    destruct Hinv as (Hf & Hu & Hinv). rewrite Hw, Hr in *. unfold sys_inv. simpl in *.
    apply Forall_cons in Hf as [Hur Hf].
    assert (req_op (start_process r) = req_op r ∧ (request_ok (start_process r) ↔ request_ok r)) as [Hop Hrok]
      by by destruct r.
    split; [split; [destruct r; auto|done]|]. split; [done|]. by rewrite Forall_cons, Hrok, <-Forall_cons, Hop.
  - destruct (q_reqs (sys_queue sys)) as [|r rest] eqn:Hr; [done|].
    destruct (execute r (sys_store sys)) as [[r' s'] res] eqn:Hex. injection Hstep as <-. by eapply inv_exec.
  - injection Hstep as <-. destruct res as [[]|e|]; [by eapply inv_pop; eauto..| |].
    all: destruct Hinv as (Hf & Hu & Hinv); unfold sys_inv; simpl; by split_and!.
Qed.

Lemma inv_step s0 sys sys' : sys_step sys sys' → sys_inv s0 sys → sys_inv s0 sys'.
Proof.
  intros Hstep. destruct Hstep; eauto using inv_transact, inv_revert, inv_flush, inv_resume, inv_writer.
  intros Hinv. unfold stop_call. apply inv_push; [done..|]. apply (same_core_inv _ sys); [done| |done].
  simpl. by rewrite H5.
Qed.

Lemma inv_reachable capacity s0 ptr cursor sys :
  store_ok s0 → reachable capacity s0 ptr cursor sys → sys_inv s0 sys.
Proof.
  intros Hok Hr. unfold reachable in Hr.
  assert (sys_inv s0 (sys_init capacity s0 ptr cursor)) as Hinv.
  { split; [by constructor|]. split; [done|]. intros _ _. exists s0. by split. }
  induction Hr as [|x y z Hstep Hr IH]; [done|]. apply IH. by eapply inv_step.
Qed.

(** ** What the store holds when the queue is empty *)

(** The requests that the writer has not executed *)
Definition pending_reqs sys : list Request :=
  match sys_writer sys with
  | WResult (Ok _) => tail (q_reqs (sys_queue sys))
  | _ => q_reqs (sys_queue sys)
  end.

(** The writer has not failed when all that was accepted can be executed. *)
Lemma not_failing w s0 log base reqs s u :
  continues s0 log base (omap req_op reqs) → runs log s0 u → base_of w reqs base s →
  match w with WResult (Err _) | WResult Panic => False | _ => True end.
Proof.
  intros Hcont Hu Hbase. destruct w as [| | | | |[r|e|]|]; try done;
    destruct Hbase as (-> & r & rest & -> & Hne), (Hcont u Hu) as (_ & Hru & _); simpl in Hru;
    (destruct (req_op r) as [[b|p c]|]; simpl in Hne; [inversion Hru; by eapply Hne..|by eapply Hne]).
Qed.

Lemma pending_runs s0 sys u :
  sys_inv s0 sys → poisoned (sys_queue sys) = false → Forall request_ok (q_reqs (sys_queue sys)) →
  runs (sys_log sys) s0 u →
  store_ok (sys_store sys) ∧ runs (omap req_op (pending_reqs sys)) (sys_store sys) u ∧
  match sys_writer sys with WResult (Err _) | WResult Panic => False | _ => True end.
Proof.
  intros (Hf & _ & Hinv) Hnp Hok Hlog. destruct (Hinv Hnp Hok) as (base & Hbase & Hruns).
  unfold pending_reqs.
  destruct (sys_writer sys) as [| | | | |res|]; try (by simpl in Hbase; subst; destruct (Hruns u Hlog) as (? & ? & _)).
  destruct res as [[]|e|].
  - destruct (q_reqs (sys_queue sys)) as [|r rest]; [done|].
    by destruct (continues_pop _ _ _ _ _ _ Hbase Hruns u Hlog) as (? & ? & _).
  - destruct Hbase as [-> [rest Heq]]. rewrite Heq in *. by destruct (Hruns u Hlog) as (? & ? & _).
  - by destruct (not_failing (WResult (Err e)) s0 _ _ _ _ u Hruns Hlog Hbase).
  - by destruct (not_failing (WResult Panic) s0 _ _ _ _ u Hruns Hlog Hbase).
Qed.

(** C3: the store and the queue together always hold what was accepted.  If
    executing the accepted changes and reverts one after the other takes the
    initial store to [u], then at any time, under any interleaving of block
    processing and the writer, executing the requests that are still in the
    queue, merged as they are, takes the store to [u], and the writer does not
    fail.  Excluded are queues that the writer has poisoned, and queues with a
    batch for which an append has failed. *)
Theorem queue_executes_accepted capacity s0 ptr cursor sys u :
  store_ok s0 → reachable capacity s0 ptr cursor sys →
  poisoned (sys_queue sys) = false → Forall request_ok (q_reqs (sys_queue sys)) →
  runs (sys_log sys) s0 u →
  runs (omap req_op (pending_reqs sys)) (sys_store sys) u ∧
  match sys_writer sys with WResult (Err _) | WResult Panic => False | _ => True end.
Proof.
  intros Hok Hr Hnp Hreq Hlog.
  destruct (pending_runs s0 sys u) as (_ & ? & ?); try done. by eapply inv_reachable.
Qed.

(** C18: when [flush] returns without an error, the store holds the result of
    executing all accepted requests one after the other. *)
Theorem flush_commits capacity s0 ptr cursor sys batching sys' u :
  store_ok s0 → reachable capacity s0 ptr cursor sys →
  sys_client sys = CFlush batching → resume_call sys = Some (sys', Ok tt) →
  runs (sys_log sys) s0 u → sys_store sys' ≡ u.
Proof.
  intros Hok Hr Hc Hres Hlog. apply inv_reachable in Hr; [|done]. unfold resume_call in Hres. rewrite Hc in Hres.
  destruct (q_reqs (sys_queue sys)) eqn:Hq; [|done].
  unfold check_err_call, check_err in Hres. simpl in Hres.
  destruct (write_err (sys_queue sys)); [by simplify_eq/=|].
  destruct (poisoned (sys_queue sys)) eqn:Hp; simplify_eq/=.
  destruct (pending_runs s0 sys u) as (_ & Hru & _); [done|done|by rewrite Hq|done|].
  unfold pending_reqs in Hru. rewrite Hq in Hru.
  assert (runs [] (sys_store sys) u) as Hnil by (destruct (sys_writer sys) as [| | | | |[]|]; done).
  by inversion Hnil.
Qed.

(** ** Reads through the queue *)

Lemma last_op_none b h key at_ :
  batch_fits h b → key_fits key (mods b) →
  batch_last_op b key at_ = None ↔
  ∀ g, groups_group (mods b) (entity_type key) = Some g → Forall (λ r, emod_key r = key → at_ < emod_block r) (rows g).
Proof.
  intros (Hwf & _) Hkey. unfold batch_last_op.
  destruct (groups_group (mods b) (entity_type key)) as [g|] eqn:Eg; [|naive_solver].
  destruct (groups_wf_group _ _ _ Hwf Eg) as [[Hlm _] _].
  simpl. rewrite last_op_fast by (done || by apply Hkey).
  unfold last_op_scan. rewrite fmap_None, rfind_None. split; [intros Hn g' [= <-]|intros Hn; specialize (Hn g eq_refl)].
  - eapply Forall_impl; [exact Hn|]. simpl. intros r Hr Hk. rewrite bool_decide_true in Hr by done. simpl in Hr. lia.
  - eapply Forall_impl; [exact Hn|]. simpl. intros r Hr. case_bool_decide; simpl; [specialize (Hr ltac:(done)); lia|done].
Qed.

(** Nothing is found below a block at which nothing is found. *)
Lemma last_op_none_mono b h key c r :
  batch_fits h b → key_fits key (mods b) → c ≤ r → batch_last_op b key r = None → batch_last_op b key c = None.
Proof.
  intros Hb Hkey Hle. rewrite !(last_op_none b h) by done. intros Hn g Hg.
  eapply Forall_impl; [exact (Hn g Hg)|]. simpl. intros x Hx Hk. specialize (Hx Hk). lia.
Qed.

Lemma last_op_before b h key at_ :
  batch_fits h b → key_fits key (mods b) → at_ < first_block b → batch_last_op b key at_ = None.
Proof.
  intros Hb Hkey Hlt. rewrite (last_op_none b h) by done. intros g Hg.
  destruct Hb as (Hwf & Hord & _). destruct (batch_group b _ g Hwf Hord Hg) as (_ & _ & _ & _ & Hw).
  eapply Forall_impl; [exact Hw|]. simpl. intros x [Hx _] _. lia.
Qed.

Abbreviation find_op key := (tracker_find_map (λ batch at_, batch_last_op batch key at_)).

(** What a request does to the tracker *)
Definition tracker_req (r : Request) (t : BlockTracker) : BlockTracker :=
  match r with
  | ReqWrite _ qb _ => tracker_write (block_ptr (qb_batch qb)) t
  | ReqRevertTo ptr _ _ => tracker_revert ptr t
  | ReqStop => t
  end.

Lemma find_map_app {R} (f : Batch → BlockNumber → option R) l1 l2 (t : BlockTracker) :
  tracker_find_map f (l1 ++ l2) t =
  match tracker_find_map f l1 t with (Some x, t1) => (Some x, t1) | (None, t1) => tracker_find_map f l2 t1 end.
Proof.
  revert t. induction l1 as [|[? qb ?|? ? ?|] l1 IH]; intros t; simpl; [done| |apply IH..].
  destruct (if first_block (qb_batch qb) <=? bt_revert t then f _ _ else None); [done|apply IH].
Qed.

Lemma find_map_none {R} (f : Batch → BlockNumber → option R) l (t t' : BlockTracker) :
  tracker_find_map f l t = (None, t') → t' = foldl (flip tracker_req) t l.
Proof.
  revert t. induction l as [|[? qb ?|? ? ?|] l IH]; intros t; simpl; [by intros [= ->]| |by apply IH..].
  destruct (if first_block (qb_batch qb) <=? bt_revert t then f _ _ else None); [done|apply IH].
Qed.

Lemma runs_write_fits queued qb p s u : runs (omap req_op [ReqWrite queued qb p]) s u → batch_fits (sync_head s) (qb_batch qb).
Proof. intros Hr. inversion Hr; subst. by apply accepts_fits. Qed.

Lemma runs_known key reqs s u :
  store_ok s → key_known key s → Forall (req_fits key) reqs → runs (omap req_op reqs) s u →
  store_ok u ∧ key_known key u.
Proof.
  revert s. induction reqs as [|r reqs IH]; intros s Hok Hk Hfit Hr.
  - inversion Hr as [? ? Heq| |]; subst. split; [by eauto with stores|by eauto with stores].
  - change (r :: reqs) with ([r] ++ reqs) in Hr. rewrite omap_app in Hr. apply runs_app in Hr as (x & Hx & Hr).
    apply Forall_cons in Hfit as [Hfr Hfit]. destruct (step_get key r s x) as (? & ? & _); try done. by apply (IH x).
Qed.

(** A scan of requests finds what a read after them sees. *)
Lemma scan_get key reqs s u op (t t' : BlockTracker) :
  store_ok s → key_known key s → Forall (req_fits key) reqs → runs (omap req_op reqs) s u →
  find_op key (rev reqs) t = (op, t') →
  sync_get key (bt_revert t) u = op_answer op (sync_get key (bt_revert t') s).
Proof.
  intros Hok Hk. revert u t. induction reqs as [|r reqs IH] using rev_ind; intros u t Hfit Hr Hfind.
  - simpl in Hfind. inversion Hr as [? ? Heq| |]; subst. injection Hfind as <- <-. symmetry. by apply get_proper.
  - rewrite omap_app in Hr. apply runs_app in Hr as (x & Hx & Hr). apply Forall_app in Hfit as [Hfit [Hfr _]%Forall_cons].
    destruct (runs_known key reqs s x) as [Hokx Hkx]; try done.
    destruct (step_get key r x u) as (_ & _ & Hget); try done. rewrite Hget, rev_unit in *. simpl in Hfind.
    destruct r as [queued qb p|ptr c p|].
    + pose proof (runs_write_fits _ _ _ _ _ Hr) as Hbf. simpl in *.
      destruct (Z.leb_spec (first_block (qb_batch qb)) (bt_revert t)).
      * destruct (batch_last_op (qb_batch qb) key (bt_revert t)) as [o|] eqn:Eo; [by simplify_eq/=; destruct o|].
        by apply (IH x _ Hfit Hx) in Hfind.
      * rewrite (last_op_before _ _ _ _ Hbf) by (done || lia). by apply (IH x _ Hfit Hx) in Hfind.
    + by apply (IH x _ Hfit Hx) in Hfind.
    + by apply (IH x _ Hfit Hx) in Hfind.
Qed.

Lemma tracker_foldl_le l (t : BlockTracker) : bt_revert (foldl (flip tracker_req) t l) ≤ bt_revert t.
Proof.
  revert t. induction l as [|r l IH]; intros t; simpl; [done|]. specialize (IH (tracker_req r t)).
  etrans; [exact IH|]. destruct r; simpl; lia.
Qed.

(** A scan that finds nothing passes over requests that do not matter at or
    below the block that it ends with. *)
Lemma scan_below key reqs s u c (t t' : BlockTracker) :
  store_ok s → key_known key s → Forall (req_fits key) reqs → runs (omap req_op reqs) s u →
  find_op key (rev reqs) t = (None, t') → c ≤ bt_revert t' →
  sync_get key c u = sync_get key c s.
Proof.
  intros Hok Hk. revert u t. induction reqs as [|r reqs IH] using rev_ind; intros u t Hfit Hr Hfind Hc.
  - simpl in Hfind. inversion Hr as [? ? Heq| |]; subst. symmetry. by apply get_proper.
  - rewrite omap_app in Hr. apply runs_app in Hr as (x & Hx & Hr). apply Forall_app in Hfit as [Hfit [Hfr _]%Forall_cons].
    destruct (runs_known key reqs s x) as [Hokx Hkx]; try done.
    destruct (step_get key r x u) as (_ & _ & Hget); try done. rewrite Hget, rev_unit in *.
    pose proof (find_map_none _ _ _ _ Hfind) as Ht'. simpl in Hfind, Ht'.
    pose proof (tracker_foldl_le (rev reqs) (tracker_req r t)) as Hle. change (flip tracker_req t r) with (tracker_req r t) in Ht'. rewrite <-Ht' in Hle.
    destruct r as [queued qb p|ptr c' p|]; simpl in Hle.
    + pose proof (runs_write_fits _ _ _ _ _ Hr) as Hbf. assert (batch_last_op (qb_batch qb) key c = None) as ->.
      { simpl in Hfind. destruct (Z.leb_spec (first_block (qb_batch qb)) (bt_revert t)).
        - destruct (batch_last_op (qb_batch qb) key (bt_revert t)) eqn:Eo; [done|].
          apply (last_op_none_mono _ _ _ c _ Hbf Hfr) in Eo; [done|lia].
        - apply (last_op_before _ _ _ _ Hbf); [done|lia]. }
      simpl in Hfind. destruct (if first_block _ <=? _ then batch_last_op _ _ _ else None); [done|]. by apply (IH x _ Hfit Hx) in Hfind.
    + rewrite Z.min_l by lia. by apply (IH x _ Hfit Hx) in Hfind.
    + by apply (IH x _ Hfit Hx) in Hfind.
Qed.

(** The block at which the store is queried is not below its head, unless a
    revert takes it there. *)
Lemma tracker_head reqs s u :
  store_ok s → runs (omap req_op reqs) s u →
  let t := foldr tracker_req tracker_new reqs in
  Z.min (sync_head s) (bt_revert t) ≤ bt_block t ≤ bt_revert t.
Proof.
  revert s. induction reqs as [|r reqs IH]; intros s Hok Hr; simpl; [lia|].
  change (r :: reqs) with ([r] ++ reqs) in Hr. rewrite omap_app in Hr. apply runs_app in Hr as (x & Hx & Hr).
  assert (store_ok x) as Hokx by by eauto with stores. specialize (IH x Hokx Hr). simpl in IH.
  destruct r as [queued qb p|ptr c p|]; simpl in Hx |- *.
  - inversion Hx as [|b ops s' y u' Hacc Htr Hn|]; subst. inversion Hn as [? ? Heq| |]; subst.
    destruct (transact_ok _ _ _ Hok Hacc Htr) as [_ Hhead]. apply head_proper in Heq.
    destruct (accepts_fits _ _ Hacc) as (_ & [Hfl _] & Hh & _). lia.
  - inversion Hx as [| |p' c' ops s' y u' Htr Hn]; subst. inversion Hn as [? ? Heq| |]; subst.
    destruct (revert_ok _ _ _ _ Hok Htr) as (_ & Hhead & Hlt). apply head_proper in Heq. lia.
  - inversion Hx as [? ? Heq| |]; subst. apply head_proper in Heq. lia.
Qed.

Lemma foldl_rev_foldr reqs (t : BlockTracker) : foldl (flip tracker_req) t (rev reqs) = foldr tracker_req t reqs.
Proof.
  revert t. induction reqs as [|r reqs IH] using rev_ind; intros t; [done|].
  rewrite rev_unit, foldr_app. simpl. by rewrite IH.
Qed.

(** Reading an entity through a queue whose first requests, [pre], have been
    executed *)
Lemma queue_get_after key pre post s t u :
  store_ok s → key_known key s → Forall (req_fits key) (pre ++ post) →
  runs (omap req_op pre) s t → runs (omap req_op post) t u →
  queue_get (pre ++ post) key t = sync_get key BLOCK_NUMBER_MAX u.
Proof.
  intros Hok Hk Hfit Hpre Hpost. assert (runs (omap req_op (pre ++ post)) s u) as Hall.
  { rewrite omap_app. apply runs_app. eauto. }
  unfold queue_get. destruct (find_op key (rev (pre ++ post)) tracker_new) as [op t'] eqn:Hfind.
  change BLOCK_NUMBER_MAX with (bt_revert tracker_new).
  rewrite (scan_get key (pre ++ post) s u op tracker_new t') by done. destruct op as [[]|]; [done..|]. simpl.
  pose proof (tracker_head _ _ _ Hok Hall) as Hhead. simpl in Hhead.
  rewrite <-foldl_rev_foldr, <-(find_map_none _ _ _ _ Hfind) in Hhead.
  apply Forall_app in Hfit as [Hfit _]. rewrite rev_app_distr, find_map_app in Hfind.
  destruct (find_op key (rev post) tracker_new) as [[]? ]; [done|].
  rewrite (scan_below key pre s t (bt_block t') _ t') by (done || lia).
  destruct (decide (bt_block t' = bt_revert t')) as [-> |Hne]; [done|].
  apply get_after_head; [done|done|lia|lia].
Qed.

(** The queue is what has been executed, followed by what is pending. *)
Lemma queue_split s0 sys u key :
  sys_inv s0 sys → poisoned (sys_queue sys) = false → Forall request_ok (q_reqs (sys_queue sys)) →
  runs (sys_log sys) s0 u → key_known key s0 → Forall (op_fits key) (sys_log sys) →
  ∃ base executed, q_reqs (sys_queue sys) = executed ++ pending_reqs sys ∧
    store_ok base ∧ key_known key base ∧ Forall (req_fits key) (executed ++ pending_reqs sys) ∧
    runs (omap req_op executed) base (sys_store sys).
Proof.
  intros (Hf & _ & Hinv) Hnp Hok Hlog Hk0 Hfit. destruct (Hinv Hnp Hok) as (base & Hbase & Hcont).
  destruct (Hcont u Hlog) as (Hbok & Hru & Hkeys). destruct (Hkeys key Hk0 Hfit) as [Hkb Hfits%fits_reqs].
  pose proof (not_failing _ _ _ _ _ _ _ Hcont Hlog Hbase) as Hnf. unfold pending_reqs.
  assert (base = sys_store sys → ∃ base executed, q_reqs (sys_queue sys) = executed ++ q_reqs (sys_queue sys) ∧
    store_ok base ∧ key_known key base ∧ Forall (req_fits key) (executed ++ q_reqs (sys_queue sys)) ∧
    runs (omap req_op executed) base (sys_store sys)) as Hnone.
  { intros ->. exists (sys_store sys), []. by repeat split; [..|constructor]. }
  destruct (sys_writer sys) as [| | | | |[[]|e|]|]; try (done || by apply Hnone).
  - destruct (q_reqs (sys_queue sys)) as [|r rest]; [done|]. exists base, [r]. simpl.
    destruct (runs_pop _ _ _ _ _ Hbase Hru) as [? _]. done.
  - destruct Hbase as [-> [rest Heq]]. rewrite Heq in *. exists (sys_store sys), [ReqStop]. simpl.
    by repeat split; [..|constructor].
Qed.


End Queue.

(** ** A failed writer *)

Section Poisoned.
  Context `{EnvVars} `{InputSchema} `{UnstableSort} `{QueueEnv} (mods_weight : RowGroups → Z).
  Context {S : Type} `{SyncStore S}.
  Implicit Types (sys : System S).

Abbreviation sys_step := (sys_step mods_weight).

Definition is_poisoned sys : Prop := poisoned (sys_queue sys) = true.

(** The writer has ended when the queue is poisoned. *)
Definition poison_inv sys : Prop := is_poisoned sys → sys_writer sys = WFinished.

(** What calls leave alone *)
Definition same_store sys sys' : Prop :=
  sys_store sys' = sys_store sys ∧ sys_writer sys' = sys_writer sys ∧
  poisoned (sys_queue sys') = poisoned (sys_queue sys).

Lemma same_store_trans sys1 sys2 sys3 : same_store sys1 sys2 → same_store sys2 sys3 → same_store sys1 sys3.
Proof. unfold same_store. intuition congruence. Qed.

Lemma check_err_store sys : same_store sys (check_err_call sys).1.
Proof. unfold check_err_call, check_err. by destruct (write_err _). Qed.

Lemma check_running_store sys : same_store sys (check_queue_running sys).1.
Proof.
  unfold check_queue_running. pose proof (check_err_store sys) as Hs. destruct (check_err_call sys) as [? []]; done.
Qed.

Lemma push_call_store req k sys : same_store sys (push_call req k sys).1.
Proof.
  unfold push_call. pose proof (check_err_store sys) as Hs. destruct (check_err_call sys) as [sys1 []]; [|done..].
  simpl in *. by destruct (req_is_write req).
Qed.

Lemma merge_newest_store now lf b q : poisoned (merge_newest mods_weight now lf b q).1 = poisoned q.
Proof.
  unfold merge_newest. repeat case_match; done.
Qed.

Lemma transact_call_store now lf bc sys : same_store sys (transact_call mods_weight now lf bc sys).1.
Proof.
  unfold transact_call. set (sys1 := Writable.set_queue _ sys).
  assert (same_store sys sys1) as Hs1 by (unfold sys1, same_store; by destruct (bc_caught_up bc)).
  clearbody sys1. destruct (match sys_block_ptr sys1 with Some p => _ | None => _ end); [done|].
  destruct (batch_new _ _ _ _ _ _ _ _ _) as [batch|e|]; [|done..].
  pose proof (check_running_store sys1) as Hs2. destruct (check_queue_running sys1) as [sys2 r2]. simpl in Hs2.
  destruct r2; simpl; [|by eapply same_store_trans..].
  pose proof (merge_newest_store now lf batch (sys_queue sys2)) as Hm.
  destruct (merge_newest mods_weight now lf batch (sys_queue sys2)) as [q res]. simpl in Hm.
  assert (same_store sys (Writable.set_queue q sys2)) as Hs3 by (eapply same_store_trans; [done|]; by eapply same_store_trans).
  destruct res as [[b|]|e|]; [|done..]. eapply same_store_trans; [exact Hs3|]. apply push_call_store.
Qed.

Lemma revert_call_store ptr cursor sys : same_store sys (revert_call ptr cursor sys).1.
Proof.
  unfold revert_call. pose proof (check_running_store (set_ptr ptr cursor sys)) as Hs.
  destruct (check_queue_running (set_ptr ptr cursor sys)) as [sys2 []]; [|done..].
  eapply same_store_trans; [exact Hs|]. apply push_call_store.
Qed.

Lemma flush_call_store sys : same_store sys (flush_call sys).1.
Proof.
  unfold flush_call. pose proof (check_running_store sys) as Hs.
  destruct (check_queue_running sys) as [sys2 []]; [|done..]. pose proof (check_err_store sys2) as Hs2.
  destruct (check_err_call sys2) as [sys3 []]; simpl in *; by apply (same_store_trans _ sys2).
Qed.

Lemma resume_call_store sys sys' res : resume_call sys = Some (sys', res) → same_store sys sys'.
Proof.
  unfold resume_call. destruct (sys_client sys) as [|req k|batching]; [done| |].
  - case_decide; [|done]. intros [= <- _]. by destruct k as [[]|], (req_op req).
  - destruct (q_reqs _); [|done]. intros [= Heq]. pose proof (check_err_store (set_client CIdle
      (Writable.set_queue (set_batching batching (sys_queue sys)) sys))) as Hs. by rewrite Heq in Hs.
Qed.

Lemma poison_step sys sys' :
  sys_step sys sys' → poison_inv sys →
  poison_inv sys' ∧ (is_poisoned sys → is_poisoned sys' ∧ sys_store sys' = sys_store sys).
Proof.
  intros Hstep Hinv. assert (same_store sys sys' ∨ ∃ now, writer_step now sys = Some sys') as [(Hs & Hw & Hp)|[now Hwr]].
  { destruct Hstep; eauto using transact_call_store, revert_call_store, flush_call_store, resume_call_store.
    left. eapply same_store_trans; [|apply push_call_store]. done. }
  - unfold poison_inv, is_poisoned in *. rewrite Hw, Hp. done.
  - split.
    + unfold poison_inv, is_poisoned in *. unfold writer_step in Hwr. intros Hp'.
      destruct (sys_writer sys) eqn:Ew; repeat case_match; simplify_eq/=; naive_solver.
    + intros Hp. specialize (Hinv Hp). unfold writer_step in Hwr. by rewrite Hinv in Hwr.
Qed.

Lemma poison_steps sys sys' :
  rtc sys_step sys sys' → poison_inv sys →
  poison_inv sys' ∧ (is_poisoned sys → is_poisoned sys' ∧ sys_store sys' = sys_store sys).
Proof.
  intros Hr. induction Hr as [sys|sys1 sys2 sys3 Hstep Hr IH]; intros Hinv; [done|].
  destruct (poison_step _ _ Hstep Hinv) as [Hinv2 Hp2]. destruct (IH Hinv2) as [Hinv3 Hp3]. split; [done|].
  intros Hp. destruct (Hp2 Hp) as [Hp' Hs2]. destruct (Hp3 Hp') as [? Hs3]. split; [done|congruence].
Qed.

Lemma check_err_poisoned sys : is_poisoned sys → ∃ e, (check_err_call sys).2 = Err e.
Proof. unfold is_poisoned, check_err_call, check_err. intros Hp. destruct (write_err _); simpl; [eauto|rewrite Hp; eauto]. Qed.

Lemma check_running_poisoned sys : is_poisoned sys → ∃ e, (check_queue_running sys).2 = Err e.
Proof.
  intros Hp. destruct (check_err_poisoned sys Hp) as [e He]. unfold check_queue_running.
  destruct (check_err_call sys) as [? r]. simpl in He. subst r. simpl. eauto.
Qed.

Lemma transact_call_poisoned now lf bc sys :
  is_poisoned sys → ∃ e, (transact_call mods_weight now lf bc sys).2 = Some (Err e).
Proof.
  intros Hp. unfold transact_call. set (sys1 := Writable.set_queue _ sys).
  assert (is_poisoned sys1) as Hp1 by (unfold sys1, is_poisoned; by destruct (bc_caught_up bc)).
  clearbody sys1. destruct (match sys_block_ptr sys1 with Some p => _ | None => _ end); [simpl; eauto|].
  destruct (batch_new _ _ _ _ _ _ _ _ _) as [batch|e|] eqn:Eb; [|simpl; eauto|by apply batch_new_no_panic in Eb].
  destruct (check_running_poisoned sys1 Hp1) as [e He].
  destruct (check_queue_running sys1) as [sys2 r2]. simpl in He. subst r2. simpl. eauto.
Qed.

Lemma revert_call_poisoned ptr cursor sys : is_poisoned sys → ∃ e, (revert_call ptr cursor sys).2 = Some (Err e).
Proof.
  intros Hp. unfold revert_call. destruct (check_running_poisoned (set_ptr ptr cursor sys) Hp) as [e He].
  destruct (check_queue_running _) as [sys2 r2]. simpl in He. subst r2. simpl. eauto.
Qed.

Lemma flush_call_poisoned sys : is_poisoned sys → ∃ e, (flush_call sys).2 = Some (Err e).
Proof.
  intros Hp. unfold flush_call. destruct (check_running_poisoned sys Hp) as [e He].
  destruct (check_queue_running _) as [sys2 r2]. simpl in He. subst r2. simpl. eauto.
Qed.

Lemma resume_flush_poisoned sys sys' b res :
  is_poisoned sys → sys_client sys = CFlush b → resume_call sys = Some (sys', res) → ∃ e, res = Err e.
Proof.
  intros Hp Hc. unfold resume_call. rewrite Hc. destruct (q_reqs (sys_queue sys)); [|done]. intros [= Heq].
  set (sys1 := set_client CIdle (Writable.set_queue (set_batching b (sys_queue sys)) sys)) in *.
  destruct (check_err_poisoned sys1) as [e He]; [done|]. rewrite Heq in He. eauto.
Qed.

(** The writer notes that a request has failed. *)
Lemma failed_request_poisons now sys sys1 res :
  sys_writer sys = WResult res → (∀ r, res ≠ Ok r) → writer_step now sys = Some sys1 →
  is_poisoned sys1 ∧ sys_store sys1 = sys_store sys ∧
  write_err (sys_queue sys1) = Some (match res with Err e => e | _ => WriterPanic end).
Proof.
  intros Hw Hres. unfold writer_step. rewrite Hw. destruct res as [r|e|]; [by destruct (Hres r)|..]; by intros [= <-].
Qed.

Lemma running_reports sys e : write_err (sys_queue sys) = Some e → (check_queue_running sys).2 = Err e.
Proof. intros He. unfold check_queue_running, check_err_call, check_err. by rewrite He. Qed.

(** C29: when a request that the writer executes fails or panics, the writer
    notes it, and from then on the store does not change any more.  The next
    revert or flush returns the error of the writer.  However the system goes
    on, every call to write, revert or flush that is made after the failure
    returns an error, and so does a flush that was waiting.  (A write or revert
    that was already waiting for a spot in the queue is the exception, see
    [late_push_accepted].) *)
Theorem poisoned_for_good capacity s0 ptr cursor now sys res sys1 sys' :
  rtc sys_step (sys_init capacity s0 ptr cursor) sys →
  sys_writer sys = WResult res → (∀ r, res ≠ Ok r) → writer_step now sys = Some sys1 → rtc sys_step sys1 sys' →
  (let e := match res with Err e => e | _ => WriterPanic end in
   (flush_call sys1).2 = Some (Err e) ∧ ∀ ptr cursor, (revert_call ptr cursor sys1).2 = Some (Err e)) ∧
  sys_store sys' = sys_store sys ∧
  (∀ now lf bc, ∃ e, (transact_call mods_weight now lf bc sys').2 = Some (Err e)) ∧
  (∀ ptr cursor, ∃ e, (revert_call ptr cursor sys').2 = Some (Err e)) ∧
  (∃ e, (flush_call sys').2 = Some (Err e)) ∧
  (∀ b sys2 r, sys_client sys' = CFlush b → resume_call sys' = Some (sys2, r) → ∃ e, r = Err e).
Proof.
  intros Hr Hw Hres Hstep Hr'. destruct (failed_request_poisons now sys sys1 res Hw Hres Hstep) as (Hp & Hst1 & Herr).
  destruct (poison_steps sys1 sys' Hr') as [_ Hs].
  { destruct (poison_steps _ _ (rtc_r _ _ _ Hr (step_writer _ _ _ _ Hstep))) as [Hinv _]; done. }
  destruct (Hs Hp) as [Hp' Hst]. cbv zeta. split_and!.
  - unfold flush_call. pose proof (running_reports _ _ Herr) as He. destruct (check_queue_running sys1) as [? r].
    simpl in He. by subst r.
  - intros ptr' cursor'. unfold revert_call. pose proof (running_reports (set_ptr ptr' cursor' sys1) _ Herr) as He.
    destruct (check_queue_running _) as [? r]. simpl in He. by subst r.
  - congruence.
  - intros. by apply transact_call_poisoned.
  - intros. by apply revert_call_poisoned.
  - by apply flush_call_poisoned.
  - intros b sys2 r. by apply resume_flush_poisoned.
Qed.

(** A call that was already waiting for a free spot in the queue when the
    writer failed is told that its request was accepted, although nothing will
    execute it. *)
Theorem late_push_accepted capacity s0 ptr cursor sys req k :
  rtc sys_step (sys_init capacity s0 ptr cursor) sys → is_poisoned sys →
  sys_client sys = CPush req k → (length (q_reqs (sys_queue sys)) < q_capacity (sys_queue sys))%nat →
  ∃ sys1, resume_call sys = Some (sys1, Ok tt) ∧ last (q_reqs (sys_queue sys1)) = Some req ∧
    ∀ sys2, rtc sys_step sys1 sys2 → sys_store sys2 = sys_store sys.
Proof.
  intros Hr Hp Hc Hlen. destruct (poison_steps _ _ Hr) as [Hinv _]; [done|].
  destruct (resume_call sys) as [[sys1 res]|] eqn:Eres.
  - exists sys1. assert (rtc sys_step sys sys1) as Hstep by (apply rtc_once; by econstructor).
    pose proof Eres as Eres'. unfold resume_call in Eres. rewrite Hc, decide_True in Eres by done. injection Eres as Hs <-.
    split; [done|]. split; [rewrite <-Hs; destruct k as [[]|], (req_op req); simpl; by rewrite last_snoc|].
    intros sys2 Hr2. destruct (poison_steps sys sys2) as [_ Hst]; [by etrans|done|]. by destruct (Hst Hp).
  - unfold resume_call in Eres. by rewrite Hc, decide_True in Eres.
Qed.

End Poisoned.

(** ** Derived fields *)

Section Derived.
  Context `{EnvVars} `{InputSchema} {S : Type} `{SyncStore S}.

(** The write of an entity that is still in the queue, and that changes
    the field in question to another value, is passed over by [get_derived]:
    the query returns the old version of the entity from the store, as
    related, although [get] returns the new one. *)
Theorem queue_derived_stale q batch key e old m n p (s : S) :
  batch_effective_ops batch (dq_entity_type q) BLOCK_NUMBER_MAX = [OpWrite key e] →
  batch_last_op batch key BLOCK_NUMBER_MAX = Some (OpWrite key e) →
  first_block batch ≤ BLOCK_NUMBER_MAX → ptr_number (block_ptr batch) ≤ BLOCK_NUMBER_MAX →
  is_related q e = false →
  sync_get_derived q (ptr_number (block_ptr batch) - 1) [] s = Ok m → m !! key = Some old →
  queue_get [ReqWrite n (Open batch) p] key s = Ok (Some e) ∧
  ∃ m', queue_get_derived [ReqWrite n (Open batch) p] q s = Ok m' ∧ m' !! key = Some old.
Proof.
  intros Hops Hlast Hfirst Hptr Hrel Hdb Hold. split.
  - unfold queue_get. cbn -[BLOCK_NUMBER_MAX batch_last_op Z.leb]. rewrite (proj2 (Z.leb_le _ _) Hfirst). by rewrite Hlast.
  - exists m. split; [|done]. unfold queue_get_derived.
    cbn -[BLOCK_NUMBER_MAX derived_in_batch Z.leb Z.min]. rewrite (proj2 (Z.leb_le _ _) Hfirst).
    unfold derived_in_batch. rewrite Hops. cbn [omap list_omap derived_op]. rewrite Hrel. cbn [foldl].
    rewrite map_to_list_empty, Z.min_r by lia. cbn [fmap list_fmap]. rewrite Hdb. cbn.
    by rewrite omap_empty, (left_id_L ∅ (∪)).
Qed.

End Derived.
