(* ===== verification/WritableSamples.v ===== *)
(** * The write queue on concrete requests

    A deployment with one mutable type, two blocks that insert and overwrite a
    user, and schedules of block processing and the writer.  The theorems of
    [WritableFacts.v] are applied to them, with the deployment store as the
    store behind the queue. *)

From Stdlib Require Import ZArith Lia ZifyBool.
From stdpp Require Import base gmap list strings relations.
From S2P Require Import Prelude Values Intern InternFacts Entity EntityFacts.
From S2P Require Import Write WriteFacts Relational RelationalFacts AppendFacts BatchFacts ReadFacts.
From S2P Require Import Deployment DeploymentFacts SyncStore UnfailFacts Writable WritableFacts.

Local Open Scope Z_scope.

Module WritableSample.
Import BatchSample.
#[local] Existing Instances sample_env sample_schema sample_build sample_sort.

#[local] Instance sample_deployment : DeploymentConfig :=
  {| reorg_threshold := 250; error_id := err_message; graft_block := None |}.

#[local] Instance sample_queue : QueueEnv :=
  {| write_batch_size := 10000; write_batch_duration := 300; size_of_batch := 100 |}.

#[local] Instance sample_store : SyncStore Deployment := deployment_store never_large user_layout.

#[local] Instance sample_store_spec : SyncStoreSpec Deployment no_weight :=
  deployment_store_spec never_large user_layout (λ _, eq_refl) user_layout_ok (λ _, eq_refl) no_weight.

Definition d0 : Deployment :=
  mkDeployment ∅ (mkHead None None 0) (mkStatus 0 0 0 0 false Healthy None []) [] [].

(** ** Schedules *)

Definition block1 : BlockChanges :=
  mkBlockChanges (mkBlockPtr 1 []) 0 None [insert_ann] [] [] [] false false.
Definition block2 : BlockChanges :=
  mkBlockChanges (mkBlockPtr 2 []) 0 None [overwrite_bob] [] [] [] false false.

Definition do_transact {S} `{SyncStore S} (bc : BlockChanges) (sys : System S) : System S :=
  (transact_call no_weight 0 true bc sys).1.
Definition do_resume {S} (sys : System S) : System S :=
  match resume_call sys with Some (sys', _) => sys' | None => sys end.
Definition do_writer {S} `{SyncStore S} (sys : System S) : System S := default sys (writer_step 300 sys).
Definition do_flush {S} (sys : System S) : System S := (flush_call sys).1.

Section Steps.
  Context {S : Type} `{SyncStore S}.

Lemma transact_step bc (x y : System S) :
  sys_client y = CIdle → rtc (sys_step no_weight) x y → rtc (sys_step no_weight) x (do_transact bc y).
Proof. intros Hc Hr. eapply rtc_r; [exact Hr|]. by constructor. Defined.

Lemma resume_step (x y : System S) :
  rtc (sys_step no_weight) x y → rtc (sys_step no_weight) x (do_resume y).
Proof.
  intros Hr. unfold do_resume. destruct (resume_call y) as [[z res]|] eqn:E; [|done].
  eapply rtc_r; [exact Hr|]. by econstructor.
Defined.

Lemma writer_step_rtc (x y : System S) :
  rtc (sys_step no_weight) x y → rtc (sys_step no_weight) x (do_writer y).
Proof.
  intros Hr. unfold do_writer. destruct (writer_step 300 y) as [z|] eqn:E; simpl; [|done].
  eapply rtc_r; [exact Hr|]. by eapply step_writer.
Defined.

Lemma flush_step (x y : System S) :
  sys_client y = CIdle → rtc (sys_step no_weight) x y → rtc (sys_step no_weight) x (do_flush y).
Proof. intros Hc Hr. eapply rtc_r; [exact Hr|]. by apply step_flush. Defined.

End Steps.

(** The second block is appended to the first while that waits in the queue. *)
Definition sys0 : System Deployment := sys_init 5 d0 None None.
Definition sys_merged : System Deployment := do_transact block2 (do_resume (do_transact block1 sys0)).

Lemma sys_merged_reachable : reachable no_weight 5 d0 None None sys_merged.
Proof. apply transact_step; [by vm_compute|]. apply resume_step. apply transact_step; [done|]. done. Defined.

Lemma sys_merged_one_request : length (q_reqs (sys_queue sys_merged)) = 1%nat.
Proof. vm_compute. reflexivity. Defined.

Lemma sys_merged_log : sys_log sys_merged = [LWrite (sample_batch insert_ann); LWrite (sample_batch overwrite_bob)].
Proof. vm_compute. reflexivity. Defined.

(** ** What the two blocks do one after the other *)

Definition after (b : Batch) (d : Deployment) : Deployment :=
  match sync_transact b d with Ok t => t | _ => d end.

Definition d1 : Deployment := after (sample_batch insert_ann) d0.
Definition d2 : Deployment := after (sample_batch overwrite_bob) d1.

Lemma d0_versions t : db_versions (d_tables d0) t = [].
Proof. unfold db_versions. cbn [d_tables d0]. by rewrite lookup_empty. Defined.

Lemma d0_ok : store_ok d0.
Proof.
  split; [|done]. split.
  - intros t _. rewrite d0_versions. constructor.
  - intros t table _. rewrite d0_versions. split; constructor.
Defined.

Lemma sample_accepts row d :
  row_wf user row → head_number d < emod_block row → emod_block row < BLOCK_NUMBER_MAX →
  (∀ e, match row with Insert _ _ _ x | Overwrite _ _ _ x => x | _ => None end ≠ Some e) →
  accepts (sample_batch row) d.
Proof.
  intros Hrow Hh Hmax Hend. split; [|split].
  - split; [by apply sample_batch_wf|]. split; [|done]. split; [done|]. apply Forall_singleton. split.
    + intros _. by repeat constructor.
    + apply Forall_singleton. split; [simpl; lia|]. destruct row as [? ? ? []|? ? ? []|]; try done; by edestruct Hend.
  - intros t table Ht _. left. unfold user_layout in Ht. by apply lookup_singleton_Some in Ht as [_ <-].
  - split; constructor.
Defined.

Lemma sample_runs : runs no_weight (sys_log sys_merged) d0 d2.
Proof.
  rewrite sys_merged_log. apply (runs_write _ _ _ _ d1).
  - apply sample_accepts; [|done..]. split_and!; try done. exact (conj ann_wf I).
  - vm_compute. reflexivity.
  - apply (runs_write _ _ _ _ d2).
    + apply sample_accepts; [|by vm_compute..|done]. split_and!; try done. exact (conj bob_wf I).
    + vm_compute. reflexivity.
    + by constructor.
Defined.

Lemma sample_requests_ok : Forall request_ok (q_reqs (sys_queue sys_merged)).
Proof. vm_compute. by repeat constructor. Defined.

Lemma queue_executes_accepted_witness :
  runs no_weight (omap req_op (pending_reqs sys_merged)) (sys_store sys_merged) d2 ∧ True.
Proof.
  apply (queue_executes_accepted no_weight 5 d0 None None sys_merged d2);
    [exact d0_ok|exact sys_merged_reachable|done|exact sample_requests_ok|exact sample_runs].
Defined.

Lemma sample_key_known : key_known u1 d0.
Proof. intros table Ht. rewrite d0_versions. unfold user_layout in Ht. by apply lookup_singleton_Some in Ht as [_ <-]. Defined.

Lemma sample_key_fits row : emod_key row = u1 → key_fits u1 (mods (sample_batch row)).
Proof.
  intros Hk g Hg. apply groups_group_Some in Hg as [Hg _]; [|apply NoDup_singleton].
  apply list_elem_of_singleton in Hg as ->. intros r Hr _. by apply list_elem_of_singleton in Hr as ->.
Defined.


(** [flush] waits until the writer has written the batch. *)
Definition sys_flushed : System Deployment :=
  do_writer (do_writer (do_writer (do_writer (do_flush sys_merged)))).

Lemma sys_flushed_log : sys_log sys_flushed = sys_log sys_merged.
Proof. vm_compute. reflexivity. Defined.

Lemma flush_commits_witness : sys_store (do_resume sys_flushed) ≡ d2.
Proof.
  apply (flush_commits no_weight 5 d0 None None sys_flushed true (do_resume sys_flushed) d2).
  - exact d0_ok.
  - do 4 apply writer_step_rtc. apply flush_step; [by vm_compute|exact sys_merged_reachable].
  - vm_compute. reflexivity.
  - vm_compute. reflexivity.
  - rewrite sys_flushed_log. exact sample_runs.
Defined.

(** ** Derived fields *)

(** The users that are called Ann, while the write that renames the only one
    of them waits in the queue *)
Definition called_ann : DerivedEntityQuery := mkDerivedEntityQuery user "name" (IdString "Ann") ONCHAIN.

Definition called_ann_db : gmap EntityKey (Object Value) :=
  match sync_get_derived called_ann 1 [] d1 with Ok m => m | _ => ∅ end.

Lemma queue_derived_stale_witness :
  queue_get [ReqWrite 0 (Open (sample_batch overwrite_bob)) false] u1 d1 = Ok (Some bob) ∧
  ∃ m', queue_get_derived [ReqWrite 0 (Open (sample_batch overwrite_bob)) false] called_ann d1 = Ok m' ∧
        m' !! u1 = Some ann.
Proof.
  apply (queue_derived_stale called_ann (sample_batch overwrite_bob) u1 bob ann called_ann_db).
  - vm_compute. reflexivity.
  - vm_compute. reflexivity.
  - done.
  - done.
  - vm_compute. reflexivity.
  - unfold called_ann_db. assert (is_ok (sync_get_derived called_ann 1 [] d1) = true) as Hok by (vm_compute; reflexivity).
    cbn [block_ptr sample_batch overwrite_bob emod_block ptr_number]. change (2 - 1) with 1.
    by destruct (sync_get_derived called_ann 1 [] d1).
  - vm_compute. reflexivity.
Defined.

(** ** Data sources *)

Definition pair_template : StoredDynamicDataSource :=
  mkDataSource 1 None None (Some 1) None ONCHAIN.

Definition block1_dds : BlockChanges :=
  mkBlockChanges (mkBlockPtr 1 []) 0 None [insert_ann] [pair_template] [] [] false false.

(** The batch with both blocks has been written, but is still in the queue. *)
Definition sys_dds : System Deployment :=
  Nat.iter 4 do_writer (do_transact block2 (do_resume (do_transact block1_dds sys0))).

(** Data sources can be loaded twice.  A batch with several blocks stays
    in the queue for a moment after it has been written, and the store is
    queried at the block before the last one of the batch; a data source that
    was created at an earlier block of the batch is then in both results.
    The queue reaches such a state when a block is appended to the one that
    created the data source. *)
Theorem load_dds_twice :
  reachable no_weight 5 d0 None None sys_dds ∧
  queue_load_dds (q_reqs (sys_queue sys_dds)) (sys_store sys_dds) = Ok [pair_template; pair_template].
Proof.
  split.
  - do 4 apply writer_step_rtc. apply transact_step; [by vm_compute|]. apply resume_step.
    apply transact_step; [done|]. done.
  - vm_compute. reflexivity.
Qed.

(** ** A store that fails *)

Definition broken_store : SyncStore unit := {|
  sync_transact := λ _ _, Err (InternalError "constraint violated");
  sync_revert := λ _ _ _, Err (InternalError "constraint violated");
  sync_get := λ _ _ _, Ok None;
  sync_get_many := λ _ _ _, Ok ∅;
  sync_get_derived := λ _ _ _ _, Ok ∅;
  sync_load_dds := λ _ _, Ok [];
|}.
#[local] Existing Instance broken_store.

Definition caught_up (bc : BlockChanges) : BlockChanges :=
  mkBlockChanges (bc_ptr bc) (bc_time bc) (bc_cursor bc) (bc_mods bc) (bc_data_sources bc) (bc_errors bc)
    (bc_processed bc) (bc_nonfatal bc) true.

(** The queue has room for one request, and the second block waits for it
    while the writer fails with the first. *)
Definition sys_broken : System unit :=
  do_writer (do_writer (do_writer (do_writer
    (do_transact (caught_up block2) (do_resume (do_transact (caught_up block1) (sys_init 1 tt None None))))))).

Lemma sys_broken_reachable : rtc (sys_step no_weight) (sys_init 1 tt None None) sys_broken.
Proof.
  do 4 apply writer_step_rtc. apply transact_step; [by vm_compute|]. apply resume_step.
  apply transact_step; [done|]. done.
Defined.

(** The writer, when the first block has failed *)
Definition sys_failing : System unit :=
  do_writer (do_writer (do_writer
    (do_transact (caught_up block2) (do_resume (do_transact (caught_up block1) (sys_init 1 tt None None)))))).

Lemma sys_failing_reachable : rtc (sys_step no_weight) (sys_init 1 tt None None) sys_failing.
Proof.
  do 3 apply writer_step_rtc. apply transact_step; [by vm_compute|]. apply resume_step.
  apply transact_step; [done|]. done.
Defined.

Lemma poisoned_for_good_witness :
  (flush_call sys_broken).2 = Some (Err (InternalError "constraint violated")) ∧ sys_store sys_broken = sys_store sys_failing.
Proof.
  destruct (poisoned_for_good no_weight 1 tt None None 0 sys_failing (Err (InternalError "constraint violated"))
              sys_broken sys_broken) as ((Hf & _) & Hs & _).
  - exact sys_failing_reachable.
  - vm_compute. reflexivity.
  - done.
  - vm_compute. reflexivity.
  - done.
  - split; [exact Hf|exact Hs].
Defined.

Lemma late_push_accepted_witness :
  ∃ sys1, resume_call sys_broken = Some (sys1, Ok tt) ∧
    last (q_reqs (sys_queue sys1)) = Some (request_write 0 (sample_batch overwrite_bob)) ∧
    ∀ sys2, rtc (sys_step no_weight) sys1 sys2 → sys_store sys2 = tt.
Proof.
  apply (late_push_accepted no_weight 1 tt None None sys_broken _ (Some (mkBlockPtr 2 [], None))).
  - exact sys_broken_reachable.
  - vm_compute. reflexivity.
  - vm_compute. reflexivity.
  - vm_compute. lia.
Defined.

(** ** A block that fails *)

Definition block_error : SubgraphError := mkSubgraphError "failed" (Some (mkBlockPtr 2 [])) None true.

Lemma d1_ok : deployment_ok user_layout d1.
Proof.
  apply (deployment_transact_ok never_large user_layout (λ _, eq_refl) user_layout_ok (λ _, eq_refl) (sample_batch insert_ann) d0 d1);
    [exact d0_ok| |by vm_compute]. apply sample_accepts; [|done..]. split_and!; try done. exact (conj ann_wf I).
Defined.

Lemma unfail_undoes_block_witness :
  ∃ d', unfail_deterministic_error user_layout (mkBlockPtr 2 []) (mkBlockPtr 1 []) (fail block_error d2) = Ok (d', Unfailed) ∧
    head_ptr (d_head d') = Some (mkBlockPtr 1 []) ∧ head_cursor (d_head d') = None ∧
    (∀ t table, user_layout !! t = Some table → db_versions (d_tables d') t = db_versions (d_tables d1) t) ∧
    d_errors d' = d_errors d1 ∧ fatal d' = None ∧ failed (d_status d') = false ∧
    health (d_status d') = (if has_deterministic_errors 1 (d_errors d1) then Unhealthy else Healthy).
Proof.
  apply (unfail_undoes_block never_large user_layout (λ _, eq_refl) user_layout_ok (λ _, eq_refl)
           (sample_batch overwrite_bob) block_error (mkBlockPtr 1 []) d1 d2).
  - exact d1_ok.
  - apply sample_accepts; [|by vm_compute..|done]. split_and!; try done. exact (conj bob_wf I).
  - by vm_compute.
  - by vm_compute.
  - constructor.
  - constructor.
  - done.
  - done.
  - intros r Hr. by apply not_elem_of_nil in Hr.
  - done.
  - by vm_compute.
Defined.

End WritableSample.
