(* ===== verification/LfuCache.v ===== *)
(** * The cache of entities by frequency of use

    Models [graph/src/util/lfu_cache.rs].  The priority queue behind the cache
    is a library: the class [PriorityQueue] has the operations that the cache
    uses, and [PriorityQueueSpec] what their documentation says, in terms of
    the finite map of entries that a queue holds. *)

From Stdlib Require Import ZArith Lia ZifyBool.
From stdpp Require Import base gmap list fin_maps.
From S2P Require Import Prelude.

Local Open Scope Z_scope.

(** ** Entries and priorities *)

Record CacheEntry (K V : Type) := mkEntry {
  ce_weight : Z;
  ce_key : K;
  ce_value : V;
  will_stale : bool;
}.
Arguments mkEntry {K V}.
Arguments ce_weight {K V}.
Arguments ce_key {K V}.
Arguments ce_value {K V}.
Arguments will_stale {K V}.

(** [(stale, Reverse(frequency))] *)
Record Priority := mkPriority { stale : bool; frequency : Z }.

(** The order of tuples, with the frequency reversed *)
Definition prio_le (p q : Priority) : Prop :=
  (stale p = false ∧ stale q = true) ∨ (stale p = stale q ∧ frequency q ≤ frequency p).

#[export] Instance prio_le_dec p q : Decision (prio_le p q).
Proof. unfold prio_le. apply _. Defined.

(** ** The priority queue *)

Class PriorityQueue (K V : Type) (Q : Type) := {
  pq_new : Q;
  pq_push : CacheEntry K V → Priority → Q → Q;
  pq_change_priority : K → Priority → Q → option Q;
  pq_change_priority_by : K → (Priority → Priority) → Q → Q;
  pq_get : K → Q → option (CacheEntry K V * Priority);
  pq_update : K → (CacheEntry K V → CacheEntry K V) → Q → Q;
  pq_pop : Q → option (CacheEntry K V * Priority * Q);
  pq_iter_mut : (CacheEntry K V → Priority → CacheEntry K V * Priority) → Q → Q;
  pq_len : Q → nat;
  pq_extend : Q → Q → Q;
}.

Class PriorityQueueSpec (K V : Type) `{Countable K} (Q : Type) `{PriorityQueue K V Q} := {
  pq_map : Q → gmap K (CacheEntry K V * Priority);
  pq_new_map : pq_map pq_new = ∅;
  pq_push_map e p q : pq_map q !! ce_key e = None → pq_map (pq_push e p q) = <[ce_key e := (e, p)]> (pq_map q);
  pq_change_priority_map k p q :
    match pq_map q !! k, pq_change_priority k p q with
    | Some (e, _), Some q' => pq_map q' = <[k := (e, p)]> (pq_map q)
    | None, None => True
    | _, _ => False
    end;
  pq_change_priority_by_map k f q :
    pq_map (pq_change_priority_by k f q) = alter (λ ep, (ep.1, f ep.2)) k (pq_map q);
  pq_get_map k q : pq_get k q = pq_map q !! k;
  pq_update_map k f q :
    (∀ e, ce_key (f e) = ce_key e) → pq_map (pq_update k f q) = alter (λ ep, (f ep.1, ep.2)) k (pq_map q);
  pq_pop_map q :
    match pq_pop q with
    | Some (e, p, q') =>
        pq_map q !! ce_key e = Some (e, p) ∧ pq_map q' = delete (ce_key e) (pq_map q) ∧
        ∀ k e' p', pq_map q !! k = Some (e', p') → prio_le p' p
    | None => pq_map q = ∅
    end;
  pq_iter_mut_map f q :
    (∀ e p, ce_key (f e p).1 = ce_key e) → pq_map (pq_iter_mut f q) = (λ ep, f ep.1 ep.2) <$> pq_map q;
  pq_len_map q : pq_len q = size (pq_map q);
  (** nothing is used about entries that are in both queues, other than that
      one of the two is kept *)
  pq_extend_map q q' k :
    match pq_map q !! k, pq_map q' !! k with
    | Some ep, None | None, Some ep => pq_map (pq_extend q q') !! k = Some ep
    | None, None => pq_map (pq_extend q q') !! k = None
    | Some ep, Some ep' =>
        ∃ e p, pq_map (pq_extend q q') !! k = Some (e, p) ∧ (e = ep.1 ∨ e = ep'.1) ∧ (p = ep.2 ∨ p = ep'.2)
    end;
}.

(** ** [LfuCache] *)

(** [usize::sub_assign] *)
Definition usize_sub {E} `{Arithmetic} (a b : Z) : outcome E Z :=
  if b <=? a then Ok (a - b) else if overflow_checks then Panic else Ok (a - b + 2 ^ 64).

(** [CacheEntry::weight], [size_of::<CacheEntry>()] and the settings *)
Class CacheConfig (K V : Type) := {
  entry_weight : K → V → Z;
  entry_size : Z;
  entity_cache_dead_weight : bool;
}.

Definition STALE_PERIOD : Z := 100.

Record LfuCache (Q : Type) := mkLfu {
  queue : Q;
  total_weight : Z;
  stale_counter : Z;
  dead_weight : bool;
  accesses : Z;
  hits : Z;
}.
Arguments mkLfu {Q}.
Arguments queue {Q}.
Arguments total_weight {Q}.
Arguments stale_counter {Q}.
Arguments dead_weight {Q}.
Arguments accesses {Q}.
Arguments hits {Q}.

Record EvictStats := mkEvictStats {
  new_weight : Z;
  evicted_weight : Z;
  new_count : nat;
  evicted_count : nat;
  stale_update : bool;
  stat_accesses : Z;
  stat_hits : Z;
}.

Section Lfu.
  Context {E K V Q : Type} `{Countable K} `{PriorityQueue K V Q} `{Arithmetic} `{CacheConfig K V}.
  Implicit Types (c : LfuCache Q).

Definition set_queue (q : Q) c : LfuCache Q :=
  mkLfu q (total_weight c) (stale_counter c) (dead_weight c) (accesses c) (hits c).
Definition set_weight (w : Z) c : LfuCache Q :=
  mkLfu (queue c) w (stale_counter c) (dead_weight c) (accesses c) (hits c).
Definition set_stale_counter (n : Z) c : LfuCache Q :=
  mkLfu (queue c) (total_weight c) n (dead_weight c) (accesses c) (hits c).
Definition set_counts (a h : Z) c : LfuCache Q :=
  mkLfu (queue c) (total_weight c) (stale_counter c) (dead_weight c) a h.

(** [Default::default] and [LfuCache::new] *)
Definition lfu_default : LfuCache Q := mkLfu pq_new 0 0 false 0 0.
Definition lfu_new : LfuCache Q := mkLfu pq_new 0 0 entity_cache_dead_weight 0 0.

Definition bump (p : Priority) : Priority := mkPriority (stale p) (frequency p + 1).
Definition keep_fresh (e : CacheEntry K V) : CacheEntry K V := mkEntry (ce_weight e) (ce_key e) (ce_value e) false.

(** [get_mut]; the entry that it returns is in the cache, and is changed with
    [pq_update]. *)
Definition lfu_get_mut (key : K) c : LfuCache Q * option (CacheEntry K V) :=
  let q := pq_change_priority_by key bump (queue c) in
  let c := set_counts (accesses c + 1) (hits c) (set_queue q c) in
  match pq_get key q with
  | Some (e, _) =>
      (set_counts (accesses c) (hits c + 1) (set_queue (pq_update key keep_fresh q) c), Some (keep_fresh e))
  | None => (c, None)
  end.

Definition set_entry (weight : Z) (value : V) (e : CacheEntry K V) : CacheEntry K V :=
  mkEntry weight (ce_key e) value (will_stale e).

Definition lfu_insert (key : K) (value : V) c : outcome E (LfuCache Q) :=
  let weight := entry_weight key value in
  match lfu_get_mut key c with
  | (c, None) =>
      Ok (set_queue (pq_push (mkEntry weight key value false) (mkPriority false 1) (queue c))
            (set_weight (total_weight c + weight) c))
  | (c, Some entry) =>
      let c := set_queue (pq_update key (set_entry weight value) (queue c)) c in
      w ← usize_sub (total_weight c) (ce_weight entry);
      Ok (set_weight (w + weight) c)
  end.

Definition lfu_get (key : K) c : LfuCache Q * option V :=
  let '(c, e) := lfu_get_mut key c in (c, ce_value <$> e).

Definition lfu_remove (key : K) c : outcome E (LfuCache Q * option V) :=
  match pq_change_priority key (mkPriority true 0) (queue c) with
  | None => Ok (c, None)
  | Some q =>
      match pq_pop q with
      | None => Ok (set_queue q c, None)
      | Some (e, _, q) =>
          if decide (ce_key e = key) then
            w ← usize_sub (total_weight c) (ce_weight e);
            Ok (set_weight w (set_queue q c), Some (ce_value e))
          else Panic
      end
  end.

Definition lfu_contains_key (key : K) c : bool :=
  match pq_get key (queue c) with Some _ => true | None => false end.

Definition lfu_len c : nat := pq_len (queue c).
Definition lfu_is_empty c : bool := (pq_len (queue c) =? 0)%nat.

(** *** Eviction *)

(** The loop over all entries at the end of a stale period *)
Definition mark_stale (e : CacheEntry K V) (p : Priority) : CacheEntry K V * Priority :=
  (mkEntry (ce_weight e) (ce_key e) (ce_value e) true, mkPriority (will_stale e) (frequency p)).

(** The loop that pops entries; every iteration takes one entry away, so that
    the number of entries is enough fuel. *)
Fixpoint evict_loop (fuel : nat) (dead max_weight evicted : Z) c : option (outcome E (LfuCache Q * Z)) :=
  if max_weight <? total_weight c + dead then
    match fuel with
    | O => None
    | S fuel =>
        match pq_pop (queue c) with
        | None => Some Panic
        | Some (e, _, q) =>
            match usize_sub (E := E) (total_weight c) (ce_weight e) with
            | Ok w => evict_loop fuel dead max_weight (evicted + ce_weight e) (set_weight w (set_queue q c))
            | Err e => Some (Err e)
            | Panic => Some Panic
            end
        end
    end
  else Some (Ok (c, evicted)).

Definition lfu_evict_with_period (max_weight stale_period : Z) c
    : option (outcome E (LfuCache Q * option EvictStats)) :=
  if total_weight c <=? max_weight then Some (Ok (c, None))
  else
    let a := accesses c in
    let h := hits c in
    let c := set_stale_counter (stale_counter c + 1) c in
    let c :=
      if stale_counter c =? stale_period then
        set_queue (pq_iter_mut mark_stale (queue c)) (set_counts 0 0 (set_stale_counter 0 c))
      else c in
    let old_len := lfu_len c in
    let dead := if dead_weight c then Z.of_nat (lfu_len c) * (entry_size + 40) else 0 in
    match evict_loop (S (lfu_len c)) dead max_weight 0 c with
    | Some (Ok (c, evicted)) =>
        Some (Ok (c, Some (mkEvictStats (total_weight c) evicted (lfu_len c) (old_len - lfu_len c)
                             (stale_counter c =? 0) a h)))
    | Some (Err e) => Some (Err e)
    | Some Panic => Some Panic
    | None => None
    end.

Definition lfu_evict (max_weight : Z) c := lfu_evict_with_period max_weight STALE_PERIOD c.

(** [evict_and_stats] *)
Definition lfu_evict_and_stats (max_weight : Z) c : option (outcome E (LfuCache Q * EvictStats)) :=
  match lfu_evict_with_period max_weight STALE_PERIOD c with
  | Some (Ok (c, Some stats)) => Some (Ok (c, stats))
  | Some (Ok (c, None)) => Some (Ok (c, mkEvictStats (total_weight c) 0 (lfu_len c) 0 false 0 0))
  | Some (Err e) => Some (Err e)
  | Some Panic => Some Panic
  | None => None
  end.

(** [Extend::extend] with the entries of another cache *)
Definition lfu_extend (other c : LfuCache Q) : LfuCache Q :=
  set_queue (pq_extend (queue c) (queue other)) c.

End Lfu.
