(* ===== verification/LfuFacts.v ===== *)
(** * Properties of the frequency cache

    The cache is a finite map that never panics, its [total_weight] is the sum
    of the weights of its entries, and eviction takes away entries with the
    greatest priority until the cache is small enough.  Two things break this:
    accounting for dead weight, and [extend]. *)

From Stdlib Require Import ZArith Lia ZifyBool.
From stdpp Require Import base gmap list fin_maps.
From S2P Require Import Prelude LfuCache.

Local Open Scope Z_scope.

(** ** Sums of weights *)

Section Weights.
  Context {K V : Type} `{Countable K}.
  Implicit Types (m : gmap K (CacheEntry K V * Priority)).

Definition weights m : Z := map_fold (λ _ ep acc, ce_weight ep.1 + acc) 0 m.

Lemma weights_empty : weights ∅ = 0.
Proof. apply map_fold_empty. Qed.

Lemma weights_insert m k ep : m !! k = None → weights (<[k := ep]> m) = ce_weight ep.1 + weights m.
Proof. intros Hk. unfold weights. rewrite map_fold_insert_L; [done|intros; lia|done]. Qed.

Lemma weights_delete m k ep : m !! k = Some ep → weights m = ce_weight ep.1 + weights (delete k m).
Proof. intros Hk. rewrite <-(insert_delete_id m k ep Hk) at 1. by rewrite weights_insert by apply lookup_delete_eq. Qed.

Lemma weights_overwrite m k ep ep' :
  m !! k = Some ep → weights (<[k := ep']> m) = weights m - ce_weight ep.1 + ce_weight ep'.1.
Proof.
  intros Hk. rewrite <-insert_delete_eq, weights_insert by apply lookup_delete_eq.
  rewrite (weights_delete m k ep Hk). lia.
Qed.

Lemma weights_fmap (f : CacheEntry K V * Priority → CacheEntry K V * Priority) m :
  (∀ ep, ce_weight (f ep).1 = ce_weight ep.1) → weights (f <$> m) = weights m.
Proof.
  intros Hf. induction m as [|k ep m Hk IH] using map_ind; [by rewrite fmap_empty|].
  rewrite fmap_insert, !weights_insert by (done || by rewrite lookup_fmap, Hk). by rewrite Hf, IH.
Qed.

Lemma weights_nonneg m : map_Forall (λ _ ep, 0 ≤ ce_weight ep.1) m → 0 ≤ weights m.
Proof.
  induction m as [|k ep m Hk IH] using map_ind; intros Hall; [by rewrite weights_empty|].
  apply map_Forall_insert in Hall as [Hep Hall]; [|done]. rewrite weights_insert by done.
  specialize (IH Hall). lia.
Qed.

End Weights.

(** ** The map that a cache implements *)

Section Facts.
  Context {E K V Q : Type} `{Countable K} `{PQ : PriorityQueue K V Q} `{!PriorityQueueSpec K V Q}.
  Context `{Arithmetic} `{CacheConfig K V}.
  Hypothesis Hweight : ∀ k v, 0 ≤ entry_weight k v.
  Implicit Types (c : LfuCache Q).

Abbreviation entries q := (pq_map (K := K) (V := V) (Q := Q) q).

Definition lfu_map c : gmap K V := (λ ep, ce_value ep.1) <$> entries (queue c).

(** Entries are stored under their key, know their weight, and have been
    accessed at least once. *)
Definition entry_ok (k : K) (ep : CacheEntry K V * Priority) : Prop :=
  ce_key ep.1 = k ∧ ce_weight ep.1 = entry_weight k (ce_value ep.1) ∧ 1 ≤ frequency ep.2.

Definition lfu_wf c : Prop :=
  map_Forall entry_ok (entries (queue c)) ∧ total_weight c = weights (entries (queue c)).

Lemma lfu_map_lookup c k : lfu_map c !! k = (λ ep, ce_value ep.1) <$> entries (queue c) !! k.
Proof. apply lookup_fmap. Qed.

Lemma lfu_new_wf : lfu_wf (lfu_new (K := K) (V := V)) ∧ lfu_map (lfu_new (K := K) (V := V)) = ∅.
Proof.
  unfold lfu_wf, lfu_map. simpl. rewrite (pq_new_map (K := K) (V := V)), fmap_empty.
  split; [|done]. split; [apply map_Forall_empty|by symmetry; apply weights_empty].
Qed.

Lemma entry_weight_nonneg (m : gmap K (CacheEntry K V * Priority)) : map_Forall entry_ok m → map_Forall (λ _ ep, 0 ≤ ce_weight ep.1) m.
Proof. intros Hm k ep Hk. destruct (Hm k ep Hk) as (_ & -> & _). apply Hweight. Qed.

(** The weight of an entry can be taken off the total. *)
Lemma usize_sub_entry c k ep :
  lfu_wf c → entries (queue c) !! k = Some ep →
  usize_sub (E := E) (total_weight c) (ce_weight ep.1) = Ok (weights (delete k (entries (queue c)))).
Proof.
  intros [Hall ->] Hk. unfold usize_sub. rewrite (weights_delete _ _ _ Hk).
  assert (0 ≤ weights (delete k (entries (queue c)))).
  { apply weights_nonneg, entry_weight_nonneg. by apply map_Forall_delete. }
  destruct (Z.leb_spec (ce_weight ep.1) (ce_weight ep.1 + weights (delete k (entries (queue c))))); [|lia]. f_equal. lia.
Qed.

(** *** Lookups *)

Lemma alter_lookup {A} (f : A → A) (m : gmap K A) k :
  alter f k m = match m !! k with Some x => <[k := f x]> m | None => m end.
Proof.
  apply map_eq. intros j. destruct (decide (j = k)) as [-> |Hne].
  - rewrite lookup_alter_eq. destruct (m !! k) eqn:Ek; simpl; [by rewrite lookup_insert_eq|done].
  - rewrite lookup_alter_ne by done. destruct (m !! k); [by rewrite lookup_insert_ne|done].
Qed.

Lemma get_mut_none c k :
  entries (queue c) !! k = None →
  (lfu_get_mut k c).2 = None ∧ entries (queue (lfu_get_mut k c).1) = entries (queue c) ∧
  total_weight (lfu_get_mut k c).1 = total_weight c.
Proof.
  intros Hk. unfold lfu_get_mut. rewrite pq_get_map, pq_change_priority_by_map, alter_lookup, Hk, Hk. simpl.
  by rewrite pq_change_priority_by_map, alter_lookup, Hk.
Qed.

Lemma get_mut_some c k e p :
  entries (queue c) !! k = Some (e, p) →
  (lfu_get_mut k c).2 = Some (keep_fresh e) ∧
  entries (queue (lfu_get_mut k c).1) = <[k := (keep_fresh e, bump p)]> (entries (queue c)) ∧
  total_weight (lfu_get_mut k c).1 = total_weight c.
Proof.
  intros Hk. unfold lfu_get_mut. rewrite pq_get_map, pq_change_priority_by_map, alter_lookup, Hk, lookup_insert_eq. simpl.
  rewrite pq_update_map by done. rewrite pq_change_priority_by_map, (alter_lookup _ (entries (queue c))), Hk.
  rewrite alter_lookup, lookup_insert_eq. simpl. by rewrite insert_insert_eq.
Qed.

(** Changing an entry without changing its value and weight *)
Lemma touch_wf c c' k e e' p p' :
  lfu_wf c → entries (queue c) !! k = Some (e, p) → entries (queue c') = <[k := (e', p')]> (entries (queue c)) →
  total_weight c' = total_weight c → ce_key e' = ce_key e → ce_weight e' = ce_weight e → ce_value e' = ce_value e →
  1 ≤ frequency p' → lfu_wf c' ∧ lfu_map c' = lfu_map c.
Proof.
  intros [Hall Hw] Hk Hq Ht Hkey Hwe Hv Hf. destruct (Hall k _ Hk) as (Hkk & Hww & _). simpl in *.
  unfold lfu_wf, lfu_map. rewrite Hq, Ht, Hw. split; [split|].
  - apply map_Forall_insert_2; [|done]. unfold entry_ok. simpl. by rewrite Hkey, Hwe, Hv.
  - rewrite (weights_overwrite _ _ _ _ Hk). simpl. lia.
  - rewrite fmap_insert. simpl. rewrite Hv. apply insert_id. by rewrite lookup_fmap, Hk.
Qed.

Lemma get_mut_wf c k : lfu_wf c → lfu_wf (lfu_get_mut k c).1 ∧ lfu_map (lfu_get_mut k c).1 = lfu_map c.
Proof.
  intros Hwf. destruct (entries (queue c) !! k) as [[e p]|] eqn:Ek.
  - destruct (get_mut_some c k e p Ek) as (_ & Hq & Ht). eapply touch_wf; [done|exact Ek|exact Hq|done..|].
    destruct Hwf as [Hall _]. destruct (Hall k _ Ek) as (_ & _ & Hf). simpl in *. lia.
  - destruct (get_mut_none c k Ek) as (_ & Hq & Ht). unfold lfu_wf, lfu_map. by rewrite Hq, Ht.
Qed.

Lemma lfu_get_spec c k :
  lfu_wf c → (lfu_get k c).2 = lfu_map c !! k ∧ lfu_wf (lfu_get k c).1 ∧ lfu_map (lfu_get k c).1 = lfu_map c.
Proof.
  intros Hwf. destruct (get_mut_wf c k Hwf) as [Hwf' Hm]. rewrite lfu_map_lookup. unfold lfu_get.
  destruct (entries (queue c) !! k) as [[e p]|] eqn:Ek.
  - destruct (get_mut_some c k e p Ek) as (He & _). destruct (lfu_get_mut k c). simpl in *. by subst.
  - destruct (get_mut_none c k Ek) as (He & _). destruct (lfu_get_mut k c). simpl in *. by subst.
Qed.

Lemma lfu_contains_spec c k : lfu_contains_key k c = bool_decide (is_Some (lfu_map c !! k)).
Proof.
  unfold lfu_contains_key. rewrite pq_get_map, lfu_map_lookup.
  destruct (entries (queue c) !! k); [by rewrite bool_decide_true|by rewrite bool_decide_false by (by intros [? ?])].
Qed.

Lemma lfu_len_spec c : lfu_len c = size (lfu_map c).
Proof. unfold lfu_len, lfu_map. by rewrite pq_len_map, map_size_fmap. Qed.

(** *** Inserting and removing *)

Lemma get_mut_dead_weight c k : dead_weight (lfu_get_mut k c).1 = dead_weight c.
Proof. unfold lfu_get_mut. by destruct (pq_get k _) as [[e p]|]. Qed.

Lemma lfu_get_dead_weight c k : dead_weight (lfu_get k c).1 = dead_weight c.
Proof. rewrite <-(get_mut_dead_weight c k). unfold lfu_get. by destruct (lfu_get_mut k c). Qed.

Lemma lfu_insert_dead_weight c c' k v : lfu_insert (E := E) k v c = Ok c' → dead_weight c' = dead_weight c.
Proof.
  rewrite <-(get_mut_dead_weight c k). unfold lfu_insert. destruct (lfu_get_mut k c) as [c1 [e|]]; simpl.
  - destruct (usize_sub _ _); simpl; [by intros [= <-]|done..].
  - by intros [= <-].
Qed.

Lemma lfu_remove_dead_weight c c' k v : lfu_remove (E := E) k c = Ok (c', v) → dead_weight c' = dead_weight c.
Proof.
  unfold lfu_remove. destruct (pq_change_priority _ _ _) as [q|]; [|by intros [= <- _]].
  destruct (pq_pop q) as [[[e p] q1]|]; [|by intros [= <- _]]. case_decide; [|done].
  destruct (usize_sub _ _); simpl; [by intros [= <- _]|done..].
Qed.

Lemma lfu_insert_spec c k v :
  lfu_wf c → ∃ c', lfu_insert (E := E) k v c = Ok c' ∧ lfu_wf c' ∧ lfu_map c' = <[k := v]> (lfu_map c).
Proof.
  intros Hwf. pose proof (get_mut_wf c k Hwf) as [[Hall Hw] Hm]. unfold lfu_insert.
  destruct (entries (queue c) !! k) as [[e p]|] eqn:Ek.
  - destruct (get_mut_some c k e p Ek) as (He & Hq & Ht). destruct (lfu_get_mut k c) as [c1 ?]. simpl in *. subst.
    assert (entries (queue c1) !! k = Some (keep_fresh e, bump p)) as Ek1 by by rewrite Hq, lookup_insert_eq.
    pose proof (usize_sub_entry c1 k (keep_fresh e, bump p) (conj Hall Hw) Ek1) as Hsub. cbn [fst] in Hsub.
    rewrite Hsub. simpl.
    eexists. split; [done|]. unfold lfu_wf, lfu_map. simpl. rewrite pq_update_map by done.
    rewrite alter_lookup, Ek1. simpl. split; [split|].
    + apply map_Forall_insert_2; [|done]. destruct (Hall k _ Ek1) as (? & ? & ?). by split_and!.
    + rewrite (weights_overwrite _ _ _ _ Ek1), (weights_delete _ _ _ Ek1). simpl. lia.
    + rewrite fmap_insert. simpl. f_equal. exact Hm.
  - destruct (get_mut_none c k Ek) as (He & Hq & Ht). destruct (lfu_get_mut k c) as [c1 ?]. simpl in *. subst.
    assert (entries (queue c1) !! k = None) as Ek1 by by rewrite Hq.
    eexists. split; [done|]. unfold lfu_wf, lfu_map. simpl. rewrite pq_push_map by done. simpl. split; [split|].
    + apply map_Forall_insert_2; [|done]. by split_and!.
    + rewrite weights_insert by done. simpl. lia.
    + rewrite fmap_insert. simpl. f_equal. exact Hm.
Qed.

(** No entry has a priority as great as the one that [remove] gives to its. *)
Lemma top_priority p : 1 ≤ frequency p → ¬ prio_le (mkPriority true 0) p.
Proof. intros Hf [[? ?]|[? ?]]; simpl in *; [done|lia]. Qed.

(** Which entry [remove] takes out, whatever the total weight is *)
Lemma remove_entries c k e p :
  map_Forall entry_ok (entries (queue c)) → entries (queue c) !! k = Some (e, p) →
  ∃ q, entries q = delete k (entries (queue c)) ∧
    lfu_remove (E := E) k c =
      (w ← usize_sub (total_weight c) (ce_weight e); Ok (set_weight w (set_queue q c), Some (ce_value e))).
Proof.
  intros Hall Ek. unfold lfu_remove. pose proof (pq_change_priority_map k (mkPriority true 0) (queue c)) as Hcp.
  rewrite Ek in Hcp. destruct (pq_change_priority k _ (queue c)) as [q1|]; [|done].
  pose proof (pq_pop_map q1) as Hpop. rewrite Hcp in Hpop.
  destruct (pq_pop q1) as [[[e1 p1] q2]|]; [|by apply insert_non_empty in Hpop].
  destruct Hpop as (Hk1 & Hq2 & Hmax). assert (ce_key e1 = k) as Hkey.
  { destruct (decide (ce_key e1 = k)) as [|Hne]; [done|]. rewrite lookup_insert_ne in Hk1 by done.
    destruct (Hall _ _ Hk1) as (_ & _ & Hf). destruct (top_priority p1 Hf). apply (Hmax k e). by rewrite lookup_insert_eq. }
  rewrite Hkey, lookup_insert_eq in Hk1. injection Hk1 as <- <-. rewrite decide_True by done.
  exists q2. split; [by rewrite Hq2, Hkey, delete_insert_eq|done].
Qed.

Lemma lfu_remove_spec c k :
  lfu_wf c → ∃ c', lfu_remove (E := E) k c = Ok (c', lfu_map c !! k) ∧ lfu_wf c' ∧ lfu_map c' = delete k (lfu_map c).
Proof.
  intros Hwf. pose proof Hwf as [Hall Hw]. rewrite lfu_map_lookup.
  destruct (entries (queue c) !! k) as [[e p]|] eqn:Ek.
  - destruct (remove_entries c k e p Hall Ek) as (q & Hq & ->).
    pose proof (usize_sub_entry c k (e, p) Hwf Ek) as Hsub. cbn [fst] in Hsub. rewrite Hsub. simpl.
    eexists. split; [done|]. unfold lfu_wf, lfu_map. simpl. rewrite Hq, fmap_delete.
    split; [|done]. split; [by apply map_Forall_delete|done].
  - unfold lfu_remove. pose proof (pq_change_priority_map k (mkPriority true 0) (queue c)) as Hcp.
    rewrite Ek in Hcp. destruct (pq_change_priority k _ (queue c)); [done|]. exists c. split; [done|]. split; [done|].
    rewrite delete_id; [done|]. by rewrite lfu_map_lookup, Ek.
Qed.

(** ** The cache as a map *)

Inductive LfuOp := LGet (k : K) | LInsert (k : K) (v : V) | LRemove (k : K) | LContains (k : K) | LLen.
Inductive LfuAnswer := LValue (v : option V) | LBool (b : bool) | LNat (n : nat) | LUnit.

Definition lfu_step (op : LfuOp) c : outcome E (LfuCache Q * LfuAnswer) :=
  match op with
  | LGet k => let '(c, v) := lfu_get k c in Ok (c, LValue v)
  | LInsert k v => c ← lfu_insert k v c; Ok (c, LUnit)
  | LRemove k => cv ← lfu_remove k c; Ok (cv.1, LValue cv.2)
  | LContains k => Ok (c, LBool (lfu_contains_key k c))
  | LLen => Ok (c, LNat (lfu_len c))
  end.

Definition map_step (op : LfuOp) (m : gmap K V) : gmap K V * LfuAnswer :=
  match op with
  | LGet k => (m, LValue (m !! k))
  | LInsert k v => (<[k := v]> m, LUnit)
  | LRemove k => (delete k m, LValue (m !! k))
  | LContains k => (m, LBool (bool_decide (is_Some (m !! k))))
  | LLen => (m, LNat (size m))
  end.

Fixpoint lfu_run (ops : list LfuOp) c : outcome E (LfuCache Q * list LfuAnswer) :=
  match ops with
  | [] => Ok (c, [])
  | op :: ops => ca ← lfu_step op c; cas ← lfu_run ops ca.1; Ok (cas.1, ca.2 :: cas.2)
  end.

Fixpoint map_run (ops : list LfuOp) (m : gmap K V) : gmap K V * list LfuAnswer :=
  match ops with
  | [] => (m, [])
  | op :: ops => let '(m, a) := map_step op m in let '(m, l) := map_run ops m in (m, a :: l)
  end.

Lemma lfu_step_refines op c :
  lfu_wf c → ∃ c', lfu_step op c = Ok (c', (map_step op (lfu_map c)).2) ∧ lfu_wf c' ∧
                   lfu_map c' = (map_step op (lfu_map c)).1.
Proof.
  intros Hwf. destruct op as [k|k v|k|k|]; simpl.
  - destruct (lfu_get_spec c k Hwf) as (Ha & Hw & Hm). destruct (lfu_get k c) as [c' v]. simpl in *. subst v. eauto.
  - destruct (lfu_insert_spec c k v Hwf) as (c' & -> & ? & ?). simpl. eauto.
  - destruct (lfu_remove_spec c k Hwf) as (c' & -> & ? & ?). simpl. eauto.
  - rewrite lfu_contains_spec. eauto.
  - rewrite lfu_len_spec. eauto.
Qed.

(** C37: a cache that starts empty implements a finite map.  Any sequence of
    [get], [insert], [remove], [contains_key] and [len] gives the answers of the
    same sequence on a map, without a panic, whatever the frequencies of use
    are; and [total_weight] is the sum of the weights of the entries
    throughout.  [extend] is not among the operations, as it breaks the latter
    ([extend_forgets_weight]). *)
Theorem lfu_refines_map ops :
  ∃ c, lfu_run ops (lfu_new (K := K) (V := V)) = Ok (c, (map_run ops ∅).2) ∧ lfu_map c = (map_run ops ∅).1 ∧
       total_weight c = weights (entries (queue c)).
Proof.
  destruct lfu_new_wf as [Hwf Hm]. rewrite <-Hm. clear Hm. revert Hwf. generalize (lfu_new (K := K) (V := V)).
  induction ops as [|op ops IH]; intros c Hwf; simpl.
  - exists c. split; [done|]. split; [done|]. apply Hwf.
  - destruct (lfu_step_refines op c Hwf) as (c1 & Hs & Hwf1 & Hm1). rewrite Hs. simpl.
    destruct (IH c1 Hwf1) as (c2 & -> & Hm2 & Hw2). rewrite Hm1 in *. simpl.
    destruct (map_step op (lfu_map c)) as [m a]. simpl in *. destruct (map_run ops m) as [m' l]. eauto.
Qed.

(** ** Eviction *)

(** What is gone has a priority at least as great as what is left. *)
Definition evicts_first (m m' : gmap K (CacheEntry K V * Priority)) : Prop :=
  ∀ k k' ep ep', m' !! k = Some ep → m !! k' = Some ep' → m' !! k' = None → prio_le ep.2 ep'.2.

(** Without the entry that was evicted last, the cache would be too large. *)
Definition evicts_enough (max_weight : Z) (m m' : gmap K (CacheEntry K V * Priority)) : Prop :=
  m' = m ∨ ∃ k ep, m !! k = Some ep ∧ m' !! k = None ∧ max_weight < weights m' + ce_weight ep.1.

Lemma evict_loop_spec fuel max_weight evicted c :
  lfu_wf c → 0 ≤ max_weight → (size (entries (queue c)) < fuel)%nat →
  ∃ c', evict_loop fuel 0 max_weight evicted c = Some (Ok (E := E) (c', evicted + (total_weight c - total_weight c'))) ∧
    lfu_wf c' ∧ total_weight c' ≤ max_weight ∧ entries (queue c') ⊆ entries (queue c) ∧
    stale_counter c' = stale_counter c ∧
    evicts_first (entries (queue c)) (entries (queue c')) ∧ evicts_enough max_weight (entries (queue c)) (entries (queue c')).
Proof.
  intros Hwf Hmax. revert c evicted Hwf. induction fuel as [|fuel IH]; intros c evicted Hwf Hfuel; [lia|].
  simpl. rewrite Z.add_0_r. destruct (Z.ltb_spec max_weight (total_weight c)) as [Hlt|Hle].
  - pose proof (pq_pop_map (queue c)) as Hpop. destruct (pq_pop (queue c)) as [[[e p] q]|].
    + destruct Hpop as (Hk & Hq & Htop). pose proof (usize_sub_entry c _ _ Hwf Hk) as Hsub. cbn [fst] in Hsub. rewrite Hsub.
      set (c1 := set_weight _ _). assert (lfu_wf c1) as Hwf1.
      { unfold lfu_wf. simpl. rewrite Hq. split; [|done]. apply map_Forall_delete, Hwf. }
      assert (total_weight c = ce_weight e + total_weight c1) as Hw1.
      { destruct Hwf as [_ Hw]. simpl. rewrite Hw. apply (weights_delete _ _ _ Hk). }
      destruct (IH c1 (evicted + ce_weight e)) as (c' & Hev & Hwf' & Hle' & Hsub' & Hst & Hfirst & Henough); [done| |].
      { assert (size (entries (queue c)) ≠ 0%nat) by (apply map_size_ne_0_lookup; eauto).
        simpl. rewrite Hq, map_size_delete_Some by done. lia. }
      exists c'. rewrite Hev, Hw1. split; [do 3 f_equal; lia|]. simpl in Hsub', Hfirst, Henough. rewrite Hq in Hsub', Hfirst, Henough.
      split_and!; try done; [by etrans; [exact Hsub'|apply delete_subseteq]| |].
      * intros k k' ep ep' Hkk Hkk' Hn. destruct (decide (k' = ce_key e)) as [-> |Hne].
        { rewrite Hk in Hkk'. injection Hkk' as <-. destruct ep as [e0 p0]. apply (Htop k e0). 
          apply (lookup_weaken _ _ _ _ Hkk). etrans; [exact Hsub'|apply delete_subseteq]. }
        apply (Hfirst k k'); [done|by rewrite lookup_delete_ne|done].
      * right. destruct Henough as [Heq|(k & ep & Hd & Hn & Hlt')].
        { exists (ce_key e), (e, p). rewrite Heq, lookup_delete_eq. split_and!; try done. simpl.
          simpl in Hw1. lia. }
        exists k, ep. split; [|done]. apply lookup_delete_Some in Hd as [_ ?]. done.
    + destruct Hwf as [_ Hw]. rewrite Hpop, weights_empty in Hw. lia.
  - exists c. rewrite Z.sub_diag, Z.add_0_r. split_and!; try done; [|by left]. intros k k' ep ep' _ ? ?. congruence.
Qed.

(** The entries as they are when the loop starts *)
Definition period_entries (period : Z) c : gmap K (CacheEntry K V * Priority) :=
  if stale_counter c + 1 =? period then (λ ep, mark_stale ep.1 ep.2) <$> entries (queue c) else entries (queue c).

Lemma period_wf c q period :
  lfu_wf c → entries q = period_entries period c → map_Forall entry_ok (entries q) ∧ weights (entries q) = total_weight c ∧
  (λ ep, ce_value ep.1) <$> entries q = lfu_map c.
Proof.
  intros [Hall Hw] ->. unfold period_entries, lfu_map. destruct (_ =? _); [|done]. split; [|split].
  - apply map_Forall_fmap. eapply map_Forall_impl; [exact Hall|]. intros k [e p] (? & ? & ?). by split_and!.
  - rewrite weights_fmap by done. done.
  - rewrite <-map_fmap_compose. by apply map_fmap_ext.
Qed.

Lemma evict_loop_dead_weight fuel dead max_weight evicted c c' n :
  evict_loop (E := E) fuel dead max_weight evicted c = Some (Ok (c', n)) → dead_weight c' = dead_weight c.
Proof.
  revert evicted c. induction fuel as [|fuel IH]; intros evicted c; simpl; (destruct (_ <? _); [|by intros [= -> _]]); [done|].
  destruct (pq_pop (queue c)) as [[[e p] q]|]; [|done]. destruct (usize_sub _ _) as [w| |]; [|done..].
  intros He. by apply IH in He.
Qed.

Lemma evict_core max_weight period c :
  lfu_wf c → dead_weight c = false → 0 ≤ max_weight →
  ∃ c' stats, lfu_evict_with_period max_weight period c = Some (Ok (E := E) (c', stats)) ∧ lfu_wf c' ∧
    dead_weight c' = false ∧ total_weight c' ≤ max_weight ∧ lfu_map c' ⊆ lfu_map c ∧
    if total_weight c <=? max_weight then c' = c ∧ stats = None
    else
      evicts_first (period_entries period c) (entries (queue c')) ∧
      evicts_enough max_weight (period_entries period c) (entries (queue c')) ∧
      ∃ st, stats = Some st ∧ new_weight st = total_weight c' ∧ evicted_weight st = total_weight c - total_weight c' ∧
        new_count st = size (lfu_map c') ∧ evicted_count st = (size (lfu_map c) - size (lfu_map c'))%nat.
Proof.
  intros Hwf Hdead Hmax. unfold lfu_evict_with_period. destruct (Z.leb_spec (total_weight c) max_weight) as [Hle|Hlt]; [by eauto 10|].
  set (c1 := if stale_counter _ =? period then _ else _).
  assert (entries (queue c1) = period_entries period c ∧ total_weight c1 = total_weight c ∧ dead_weight c1 = false) as (Hq & Hw & Hd).
  { unfold c1, period_entries. simpl. destruct (_ =? period); simpl; [|done]. split; [|done]. by rewrite pq_iter_mut_map. }
  clearbody c1. destruct (period_wf c (queue c1) period Hwf Hq) as (Hall1 & Hw1 & Hm1). rewrite Hd.
  assert (lfu_wf c1) as Hwf1 by (split; [done|congruence]).
  destruct (evict_loop_spec (S (lfu_len c1)) max_weight 0 c1) as (c' & Hloop & Hwf' & Hle & Hsub & _ & Hfirst & Henough);
    [done|done|unfold lfu_len; rewrite pq_len_map; lia|].
  pose proof (evict_loop_dead_weight _ _ _ _ _ _ _ Hloop) as Hd'. rewrite Hd in Hd'. rewrite Hloop.
  eexists c', _. split; [done|]. split; [done|]. split; [done|]. split; [done|].
  assert (lfu_map c1 = lfu_map c) as Hm1' by exact Hm1.
  split; [rewrite <-Hm1'; unfold lfu_map; by apply map_fmap_mono|]. rewrite Hq in *. split; [done|]. split; [done|].
  eexists. split; [done|]. simpl. rewrite !lfu_len_spec, Hm1'. split_and!; try done. lia.
Qed.

(** C38: [evict] ends without a panic when dead weight is not counted.  A cache
    that is small enough is left alone.  Otherwise the weight of what is left
    is at most [max_weight]; only entries are taken away and no value changes;
    what is taken away is stale or used less often than what is left, with
    entries that were not accessed in the last period counted as stale at the
    end of a period; nothing is taken away that could have stayed; and the
    statistics are right. *)
Theorem evict_spec max_weight period c :
  lfu_wf c → dead_weight c = false → 0 ≤ max_weight →
  ∃ c' stats, lfu_evict_with_period max_weight period c = Some (Ok (E := E) (c', stats)) ∧ lfu_wf c' ∧
    total_weight c' ≤ max_weight ∧ lfu_map c' ⊆ lfu_map c ∧
    if total_weight c <=? max_weight then c' = c ∧ stats = None
    else
      evicts_first (period_entries period c) (entries (queue c')) ∧
      evicts_enough max_weight (period_entries period c) (entries (queue c')) ∧
      ∃ st, stats = Some st ∧ new_weight st = total_weight c' ∧ evicted_weight st = total_weight c - total_weight c' ∧
        new_count st = size (lfu_map c') ∧ evicted_count st = (size (lfu_map c) - size (lfu_map c'))%nat.
Proof.
  intros Hwf Hdead Hmax. destruct (evict_core max_weight period c Hwf Hdead Hmax) as (c' & stats & ? & ? & _ & ?). eauto.
Qed.

(** What a caller of [evict_and_stats] relies on *)
Lemma evict_and_stats_spec max_weight c :
  lfu_wf c → dead_weight c = false → 0 ≤ max_weight →
  ∃ c' stats, lfu_evict_and_stats max_weight c = Some (Ok (E := E) (c', stats)) ∧ lfu_wf c' ∧ dead_weight c' = false ∧
    total_weight c' ≤ max_weight ∧ lfu_map c' ⊆ lfu_map c.
Proof.
  intros Hwf Hdead Hmax. destruct (evict_core max_weight STALE_PERIOD c Hwf Hdead Hmax) as (c' & stats & Hev & ? & ? & ? & ? & _).
  unfold lfu_evict_and_stats. rewrite Hev. destruct stats; eauto 10.
Qed.

Lemma evict_loop_panic fuel dead max_weight evicted c :
  lfu_wf c → max_weight < dead → (size (entries (queue c)) < fuel)%nat →
  evict_loop (E := E) fuel dead max_weight evicted c = Some Panic.
Proof.
  intros Hwf Hdead. revert c evicted Hwf. induction fuel as [|fuel IH]; intros c evicted Hwf Hfuel; [lia|]. simpl.
  assert (0 ≤ total_weight c).
  { destruct Hwf as [Hall ->]. by apply weights_nonneg, entry_weight_nonneg. }
  destruct (Z.ltb_spec max_weight (total_weight c + dead)); [|lia].
  pose proof (pq_pop_map (queue c)) as Hpop. destruct (pq_pop (queue c)) as [[[e p] q]|]; [|done].
  destruct Hpop as (Hk & Hq & _). pose proof (usize_sub_entry c _ _ Hwf Hk) as Hsub. cbn [fst] in Hsub. rewrite Hsub.
  assert (size (entries (queue c)) ≠ 0%nat) by (apply map_size_ne_0_lookup; eauto).
  apply IH; [|simpl; rewrite Hq, map_size_delete_Some by done; lia].
  unfold lfu_wf. simpl. rewrite Hq. split; [apply map_Forall_delete, Hwf|done].
Qed.

(** Eviction panics when dead weight is counted and the dead weight of the
    entries alone exceeds the limit: the dead weight is not reduced when
    entries are taken out, so that the loop goes on until the queue is
    empty. *)
Theorem evict_dead_weight_panics max_weight period c :
  lfu_wf c → dead_weight c = true → max_weight < total_weight c →
  max_weight < Z.of_nat (size (lfu_map c)) * (entry_size + 40) →
  lfu_evict_with_period (E := E) max_weight period c = Some Panic.
Proof.
  intros Hwf Hdead Hlt Hsize. unfold lfu_evict_with_period. destruct (Z.leb_spec (total_weight c) max_weight); [lia|].
  set (c1 := if stale_counter _ =? period then _ else _).
  assert (entries (queue c1) = period_entries period c ∧ total_weight c1 = total_weight c ∧ dead_weight c1 = true) as (Hq & Hw & Hd).
  { unfold c1, period_entries. simpl. destruct (_ =? period); simpl; [|done]. split; [|done]. by rewrite pq_iter_mut_map. }
  clearbody c1. destruct (period_wf c (queue c1) period Hwf Hq) as (Hall1 & Hw1 & Hm1). rewrite Hd.
  rewrite evict_loop_panic; [done|split; [done|congruence]| |unfold lfu_len; rewrite pq_len_map; lia].
  rewrite lfu_len_spec. unfold lfu_map at 1. by rewrite Hm1.
Qed.

(** [extend] does not add the weights of the entries that it takes over
    to [total_weight].  Removing such an entry later takes its weight off a
    total that does not include it: when the total is smaller than that, the
    subtraction panics, or wraps around to a weight near [2^64]. *)
Theorem extend_forgets_weight other c k v :
  lfu_wf other → lfu_wf c → lfu_map c !! k = None → lfu_map other !! k = Some v →
  total_weight c < entry_weight k v →
  (∀ j, is_Some (lfu_map other !! j) → lfu_map c !! j = None) →
  (overflow_checks = true → lfu_remove (E := E) k (lfu_extend other c) = Panic) ∧
  (overflow_checks = false → ∃ c', lfu_remove (E := E) k (lfu_extend other c) = Ok (c', Some v) ∧
     total_weight c' = total_weight c - entry_weight k v + 2 ^ 64).
Proof.
  intros [Hallo Hwo] [Hall Hw] Hc Ho Hlt Hdisj.
  assert (map_Forall entry_ok (entries (queue (lfu_extend other c)))) as Hall'.
  { intros j ep Hj. simpl in Hj. pose proof (pq_extend_map (queue c) (queue other) j) as Hx.
    specialize (Hdisj j). rewrite !lfu_map_lookup in Hdisj.
    destruct (entries (queue c) !! j) as [ep1|] eqn:E1, (entries (queue other) !! j) as [ep2|] eqn:E2.
    - by specialize (Hdisj ltac:(eauto)).
    - apply Hall. congruence.
    - apply Hallo. congruence.
    - congruence. }
  rewrite lfu_map_lookup in Ho, Hc. destruct (entries (queue other) !! k) as [[e p]|] eqn:Eo; [|done].
  destruct (Hallo k _ Eo) as (_ & Hwe & _). simpl in *. injection Ho as <-.
  destruct (remove_entries (lfu_extend other c) k e p) as (q & Hq & Hrem); [done| |].
  { simpl. pose proof (pq_extend_map (queue c) (queue other) k) as Hx. rewrite Eo in Hx.
    destruct (entries (queue c) !! k); [done|]. exact Hx. }
  rewrite Hrem. unfold usize_sub. simpl. rewrite Hwe.
  destruct (Z.leb_spec (entry_weight k (ce_value e)) (total_weight c)); [lia|].
  split; intros ->; [done|]. simpl. eexists. split; [done|done].
Qed.

End Facts.

(** ** A priority queue

    A finite map, from which [pop] takes an entry with the greatest priority,
    satisfies what the cache relies on. *)

Module MapQueue.
Section MapQueue.
  Context {K V : Type} `{Countable K}.

Abbreviation Q := (gmap K (CacheEntry K V * Priority)).

Definition keyed (kep : K * (CacheEntry K V * Priority)) : Prop := ce_key kep.2.1 = kep.1.
Definition norm (q : Q) : Q := filter keyed q.

Lemma norm_id q : map_Forall (λ k ep, ce_key ep.1 = k) q → norm q = q.
Proof. intros Hq. by apply map_filter_id. Qed.

Lemma norm_keyed q : map_Forall (λ k ep, ce_key ep.1 = k) (norm q).
Proof. intros k ep Hk. apply map_lookup_filter_Some in Hk as [_ Hk]. exact Hk. Qed.

(** An element with the greatest priority *)
Fixpoint best (l : list (K * (CacheEntry K V * Priority))) : option (K * (CacheEntry K V * Priority)) :=
  match l with
  | [] => None
  | x :: l =>
      match best l with
      | Some y => if decide (prio_le x.2.2 y.2.2) then Some y else Some x
      | None => Some x
      end
  end.

Lemma prio_le_total p q : prio_le p q ∨ prio_le q p.
Proof. unfold prio_le. destruct (stale p), (stale q); auto; destruct (Z.le_ge_cases (frequency p) (frequency q)); auto. Qed.

Lemma prio_le_trans p q r : prio_le p q → prio_le q r → prio_le p r.
Proof.
  unfold prio_le. intros [[Hp Hq]|[Hp Hq]] [[Hq' Hr]|[Hq' Hr]]; try congruence; [left; split; congruence..|].
  right. split; [congruence|lia].
Qed.

Lemma best_spec l :
  match best l with
  | Some x => x ∈ l ∧ ∀ y, y ∈ l → prio_le y.2.2 x.2.2
  | None => l = []
  end.
Proof.
  induction l as [|x l IH]; [done|]. simpl. destruct (best l) as [y|].
  - destruct IH as [Hy Hall]. case_decide as Hd.
    + split; [by right|]. intros z [-> |Hz]%elem_of_cons; [done|by apply Hall].
    + split; [by left|]. intros z [-> |Hz]%elem_of_cons; [right; split; [done|lia]|].
      destruct (prio_le_total x.2.2 y.2.2) as [|Hle]; [done|]. eapply prio_le_trans; [by apply Hall|done].
  - subst l. split; [by left|]. intros z [-> |Hz]%elem_of_cons; [right; split; [done|lia]|by apply elem_of_nil in Hz].
Qed.

#[export] Instance map_queue : PriorityQueue K V Q := {|
  pq_new := ∅;
  pq_push := λ e p q, <[ce_key e := (e, p)]> (norm q);
  pq_change_priority := λ k p q, (λ ep, <[k := (ep.1, p)]> (norm q)) <$> norm q !! k;
  pq_change_priority_by := λ k f q, alter (λ ep, (ep.1, f ep.2)) k (norm q);
  pq_get := λ k q, norm q !! k;
  pq_update := λ k f q, alter (λ ep, (f ep.1, ep.2)) k (norm q);
  pq_pop := λ q, (λ kep, (kep.2, delete kep.1 (norm q))) <$> best (map_to_list (norm q));
  pq_iter_mut := λ f q, (λ ep, f ep.1 ep.2) <$> norm q;
  pq_len := λ q, size (norm q);
  pq_extend := λ q q', norm q ∪ norm q';
|}.

Lemma alter_keyed (f : CacheEntry K V * Priority → CacheEntry K V * Priority) k q :
  (∀ ep, ce_key (f ep).1 = ce_key ep.1) → norm (alter f k (norm q)) = alter f k (norm q).
Proof.
  intros Hf. apply norm_id. intros j ep Hj. destruct (decide (k = j)) as [-> |Hne].
  - rewrite lookup_alter_eq in Hj. apply fmap_Some in Hj as (ep' & Hj & ->). rewrite Hf. by apply norm_keyed in Hj.
  - rewrite lookup_alter_ne in Hj by done. by apply norm_keyed in Hj.
Qed.

#[export] Instance map_queue_spec : PriorityQueueSpec K V Q.
Proof.
  refine {| pq_map := norm |}.
  - done.
  - intros e p q _. apply norm_id. apply map_Forall_insert_2; [done|apply norm_keyed].
  - intros k p q. simpl. destruct (norm q !! k) as [[e p0]|] eqn:Ek; simpl; [|done].
    apply norm_id. apply map_Forall_insert_2; [by apply norm_keyed in Ek|apply norm_keyed].
  - intros k f q. by apply alter_keyed.
  - done.
  - intros k f q Hf. apply alter_keyed. intros ep. apply Hf.
  - intros q. simpl. pose proof (best_spec (map_to_list (norm q))) as Hb.
    destruct (best (map_to_list (norm q))) as [[k [e p]]|]; simpl.
    + destruct Hb as [Hin Hall]. apply elem_of_map_to_list in Hin. pose proof (norm_keyed q _ _ Hin) as Hk. simpl in Hk. subst k.
      split; [done|]. split; [apply norm_id, map_Forall_delete, norm_keyed|].
      intros j e' p' Hj. apply (Hall (j, (e', p'))). by apply elem_of_map_to_list.
    + by apply map_to_list_empty_iff.
  - intros f q Hf. apply norm_id. apply map_Forall_fmap. eapply map_Forall_impl; [apply norm_keyed|].
    intros k ep Hk. simpl. by rewrite Hf.
  - done.
  - intros q q' k. simpl. rewrite (norm_id (norm q ∪ norm q')) by (apply map_Forall_union_2; apply norm_keyed).
    rewrite lookup_union. destruct (norm q !! k) as [[e p]|], (norm q' !! k) as [[e' p']|]; simpl; try done. eauto 10.
Defined.

End MapQueue.
End MapQueue.

(** ** A small cache *)

Module LfuSample.
Import MapQueue.

#[local] Instance sample_config : CacheConfig Z Z :=
  {| entry_weight := λ _ v, Z.abs v; entry_size := 80; entity_cache_dead_weight := false |}.
#[local] Instance debug_build : Arithmetic := {| overflow_checks := true |}.

Definition cache_of (kvs : list (Z * Z)) (dead : bool) : LfuCache (gmap Z (CacheEntry Z Z * Priority)) :=
  mkLfu (list_to_map ((λ kv, (kv.1, (mkEntry (Z.abs kv.2) kv.1 kv.2 false, mkPriority false 1))) <$> kvs))
    (foldr (λ kv w, Z.abs kv.2 + w) 0 kvs) 0 dead 0 0.

Lemma sample_weight (k v : Z) : 0 ≤ entry_weight k v.
Proof. apply Z.abs_nonneg. Defined.

Lemma lfu_refines_map_witness :
  ∃ c, lfu_run (E := unit) [LInsert 1 10; LInsert 2 20; LGet 1; LRemove 2; LContains 2; LLen] (lfu_new (K := Z) (V := Z)) =
    Ok (c, [LUnit; LUnit; LValue (Some 10); LValue (Some 20); LBool false; LNat 1]) ∧ lfu_map c = {[ 1 := 10 ]} ∧
    total_weight c = weights (pq_map (queue c)).
Proof. exact (lfu_refines_map (E := unit) sample_weight [LInsert 1 10; LInsert 2 20; LGet 1; LRemove 2; LContains 2; LLen]). Defined.

Lemma cache_of_wf1 k v dead : lfu_wf (cache_of [(k, v)] dead).
Proof.
  assert (pq_map (queue (cache_of [(k, v)] dead)) = {[ k := (mkEntry (Z.abs v) k v false, mkPriority false 1) ]}) as Heq.
  { apply norm_id. by apply map_Forall_singleton. }
  split; rewrite Heq; [by apply map_Forall_singleton|]. unfold weights. rewrite map_fold_singleton. done.
Defined.

Lemma cache_of_map1 k v dead : lfu_map (cache_of [(k, v)] dead) = {[ k := v ]}.
Proof.
  assert (pq_map (queue (cache_of [(k, v)] dead)) = {[ k := (mkEntry (Z.abs v) k v false, mkPriority false 1) ]}) as Heq.
  { apply norm_id. by apply map_Forall_singleton. }
  unfold lfu_map. rewrite Heq. apply map_fmap_singleton.
Defined.

Lemma evict_spec_witness :
  ∃ c' stats, lfu_evict_with_period (E := unit) 5 100 (cache_of [(1, 10)] false) = Some (Ok (c', stats)) ∧ total_weight c' ≤ 5.
Proof.
  destruct (evict_spec (E := unit) sample_weight 5 100 (cache_of [(1, 10)] false)) as (c' & stats & Hev & _ & Hle & _);
    [apply cache_of_wf1|done|lia|eauto].
Defined.

Lemma evict_dead_weight_panics_witness :
  lfu_evict_with_period (E := unit) 5 100 (cache_of [(1, 10)] true) = Some Panic.
Proof.
  apply (evict_dead_weight_panics (E := unit) sample_weight);
    [apply cache_of_wf1|done|by vm_compute|rewrite cache_of_map1; by vm_compute].
Defined.

Lemma extend_forgets_weight_witness :
  lfu_remove (E := unit) 2 (lfu_extend (cache_of [(2, 20)] false) (cache_of [(1, 10)] false)) = Panic.
Proof.
  apply (extend_forgets_weight (E := unit) (cache_of [(2, 20)] false) (cache_of [(1, 10)] false) 2 20);
    rewrite ?cache_of_map1; [apply cache_of_wf1..|done|done|done| |done].
  intros j [v Hj]. apply lookup_singleton_Some in Hj as [<- _]. done.
Defined.

End LfuSample.
