(* ===== verification/EntityCache.v ===== *)
(** * The cache of entities of a block

    Models [graph/src/components/store/entity_cache.rs]: the operations on
    entities that handlers perform are accumulated in two layers on top of a
    frequency cache of what is in the store, and turned into modifications at
    the end of the block. *)

From Stdlib Require Import ZArith Lia.
From stdpp Require Import base gmap list strings sorting.
From S2P Require Import Prelude Values Intern Entity Write Relational LfuCache.

Local Open Scope Z_scope.

(** ** [SeqGenerator]

    The generator is shared by all caches of a block: it is not part of a
    cache, but of the state [World] that the operations of a cache change. *)

Definition RESERVED_VIDS : Z := 100.

Record SeqGenerator := mkSeqGenerator { sg_block : BlockNumber; vid_seq : Z; id_seq : Z }.

Definition seq_new (block : BlockNumber) : SeqGenerator := mkSeqGenerator block RESERVED_VIDS 0.

(** [AtomicU32::fetch_add] wraps around. *)
Definition seq_vid (self : SeqGenerator) : SeqGenerator * Z :=
  (mkSeqGenerator (sg_block self) ((vid_seq self + 1) mod 2 ^ 32) (id_seq self),
   Z.shiftl (sg_block self) 32 + vid_seq self).

Definition seq_id (self : SeqGenerator) (t : IdType) : SeqGenerator * outcome string Id :=
  (mkSeqGenerator (sg_block self) (vid_seq self) ((id_seq self + 1) mod 2 ^ 32),
   generate_id t (sg_block self) (id_seq self)).

(** ** [EntityOp]: operations that can be accumulated *)

Inductive CacheOp :=
| CacheRemove
| CacheUpdate (e : Entity)
| CacheOverwrite (e : Entity).

Definition apply_to (self : CacheOp) (entity : option Entity) : outcome InternError (option Entity) :=
  match self, entity with
  | CacheRemove, _ => Ok None
  | CacheOverwrite new, _ | CacheUpdate new, None => Ok (Some new)
  | CacheUpdate updates, Some entity =>
      let '(e, r) := entity_merge_remove_null_fields entity updates in
      _ ← r; Ok (Some e)
  end.

Definition accumulate (self next : CacheOp) : outcome Empty_set CacheOp :=
  match next with
  | CacheRemove | CacheOverwrite _ => Ok next
  | CacheUpdate update =>
      match self with
      | CacheRemove => Ok (CacheOverwrite update)
      | CacheUpdate current => e ← entity_merge current update; Ok (CacheUpdate e)
      | CacheOverwrite current => e ← entity_merge current update; Ok (CacheOverwrite e)
      end
  end.

(** ** What the cache uses of its environment *)

(** The trait [ReadStore] *)
Class ReadStore := {
  rs_get : EntityKey → outcome StoreError (option Entity);
  rs_get_many : gset EntityKey → outcome StoreError (gmap EntityKey Entity);
  rs_get_derived : DerivedEntityQuery → outcome StoreError (gmap EntityKey Entity);
}.

(** The iteration over a [HashMap] has no order that code can rely on. *)
Class HashOrder := {
  hash_iter : ∀ {A}, gmap EntityKey A → list (EntityKey * A);
  hash_iter_perm : ∀ {A} (m : gmap EntityKey A), hash_iter m ≡ₚ map_to_list m;
}.

(** [CacheWeight::weight] of an entity and [GRAPH_ENTITY_CACHE_SIZE] *)
Class CacheEnv := {
  entity_weight : Entity → Z;
  entity_cache_size : Z;
}.

(** A [BTreeMap] is iterated in the order of the keys. *)
Definition bytes_compare : list Z → list Z → comparison :=
  fix go a b :=
    match a, b with
    | [], [] => Eq
    | [], _ :: _ => Lt
    | _ :: _, [] => Gt
    | x :: a, y :: b => match Z.compare x y with Eq => go a b | c => c end
    end.

Definition id_compare (a b : Id) : comparison :=
  match a, b with
  | IdString a, IdString b => String.compare a b
  | IdString _, _ => Lt
  | IdBytes _, IdString _ => Gt
  | IdBytes a, IdBytes b => bytes_compare a b
  | IdBytes _, IdInt8 _ => Lt
  | IdInt8 a, IdInt8 b => Z.compare a b
  | IdInt8 _, _ => Gt
  end.

Definition key_compare (a b : EntityKey) : comparison :=
  match String.compare (et_name (entity_type a)) (et_name (entity_type b)) with
  | Eq =>
      match id_compare (entity_id a) (entity_id b) with
      | Eq => Z.compare (causality_region a) (causality_region b)
      | c => c
      end
  | c => c
  end.

Definition key_le (a b : EntityKey) : Prop := key_compare a b ≠ Gt.

#[export] Instance key_le_dec : RelDecision key_le.
Proof. intros a b. unfold key_le. apply _. Defined.

Definition btree_iter {A} (m : gmap EntityKey A) : list (EntityKey * A) :=
  merge_sort (λ a b, key_le a.1 b.1) (map_to_list m).

Definition btree_keys (s : gset EntityKey) : list EntityKey := merge_sort key_le (elements s).

(** ** [EntityCache] *)

Inductive GetScope := ScopeStore | InBlock.

Record EntityCache (Q : Type) := mkEntityCache {
  current : LfuCache Q;
  updates : gmap EntityKey CacheOp;
  handler_updates : gmap EntityKey CacheOp;
  in_handler : bool;
}.
Arguments mkEntityCache {Q}.
Arguments current {Q}.
Arguments updates {Q}.
Arguments handler_updates {Q}.
Arguments in_handler {Q}.

(** What [EntityCache::set] changes: the cache, the generator, and the
    capacity that the caller lends to it *)
Record World (Q : Type) := mkWorld {
  w_seq : SeqGenerator;
  w_capacity : option Z;
  w_cache : EntityCache Q;
}.
Arguments mkWorld {Q}.
Arguments w_seq {Q}.
Arguments w_capacity {Q}.
Arguments w_cache {Q}.

(** The errors of [set], by the text of their message *)
Inductive SetError :=
| ExceededWriteLimit (id : Id)
| VidAlreadyPresent (vid : Value) (key : EntityKey) (id : Id)
| FailedToReadBack (key : EntityKey)
| SetStoreError (e : StoreError)
| SetValidationError (e : EntityValidationError).

(** The errors of [load_related] *)
Inductive RelatedError :=
| UnknownRelatedType | UnknownRelatedField | FieldNotDerived
| RelatedStoreError (e : StoreError).

(** What a call returns, for the calls that read or write entities *)
Inductive Answer := Done | Found (entity : option Entity) | Listed (entities : list Entity).

Record LoadRelatedRequest := mkLoadRelatedRequest {
  lr_entity_type : EntityType;
  lr_entity_id : Id;
  lr_entity_field : string;
  lr_causality_region : CausalityRegion;
}.

Inductive EntityOperation :=
| OperationSet (key : EntityKey) (data : Entity)
| OperationRemove (key : EntityKey).

Record ModificationsAndCache (Q : Type) := mkModificationsAndCache {
  modifications : list EntityModification;
  entity_lfu_cache : LfuCache Q;
  evict_stats : EvictStats;
}.
Arguments mkModificationsAndCache {Q}.
Arguments modifications {Q}.
Arguments entity_lfu_cache {Q}.
Arguments evict_stats {Q}.

(** [EntityKey::unknown_attribute] *)
Definition unknown_attribute (key : EntityKey) (e : InternError) : StoreError :=
  match e with NotInterned attr => UnknownAttribute (et_name (entity_type key)) attr end.

Definition find_field (name : string) (fields : list Field) : option Field :=
  find (λ f, bool_decide (field_name f = name)) fields.

(** [InputSchema::get_field_related] *)
Definition get_field_related `{InputSchema} (eref : LoadRelatedRequest) : outcome RelatedError (EntityType * Field) :=
  fields ← ok_or (object_type (lr_entity_type eref)) UnknownRelatedType;
  field ← ok_or (find_field (lr_entity_field eref) fields) UnknownRelatedField;
  match derived_from field with
  | None => Err FieldNotDerived
  | Some field_name =>
      let t := mkEntityType (get_base_type (field_type field)) in
      fields ← ok_or (object_type t) UnknownRelatedType;
      field ← ok_or (find_field field_name fields) UnknownRelatedField;
      Ok (t, field)
  end.

Section EntityCache.
  Context {Q : Type} `{!PriorityQueue EntityKey (option Entity) Q} `{Arithmetic}.
  Context `{!CacheConfig EntityKey (option Entity)} `{InputSchema} `{ReadStore} `{HashOrder} `{CacheEnv}.
  Implicit Types (c : EntityCache Q) (l : LfuCache Q).

Definition set_current l c : EntityCache Q := mkEntityCache l (updates c) (handler_updates c) (in_handler c).
Definition set_updates u c : EntityCache Q := mkEntityCache (current c) u (handler_updates c) (in_handler c).
Definition set_handler_updates u c : EntityCache Q := mkEntityCache (current c) (updates c) u (in_handler c).
Definition set_in_handler b c : EntityCache Q := mkEntityCache (current c) (updates c) (handler_updates c) b.

Definition with_current l : EntityCache Q := mkEntityCache l ∅ ∅ false.

(** [EntityCache::new] *)
Definition cache_new : EntityCache Q := with_current (lfu_new (K := EntityKey) (V := option Entity)).

(** *** Accumulating operations *)

Definition op_in (key : EntityKey) (op : CacheOp) (m : gmap EntityKey CacheOp)
    : outcome Empty_set (gmap EntityKey CacheOp) :=
  match m !! key with
  | None => Ok (<[key := op]> m)
  | Some old => new ← accumulate old op; Ok (<[key := new]> m)
  end.

Definition entity_op {E} (key : EntityKey) (op : CacheOp) : st (EntityCache Q) E unit := λ c,
  let m := if in_handler c then handler_updates c else updates c in
  match op_in key op m with
  | Ok m => (if in_handler c then set_handler_updates m c else set_updates m c, Ok tt)
  | Err e => match e with end
  | Panic => (c, Panic)
  end.

Definition cache_remove {E} (key : EntityKey) : st (EntityCache Q) E unit := entity_op key CacheRemove.

Definition append_one {E} (operation : EntityOperation) : st (EntityCache Q) E unit :=
  match operation with
  | OperationSet key data => entity_op key (CacheUpdate data)
  | OperationRemove key => entity_op key CacheRemove
  end.

Definition cache_append {E} (operations : list EntityOperation) : st (EntityCache Q) E unit := λ c,
  if in_handler c then (c, Panic) else st_for append_one operations c.

(** *** Handlers *)

Definition enter_handler {E} : st (EntityCache Q) E unit := λ c,
  if in_handler c then (c, Panic) else (set_in_handler true c, Ok tt).

Definition exit_handler {E} : st (EntityCache Q) E unit := λ c,
  if in_handler c then
    let ops := hash_iter (handler_updates c) in
    st_for (λ kop, entity_op kop.1 kop.2) ops (set_handler_updates ∅ (set_in_handler false c))
  else (c, Panic).

Definition exit_handler_and_discard_changes {E} : st (EntityCache Q) E unit := λ c,
  if in_handler c then (set_handler_updates ∅ (set_in_handler false c), Ok tt) else (c, Panic).

(** [extend], for which the other cache is consumed *)
Definition cache_extend {E} (other : EntityCache Q) : st (EntityCache Q) E unit := λ c,
  if in_handler other then (c, Panic)
  else
    st_for (λ kop, entity_op kop.1 kop.2) (hash_iter (updates other))
      (set_current (lfu_extend (K := EntityKey) (V := option Entity) (current other) (current c)) c).

(** *** Reading *)

Definition insert_current {E} (key : EntityKey) (value : option Entity) : st (EntityCache Q) E unit := λ c,
  match lfu_insert key value (current c) with
  | Ok l => (set_current l c, Ok tt)
  | Err e => (c, Err e)
  | Panic => (c, Panic)
  end.

(** [self.current.get(key).unwrap()] *)
Definition get_current {E} (key : EntityKey) : st (EntityCache Q) E (option Entity) := λ c,
  let '(l, v) := lfu_get key (current c) in (set_current l c, unwrap v).

(** Apply the operation on [key] in one of the layers *)
Definition apply_layer (key : EntityKey) (m : gmap EntityKey CacheOp) (entity : option Entity)
    : outcome StoreError (option Entity) :=
  match m !! key with
  | None => Ok entity
  | Some op => map_err (unknown_attribute key) (apply_to op entity)
  end.

(** The [debug_assert!] that compares the cache with the store is not part of
    the release build. *)
Definition cache_get (key : EntityKey) (scope : GetScope) : st (EntityCache Q) StoreError (option Entity) :=
  entity ← match scope with
           | ScopeStore =>
               c ← st_get;
               _ ← (if lfu_contains_key key (current c) then mret tt
                    else entity ← lift (rs_get key); insert_current key entity);
               get_current key
           | InBlock => mret None
           end;
  c ← st_get;
  entity ← lift (apply_layer key (updates c) entity);
  lift (apply_layer key (handler_updates c) entity).

(** The stored entities that [load_related] adds to the cache *)
Definition remember {E} (kv : EntityKey * Entity) : st (EntityCache Q) E unit := λ c,
  if lfu_contains_key (V := option Entity) kv.1 (current c) then (c, Ok tt) else insert_current kv.1 (Some kv.2) c.

Definition candidates (query : DerivedEntityQuery) (stored : gmap EntityKey Entity) c : gset EntityKey :=
  dom stored ∪
  filter (λ key, entity_type key = dq_entity_type query ∧ causality_region key = dq_causality_region query)
    (dom (updates c) ∪ dom (handler_updates c)).

Fixpoint related (query : DerivedEntityQuery) (stored : gmap EntityKey Entity) c (keys : list EntityKey)
    : outcome StoreError (list Entity) :=
  match keys with
  | [] => Ok []
  | key :: keys =>
      entity ← apply_layer key (updates c) (stored !! key);
      entity ← apply_layer key (handler_updates c) entity;
      rest ← related query stored c keys;
      Ok (match entity with
          | Some entity => if derived_matches query key entity then entity :: rest else rest
          | None => rest
          end)
  end.

Definition load_related (eref : LoadRelatedRequest) : st (EntityCache Q) RelatedError (list Entity) :=
  '(t, field) ← lift (get_field_related eref);
  let query := mkDerivedEntityQuery t (field_name field) (lr_entity_id eref) (lr_causality_region eref) in
  stored ← lift (map_err RelatedStoreError (rs_get_derived query));
  _ ← st_for remember (btree_iter stored);
  c ← st_get;
  lift (map_err RelatedStoreError (related query stored c (btree_keys (candidates query stored c)))).

(** *** Writing *)

(** A method of the cache inside one that also has the generator *)
Definition on_cache {E E' A} (f : E → E') (m : st (EntityCache Q) E A) : st (World Q) E' A := λ w,
  let '(c, r) := m (w_cache w) in (mkWorld (w_seq w) (w_capacity w) c, map_err f r).

Definition next_vid {E} : st (World Q) E Z := λ w,
  let '(g, vid) := seq_vid (w_seq w) in (mkWorld g (w_capacity w) (w_cache w), Ok vid).

Definition take_capacity (key : EntityKey) (entity : Entity) : st (World Q) SetError unit := λ w,
  match w_capacity w with
  | None => (w, Ok tt)
  | Some capacity =>
      let weight := entity_weight entity in
      if negb (lfu_contains_key (V := option Entity) key (current (w_cache w))) && (capacity <? weight)
      then (w, Err (ExceededWriteLimit (entity_id key)))
      else
        match usize_sub capacity weight with
        | Ok n => (mkWorld (w_seq w) (Some n) (w_cache w), Ok tt)
        | Err e => (w, Err e)
        | Panic => (w, Panic)
        end
  end.

Definition set_new_vid (key : EntityKey) (entity : Entity) (vid : Z) : outcome SetError Entity :=
  match entity_set_vid entity vid with
  | Ok (entity, None) => Ok entity
  | Ok (entity, Some ovid) => id ← infallible (entity_id_of entity); Err (VidAlreadyPresent ovid key id)
  | Err _ | Panic => Panic
  end.

Definition cache_set (key : EntityKey) (entity : Entity) : st (World Q) SetError unit :=
  let is_valid := is_ok (entity_validate entity key) in
  _ ← take_capacity key entity;
  vid ← next_vid;
  entity ← lift (set_new_vid key entity vid);
  _ ← on_cache id (entity_op key (CacheUpdate entity));
  if is_valid then mret tt
  else
    entity ← on_cache SetStoreError (cache_get key ScopeStore);
    entity ← lift (ok_or entity (FailedToReadBack key));
    lift (map_err SetValidationError (entity_validate entity key)).

(** *** The modifications of a block *)

Definition missing c : gset EntityKey :=
  filter (λ key, lfu_contains_key (V := option Entity) key (current c) = false ∧ is_immutable (entity_type key) = false)
    (dom (updates c)).

Definition modify_one (block : BlockNumber) (kop : EntityKey * CacheOp) : st (LfuCache Q * list EntityModification) StoreError unit := λ s,
  let '(l, mods) := s in
  let '(key, update) := kop in
  match
    ( '(l, v) ← lfu_remove key l;
      match mjoin v, update with
      | None, CacheUpdate updates | None, CacheOverwrite updates =>
          data ← infallible (entity_remove_null_fields updates);
          l ← lfu_insert key (Some data) l;
          Ok (l, Some (Insert key data block None))
      | Some current, CacheUpdate updates =>
          let '(data, r) := entity_merge_remove_null_fields current updates in
          changed ← map_err (unknown_attribute key) r;
          l ← lfu_insert key (Some data) l;
          Ok (l, if (changed : bool) then Some (Overwrite key data block None) else None)
      | Some current, CacheOverwrite data =>
          l ← lfu_insert key (Some data) l;
          eq ← infallible (entity_eq current data);
          Ok (l, if (eq : bool) then None else Some (Overwrite key data block None))
      | Some _, CacheRemove =>
          l ← lfu_insert key None l;
          Ok (l, Some (Remove key block))
      | None, CacheRemove => Ok (l, None)
      end )
  with
  | Ok (l, modification) => ((l, mods ++ option_list modification), Ok tt)
  | Err e => (s, Err e)
  | Panic => (s, Panic)
  end.

(** The cache is consumed; [None] is a lack of fuel in the eviction. *)
Definition as_modifications (block : BlockNumber) c : option (outcome StoreError (ModificationsAndCache Q)) :=
  if in_handler c then Some Panic
  else
    match
      ( entities ← rs_get_many (missing c);
        match st_for (λ kv, insert_current kv.1 (Some kv.2)) (btree_iter entities) c with
        | (c, Ok _) =>
            match st_for (modify_one block) (hash_iter (updates c)) (current c, []) with
            | (s, Ok _) => Ok s
            | (_, Err e) => Err e
            | (_, Panic) => Panic
            end
        | (_, Err e) => Err e
        | (_, Panic) => Panic
        end )
    with
    | Ok (l, mods) =>
        match lfu_evict_and_stats (K := EntityKey) (V := option Entity) entity_cache_size l with
        | Some (Ok (l, stats)) => Some (Ok (mkModificationsAndCache mods l stats))
        | Some (Err e) => Some (Err e)
        | Some Panic => Some Panic
        | None => None
        end
    | Err e => Some (Err e)
    | Panic => Some Panic
    end.

End EntityCache.
