(* ===== verification/EntityCacheFacts.v ===== *)
(** * Properties of the entity cache

    What handlers see through the cache is a finite map with a second layer
    for the running handler; every operation on the cache is one on that map. *)

From Stdlib Require Import ZArith Lia ZifyBool.
From stdpp Require Import base gmap list strings sorting fin_maps.
From S2P Require Import Prelude Values Intern InternFacts Entity EntityFacts Write Relational LfuCache LfuFacts EntityCache.

Local Open Scope Z_scope.

(** ** The visible part of an entity

    A null is the same as an attribute that is not set, and the vid is hidden. *)

Abbreviation View := (gmap string Value) (only parsing).

Definition view (e : Entity) : View := strip_nulls (visible (obj_map e)).

(** What an update writes *)
Definition change (e : Entity) : View := visible (obj_map e).

Lemma null_merge_empty_l (u : View) : null_merge ∅ u = strip_nulls u.
Proof. by_attribute. Qed.

Lemma visible_union (m u : View) : visible (u ∪ m) = visible u ∪ visible m.
Proof. apply delete_union. Qed.

Lemma visible_null_merge (m u : View) : visible (null_merge m u) = null_merge (visible m) (visible u).
Proof.
  apply map_eq. intros k. unfold visible. rewrite null_merge_lookup.
  destruct (decide (k = VID_FIELD)) as [-> |Hne]; [by rewrite !lookup_delete_eq|].
  by rewrite !lookup_delete_ne, null_merge_lookup by done.
Qed.

Lemma strip_nulls_idemp (m : View) : strip_nulls (strip_nulls m) = strip_nulls m.
Proof. by_attribute. Qed.

Lemma visible_strip_nulls (m : View) : visible (strip_nulls m) = strip_nulls (visible m).
Proof.
  apply map_eq. intros k. unfold visible. rewrite strip_nulls_lookup.
  destruct (decide (k = VID_FIELD)) as [-> |Hne]; [by rewrite !lookup_delete_eq|].
  by rewrite !lookup_delete_ne, strip_nulls_lookup by done.
Qed.

(** ** Operations as functions on the visible part *)

Definition sem (op : CacheOp) (x : option View) : option View :=
  match op with
  | CacheRemove => None
  | CacheUpdate u => Some (null_merge (default ∅ x) (change u))
  | CacheOverwrite u => Some (view u)
  end.

Definition layer (m : gmap EntityKey CacheOp) (k : EntityKey) (x : option View) : option View :=
  match m !! k with Some op => sem op x | None => x end.

Section Ops.
  Context (P : ArcPool).

(** The entities of a deployment share the pool of its schema. *)
Definition ent_ok (e : Entity) : Prop := obj_wf e ∧ pool e = P.

Definition op_ok (op : CacheOp) : Prop :=
  match op with CacheRemove => True | CacheUpdate e | CacheOverwrite e => ent_ok e end.

Definition opt_ok (e : option Entity) : Prop := match e with Some e => ent_ok e | None => True end.

Definition ops_ok (m : gmap EntityKey CacheOp) : Prop := map_Forall (λ _, op_ok) m.

Lemma ops_ok_empty : ops_ok ∅.
Proof. apply map_Forall_empty. Qed.

Lemma ent_fits e u : ent_ok e → ent_ok u → fits_pool e u.
Proof.
  intros [He Hp] [Hu Hpu] k [v Hv]. rewrite obj_map_lookup in Hv by apply Hu. unfold obj_get in Hv.
  rewrite Hp, <-Hpu. by destruct (pool_lookup (arc_pool (pool u)) k).
Qed.

Lemma merge_null_view e u :
  ent_ok e → ent_ok u →
  ∃ e', entity_merge_remove_null_fields e u =
      (e', Ok (bool_decide (visible (obj_map e) ≠ visible (obj_map e')))) ∧
    ent_ok e' ∧ obj_map e' = null_merge (obj_map e) (obj_map u) ∧ view e' = null_merge (view e) (change u).
Proof.
  intros He Hu. destruct (merge_remove_null_fields_map e u) as (e' & Hm & Hwf & Hp & Ho);
    [apply He|apply Hu|by apply ent_fits|].
  exists e'. split; [done|]. split; [split; [done|by rewrite Hp; apply He]|]. split; [done|].
  unfold view, change. by rewrite Ho, visible_null_merge, strip_nulls_null_merge.
Qed.

Lemma apply_to_spec op e :
  op_ok op → opt_ok e → ∃ e', apply_to op e = Ok e' ∧ opt_ok e' ∧ view <$> e' = sem op (view <$> e).
Proof.
  intros Hop He. destruct op as [|u|u], e as [e|]; simpl in *; try by eauto.
  - destruct (merge_null_view e u He Hop) as (e' & -> & He' & _ & Hv). simpl. eexists. split; [done|]. split; [done|].
    simpl. by rewrite Hv.
  - eexists. split; [done|]. split; [done|]. simpl. by rewrite null_merge_empty_l.
Qed.

Lemma entity_merge_spec e u :
  ent_ok e → ent_ok u → ∃ e', entity_merge e u = Ok e' ∧ ent_ok e' ∧ obj_map e' = obj_map u ∪ obj_map e.
Proof.
  intros He Hu. destruct (obj_merge_spec e u) as (e' & Hm & Hwf & Hp & Ho);
    [apply He|apply Hu|by rewrite (proj2 He), (proj2 Hu)|by apply ent_fits|].
  exists e'. split; [done|]. split; [|done]. split; [done|]. rewrite Hp. apply He.
Qed.

(** Accumulating is composition. *)
Lemma accumulate_spec a b :
  op_ok a → op_ok b → ∃ c, accumulate a b = Ok c ∧ op_ok c ∧ ∀ x, sem c x = sem b (sem a x).
Proof.
  intros Ha Hb. destruct b as [|u|u]; [by eexists..| |by eexists]. destruct a as [|e|e]; simpl in *.
  - eexists. split; [done|]. split; [done|]. intros x. simpl. by rewrite null_merge_empty_l.
  - destruct (entity_merge_spec e u Ha Hb) as (e' & -> & Hok & Hm). eexists. split; [done|]. split; [done|].
    intros x. simpl. unfold change. by rewrite Hm, visible_union, null_merge_assoc.
  - destruct (entity_merge_spec e u Ha Hb) as (e' & -> & Hok & Hm). eexists. split; [done|]. split; [done|].
    intros x. simpl. unfold view, change. by rewrite Hm, visible_union, strip_nulls_union.
Qed.

Lemma op_in_spec key op m :
  ops_ok m → op_ok op →
  ∃ m', op_in key op m = Ok m' ∧ ops_ok m' ∧
    (∀ x, layer m' key x = sem op (layer m key x)) ∧ (∀ k, k ≠ key → m' !! k = m !! k).
Proof.
  intros Hm Hop. unfold op_in, layer. destruct (m !! key) as [old|] eqn:Ek.
  - destruct (accumulate_spec old op) as (new & -> & Hnew & Hsem); [by apply (Hm key)|done|]. simpl.
    eexists. split; [done|]. split; [by apply map_Forall_insert_2|]. split.
    + intros x. by rewrite lookup_insert_eq.
    + intros k Hk. by rewrite lookup_insert_ne.
  - eexists. split; [done|]. split; [by apply map_Forall_insert_2|]. split.
    + intros x. by rewrite lookup_insert_eq.
    + intros k Hk. by rewrite lookup_insert_ne.
Qed.

Lemma apply_layer_spec key m e :
  ops_ok m → opt_ok e →
  ∃ e', apply_layer key m e = Ok e' ∧ opt_ok e' ∧ view <$> e' = layer m key (view <$> e).
Proof.
  intros Hm He. unfold apply_layer, layer. destruct (m !! key) as [op|] eqn:Ek; [|by eauto].
  destruct (apply_to_spec op e) as (e' & -> & ? & ?); [by apply (Hm key)|done|]. simpl. eauto.
Qed.

End Ops.

#[export] Hint Resolve ops_ok_empty : caches.

Lemma btree_iter_elem {A} (m : gmap EntityKey A) k x : (k, x) ∈ btree_iter m ↔ m !! k = Some x.
Proof. unfold btree_iter. rewrite merge_sort_Permutation. apply elem_of_map_to_list. Qed.

Lemma btree_keys_elem (s : gset EntityKey) k : k ∈ btree_keys s ↔ k ∈ s.
Proof. unfold btree_keys. rewrite merge_sort_Permutation. apply elem_of_elements. Qed.

Lemma entity_validate_no_panic `{InputSchema} e key : entity_validate e key ≠ Panic.
Proof.
  unfold entity_validate. destruct (is_poi _); [done|]. destruct (object_type _) as [fields|]; [|done].
  induction fields as [|f fields IH]; simpl; [done|]. destruct (validate_field e key f) as [[]| |] eqn:Ef; simpl; [done..|].
  revert Ef. unfold validate_field. destruct (entity_get e (field_name f)) as [v|], (is_derived f); try done.
  - destruct (if is_list _ then _ else _) as [[]| |] eqn:Ev; simpl; [by destruct (negb _)|done|]. revert Ev.
    destruct (is_list _); [|done]. destruct v as [| | | | | |vs| | |]; try done.
    destruct (validate_elts_err key f (VList vs) vs 0) as [->|(? & ? & _ & _ & ->)]; done.
  - by destruct (is_non_null _).
Qed.

(** ** What handlers see

    [bv_block] is the state after the handlers that have ended, and
    [bv_handler] what the running handler has made of it. *)

Record BlockView := mkBlockView {
  bv_block : gmap EntityKey View;
  bv_handler : option (gmap EntityKey View);
}.

Definition bv_now (s : BlockView) : gmap EntityKey View := default (bv_block s) (bv_handler s).

Definition bv_write (f : gmap EntityKey View → gmap EntityKey View) (s : BlockView) : BlockView :=
  match bv_handler s with
  | Some h => mkBlockView (bv_block s) (Some (f h))
  | None => mkBlockView (f (bv_block s)) None
  end.

Definition bv_set (key : EntityKey) (e : Entity) : BlockView → BlockView :=
  bv_write (λ m, <[key := null_merge (default ∅ (m !! key)) (change e)]> m).
Definition bv_remove (key : EntityKey) : BlockView → BlockView := bv_write (delete key).

(** What a cache relies on in the store: it has the entities [base] for as
    long as the block is processed. *)
Class ReadStoreSpec `{ReadStore} (P : ArcPool) (base : gmap EntityKey Entity) := {
  rs_get_spec k : rs_get k = Ok (base !! k);
  rs_get_many_spec ks : rs_get_many ks = Ok (filter (λ kv, kv.1 ∈ ks) base);
  rs_get_derived_spec query : rs_get_derived query = Ok (filter (λ kv, derived_matches query kv.1 kv.2 = true) base);
  rs_entities : map_Forall (λ _, ent_ok P) base;
}.

Section Cache.
  Context {Q : Type} `{PQ : !PriorityQueue EntityKey (option Entity) Q}.
  Context `{PQS : !PriorityQueueSpec EntityKey (option Entity) Q} `{AR : Arithmetic}.
  Context `{CC : !CacheConfig EntityKey (option Entity)} `{IS : InputSchema} `{RS : ReadStore} `{HO : HashOrder} `{CE : CacheEnv}.
  Context (P : ArcPool) (base : gmap EntityKey Entity) `{RSS : !ReadStoreSpec P base}.
  Hypothesis Hweight : ∀ (k : EntityKey) (v : option Entity), 0 ≤ entry_weight k v.
  Implicit Types (c : EntityCache Q) (l : LfuCache Q) (w : World Q).

Abbreviation lmap := (lfu_map (K := EntityKey) (V := option Entity) (Q := Q)).
Abbreviation lwf := (lfu_wf (K := EntityKey) (V := option Entity) (Q := Q)).

(** The frequency cache has what [state] says about the keys that are in it. *)
Definition lfu_ok (state : EntityKey → option View) l : Prop :=
  lwf l ∧ dead_weight l = false ∧
  ∀ k v, lmap l !! k = Some v → opt_ok P v ∧ view <$> v = state k.

Definition store_view (k : EntityKey) : option View := view <$> base !! k.

(** What is in the store, as [bv_block] *)
Definition store_views : gmap EntityKey View := view <$> base.

Definition cache_ok c : Prop :=
  lfu_ok store_view (current c) ∧ ops_ok P (updates c) ∧ ops_ok P (handler_updates c) ∧
  (in_handler c = false → handler_updates c = ∅).

Ltac cache_ok := unfold cache_ok; cbn [current updates handler_updates in_handler set_current set_updates set_handler_updates set_in_handler]; split_and!.

(** [s] is what the layers of the cache make of the entities [init]. *)
Definition sim (init : EntityKey → option View) c (s : BlockView) : Prop :=
  (∀ k, bv_block s !! k = layer (updates c) k (init k)) ∧
  match bv_handler s with
  | Some h => in_handler c = true ∧ ∀ k, h !! k = layer (handler_updates c) k (bv_block s !! k)
  | None => in_handler c = false
  end.

Lemma sim_now init c s k :
  cache_ok c → sim init c s → layer (handler_updates c) k (layer (updates c) k (init k)) = bv_now s !! k.
Proof.
  intros (_ & _ & _ & Hh) [Hb Hs]. unfold bv_now. rewrite <-Hb. destruct (bv_handler s) as [h|]; simpl.
  - destruct Hs as [_ Hs]. by rewrite Hs.
  - rewrite (Hh Hs). unfold layer. by rewrite lookup_empty.
Qed.

Lemma sim_in_handler init c s : sim init c s → in_handler c = bool_decide (is_Some (bv_handler s)).
Proof. intros [_ Hs]. destruct (bv_handler s); simpl in *; [by destruct Hs|done]. Qed.

(** *** Writing *)

Lemma entity_op_sim {E} key op f c :
  cache_ok c → op_ok P op →
  (∀ m : gmap EntityKey View, f m !! key = sem op (m !! key)) →
  (∀ (m : gmap EntityKey View) k, k ≠ key → f m !! k = m !! k) →
  ∃ c', entity_op (E := E) key op c = (c', Ok tt) ∧ cache_ok c' ∧ current c' = current c ∧
    ∀ init s, sim init c s → sim init c' (bv_write f s).
Proof.
  intros (Hl & Hu & Hh & Hin) Hop Hk Hne. unfold entity_op.
  destruct (op_in_spec P key op (if in_handler c then handler_updates c else updates c)) as (m' & -> & Hm' & Hsem & Ho);
    [by destruct (in_handler c)|done|]. simpl. eexists. split; [done|].
  destruct (in_handler c) eqn:Ec; (split; [cache_ok; try done; rewrite Ec; (done || by auto)|]); (split; [done|]); intros init s [Hb Hs];
    unfold sim, bv_write; destruct (bv_handler s) as [h|]; simpl; try congruence; try (destruct Hs; congruence).
  - destruct Hs as [_ Hs]. split; [done|]. split; [done|]. intros k. unfold layer.
    destruct (decide (k = key)) as [-> |Hkk]; [rewrite Hk, Hs; symmetry; apply Hsem|].
    by rewrite Ho, Hne, Hs by done.
  - split; [|done]. intros k. destruct (decide (k = key)) as [-> |Hkk]; [rewrite Hk, Hb; symmetry; apply Hsem|].
    unfold layer. by rewrite Ho, Hne, Hb by done.
Qed.

Lemma remove_sim {E} key c :
  cache_ok c →
  ∃ c', cache_remove (E := E) key c = (c', Ok tt) ∧ cache_ok c' ∧ current c' = current c ∧
    ∀ init s, sim init c s → sim init c' (bv_remove key s).
Proof.
  intros Hc. apply entity_op_sim; [done..|by intros m; rewrite lookup_delete_eq|by intros; apply lookup_delete_ne].
Qed.

Lemma update_sim {E} key e u c :
  cache_ok c → ent_ok P u → change u = change e →
  ∃ c', entity_op (E := E) key (CacheUpdate u) c = (c', Ok tt) ∧ cache_ok c' ∧ current c' = current c ∧
    ∀ init s, sim init c s → sim init c' (bv_set key e s).
Proof.
  intros Hc Hu He. apply entity_op_sim; [done..| |by intros; apply lookup_insert_ne].
  intros m. simpl. by rewrite lookup_insert_eq, He.
Qed.

(** *** Handlers *)

Lemma ops_sim {E} (ops : list (EntityKey * CacheOp)) c :
  cache_ok c → in_handler c = false → NoDup ops.*1 → Forall (λ kop, op_ok P kop.2) ops →
  ∃ c', st_for (λ kop, entity_op (E := E) kop.1 kop.2) ops c = (c', Ok tt) ∧ cache_ok c' ∧ in_handler c' = false ∧
    current c' = current c ∧
    ∀ k x, layer (updates c') k x = layer (list_to_map ops) k (layer (updates c) k x).
Proof.
  revert c. induction ops as [|[key op] ops IH]; intros c Hc Hin Hnd Hok.
  { exists c. split; [done|]. do 3 (split; [done|]). intros k x. done. }
  apply NoDup_cons in Hnd as [Hkey Hnd]. apply Forall_cons in Hok as [Hop Hok]. simpl in *.
  destruct Hc as (Hl & Hu & Hh & He). unfold mbind, st_bind, entity_op at 1. rewrite Hin.
  destruct (op_in_spec P key op (updates c) Hu Hop) as (m' & -> & Hm' & Hsem & Ho).
  destruct (IH (set_updates m' c)) as (c' & -> & Hc' & Hin' & Hcur & Hlay); [by cache_ok|done..|].
  exists c'. split; [done|]. do 3 (split; [done|]). intros k x. rewrite Hlay. simpl.
  destruct (decide (k = key)) as [-> |Hne].
  - rewrite Hsem. unfold layer at 1 3. rewrite lookup_insert_eq.
    by rewrite (not_elem_of_list_to_map_1 (M := gmap EntityKey) ops key Hkey).
  - unfold layer. by rewrite lookup_insert_ne, Ho by done.
Qed.

Lemma hash_iter_keys {A} (m : gmap EntityKey A) : NoDup (hash_iter m).*1.
Proof. rewrite hash_iter_perm. apply NoDup_fst_map_to_list. Qed.

Lemma hash_iter_map {A} (m : gmap EntityKey A) : list_to_map (hash_iter m) = m.
Proof. rewrite <-(list_to_map_to_list m) at 2. apply list_to_map_proper; [apply hash_iter_keys|apply hash_iter_perm]. Qed.

Lemma hash_iter_ops m : ops_ok P m → Forall (λ kop, op_ok P kop.2) (hash_iter m).
Proof.
  intros Hm. rewrite hash_iter_perm. apply Forall_forall. intros [k op] Hk. apply elem_of_map_to_list in Hk. by apply (Hm k).
Qed.

Lemma exit_sim {E} c :
  cache_ok c → in_handler c = true →
  ∃ c', exit_handler (E := E) c = (c', Ok tt) ∧ cache_ok c' ∧ current c' = current c ∧
    ∀ init m h, sim init c (mkBlockView m (Some h)) → sim init c' (mkBlockView h None).
Proof.
  intros (Hl & Hu & Hh & He) Hin. unfold exit_handler. rewrite Hin.
  destruct (ops_sim (E := E) (hash_iter (handler_updates c)) (set_handler_updates ∅ (set_in_handler false c)))
    as (c' & -> & Hc' & Hin' & Hcur & Hlay); [|done|apply hash_iter_keys|by apply hash_iter_ops|].
  { cache_ok; [done..|auto with caches|done]. }
  exists c'. split; [done|]. split; [done|]. split; [done|]. intros init m h [Hb [_ Hs]]. simpl in *.
  split; [|done]. intros k. simpl. rewrite Hlay, hash_iter_map. simpl. by rewrite Hs, Hb.
Qed.

Lemma enter_sim {E} c :
  cache_ok c → in_handler c = false →
  ∃ c', enter_handler (E := E) c = (c', Ok tt) ∧ cache_ok c' ∧ current c' = current c ∧
    ∀ init m, sim init c (mkBlockView m None) → sim init c' (mkBlockView m (Some m)).
Proof.
  intros (Hl & Hu & Hh & He) Hin. unfold enter_handler. rewrite Hin. eexists. split; [done|]. split; [by cache_ok|].
  split; [done|]. intros init m [Hb _]. split; [done|]. simpl. split; [done|]. intros k. rewrite He by done.
  unfold layer. by rewrite lookup_empty.
Qed.

Lemma discard_sim {E} c :
  cache_ok c → in_handler c = true →
  ∃ c', exit_handler_and_discard_changes (E := E) c = (c', Ok tt) ∧ cache_ok c' ∧ current c' = current c ∧
    ∀ init m h, sim init c (mkBlockView m (Some h)) → sim init c' (mkBlockView m None).
Proof.
  intros (Hl & Hu & Hh & He) Hin. unfold exit_handler_and_discard_changes. rewrite Hin. eexists. split; [done|].
  split; [cache_ok; [done..|auto with caches|done]|]. split; [done|]. intros init m h [Hb _]. by split.
Qed.

(** *** Reading *)

Lemma insert_current_ok {E} state key v c :
  lfu_ok state (current c) → opt_ok P v → view <$> v = state key →
  ∃ l, insert_current (E := E) key v c = (set_current l c, Ok tt) ∧ lfu_ok state l ∧
    lmap l = <[key := v]> (lmap (current c)).
Proof.
  intros (Hwf & Hd & Hs) Hv Hview. unfold insert_current.
  destruct (lfu_insert_spec (E := E) Hweight (current c) key v Hwf) as (l & Hi & Hwf' & Hm).
  rewrite Hi. exists l. split; [done|]. split; [|done]. split; [done|]. split; [by rewrite (lfu_insert_dead_weight _ _ _ _ Hi)|].
  intros k x. rewrite Hm. destruct (decide (key = k)) as [<- |Hne].
  - rewrite lookup_insert_eq. by intros [= <-].
  - rewrite lookup_insert_ne by done. apply Hs.
Qed.

Lemma get_current_ok {E} state key v c :
  lfu_ok state (current c) → lmap (current c) !! key = Some v →
  ∃ l, get_current (E := E) key c = (set_current l c, Ok v) ∧ lfu_ok state l ∧ opt_ok P v ∧ view <$> v = state key.
Proof.
  intros (Hwf & Hd & Hs) Hk. unfold get_current. destruct (lfu_get_spec (current c) key Hwf) as (Hv & Hwf' & Hm).
  pose proof (lfu_get_dead_weight (current c) key) as Hd'. destruct (lfu_get key (current c)) as [l x]. simpl in *.
  rewrite Hv, Hk. exists l. split; [done|]. split; [|by apply Hs]. split; [done|]. split; [congruence|].
  intros k y. rewrite Hm. apply Hs.
Qed.

(** The value that a read starts from *)
Definition from_store (key : EntityKey) : st (EntityCache Q) StoreError (option Entity) :=
  c ← st_get;
  _ ← (if lfu_contains_key key (current c) then mret tt
       else entity ← lift (rs_get key); insert_current key entity);
  get_current key.

Lemma from_store_ok key c :
  cache_ok c →
  ∃ v l, from_store key c = (set_current l c, Ok v) ∧ lfu_ok store_view l ∧ opt_ok P v ∧ view <$> v = store_view key.
Proof.
  intros (Hl & _). unfold from_store, mbind, st_bind, st_get. rewrite lfu_contains_spec.
  case_bool_decide as Hin; simpl.
  - destruct Hin as [v Hv]. unfold mret, st_ret. destruct (get_current_ok (E := StoreError) store_view key v c Hl Hv) as (l & -> & ? & ?). eauto.
  - unfold lift. rewrite rs_get_spec. simpl.
    destruct (insert_current_ok (E := StoreError) store_view key (base !! key) c Hl) as (l & -> & Hl' & Hm); [|done|].
    { destruct (base !! key) eqn:Eb; [|done]. by apply (rs_entities (P := P) (base := base) key). }
    destruct (get_current_ok (E := StoreError) store_view key (base !! key) (set_current l c)) as (l' & -> & ? & ?); [done| |eauto].
    cbn [current set_current]. by rewrite Hm, lookup_insert_eq.
Qed.

Lemma set_current_ok l c : cache_ok c → lfu_ok store_view l → cache_ok (set_current l c).
Proof. intros (_ & ? & ? & ?) Hl. by cache_ok. Qed.

#[local] Hint Resolve set_current_ok : caches.

Lemma cache_get_ok key scope c :
  cache_ok c →
  ∃ v l, cache_get key scope c = (set_current l c, Ok v) ∧ lfu_ok store_view l ∧ opt_ok P v ∧
    view <$> v = layer (handler_updates c) key (layer (updates c) key (match scope with ScopeStore => store_view key | InBlock => None end)).
Proof.
  intros Hc. pose proof Hc as (Hl & Hu & Hh & _).
  assert (∃ v l, (match scope with ScopeStore => from_store key | InBlock => mret None end) c = (set_current l c, Ok v) ∧
    lfu_ok store_view l ∧ opt_ok P v ∧ view <$> v = match scope with ScopeStore => store_view key | InBlock => None end)
    as (v & l & Hfrom & Hl' & Hv & Hview).
  { destruct scope; [by apply from_store_ok|]. exists None, (current c). by destruct c. }
  unfold cache_get. fold (from_store key). unfold mbind at 1, st_bind at 1. rewrite Hfrom. st_run. cbn [updates set_current].
  destruct (apply_layer_spec P key (updates c) v Hu Hv) as (v1 & -> & Hv1 & Hview1). cbn [handler_updates set_current].
  destruct (apply_layer_spec P key (handler_updates c) v1 Hh Hv1) as (v2 & -> & Hv2 & Hview2).
  exists v2, l. split; [done|]. split; [done|]. split; [done|]. by rewrite Hview2, Hview1, Hview.
Qed.

(** *** [set] *)

(** An entity that a handler may set *)
Definition ent_new (e : Entity) : Prop := ent_ok P e ∧ obj_map e !! VID_FIELD = None.

(** [sim] for the two states that the specification has *)
Definition sims c (s n : BlockView) : Prop := sim store_view c s ∧ sim (λ _, None) c n.

Lemma set_new_vid_ok key e vid :
  is_Some (pool_lookup (arc_pool P) VID_FIELD) → ent_new e →
  ∃ e', set_new_vid key e vid = Ok e' ∧ ent_ok P e' ∧ change e' = change e ∧ obj_map e' !! VID_FIELD = Some (VInt8 vid).
Proof.
  intros [a Ha] [[Hwf Hp] Hnone]. unfold set_new_vid, entity_set_vid.
  pose proof (obj_insert_spec e VID_FIELD (VInt8 vid) Hwf) as Hi. rewrite Hp, Ha in Hi.
  destruct Hi as (e' & -> & Hwf' & Hp' & Hm). rewrite Hnone. exists e'. split; [done|]. split; [split; congruence|].
  unfold change, visible. rewrite Hm, lookup_insert_eq. split; [by apply delete_insert_eq|done].
Qed.

Lemma bv_write_now f s : bv_now (bv_write f s) = f (bv_now s).
Proof. unfold bv_now, bv_write. by destruct (bv_handler s). Qed.

(** What remains of [set] once the entity has its vid *)
Lemma set_rest_ok key e u w s n :
  cache_ok (w_cache w) → sims (w_cache w) s n → ent_ok P u → change u = change e →
  ∃ c' r, (_ ← on_cache id (entity_op key (CacheUpdate u));
           if is_ok (entity_validate e key) then mret tt
           else
             entity ← on_cache SetStoreError (cache_get key ScopeStore);
             entity ← lift (ok_or entity (FailedToReadBack key));
             lift (map_err SetValidationError (entity_validate entity key))) w =
      (mkWorld (w_seq w) (w_capacity w) c', r) ∧
    cache_ok c' ∧ sims c' (bv_set key e s) (bv_set key e n) ∧
    (r = Ok tt ∨ entity_validate e key ≠ Ok tt ∧ ∃ err, r = Err (SetValidationError err)).
Proof.
  intros Hc [Hs Hn] Hu Hch. unfold mbind at 1, st_bind at 1. unfold on_cache at 1.
  destruct (update_sim (E := SetError) key e u (w_cache w) Hc Hu Hch) as (c1 & -> & Hc1 & _ & Hsim). cbn [map_err id].
  destruct (is_ok (entity_validate e key)) eqn:Eok.
  { exists c1, (Ok tt). split; [done|]. split; [done|]. split; [by split; apply Hsim|by left]. }
  destruct (cache_get_ok key ScopeStore c1 Hc1) as (v & l & Hg & Hl & Hv & Hview).
  assert (is_Some v) as [x ->].
  { rewrite (sim_now store_view c1 (bv_set key e s)) in Hview by (done || by apply Hsim).
    unfold bv_set in Hview. rewrite bv_write_now, lookup_insert_eq in Hview. destruct v; [done|discriminate]. }
  st_run. unfold on_cache. cbn [w_cache]. rewrite Hg. cbn [map_err ok_or w_seq w_capacity].
  exists (set_current l c1), (map_err SetValidationError (entity_validate x key)).
  split; [done|]. split; [by auto with caches|]. split; [by split; apply Hsim|].
  destruct (entity_validate x key) as [[]|err|] eqn:Ex; [by left| |by apply entity_validate_no_panic in Ex]. right. split; [|by eexists].
  intros He. by rewrite He in Eok.
Qed.

Definition no_overflow w : Prop := w_capacity w = None ∨ overflow_checks = false.

Lemma take_capacity_ok key e w :
  no_overflow w →
  ∃ cap, take_capacity key e w = (mkWorld (w_seq w) cap (w_cache w), Ok tt) ∧ (cap = None ∨ overflow_checks = false) ∨
  take_capacity key e w = (w, Err (ExceededWriteLimit (entity_id key))).
Proof.
  intros Hno. unfold take_capacity. destruct w as [g [cap|] c]; simpl in *; [|eexists; left; eauto].
  destruct Hno as [?|Hno]; simpl in *; [done|]. destruct (negb _ && _); [exists None; by right|].
  unfold usize_sub. rewrite Hno. destruct (_ <=? cap); eexists; left; eauto.
Qed.

Lemma cache_set_ok key e w s n :
  is_Some (pool_lookup (arc_pool P) VID_FIELD) → cache_ok (w_cache w) → sims (w_cache w) s n → ent_new e → no_overflow w →
  ∃ w' r, cache_set key e w = (w', r) ∧ cache_ok (w_cache w') ∧ no_overflow w' ∧
    ((r = Err (ExceededWriteLimit (entity_id key)) ∧ sims (w_cache w') s n) ∨
     ((r = Ok tt ∨ entity_validate e key ≠ Ok tt ∧ ∃ err, r = Err (SetValidationError err)) ∧
      sims (w_cache w') (bv_set key e s) (bv_set key e n))).
Proof.
  intros Hvid Hc Hs He Hno. unfold cache_set.
  destruct (take_capacity_ok key e w Hno) as [cap [[Ht Hno'] | Ht]]; unfold mbind at 1, st_bind at 1; rewrite Ht;
    [|eexists _, _; split; [done|]; split; [done|]; split; [done|by left]].
  unfold mbind at 1, st_bind at 1. unfold next_vid. cbn [w_seq]. destruct (seq_vid (w_seq w)) as [g vid] eqn:Eg.
  destruct (set_new_vid_ok key e vid Hvid He) as (u & Hu & Huok & Hch & _).
  unfold mbind at 1, st_bind at 1. unfold lift at 1. rewrite Hu. cbn [w_capacity w_cache].
  destruct (set_rest_ok key e u (mkWorld g cap (w_cache w)) s n Hc Hs Huok Hch) as (c' & r & -> & Hc' & Hs' & Hr).
  eexists _, r. split; [done|]. split; [done|]. split; [done|]. by right.
Qed.

End Cache.

#[export] Hint Resolve set_current_ok hash_iter_keys : caches.
