(* ===== verification/DerivedFacts.v ===== *)
(** * Derived fields

    What [EntityCache::load_related] returns, in terms of what handlers see:
    exactly the entities that match, except that an entity which the query did
    not find at the start of the block is taken without what the store has. *)

From Stdlib Require Import ZArith Lia ZifyBool.
From stdpp Require Import base gmap list strings sorting fin_maps.
From S2P Require Import Prelude Values Intern InternFacts Entity EntityFacts Write Relational LfuCache LfuFacts.
From S2P Require Import EntityCache EntityCacheFacts.

Local Open Scope Z_scope.

(** [DerivedEntityQuery::matches] on what is visible of an entity *)
Definition view_matches (query : DerivedEntityQuery) (key : EntityKey) (x : View) : bool :=
  bool_decide (entity_type key = dq_entity_type query) &&
  (causality_region key =? dq_causality_region query) &&
  match x !! dq_entity_field query with Some v => id_eq_value (dq_value query) v | None => false end.

(** Whether the store with the content [B] returns [key] *)
Definition found_in (B : gmap EntityKey View) (query : DerivedEntityQuery) (key : EntityKey) : bool :=
  match B !! key with Some x => view_matches query key x | None => false end.

(** What [load_related] returns: [s] is what handlers see, and [n] what the
    changes of the block make of an empty store. *)
Definition related_views (B : gmap EntityKey View) (query : DerivedEntityQuery) (s n : BlockView) : gmap EntityKey View :=
  filter (λ kx, view_matches query kx.1 kx.2 = true)
    (filter (λ kx, found_in B query kx.1 = true) (bv_now s) ∪ filter (λ kx, found_in B query kx.1 = false) (bv_now n)).

Lemma derived_matches_view query key e : obj_wf e → derived_matches query key e = view_matches query key (view e).
Proof.
  intros Hwf. unfold derived_matches, view_matches. f_equal. unfold view, visible, entity_get. rewrite strip_nulls_lookup.
  destruct (decide (dq_entity_field query = VID_FIELD)) as [-> |Hne]; [by rewrite lookup_delete_eq|].
  rewrite lookup_delete_ne, obj_map_lookup by (done || apply Hwf).
  destruct (obj_get e (dq_entity_field query)) as [[]|]; try done. by destruct (dq_value query).
Qed.

Lemma matching_lookup query (m : gmap EntityKey View) k :
  filter (λ kx, view_matches query kx.1 kx.2 = true) m !! k =
  (x ← m !! k; if view_matches query k x then Some x else None).
Proof. rewrite map_lookup_filter. destruct (m !! k) as [x|]; simpl; [|done]. by destruct (view_matches query k x). Qed.

Lemma related_views_lookup B query s n k :
  related_views B query s n !! k =
  (x ← bv_now (if found_in B query k then s else n) !! k; if view_matches query k x then Some x else None).
Proof.
  unfold related_views. rewrite matching_lookup, lookup_union, !map_lookup_filter. f_equal. cbn [fst].
  destruct (found_in B query k), (bv_now s !! k), (bv_now n !! k); done.
Qed.

Lemma omap_lookup_perm {A} (m : gmap EntityKey A) ks :
  NoDup ks → dom m ⊆ list_to_set ks → omap (m !!.) ks ≡ₚ (map_to_list m).*2.
Proof.
  intros Hnd Hdom. trans ((omap (λ k, (k,.) <$> m !! k) ks).*2).
  { clear Hnd Hdom. induction ks as [|k ks IH]; simpl; [done|]. destruct (m !! k); simpl; by rewrite IH. }
  apply fmap_Permutation, NoDup_Permutation; [|apply NoDup_map_to_list|].
  - apply (NoDup_fmap_1 fst). eapply sublist_NoDup; [exact Hnd|]. clear. induction ks as [|k ks IH]; simpl; [done|].
    destruct (m !! k); simpl; by constructor.
  - intros [k x]. rewrite list_elem_of_omap, elem_of_map_to_list. split.
    + intros (k' & _ & (y & ? & [= -> ->])%fmap_Some). done.
    + intros Hk. exists k. split; [|by rewrite Hk]. apply elem_of_dom_2 in Hk. set_solver.
Qed.

Section Derived.
  Context {Q : Type} `{PQ : !PriorityQueue EntityKey (option Entity) Q}.
  Context `{PQS : !PriorityQueueSpec EntityKey (option Entity) Q} `{AR : Arithmetic}.
  Context `{CC : !CacheConfig EntityKey (option Entity)} `{IS : InputSchema} `{RS : ReadStore} `{HO : HashOrder} `{CE : CacheEnv}.
  Context (P : ArcPool) (base : gmap EntityKey Entity) `{RSS : !ReadStoreSpec P base}.
  Hypothesis Hweight : ∀ (k : EntityKey) (v : option Entity), 0 ≤ entry_weight k v.
  Implicit Types (c : EntityCache Q) (w : World Q) (s n : BlockView).

(** The entity that [load_related] takes for the state of [key] *)
Definition resolve (stored : gmap EntityKey Entity) c (key : EntityKey) : option Entity :=
  match apply_layer key (updates c) (stored !! key) with
  | Ok v => match apply_layer key (handler_updates c) v with Ok v => v | _ => None end
  | _ => None
  end.

Definition pick (query : DerivedEntityQuery) (stored : gmap EntityKey Entity) c (key : EntityKey) : option Entity :=
  e ← resolve stored c key; if derived_matches query key e then Some e else None.

Lemma resolve_ok stored c key :
  ops_ok P (updates c) → ops_ok P (handler_updates c) → map_Forall (λ _, ent_ok P) stored →
  (v ← apply_layer key (updates c) (stored !! key); apply_layer key (handler_updates c) v) = Ok (resolve stored c key) ∧
  opt_ok P (resolve stored c key) ∧
  view <$> resolve stored c key = layer (handler_updates c) key (layer (updates c) key (view <$> stored !! key)).
Proof.
  intros Hu Hh Hst. unfold resolve.
  destruct (apply_layer_spec P key (updates c) (stored !! key) Hu) as (v1 & -> & Hv1 & Hview1).
  { destruct (stored !! key) eqn:Es; [by apply (Hst key)|done]. }
  destruct (apply_layer_spec P key (handler_updates c) v1 Hh Hv1) as (v2 & H2 & Hv2 & Hview2). simpl.
  rewrite H2. split; [done|]. split; [done|]. by rewrite Hview2, Hview1.
Qed.

Lemma related_ok query stored c keys :
  ops_ok P (updates c) → ops_ok P (handler_updates c) → map_Forall (λ _, ent_ok P) stored →
  related query stored c keys = Ok (omap (pick query stored c) keys).
Proof.
  intros Hu Hh Hst. induction keys as [|key keys IH]; [done|]. cbn [related omap list_omap].
  destruct (resolve_ok stored c key Hu Hh Hst) as (Hr & _). unfold pick at 1.
  destruct (apply_layer key (updates c) (stored !! key)) as [v1| |]; simpl in Hr |- *; try done.
  rewrite Hr, IH. simpl. destruct (resolve stored c key) as [e|]; simpl; [|done]. by destruct (derived_matches query key e).
Qed.

Lemma remember_all_ok {E} kvs c :
  cache_ok P base c → (∀ k e, (k, e) ∈ kvs → base !! k = Some e) →
  ∃ l, st_for (remember (E := E)) kvs c = (set_current l c, Ok tt) ∧ lfu_ok P (store_view base) l.
Proof.
  revert c. induction kvs as [|[k e] kvs IH]; intros c Hc Hin; simpl.
  { exists (current c). split; [by destruct c|]. apply Hc. }
  unfold mbind, st_bind, remember at 1. cbn [fst snd]. destruct (lfu_contains_key k (current c)).
  { apply IH; [done|]. intros; apply Hin; by right. }
  assert (base !! k = Some e) as Hk by (apply Hin; left).
  destruct (insert_current_ok (E := E) P Hweight (store_view base) k (Some e) c) as (l & -> & Hl & _);
    [apply Hc|by apply (rs_entities (P := P) (base := base) k)|unfold store_view; by rewrite Hk|].
  destruct (IH (set_current l c)) as (l' & -> & Hl'); [by auto with caches|intros; apply Hin; by right|]. by exists l'.
Qed.

(** What the store returns for the query of a derived field *)
Definition stored_for (query : DerivedEntityQuery) : gmap EntityKey Entity :=
  filter (λ kv, derived_matches query kv.1 kv.2 = true) base.

Lemma stored_for_ok query : map_Forall (λ _, ent_ok P) (stored_for query).
Proof. intros k e [Hk _]%map_lookup_filter_Some. by apply (rs_entities (P := P) (base := base) k). Qed.

Definition query_of (eref : LoadRelatedRequest) (t : EntityType) (f : Field) : DerivedEntityQuery :=
  mkDerivedEntityQuery t (field_name f) (lr_entity_id eref) (lr_causality_region eref).

Lemma load_related_ok eref t f c :
  cache_ok P base c → get_field_related eref = Ok (t, f) →
  ∃ l, load_related eref c =
      (set_current l c,
       Ok (omap (pick (query_of eref t f) (stored_for (query_of eref t f)) c)
             (btree_keys (candidates (query_of eref t f) (stored_for (query_of eref t f)) c)))) ∧
    lfu_ok P (store_view base) l.
Proof.
  intros Hc Hf. unfold load_related, mbind, st_bind, lift, st_get. rewrite Hf. fold (query_of eref t f).
  rewrite (rs_get_derived_spec (P := P) (base := base)). fold (stored_for (query_of eref t f)). cbn [map_err].
  destruct (remember_all_ok (E := RelatedError) (btree_iter (stored_for (query_of eref t f))) c Hc) as (l & -> & Hl).
  { intros k e Hk%btree_iter_elem. by apply map_lookup_filter_Some in Hk as [? _]. }
  rewrite related_ok; [|apply Hc|apply Hc|apply stored_for_ok]. by exists l.
Qed.

Lemma found_stored query k :
  view <$> stored_for query !! k = (if found_in (store_views base) query k then store_view base k else None) ∧
  (found_in (store_views base) query k = true ↔ is_Some (stored_for query !! k)).
Proof.
  unfold stored_for, found_in, store_views, store_view. rewrite map_lookup_filter, lookup_fmap.
  destruct (base !! k) as [e|] eqn:Hk; simpl; [|by rewrite is_Some_alt].
  rewrite derived_matches_view by apply (rs_entities (P := P) (base := base) k e Hk).
  destruct (view_matches query k (view e)); [rewrite option_guard_True by done|rewrite option_guard_False by done];
    by rewrite is_Some_alt.
Qed.

Lemma pick_view query c s n k :
  cache_ok P base c → sims base c s n →
  view <$> pick query (stored_for query) c k = related_views (store_views base) query s n !! k.
Proof.
  intros Hc [Hs Hn]. rewrite related_views_lookup. unfold pick.
  destruct (resolve_ok (stored_for query) c k) as (_ & Hok & Hview); [apply Hc|apply Hc|apply stored_for_ok|].
  rewrite (proj1 (found_stored query k)) in Hview.
  assert (view <$> resolve (stored_for query) c k = bv_now (if found_in (store_views base) query k then s else n) !! k) as <-.
  { rewrite Hview. destruct (found_in _ _ _); [by apply (sim_now P base (store_view base))|by apply (sim_now P base (λ _, None))]. }
  destruct (resolve (stored_for query) c k) as [e|]; simpl; [|done]. rewrite <-derived_matches_view by apply Hok.
  by destruct (derived_matches query k e).
Qed.

(** An entity that is returned is one of the candidates. *)
Lemma picked_candidate query c k e :
  pick query (stored_for query) c k = Some e → k ∈ candidates query (stored_for query) c.
Proof.
  unfold pick, candidates. intros (x & Hx & Hm)%bind_Some. apply elem_of_union. destruct (stored_for query !! k) as [y|] eqn:Hk.
  { left. apply elem_of_dom. eauto. }
  destruct (derived_matches query k x) eqn:Hd; [|done]. unfold derived_matches in Hd. apply andb_prop in Hd as [Hd _].
  apply andb_prop in Hd as [Ht%bool_decide_eq_true Hr]. right. apply elem_of_filter. split; [split; [done|lia]|].
  apply elem_of_union. rewrite !elem_of_dom. unfold resolve, apply_layer in Hx. rewrite Hk in Hx.
  destruct (updates c !! k); [left; eauto|]. destruct (handler_updates c !! k); [right; eauto|done].
Qed.

Lemma load_related_views eref t f c s n :
  cache_ok P base c → sims base c s n → get_field_related eref = Ok (t, f) →
  ∃ l es, load_related eref c = (set_current l c, Ok es) ∧ lfu_ok P (store_view base) l ∧
    view <$> es ≡ₚ (map_to_list (related_views (store_views base) (query_of eref t f) s n)).*2.
Proof.
  intros Hc Hs Hf. destruct (load_related_ok eref t f c Hc Hf) as (l & -> & Hl). set (query := query_of eref t f).
  eexists l, _. split; [done|]. split; [done|]. rewrite list_fmap_omap.
  rewrite (list_omap_ext _ (related_views (store_views base) query s n !!.) _ (btree_keys (candidates query (stored_for query) c)));
    [|apply Forall_Forall2_diag, Forall_forall; intros k _; by apply pick_view].
  apply omap_lookup_perm.
  - unfold btree_keys. rewrite merge_sort_Permutation. apply NoDup_elements.
  - intros k Hk. apply elem_of_list_to_set, btree_keys_elem. apply elem_of_dom in Hk as [x Hk].
    rewrite <-(pick_view query c s n k Hc Hs) in Hk. apply fmap_Some in Hk as (e & Hk & _). by eapply picked_candidate.
Qed.

Lemma untouched_now c init v k :
  cache_ok P base c → sim init c v → updates c !! k = None → handler_updates c !! k = None → bv_now v !! k = init k.
Proof. intros Hc Hs Hu Hh. rewrite <-(sim_now P base init c v k Hc Hs). unfold layer. by rewrite Hu, Hh. Qed.

(** C39: when every entity of the type in question that is in the store and
    that the block has touched was found by the query at the start of the
    block, then the entities that [load_related] returns are exactly the
    entities that match the query in the state that handlers see. *)
Theorem load_related_spec eref t f c s n :
  cache_ok P base c → sims base c s n → get_field_related eref = Ok (t, f) →
  (∀ k e, entity_type k = t → causality_region k = lr_causality_region eref → base !! k = Some e →
     is_Some (updates c !! k) ∨ is_Some (handler_updates c !! k) → derived_matches (query_of eref t f) k e = true) →
  ∃ c' es, load_related eref c = (c', Ok es) ∧
    view <$> es ≡ₚ (map_to_list (filter (λ kx, view_matches (query_of eref t f) kx.1 kx.2 = true) (bv_now s))).*2.
Proof.
  intros Hc Hs Hf Htouch. destruct (load_related_views eref t f c s n Hc Hs Hf) as (l & es & -> & _ & Hes).
  exists (set_current l c), es. split; [done|]. rewrite Hes. set (query := query_of eref t f) in *.
  enough (related_views (store_views base) query s n = filter (λ kx, view_matches query kx.1 kx.2 = true) (bv_now s)) as ->; [done|].
  apply map_eq. intros k.
  rewrite related_views_lookup, matching_lookup. destruct (found_in (store_views base) query k) eqn:Hfound; [done|]. destruct Hs as [Hs Hn].
  destruct (decide (entity_type k = t ∧ causality_region k = lr_causality_region eref)) as [[Ht Hr]|Hne].
  2: { assert (∀ x, view_matches query k x = false) as Hno.
       { intros x. unfold view_matches. simpl. apply andb_false_intro1, andb_false_iff. rewrite bool_decide_eq_false, Z.eqb_neq.
         destruct (decide (entity_type k = t)); tauto. }
       destruct (bv_now s !! k) as [x|], (bv_now n !! k) as [y|]; simpl; by rewrite ?Hno. }
  assert (base !! k = None ∨ ∃ e, base !! k = Some e ∧ view_matches query k (view e) = false) as [Hk|(e & Hk & Hm)].
  { unfold found_in, store_views in Hfound. rewrite lookup_fmap in Hfound. destruct (base !! k) as [e|]; [right; eauto|by left]. }
  - rewrite <-(sim_now P base _ c s k Hc Hs), <-(sim_now P base _ c n k Hc Hn). unfold store_view. by rewrite Hk.
  - assert (updates c !! k = None ∧ handler_updates c !! k = None) as [Hu Hh].
    { rewrite !eq_None_not_Some. pose proof (Htouch k e Ht Hr Hk) as Hd.
      rewrite derived_matches_view in Hd by apply (rs_entities (P := P) (base := base) k e Hk). fold query in Hd. rewrite Hm in Hd. naive_solver. }
    rewrite (untouched_now c _ s k Hc Hs Hu Hh), (untouched_now c _ n k Hc Hn Hu Hh). unfold store_view. rewrite Hk. simpl. by rewrite Hm.
Qed.

(** An entity that is in the store, that the query did not find at the
    start of the block, and that an update of the block makes match the query
    is returned by [load_related] as the update alone, without the attributes
    that it has in the store, while [get] returns it with all attributes. *)
Theorem load_related_partial eref t f c k e u :
  cache_ok P base c → get_field_related eref = Ok (t, f) →
  base !! k = Some e → derived_matches (query_of eref t f) k e = false →
  updates c !! k = Some (CacheUpdate u) → handler_updates c !! k = None → derived_matches (query_of eref t f) k u = true →
  (∃ c' res, load_related eref c = (c', Ok res) ∧ u ∈ res) ∧
  (∃ c' v, cache_get k ScopeStore c = (c', Ok (Some v)) ∧ view v = null_merge (view e) (change u)).
Proof.
  intros Hc Hf Hk Hno Hu Hh Hm. set (query := query_of eref t f) in *. split.
  - assert (pick query (stored_for query) c k = Some u) as Hp.
    { unfold pick, resolve, apply_layer. rewrite Hu, Hh. unfold stored_for. rewrite map_lookup_filter, Hk. simpl.
      rewrite option_guard_False by (simpl; congruence). simpl. by rewrite Hm. }
    destruct (load_related_ok eref t f c Hc Hf) as (l & Hload & _). eexists _, _. split; [exact Hload|].
    apply list_elem_of_omap. exists k. split; [|done]. apply btree_keys_elem. by eapply picked_candidate.
  - destruct (cache_get_ok P base Hweight k ScopeStore c Hc) as (v & l & Hg & _ & _ & Hview).
    unfold layer, store_view in Hview. rewrite Hu, Hh, Hk in Hview. simpl in Hview.
    destruct v as [v|]; [|done]. injection Hview as Hview. eauto.
Qed.

End Derived.
