(* ===== verification/CacheRuns.v ===== *)
(** * Runs of the entity cache

    Sequences of operations of handlers on the entity cache, their
    specification on finite maps, and the theorem that the cache implements
    it. *)

From Stdlib Require Import ZArith Lia ZifyBool.
From stdpp Require Import base gmap list strings sorting fin_maps.
From S2P Require Import Prelude Values Intern InternFacts Entity EntityFacts Write Relational LfuCache LfuFacts.
From S2P Require Import EntityCache EntityCacheFacts DerivedFacts.

Local Open Scope Z_scope.

(** What handlers do with the cache *)
Inductive HandlerOp :=
| HSet (key : EntityKey) (entity : Entity)
| HRemove (key : EntityKey)
| HGet (key : EntityKey) (scope : GetScope)
| HRelated (eref : LoadRelatedRequest)
| HEnter
| HExit
| HDiscard.

(** Whether a handler is running after the operations; [None] when handlers
    are not entered and left in turn *)
Fixpoint nesting (inside : bool) (ops : list HandlerOp) : option bool :=
  match ops with
  | [] => Some inside
  | HEnter :: ops => if inside then None else nesting true ops
  | HExit :: ops | HDiscard :: ops => if inside then nesting false ops else None
  | _ :: ops => nesting inside ops
  end.

Inductive OpError := SetFailed (e : SetError) | RelatedFailed (e : RelatedError).

(** The answers to [HRelated] *)
Definition related_answer `{InputSchema} (B : gmap EntityKey View) (s n : BlockView) (eref : LoadRelatedRequest)
    (r : outcome OpError Answer) : Prop :=
  match get_field_related eref with
  | Ok (t, f) => ∃ es, r = Ok (Listed es) ∧ view <$> es ≡ₚ (map_to_list (related_views B (query_of eref t f) s n)).*2
  | Err e => r = Err (RelatedFailed e)
  | Panic => False
  end.

(** The runs of the specification for a store with the content [B]: [s] starts
    from [B], and [n] from nothing, for the reads that see what is new in the
    block. *)
Inductive spec_steps `{InputSchema} (B : gmap EntityKey View) :
    BlockView → BlockView → list (HandlerOp * outcome OpError Answer) → BlockView → BlockView → Prop :=
| spec_nil s n : spec_steps B s n [] s n
| spec_set key e r s n tr s' n' :
    (r = Ok Done ∨ entity_validate e key ≠ Ok tt ∧ ∃ err, r = Err (SetFailed (SetValidationError err))) →
    spec_steps B (bv_set key e s) (bv_set key e n) tr s' n' → spec_steps B s n ((HSet key e, r) :: tr) s' n'
| spec_refused key e s n tr s' n' :
    spec_steps B s n tr s' n' →
    spec_steps B s n ((HSet key e, Err (SetFailed (ExceededWriteLimit (entity_id key)))) :: tr) s' n'
| spec_remove key s n tr s' n' :
    spec_steps B (bv_remove key s) (bv_remove key n) tr s' n' → spec_steps B s n ((HRemove key, Ok Done) :: tr) s' n'
| spec_get key scope v s n tr s' n' :
    view <$> v = bv_now (match scope with ScopeStore => s | InBlock => n end) !! key →
    spec_steps B s n tr s' n' → spec_steps B s n ((HGet key scope, Ok (Found v)) :: tr) s' n'
| spec_related eref r s n tr s' n' :
    related_answer B s n eref r → spec_steps B s n tr s' n' → spec_steps B s n ((HRelated eref, r) :: tr) s' n'
| spec_enter m m0 tr s' n' :
    spec_steps B (mkBlockView m (Some m)) (mkBlockView m0 (Some m0)) tr s' n' →
    spec_steps B (mkBlockView m None) (mkBlockView m0 None) ((HEnter, Ok Done) :: tr) s' n'
| spec_exit m h m0 h0 tr s' n' :
    spec_steps B (mkBlockView h None) (mkBlockView h0 None) tr s' n' →
    spec_steps B (mkBlockView m (Some h)) (mkBlockView m0 (Some h0)) ((HExit, Ok Done) :: tr) s' n'
| spec_discard m h m0 h0 tr s' n' :
    spec_steps B (mkBlockView m None) (mkBlockView m0 None) tr s' n' →
    spec_steps B (mkBlockView m (Some h)) (mkBlockView m0 (Some h0)) ((HDiscard, Ok Done) :: tr) s' n'.
Section Runs.
  Context {Q : Type} `{PQ : !PriorityQueue EntityKey (option Entity) Q}.
  Context `{PQS : !PriorityQueueSpec EntityKey (option Entity) Q} `{AR : Arithmetic}.
  Context `{CC : !CacheConfig EntityKey (option Entity)} `{IS : InputSchema} `{RS : ReadStore} `{HO : HashOrder} `{CE : CacheEnv}.
  Context (P : ArcPool) (base : gmap EntityKey Entity) `{RSS : !ReadStoreSpec P base}.
  Hypothesis Hweight : ∀ (k : EntityKey) (v : option Entity), 0 ≤ entry_weight k v.
  Implicit Types (c : EntityCache Q) (l : LfuCache Q) (w : World Q).

(** *** Runs *)

Definition handler_step (op : HandlerOp) : st (World Q) OpError Answer :=
  match op with
  | HSet key entity => _ ← st_map_err SetFailed (cache_set key entity); mret Done
  | HRemove key => _ ← on_cache id (cache_remove key); mret Done
  | HGet key scope => v ← on_cache (SetFailed ∘ SetStoreError) (cache_get key scope); mret (Found v)
  | HRelated eref => es ← on_cache RelatedFailed (load_related eref); mret (Listed es)
  | HEnter => _ ← on_cache id enter_handler; mret Done
  | HExit => _ ← on_cache id exit_handler; mret Done
  | HDiscard => _ ← on_cache id exit_handler_and_discard_changes; mret Done
  end.

(** An error does not end a run, but a panic does. *)
Fixpoint handler_run (ops : list HandlerOp) w : World Q * list (outcome OpError Answer) :=
  match ops with
  | [] => (w, [])
  | op :: ops =>
      match handler_step op w with
      | (w, Panic) => (w, [Panic])
      | (w, r) => let '(w, rs) := handler_run ops w in (w, r :: rs)
      end
  end.

Definition op_new (op : HandlerOp) : Prop := match op with HSet _ e => ent_new P e | _ => True end.

Definition inside (s : BlockView) : bool := match bv_handler s with Some _ => true | None => false end.

Lemma inside_write f s : inside (bv_write f s) = inside s.
Proof. unfold inside, bv_write. by destruct (bv_handler s). Qed.

Lemma sims_inside c s n : sims base c s n → in_handler c = inside s ∧ in_handler c = inside n.
Proof.
  intros [Hs Hn]. unfold inside. rewrite (sim_in_handler _ _ _ Hs) at 1. rewrite (sim_in_handler _ _ _ Hn).
  by destruct (bv_handler s), (bv_handler n).
Qed.

(** One step: its result is not a panic, and whatever run of the
    specification goes on from the new states begins with this step. *)
Definition step_ok (op : HandlerOp) (ops : list HandlerOp) (b : bool) w (s n : BlockView) : Prop :=
  ∃ w' r s1 n1, handler_step op w = (w', r) ∧ r ≠ Panic ∧ cache_ok P base (w_cache w') ∧ no_overflow w' ∧
    nesting (inside s1) ops = Some b ∧ sims base (w_cache w') s1 n1 ∧
    ∀ tr s' n', spec_steps (store_views base) s1 n1 tr s' n' → spec_steps (store_views base) s n ((op, r) :: tr) s' n'.

(** The steps that only change the cache *)
Lemma on_cache_step_ok op ops b m c' w s n s1 n1 :
  handler_step op = (_ ← on_cache id m; mret Done) → m (w_cache w) = (c', Ok tt) →
  cache_ok P base c' → no_overflow w → nesting (inside s1) ops = Some b → sims base c' s1 n1 →
  (∀ tr s' n', spec_steps (store_views base) s1 n1 tr s' n' → spec_steps (store_views base) s n ((op, Ok Done) :: tr) s' n') →
  step_ok op ops b w s n.
Proof.
  intros Hop Hm Hc Hno Hbr Hs Hspec. exists (mkWorld (w_seq w) (w_capacity w) c'), (Ok Done), s1, n1.
  rewrite Hop. st_run. unfold on_cache. rewrite Hm. by split_and!.
Qed.

Lemma set_step_ok key e ops b w s n :
  is_Some (pool_lookup (arc_pool P) VID_FIELD) → cache_ok P base (w_cache w) → sims base (w_cache w) s n → no_overflow w →
  ent_new P e → nesting (inside s) ops = Some b → step_ok (HSet key e) ops b w s n.
Proof.
  intros Hvid Hc Hs Hno He Hbr.
  destruct (cache_set_ok P base Hweight key e w s n Hvid Hc Hs He Hno) as (w' & r & Hset & Hc' & Hno' & Hr).
  unfold step_ok. simpl. st_run. unfold st_map_err. rewrite Hset. destruct Hr as [[-> Hs']|[Hr Hs']].
  - eexists w', _, s, n. split; [done|]. split_and!; try done. intros. by constructor.
  - eexists w', (match r with Ok _ => Ok Done | Err x => Err (SetFailed x) | Panic => Panic end), (bv_set key e s), (bv_set key e n).
    unfold bv_set at 1. rewrite inside_write.
    destruct Hr as [->|(Hv & err & ->)]; (split; [done|]); (split_and!; [done..|]); intros; constructor; eauto.
Qed.

Lemma get_step_ok key scope ops b w s n :
  cache_ok P base (w_cache w) → sims base (w_cache w) s n → no_overflow w → nesting (inside s) ops = Some b →
  step_ok (HGet key scope) ops b w s n.
Proof.
  intros Hc Hs Hno Hbr. destruct (cache_get_ok P base Hweight key scope (w_cache w) Hc) as (v & l & Hg & Hl & _ & Hview).
  exists (mkWorld (w_seq w) (w_capacity w) (set_current l (w_cache w))), (Ok (Found v)), s, n. simpl. st_run. unfold on_cache. rewrite Hg.
  split; [done|]. split; [done|]. split; [by auto with caches|]. split_and!; [done..|]. intros. constructor; [|done].
  rewrite Hview. destruct scope; [by apply (sim_now P base), Hs|]. by apply (sim_now P base (λ _, None)), Hs.
Qed.

Lemma related_step_ok eref ops b w s n :
  cache_ok P base (w_cache w) → sims base (w_cache w) s n → no_overflow w → nesting (inside s) ops = Some b →
  step_ok (HRelated eref) ops b w s n.
Proof.
  intros Hc Hs Hno Hbr.
  assert (∃ l r, on_cache RelatedFailed (load_related eref) w =
      (mkWorld (w_seq w) (w_capacity w) (set_current l (w_cache w)), r) ∧ lfu_ok P (store_view base) l ∧
    related_answer (store_views base) s n eref (es ← r; Ok (Listed es))) as (l & r & Hrel & Hl & Ha).
  { unfold on_cache, related_answer. destruct (get_field_related eref) as [[t f]|x|] eqn:Hf; [|exists (current (w_cache w)), (Err (RelatedFailed x))|].
    - destruct (load_related_views P base Hweight eref t f (w_cache w) s n Hc Hs Hf) as (l & es & -> & Hl & Hes).
      exists l, (Ok es). eauto.
    - unfold load_related, mbind, st_bind, lift. rewrite Hf. split; [by destruct (w_cache w)|]. split; [apply Hc|done].
    - exfalso. revert Hf. unfold get_field_related. destruct (object_type _) as [fs|]; simpl; [|done].
      destruct (find_field _ fs) as [fd|]; simpl; [|done]. destruct (derived_from fd) as [name|]; simpl; [|done].
      destruct (object_type _) as [fs'|]; simpl; [|done]. by destruct (find_field name fs'). }
  exists (mkWorld (w_seq w) (w_capacity w) (set_current l (w_cache w))), (es ← r; Ok (Listed es)), s, n.
  cbn [handler_step w_cache]. st_run. rewrite Hrel. split; [by destruct r|]. split; [|split; [by auto with caches|split_and!; [done..|]]; intros; by constructor].
  destruct r; [done..|]. intros _. revert Ha. unfold related_answer. destruct (get_field_related eref) as [[]| |]; naive_solver.
Qed.

Lemma handler_step_ok op ops b w s n :
  is_Some (pool_lookup (arc_pool P) VID_FIELD) → cache_ok P base (w_cache w) → sims base (w_cache w) s n → no_overflow w →
  op_new op → nesting (inside s) (op :: ops) = Some b → step_ok op ops b w s n.
Proof.
  intros Hvid Hc Hs Hno Hop Hbr. pose proof (sims_inside _ _ _ Hs) as [Hin Hin0].
  assert (∀ b, inside s = b → inside n = b) as Hsn by congruence.
  destruct op as [key e|key|key scope|eref| | |]; simpl in Hop, Hbr;
    [by apply set_step_ok| |by apply get_step_ok|by apply related_step_ok|..].
  - destruct (remove_sim (E := OpError) P base key (w_cache w) Hc) as (c' & Hm & Hc' & _ & Hsim).
    apply (on_cache_step_ok (HRemove key) ops b (cache_remove key) c' w s n (bv_remove key s) (bv_remove key n) eq_refl Hm Hc' Hno).
    + unfold bv_remove. by rewrite inside_write.
    + split; apply Hsim, Hs.
    + intros. by constructor.
  - destruct (inside s) eqn:Hins; [done|].
    destruct s as [m [h|]], n as [m0 [h0|]]; try (by specialize (Hsn _ Hins)); try done.
    destruct (enter_sim (E := OpError) P base (w_cache w) Hc) as (c' & Hm & Hc' & _ & Hsim); [by rewrite Hin|].
    apply (on_cache_step_ok HEnter ops b enter_handler c' w _ _ (mkBlockView m (Some m)) (mkBlockView m0 (Some m0)) eq_refl Hm Hc' Hno Hbr);
      [split; apply Hsim, Hs|intros; by constructor].
  - destruct (inside s) eqn:Hins; [|done].
    destruct s as [m [h|]], n as [m0 [h0|]]; try (by specialize (Hsn _ Hins)); try done.
    destruct (exit_sim (E := OpError) P base (w_cache w) Hc) as (c' & Hm & Hc' & _ & Hsim); [by rewrite Hin|].
    apply (on_cache_step_ok HExit ops b exit_handler c' w _ _ (mkBlockView h None) (mkBlockView h0 None) eq_refl Hm Hc' Hno Hbr);
      [split; eapply Hsim, Hs|intros; by constructor].
  - destruct (inside s) eqn:Hins; [|done].
    destruct s as [m [h|]], n as [m0 [h0|]]; try (by specialize (Hsn _ Hins)); try done.
    destruct (discard_sim (E := OpError) P base (w_cache w) Hc) as (c' & Hm & Hc' & _ & Hsim); [by rewrite Hin|].
    apply (on_cache_step_ok HDiscard ops b exit_handler_and_discard_changes c' w _ _ (mkBlockView m None) (mkBlockView m0 None) eq_refl Hm Hc' Hno Hbr);
      [split; eapply Hsim, Hs|intros; by constructor].
Qed.

Lemma handler_run_ok ops b w s n :
  is_Some (pool_lookup (arc_pool P) VID_FIELD) → cache_ok P base (w_cache w) → sims base (w_cache w) s n → no_overflow w →
  Forall op_new ops → nesting (inside s) ops = Some b →
  ∃ w' rs s' n', handler_run ops w = (w', rs) ∧ (Panic ∉ rs) ∧ length rs = length ops ∧ spec_steps (store_views base) s n (zip ops rs) s' n' ∧
    cache_ok P base (w_cache w') ∧ sims base (w_cache w') s' n' ∧ inside s' = b.
Proof.
  intros Hvid. revert w s n. induction ops as [|op ops IH]; intros w s n Hc Hs Hno Hops Hbr.
  { exists w, [], s, n. split_and!; try done; [apply not_elem_of_nil|constructor|by injection Hbr]. }
  apply Forall_cons in Hops as [Hop Hops].
  destruct (handler_step_ok op ops b w s n Hvid Hc Hs Hno Hop Hbr) as (w1 & r & s1 & n1 & Hstep & Hr & Hc1 & Hno1 & Hbr1 & Hs1 & Hspec).
  destruct (IH w1 s1 n1 Hc1 Hs1 Hno1 Hops Hbr1) as (w' & rs & s' & n' & Hrun & Hp & Hlen & Hsteps & Hc' & Hs' & Hb).
  exists w', (r :: rs), s', n'. split; [simpl; rewrite Hstep, Hrun; by destruct r|]. split_and!; try done.
  - rewrite elem_of_cons. naive_solver.
  - simpl. by rewrite Hlen.
  - simpl. by apply Hspec.
Qed.

Lemma fresh_ok l :
  lfu_ok P (store_view base) l →
  cache_ok P base (with_current l) ∧ sims base (with_current l) (mkBlockView (store_views base) None) (mkBlockView ∅ None).
Proof.
  intros Hl. split; [split_and!; simpl; [done|auto with caches..|done]|]. split; (split; [|done]); intros k; simpl; unfold layer; rewrite !lookup_empty.
  - unfold store_views, store_view. apply lookup_fmap.
  - done.
Qed.

(** C16: what handlers do with the entity cache of a block behaves like a finite
    map that starts as the content of the store.  A [get] sees the content of
    the store with all changes of the block so far, those of the running
    handler included; with the scope [InBlock] it sees what these changes make
    of an empty store.  The entities of a derived field are those that match
    among what a [get] sees, but for entities that did not match in the store
    it is the scope [InBlock] that counts.  A partial update is merged into what
    is there, and its nulls delete attributes; leaving a handler keeps its
    changes and discarding takes back exactly these.  The only errors are a
    failed validation, which cannot happen for an entity that is valid by itself
    and which leaves the update in place, an exceeded write limit, which has no
    effect, and a field that is not derived. *)
Theorem cache_refines ops l g cap :
  is_Some (pool_lookup (arc_pool P) VID_FIELD) → lfu_ok P (store_view base) l → (cap = None ∨ overflow_checks = false) →
  Forall op_new ops → is_Some (nesting false ops) →
  ∃ w' rs s' n', handler_run ops (mkWorld g cap (with_current l)) = (w', rs) ∧ (Panic ∉ rs) ∧ length rs = length ops ∧
    spec_steps (store_views base) (mkBlockView (store_views base) None) (mkBlockView ∅ None) (zip ops rs) s' n'.
Proof.
  intros Hvid Hl Hno Hops [b Hbr]. destruct (fresh_ok l Hl) as [Hc Hs].
  destruct (handler_run_ok ops b (mkWorld g cap (with_current l)) _ _ Hvid Hc Hs Hno Hops Hbr) as (w' & rs & s' & n' & ? & ? & ? & ? & _).
  eauto 10.
Qed.
End Runs.
