(* ===== verification/ModificationFacts.v ===== *)
(** * Properties of the modifications of a block

    [EntityCache::as_modifications]: the modifications take the store from its
    state before the block to what handlers have seen last, there is at most
    one for each entity, and the frequency cache that is passed on to the next
    block agrees with the store after the modifications. *)

From Stdlib Require Import ZArith Lia ZifyBool.
From stdpp Require Import base gmap list strings sorting fin_maps.
From S2P Require Import Prelude Values Intern InternFacts Entity EntityFacts Write Relational LfuCache LfuFacts EntityCache EntityCacheFacts.

Local Open Scope Z_scope.

(** No attribute is an explicit null. *)
Definition tidy (e : Entity) : Prop := strip_nulls (obj_map e) = obj_map e.

Definition tidy_op (op : CacheOp) : Prop := match op with CacheOverwrite e => tidy e | _ => True end.

Definition op_vid (op : CacheOp) : option Value :=
  match op with CacheRemove => None | CacheUpdate e | CacheOverwrite e => obj_map e !! VID_FIELD end.

(** The vid that the last [set] gave to an entity *)
Definition keeps_vid (op : CacheOp) (data : Entity) : Prop :=
  ∀ vid, op_vid op = Some (VInt8 vid) → obj_map data !! VID_FIELD = Some (VInt8 vid).

Lemma tidy_view e : tidy e → view e = visible (obj_map e).
Proof. intros He. unfold view. by rewrite <-visible_strip_nulls, He. Qed.

Lemma tidy_merge (m u : View) : strip_nulls m = m → strip_nulls (null_merge m u) = null_merge m u.
Proof. intros Hm. by rewrite strip_nulls_null_merge, Hm. Qed.

(** ** One modification

    What a modification [m] says about an entity that was [cur] in the store
    and on which the operation [op] has been performed *)
Definition mod_ok (P : ArcPool) (block : BlockNumber) (cur : option Entity) (op : CacheOp) (m : EntityModification) : Prop :=
  emod_block m = block ∧
  match m with
  | Insert _ data _ end_ =>
      end_ = None ∧ cur = None ∧ sem op None = Some (view data) ∧ ent_ok P data ∧ keeps_vid op data
  | Overwrite _ data _ end_ =>
      end_ = None ∧ is_Some cur ∧ sem op (view <$> cur) = Some (view data) ∧ ent_ok P data ∧ keeps_vid op data ∧
      ((∀ e, cur = Some e → tidy e) → tidy_op op → sem op (view <$> cur) ≠ view <$> cur)
  | Remove _ _ => is_Some cur ∧ op = CacheRemove
  end.

Section Modifications.
  Context {Q : Type} `{PQ : !PriorityQueue EntityKey (option Entity) Q}.
  Context `{PQS : !PriorityQueueSpec EntityKey (option Entity) Q} `{AR : Arithmetic}.
  Context `{CC : !CacheConfig EntityKey (option Entity)} `{IS : InputSchema} `{RS : ReadStore} `{HO : HashOrder} `{CE : CacheEnv}.
  Context (P : ArcPool) (block : BlockNumber).
  Hypothesis Hweight : ∀ (k : EntityKey) (v : option Entity), 0 ≤ entry_weight k v.
  Implicit Types (c : EntityCache Q) (l : LfuCache Q).

Abbreviation lmap := (lfu_map (K := EntityKey) (V := option Entity) (Q := Q)).
Abbreviation lwf := (lfu_wf (K := EntityKey) (V := option Entity) (Q := Q)).

(** The result of one step of the loop over the updates *)
Definition step_result key cur op l l' (m : option EntityModification) : Prop :=
  lwf l' ∧ dead_weight l' = false ∧ (∀ k, k ≠ key → lmap l' !! k = lmap l !! k) ∧
  (∀ v, lmap l' !! key = Some v → opt_ok P v ∧ view <$> v = sem op (view <$> cur)) ∧
  match m with
  | Some m => emod_key m = key ∧ mod_ok P block cur op m
  | None => sem op (view <$> cur) = view <$> cur
  end.

Lemma insert_result key cur op l l1 v m :
  lwf l1 → dead_weight l1 = false → lmap l1 = delete key (lmap l) →
  opt_ok P v → view <$> v = sem op (view <$> cur) →
  match m with
  | Some m => emod_key m = key ∧ mod_ok P block cur op m
  | None => sem op (view <$> cur) = view <$> cur
  end →
  ∃ l', lfu_insert (E := StoreError) key v l1 = Ok l' ∧ step_result key cur op l l' m.
Proof.
  intros Hwf Hd Hm Hv Hview Hmod. destruct (lfu_insert_spec (E := StoreError) Hweight l1 key v Hwf) as (l' & Hi & Hwf' & Hm').
  exists l'. split; [done|]. split; [done|]. split; [by rewrite (lfu_insert_dead_weight _ _ _ _ Hi)|].
  rewrite Hm', Hm. split; [by intros k Hk; rewrite lookup_insert_ne, lookup_delete_ne by done|].
  split; [|done]. intros x. rewrite lookup_insert_eq. by intros [= <-].
Qed.

Lemma create_ok key op u :
  ent_ok P u → op = CacheUpdate u ∨ op = CacheOverwrite u →
  ∃ data, entity_remove_null_fields u = Ok data ∧ ent_ok P data ∧ view data = view u ∧
    mod_ok P block None op (Insert key data block None).
Proof.
  intros [Hwf Hp] Hop. destruct (remove_null_fields_spec u Hwf) as (data & Hr & Hwf' & Hp' & Hm).
  assert (view data = view u) as Hview by by (unfold view; rewrite Hm, <-!visible_strip_nulls, strip_nulls_idemp).
  assert (ent_ok P data) as Hok by (split; congruence).
  exists data. split_and!; try done. split; [done|]. split_and!; try done.
  - rewrite Hview. destruct Hop as [->| ->]; [|done]. simpl. by rewrite null_merge_empty_l.
  - intros vid Hvid. rewrite Hm, strip_nulls_lookup. destruct Hop as [->| ->]; simpl in Hvid; by rewrite Hvid.
Qed.

Lemma update_ok key cur u :
  ent_ok P cur → ent_ok P u →
  ∃ data changed, entity_merge_remove_null_fields cur u = (data, Ok changed) ∧ ent_ok P data ∧
    view data = null_merge (view cur) (change u) ∧
    if (changed : bool) then mod_ok P block (Some cur) (CacheUpdate u) (Overwrite key data block None)
    else view data = view cur.
Proof.
  intros Hc Hu. destruct (merge_null_view P cur u Hc Hu) as (data & Hm & Hok & Hmap & Hview).
  eexists data, _. split; [done|]. split; [done|]. split; [done|]. case_bool_decide as Hch.
  - split; [done|]. split_and!; try done; [simpl; by rewrite Hview|..].
    + intros vid Hvid. simpl in Hvid. by rewrite Hmap, null_merge_lookup, Hvid.
    + intros Ht _. specialize (Ht cur eq_refl). simpl. intros [= Heq]. apply Hch. rewrite <-(tidy_view cur Ht), <-Heq, <-Hview.
      apply tidy_view. unfold tidy. rewrite Hmap. by apply tidy_merge.
  - unfold view. by rewrite Hch.
Qed.

Lemma overwrite_ok key cur u :
  ent_ok P cur → ent_ok P u →
  ∃ same, entity_eq cur u = Ok same ∧
    if (same : bool) then view u = view cur
    else mod_ok P block (Some cur) (CacheOverwrite u) (Overwrite key u block None).
Proof.
  intros [Hc Hp] [Hu Hpu]. eexists. split; [apply eq_ignore_key_spec; [done..|congruence]|]. case_bool_decide as Heq.
  - unfold view, visible. by rewrite Heq.
  - split; [done|]. split_and!; try done; [by intros vid|]. intros Ht Htu. simpl. rewrite (tidy_view u Htu).
    rewrite (tidy_view cur) by by apply Ht. intros [= Heq']. by apply Heq.
Qed.

Lemma modify_one_ok key op l mods :
  lwf l → dead_weight l = false → opt_ok P (mjoin (lmap l !! key)) → op_ok P op →
  ∃ l' m, modify_one block (key, op) (l, mods) = ((l', mods ++ option_list m), Ok tt) ∧
    step_result key (mjoin (lmap l !! key)) op l l' m.
Proof.
  intros Hwf Hd Hcur Hop. unfold modify_one.
  destruct (lfu_remove_spec (E := StoreError) Hweight l key Hwf) as (l1 & Hr & Hwf1 & Hm1).
  assert (dead_weight l1 = false) as Hd1 by by rewrite (lfu_remove_dead_weight _ _ _ _ Hr).
  rewrite Hr. cbn [mbind outcome_bind]. destruct (mjoin (lmap l !! key)) as [cur|], op as [|u|u]; simpl in Hcur, Hop.
  - destruct (insert_result key (Some cur) CacheRemove l l1 None (Some (Remove key block))) as (l' & -> & Hres); try done.
    cbn [mbind outcome_bind]. by exists l', (Some (Remove key block)).
  - destruct (update_ok key cur u Hcur Hop) as (data & changed & -> & Hok & Hview & Hch). cbn [map_err mbind outcome_bind].
    destruct (insert_result key (Some cur) (CacheUpdate u) l l1 (Some data)
      (if changed then Some (Overwrite key data block None) else None)) as (l' & -> & Hres); try done.
    { simpl. by rewrite Hview. }
    { destruct changed; [done|]. simpl. by rewrite <-Hview, Hch. }
    cbn [mbind outcome_bind]. eexists l', _. split; [done|]. done.
  - destruct (overwrite_ok key cur u Hcur Hop) as (same & -> & Hsame).
    destruct (insert_result key (Some cur) (CacheOverwrite u) l l1 (Some u)
      (if same then None else Some (Overwrite key u block None))) as (l' & -> & Hres); try done.
    { destruct same; [|done]. simpl. by rewrite Hsame. }
    cbn [mbind outcome_bind infallible]. eexists l', _. split; [done|]. done.
  - exists l1, None. rewrite app_nil_r. split; [done|]. split; [done|]. split; [done|]. rewrite Hm1.
    split; [by intros k Hk; rewrite lookup_delete_ne|]. split; [|done]. intros v. by rewrite lookup_delete_eq.
  - destruct (create_ok key (CacheUpdate u) u Hop (or_introl eq_refl)) as (data & -> & Hok & Hview & Hmod).
    destruct (insert_result key None (CacheUpdate u) l l1 (Some data) (Some (Insert key data block None))) as (l' & Hi & Hres); try done.
    { simpl. by rewrite Hview, null_merge_empty_l. }
    cbn [mbind outcome_bind infallible]. rewrite Hi. cbn [mbind outcome_bind]. by eexists l', (Some _).
  - destruct (create_ok key (CacheOverwrite u) u Hop (or_intror eq_refl)) as (data & -> & Hok & Hview & Hmod).
    destruct (insert_result key None (CacheOverwrite u) l l1 (Some data) (Some (Insert key data block None))) as (l' & Hi & Hres); try done.
    { simpl. by rewrite Hview. }
    cbn [mbind outcome_bind infallible]. rewrite Hi. cbn [mbind outcome_bind]. by eexists l', (Some _).
Qed.

(** ** The loop over the updates

    [l0] is the frequency cache when the loop starts, and [todo] the updates
    that are left. *)

Definition was l0 (k : EntityKey) : option Entity := mjoin (lmap l0 !! k).

Definition loop_inv l0 (ups : gmap EntityKey CacheOp) (todo : list (EntityKey * CacheOp)) l (mods : list EntityModification) : Prop :=
  lwf l ∧ dead_weight l = false ∧
  (∀ k, k ∈ todo.*1 → lmap l !! k = lmap l0 !! k) ∧
  (∀ k v, k ∉ todo.*1 → lmap l !! k = Some v → opt_ok P v ∧ view <$> v = layer ups k (view <$> was l0 k) ∧
     (is_Some (ups !! k) ∨ is_Some (lmap l0 !! k))) ∧
  NoDup (emod_key <$> mods) ∧
  (∀ m, m ∈ mods → (emod_key m ∉ todo.*1) ∧ ∃ op, ups !! emod_key m = Some op ∧ mod_ok P block (was l0 (emod_key m)) op m) ∧
  (∀ k, k ∉ emod_key <$> mods → k ∉ todo.*1 → layer ups k (view <$> was l0 k) = view <$> was l0 k).

Lemma loop_step l0 ups key op todo l mods :
  (∀ k v, lmap l0 !! k = Some v → opt_ok P v) → ops_ok P ups →
  ups !! key = Some op → key ∉ todo.*1 → loop_inv l0 ups ((key, op) :: todo) l mods →
  ∃ l' mods', modify_one block (key, op) (l, mods) = ((l', mods'), Ok tt) ∧ loop_inv l0 ups todo l' mods'.
Proof.
  intros Hl0 Hups Hop Hkey (Hwf & Hd & Htodo & Hdone & Hnd & Hmods & Hrest). cbn [fmap list_fmap fst] in *.
  assert (lmap l !! key = lmap l0 !! key) as Hcur by (apply Htodo; left).
  destruct (modify_one_ok key op l mods Hwf Hd) as (l' & m & Hm & Hwf' & Hd' & Hother & Hown & Hmod); [|by apply (Hups key)|].
  { rewrite Hcur. destruct (lmap l0 !! key) as [v|] eqn:E0; [by apply (Hl0 key)|done]. }
  rewrite Hcur in *. fold (was l0 key) in *. eexists l', _. split; [exact Hm|]. split; [done|]. split; [done|].
  assert (∀ m', m' ∈ mods → emod_key m' ≠ key) as Hnew.
  { intros m' Hm' Heq. destruct (Hmods m' Hm') as [Hn _]. apply Hn. rewrite Heq. left. }
  assert (∀ m', m' ∈ option_list m → emod_key m' = key ∧ mod_ok P block (was l0 key) op m') as Hm'.
  { intros m'. destruct m; simpl; [by intros ->%list_elem_of_singleton|by intros ?%elem_of_nil]. }
  split_and!.
  - intros k Hk. rewrite Hother by congruence. apply Htodo. by right.
  - intros k v Hk Hv. destruct (decide (k = key)) as [-> |Hne].
    + unfold layer. rewrite Hop. destruct (Hown v Hv). eauto.
    + rewrite Hother in Hv by done. apply (Hdone k v); [|done]. rewrite elem_of_cons. naive_solver.
  - rewrite fmap_app. apply NoDup_app. split; [done|]. split.
    + intros k (m' & -> & Hin)%list_elem_of_fmap (m2 & Heq & [Hk _]%Hm')%list_elem_of_fmap. apply (Hnew m' Hin). congruence.
    + destruct m; simpl; [apply NoDup_singleton|constructor].
  - intros m' [Hin|Hin]%elem_of_app.
    + destruct (Hmods m' Hin) as [Hn Hex]. split; [|done]. intros ?. apply Hn. by right.
    + destruct (Hm' m' Hin) as [Heq Hok]. rewrite Heq. split; [done|]. eauto.
  - intros k Hk Hkt. rewrite fmap_app, not_elem_of_app in Hk. destruct Hk as [Hk Hk'].
    destruct (decide (k = key)) as [-> |Hne].
    + unfold layer. rewrite Hop. destruct m as [m|]; [|done]. destruct Hmod as [Heq _]. destruct Hk'.
      apply list_elem_of_fmap. exists m. split; [done|]. apply list_elem_of_singleton. done.
    + apply Hrest; [done|]. rewrite elem_of_cons. naive_solver.
Qed.

Lemma loop_ok l0 ups todo l mods :
  (∀ k v, lmap l0 !! k = Some v → opt_ok P v) → ops_ok P ups →
  (∀ k op, (k, op) ∈ todo → ups !! k = Some op) → NoDup todo.*1 → loop_inv l0 ups todo l mods →
  ∃ l' mods', st_for (modify_one block) todo (l, mods) = ((l', mods'), Ok tt) ∧ loop_inv l0 ups [] l' mods'.
Proof.
  intros Hl0 Hups. revert l mods. induction todo as [|[key op] todo IH]; intros l mods Htodo Hnd Hinv; [by eexists l, mods|].
  apply NoDup_cons in Hnd as [Hkey Hnd].
  destruct (loop_step l0 ups key op todo l mods) as (l1 & mods1 & Hstep & Hinv1); [done..|by apply Htodo; left|done|done|].
  destruct (IH l1 mods1) as (l' & mods' & Hrun & Hinv'); [by intros; apply Htodo; right|done|done|].
  exists l', mods'. split; [|done]. simpl. st_run. by rewrite Hstep.
Qed.

(** ** Loading what is missing *)

Context (base : gmap EntityKey Entity) `{RSS : !ReadStoreSpec P base}.

Lemma load_ok {E} (kvs : list (EntityKey * Entity)) c :
  lfu_ok P (store_view base) (current c) → (∀ k e, (k, e) ∈ kvs → base !! k = Some e) →
  ∃ l, st_for (λ kv, insert_current (E := E) kv.1 (Some kv.2)) kvs c = (set_current l c, Ok tt) ∧
    lfu_ok P (store_view base) l ∧
    (∀ k, lmap l !! k = None → lmap (current c) !! k = None ∧ (k ∉ kvs.*1)) ∧
    (∀ k, lmap l !! k = lmap (current c) !! k ∨ lmap l !! k = Some <$> base !! k).
Proof.
  revert c. induction kvs as [|[k e] kvs IH]; intros c Hl Hin.
  { exists (current c). split; [by destruct c|]. split; [done|]. split; [|by left]. intros k Hk. split; [done|apply not_elem_of_nil]. }
  assert (base !! k = Some e) as Hk by (apply Hin; left).
  destruct (insert_current_ok (E := E) P Hweight (store_view base) k (Some e) c Hl) as (l & Hi & Hl' & Hm).
  { by apply (rs_entities (P := P) (base := base) k). }
  { unfold store_view. by rewrite Hk. }
  destruct (IH (set_current l c)) as (l' & Hrun & Hl'' & Hnone & Hfrom); [done|by intros; apply Hin; right|].
  exists l'. simpl. st_run. rewrite Hi, Hrun. split; [done|]. split; [done|]. cbn [current set_current] in *.
  rewrite Hm in *. split.
  - intros k' Hk'. destruct (Hnone k' Hk') as [Hins Hnot]. apply lookup_insert_None in Hins as [? ?].
    split; [done|]. apply not_elem_of_cons. split; [by apply not_eq_sym|done].
  - intros k'. destruct (Hfrom k') as [Heq|Heq]; [|by right]. rewrite Heq.
    destruct (decide (k = k')) as [<- |Hne]; [right; by rewrite lookup_insert_eq, Hk|left; by rewrite lookup_insert_ne].
Qed.

(** ** The modifications *)

(** For immutable types, the code assumes that the entities that are set and
    that are not in the cache are new. *)
Definition immutable_new c : Prop :=
  ∀ k, is_Some (updates c !! k) → is_immutable (entity_type k) = true → lmap (current c) !! k = None → base !! k = None.

(** [mods] has one modification for each entity that differs between [before]
    and [after], and says how. *)
Definition mods_change (before after : EntityKey → option View) (mods : list EntityModification) : Prop :=
  NoDup (emod_key <$> mods) ∧
  (∀ m, m ∈ mods → emod_block m = block ∧
     match m with
     | Insert k data _ end_ => end_ = None ∧ before k = None ∧ after k = Some (view data)
     | Overwrite k data _ end_ => end_ = None ∧ is_Some (before k) ∧ after k = Some (view data)
     | Remove k _ => is_Some (before k) ∧ after k = None
     end) ∧
  ∀ k, k ∉ emod_key <$> mods → after k = before k.

(** What the loop finds in the frequency cache *)
Lemma loaded_ok c :
  cache_ok P base c → immutable_new c →
  ∃ l, (entities ← rs_get_many (missing c);
        match st_for (λ kv, insert_current kv.1 (Some kv.2)) (btree_iter entities) c with
        | (c, Ok _) => Ok c | (_, Err e) => Err e | (_, Panic) => Panic
        end) = Ok (set_current l c) ∧
    lfu_ok P (store_view base) l ∧
    (∀ k, is_Some (updates c !! k) → view <$> was l k = store_view base k) ∧
    (∀ k, lmap l !! k = lmap (current c) !! k ∨ lmap l !! k = Some <$> base !! k).
Proof.
  intros (Hl & _) Himm. rewrite (rs_get_many_spec (P := P) (base := base)). cbn [mbind outcome_bind].
  destruct (load_ok (E := StoreError) (btree_iter (filter (λ kv, kv.1 ∈ missing c) base)) c Hl) as (l & -> & Hl' & Hnone & Hfrom).
  { intros k e Hk. apply btree_iter_elem, map_lookup_filter_Some in Hk. apply Hk. }
  exists l. split; [done|]. split; [done|]. split; [|done]. intros k Hk. unfold was.
  destruct (lmap l !! k) as [v|] eqn:El; [by apply Hl'|]. simpl. destruct (Hnone k El) as [Hc Hnot].
  unfold store_view. destruct (base !! k) as [e|] eqn:Eb; [|done]. exfalso.
  destruct (is_immutable (entity_type k)) eqn:Ei; [by rewrite (Himm k) in Eb|]. apply Hnot.
  apply list_elem_of_fmap. exists (k, e). split; [done|]. apply btree_iter_elem, map_lookup_filter_Some. split; [done|].
  apply elem_of_filter. split; [|by apply elem_of_dom]. split; [|done]. rewrite lfu_contains_spec. apply bool_decide_false. intros [v Hv]. simpl in Hv. congruence.
Qed.

Lemma loop_start l0 ups :
  lfu_ok P (store_view base) l0 → loop_inv l0 ups (hash_iter ups) l0 [].
Proof.
  intros (Hwf & Hd & Hs).
  assert (∀ k, k ∉ (hash_iter ups).*1 → ups !! k = None) as Hups.
  { intros k Hk. rewrite <-(hash_iter_map ups). by apply not_elem_of_list_to_map_1. }
  split; [done|]. split; [done|]. split; [done|]. split.
  { intros k v Hk Hv. unfold layer, was. rewrite (Hups k Hk), Hv. destruct (Hs k v Hv). eauto. }
  split; [constructor|]. split; [by intros m ?%elem_of_nil|]. intros k _ Hk. unfold layer. by rewrite (Hups k Hk).
Qed.

(** The result of [as_modifications], with what each modification says about
    the cache [l0] that the loop started from *)
Lemma as_modifications_ok c :
  cache_ok P base c → in_handler c = false → immutable_new c → 0 ≤ entity_cache_size →
  let after k := layer (updates c) k (store_view base k) in
  ∃ r l0, as_modifications block c = Some (Ok r) ∧
    (∀ k, is_Some (updates c !! k) → view <$> was l0 k = store_view base k) ∧
    (∀ k, lmap l0 !! k = lmap (current c) !! k ∨ lmap l0 !! k = Some <$> base !! k) ∧
    NoDup (emod_key <$> modifications r) ∧
    (∀ m, m ∈ modifications r → ∃ op, updates c !! emod_key m = Some op ∧ mod_ok P block (was l0 (emod_key m)) op m) ∧
    (∀ k, k ∉ emod_key <$> modifications r → after k = store_view base k) ∧
    lfu_ok P after (entity_lfu_cache r) ∧ total_weight (entity_lfu_cache r) ≤ entity_cache_size.
Proof.
  intros Hc Hin Himm Hsize after. destruct (loaded_ok c Hc Himm) as (l0 & Hload & Hl0 & Hwas & Hfrom).
  unfold as_modifications. rewrite Hin.
  destruct (rs_get_many (missing c)) as [es| |]; cbn [mbind outcome_bind] in Hload |- *; try done.
  destruct (st_for _ (btree_iter es) c) as [c1 [[]| |]]; try done. injection Hload as ->. cbn [updates current set_current].
  destruct (loop_ok l0 (updates c) (hash_iter (updates c)) l0 []) as (l' & mods & -> & Hinv);
    [by intros k v Hv; apply Hl0 in Hv as [? _]|apply Hc| |auto with caches|by apply loop_start|].
  { intros k op Hk. rewrite hash_iter_perm in Hk. by apply elem_of_map_to_list. }
  destruct Hinv as (Hwf & Hd & _ & Hdone & Hnd & Hmods & Hrest).
  destruct (evict_and_stats_spec (E := StoreError) Hweight entity_cache_size l' Hwf Hd Hsize) as (l2 & stats & -> & Hwf2 & Hd2 & Hw & Hsub).
  assert (∀ k, is_Some (updates c !! k) ∨ is_Some (lmap l0 !! k) → layer (updates c) k (view <$> was l0 k) = after k) as Hafter.
  { intros k [Hk|[v Hv]]; unfold after; [by rewrite Hwas|]. f_equal. unfold was. rewrite Hv. by apply Hl0. }
  eexists _, l0. split; [done|]. cbn [modifications entity_lfu_cache]. split; [done|]. split; [done|]. split; [done|].
  split; [by intros m Hm; apply Hmods|]. split; [|split; [|done]].
  - intros k Hk. destruct (updates c !! k) as [op|] eqn:Ek; [|unfold after, layer; by rewrite Ek].
    rewrite <-Hafter, <-Hwas by eauto. apply Hrest; [done|apply not_elem_of_nil].
  - split; [done|]. split; [done|]. intros k v Hv. apply (lookup_weaken _ _ _ _ Hv) in Hsub.
    destruct (Hdone k v) as (? & Hview & Hk); [apply not_elem_of_nil|done|]. by rewrite Hview, Hafter.
Qed.

Lemma as_modifications_change c :
  cache_ok P base c → in_handler c = false → immutable_new c → 0 ≤ entity_cache_size →
  let after k := layer (updates c) k (store_view base k) in
  ∃ r, as_modifications block c = Some (Ok r) ∧ mods_change (store_view base) after (modifications r) ∧
    lfu_ok P after (entity_lfu_cache r) ∧ total_weight (entity_lfu_cache r) ≤ entity_cache_size.
Proof.
  intros Hc Hin Himm Hsize after. destruct (as_modifications_ok c Hc Hin Himm Hsize)
    as (r & l0 & Has & Hwas & _ & Hnd & Hmods & Hrest & Hl & Hw).
  exists r. split; [done|]. split; [|done]. split; [done|]. split; [|done]. intros m Hm.
  destruct (Hmods m Hm) as (op & Hop & Hb & Hok). split; [done|]. specialize (Hwas (emod_key m) ltac:(by eauto)).
  unfold after, layer. destruct m as [k data b end_|k data b end_|k b]; simpl in *; rewrite Hop, <-Hwas.
  - destruct Hok as (-> & -> & Hsem & _). done.
  - destruct Hok as (-> & [e He] & Hsem & _). rewrite He in *. eauto.
  - destruct Hok as ([e ->] & ->). eauto.
Qed.

End Modifications.
