(* ===== verification/BlockFacts.v ===== *)
(** * A block from its first handler to its modifications

    The composition of the runs of [CacheRuns.v] with the modifications
    of [ModificationFacts.v], and that no two modifications of a block have the
    same vid. *)

From Stdlib Require Import ZArith Lia ZifyBool.
From stdpp Require Import base gmap list strings sorting fin_maps.
From S2P Require Import Prelude Values Intern InternFacts Entity EntityFacts Write Relational LfuCache LfuFacts.
From S2P Require Import EntityCache EntityCacheFacts DerivedFacts CacheRuns ModificationFacts.

Local Open Scope Z_scope.

(** The key that an operation writes *)
Definition written (op : HandlerOp) : option EntityKey :=
  match op with HSet key _ | HRemove key => Some key | _ => None end.

Definition is_set (op : HandlerOp) : Prop := match op with HSet _ _ => True | _ => False end.

#[export] Instance is_set_dec op : Decision (is_set op).
Proof. destruct op; apply _. Defined.

(** ** Properties of all operations in the layers of a cache *)

Definition accumulates (I : EntityKey → CacheOp → Prop) : Prop :=
  ∀ k a b c, I k a → I k b → accumulate a b = Ok c → I k c.

Section Layers.
  Context {Q : Type} `{PQ : !PriorityQueue EntityKey (option Entity) Q} `{AR : Arithmetic}.
  Context `{CC : !CacheConfig EntityKey (option Entity)} `{IS : InputSchema} `{RS : ReadStore} `{HO : HashOrder} `{CE : CacheEnv}.
  Implicit Types (c : EntityCache Q) (w : World Q) (I : EntityKey → CacheOp → Prop).

Definition layers_inv I c : Prop := map_Forall I (updates c) ∧ map_Forall I (handler_updates c).

Definition same_layers c c' : Prop :=
  updates c' = updates c ∧ handler_updates c' = handler_updates c ∧ in_handler c' = in_handler c.

Lemma layers_inv_impl I I' c : (∀ k op, I k op → I' k op) → layers_inv I c → layers_inv I' c.
Proof. intros Himp [Hu Hh]. split; (eapply map_Forall_impl; [eassumption|eauto]). Qed.

Lemma same_layers_inv I c c' : same_layers c c' → layers_inv I c → layers_inv I c'.
Proof. intros (Hu & Hh & _) Hinv. unfold layers_inv. by rewrite Hu, Hh. Qed.

Lemma op_in_inv I key op m m' :
  accumulates I → I key op → map_Forall I m → op_in key op m = Ok m' → map_Forall I m'.
Proof.
  intros Hacc Hop Hm. unfold op_in. destruct (m !! key) as [old|] eqn:Ek.
  - destruct (accumulate old op) as [new|[]|] eqn:Ea; simpl; [|done]. intros [= <-]. apply map_Forall_insert_2; [|done].
    by eapply Hacc; [apply (Hm key)|..].
  - intros [= <-]. by apply map_Forall_insert_2.
Qed.

Lemma entity_op_inv {E} I key op c c' (r : outcome E unit) :
  accumulates I → I key op → layers_inv I c → entity_op key op c = (c', r) → layers_inv I c'.
Proof.
  intros Hacc Hop [Hu Hh]. unfold entity_op. destruct (op_in key op _) as [m|[]|] eqn:Em; [|by intros [= <- _]].
  intros [= <- _]. destruct (in_handler c); split; [done|by apply (op_in_inv I key op (handler_updates c))| |done].
  by apply (op_in_inv I key op (updates c)).
Qed.

Lemma ops_inv {E} I ops c c' (r : outcome E unit) :
  accumulates I → Forall (λ kop, I kop.1 kop.2) ops → layers_inv I c →
  st_for (λ kop, entity_op kop.1 kop.2) ops c = (c', r) → layers_inv I c'.
Proof.
  intros Hacc. revert c. induction ops as [|kop ops IH]; intros c Hops Hc; simpl; [by intros [= <- _]|].
  apply Forall_cons in Hops as [Hop Hops]. st_run.
  destruct (entity_op kop.1 kop.2 c) as [c1 r1] eqn:E1. pose proof (entity_op_inv I _ _ _ _ _ Hacc Hop Hc E1) as Hc1.
  destruct r1 as [[]| |]; [by apply IH|by intros [= <- _]..].
Qed.

Lemma exit_handler_inv {E} I c c' (r : outcome E unit) :
  accumulates I → layers_inv I c → exit_handler c = (c', r) → layers_inv I c'.
Proof.
  intros Hacc [Hu Hh]. unfold exit_handler. destruct (in_handler c); [|by intros [= <- _]].
  apply ops_inv; [done| |split; [done|apply map_Forall_empty]]. rewrite hash_iter_perm. apply Forall_forall.
  intros [k op] Hk. by apply (Hh k), elem_of_map_to_list.
Qed.

Lemma insert_current_layers {E} key v c : same_layers c (insert_current (E := E) key v c).1.
Proof. unfold insert_current. by destruct (lfu_insert key v (current c)). Qed.

Lemma get_current_layers {E} key c : same_layers c (get_current (E := E) key c).1.
Proof. unfold get_current. by destruct (lfu_get key (current c)). Qed.

Lemma same_layers_trans c1 c2 c3 : same_layers c1 c2 → same_layers c2 c3 → same_layers c1 c3.
Proof. unfold same_layers. intuition congruence. Qed.

Lemma cache_get_layers key scope c : same_layers c (cache_get key scope c).1.
Proof.
  unfold cache_get. assert (∀ (m : st (EntityCache Q) StoreError (option Entity)), same_layers c (m c).1 →
    same_layers c (m ≫= (λ entity, c ← st_get; entity ← lift (apply_layer key (updates c) entity); lift (apply_layer key (handler_updates c) entity)) $ c).1) as Hread.
  { intros m Hm. st_run. destruct (m c) as [c1 [v| |]]; [|done..]. unfold st_get, lift.
    by destruct (apply_layer key (updates c1) v). }
  apply Hread. destruct scope; [|done]. st_run.
  destruct (lfu_contains_key key (current c)); [apply get_current_layers|]. destruct (rs_get key) as [e| |]; [|done..].
  pose proof (insert_current_layers (E := StoreError) key e c) as Hi. destruct (insert_current key e c) as [c1 [[]| |]]; [|done..].
  eapply same_layers_trans; [exact Hi|apply get_current_layers].
Qed.

Lemma remember_all_layers {E} kvs c : same_layers c (st_for (remember (E := E)) kvs c).1.
Proof.
  revert c. induction kvs as [|kv kvs IH]; intros c; simpl; [done|]. st_run. unfold remember at 1.
  destruct (lfu_contains_key kv.1 (current c)); [apply IH|].
  pose proof (insert_current_layers (E := E) kv.1 (Some kv.2) c) as Hi.
  destruct (insert_current kv.1 (Some kv.2) c) as [c1 [[]| |]]; [|done..]. eapply same_layers_trans; [exact Hi|apply IH].
Qed.

Lemma load_related_layers eref c : same_layers c (load_related eref c).1.
Proof.
  unfold load_related. st_run. destruct (get_field_related eref) as [[t f]| |]; [|done..].
  destruct (rs_get_derived _) as [stored| |]; [|done..]. cbn [map_err].
  pose proof (remember_all_layers (E := RelatedError) (btree_iter stored) c) as Hr.
  by destruct (st_for remember (btree_iter stored) c) as [c1 [[]| |]].
Qed.

(** What a step may add to the layers *)
Definition adds I (g : SeqGenerator) (op : HandlerOp) : Prop :=
  match op with
  | HSet key e => ∀ u, set_new_vid key e (seq_vid g).2 = Ok u → I key (CacheUpdate u)
  | HRemove key => I key CacheRemove
  | _ => True
  end.

Lemma on_cache_inv {E E' A} I (f : E → E') (m : st (EntityCache Q) E A) w :
  layers_inv I (m (w_cache w)).1 → layers_inv I (w_cache (on_cache f m w).1).
Proof. unfold on_cache. by destruct (m (w_cache w)). Qed.

Lemma take_capacity_shape key e w :
  ∃ cap r, take_capacity key e w = (mkWorld (w_seq w) cap (w_cache w), r).
Proof.
  unfold take_capacity. destruct w as [g [cap|] c]; simpl; [|by eauto]. destruct (negb _ && _); [by eauto|].
  destruct (usize_sub _ _); eauto.
Qed.

(** [set] refuses the entity, or adds it to the layers. *)
Lemma cache_set_cases key e w :
  w_cache (cache_set key e w).1 = w_cache w ∨
  ∃ u c, set_new_vid key e (seq_vid (w_seq w)).2 = Ok u ∧
    (entity_op (E := SetError) key (CacheUpdate u) (w_cache w)).1 = c ∧ same_layers c (w_cache (cache_set key e w).1).
Proof.
  unfold cache_set, mbind, st_bind. destruct (take_capacity_shape key e w) as (cap & r & ->).
  destruct r as [[]| |]; [|by left..]. unfold next_vid. cbn [w_seq w_capacity w_cache].
  destruct (seq_vid (w_seq w)) as [g vid]. unfold lift. cbn [snd].
  destruct (set_new_vid key e vid) as [u| |]; [|by left..]. right. eexists u, _. split; [done|]. split; [done|].
  unfold on_cache. cbn [w_cache]. destruct (entity_op key (CacheUpdate u) (w_cache w)) as [c1 r].
  destruct r as [[]| |]; [|done..]. cbn [map_err]. destruct (is_ok _); [done|]. cbn [w_cache fst].
  pose proof (cache_get_layers key ScopeStore c1) as Hg.
  destruct (cache_get key ScopeStore c1) as [c2 [v| |]]; simpl in Hg |- *; [|done..]. by destruct v.
Qed.

Lemma set_inv I key e w :
  accumulates I → adds I (w_seq w) (HSet key e) → layers_inv I (w_cache w) → layers_inv I (w_cache (cache_set key e w).1).
Proof.
  intros Hacc Hadd Hw. destruct (cache_set_cases key e w) as [->|(u & c & Hu & Hc & Hsame)]; [done|].
  eapply same_layers_inv; [exact Hsame|]. destruct (entity_op (E := SetError) key (CacheUpdate u) (w_cache w)) as [c1 r] eqn:E1. simpl in Hc. subst c1.
  eapply entity_op_inv; [done|by apply Hadd|done|exact E1].
Qed.

Lemma handler_step_inv I op w w' r :
  accumulates I → adds I (w_seq w) op → layers_inv I (w_cache w) → handler_step op w = (w', r) → layers_inv I (w_cache w').
Proof.
  intros Hacc Hadd Hw Hstep.
  assert (∀ A (m : st (World Q) OpError A) (f : A → Answer), (v ← m; mret (M := st (World Q) OpError) (f v)) w = (w', r) →
    layers_inv I (w_cache (m w).1) → layers_inv I (w_cache w')) as Hcall.
  { intros A m f. st_run. destruct (m w) as [w1 []]; by intros [= <- _]. }
  destruct op as [key e|key|key scope|eref| | |]; cbn [handler_step] in Hstep; (eapply Hcall; [exact Hstep|]); try apply on_cache_inv.
  - unfold st_map_err. pose proof (set_inv I key e w Hacc Hadd Hw) as Hset. by destruct (cache_set key e w).
  - destruct (cache_remove key (w_cache w)) as [c1 r1] eqn:E1. by eapply entity_op_inv.
  - eapply same_layers_inv; [apply cache_get_layers|done].
  - eapply same_layers_inv; [apply load_related_layers|done].
  - unfold enter_handler. by destruct (in_handler _).
  - destruct (exit_handler (w_cache w)) as [c1 r1] eqn:E1. by eapply exit_handler_inv.
  - unfold exit_handler_and_discard_changes. destruct (in_handler _); [|done]. split; [apply Hw|apply map_Forall_empty].
Qed.

End Layers.

Section Block.
  Context {Q : Type} `{PQ : !PriorityQueue EntityKey (option Entity) Q}.
  Context `{PQS : !PriorityQueueSpec EntityKey (option Entity) Q} `{AR : Arithmetic}.
  Context `{CC : !CacheConfig EntityKey (option Entity)} `{IS : InputSchema} `{RS : ReadStore} `{HO : HashOrder} `{CE : CacheEnv}.
  Context (P : ArcPool) (base : gmap EntityKey Entity) `{RSS : !ReadStoreSpec P base}.
  Hypothesis Hweight : ∀ (k : EntityKey) (v : option Entity), 0 ≤ entry_weight k v.
  Hypothesis Hvid : is_Some (pool_lookup (arc_pool P) VID_FIELD).
  Implicit Types (w : World Q) (own : gmap Z EntityKey).

Abbreviation lmap := (lfu_map (K := EntityKey) (V := option Entity) (Q := Q)).

(** ** Which keys are written *)

Lemma run_written ops w w' rs (ks : list EntityKey) :
  (∀ op k, op ∈ ops → written op = Some k → k ∈ ks) → layers_inv (λ k _, k ∈ ks) (w_cache w) →
  handler_run ops w = (w', rs) → layers_inv (λ k _, k ∈ ks) (w_cache w').
Proof.
  revert w rs. induction ops as [|op ops IH]; intros w rs Hks Hw; simpl; [by intros [= <- _]|].
  destruct (handler_step op w) as [w1 r] eqn:E1.
  assert (layers_inv (λ k _, k ∈ ks) (w_cache w1)) as Hw1.
  { apply (handler_step_inv _ op w w1 r); [by intros k a b c ? _ _| |done|done].
    specialize (Hks op). destruct op; simpl; try done; intros; apply Hks; (left || done). }
  destruct r; [..|by intros [= <- _]]; destruct (handler_run ops w1) as [w2 rs2] eqn:E2; intros [= <- _];
    (eapply IH; [|exact Hw1|exact E2]); intros op' k Hin; apply Hks; by right.
Qed.

(** ** Vids

    [own] has the key for which each number of the sequence was drawn. *)

Definition owned (block : BlockNumber) own (k : EntityKey) (op : CacheOp) : Prop :=
  op_ok P op ∧
  (op = CacheRemove ∨ ∃ n, own !! n = Some k ∧ op_vid op = Some (VInt8 (Z.shiftl block 32 + n))).

Definition vids_inv (g : SeqGenerator) own w : Prop :=
  (∀ n k, own !! n = Some k → vid_seq g ≤ n < vid_seq (w_seq w)) ∧
  0 ≤ vid_seq g ≤ vid_seq (w_seq w) ∧ sg_block (w_seq w) = sg_block g ∧ layers_inv (owned (sg_block g) own) (w_cache w).

Lemma owned_accumulates block own : accumulates (owned block own).
Proof.
  intros k a b c [Ha Hva] [Hb Hvb] Hacc. destruct b as [|u|u]; simpl in *; try (injection Hacc as <-; done).
  destruct Hvb as [|(n & Hn & Hu)]; [done|]. destruct a as [|e|e]; simpl in *.
  - injection Hacc as <-. split; [done|]. right. eauto.
  - destruct (entity_merge_spec P e u Ha Hb) as (e' & He & Hok & Hm). rewrite He in Hacc. injection Hacc as <-.
    split; [done|]. right. exists n. split; [done|]. simpl. rewrite Hm. by apply lookup_union_Some_l.
  - destruct (entity_merge_spec P e u Ha Hb) as (e' & He & Hok & Hm). rewrite He in Hacc. injection Hacc as <-.
    split; [done|]. right. exists n. split; [done|]. simpl. rewrite Hm. by apply lookup_union_Some_l.
Qed.

Lemma set_seq key e w w' r :
  cache_set key e w = (w', r) →
  w_seq w' = w_seq w ∧ w_cache w' = w_cache w ∨ w_seq w' = (seq_vid (w_seq w)).1.
Proof.
  unfold cache_set, mbind, st_bind.
  destruct (take_capacity_shape key e w) as (cap & r1 & ->).
  destruct r1 as [[]| |]; [|by intros [= <- _]; left..]. unfold next_vid, lift. cbn [w_seq w_capacity w_cache].
  destruct (seq_vid (w_seq w)) as [g vid]. destruct (set_new_vid key e vid) as [u| |]; [|by intros [= <- _]; right..].
  unfold on_cache. cbn [w_cache w_seq w_capacity].
  destruct (entity_op key (CacheUpdate u) (w_cache w)) as [c1 [[]| |]]; cbn [map_err]; [|by intros [= <- _]; right..].
  destruct (is_ok _); [by intros [= <- _]; right|]. cbn [w_cache w_seq w_capacity].
  destruct (cache_get key ScopeStore c1) as [c2 [[v|]| |]]; cbn [map_err ok_or]; by intros [= <- _]; right.
Qed.

Lemma step_seq op w w' r :
  handler_step op w = (w', r) → ¬ is_set op → w_seq w' = w_seq w.
Proof.
  destruct op as [key e|key|key scope|eref| | |]; cbn [handler_step]; [by intros _ []|..]; intros Hstep _; revert Hstep;
    st_run; unfold on_cache;
    match goal with |- context [let '(_, _) := ?m in _] => destruct m as [c []]; by intros [= <- _] end.
Qed.

Lemma step_vids g own op w w' r :
  op_new P op → vids_inv g own w → (is_set op → vid_seq (w_seq w) + 1 < 2 ^ 32) → handler_step op w = (w', r) →
  ∃ own', vids_inv g own' w' ∧ vid_seq (w_seq w') ≤ vid_seq (w_seq w) + (if decide (is_set op) then 1 else 0).
Proof.
  intros Hnew (Hown & Hseq & Hblock & Hlay) Hlim Hstep.
  destruct (decide (is_set op)) as [Hset|Hset].
  - destruct op as [key e| | | | | |]; try done. simpl in Hnew.
    assert (∃ r', cache_set key e w = (w', r')) as [r' Hr].
    { revert Hstep. cbn [handler_step]. st_run. unfold st_map_err. destruct (cache_set key e w) as [w1 [[]| |]]; intros [= <- _]; eauto. }
    destruct (set_seq _ _ _ _ _ Hr) as [[Hs Hc]|Hs].
    { exists own. rewrite Hs. split; [|lia]. unfold vids_inv. by rewrite Hs, Hc. }
    specialize (Hlim I). unfold seq_vid in Hs. cbn [fst] in Hs. rewrite Z.mod_small in Hs by lia.
    exists (<[vid_seq (w_seq w) := key]> own). split; [|rewrite Hs; simpl; lia].
    unfold vids_inv. rewrite Hs. simpl. split; [|split; [lia|split; [done|]]].
    { intros n k. destruct (decide (vid_seq (w_seq w) = n)) as [<- |Hne]; [lia|]. rewrite lookup_insert_ne by done.
      intros Hn%Hown. lia. }
    eapply (handler_step_inv _ (HSet key e) w w'); [apply owned_accumulates| | |exact Hstep].
    + simpl. intros u Hu. destruct (set_new_vid_ok P key e (Z.shiftl (sg_block (w_seq w)) 32 + vid_seq (w_seq w)) Hvid Hnew)
        as (u' & Hu' & Hok & _ & Hv). rewrite Hu' in Hu. injection Hu as ->. split; [done|]. right.
      exists (vid_seq (w_seq w)). rewrite lookup_insert_eq. simpl. by rewrite Hv, Hblock.
    + eapply layers_inv_impl; [|exact Hlay]. intros k op [Hok [->|(n & Hn & Hv)]]; (split; [done|]); [by left|right].
      exists n. split; [|done]. rewrite lookup_insert_ne; [done|]. apply Hown in Hn. lia.
  - exists own. pose proof (step_seq _ _ _ _ Hstep Hset) as Hs. split; [|rewrite Hs; lia].
    unfold vids_inv. rewrite Hs. split; [done|]. split; [done|]. split; [done|].
    eapply (handler_step_inv _ op w w'); [apply owned_accumulates| |done|exact Hstep].
    destruct op; simpl; try done. by split; [|left].
Qed.

Lemma run_vids g own ops w w' rs :
  Forall (op_new P) ops → vids_inv g own w →
  vid_seq (w_seq w) + Z.of_nat (length (filter is_set ops)) < 2 ^ 32 → handler_run ops w = (w', rs) →
  ∃ own', vids_inv g own' w' ∧ vid_seq (w_seq w') < 2 ^ 32.
Proof.
  revert own w rs. induction ops as [|op ops IH]; intros own w rs Hops Hw Hlim; cbn [handler_run].
  { intros [= <- _]. exists own. split; [done|]. simpl in Hlim. lia. }
  apply Forall_cons in Hops as [Hop Hops]. destruct (handler_step op w) as [w1 r] eqn:E1. rewrite filter_cons in Hlim.
  destruct (step_vids g own op w w1 r Hop Hw) as (own1 & Hw1 & Hle); [|done|].
  { intros Hset. rewrite decide_True in Hlim by done. simpl in Hlim. lia. }
  assert (vid_seq (w_seq w1) + Z.of_nat (length (filter is_set ops)) < 2 ^ 32) as Hlim1.
  { destruct (decide (is_set op)); simpl in Hlim; lia. }
  destruct r; [..|intros [= <- _]; exists own1; split; [done|lia]]; destruct (handler_run ops w1) as [w2 rs2] eqn:E2; intros [= <- _];
    by eapply IH; [..|exact E2].
Qed.

(** ** The block *)

Lemma block_run_ok ops l g cap :
  lfu_ok P (store_view base) l → (cap = None ∨ overflow_checks = false) →
  Forall (op_new P) ops → nesting false ops = Some false →
  (∀ op k, op ∈ ops → written op = Some k → is_immutable (entity_type k) = true → base !! k = None) →
  ∃ w' rs s' n', handler_run ops (mkWorld g cap (with_current l)) = (w', rs) ∧ (Panic ∉ rs) ∧
    spec_steps (store_views base) (mkBlockView (store_views base) None) (mkBlockView ∅ None) (zip ops rs) s' n' ∧
    (∀ k, bv_block s' !! k = layer (updates (w_cache w')) k (store_view base k)) ∧
    cache_ok P base (w_cache w') ∧ in_handler (w_cache w') = false ∧ immutable_new base (w_cache w').
Proof.
  intros Hl Hcap Hops Hnest Himm. destruct (fresh_ok P base l Hl) as [Hc Hs].
  destruct (handler_run_ok P base Hweight ops false (mkWorld g cap (with_current l)) _ _ Hvid Hc Hs Hcap Hops Hnest)
    as (w' & rs & s' & n' & Hrun & Hp & _ & Hsteps & Hc' & Hs' & Hin).
  exists w', rs, s', n'. do 3 (split; [done|]). split; [apply Hs'|]. split; [done|].
  split; [by rewrite (proj1 (sims_inside _ _ _ _ Hs'))|]. intros k [op Hk] Hi _.
  destruct (run_written ops (mkWorld g cap (with_current l)) w' rs (omap written ops)) as [Hw _]; [..|done|].
  { intros op' k' Hin' Hw'. apply list_elem_of_omap. eauto. }
  { split; apply map_Forall_empty. }
  apply Hw, list_elem_of_omap in Hk as (op' & Hin' & Hw'). eauto.
Qed.


Lemma mods_unique (mods : list EntityModification) m1 m2 :
  NoDup (emod_key <$> mods) → m1 ∈ mods → m2 ∈ mods → emod_key m1 = emod_key m2 → m1 = m2.
Proof.
  intros Hnd [i Hi]%list_elem_of_lookup [j Hj]%list_elem_of_lookup Heq.
  assert (i = j) as ->; [|congruence]. apply (NoDup_lookup _ _ _ (emod_key m1) Hnd); rewrite list_lookup_fmap.
  - by rewrite Hi.
  - rewrite Hj. simpl. by f_equal.
Qed.

(** C32: the entities that a block writes have different vids.  Each of them is
    a number that was drawn in this block, so that it has the block in its
    upper 32 bits, as long as a block sets fewer than 2^32 - 100 entities. *)
Theorem block_vids_unique ops l g cap block :
  lfu_ok P (store_view base) l → (cap = None ∨ overflow_checks = false) →
  Forall (op_new P) ops → nesting false ops = Some false →
  (∀ op k, op ∈ ops → written op = Some k → is_immutable (entity_type k) = true → base !! k = None) →
  0 ≤ entity_cache_size → 0 ≤ vid_seq g → vid_seq g + Z.of_nat (length (filter is_set ops)) < 2 ^ 32 →
  ∃ w' rs r, handler_run ops (mkWorld g cap (with_current l)) = (w', rs) ∧ as_modifications block (w_cache w') = Some (Ok r) ∧
    (∀ m wr, m ∈ modifications r → as_write m = Some wr →
       ∃ n, entity_vid (ew_entity wr) = Ok (Z.shiftl (sg_block g) 32 + n) ∧ vid_seq g ≤ n < 2 ^ 32) ∧
    (∀ m1 m2 wr1 wr2, m1 ∈ modifications r → m2 ∈ modifications r → as_write m1 = Some wr1 → as_write m2 = Some wr2 →
       entity_vid (ew_entity wr1) = entity_vid (ew_entity wr2) → m1 = m2).
Proof.
  intros Hl Hcap Hops Hnest Himm Hsize Hg Hlim.
  destruct (block_run_ok ops l g cap Hl Hcap Hops Hnest Himm)
    as (w' & rs & s' & n' & Hrun & _ & _ & _ & Hc & Hin & Hnew).
  destruct (as_modifications_ok P block Hweight base (w_cache w') Hc Hin Hnew Hsize)
    as (r & l0 & Has & _ & _ & Hnd & Hmods & _).
  destruct (run_vids g ∅ ops (mkWorld g cap (with_current l)) w' rs Hops) as (own & (Hown & Hseq & _ & Hlay & _) & Hlt); [|done|done|].
  { split; [by intros n k; rewrite lookup_empty|]. split; [simpl; lia|]. split; [done|]. split; apply map_Forall_empty. }
  assert (∀ m wr, m ∈ modifications r → as_write m = Some wr →
    ∃ n, own !! n = Some (emod_key m) ∧ entity_vid (ew_entity wr) = Ok (Z.shiftl (sg_block g) 32 + n)) as Hvids.
  { intros m wr Hm Hwr. destruct (Hmods m Hm) as (op & Hop & _ & Hok). destruct (Hlay _ _ Hop) as (_ & Hv).
    assert (∃ data, ew_entity wr = data ∧ ent_ok P data ∧ keeps_vid op data ∧ op ≠ CacheRemove) as (data & -> & Hd & Hk & Hne).
    { destruct m as [k d b e|k d b e|k b]; simpl in Hwr; [injection Hwr as <-..|done]; exists d; simpl.
      - destruct Hok as (_ & _ & Hsem & ? & ?). split_and!; try done. intros ->. done.
      - destruct Hok as (_ & _ & Hsem & ? & ? & _). split_and!; try done. intros ->. done. }
    destruct Hv as [?|(n & Hn & Hv)]; [done|]. exists n. split; [done|]. unfold entity_vid.
    rewrite <-obj_map_lookup by apply Hd. by rewrite (Hk _ Hv). }
  exists w', rs, r. split; [done|]. split; [done|]. split.
  - intros m wr Hm Hwr. destruct (Hvids m wr Hm Hwr) as (n & Hn & Hv). exists n. split; [done|].
    pose proof (Hown _ _ Hn). lia.
  - intros m1 m2 wr1 wr2 Hm1 Hm2 Hw1 Hw2. destruct (Hvids m1 wr1 Hm1 Hw1) as (n1 & Hn1 & ->).
    destruct (Hvids m2 wr2 Hm2 Hw2) as (n2 & Hn2 & ->). intros [= Heq]. apply (mods_unique _ _ _ Hnd Hm1 Hm2).
    assert (n1 = n2) as -> by lia. congruence.
Qed.

End Block.
