(* ===== verification/CacheLimits.v ===== *)
(** * Nulls, the write limit and generated ids

    When [EntityCache::as_modifications] produces modifications that change
    nothing, what becomes of the write limit, and that generated ids are
    different. *)

From Stdlib Require Import ZArith Lia ZifyBool.
From stdpp Require Import base gmap list strings sorting fin_maps.
From S2P Require Import Prelude Values Intern InternFacts Entity EntityFacts Write Relational LfuCache LfuFacts.
From S2P Require Import EntityCache EntityCacheFacts ModificationFacts.

Local Open Scope Z_scope.

Section Limits.
  Context {Q : Type} `{PQ : !PriorityQueue EntityKey (option Entity) Q}.
  Context `{PQS : !PriorityQueueSpec EntityKey (option Entity) Q} `{AR : Arithmetic}.
  Context `{CC : !CacheConfig EntityKey (option Entity)} `{IS : InputSchema} `{RS : ReadStore} `{HO : HashOrder} `{CE : CacheEnv}.
  Context (P : ArcPool) (base : gmap EntityKey Entity) `{RSS : !ReadStoreSpec P base}.
  Hypothesis Hweight : ∀ (k : EntityKey) (v : option Entity), 0 ≤ entry_weight k v.
  Implicit Types (c : EntityCache Q) (w : World Q).

Abbreviation lmap := (lfu_map (K := EntityKey) (V := option Entity) (Q := Q)).

(** ** Needless modifications *)

(** When neither the entities in the store and in the frequency cache nor
    the entities that replace removed ones have explicit nulls, there is no
    modification for an entity that the block leaves as it was. *)
Theorem modifications_needed block c :
  cache_ok P base c → in_handler c = false → immutable_new base c → 0 ≤ entity_cache_size →
  (∀ k e, lmap (current c) !! k = Some (Some e) → tidy e) → map_Forall (λ _, tidy) base →
  map_Forall (λ _, tidy_op) (updates c) →
  ∃ r, as_modifications block c = Some (Ok r) ∧
    ∀ m, m ∈ modifications r → layer (updates c) (emod_key m) (store_view base (emod_key m)) ≠ store_view base (emod_key m).
Proof.
  intros Hc Hin Himm Hsize Hcur Hbase Hops.
  destruct (as_modifications_ok P block Hweight base c Hc Hin Himm Hsize) as (r & l0 & Has & Hwas & Hfrom & _ & Hmods & _).
  exists r. split; [done|]. intros m Hm. destruct (Hmods m Hm) as (op & Hop & _ & Hok). unfold layer. rewrite Hop.
  rewrite <-Hwas by eauto. destruct m as [k data b end_|k data b end_|k b]; simpl in *.
  - destruct Hok as (_ & -> & Hsem & _). simpl. by rewrite Hsem.
  - destruct Hok as (_ & _ & _ & _ & _ & Hneed). apply Hneed; [|by apply (Hops k)]. unfold was. intros e He.
    destruct (Hfrom k) as [Heq|Heq]; rewrite Heq in He.
    + destruct (lmap (current c) !! k) as [v|] eqn:Ek; [|done]. simpl in He. subst v. by apply (Hcur k).
    + destruct (base !! k) as [x|] eqn:Ek; [|done]. simpl in He. injection He as ->. by apply (Hbase k).
  - destruct Hok as ([e ->] & ->). done.
Qed.

(** When an entity is removed and set again with an explicit null, the null
    goes into the modification and into the frequency cache.  The modification
    is there even when the entity is as it was but for the null. *)
Theorem overwrite_keeps_nulls block key l mods cur u (a : string) :
  a ≠ VID_FIELD → lfu_wf l → dead_weight l = false → lmap l !! key = Some (Some cur) → ent_ok P cur → ent_ok P u →
  obj_map u = <[a := VNull]> (obj_map cur) → obj_map cur !! a = None →
  view u = view cur ∧
  ∃ l', modify_one block (key, CacheOverwrite u) (l, mods) = ((l', mods ++ [Overwrite key u block None]), Ok tt) ∧
    lmap l' !! key = Some (Some u).
Proof.
  intros Ha Hwf Hd Hk [Hcur Hp] [Hu Hpu] Hmap Hname.
  assert (visible (obj_map u) = <[a := VNull]> (visible (obj_map cur))) as Hvis.
  { unfold visible. rewrite Hmap. by apply delete_insert_ne. }
  assert (visible (obj_map cur) !! a = None) as Hn by (unfold visible; by rewrite lookup_delete_ne).
  split.
  { unfold view. rewrite Hvis. apply map_eq. intros k. rewrite !strip_nulls_lookup.
    destruct (decide (k = a)) as [-> |Hne]; [by rewrite lookup_insert_eq, Hn|by rewrite lookup_insert_ne]. }
  unfold modify_one. destruct (lfu_remove_spec (E := StoreError) Hweight l key Hwf) as (l1 & -> & Hwf1 & Hm1).
  rewrite Hk. cbn [mbind outcome_bind mjoin option_join].
  destruct (lfu_insert_spec (E := StoreError) Hweight l1 key (Some u) Hwf1) as (l2 & -> & Hwf2 & Hm2). cbn [mbind outcome_bind].
  unfold entity_eq. rewrite eq_ignore_key_spec by (done || congruence). fold (visible (obj_map cur)) (visible (obj_map u)).
  rewrite bool_decide_false; [|intros Heq; by rewrite Heq, Hvis, lookup_insert_eq in Hn].
  exists l2. split; [done|]. by rewrite Hm2, lookup_insert_eq.
Qed.

(** ** The write limit *)

(** The limit on what a block writes is not checked for an entity that is
    in the frequency cache.  When such an entity is larger than the capacity
    that is left, the subtraction underflows: a build with overflow checks
    panics, and in others the capacity becomes so large that there is no limit
    for the rest of the block. *)
Theorem set_capacity_underflows key e w cap :
  w_capacity w = Some cap → is_Some (lmap (current (w_cache w)) !! key) → cap < entity_weight e →
  (overflow_checks = true → cache_set key e w = (w, Panic)) ∧
  (overflow_checks = false → take_capacity key e w =
     (mkWorld (w_seq w) (Some (cap - entity_weight e + 2 ^ 64)) (w_cache w), Ok tt)).
Proof.
  intros Hcap Hk Hlt.
  assert (take_capacity key e w =
    (if overflow_checks then (w, Panic) else (mkWorld (w_seq w) (Some (cap - entity_weight e + 2 ^ 64)) (w_cache w), Ok tt))) as Ht.
  { unfold take_capacity. rewrite Hcap, lfu_contains_spec, bool_decide_true by done. simpl. unfold usize_sub.
    destruct (Z.leb_spec (entity_weight e) cap); [lia|]. by destruct overflow_checks. }
  split; intros Ho; rewrite Ho in Ht; [|done]. unfold cache_set, mbind, st_bind. by rewrite Ht.
Qed.

End Limits.

(** ** Generated ids *)

Lemma le_value_bytes n z : le_value (le_bytes n z) = z mod 256 ^ Z.of_nat n.
Proof.
  revert z. induction n as [|n IH]; intros z; [by rewrite Z.mod_1_r|]. cbn [le_bytes le_value]. rewrite IH, Nat2Z.inj_succ, Z.pow_succ_r by lia.
  assert (0 < 256 ^ Z.of_nat n) by (apply Z.pow_pos_nonneg; lia). rewrite Z.rem_mul_r by lia. done.
Qed.

Lemma le_bytes_length n z : length (le_bytes n z) = n.
Proof. revert z. induction n as [|n IH]; intros z; simpl; [done|]. by rewrite IH. Qed.

Lemma le_value_app a b : le_value (a ++ b) = le_value a + 256 ^ Z.of_nat (length a) * le_value b.
Proof.
  induction a as [|x a IH]; [simpl; lia|]. cbn [app le_value length]. rewrite IH, Nat2Z.inj_succ, Z.pow_succ_r by lia. lia.
Qed.

Lemma be_bytes_inj n x y : 0 ≤ x < 256 ^ Z.of_nat n → 0 ≤ y < 256 ^ Z.of_nat n → be_bytes n x = be_bytes n y → x = y.
Proof.
  intros Hx Hy Heq. unfold be_bytes in Heq. apply (inj reverse) in Heq. apply (f_equal le_value) in Heq.
  rewrite !le_value_bytes, !Z.mod_small in Heq by done. done.
Qed.

Lemma int8_id block seq :
  0 ≤ block < 2 ^ 31 → 0 ≤ seq < 2 ^ 32 → i64_from_le_bytes (le_bytes 4 seq ++ le_bytes 4 block) = Z.shiftl block 32 + seq.
Proof.
  intros Hb Hs. unfold i64_from_le_bytes. rewrite le_value_app, !le_value_bytes, le_bytes_length.
  change (256 ^ Z.of_nat 4) with (2 ^ 32). rewrite !Z.mod_small by lia. rewrite Z.shiftl_mul_pow2 by lia.
  unfold wrap_signed. rewrite Z.mod_small by lia. destruct (Z.ltb_spec (seq + 2 ^ 32 * block) (2 ^ (64 - 1))); lia.
Qed.

(** Generated ids are never used twice.  Ids that two generators produce
    are only equal when the generators are for the same block and are at the
    same position, and each use moves the position on. *)
Theorem generated_ids_unique g1 g2 t id :
  0 ≤ sg_block g1 < 2 ^ 31 → 0 ≤ sg_block g2 < 2 ^ 31 → 0 ≤ id_seq g1 < 2 ^ 32 - 1 → 0 ≤ id_seq g2 < 2 ^ 32 - 1 →
  (seq_id g1 t).2 = Ok id → (seq_id g2 t).2 = Ok id →
  sg_block g1 = sg_block g2 ∧ id_seq g1 = id_seq g2 ∧ id_seq (seq_id g1 t).1 = id_seq g1 + 1.
Proof.
  intros Hb1 Hb2 Hs1 Hs2. unfold seq_id. cbn [fst snd id_seq]. rewrite Z.mod_small by lia. destruct t; cbn [generate_id]; [done|..].
  - intros H1 H2. assert (be_bytes 4 (sg_block g1) ++ be_bytes 4 (id_seq g1) = be_bytes 4 (sg_block g2) ++ be_bytes 4 (id_seq g2)) as Heq by congruence.
    apply app_inj_1 in Heq as [Hb Hs]; [|unfold be_bytes; by rewrite !length_reverse, !le_bytes_length].
    apply (be_bytes_inj 4) in Hb, Hs; simpl; try lia.
  - rewrite !int8_id, !Z.shiftl_mul_pow2 by lia. intros H1 H2. assert (sg_block g1 * 2 ^ 32 + id_seq g1 = sg_block g2 * 2 ^ 32 + id_seq g2) by congruence. lia.
Qed.
