(* ===== verification/BlockState.v ===== *)
(** * The state of a block while its handlers run

    Models [BlockState] of [graph/src/components/subgraph/instance.rs]: the
    entity cache of a block together with the data sources that its handlers
    create, the errors, and the capacity for writes that is left.  Metrics are
    left out.  The second half has the properties: what a handler that fails
    leaves behind, and what checkpoints restore. *)

From Stdlib Require Import ZArith Lia ZifyBool.
From stdpp Require Import base gmap list strings.
From S2P Require Import Prelude Values Intern Entity Write LfuCache LfuFacts EntityCache EntityCacheFacts CacheRuns BlockFacts.

Local Open Scope Z_scope.

(** [InstanceDSTemplate], by what its methods use *)
Inductive InstanceDSTemplate :=
| Onchain (name : string) (manifest_idx : option Z)
| Offchain (name : string) (manifest_idx : Z).

Definition template_name (self : InstanceDSTemplate) : string :=
  match self with Onchain name _ | Offchain name _ => name end.

Definition is_onchain (self : InstanceDSTemplate) : bool :=
  match self with Onchain _ _ => true | Offchain _ _ => false end.

Definition template_manifest_idx (self : InstanceDSTemplate) : option Z :=
  match self with Onchain _ idx => idx | Offchain _ idx => Some idx end.

Record InstanceDSTemplateInfo := mkTemplateInfo {
  template : InstanceDSTemplate;
  params : list string;
  template_context : option string;
  template_creation_block : BlockNumber;
}.

(** [GRAPH_NODE_BLOCK_WRITE_CAPACITY] *)
Class BlockEnv := { block_write_capacity : Z }.

Record BlockState (Q : Type) := mkBlockState {
  entity_cache : EntityCache Q;
  bs_deterministic_errors : list SubgraphError;
  created_data_sources : list InstanceDSTemplateInfo;
  persisted_data_sources : list StoredDynamicDataSource;
  handler_created_data_sources : list InstanceDSTemplateInfo;
  processed_data_sources : list StoredDynamicDataSource;
  bs_in_handler : bool;
  write_capacity_remaining : Z;
}.
Arguments mkBlockState {Q}.
Arguments entity_cache {Q}.
Arguments bs_deterministic_errors {Q}.
Arguments created_data_sources {Q}.
Arguments persisted_data_sources {Q}.
Arguments handler_created_data_sources {Q}.
Arguments processed_data_sources {Q}.
Arguments bs_in_handler {Q}.
Arguments write_capacity_remaining {Q}.

Record BlockStateCheckpoint := mkCheckpoint {
  created_data_sources_count : nat;
  persisted_data_sources_count : nat;
  processed_data_sources_count : nat;
  deterministic_errors_count : nat;
}.

Section BlockState.
  Context {Q : Type} `{PQ : !PriorityQueue EntityKey (option Entity) Q} `{AR : Arithmetic}.
  Context `{CC : !CacheConfig EntityKey (option Entity)} `{IS : InputSchema} `{RS : ReadStore} `{HO : HashOrder} `{CE : CacheEnv} `{BE : BlockEnv}.
  Implicit Types (b : BlockState Q).

Definition set_cache (c : EntityCache Q) b : BlockState Q :=
  mkBlockState c (bs_deterministic_errors b) (created_data_sources b) (persisted_data_sources b)
    (handler_created_data_sources b) (processed_data_sources b) (bs_in_handler b) (write_capacity_remaining b).

(** A method of the cache on [self.entity_cache] *)
Definition with_cache {A} (m : st (EntityCache Q) StoreError A) : st (BlockState Q) StoreError A := λ b,
  let '(c, r) := m (entity_cache b) in (set_cache c b, r).

Definition block_state_new (lfu_cache : LfuCache Q) : BlockState Q :=
  mkBlockState (with_current lfu_cache) [] [] [] [] [] false block_write_capacity.

(** [extend]; the subtraction saturates. *)
Definition block_state_extend (other : BlockState Q) : st (BlockState Q) StoreError unit := λ b,
  if bs_in_handler other then (b, Panic)
  else
    let created := created_data_sources b ++ (if bs_in_handler b then [] else created_data_sources other) in
    let handler_created := handler_created_data_sources b ++ (if bs_in_handler b then created_data_sources other else []) in
    let errors := bs_deterministic_errors b ++ bs_deterministic_errors other in
    match cache_extend (entity_cache other) (entity_cache b) with
    | (c, Ok _) =>
        (mkBlockState c errors created (persisted_data_sources b ++ persisted_data_sources other) handler_created
           (processed_data_sources b ++ processed_data_sources other) (bs_in_handler b)
           (Z.max 0 (write_capacity_remaining b - write_capacity_remaining other)), Ok tt)
    | (c, r) =>
        (mkBlockState c errors created (persisted_data_sources b) handler_created (processed_data_sources b)
           (bs_in_handler b) (write_capacity_remaining b), r)
    end.

Definition has_created_data_sources b : outcome StoreError bool :=
  if bs_in_handler b then Panic else Ok (match created_data_sources b with [] => false | _ => true end).

Definition has_created_on_chain_data_sources b : outcome StoreError bool :=
  if bs_in_handler b then Panic else Ok (existsb (λ ds, is_onchain (template ds)) (created_data_sources b)).

Definition drain_created_data_sources : st (BlockState Q) StoreError (list InstanceDSTemplateInfo) := λ b,
  if bs_in_handler b then (b, Panic)
  else
    (mkBlockState (entity_cache b) (bs_deterministic_errors b) [] (persisted_data_sources b)
       (handler_created_data_sources b) (processed_data_sources b) (bs_in_handler b) (write_capacity_remaining b),
     Ok (created_data_sources b)).

Definition block_enter_handler : st (BlockState Q) StoreError unit := λ b,
  if bs_in_handler b then (b, Panic)
  else
    with_cache enter_handler
      (mkBlockState (entity_cache b) (bs_deterministic_errors b) (created_data_sources b) (persisted_data_sources b)
         (handler_created_data_sources b) (processed_data_sources b) true (write_capacity_remaining b)).

Definition block_exit_handler : st (BlockState Q) StoreError unit := λ b,
  if bs_in_handler b then
    with_cache exit_handler
      (mkBlockState (entity_cache b) (bs_deterministic_errors b)
         (created_data_sources b ++ handler_created_data_sources b) (persisted_data_sources b)
         [] (processed_data_sources b) false (write_capacity_remaining b))
  else (b, Panic).

Definition exit_handler_and_discard_changes_due_to_error (e : SubgraphError) : st (BlockState Q) StoreError unit := λ b,
  if bs_in_handler b then
    match
      with_cache exit_handler_and_discard_changes
        (mkBlockState (entity_cache b) (bs_deterministic_errors b) (created_data_sources b) (persisted_data_sources b)
           [] (processed_data_sources b) false (write_capacity_remaining b))
    with
    | (b, Ok _) =>
        (mkBlockState (entity_cache b) (bs_deterministic_errors b ++ [e]) (created_data_sources b) (persisted_data_sources b)
           (handler_created_data_sources b) (processed_data_sources b) (bs_in_handler b) (write_capacity_remaining b), Ok tt)
    | (b, r) => (b, r)
    end
  else (b, Panic).

Definition push_created_data_source (ds : InstanceDSTemplateInfo) : st (BlockState Q) StoreError unit := λ b,
  if bs_in_handler b then
    (mkBlockState (entity_cache b) (bs_deterministic_errors b) (created_data_sources b) (persisted_data_sources b)
       (handler_created_data_sources b ++ [ds]) (processed_data_sources b) (bs_in_handler b) (write_capacity_remaining b), Ok tt)
  else (b, Panic).

Definition persist_data_source (ds : StoredDynamicDataSource) b : BlockState Q :=
  mkBlockState (entity_cache b) (bs_deterministic_errors b) (created_data_sources b) (persisted_data_sources b ++ [ds])
    (handler_created_data_sources b) (processed_data_sources b) (bs_in_handler b) (write_capacity_remaining b).

Definition checkpoint b : outcome StoreError BlockStateCheckpoint :=
  if bs_in_handler b then Panic
  else Ok (mkCheckpoint (length (created_data_sources b)) (length (persisted_data_sources b))
             (length (processed_data_sources b)) (length (bs_deterministic_errors b))).

(** [Vec::truncate] is [take]. *)
Definition restore (cp : BlockStateCheckpoint) : st (BlockState Q) StoreError unit := λ b,
  if bs_in_handler b then (b, Panic)
  else
    (mkBlockState (entity_cache b) (take (deterministic_errors_count cp) (bs_deterministic_errors b))
       (take (created_data_sources_count cp) (created_data_sources b))
       (take (persisted_data_sources_count cp) (persisted_data_sources b))
       (handler_created_data_sources b)
       (take (processed_data_sources_count cp) (processed_data_sources b))
       (bs_in_handler b) (write_capacity_remaining b), Ok tt).

(** The write of an entity by a handler, at the end of [HostExports::store_set] *)
Definition block_set (key : EntityKey) (entity : Entity) : st (SeqGenerator * BlockState Q) SetError unit := λ gb,
  let '(g, b) := gb in
  let '(w, r) := cache_set key entity (mkWorld g (Some (write_capacity_remaining b)) (entity_cache b)) in
  ((w_seq w,
    mkBlockState (w_cache w) (bs_deterministic_errors b) (created_data_sources b) (persisted_data_sources b)
      (handler_created_data_sources b) (processed_data_sources b) (bs_in_handler b)
      (default (write_capacity_remaining b) (w_capacity w))), r).

End BlockState.

(** ** A handler that fails *)

(** What a handler does *)
Inductive BodyOp :=
| BodySet (key : EntityKey) (entity : Entity)
| BodyRemove (key : EntityKey)
| BodyGet (key : EntityKey) (scope : GetScope)
| BodyCreate (ds : InstanceDSTemplateInfo).

Section Handlers.
  Context {Q : Type} `{PQ : !PriorityQueue EntityKey (option Entity) Q} `{AR : Arithmetic}.
  Context `{CC : !CacheConfig EntityKey (option Entity)} `{IS : InputSchema} `{RS : ReadStore} `{HO : HashOrder} `{CE : CacheEnv} `{BE : BlockEnv}.
  Implicit Types (b : BlockState Q) (c : EntityCache Q) (gb : SeqGenerator * BlockState Q).

(** A panic ends the handler; errors are for the handler to deal with. *)
Definition body_step (op : BodyOp) gb : option (SeqGenerator * BlockState Q) :=
  let '(g, b) := gb in
  match op with
  | BodySet key entity => match block_set key entity gb with (_, Panic) => None | (gb, _) => Some gb end
  | BodyRemove key => match with_cache (cache_remove key) b with (_, Panic) => None | (b, _) => Some (g, b) end
  | BodyGet key scope => match with_cache (cache_get key scope) b with (_, Panic) => None | (b, _) => Some (g, b) end
  | BodyCreate ds => match push_created_data_source ds b with (_, Panic) => None | (b, _) => Some (g, b) end
  end.

Definition body_run (ops : list BodyOp) gb : option (SeqGenerator * BlockState Q) :=
  foldl (λ o op, o ≫= body_step op) (Some gb) ops.

(** No handler is running. *)
Definition quiet b : Prop :=
  bs_in_handler b = false ∧ in_handler (entity_cache b) = false ∧ handler_updates (entity_cache b) = ∅ ∧
  handler_created_data_sources b = [].

(** The part of the state that a running handler leaves alone *)
Definition kept b b' : Prop :=
  bs_in_handler b' = bs_in_handler b ∧ in_handler (entity_cache b') = in_handler (entity_cache b) ∧
  updates (entity_cache b') = updates (entity_cache b) ∧
  bs_deterministic_errors b' = bs_deterministic_errors b ∧ created_data_sources b' = created_data_sources b ∧
  persisted_data_sources b' = persisted_data_sources b ∧ processed_data_sources b' = processed_data_sources b.

Lemma entity_op_inside {E} key op c :
  in_handler c = true →
  let c' := (entity_op (E := E) key op c).1 in updates c' = updates c ∧ in_handler c' = in_handler c.
Proof. intros Hin. unfold entity_op. rewrite Hin. by destruct (op_in key op (handler_updates c)) as [m|[]|]. Qed.

Lemma body_step_kept op g b g' b' :
  in_handler (entity_cache b) = true → body_step op (g, b) = Some (g', b') → kept b b'.
Proof.
  intros Hin. destruct op as [key e|key|key scope|ds]; cbn [body_step].
  - unfold block_set. set (w := mkWorld g (Some (write_capacity_remaining b)) (entity_cache b)).
    destruct (cache_set_cases key e w) as [Hc|(u & c & _ & Hc & Hu & _ & Hi)]; destruct (cache_set key e w) as [w' r]; simpl in *.
    + destruct r; intros [= <- <-]; unfold kept; simpl; by rewrite Hc.
    + pose proof (entity_op_inside (E := SetError) key (CacheUpdate u) (entity_cache b) Hin) as [Hu' Hi']. rewrite Hc in Hu', Hi'.
      destruct r; intros [= <- <-]; unfold kept; simpl; split_and!; congruence.
  - unfold with_cache. pose proof (entity_op_inside (E := StoreError) key CacheRemove (entity_cache b) Hin) as [Hu Hi].
    unfold cache_remove. destruct (entity_op key CacheRemove (entity_cache b)) as [c r].
    destruct r; intros [= <- <-]; unfold kept; simpl; by split_and!.
  - unfold with_cache. pose proof (cache_get_layers key scope (entity_cache b)) as (Hu & _ & Hi).
    destruct (cache_get key scope (entity_cache b)) as [c r]. destruct r; intros [= <- <-]; unfold kept; simpl; by split_and!.
  - unfold push_created_data_source. destruct (bs_in_handler b) eqn:Eb; [|done]. intros [= <- <-].
    unfold kept; simpl. by split_and!.
Qed.

Lemma kept_trans b1 b2 b3 : kept b1 b2 → kept b2 b3 → kept b1 b3.
Proof. unfold kept. intuition congruence. Qed.

Lemma body_run_kept ops g b g' b' :
  in_handler (entity_cache b) = true → body_run ops (g, b) = Some (g', b') → kept b b'.
Proof.
  unfold body_run. revert g' b'. induction ops as [|op ops IH] using rev_ind; intros g' b' Hin; simpl; [by intros [= <- <-]|].
  rewrite foldl_app. simpl. destruct (foldl _ (Some (g, b)) ops) as [[g1 b1]|]; [|done]. simpl. intros Hstep.
  pose proof (IH g1 b1 Hin eq_refl) as Hk. eapply kept_trans; [exact Hk|]. eapply body_step_kept; [|exact Hstep].
  destruct Hk as (_ & -> & _). done.
Qed.

(** C36: a handler that fails leaves nothing behind but its error.  After it has
    been entered, has done anything short of a panic, and was left with its
    changes discarded, the operations in the cache, the created, persisted and
    processed data sources are what they were, no handler is running, and
    there is one more error. *)
Theorem failed_handler_leaves_error ops e g b g' b1 b2 :
  quiet b → block_enter_handler b = (b1, Ok tt) → body_run ops (g, b1) = Some (g', b2) →
  ∃ b3, exit_handler_and_discard_changes_due_to_error e b2 = (b3, Ok tt) ∧ quiet b3 ∧
    updates (entity_cache b3) = updates (entity_cache b) ∧ created_data_sources b3 = created_data_sources b ∧
    persisted_data_sources b3 = persisted_data_sources b ∧ processed_data_sources b3 = processed_data_sources b ∧
    bs_deterministic_errors b3 = bs_deterministic_errors b ++ [e].
Proof.
  intros (Hb & Hc & Hh & Hcr). unfold block_enter_handler, with_cache, enter_handler. rewrite Hb. simpl. rewrite Hc. intros [= <-] Hrun.
  apply body_run_kept in Hrun as (Hin & Hin' & Hu & He & Hcd & Hp & Hpr); [|done]. simpl in *.
  unfold exit_handler_and_discard_changes_due_to_error, with_cache, exit_handler_and_discard_changes. rewrite Hin. simpl. rewrite Hin'.
  eexists. split; [done|]. unfold quiet. simpl. split_and!; congruence.
Qed.

(** ** Checkpoints *)

(** The operations that may come between a checkpoint and its use *)
Inductive block_step : BlockState Q → BlockState Q → Prop :=
| step_persist ds b : block_step b (persist_data_source ds b)
| step_extend other b b' : block_state_extend other b = (b', Ok tt) → block_step b b'
| step_enter b b' : block_enter_handler b = (b', Ok tt) → block_step b b'
| step_exit b b' : block_exit_handler b = (b', Ok tt) → block_step b b'
| step_discard e b b' : exit_handler_and_discard_changes_due_to_error e b = (b', Ok tt) → block_step b b'
| step_body op g b g' b' : in_handler (entity_cache b) = true → body_step op (g, b) = Some (g', b') → block_step b b'.

Definition grows b b' : Prop :=
  created_data_sources b `prefix_of` created_data_sources b' ∧ persisted_data_sources b `prefix_of` persisted_data_sources b' ∧
  processed_data_sources b `prefix_of` processed_data_sources b' ∧ bs_deterministic_errors b `prefix_of` bs_deterministic_errors b'.

Lemma step_grows b b' : block_step b b' → grows b b'.
Proof.
  assert (∀ {A} (l k : list A), l `prefix_of` l ++ k) as Happ by (intros; by apply prefix_app_r).
  intros [ds ?|other ? ? Hs|? ? Hs|? ? Hs|e ? ? Hs|op g ? g' ? Hin Hs]; unfold grows; try revert Hs.
  - simpl. split_and!; (done || apply Happ).
  - unfold block_state_extend. destruct (bs_in_handler other); [done|]. destruct (cache_extend _ _) as [c [[]| |]]; [|done..].
    intros [= <-]. simpl. split_and!; (done || apply Happ).
  - unfold block_enter_handler, with_cache. destruct (bs_in_handler _); [done|]. destruct (enter_handler _) as [c [[]| |]]; [|done..].
    intros [= <-]. simpl. split_and!; (done || apply Happ).
  - unfold block_exit_handler, with_cache. destruct (bs_in_handler _); [|done]. destruct (exit_handler _) as [c [[]| |]]; [|done..].
    intros [= <-]. simpl. split_and!; (done || apply Happ).
  - unfold exit_handler_and_discard_changes_due_to_error, with_cache. destruct (bs_in_handler _); [|done].
    destruct (exit_handler_and_discard_changes _) as [c [[]| |]]; [|done..]. intros [= <-]. simpl. split_and!; (done || apply Happ).
  - intros (_ & _ & _ & -> & -> & -> & ->)%body_step_kept; [by split_and!|done].
Qed.

Lemma steps_grow b b' : rtc block_step b b' → grows b b'.
Proof.
  induction 1 as [b|b1 b2 b3 Hs _ IH]; [by unfold grows; split_and!|]. apply step_grows in Hs.
  destruct Hs as (? & ? & ? & ?), IH as (? & ? & ? & ?). unfold grows. split_and!; by etrans.
Qed.

(** [restore] takes back what was added since the checkpoint: whatever
    handlers were run and states merged in the meantime, as long as no created
    data sources were drained, the created, persisted and processed data
    sources and the errors are what they were.  The entity cache keeps all
    changes. *)
Theorem restore_checkpoint b b' cp :
  checkpoint b = Ok cp → rtc block_step b b' → bs_in_handler b' = false →
  ∃ b'', restore cp b' = (b'', Ok tt) ∧ created_data_sources b'' = created_data_sources b ∧
    persisted_data_sources b'' = persisted_data_sources b ∧ processed_data_sources b'' = processed_data_sources b ∧
    bs_deterministic_errors b'' = bs_deterministic_errors b ∧ entity_cache b'' = entity_cache b'.
Proof.
  unfold checkpoint. destruct (bs_in_handler b); [done|]. intros [= <-] Hsteps Hin. unfold restore. rewrite Hin.
  eexists. split; [done|]. simpl. destruct (steps_grow b b' Hsteps) as ([? ->] & [? ->] & [? ->] & [? ->]).
  by rewrite !take_app_length.
Qed.

(** ** The write capacity of merged states *)

(** Merging a state subtracts from the capacity what the other state has
    left, instead of what it has used.  A state that has not written anything
    takes all capacity away, and the next write of an entity that is not in the
    frequency cache fails. *)
Theorem extend_takes_capacity other b b' g key e :
  write_capacity_remaining other = block_write_capacity → write_capacity_remaining b ≤ block_write_capacity →
  block_state_extend other b = (b', Ok tt) →
  write_capacity_remaining b' = 0 ∧
  (lfu_contains_key (V := option Entity) key (current (entity_cache b')) = false → 0 < entity_weight e →
   block_set key e (g, b') = ((g, b'), Err (ExceededWriteLimit (entity_id key)))).
Proof.
  intros Ho Hb. unfold block_state_extend. destruct (bs_in_handler other); [done|].
  destruct (cache_extend _ _) as [c [[]| |]]; [|done..]. intros [= <-]. simpl. rewrite Ho, Z.max_l by lia. split; [done|].
  intros Hk He. unfold block_set, cache_set, take_capacity, mbind, st_bind. simpl. rewrite Hk. simpl.
  destruct (Z.ltb_spec 0 (entity_weight e)); [|lia]. done.
Qed.

End Handlers.
