(* ===== verification/HostExports.v ===== *)
(** * The functions that mappings call

    Models the host functions of [runtime/wasm/src/host_exports.rs] that change or
    read entities and create data sources, with the parts of the input schema
    that they use, the access restrictions of data sources, and the gas counter
    of [graph/src/runtime/gas]; and how a handler is invoked
    ([runtime/wasm/src/module/instance.rs]). *)

From Stdlib Require Import ZArith Lia.
From stdpp Require Import base gmap list strings.
From S2P Require Import Prelude Values IdText Intern Entity Write Relational LfuCache EntityCache BlockState.

Local Open Scope Z_scope.

(** ** Errors *)

(** What is inside an [anyhow::Error] *)
Inductive HostCause :=
| Message (msg : string)
| MakeCause (e : EntityValidationError)
| SetCause (e : SetError)
| StoreCause (e : StoreError)
| RelatedCause (e : RelatedError).

Inductive HostExportError :=
| HostUnknown (e : HostCause)
| HostPossibleReorg (e : HostCause)
| HostDeterministic (e : HostCause).

(** The conversion into an [anyhow::Error], which is unknown to the caller *)
Definition as_anyhow (e : HostExportError) : HostExportError :=
  match e with HostUnknown c | HostPossibleReorg c | HostDeterministic c => HostUnknown c end.

(** [DeterministicHostError] as an error of a host function *)
Definition as_deterministic (e : HostExportError) : HostExportError :=
  match e with HostUnknown c | HostPossibleReorg c | HostDeterministic c => HostDeterministic c end.

(** ** Gas *)

(** Gas is an [u64] with saturating operations. *)
Definition u64_saturate (z : Z) : Z := Z.min z (2 ^ 64 - 1).

Definition HOST_EXPORT_GAS : Z := 10000.
Definition CONST_MAX_GAS_PER_HANDLER : Z := 1000 * 10000000000.

Record GasOp := mkGasOp { base_cost : Z; size_mult : Z }.

Definition STORE_SET : GasOp := mkGasOp (CONST_MAX_GAS_PER_HANDLER / 250000) (CONST_MAX_GAS_PER_HANDLER / 1000000000).
Definition STORE_GET : GasOp := mkGasOp (CONST_MAX_GAS_PER_HANDLER / 10000000) (CONST_MAX_GAS_PER_HANDLER / 10000000000).
Definition STORE_REMOVE : GasOp := STORE_SET.
Definition CREATE_DATA_SOURCE : Z := CONST_MAX_GAS_PER_HANDLER / 100000.

Definition with_args (self : GasOp) (size : Z) : Z :=
  u64_saturate (base_cost self + u64_saturate (size * size_mult self)).

(** [GasSizeOf] of the arguments of the functions, and the limit for a handler *)
Class GasEnv := {
  gas_size_set : EntityKey → gmap string Value → Z;
  gas_size_remove : EntityKey → Z;
  gas_size_get : EntityKey → option Entity → Z;
  gas_size_related : LoadRelatedRequest → list Entity → Z;
  max_gas_per_handler : Z;
}.

(** [GasCounter::consume_host_fn_inner] on the counter; metrics are left out. *)
Definition consume_host_fn `{GasEnv} (amount : Z) : st Z HostExportError unit := λ counter,
  let amount := u64_saturate (amount + HOST_EXPORT_GAS) in
  let new := u64_saturate (counter + amount) in
  (new, if max_gas_per_handler <=? new then Err (HostUnknown (Message "Gas limit exceeded")) else Ok tt).

(** ** The input schema *)

Inductive TypeKind := KObject | KInterface | KAggregation.

(** What the schema knows about types in addition to [InputSchema]: its pool, the
    kind of the [TypeInfo] with a name, and whether an object type is a
    timeseries *)
Class SchemaTypes := {
  schema_pool : ArcPool;
  type_kind : EntityType → option TypeKind;
  is_timeseries : EntityType → bool;
}.

Section Schema.
  Context `{IS : InputSchema} `{ST : SchemaTypes} `{HX : Hex}.

Definition schema_entity_type (named : string) : outcome HostExportError EntityType :=
  match pool_lookup (arc_pool schema_pool) named with
  | None => Err (HostUnknown (Message "internal error: unknown name when looking up entity type"))
  | Some _ =>
      let t := mkEntityType named in
      match type_kind t with
      | None => Err (HostUnknown (Message "internal error: entity type does not exist"))
      | Some _ => Ok t
      end
  end.

Definition is_object_type (t : EntityType) : bool :=
  match type_kind t with Some KObject => true | _ => false end.

Definition has_field (t : EntityType) (name : string) : bool :=
  match type_kind t, object_type t with
  | Some KObject, Some fields => existsb (λ field, bool_decide (field_name field = name)) fields
  | _, _ => false
  end.

Definition has_field_with_name (t : EntityType) (field : string) : bool :=
  match pool_lookup (arc_pool schema_pool) field with Some _ => has_field t field | None => false end.

(** [object_type()] of an entity type, by its flag *)
Definition timeseries (t : EntityType) : option bool := object_type t ≫= λ _, Some (is_timeseries t).

Definition entity_type_id_type (t : EntityType) : outcome HostExportError IdType :=
  match type_kind t with
  | None => Err (HostUnknown (Message "internal error: entity type does not exist"))
  | Some _ => Ok (schema_id_type t)
  end.

Definition parse_id (t : EntityType) (id : string) : outcome HostExportError Id :=
  ty ← entity_type_id_type t;
  map_err (λ e, HostUnknown (Message e)) (id_type_parse ty id).

Definition parse_key_in (t : EntityType) (id : string) (causality_region : CausalityRegion)
    : outcome HostExportError EntityKey :=
  id ← parse_id t id;
  Ok (mkEntityKey t id causality_region).

End Schema.

(** ** Data sources *)

Inductive EntityTypeAccess := AccessAny | Restricted (types : list EntityType).

Definition access_allows (self : EntityTypeAccess) (t : EntityType) : bool :=
  match self with AccessAny => true | Restricted types => bool_decide (t ∈ types) end.

(** [DataSourceDetails], by what the functions use; [strict_fields] stands for
    an API version of 0.0.8 or later. *)
Record DataSourceDetails := mkDataSourceDetails {
  strict_fields : bool;
  entity_type_access : EntityTypeAccess;
  templates : list InstanceDSTemplate;
  dsd_causality_region : CausalityRegion;
}.

(** ** The proof of indexing *)

Inductive ProofOfIndexingEvent :=
| PoiSetEntity (entity_type id : string) (data : Entity)
| PoiRemoveEntity (entity_type id : string)
| PoiDeterministicError (redacted_events : Z).

(** ** The functions *)

(** The order in which a [HashMap<Word, Value>] is iterated *)
Class DataOrder := {
  data_iter : gmap string Value → list (string * Value);
  data_iter_perm : ∀ m, data_iter m ≡ₚ map_to_list m;
}.

(** [Value::type_name] *)
Fixpoint value_type_name (v : Value) : string :=
  match v with
  | VBigDecimal _ _ => "BigDecimal"
  | VBigInt _ => "BigInt"
  | VBool _ => "Boolean"
  | VBytes _ => "Bytes"
  | VInt _ => "Int"
  | VInt8 _ => "Int8"
  | VTimestamp _ => "Timestamp"
  | VList (v :: _) => "[" +:+ value_type_name v +:+ "]"
  | VList [] => "[Any]"
  | VNull => "Null"
  | VString _ => "String"
  end.

(** The state of the block, and what the functions change next to it *)
Record HostState (Q : Type) := mkHostState {
  hs_seq : SeqGenerator;
  hs_state : BlockState Q;
  hs_gas : Z;
  hs_poi : list ProofOfIndexingEvent;
}.
Arguments mkHostState {Q}.
Arguments hs_seq {Q}.
Arguments hs_state {Q}.
Arguments hs_gas {Q}.
Arguments hs_poi {Q}.

Section HostExports.
  Context {Q : Type} `{PQ : !PriorityQueue EntityKey (option Entity) Q} `{AR : Arithmetic}.
  Context `{CC : !CacheConfig EntityKey (option Entity)} `{IS : InputSchema} `{RS : ReadStore} `{HO : HashOrder} `{CE : CacheEnv}.
  Context `{ST : SchemaTypes} `{HX : Hex} `{GE : GasEnv} `{DO : DataOrder}.

(** The cache with the generator and the write capacity *)
Definition world_of (s : HostState Q) : World Q :=
  mkWorld (hs_seq s) (Some (write_capacity_remaining (hs_state s))) (entity_cache (hs_state s)).

Definition put_world (w : World Q) (s : HostState Q) : HostState Q :=
  let b := hs_state s in
  mkHostState (w_seq w)
    (mkBlockState (w_cache w) (bs_deterministic_errors b) (created_data_sources b) (persisted_data_sources b)
       (handler_created_data_sources b) (processed_data_sources b) (bs_in_handler b)
       (default (write_capacity_remaining b) (w_capacity w)))
    (hs_gas s) (hs_poi s).

Definition on_world {E A} (f : E → HostExportError) (m : st (World Q) E A) : st (HostState Q) HostExportError A := λ s,
  let '(w, r) := m (world_of s) in (put_world w s, map_err f r).

(** A method of [BlockState] *)
Definition on_state {E A} (f : E → HostExportError) (m : st (BlockState Q) E A) : st (HostState Q) HostExportError A := λ s,
  let '(b, r) := m (hs_state s) in (mkHostState (hs_seq s) b (hs_gas s) (hs_poi s), map_err f r).

Definition track_gas_and_ops (gas_used : Z) : st (HostState Q) HostExportError unit := λ s,
  let '(counter, r) := consume_host_fn gas_used (hs_gas s) in
  (mkHostState (hs_seq s) (hs_state s) counter (hs_poi s), r).

Definition write_event (event : ProofOfIndexingEvent) : st (HostState Q) HostExportError unit := λ s,
  (mkHostState (hs_seq s) (hs_state s) (hs_gas s) (hs_poi s ++ [event]), Ok tt).

(** [seq_gen.id] *)
Definition next_id (t : IdType) : st (World Q) string Id := λ w,
  let '(g, r) := seq_id (w_seq w) t in (mkWorld g (w_capacity w) (w_cache w), r).

Section Functions.
  Context (self : DataSourceDetails).

Definition check_entity_type_access (t : EntityType) : outcome HostExportError unit :=
  if access_allows (entity_type_access self) t then Ok tt
  else Err (HostDeterministic (Message "entity type is not on the 'entities' list for data source")).

Definition check_invalid_fields (data : gmap string Value) (t : EntityType) : outcome HostExportError unit :=
  if strict_fields self && existsb (λ kv, negb (has_field_with_name t kv.1)) (data_iter data) then
    Err (HostDeterministic (Message "Attempted to set undefined fields for the entity type"))
  else Ok tt.

Definition expect_object_type (t : EntityType) : outcome HostExportError unit :=
  if is_object_type t then Ok tt
  else Err (HostDeterministic (Message "The type must be an @entity type")).

(** The id of the entity in [store_set], generated if need be *)
Definition set_id (t : EntityType) (entity_id : string) (data : gmap string Value)
    : st (HostState Q) HostExportError (string * gmap string Value) :=
  if bool_decide (entity_id = "auto"%string) || default false (timeseries t) then
    if negb (dsd_causality_region self =? ONCHAIN) then
      st_fail (HostUnknown (Message "Autogenerated IDs are only supported for onchain data sources"))
    else
      ty ← lift (entity_type_id_type t);
      id ← on_world (λ e, HostUnknown (Message e)) (next_id ty);
      mret (id_to_string id, <["id"%string := value_from_id id]> data)
  else mret (entity_id, data).

(** The match on [data.get(ID)] in [store_set] *)
Definition check_id (key : EntityKey) (data : gmap string Value) : outcome HostExportError (gmap string Value) :=
  match data !! "id"%string with
  | Some v =>
      if id_eq_value (entity_id key) v then Ok data
      else if bool_decide (value_type_name v ≠ id_type_as_str (id_type (entity_id key))) then
        Err (HostUnknown (Message "Attribute id has wrong type"))
      else Err (HostUnknown (Message "Value of attribute 'id' conflicts with ID passed to `store.set()`"))
  | None => Ok (<["id"%string := value_from_id (entity_id key)]> data)
  end.

(** The second half of [store_set], after the gas was paid *)
Definition set_entity (block_time : Z) (t : EntityType) (data : gmap string Value) (key : EntityKey)
    : st (HostState Q) HostExportError unit :=
  ts ← lift (ok_or (timeseries t) (HostUnknown (Message "expected an object type")));
  let data := if (ts : bool) then <["timestamp"%string := VTimestamp block_time]> data else data in
  data ← lift (check_id key data);
  _ ← lift (check_invalid_fields data t);
  let filtered := filter (λ kv, has_field_with_name t kv.1 = true) (data_iter data) in
  entity ← lift (map_err (λ e, HostDeterministic (MakeCause e)) (entity_make schema_pool filtered));
  _ ← write_event (PoiSetEntity (et_name t) (id_to_string (Values.entity_id key)) entity);
  on_world (λ e, HostUnknown (SetCause e)) (cache_set key entity).

Definition store_set (block_time : Z) (entity_type entity_id : string) (data : gmap string Value)
    : st (HostState Q) HostExportError unit :=
  t ← lift (schema_entity_type entity_type);
  _ ← lift (expect_object_type t);
  '(entity_id, data) ← set_id t entity_id data;
  key ← lift (parse_key_in t entity_id (dsd_causality_region self));
  _ ← lift (check_entity_type_access t);
  _ ← track_gas_and_ops (with_args STORE_SET (gas_size_set key data));
  set_entity block_time t data key.

Definition store_remove (entity_type entity_id : string) : st (HostState Q) HostExportError unit :=
  _ ← write_event (PoiRemoveEntity entity_type entity_id);
  t ← lift (schema_entity_type entity_type);
  _ ← lift (expect_object_type t);
  key ← lift (parse_key_in t entity_id (dsd_causality_region self));
  _ ← lift (check_entity_type_access t);
  _ ← track_gas_and_ops (with_args STORE_REMOVE (gas_size_remove key));
  on_world (λ e, HostUnknown (SetCause e)) (on_cache id (cache_remove key)).

(** [store_get] and [store_load_related] return [anyhow] errors. *)
Definition store_get (entity_type entity_id : string) (scope : GetScope)
    : st (HostState Q) HostExportError (option Entity) :=
  t ← lift (schema_entity_type entity_type);
  _ ← lift (map_err as_anyhow (expect_object_type t));
  store_key ← lift (parse_key_in t entity_id (dsd_causality_region self));
  _ ← lift (map_err as_anyhow (check_entity_type_access t));
  result ← on_world (λ e, HostUnknown (SetCause e)) (on_cache SetStoreError (cache_get store_key scope));
  _ ← track_gas_and_ops (with_args STORE_GET (gas_size_get store_key result));
  mret result.

Definition store_load_related (entity_type entity_id entity_field : string)
    : st (HostState Q) HostExportError (list Entity) :=
  t ← lift (schema_entity_type entity_type);
  key ← lift (parse_key_in t entity_id (dsd_causality_region self));
  let store_key := mkLoadRelatedRequest t (Values.entity_id key) entity_field (dsd_causality_region self) in
  _ ← lift (map_err as_anyhow (check_entity_type_access t));
  result ← on_world (λ e, HostUnknown (RelatedCause e)) (on_cache id (load_related store_key));
  _ ← track_gas_and_ops (with_args STORE_GET (gas_size_related store_key result));
  mret result.

Definition data_source_create (name : string) (params : list string) (context : option string) (creation_block : BlockNumber)
    : st (HostState Q) HostExportError unit :=
  _ ← track_gas_and_ops CREATE_DATA_SOURCE;
  template ← lift (ok_or (find (λ template, bool_decide (template_name template = name)) (templates self))
                    (HostDeterministic (Message "Failed to create data source: No template with this name")));
  on_state (λ e, HostUnknown (StoreCause e)) (push_created_data_source (mkTemplateInfo template params context creation_block)).

End Functions.

(** ** Handlers *)

(** What a mapping can do.  The other host functions only use gas; some of them
    have [DeterministicHostError] as their type of errors, also for gas. *)
Inductive HostCall :=
| CallSet (block_time : Z) (entity_type entity_id : string) (data : gmap string Value)
| CallRemove (entity_type entity_id : string)
| CallGet (entity_type entity_id : string) (scope : GetScope)
| CallRelated (entity_type entity_id entity_field : string)
| CallCreate (name : string) (params : list string) (context : option string) (creation_block : BlockNumber)
| CallOther (deterministic : bool) (gas : Z).

Definition host_call (self : DataSourceDetails) (call : HostCall) : st (HostState Q) HostExportError Answer :=
  match call with
  | CallSet block_time t id data => _ ← store_set self block_time t id data; mret Done
  | CallRemove t id => _ ← store_remove self t id; mret Done
  | CallGet t id scope => entity ← store_get self t id scope; mret (Found entity)
  | CallRelated t id field => entities ← store_load_related self t id field; mret (Listed entities)
  | CallCreate name params context block => _ ← data_source_create self name params context block; mret Done
  | CallOther deterministic gas =>
      _ ← st_map_err (if deterministic then as_deterministic else id) (track_gas_and_ops gas); mret Done
  end.

(** An error of a host function is a trap, which ends the handler. *)
Fixpoint host_calls (self : DataSourceDetails) (calls : list HostCall) (s : HostState Q)
    : HostState Q * list (outcome HostExportError Answer) :=
  match calls with
  | [] => (s, [])
  | call :: calls =>
      match host_call self call s with
      | (s, Ok v) => let '(s, rs) := host_calls self calls s in (s, Ok v :: rs)
      | (s, r) => (s, [r])
      end
  end.

(** How a mapping ends when no host function has failed *)
Inductive HandlerEnd := Returned | TimedOut | Trapped (deterministic : bool).

(** A handler: the data source that it belongs to, its name, the host functions
    that the mapping calls, and how it ends then *)
Record Handler := mkHandler {
  h_source : DataSourceDetails;
  h_name : string;
  h_calls : list HostCall;
  h_end : HandlerEnd;
}.

Inductive MappingError := PossibleReorg | MappingUnknown.

(** What [func.call] returns, by the ways in which [invoke_handler] goes on *)
Inductive CallResult := CallOk | CallReorg | CallUnknown | CallDeterministic.

Definition call_result (h : Handler) (rs : list (outcome HostExportError Answer)) : outcome Empty_set CallResult :=
  match last rs with
  | Some (Err (HostPossibleReorg _)) => Ok CallReorg
  | Some (Err (HostUnknown _)) => Ok CallUnknown
  | Some (Err (HostDeterministic _)) => Ok CallDeterministic
  | Some Panic => Panic
  | Some (Ok _) | None =>
      Ok match h_end h with
         | Returned => CallOk
         | TimedOut | Trapped false => CallUnknown
         | Trapped true => CallDeterministic
         end
  end.

Definition leave_handler {A} (r : outcome MappingError A) (m : st (BlockState Q) StoreError unit) (s : HostState Q)
    : HostState Q * outcome MappingError A :=
  let '(b, r') := m (hs_state s) in
  (mkHostState (hs_seq s) b (hs_gas s) (hs_poi s), match r' with Ok _ => r | _ => Panic end).

(** [WasmInstance::invoke_handler]; every handler has a gas counter of its own. *)
Definition invoke_handler (block_ptr : BlockPtr) (h : Handler) : st (HostState Q) MappingError unit := λ s,
  match block_enter_handler (hs_state s) with
  | (b, Ok _) =>
      let '(s, rs) := host_calls (h_source h) (h_calls h) (mkHostState (hs_seq s) b 0 (hs_poi s)) in
      match call_result h rs with
      | Ok CallOk => leave_handler (Ok tt) block_exit_handler s
      | Ok CallReorg => leave_handler (Err PossibleReorg) block_exit_handler s
      | Ok CallUnknown => leave_handler (Err MappingUnknown) block_exit_handler s
      | Ok CallDeterministic =>
          let e := mkSubgraphError "Handler skipped due to execution failure" (Some block_ptr) (Some (h_name h)) true in
          leave_handler (Ok tt) (exit_handler_and_discard_changes_due_to_error e) s
      | Err e => match e with end
      | Panic => (s, Panic)
      end
  | (b, _) => (mkHostState (hs_seq s) b (hs_gas s) (hs_poi s), Panic)
  end.

(** The handlers of a block *)
Definition run_handlers (block_ptr : BlockPtr) (hs : list Handler) : st (HostState Q) MappingError unit :=
  st_for (invoke_handler block_ptr) hs.

End HostExports.
