(* ===== verification/HostFacts.v ===== *)
(** * Properties of the functions that mappings call

    What [store_set] writes; that every handler does what a sequence of
    operations on the entity cache does, in the form in which [BlockFacts.v] and
    [EndToEnd.v] treat them; and that gas limits how much a handler can write. *)

From Stdlib Require Import ZArith Lia ZifyBool.
From stdpp Require Import base gmap list strings fin_maps.
From S2P Require Import Prelude Values IdText Intern InternFacts Entity EntityFacts Write Relational LfuCache LfuFacts.
From S2P Require Import EntityCache EntityCacheFacts DerivedFacts CacheRuns BlockFacts BlockState HostExports.

Local Open Scope Z_scope.

(** ** Steps of methods *)

Section Steps.
  Context {S E A B : Type}.

Lemma lift_bind (m : outcome E A) (f : A → st S E B) s :
  (x ← lift m; f x) s = match m with Ok a => f a s | Err e => (s, Err e) | Panic => (s, Panic) end.
Proof. by destruct m. Qed.

Lemma call_bind (m : st S E A) (f : A → st S E B) s :
  (x ← m; f x) s = match m s with (s', Ok a) => f a s' | (s', Err e) => (s', Err e) | (s', Panic) => (s', Panic) end.
Proof. unfold mbind, st_bind. by destruct (m s) as [s' []]. Qed.

Lemma bind_Ok (m : st S E A) (f : A → st S E B) s s' b :
  (x ← m; f x) s = (s', Ok b) → ∃ s1 a, m s = (s1, Ok a) ∧ f a s1 = (s', Ok b).
Proof. rewrite call_bind. destruct (m s) as [s1 [a| |]]; [by eauto|done..]. Qed.

Lemma lift_bind_Ok (m : outcome E A) (f : A → st S E B) s s' b :
  (x ← lift m; f x) s = (s', Ok b) → ∃ a, m = Ok a ∧ f a s = (s', Ok b).
Proof. rewrite lift_bind. destruct m; [by eauto|done..]. Qed.

End Steps.

Section Host.
  Context {Q : Type} `{PQ : !PriorityQueue EntityKey (option Entity) Q} `{AR : Arithmetic}.
  Context `{CC : !CacheConfig EntityKey (option Entity)} `{IS : InputSchema} `{RS : ReadStore} `{HO : HashOrder} `{CE : CacheEnv}.
  Context `{ST : SchemaTypes} `{HX : Hex} `{GE : GasEnv} `{DO : DataOrder}.
  Hypothesis Hpool : pool_wf (arc_pool schema_pool).
  Implicit Types (s : HostState Q) (w : World Q) (self : DataSourceDetails).

(** ** Worlds that differ in the number of generated ids *)

Definition with_ids (n : Z) w : World Q :=
  mkWorld (mkSeqGenerator (sg_block (w_seq w)) (vid_seq (w_seq w)) n) (w_capacity w) (w_cache w).

Lemma with_ids_self w : w = with_ids (id_seq (w_seq w)) w.
Proof. by destruct w as [[] ? ?]. Qed.

Lemma with_ids_twice n m w : with_ids n (with_ids m w) = with_ids n w.
Proof. done. Qed.

(** Methods that do not look at the number of generated ids and do not take the
    limit for writes away *)
Definition regular {E A} (m : st (World Q) E A) : Prop :=
  (∀ n w, m (with_ids n w) = let '(w', r) := m w in (with_ids n w', r)) ∧
  (∀ w, is_Some (w_capacity w) → is_Some (w_capacity (m w).1)).

Lemma regular_bind {E A B} (m : st (World Q) E A) (f : A → st (World Q) E B) :
  regular m → (∀ a, regular (f a)) → regular (m ≫= f).
Proof.
  intros [Hm Hmc] Hf. split.
  - intros n w. unfold mbind, st_bind. rewrite Hm. destruct (m w) as [w' [a| |]]; [apply Hf|done..].
  - intros w Hw. specialize (Hmc w Hw). unfold mbind, st_bind. destruct (m w) as [w' [a| |]]; [by apply Hf|done..].
Qed.

Lemma regular_lift {E A} (m : outcome E A) : regular (lift m).
Proof. done. Qed.

Lemma regular_ret {E A} (a : A) : regular (mret (M := st (World Q) E) a).
Proof. done. Qed.

Lemma regular_cache {E E' A} (f : E → E') (m : st (EntityCache Q) E A) : regular (on_cache f m).
Proof. unfold on_cache. split; [intros n w; simpl|intros w ?]; by destruct (m (w_cache w)). Qed.

Lemma regular_capacity key e : regular (take_capacity key e).
Proof.
  unfold take_capacity. split; [intros n w; simpl|intros w Hw]; (destruct (w_capacity w) as [c|] eqn:Ec; [|rewrite ?Ec; done]);
    (destruct (negb _ && _); [rewrite ?Ec; done|]); (destruct (usize_sub c _); simpl; rewrite ?Ec; done).
Qed.

Lemma regular_vid {E} : regular (next_vid (E := E)).
Proof. done. Qed.

Lemma regular_errors {E E' A} (f : E → E') (m : st (World Q) E A) : regular m → regular (st_map_err f m).
Proof.
  intros [Hm Hc]. unfold st_map_err. split; [intros n w; rewrite Hm|intros w Hw; specialize (Hc w Hw)]; by destruct (m w).
Qed.

Hint Resolve regular_errors regular_bind regular_lift regular_ret regular_cache regular_capacity regular_vid : ids.

(** So are the operations of the cache. *)
Lemma cache_set_regular key e : regular (cache_set key e).
Proof.
  unfold cache_set. apply regular_bind; [auto with ids|intros _]. apply regular_bind; [auto with ids|intros vid].
  apply regular_bind; [auto with ids|intros e']. apply regular_bind; [auto with ids|intros _]. destruct (is_ok _); auto with ids.
Qed.

Lemma handler_step_regular op : regular (handler_step op).
Proof. destruct op; cbn [handler_step]; auto using cache_set_regular with ids. Qed.

Lemma handler_run_ids ops n w :
  handler_run ops (with_ids n w) = let '(w', rs) := handler_run ops w in (with_ids n w', rs).
Proof.
  revert w. induction ops as [|op ops IH]; intros w; [done|]. simpl. rewrite (proj1 (handler_step_regular op)).
  destruct (handler_step op w) as [w1 r]. destruct r; [rewrite IH; by destruct (handler_run ops w1)..|done].
Qed.

Lemma handler_run_app ops1 ops2 w w1 rs1 :
  handler_run ops1 w = (w1, rs1) → Panic ∉ rs1 →
  handler_run (ops1 ++ ops2) w = let '(w2, rs2) := handler_run ops2 w1 in (w2, rs1 ++ rs2).
Proof.
  revert w rs1. induction ops1 as [|op ops1 IH]; intros w rs1; simpl.
  { intros [= <- <-] _. by destruct (handler_run ops2 w). }
  destruct (handler_step op w) as [w' r]. destruct r as [v|e|].
  1,2: destruct (handler_run ops1 w') as [w2 rs2] eqn:E; intros [= <- <-] [_ Hp]%not_elem_of_cons;
    rewrite (IH _ _ E Hp); by destruct (handler_run ops2 w2).
  intros [= <- <-] Hp. destruct Hp. by left.
Qed.

(** ** What [store_set] writes *)

(** The attributes of the entity: those of the mapping that the type has, with
    the id, and with the time of the block for a timeseries *)
Definition set_attributes (key : EntityKey) (block_time : Z) (data : gmap string Value) : gmap string Value :=
  filter (λ kv, has_field_with_name (entity_type key) kv.1 = true)
    (<["id"%string := value_from_id (entity_id key)]>
       (if is_timeseries (entity_type key) then <["timestamp"%string := VTimestamp block_time]> data else data)).

(** The key of an entity that a data source may access *)
Definition key_allowed self (type : string) (key : EntityKey) : Prop :=
  entity_type key = mkEntityType type ∧ is_object_type (entity_type key) = true ∧
  access_allows (entity_type_access self) (entity_type key) = true ∧
  causality_region key = dsd_causality_region self ∧ id_type (entity_id key) = schema_id_type (entity_type key).

(** The entity [e] is what a mapping wants to store under the key. *)
Definition set_target self block_time (type id : string) (data : gmap string Value) (key : EntityKey) (e : Entity) : Prop :=
  key_allowed self type key ∧ obj_wf e ∧ pool e = schema_pool ∧ obj_map e = set_attributes key block_time data ∧
  (id ≠ "auto"%string → is_timeseries (entity_type key) = false →
   id_type_parse (schema_id_type (entity_type key)) id = Ok (entity_id key)).

Lemma filtered_map (P : string * Value → Prop) `{!∀ x, Decision (P x)} (data : gmap string Value) :
  list_to_map (reverse (filter P (data_iter data))) = filter P data.
Proof.
  assert (∀ k v, (k, v) ∈ filter P (data_iter data) ↔ P (k, v) ∧ data !! k = Some v) as Hin.
  { intros k v. by rewrite list_elem_of_filter, data_iter_perm, elem_of_map_to_list. }
  apply map_eq. intros k. apply option_eq. intros v. rewrite map_lookup_filter_Some, <-elem_of_list_to_map.
  - rewrite reverse_Permutation, Hin. tauto.
  - rewrite reverse_Permutation. apply NoDup_fmap_fst; [|apply NoDup_filter; rewrite data_iter_perm; apply NoDup_map_to_list].
    intros x y1 y2 [_ H1]%Hin [_ H2]%Hin. congruence.
Qed.

Lemma make_filtered t (data : gmap string Value) e :
  entity_make schema_pool (filter (λ kv, has_field_with_name t kv.1 = true) (data_iter data)) = Ok e →
  obj_wf e ∧ pool e = schema_pool ∧ obj_map e = filter (λ kv, has_field_with_name t kv.1 = true) data.
Proof.
  intros He. pose proof (entity_make_spec schema_pool (filter (λ kv, has_field_with_name t kv.1 = true) (data_iter data)) Hpool) as Hm.
  rewrite He in Hm. destruct Hm as (_ & Hwf & Hp & Hobj & _). split_and!; [done..|]. by rewrite Hobj, filtered_map.
Qed.

Lemma agreed_id_ok key (data data' : gmap string Value) :
  check_id key data = Ok data' → data' = <["id"%string := value_from_id (entity_id key)]> data.
Proof.
  unfold check_id. destruct (data !! "id"%string) as [v|] eqn:E; [|by intros [= <-]].
  destruct (id_eq_value (entity_id key) v) eqn:Ev; [|by case_bool_decide]. intros [= <-]. symmetry. apply insert_id. rewrite E. f_equal.
  destruct (entity_id key), v; simpl in Ev; try done; apply bool_decide_eq_true in Ev; by subst.
Qed.

Lemma check_id_no_panic key (data : gmap string Value) : check_id key data ≠ Panic.
Proof. unfold check_id. destruct (data !! "id"%string); [|done]. destruct (id_eq_value _ _); [done|]. by case_bool_decide. Qed.

Lemma parse_id_type ty (id : string) i : id_type_parse ty id = Ok i → id_type i = ty.
Proof.
  destruct ty; simpl; [by intros [= <-]|..].
  - destruct (bytes_from_str id); by intros [= <-].
  - destruct (i64_from_str id); by intros [= <-].
Qed.

Lemma id_parse_no_panic ty (id : string) : id_type_parse ty id ≠ Panic.
Proof.
  destruct ty; simpl; [done|unfold bytes_from_str; by destruct (hex_decode _)|]. unfold i64_from_str.
  assert (∀ b (t : string), (i ← i64_from_digits b t; Ok (IdInt8 i)) ≠ Panic) as Hd.
  { intros b t. unfold i64_from_digits. destruct t; [done|]. destruct (digits_value _ _); [|done]. by destruct (in_i64 _). }
  destruct id as [|[[] [] [] [] [] [] [] []] id]; apply Hd.
Qed.

(** The key that the functions look up, or an error *)
Lemma parse_key_cases type (id : string) t region :
  schema_entity_type type = Ok t →
  t = mkEntityType type ∧ parse_key_in t id region ≠ Panic ∧
  ∀ key, parse_key_in t id region = Ok key →
    entity_type key = t ∧ causality_region key = region ∧ id_type (entity_id key) = schema_id_type t ∧
    id_type_parse (schema_id_type t) id = Ok (entity_id key).
Proof.
  unfold schema_entity_type. destruct (pool_lookup _ _); [|done]. destruct (type_kind (mkEntityType type)) as [k|] eqn:Ek; [|done].
  intros [= <-]. unfold parse_key_in, parse_id, entity_type_id_type. rewrite Ek. cbn [mbind outcome_bind]. split; [done|].
  pose proof (id_parse_no_panic (schema_id_type (mkEntityType type)) id) as Hnp.
  destruct (id_type_parse (schema_id_type (mkEntityType type)) id) as [i| |] eqn:Ei; simpl; try done. split; [done|].
  intros key [= <-]. split_and!; try done. by apply parse_id_type in Ei.
Qed.

(** ** The effects of the functions on the cache *)

(** The state changes in nothing that the cache depends on, except the number of
    generated ids. *)
Definition unmoved s s' : Prop :=
  (∃ n, world_of s' = with_ids n (world_of s)) ∧ bs_in_handler (hs_state s') = bs_in_handler (hs_state s).

Lemma unmoved_refl s : unmoved s s.
Proof. split; [|done]. eexists. apply with_ids_self. Qed.

Lemma unmoved_trans s1 s2 s3 : unmoved s1 s2 → unmoved s2 s3 → unmoved s1 s3.
Proof.
  intros [[n Hn] Hb] [[m Hm] Hc]. split; [|congruence]. exists m. by rewrite Hm, Hn.
Qed.

Lemma unmoved_same s s' : world_of s' = world_of s → bs_in_handler (hs_state s') = bs_in_handler (hs_state s) → unmoved s s'.
Proof. intros Hw Hb. split; [|done]. rewrite Hw. eexists. apply with_ids_self. Qed.

(** The whole state is the same, with the entities, the created data sources, the
    errors and the proof of indexing, except for the gas that was used and the
    number of generated ids. *)
Definition untouched s s' : Prop :=
  ∃ n gas, s' = mkHostState (mkSeqGenerator (sg_block (hs_seq s)) (vid_seq (hs_seq s)) n) (hs_state s) gas (hs_poi s).

Lemma untouched_refl s : untouched s s.
Proof. destruct s as [[b v i] st g p]. by exists i, g. Qed.

Lemma untouched_trans s1 s2 s3 : untouched s1 s2 → untouched s2 s3 → untouched s1 s3.
Proof. intros (n & g & ->) (m & h & ->). by exists m, h. Qed.

Lemma untouched_unmoved s s' : untouched s s' → unmoved s s'.
Proof. intros (n & g & ->). split; [|done]. by exists n. Qed.

Lemma event_unmoved event s : unmoved s (write_event event s).1.
Proof. by apply unmoved_same. Qed.

Lemma gas_untouched g s : untouched s (track_gas_and_ops g s).1 ∧ (track_gas_and_ops g s).2 ≠ Panic.
Proof.
  unfold track_gas_and_ops. simpl. split; [|by destruct (_ <=? _)]. destruct s as [[b v i] st h p]. simpl. by eexists i, _.
Qed.

Lemma gas_unmoved g s : unmoved s (track_gas_and_ops g s).1 ∧ (track_gas_and_ops g s).2 ≠ Panic.
Proof. destruct (gas_untouched g s) as [Hu ?]. split; [by apply untouched_unmoved|done]. Qed.

(** A call that is refused *)
Definition refused {A} s (x : HostState Q * outcome HostExportError A) : Prop := untouched s x.1 ∧ ∃ e, x.2 = Err e.

(** A call that does what [m] does, from a state that has not changed *)
Definition performs {A} (m : st (HostState Q) HostExportError A) s (x : HostState Q * outcome HostExportError A) : Prop :=
  ∃ s1, untouched s s1 ∧ x = m s1.

(** Writing an entity: an event in the proof of indexing and [EntityCache::set] *)
Definition set_in_cache (key : EntityKey) (e : Entity) : st (HostState Q) HostExportError unit :=
  _ ← write_event (PoiSetEntity (et_name (entity_type key)) (id_to_string (entity_id key)) e);
  on_world (λ e, HostUnknown (SetCause e)) (cache_set key e).

Definition remove_in_cache (key : EntityKey) : st (HostState Q) HostExportError unit :=
  on_world (λ e, HostUnknown (SetCause e)) (on_cache Datatypes.id (cache_remove key)).

Lemma set_id_untouched self t (id : string) data s :
  untouched s (set_id self t id data s).1 ∧ (set_id self t id data s).2 ≠ Panic ∧
  ∀ id' data', (set_id self t id data s).2 = Ok (id', data') →
    (∀ v, <["id"%string := v]> data' = <["id"%string := v]> data) ∧ (id ≠ "auto"%string → is_timeseries t = false → id' = id).
Proof.
  unfold set_id. destruct (bool_decide (id = "auto"%string) || default false (timeseries t)) eqn:Ec.
  - destruct (negb _); [split_and!; [apply untouched_refl|done..]|]. unfold entity_type_id_type.
    destruct (type_kind t); [|split_and!; [apply untouched_refl|done..]]. st_run. unfold on_world, next_id. cbn.
    assert (∀ g, untouched s (put_world (mkWorld (mkSeqGenerator (sg_block (hs_seq s)) (vid_seq (hs_seq s)) g)
      (Some (write_capacity_remaining (hs_state s))) (entity_cache (hs_state s))) s)) as Hun.
    { intros g. exists g, (hs_gas s). unfold put_world. simpl. by destruct (hs_state s). }
    destruct (generate_id (schema_id_type t) _ _) as [i| |] eqn:Eg; simpl; [|by split_and!; [apply Hun|..]|by destruct (schema_id_type t)].
    split; [apply Hun|]. split; [done|]. intros id' data' [= <- <-]. split; [intros v; apply insert_insert_eq|].
    intros Hid Hts. unfold timeseries in Ec. rewrite bool_decide_false in Ec by done. simpl in Ec.
    destruct (object_type t); simpl in Ec; congruence.
  - split; [apply untouched_refl|]. split; [done|]. simpl. intros id' data' [= <- <-]. done.
Qed.

Lemma refused_from {A} s s1 (x : HostState Q * outcome HostExportError A) : untouched s s1 → refused s1 x → refused s x.
Proof. intros Hs [Hu He]. split; [by eapply untouched_trans|done]. Qed.

Lemma performs_from {A} (m : st (HostState Q) HostExportError A) s s1 x : untouched s s1 → performs m s1 x → performs m s x.
Proof. intros Hs (s2 & Hu & ->). exists s2. split; [by eapply untouched_trans|done]. Qed.

Lemma refused_here {A} s (e : HostExportError) : refused (A := A) s (s, Err e).
Proof. split; [apply untouched_refl|by eexists]. Qed.

(** The checks that the functions begin with, and the rest of a function; [c] is
    the check of the access with its errors as they are or as [anyhow] errors. *)
Lemma accessible_or_refused {A} self type (id : string) (f : EntityKey → st (HostState Q) HostExportError A) c t s :
  schema_entity_type type = Ok t →
  c = check_entity_type_access self t ∨ c = map_err as_anyhow (check_entity_type_access self t) →
  refused s ((key ← lift (parse_key_in t id (dsd_causality_region self)); _ ← lift c; f key) s) ∨
  ∃ key, t = mkEntityType type ∧ entity_type key = t ∧ access_allows (entity_type_access self) t = true ∧
    causality_region key = dsd_causality_region self ∧ id_type (entity_id key) = schema_id_type t ∧
    id_type_parse (schema_id_type t) id = Ok (entity_id key) ∧
    (key ← lift (parse_key_in t id (dsd_causality_region self)); _ ← lift c; f key) s = f key s.
Proof.
  intros Ht Hc. destruct (parse_key_cases type id t (dsd_causality_region self) Ht) as (-> & Hnp & Hkey). rewrite lift_bind.
  destruct (parse_key_in _ _ _) as [key|e|]; [|left; apply refused_here|done].
  destruct (Hkey key eq_refl) as (Hty & Hr & Hid & Hparse). rewrite lift_bind. unfold check_entity_type_access in Hc.
  destruct (access_allows _ _) eqn:Ea; destruct Hc as [-> | ->]; simpl; try (left; apply refused_here).
  all: right; exists key; by split_and!.
Qed.

Lemma allowed_or_refused {A} self type (id : string) (f : EntityKey → st (HostState Q) HostExportError A) c t s :
  schema_entity_type type = Ok t → is_object_type t = true →
  c = check_entity_type_access self t ∨ c = map_err as_anyhow (check_entity_type_access self t) →
  refused s ((key ← lift (parse_key_in t id (dsd_causality_region self)); _ ← lift c; f key) s) ∨
  ∃ key, key_allowed self type key ∧ id_type_parse (schema_id_type (entity_type key)) id = Ok (entity_id key) ∧
    (key ← lift (parse_key_in t id (dsd_causality_region self)); _ ← lift c; f key) s = f key s.
Proof.
  intros Ht Ho Hc.
  destruct (accessible_or_refused self type id f c t s Ht Hc) as [?|(key & Hn & Hty & Ha & Hr & Hid & Hparse & Hx)]; [by left|].
  right. exists key. unfold key_allowed. rewrite Hty. by split_and!.
Qed.

Lemma entity_type_no_panic type : schema_entity_type type ≠ Panic.
Proof. unfold schema_entity_type. destruct (pool_lookup _ _); [|done]. by destruct (type_kind _). Qed.

Lemma set_entity_effect self block_time t data key s :
  entity_type key = t →
  refused s (set_entity self block_time t data key s) ∨
  ∃ e, obj_wf e ∧ pool e = schema_pool ∧ obj_map e = set_attributes key block_time data ∧
    performs (set_in_cache key e) s (set_entity self block_time t data key s).
Proof.
  intros Ht. unfold set_entity. rewrite lift_bind. unfold timeseries.
  destruct (object_type t) as [fields|]; simpl; [|left; apply refused_here].
  rewrite lift_bind. pose proof (check_id_no_panic key (if is_timeseries t then <["timestamp"%string:=VTimestamp block_time]> data else data)) as Hnp.
  destruct (check_id key _) as [data'|e|] eqn:Ed; [|left; apply refused_here|done]. apply agreed_id_ok in Ed.
  rewrite lift_bind. unfold check_invalid_fields. destruct (strict_fields self && _); [left; apply refused_here|].
  rewrite lift_bind. pose proof (entity_make_spec schema_pool (filter (λ kv, has_field_with_name t kv.1 = true) (data_iter data')) Hpool) as Hm.
  destruct (entity_make _ _) as [e|e|] eqn:Ee; simpl; [|left; apply refused_here|done]. right. exists e.
  apply make_filtered in Ee as (Hwf & Hp & Hobj). split_and!; [done..| |].
  - rewrite Hobj, Ed. unfold set_attributes. by rewrite Ht.
  - exists s. split; [apply untouched_refl|]. unfold set_in_cache. by rewrite Ht.
Qed.

Lemma store_set_effect self block_time type id data s :
  refused s (store_set self block_time type id data s) ∨
  ∃ key e, set_target self block_time type id data key e ∧
    performs (set_in_cache key e) s (store_set self block_time type id data s).
Proof.
  unfold store_set. rewrite lift_bind. pose proof (entity_type_no_panic type) as Hnp.
  destruct (schema_entity_type type) as [t|e|] eqn:Et; [|left; apply refused_here|done]. clear Hnp.
  rewrite lift_bind. unfold expect_object_type. destruct (is_object_type t) eqn:Eo; [|left; apply refused_here].
  rewrite call_bind. destruct (set_id_untouched self t id data s) as (Hu1 & Hnp & Hset).
  destruct (set_id self t id data s) as [s1 [[id1 data1]|e|]]; simpl in *; [|left; split; [done|eauto]|done].
  destruct (Hset id1 data1 eq_refl) as [Hins Hid1]. clear Hnp Hset.
  destruct (allowed_or_refused self type id1
    (λ key, _ ← track_gas_and_ops (with_args STORE_SET (gas_size_set key data1)); set_entity self block_time t data1 key)
    _ t s1 Et Eo (or_introl eq_refl)) as [Hr|(key & Hkey & Hparse & Hx)]; [left; by eapply refused_from|]. rewrite Hx. clear Hx.
  rewrite call_bind. destruct (gas_untouched (with_args STORE_SET (gas_size_set key data1)) s1) as [Hu2 Hnp].
  destruct (track_gas_and_ops _ s1) as [s2 [[]|e|]]; simpl in *; [|left; split; [by eapply untouched_trans|eauto]|done].
  assert (untouched s s2) as Hu by by eapply untouched_trans. destruct (parse_key_cases type id1 t (dsd_causality_region self) Et) as (-> & _).
  destruct (set_entity_effect self block_time (mkEntityType type) data1 key s2) as [Hr|(e & Hwf & Hp & Hobj & Hperf)];
    [apply Hkey|left; by eapply refused_from|]. right. exists key, e. split; [|by eapply performs_from].
  destruct Hkey as (Hty & Hrest). rewrite Hty in Hparse. split_and!; try done; rewrite ?Hty; try done.
  - rewrite Hobj. unfold set_attributes. rewrite Hty. destruct (is_timeseries _); [|by rewrite Hins].
    by rewrite !(insert_insert_ne _ "id"%string "timestamp"%string), Hins by done.
  - intros Hid Hts. by rewrite <-Hid1.
Qed.


Lemma store_remove_effect self type (id : string) s :
  let s1 := (write_event (PoiRemoveEntity type id) s).1 in
  refused s1 (store_remove self type id s) ∨
  ∃ key, key_allowed self type key ∧ id_type_parse (schema_id_type (entity_type key)) id = Ok (entity_id key) ∧
    performs (remove_in_cache key) s1 (store_remove self type id s).
Proof.
  cbv zeta. unfold store_remove. rewrite call_bind. cbn [write_event fst]. set (s1 := mkHostState _ _ _ _).
  clearbody s1. rewrite lift_bind. pose proof (entity_type_no_panic type) as Hnp.
  destruct (schema_entity_type type) as [t|e|] eqn:Et; [|left; apply refused_here|done]. clear Hnp.
  rewrite lift_bind. unfold expect_object_type. destruct (is_object_type t) eqn:Eo; [|left; apply refused_here].
  destruct (allowed_or_refused self type id
    (λ key, _ ← track_gas_and_ops (with_args STORE_REMOVE (gas_size_remove key));
            on_world (λ e, HostUnknown (SetCause e)) (on_cache Datatypes.id (cache_remove key)))
    _ t s1 Et Eo (or_introl eq_refl)) as [Hr|(key & Hkey & Hparse & Hx)]; [by left|]. rewrite Hx. clear Hx.
  rewrite call_bind. destruct (gas_untouched (with_args STORE_REMOVE (gas_size_remove key)) s1) as [Hu2 Hnp].
  destruct (track_gas_and_ops _ s1) as [s2 [[]|e|]]; simpl in *; [|left; split; [done|eauto]|done].
  right. exists key. split_and!; [done..|]. by exists s2.
Qed.

(** The functions that read, which pay afterwards *)
Lemma read_effect {E E' A} (F : E' → HostExportError) (g : E → E') (g' : E → OpError) (m : st (EntityCache Q) E A)
    (amount : A → Z) (answer : A → Answer) op s :
  handler_step op = (v ← on_cache g' m; mret (answer v)) →
  let x := (result ← on_world F (on_cache g m); _ ← track_gas_and_ops (amount result); mret result) s in
  let '(w, r) := handler_step op (world_of s) in
  unmoved (put_world w s) x.1 ∧ (x.2 = Panic ↔ r = Panic) ∧ (∀ v, x.2 = Ok v → r = Ok (answer v)).
Proof.
  intros Hop. rewrite Hop. cbv zeta. rewrite !call_bind. unfold on_world, on_cache.
  destruct (m (w_cache (world_of s))) as [c [v|e|]]; simpl; [|by split_and!; [apply unmoved_refl|..]..].
  rewrite call_bind. set (s1 := put_world _ s). destruct (gas_unmoved (amount v) s1) as [Hu Hnp].
  destruct (track_gas_and_ops (amount v) s1) as [s2 [[]|e|]]; simpl in *; [|by split_and!..]. split_and!; [done..|].
  intros v' [= <-]. done.
Qed.

Lemma store_get_effect self type (id : string) scope s :
  refused s (store_get self type id scope s) ∨
  ∃ key, key_allowed self type key ∧ id_type_parse (schema_id_type (entity_type key)) id = Ok (entity_id key) ∧
    let x := store_get self type id scope s in
    let '(w, r) := handler_step (HGet key scope) (world_of s) in
    unmoved (put_world w s) x.1 ∧ (x.2 = Panic ↔ r = Panic) ∧ (∀ v, x.2 = Ok v → r = Ok (Found v)).
Proof.
  unfold store_get. rewrite lift_bind. pose proof (entity_type_no_panic type) as Hnp.
  destruct (schema_entity_type type) as [t|e|] eqn:Et; [|left; apply refused_here|done]. clear Hnp.
  rewrite lift_bind. unfold expect_object_type. destruct (is_object_type t) eqn:Eo; [|left; apply refused_here]. cbn [map_err].
  destruct (allowed_or_refused self type id
    (λ key, result ← on_world (λ e, HostUnknown (SetCause e)) (on_cache SetStoreError (cache_get key scope));
            _ ← track_gas_and_ops (with_args STORE_GET (gas_size_get key result)); mret result)
    _ t s Et Eo (or_intror eq_refl)) as [Hr|(key & Hkey & Hparse & Hx)]; [by left|]. rewrite Hx. clear Hx.
  right. exists key. split; [done|]. split; [done|].
  by apply (read_effect _ _ (SetFailed ∘ SetStoreError) _ (λ result, with_args STORE_GET (gas_size_get key result))).
Qed.

(** What a request for the entities of a derived field asks for *)
Definition related_target self (type id field : string) (eref : LoadRelatedRequest) : Prop :=
  lr_entity_type eref = mkEntityType type ∧ access_allows (entity_type_access self) (lr_entity_type eref) = true ∧
  lr_causality_region eref = dsd_causality_region self ∧ lr_entity_field eref = field ∧
  id_type_parse (schema_id_type (lr_entity_type eref)) id = Ok (lr_entity_id eref).

Lemma store_load_related_effect self type (id field : string) s :
  refused s (store_load_related self type id field s) ∨
  ∃ eref, related_target self type id field eref ∧
    let x := store_load_related self type id field s in
    let '(w, r) := handler_step (HRelated eref) (world_of s) in
    unmoved (put_world w s) x.1 ∧ (x.2 = Panic ↔ r = Panic) ∧ (∀ v, x.2 = Ok v → r = Ok (Listed v)).
Proof.
  unfold store_load_related. rewrite lift_bind. pose proof (entity_type_no_panic type) as Hnp.
  destruct (schema_entity_type type) as [t|e|] eqn:Et; [|left; apply refused_here|done]. clear Hnp.
  set (request := λ key : EntityKey, mkLoadRelatedRequest t (entity_id key) field (dsd_causality_region self)).
  destruct (accessible_or_refused self type id
    (λ key, result ← on_world (λ e, HostUnknown (RelatedCause e)) (on_cache Datatypes.id (load_related (request key)));
            _ ← track_gas_and_ops (with_args STORE_GET (gas_size_related (request key) result)); mret result)
    _ t s Et (or_intror eq_refl)) as [Hr|(key & Ht & Hty & Ha & _ & _ & Hparse & Hx)]; [by left|].
  unfold request in Hx. cbv zeta. rewrite Hx. clear Hx.
  right. exists (request key). split; [by split_and!|].
  by apply (read_effect _ _ RelatedFailed _ (λ result, with_args STORE_GET (gas_size_related (request key) result))).
Qed.

(** ** Calls as operations on the cache *)

(** The operation that a call performs if it is not refused *)
Definition call_op self (call : HostCall) (op : HandlerOp) : Prop :=
  match call, op with
  | CallSet block_time type id data, HSet key e => set_target self block_time type id data key e
  | CallRemove type id, HRemove key =>
      key_allowed self type key ∧ id_type_parse (schema_id_type (entity_type key)) id = Ok (entity_id key)
  | CallGet type id scope, HGet key scope' =>
      scope' = scope ∧ key_allowed self type key ∧ id_type_parse (schema_id_type (entity_type key)) id = Ok (entity_id key)
  | CallRelated type id field, HRelated eref => related_target self type id field eref
  | _, _ => False
  end.

(** Calls that have nothing to do with entities *)
Definition other_call (call : HostCall) : Prop := match call with CallCreate _ _ _ _ | CallOther _ _ => True | _ => False end.

(** The calls of a handler with their results and the operations with theirs:
    a call that succeeds has the result of its operation, and calls without an
    operation have failed or do not concern entities. *)
Inductive answered self : list (HostCall * outcome HostExportError Answer) →
    list (HandlerOp * outcome OpError Answer) → Prop :=
| answered_nil : answered self [] []
| answered_none call r l m :
    (∀ v, r = Ok v → other_call call) → answered self l m → answered self ((call, r) :: l) m
| answered_op call r op x l m :
    call_op self call op → (∀ v, r = Ok v → x = Ok v) → answered self l m →
    answered self ((call, r) :: l) ((op, x) :: m).

Lemma world_put w s : is_Some (w_capacity w) → world_of (put_world w s) = w.
Proof. destruct w as [g [c|] k]; [done|by intros []]. Qed.

Lemma answer_effect {A} (answer : A → Answer) w s (x : HostState Q * outcome HostExportError A) (r : outcome OpError Answer) :
  unmoved (put_world w s) x.1 ∧ (x.2 = Panic ↔ r = Panic) ∧ (∀ v, x.2 = Ok v → r = Ok (answer v)) →
  let y : HostState Q * outcome HostExportError Answer :=
    match x with (s', Ok a) => (s', Ok (answer a)) | (s', Err e) => (s', Err e) | (s', Panic) => (s', Panic) end in
  unmoved (put_world w s) y.1 ∧ (y.2 = Panic ↔ r = Panic) ∧ (∀ v, y.2 = Ok v → r = Ok v).
Proof. destruct x as [s' [a|e|]]; simpl; naive_solver. Qed.

Lemma refused_answer {A} (answer : A → Answer) {P : Prop} s (x : HostState Q * outcome HostExportError A) :
  refused s x →
  let y : HostState Q * outcome HostExportError Answer :=
    match x with (s', Ok a) => (s', Ok (answer a)) | (s', Err e) => (s', Err e) | (s', Panic) => (s', Panic) end in
  unmoved s y.1 ∧ y.2 ≠ Panic ∧ ∀ v, y.2 = Ok v → P.
Proof. destruct x as [s' r]. intros [Hu [e He]]. simpl in *. subst r. split; [by apply untouched_unmoved|done]. Qed.

(** Methods that do not return errors, at two types of errors *)
Definition no_error {E E'} (r : outcome E unit) : outcome E' unit := match r with Ok a => Ok a | _ => Panic end.

Lemma entity_op_errors {E E'} key op (c : EntityCache Q) :
  entity_op (E := E') key op c = let '(c', r) := entity_op (E := E) key op c in (c', no_error r).
Proof. unfold entity_op. destruct (op_in key op _) as [m|[]|]; [|done]. by destruct (in_handler c). Qed.

(** A call that performs an operation, whose result it has if it succeeds *)
Lemma host_call_effect self call s :
  bs_in_handler (hs_state s) = true →
  let x := host_call self call s in
  (unmoved s x.1 ∧ x.2 ≠ Panic ∧ ∀ v, x.2 = Ok v → other_call call) ∨
  ∃ op s1, call_op self call op ∧ unmoved s s1 ∧
    let '(w, r) := handler_step op (world_of s1) in
    unmoved (put_world w s1) x.1 ∧ (x.2 = Panic ↔ r = Panic) ∧ (∀ v, x.2 = Ok v → r = Ok v).
Proof.
  intros Hin. cbv zeta. destruct call as [bt type id data|type id|type id scope|type id field|name ps ctx b|det g]; cbn [host_call].
  - rewrite call_bind. destruct (store_set_effect self bt type id data s) as [Hr|(key & e & Ht & s0 & Hu & Hx)].
    + left. by apply (refused_answer (λ _, Done)).
    + right. set (event := PoiSetEntity (et_name (entity_type key)) (id_to_string (entity_id key)) e).
      exists (HSet key e), (write_event event s0).1. split; [done|]. split.
      { eapply unmoved_trans; [by apply untouched_unmoved|]. apply event_unmoved. }
      rewrite Hx. unfold set_in_cache. rewrite call_bind. cbn [write_event fst]. set (s1 := mkHostState _ _ _ _). unfold on_world.
      cbn [handler_step]. rewrite call_bind. unfold st_map_err.
      destruct (cache_set key e (world_of s1)) as [w [[]|x|]]; simpl; split_and!; (done || apply unmoved_refl || naive_solver).
  - rewrite call_bind. destruct (store_remove_effect self type id s) as [Hr|(key & Hk & Hp & s1 & Hu & Hx)].
    + left. destruct (refused_answer (λ _, Done) (P := False) _ _ Hr) as (Hu & Hnp & Hok). split_and!; [|done|by intros v []%Hok].
      eapply unmoved_trans; [apply event_unmoved|done].
    + right. exists (HRemove key), s1. split; [done|]. split.
      { eapply unmoved_trans; [apply event_unmoved|by apply untouched_unmoved]. }
      rewrite Hx. unfold remove_in_cache, on_world. cbn [handler_step].
      rewrite call_bind. unfold on_cache, cache_remove.
      rewrite (entity_op_errors (E := Empty_set) (E' := SetError)), (entity_op_errors (E := Empty_set) (E' := OpError)).
      destruct (entity_op key CacheRemove (w_cache (world_of s1))) as [w [[]|[]|]]; simpl;
        split_and!; (done || apply unmoved_refl || naive_solver).
  - rewrite call_bind. destruct (store_get_effect self type id scope s) as [Hr|(key & Hk & Hp & Hx)].
    + left. by apply (refused_answer Found).
    + right. exists (HGet key scope), s. split; [done|]. split; [apply unmoved_refl|].
      destruct (handler_step _ _) as [w r]. by apply answer_effect.
  - rewrite call_bind. destruct (store_load_related_effect self type id field s) as [Hr|(eref & Ht & Hx)].
    + left. by apply (refused_answer Listed).
    + right. exists (HRelated eref), s. split; [done|]. split; [apply unmoved_refl|].
      destruct (handler_step _ _) as [w r]. by apply answer_effect.
  - left. unfold data_source_create. rewrite !call_bind. destruct (gas_unmoved CREATE_DATA_SOURCE s) as [Hu Hnp].
    destruct (track_gas_and_ops CREATE_DATA_SOURCE s) as [s1 [[]|e|]]; simpl in *; [|done..]. rewrite lift_bind.
    destruct (find _ _) as [template|]; simpl; [|done]. unfold on_state, push_created_data_source. rewrite (proj2 Hu), Hin. simpl.
    split; [|done]. eapply unmoved_trans; [exact Hu|]. apply unmoved_same; [done|]. simpl. by rewrite (proj2 Hu), Hin.
  - left. rewrite call_bind. unfold st_map_err. destruct (gas_unmoved g s) as [Hu Hnp].
    destruct (track_gas_and_ops g s) as [s1 [[]|e|]]; done.
Qed.

Lemma handler_run_from ops n w w' rs :
  handler_run ops (with_ids n w) = (w', rs) → ∃ w'', handler_run ops w = (w'', rs) ∧ w' = with_ids n w''.
Proof. rewrite handler_run_ids. destruct (handler_run ops w) as [w'' rs']. intros [= <- <-]. eauto. Qed.

(** What calls have done, as a run of operations from the world [w] *)
Record run_of self (calls : list HostCall) (hrs : list (outcome HostExportError Answer)) w s'
    (ops : list HandlerOp) w' (rs : list (outcome OpError Answer)) : Prop := mkRunOf {
  ro_run : handler_run ops w = (w', rs);
  ro_nesting : nesting true ops = Some true;
  ro_answered : answered self (zip calls hrs) (zip ops rs);
  ro_ops : Forall (λ op, ∃ call, call ∈ calls ∧ call_op self call op) ops;
  ro_panic : Panic ∈ hrs ↔ Panic ∈ rs;
  ro_world : Panic ∉ rs → (∃ n, world_of s' = with_ids n w') ∧ bs_in_handler (hs_state s') = true;
}.

Lemma run_of_none self call calls r hrs s s1 s' ops w' rs :
  unmoved s s1 → (∀ v, r = Ok v → other_call call) → r ≠ Panic →
  run_of self calls hrs (world_of s1) s' ops w' rs →
  ∃ w'', run_of self (call :: calls) (r :: hrs) (world_of s) s' ops w'' rs.
Proof.
  intros [[n Hn] Hb] Hr Hnp [Hrun Hnest Hans Hops Hpan Hw]. rewrite Hn in Hrun.
  apply handler_run_from in Hrun as (w'' & Hrun & ->). exists w''. split; [done|done|by constructor| | |].
  - eapply Forall_impl; [exact Hops|]. intros op (c & ? & ?). exists c. split; [by right|done].
  - rewrite elem_of_cons, Hpan. naive_solver.
  - intros Hp. destruct (Hw Hp) as [[m Hm] ?]. split; [|done]. exists m. by rewrite Hm.
Qed.

Lemma run_of_op self call calls r hrs s s1 s2 op w1 x s' ops w' rs :
  unmoved s s1 → call_op self call op → handler_step op (world_of s1) = (w1, x) → unmoved (put_world w1 s1) s2 →
  (∀ v, r = Ok v → x = Ok v) → r ≠ Panic → x ≠ Panic →
  run_of self calls hrs (world_of s2) s' ops w' rs →
  ∃ w'', run_of self (call :: calls) (r :: hrs) (world_of s) s' (op :: ops) w'' (x :: rs).
Proof.
  intros [[n Hn] _] Hop Hstep [[m Hm] _] Hr Hnp Hnx [Hrun Hnest Hans Hops Hpan Hw].
  pose proof (proj2 (handler_step_regular op) (world_of s1) ltac:(by eexists)) as Hcap. rewrite Hstep in Hcap. simpl in Hcap.
  rewrite world_put in Hm by done. rewrite Hm in Hrun. apply handler_run_from in Hrun as (w2 & Hrun & ->).
  assert (handler_run (op :: ops) (world_of s1) = (w2, x :: rs)) as Hrun1.
  { simpl. rewrite Hstep. destruct x; [by rewrite Hrun..|done]. }
  rewrite Hn in Hrun1. apply handler_run_from in Hrun1 as (w3 & Hrun3 & ->). exists w3. split; [done| | | | |].
  - destruct call, op; simpl in Hop |- *; done.
  - by constructor.
  - constructor; [exists call; split; [by left|done]|]. eapply Forall_impl; [exact Hops|]. intros op' (c & ? & ?).
    exists c. split; [by right|done].
  - rewrite !elem_of_cons, Hpan. naive_solver.
  - intros [_ Hp]%not_elem_of_cons. destruct (Hw Hp) as [[k Hk] ?]. split; [|done]. exists k. by rewrite Hk.
Qed.

Lemma run_of_stop self calls s : bs_in_handler (hs_state s) = true → run_of self calls [] (world_of s) s [] (world_of s) [].
Proof.
  intros Hin. split; [done|done| |by apply Forall_nil|by rewrite !elem_of_nil|].
  - rewrite zip_with_nil_r. constructor.
  - intros _. split; [|done]. eexists. apply with_ids_self.
Qed.

(** The last call, which has failed *)
Lemma run_of_failed self call calls s s1 op w1 x s2 r :
  bs_in_handler (hs_state s) = true → unmoved s s1 → call_op self call op → handler_step op (world_of s1) = (w1, x) →
  unmoved (put_world w1 s1) s2 → (∀ v, r ≠ Ok v) → (r = Panic ↔ x = Panic) →
  ∃ w'', run_of self (call :: calls) [r] (world_of s) s2 [op] w'' [x].
Proof.
  intros Hin [[n Hn] Hb1] Hop Hstep [[m Hm] Hb2] Hr Hpan. rewrite Hn in Hstep. rewrite (proj1 (handler_step_regular op)) in Hstep.
  destruct (handler_step op (world_of s)) as [w x'] eqn:Es. injection Hstep as <- <-. exists w. split.
  - simpl. rewrite Es. by destruct x'.
  - destruct call, op; simpl in Hop |- *; done.
  - simpl. rewrite zip_with_nil_r. constructor; [done| |constructor]. intros v Hv. by destruct (Hr v).
  - constructor; [|constructor]. exists call. split; [by left|done].
  - rewrite !list_elem_of_singleton. split; intros Heq; symmetry; by apply Hpan.
  - intros _. split; [|simpl in Hb2; congruence]. exists m. rewrite Hm, world_put; [done|].
    pose proof (proj2 (handler_step_regular op) (world_of s) ltac:(by eexists)) as Hcap. by rewrite Es in Hcap.
Qed.

Lemma host_calls_effect self calls s :
  bs_in_handler (hs_state s) = true →
  let '(s', hrs) := host_calls self calls s in ∃ ops w' rs, run_of self calls hrs (world_of s) s' ops w' rs.
Proof.
  revert s. induction calls as [|call calls IH]; intros s Hin; simpl.
  { eexists [], _, []. by apply run_of_stop. }
  destruct (host_call_effect self call s Hin) as [(Hu & Hnp & Hok)|(op & s1 & Hop & Hu & Hx)].
  - destruct (host_call self call s) as [s1 r]. simpl in *.
    assert (bs_in_handler (hs_state s1) = true) as Hin1 by (by rewrite (proj2 Hu)).
    destruct r as [v|e|]; [| |done].
    2: { destruct (run_of_none self call calls (Err e) [] s s1 s1 [] (world_of s1) []) as [w Hw]; [done..|by apply run_of_stop|eauto]. }
    specialize (IH s1 Hin1). destruct (host_calls self calls s1) as [s' hrs]. destruct IH as (ops & w' & rs & Hro).
    destruct (run_of_none self call calls (Ok v) hrs s s1 s' ops w' rs) as [w Hw]; eauto.
  - destruct (handler_step op (world_of s1)) as [w1 x] eqn:Es. destruct (host_call self call s) as [s2 r]. simpl in *.
    destruct Hx as (Hu2 & Hpan & Hok). destruct r as [v|e|].
    + assert (bs_in_handler (hs_state s2) = true) as Hin2 by (rewrite (proj2 Hu2); simpl; by rewrite (proj2 Hu)).
      specialize (IH s2 Hin2). destruct (host_calls self calls s2) as [s' hrs]. destruct IH as (ops & w' & rs & Hro).
      destruct (run_of_op self call calls (Ok v) hrs s s1 s2 op w1 x s' ops w' rs) as [w Hw]; try done; [naive_solver|eauto].
    + destruct (run_of_failed self call calls s s1 op w1 x s2 (Err e)) as [w Hw]; try done. eauto.
    + destruct (run_of_failed self call calls s s1 op w1 x s2 Panic) as [w Hw]; try done. eauto.
Qed.

(** C31: the calls of a handler are operations on the entity cache.  Whatever a
    handler calls, there are operations, each of them the one that a call asks
    for, that take the cache, the sequence of vids and the limit for writes to
    where the calls take them.  A call that succeeds has the result of its
    operation, calls without an operation have been refused or do not concern
    entities, and there is a panic only if an operation on the cache panics. *)
Theorem host_calls_are_operations self calls s :
  bs_in_handler (hs_state s) = true →
  let '(s', hrs) := host_calls self calls s in ∃ ops w' rs, run_of self calls hrs (world_of s) s' ops w' rs.
Proof. apply host_calls_effect. Qed.

(** ** Handlers *)

Lemma entity_ops_errors {E E'} (l : list (EntityKey * CacheOp)) c :
  st_for (E := E') (λ kop, entity_op (Q := Q) kop.1 kop.2) l c =
  let '(c', r) := st_for (E := E) (λ kop, entity_op kop.1 kop.2) l c in (c', no_error r).
Proof.
  revert c. induction l as [|[k op] l IH]; intros c; [done|]. simpl. unfold mbind, st_bind, entity_op.
  destruct (op_in k op _) as [m|[]|]; [|done]. destruct (in_handler c); apply IH.
Qed.

Lemma enter_errors {E E'} (c : EntityCache Q) :
  enter_handler (E := E') c = let '(c', r) := enter_handler (E := E) c in (c', no_error r).
Proof. unfold enter_handler. by destruct (in_handler c). Qed.

Lemma exit_errors {E E'} (c : EntityCache Q) :
  exit_handler (E := E') c = let '(c', r) := exit_handler (E := E) c in (c', no_error r).
Proof. unfold exit_handler. destruct (in_handler c); [apply entity_ops_errors|done]. Qed.

Lemma discard_errors {E E'} (c : EntityCache Q) :
  exit_handler_and_discard_changes (E := E') c = let '(c', r) := exit_handler_and_discard_changes (E := E) c in (c', no_error r).
Proof. unfold exit_handler_and_discard_changes. by destruct (in_handler c). Qed.

(** Entering or leaving a handler *)
Lemma state_step_effect (m : st (EntityCache Q) StoreError unit) (m' : st (EntityCache Q) OpError unit) (b0 : BlockState Q) s op :
  handler_step op = (_ ← on_cache Datatypes.id m'; mret Done) → (∀ c, m' c = let '(c', r) := m c in (c', no_error r)) →
  entity_cache b0 = entity_cache (hs_state s) → write_capacity_remaining b0 = write_capacity_remaining (hs_state s) →
  let '(b, r) := with_cache m b0 in
  let '(w, x) := handler_step op (world_of s) in
  world_of (mkHostState (hs_seq s) b (hs_gas s) (hs_poi s)) = w ∧ bs_in_handler b = bs_in_handler b0 ∧
  ((∃ u, r = Ok u) ∧ x = Ok Done ∨ (∀ u, r ≠ Ok u) ∧ x = Panic).
Proof.
  intros Hop Hm Hc Hw. unfold with_cache. rewrite Hop, Hc. st_run. unfold on_cache. simpl. rewrite Hm.
  destruct (m (entity_cache (hs_state s))) as [c [[]|e|]]; simpl; unfold world_of; simpl; rewrite Hw; split_and!; try done;
    [left; eauto|right..]; done.
Qed.

(** One more operation at the end of a run *)
Lemma handler_run_snoc ops op w w1 rs1 n w2 w3 x :
  handler_run ops w = (w1, rs1) → Panic ∉ rs1 → w2 = with_ids n w1 → handler_step op w2 = (w3, x) →
  ∃ w4, handler_run (ops ++ [op]) w = (w4, rs1 ++ [x]) ∧ w3 = with_ids n w4.
Proof.
  intros Hrun Hp -> Hstep. rewrite (proj1 (handler_step_regular op)) in Hstep. rewrite (handler_run_app _ _ _ _ _ Hrun Hp). simpl.
  destruct (handler_step op w1) as [w4 x4]. injection Hstep as <- <-. exists w4. by destruct x4.
Qed.


Lemma nesting_app b ops1 ops2 b1 : nesting b ops1 = Some b1 → nesting b (ops1 ++ ops2) = nesting b1 ops2.
Proof. revert b. induction ops1 as [|[] ops1 IH]; intros []; simpl; try done; naive_solver. Qed.

(** Leaving a handler with [op] *)
Definition leaves {A} s (op : HandlerOp) (r : outcome MappingError A) (y : HostState Q * outcome MappingError A) : Prop :=
  let '(w, x) := handler_step op (world_of s) in
  world_of y.1 = w ∧ bs_in_handler (hs_state y.1) = false ∧ (y.2 = r ∧ x = Ok Done ∨ y.2 = Panic ∧ x = Panic).

Lemma leave_exit {A} (r : outcome MappingError A) s :
  bs_in_handler (hs_state s) = true → leaves s HExit r (leave_handler r block_exit_handler s).
Proof.
  intros Hin. unfold leave_handler, block_exit_handler, leaves. rewrite Hin.
  match goal with |- context [with_cache exit_handler ?b0] =>
    pose proof (state_step_effect exit_handler exit_handler b0 s HExit eq_refl exit_errors eq_refl eq_refl) as Heff;
    destruct (with_cache exit_handler b0) as [b r'] end.
  destruct (handler_step HExit (world_of s)) as [w x]. destruct Heff as (Hw & Hb & [[[u ->] ->]|[Hr ->]]); simpl in *; [by eauto|].
  split_and!; [done..|]. right. destruct r'; [by destruct (Hr a)|done..].
Qed.

Lemma leave_discard {A} (r : outcome MappingError A) e s :
  bs_in_handler (hs_state s) = true → leaves s HDiscard r (leave_handler r (exit_handler_and_discard_changes_due_to_error e) s).
Proof.
  intros Hin. unfold leave_handler, exit_handler_and_discard_changes_due_to_error, leaves. rewrite Hin.
  match goal with |- context [with_cache exit_handler_and_discard_changes ?b0] =>
    pose proof (state_step_effect exit_handler_and_discard_changes exit_handler_and_discard_changes b0 s HDiscard eq_refl
      discard_errors eq_refl eq_refl) as Heff;
    destruct (with_cache exit_handler_and_discard_changes b0) as [b r'] end.
  destruct (handler_step HDiscard (world_of s)) as [w x]. destruct Heff as (Hw & Hb & [[[u ->] ->]|[Hr ->]]); simpl in *; [by eauto|].
  destruct r' as [u| |]; [by destruct (Hr u)|..]; simpl; split_and!; eauto.
Qed.

(** The operations of a handler *)
Definition from_handler (h : Handler) (op : HandlerOp) : Prop :=
  match op with
  | HEnter | HExit | HDiscard => True
  | _ => ∃ call, call ∈ h_calls h ∧ call_op (h_source h) call op
  end.

(** The results of the calls of a handler: those of all calls, or of the calls up
    to the first one that fails *)
Inductive calls_ended : list HostCall → list (outcome HostExportError Answer) → Prop :=
| ended_all : calls_ended [] []
| ended_ok call calls v hrs : calls_ended calls hrs → calls_ended (call :: calls) (Ok v :: hrs)
| ended_failed call calls e : calls_ended (call :: calls) [Err e].

(** How a handler is left, by what the mapping returns: the changes are kept,
    also when the handler is run again or fails for an unknown reason, and
    discarded after a deterministic error *)
Definition leaving (r : CallResult) : HandlerOp * outcome MappingError unit :=
  match r with
  | CallOk => (HExit, Ok tt)
  | CallReorg => (HExit, Err PossibleReorg)
  | CallUnknown => (HExit, Err MappingUnknown)
  | CallDeterministic => (HDiscard, Ok tt)
  end.

(** The operations of one handler with their results: it is entered, the calls
    are made in order, each with its operation and the result of that, and it is
    left in the way that the results of the calls ask for. *)
Inductive handler_trace (h : Handler) :
    list (HandlerOp * outcome OpError Answer) → outcome MappingError unit → Prop :=
| trace_handler hrs body res :
    calls_ended (h_calls h) hrs → answered (h_source h) (zip (h_calls h) hrs) body →
    call_result h hrs = Ok res →
    handler_trace h ((HEnter, Ok Done) :: body ++ [((leaving res).1, Ok Done)]) (leaving res).2.

(** The operations of the handlers of a block, up to the first one that fails *)
Inductive handlers_trace : list Handler → list (HandlerOp * outcome OpError Answer) → outcome MappingError unit → Prop :=
| trace_nil : handlers_trace [] [] (Ok tt)
| trace_cons h hs tr1 tr2 res :
    handler_trace h tr1 (Ok tt) → handlers_trace hs tr2 res → handlers_trace (h :: hs) (tr1 ++ tr2) res
| trace_failed h hs tr e : handler_trace h tr (Err e) → handlers_trace (h :: hs) tr (Err e).

(** What handlers have done, as a run of operations from [w] that begins and ends
    outside of handlers *)
Record handlers_of (hs : list Handler) w (y : HostState Q * outcome MappingError unit)
    (ops : list HandlerOp) w' (rs : list (outcome OpError Answer)) : Prop := mkHandlersOf {
  ho_run : handler_run ops w = (w', rs);
  ho_ops : Forall (λ op, ∃ h, h ∈ hs ∧ from_handler h op) ops;
  ho_panic : y.2 = Panic ↔ Panic ∈ rs;
  ho_started : is_Some (nesting false ops);
  ho_ended : y.2 ≠ Panic → nesting false ops = Some false;
  ho_world : y.2 ≠ Panic → (∃ n, world_of y.1 = with_ids n w') ∧ bs_in_handler (hs_state y.1) = false;
  ho_trace : y.2 ≠ Panic → handlers_trace hs (zip ops rs) y.2;
}.

Lemma handler_run_length ops w w' rs : handler_run ops w = (w', rs) → Panic ∉ rs → length ops = length rs.
Proof.
  revert w rs. induction ops as [|op ops IH]; intros w rs; simpl; [by intros [= _ <-]|].
  destruct (handler_step op w) as [w1 [v|e|]].
  1,2: destruct (handler_run ops w1) as [w2 rs2] eqn:E; intros [= <- <-] [_ Hp]%not_elem_of_cons; simpl; by rewrite (IH _ _ E Hp).
  intros [= <- <-] Hp. destruct Hp. by left.
Qed.

Lemma host_calls_ended self calls s : Panic ∉ (host_calls self calls s).2 → calls_ended calls (host_calls self calls s).2.
Proof.
  revert s. induction calls as [|call calls IH]; intros s; simpl; [constructor|].
  destruct (host_call self call s) as [s1 [v|e|]]; simpl; [|constructor|by intros []; left]. specialize (IH s1).
  destruct (host_calls self calls s1) as [s2 rs]. simpl in *. intros [_ Hp]%not_elem_of_cons. constructor. auto.
Qed.

(** One handler as the handlers of a block *)
Lemma trace_one h tr r : handler_trace h tr r → handlers_trace [h] tr r.
Proof.
  intros Ht. pose proof Ht as Ht'. destruct Ht' as [hrs body res Hend Hans Hres]. destruct res; simpl in *.
  1,4: pose proof (trace_cons h [] _ [] _ Ht trace_nil) as Hc; by rewrite app_nil_r in Hc.
  all: by constructor.
Qed.

(** A handler is entered, has made its calls, and is left with [op]. *)
Lemma handler_left h w w1 s1 s2 ops w' rs hrs op r y :
  handler_step HEnter w = (w1, Ok Done) → w1 = world_of s1 →
  run_of (h_source h) (h_calls h) hrs w1 s2 ops w' rs → Panic ∉ rs → calls_ended (h_calls h) hrs →
  (∃ res, call_result h hrs = Ok res ∧ leaving res = (op, r)) → leaves s2 op r y →
  ∃ ops' w'' rs', handlers_of [h] w y ops' w'' rs'.
Proof.
  intros Henter -> [Hrun Hnest Hans Hops _ Hw] Hnp Hended (res & Hres' & Hleaving) Hleave.
  assert (op = HExit ∨ op = HDiscard) as Hop by (destruct res; injection Hleaving as <- <-; auto).
  assert (r ≠ Panic) as Hr by (by destruct res; injection Hleaving as <- <-). destruct (Hw Hnp) as [[n Hn] _]. unfold leaves in Hleave.
  destruct (handler_step op (world_of s2)) as [w3 x] eqn:Es.
  destruct (handler_run_snoc ops op (world_of s1) w' rs n (world_of s2) w3 x) as (w4 & Hrun4 & ->); [done..|].
  destruct Hleave as (Hwy & Hby & Hres). exists (HEnter :: ops ++ [op]), w4, (Ok Done :: rs ++ [x]).
  assert (nesting false (HEnter :: ops ++ [op]) = Some false) as Hnest'.
  { simpl. rewrite (nesting_app _ _ _ _ Hnest). by destruct Hop as [-> | ->]. }
  split; [| | |by rewrite Hnest'|done| |].
  - cbn [handler_run]. by rewrite Henter, Hrun4.
  - constructor; [exists h; split; [by left|done]|]. apply Forall_app_2.
    + eapply Forall_impl; [exact Hops|]. intros op' (call & Hc & Hco). exists h. split; [by left|].
      destruct op'; try done; by exists call.
    + constructor; [|by apply Forall_nil]. exists h. split; [by left|]. by destruct Hop as [-> | ->].
  - rewrite elem_of_cons, elem_of_app, list_elem_of_singleton. destruct Hres as [[-> ->]|[-> ->]]; naive_solver.
  - intros _. split; [|done]. by exists n.
  - intros Hy. destruct Hres as [[-> ->]|[? _]]; [|done]. apply trace_one. cbn [zip_with].
    rewrite zip_with_app by by eapply handler_run_length.
    pose proof (trace_handler h hrs _ res Hended Hans Hres') as Ht. by rewrite Hleaving in Ht.
Qed.

(** Only the last call can fail. *)
Lemma host_calls_panic self calls s : Panic ∈ (host_calls self calls s).2 → last (host_calls self calls s).2 = Some Panic.
Proof.
  revert s. induction calls as [|call calls IH]; intros s; simpl; [by intros []%not_elem_of_nil|].
  destruct (host_call self call s) as [s1 [v|e|]]; simpl; [|by intros ?%list_elem_of_singleton|done].
  specialize (IH s1). destruct (host_calls self calls s1) as [s2 rs]. simpl in *. intros [?|Hp]%elem_of_cons; [done|].
  rewrite last_cons. by rewrite IH.
Qed.

(** A handler that panics during its calls *)
Lemma handler_panicked h w w1 s2 ops w' rs hrs y :
  handler_step HEnter w = (w1, Ok Done) → run_of (h_source h) (h_calls h) hrs w1 s2 ops w' rs → Panic ∈ rs → y.2 = Panic →
  ∃ ops' w'' rs', handlers_of [h] w y ops' w'' rs'.
Proof.
  intros Henter [Hrun Hnest _ Hops _ _] Hp Hy. exists (HEnter :: ops), w', (Ok Done :: rs). split; [| | | |done|done|done].
  - cbn [handler_run]. by rewrite Henter, Hrun.
  - constructor; [exists h; split; [by left|done]|]. eapply Forall_impl; [exact Hops|]. intros op' (call & Hc & Hco).
    exists h. split; [by left|]. destruct op'; try done; by exists call.
  - rewrite Hy, elem_of_cons. naive_solver.
  - simpl. by rewrite Hnest.
Qed.

Lemma invoke_effect block_ptr h s :
  bs_in_handler (hs_state s) = false →
  ∃ ops w' rs, handlers_of [h] (world_of s) (invoke_handler block_ptr h s) ops w' rs.
Proof.
  intros Hin. unfold invoke_handler, block_enter_handler. rewrite Hin.
  match goal with |- context [with_cache enter_handler ?b0] =>
    pose proof (state_step_effect enter_handler enter_handler b0 s HEnter eq_refl enter_errors eq_refl eq_refl) as Heff;
    destruct (with_cache enter_handler b0) as [b r] end.
  destruct (handler_step HEnter (world_of s)) as [w1 x] eqn:Ee. destruct Heff as (Hw & Hb & [[[u ->] ->]|[Hr ->]]).
  2: { exists [HEnter], w1, [Panic]. assert (∀ y : HostState Q * outcome MappingError unit, y.2 = Panic →
         handlers_of [h] (world_of s) y [HEnter] w1 [Panic]) as Hpan.
       { intros y Hy. split; [cbn [handler_run]; by rewrite Ee| |rewrite Hy, list_elem_of_singleton; done|done|done|done|done].
         constructor; [|by apply Forall_nil]. exists h. split; [by left|done]. }
       destruct r; [by destruct (Hr a)|apply Hpan; done..]. }
  set (s0 := mkHostState (hs_seq s) b 0 (hs_poi s)). assert (w1 = world_of s0) as Hw0 by done. simpl in Hb.
  pose proof (host_calls_effect (h_source h) (h_calls h) s0 Hb) as Hcalls.
  pose proof (host_calls_panic (h_source h) (h_calls h) s0) as Hlast.
  pose proof (host_calls_ended (h_source h) (h_calls h) s0) as Hended.
  destruct (host_calls (h_source h) (h_calls h) s0) as [s2 hrs]. simpl in Hlast, Hended. destruct Hcalls as (ops & w' & rs & Hrun).
  rewrite <-Hw0 in Hrun. pose proof (ro_panic _ _ _ _ _ _ _ _ Hrun) as Hiff.
  assert (last hrs = Some Panic → Panic ∈ rs) as Hpan by (intros Hl; apply Hiff; by eapply last_Some_elem_of).
  assert (last hrs ≠ Some Panic → (Panic ∉ rs) ∧ bs_in_handler (hs_state s2) = true ∧ calls_ended (h_calls h) hrs) as Hnp.
  { intros Hl. assert (Panic ∉ hrs) as Hp by auto. split_and!; [by rewrite <-Hiff| |auto].
    apply (ro_world _ _ _ _ _ _ _ _ Hrun). by rewrite <-Hiff. }
  destruct (call_result h hrs) as [res|[]|] eqn:Ecr.
  2: { assert (last hrs = Some Panic) as Hl by (revert Ecr; unfold call_result; by repeat case_match).
       by eapply handler_panicked; eauto. }
  destruct Hnp as (Hnp & Hin2 & Hend); [by intros Hl; unfold call_result in Ecr; rewrite Hl in Ecr|].
  destruct res; (eapply handler_left; [exact Ee|exact Hw0|exact Hrun|exact Hnp|exact Hend|by eexists|]);
    first [by apply leave_exit|by apply leave_discard].
Qed.

Lemma handlers_nil w s : bs_in_handler (hs_state s) = false → w = world_of s → handlers_of [] w (s, Ok tt) [] w [].
Proof.
  intros Hin ->. split; [done|by apply Forall_nil| |by eexists|done| |constructor].
  - simpl. rewrite elem_of_nil. done.
  - intros _. split; [|done]. eexists. apply with_ids_self.
Qed.

Lemma handlers_stopped h hs w s r ops w' rs :
  handlers_of [h] w (s, r) ops w' rs → (∀ u, r ≠ Ok u) → handlers_of (h :: hs) w (s, r) ops w' rs.
Proof.
  intros [? Hops ? ? ? ? Htr] Hr. split; try done.
  - eapply Forall_impl; [exact Hops|]. intros op (h' & ->%list_elem_of_singleton & ?). exists h. split; [by left|done].
  - intros Hp. specialize (Htr Hp). simpl in *. remember [h] as l eqn:El. destruct Htr as [|h' l tr1 tr2 r' Ht Htr|h' l tr e Ht].
    + done.
    + simplify_eq. inversion Htr. subst. by destruct (Hr tt).
    + simplify_eq. by constructor.
Qed.

Lemma trace_one_inv h tr : handlers_trace [h] tr (Ok tt) → handler_trace h tr (Ok tt).
Proof.
  intros Htr. inversion Htr as [|h' l tr1 tr2 r Ht Hnil|]; subst. inversion Hnil; subst. by rewrite app_nil_r.
Qed.

(** The handlers of a block, one after the other *)
Lemma handlers_cons h hs w s1 r1 ops1 w1 rs1 y ops2 w2 rs2 :
  handlers_of [h] w (s1, r1) ops1 w1 rs1 → r1 = Ok tt → handlers_of hs (world_of s1) y ops2 w2 rs2 →
  ∃ ops w' rs, handlers_of (h :: hs) w y ops w' rs.
Proof.
  intros H1 Hr1 [Hrun2 Hops2 Hpan2 Hst2 Hend2 Hw2 Htr2]. assert (r1 ≠ Panic) as Hr by (by subst r1). pose proof (ho_panic _ _ _ _ _ _ H1) as Hp1. simpl in Hp1.
  assert (Panic ∉ rs1) as Hnp by (intros Hp; by apply Hr, Hp1).
  destruct (ho_world _ _ _ _ _ _ H1 Hr) as [[n Hn] _]. simpl in Hn. rewrite Hn in Hrun2.
  apply handler_run_from in Hrun2 as (w3 & Hrun2 & ->). pose proof (ho_ended _ _ _ _ _ _ H1 Hr) as Hne.
  exists (ops1 ++ ops2), w3, (rs1 ++ rs2). destruct H1 as [Hrun1 Hops1 _ _ _ _ Htr1]. split.
  - rewrite (handler_run_app _ _ _ _ _ Hrun1 Hnp). by rewrite Hrun2.
  - apply Forall_app_2; (eapply Forall_impl; [eassumption|]); intros op (h' & Hh & ?); exists h'; (split; [|done]).
    + apply list_elem_of_singleton in Hh as ->. by left.
    + by right.
  - rewrite elem_of_app. naive_solver.
  - by rewrite (nesting_app _ _ _ _ Hne).
  - intros Hy. rewrite (nesting_app _ _ _ _ Hne). auto.
  - intros Hy. destruct (Hw2 Hy) as [[m Hm] ?]. split; [|done]. exists m. by rewrite Hm.
  - intros Hy. rewrite zip_with_app by by eapply handler_run_length. constructor; [|auto].
    apply trace_one_inv. simpl in Htr1. rewrite Hr1 in Htr1. auto.
Qed.

Lemma run_handlers_effect block_ptr hs s :
  bs_in_handler (hs_state s) = false →
  ∃ ops w' rs, handlers_of hs (world_of s) (run_handlers block_ptr hs s) ops w' rs.
Proof.
  revert s. induction hs as [|h hs IH]; intros s Hin.
  { eexists [], _, []. by apply handlers_nil. }
  unfold run_handlers. cbn [st_for]. rewrite call_bind. destruct (invoke_effect block_ptr h s Hin) as (ops1 & w1 & rs1 & H1).
  destruct (invoke_handler block_ptr h s) as [s1 [[]|e|]].
  - destruct (ho_world _ _ _ _ _ _ H1) as [_ Hin1]; [done|]. destruct (IH s1 Hin1) as (ops2 & w2 & rs2 & H2).
    by eapply handlers_cons; [exact H1|done|exact H2].
  - exists ops1, w1, rs1. by apply handlers_stopped.
  - exists ops1, w1, rs1. by apply handlers_stopped.
Qed.

(** ** Gas *)

(** What a call uses at least *)
Definition least_gas (call : HostCall) : Z :=
  match call with CallSet _ _ _ _ | CallRemove _ _ => base_cost STORE_SET + HOST_EXPORT_GAS | _ => 0 end.

(** Sizes and amounts of gas are not negative, and the limit is an [u64]. *)
Definition gas_sizes : Prop :=
  (∀ key data, 0 ≤ gas_size_set key data) ∧ (∀ key, 0 ≤ gas_size_remove key) ∧ (∀ key e, 0 ≤ gas_size_get key e) ∧
  (∀ eref es, 0 ≤ gas_size_related eref es) ∧ max_gas_per_handler < 2 ^ 64.

Definition gas_amount (call : HostCall) : Prop := match call with CallOther _ g => 0 ≤ g | _ => True end.

Lemma track_gas_Ok g s s' :
  gas_sizes → 0 ≤ g → 0 ≤ hs_gas s → track_gas_and_ops g s = (s', Ok tt) →
  hs_gas s' = hs_gas s + g + HOST_EXPORT_GAS ∧ hs_gas s' < max_gas_per_handler.
Proof.
  intros (_ & _ & _ & _ & Hmax) Hg Hs. unfold track_gas_and_ops, consume_host_fn, u64_saturate. unfold HOST_EXPORT_GAS.
  destruct (Z.leb_spec max_gas_per_handler (Z.min (hs_gas s + Z.min (g + 10000) (2 ^ 64 - 1)) (2 ^ 64 - 1))); [done|].
  intros [= <-]. simpl. lia.
Qed.

Lemma with_args_least op size : 0 ≤ size → 0 ≤ size_mult op → 0 ≤ base_cost op < 2 ^ 64 → base_cost op ≤ with_args op size.
Proof. intros. unfold with_args, u64_saturate. assert (0 ≤ size * size_mult op) by (apply Z.mul_nonneg_nonneg; lia). lia. Qed.

Lemma set_entity_gas self block_time t data key s s' :
  set_entity self block_time t data key s = (s', Ok tt) → hs_gas s' = hs_gas s.
Proof.
  unfold set_entity. intros (ts & _ & Hx)%lift_bind_Ok. apply lift_bind_Ok in Hx as (data' & _ & Hx).
  apply lift_bind_Ok in Hx as ([] & _ & Hx). apply lift_bind_Ok in Hx as (e & _ & Hx). rewrite call_bind in Hx. simpl in Hx.
  unfold on_world in Hx. destruct (cache_set _ _ _) as [w []]; by injection Hx as <-.
Qed.

Lemma set_id_gas self t (id : string) data s s' x : set_id self t id data s = (s', Ok x) → hs_gas s' = hs_gas s.
Proof.
  unfold set_id. destruct (_ || _); [|by intros [= <- _]]. destruct (negb _); [done|].
  intros (ty & _ & Hx)%lift_bind_Ok. apply bind_Ok in Hx as (s1 & i & Hx & [= <- _]). unfold on_world in Hx.
  destruct (next_id ty _) as [w []]; by injection Hx as <- _.
Qed.

Lemma read_gas {E A} (F : E → HostExportError) (m : st (World Q) E A) (size : A → Z) s s' v :
  (result ← on_world F m; _ ← track_gas_and_ops (with_args STORE_GET (size result)); mret result) s = (s', Ok v) →
  gas_sizes → (∀ a, 0 ≤ size a) → 0 ≤ hs_gas s → hs_gas s ≤ hs_gas s' ∧ hs_gas s' < max_gas_per_handler.
Proof.
  intros (s1 & a & H1 & Hx)%bind_Ok Hsz Hsize Hs. apply bind_Ok in Hx as (s2 & [] & H2 & [= <- _]). unfold on_world in H1.
  assert (hs_gas s1 = hs_gas s) as H3 by (destruct (m _) as [w []]; by injection H1 as <-).
  assert (base_cost STORE_GET ≤ with_args STORE_GET (size a)) as Hw by by apply with_args_least.
  assert (0 ≤ with_args STORE_GET (size a)) as Hw' by (eapply Z.le_trans; [|exact Hw]; done).
  assert (0 ≤ HOST_EXPORT_GAS) by done. apply track_gas_Ok in H2; [lia|done|done|by rewrite H3].
Qed.

Lemma host_call_gas self call s s' v :
  gas_sizes → gas_amount call → 0 ≤ hs_gas s → host_call self call s = (s', Ok v) →
  hs_gas s + least_gas call ≤ hs_gas s' ∧ hs_gas s' < max_gas_per_handler.
Proof.
  intros Hsz Ha Hs. pose proof Hsz as (Hset & Hrem & Hget & Hrel & _).
  assert (0 ≤ HOST_EXPORT_GAS) as Hexp by done.
  destruct call as [bt type id data|type id|type id scope|type id field|name ps ctx b|det g]; cbn [host_call least_gas].
  - intros (s1 & [] & Hx & [= <- _])%bind_Ok. unfold store_set in Hx. apply lift_bind_Ok in Hx as (t & _ & Hx).
    apply lift_bind_Ok in Hx as ([] & _ & Hx). apply bind_Ok in Hx as (s2 & [id1 data1] & H2%set_id_gas & Hx).
    apply lift_bind_Ok in Hx as (key & _ & Hx). apply lift_bind_Ok in Hx as ([] & _ & Hx).
    apply bind_Ok in Hx as (s3 & [] & H3 & H4%set_entity_gas).
    assert (base_cost STORE_SET ≤ with_args STORE_SET (gas_size_set key data1)) as Hw by by apply with_args_least.
    apply track_gas_Ok in H3; [|done|eapply Z.le_trans; [|exact Hw]; done|by rewrite H2]. lia.
  - intros (s1 & [] & Hx & [= <- _])%bind_Ok. unfold store_remove in Hx. rewrite call_bind in Hx. cbn [write_event] in Hx.
    apply lift_bind_Ok in Hx as (t & _ & Hx). apply lift_bind_Ok in Hx as ([] & _ & Hx).
    apply lift_bind_Ok in Hx as (key & _ & Hx). apply lift_bind_Ok in Hx as ([] & _ & Hx).
    apply bind_Ok in Hx as (s3 & [] & H3 & Hx). unfold on_world in Hx.
    assert (hs_gas s1 = hs_gas s3) as H4 by (destruct (on_cache _ _ _) as [w []]; by injection Hx as <-).
    assert (base_cost STORE_REMOVE ≤ with_args STORE_REMOVE (gas_size_remove key)) as Hw by by apply with_args_least.
    apply track_gas_Ok in H3; [|done|eapply Z.le_trans; [|exact Hw]; done|done]. cbn [hs_gas] in H3. change STORE_REMOVE with STORE_SET in *. lia.
  - intros (s1 & e & Hx & [= <- _])%bind_Ok. unfold store_get in Hx. apply lift_bind_Ok in Hx as (t & _ & Hx).
    apply lift_bind_Ok in Hx as ([] & _ & Hx). apply lift_bind_Ok in Hx as (key & _ & Hx). apply lift_bind_Ok in Hx as ([] & _ & Hx).
    apply (read_gas _ _ (gas_size_get key)) in Hx; [lia|by auto..].
  - intros (s1 & e & Hx & [= <- _])%bind_Ok. unfold store_load_related in Hx. apply lift_bind_Ok in Hx as (t & _ & Hx).
    apply lift_bind_Ok in Hx as (key & _ & Hx). cbv zeta in Hx. apply lift_bind_Ok in Hx as ([] & _ & Hx).
    apply (read_gas _ _ (gas_size_related _)) in Hx; [lia|by auto..].
  - intros (s1 & [] & Hx & [= <- _])%bind_Ok. unfold data_source_create in Hx. apply bind_Ok in Hx as (s2 & [] & H2 & Hx).
    apply lift_bind_Ok in Hx as (template & _ & Hx). unfold on_state in Hx.
    assert (hs_gas s1 = hs_gas s2) as H3 by (destruct (push_created_data_source _ _) as [w []]; by injection Hx as <-).
    apply track_gas_Ok in H2; [|done..]. assert (0 ≤ CREATE_DATA_SOURCE) by done. lia.
  - intros (s1 & [] & Hx & [= <- _])%bind_Ok. unfold st_map_err in Hx.
    destruct (track_gas_and_ops g s) as [s2 [[]|e|]] eqn:Hg; [injection Hx as <-|done..]. apply track_gas_Ok in Hg; [|done..]. simpl in Ha. lia.
Qed.

(** The calls of a handler that have written, that is set or removed an entity *)
Definition has_written (x : HostCall * outcome HostExportError Answer) : Prop :=
  match x with ((CallSet _ _ _ _ | CallRemove _ _), Ok _) => True | _ => False end.

#[export] Instance has_written_dec x : Decision (has_written x).
Proof. destruct x as [[] []]; apply _. Defined.

(** C40: gas limits what a handler can write.  Every write costs at least
    40010000 units of gas, so that the writes of a handler together cost less
    than the limit: with the limit that the costs are made for, there are
    fewer than 250000 of them. *)
Theorem gas_limits_writes self calls s :
  gas_sizes → Forall gas_amount calls → 0 ≤ hs_gas s < max_gas_per_handler →
  let '(s', hrs) := host_calls self calls s in
  hs_gas s + Z.of_nat (length (filter has_written (zip calls hrs))) * 40010000 < max_gas_per_handler.
Proof.
  intros Hsz Ha. revert s. induction calls as [|call calls IH]; intros s Hs; simpl; [lia|].
  apply Forall_cons in Ha as [Hc Ha]. destruct (host_call self call s) as [s1 r] eqn:Ec.
  assert (∀ e, (call, r) = e → r = Panic ∨ (∃ x, r = Err x) → ¬ has_written e) as Hfail.
  { intros e <- [-> |[x ->]]; destruct call; simpl; tauto. }
  destruct r as [v|e|].
  2,3: simpl; rewrite zip_with_nil_r, filter_cons, decide_False by (eapply Hfail; eauto); simpl; lia.
  destruct (host_call_gas self call s s1 v Hsz Hc ltac:(lia) Ec) as [Hg Hlt].
  specialize (IH Ha s1). destruct (host_calls self calls s1) as [s' hrs].
  assert (0 ≤ least_gas call) by (destruct call; by vm_compute). specialize (IH ltac:(lia)). simpl. rewrite filter_cons.
  destruct (decide _) as [Hw|]; simpl; [|lia]. destruct call; try done; simpl in Hg; unfold HOST_EXPORT_GAS in Hg;
    change (CONST_MAX_GAS_PER_HANDLER / 250000) with 40000000 in Hg; lia.
Qed.

End Host.
