(* ===== verification/CacheSamples.v ===== *)
(** * The entity cache on a concrete deployment

    A schema with users and groups, where the members of a group are the users
    with its name, a store with one user, and the theorems about the entity
    cache and the state of a block applied to them. *)

From Stdlib Require Import ZArith Lia ZifyBool.
From stdpp Require Import base gmap list strings relations.
From S2P Require Import Prelude Values Intern InternFacts Entity EntityFacts Write Relational LfuCache LfuFacts.
From S2P Require Import EntityCache EntityCacheFacts DerivedFacts CacheRuns ModificationFacts BlockFacts CacheLimits BlockState.

Local Open Scope Z_scope.

Module CacheSample.
Import MapQueue.

Definition user : EntityType := mkEntityType "User".
Definition group : EntityType := mkEntityType "Group".

Definition id_field : Field := mkField "id" (NonNullType (NamedType "ID")) TString None.
Definition user_name : Field := mkField "name" (NamedType "String") TString None.
Definition members : Field := mkField "members" (ListType (NamedType "User")) TString (Some "name"%string).

#[local] Instance schema : InputSchema := {|
  is_immutable := λ _, false;
  skip_duplicates := λ _, false;
  schema_id_type := λ _, IdTString;
  object_type := λ t, if decide (t = user) then Some [id_field; user_name]
                      else if decide (t = group) then Some [id_field; members] else None;
  share_interfaces := λ _, [];
|}.

#[local] Instance checks : Arithmetic := {| overflow_checks := true |}.

#[local] Instance config : CacheConfig EntityKey (option Entity) :=
  {| entry_weight := λ _ v, match v with Some _ => 10 | None => 1 end; entry_size := 48; entity_cache_dead_weight := false |}.

#[local] Instance hash_order : HashOrder :=
  {| hash_iter := λ A m, map_to_list m; hash_iter_perm := λ A m, reflexivity _ |}.

#[local] Instance cache_env : CacheEnv := {| entity_weight := λ _, 10; entity_cache_size := 10000 |}.

#[local] Instance block_env : BlockEnv := {| block_write_capacity := 1000 |}.

(** ** Entities *)

Definition u1 : EntityKey := mkEntityKey user (IdString "u1") ONCHAIN.
Definition u2 : EntityKey := mkEntityKey user (IdString "u2") ONCHAIN.

Definition bob : Entity := sample_user [(0, VString "u1"); (1, VString "Bob"); (2, VInt8 7)].
Definition to_ann : Entity := sample_user [(1, VString "Ann")].
Definition eve : Entity := sample_user [(0, VString "u2"); (1, VString "Eve")].
Definition unnamed : Entity := sample_user [(0, VString "u2"); (2, VInt8 7)].
Definition null_name : Entity := sample_user [(0, VString "u2"); (2, VInt8 7); (1, VNull)].

Lemma user_ok kvs :
  bool_decide (NoDup kvs.*1) = true → forallb (λ a, bool_decide (0 ≤ a < 3)) kvs.*1 = true → ent_ok sample_arc (sample_user kvs).
Proof. intros Hnd Hr. split; [|done]. apply sample_user_wf; [by apply bool_decide_eq_true in Hnd|done]. Defined.

Lemma user_new kvs :
  bool_decide (NoDup kvs.*1) = true → forallb (λ a, bool_decide (0 ≤ a < 3)) kvs.*1 = true →
  bool_decide (obj_map (sample_user kvs) !! VID_FIELD = None) = true → ent_new sample_arc (sample_user kvs).
Proof. intros Hnd Hr Hv. split; [by apply user_ok|by apply bool_decide_eq_true in Hv]. Defined.

Definition store : gmap EntityKey Entity := {[ u1 := bob ]}.

#[local] Instance read_store : ReadStore := {|
  rs_get := λ k, Ok (store !! k);
  rs_get_many := λ ks, Ok (filter (λ kv, kv.1 ∈ ks) store);
  rs_get_derived := λ q, Ok (filter (λ kv, derived_matches q kv.1 kv.2 = true) store);
|}.

#[local] Instance read_store_spec : ReadStoreSpec sample_arc store.
Proof. split; [done..|]. apply map_Forall_singleton. by apply user_ok. Defined.

Lemma weights_ok (k : EntityKey) (v : option Entity) : 0 ≤ entry_weight k v.
Proof. by destruct v. Defined.

Lemma vid_interned : is_Some (pool_lookup (arc_pool sample_arc) VID_FIELD).
Proof. by eexists. Defined.

Abbreviation queue := (gmap EntityKey (CacheEntry EntityKey (option Entity) * Priority)).

Definition empty : LfuCache queue := lfu_new (K := EntityKey) (V := option Entity).

Lemma empty_ok state : lfu_ok sample_arc state empty.
Proof.
  destruct (lfu_new_wf (K := EntityKey) (V := option Entity) (Q := queue)) as [Hwf Hm].
  split; [done|]. split; [done|]. intros k v. unfold empty. rewrite Hm. by rewrite lookup_empty.
Defined.

(** ** Handlers *)

(** One handler renames the user, another one creates and removes a user and
    fails, a user is created outside of handlers, and the members of a group
    are read. *)
Definition sample_ops : list HandlerOp :=
  [HEnter; HSet u1 to_ann; HGet u1 ScopeStore; HExit; HEnter; HRemove u1; HGet u1 InBlock; HDiscard;
   HSet u2 eve; HGet u2 InBlock; HRelated (mkLoadRelatedRequest group (IdString "Ann") "members" ONCHAIN)].

Lemma sample_ops_new : Forall (op_new sample_arc) sample_ops.
Proof.
  unfold sample_ops.
  repeat first [apply Forall_nil; exact I | apply Forall_cons; split; [first [exact I | apply user_new; by vm_compute]|]].
Defined.

Lemma no_immutables (op : HandlerOp) (k : EntityKey) :
  op ∈ sample_ops → written op = Some k → is_immutable (entity_type k) = true → store !! k = None.
Proof. done. Defined.

Lemma cache_refines_witness :
  ∃ w' rs s' n', handler_run sample_ops (mkWorld (seq_new 5) None (with_current empty)) = (w', rs) ∧ (Panic ∉ rs) ∧
    length rs = length sample_ops ∧
    spec_steps (store_views store) (mkBlockView (store_views store) None) (mkBlockView ∅ None) (zip sample_ops rs) s' n'.
Proof.
  apply (cache_refines sample_arc store weights_ok);
    [exact vid_interned|apply empty_ok|by left|exact sample_ops_new|by eexists].
Defined.


Lemma block_vids_unique_witness :
  ∃ w' rs r, handler_run sample_ops (mkWorld (seq_new 5) None (with_current empty)) = (w', rs) ∧
    as_modifications 5 (w_cache w') = Some (Ok r) ∧
    (∀ m wr, m ∈ modifications r → as_write m = Some wr →
       ∃ n, entity_vid (ew_entity wr) = Ok (Z.shiftl 5 32 + n) ∧ 100 ≤ n < 2 ^ 32) ∧
    (∀ m1 m2 wr1 wr2, m1 ∈ modifications r → m2 ∈ modifications r → as_write m1 = Some wr1 → as_write m2 = Some wr2 →
       entity_vid (ew_entity wr1) = entity_vid (ew_entity wr2) → m1 = m2).
Proof.
  apply (block_vids_unique sample_arc store weights_ok vid_interned sample_ops empty (seq_new 5) None 5);
    [apply empty_ok|by left|exact sample_ops_new|done|exact no_immutables|done|done|by vm_compute].
Defined.

(** ** Modifications *)

Definition with_updates (u : gmap EntityKey CacheOp) : EntityCache queue := mkEntityCache empty u ∅ false.

Lemma with_updates_ok u : ops_ok sample_arc u → cache_ok sample_arc store (with_updates u).
Proof. intros Hu. split; [apply empty_ok|]. split; [done|]. split; [apply map_Forall_empty|done]. Defined.

Definition ann_update : gmap EntityKey CacheOp := {[ u1 := CacheUpdate to_ann ]}.

Lemma ann_update_ok : cache_ok sample_arc store (with_updates ann_update).
Proof. apply with_updates_ok, map_Forall_singleton. by apply user_ok. Defined.

Lemma modifications_needed_witness :
  ∃ r, as_modifications 5 (with_updates ann_update) = Some (Ok r) ∧
    ∀ m, m ∈ modifications r → layer ann_update (emod_key m) (store_view store (emod_key m)) ≠ store_view store (emod_key m).
Proof.
  apply (modifications_needed sample_arc store weights_ok 5 (with_updates ann_update));
    [exact ann_update_ok|done|by intros k _|done| |apply map_Forall_singleton; by vm_compute|apply map_Forall_singleton; exact I].
  intros k e. destruct (lfu_new_wf (K := EntityKey) (V := option Entity) (Q := queue)) as [_ Hm].
  change (current (with_updates ann_update)) with empty. unfold empty. rewrite Hm. by rewrite lookup_empty.
Defined.

(** The frequency cache after the user without name was looked up *)
Definition cached : LfuCache queue :=
  match lfu_insert (E := StoreError) u2 (Some unnamed) empty with Ok l => l | _ => empty end.

Lemma cached_spec : lfu_wf cached ∧ lfu_map cached !! u2 = Some (Some unnamed).
Proof.
  destruct (lfu_insert_spec (E := StoreError) weights_ok empty u2 (Some unnamed)) as (l & Hl & Hwf & Hm); [apply (empty_ok (λ _, None))|].
  unfold cached. rewrite Hl. split; [done|]. by rewrite Hm, lookup_insert_eq.
Defined.

Lemma overwrite_keeps_nulls_witness :
  view null_name = view unnamed ∧
  ∃ l', modify_one 5 (u2, CacheOverwrite null_name) (cached, []) = ((l', [Overwrite u2 null_name 5 None]), Ok tt) ∧
    lfu_map l' !! u2 = Some (Some null_name).
Proof.
  apply (overwrite_keeps_nulls sample_arc weights_ok 5 u2 cached [] unnamed null_name "name"%string);
    [done|apply cached_spec|by vm_compute|apply cached_spec|by apply user_ok|by apply user_ok|by vm_compute|by vm_compute].
Defined.

Lemma set_capacity_underflows_witness :
  cache_set u2 eve (mkWorld (seq_new 5) (Some 3) (with_current cached)) =
  (mkWorld (seq_new 5) (Some 3) (with_current cached), Panic).
Proof.
  apply (set_capacity_underflows u2 eve (mkWorld (seq_new 5) (Some 3) (with_current cached)) 3); [done| |done|done].
  change (current (w_cache _)) with cached. rewrite (proj2 cached_spec). by eexists.
Defined.

(** ** The members of a group *)

Definition called (name : string) : LoadRelatedRequest := mkLoadRelatedRequest group (IdString name) "members" ONCHAIN.

(** What handlers see after one update *)
Definition stored_state : BlockView := mkBlockView (store_views store) None.
Definition nothing : BlockView := mkBlockView ∅ None.

Lemma one_update_sims k u : sims store (with_updates {[ k := CacheUpdate u ]}) (bv_set k u stored_state) (bv_set k u nothing).
Proof.
  assert (∀ (m : gmap EntityKey (gmap string Value)) k', <[k := null_merge (default ∅ (m !! k)) (change u)]> m !! k' =
    layer {[ k := CacheUpdate u ]} k' (m !! k')) as Hlayer.
  { intros m k'. unfold layer. destruct (decide (k = k')) as [<- |Hne].
    - by rewrite lookup_insert_eq, lookup_singleton_eq.
    - by rewrite lookup_insert_ne, lookup_singleton_ne. }
  split; (split; [|done]); intros k'; simpl; rewrite Hlayer; [|by rewrite lookup_empty]. unfold store_views, store_view.
  by rewrite lookup_fmap.
Defined.

Definition eve_update : gmap EntityKey CacheOp := {[ u2 := CacheUpdate eve ]}.

Lemma eve_update_ok : cache_ok sample_arc store (with_updates eve_update).
Proof. apply with_updates_ok, map_Forall_singleton. by apply user_ok. Defined.

Lemma load_related_spec_witness :
  ∃ c' es, load_related (called "Eve") (with_updates eve_update) = (c', Ok es) ∧
    view <$> es ≡ₚ (map_to_list (filter (λ kx, view_matches (query_of (called "Eve") user user_name) kx.1 kx.2 = true)
                                  (bv_now (bv_set u2 eve stored_state)))).*2.
Proof.
  apply (load_related_spec sample_arc store weights_ok (called "Eve") user user_name (with_updates eve_update)
           (bv_set u2 eve stored_state) (bv_set u2 eve nothing)); [exact eve_update_ok|apply one_update_sims|done|].
  intros k e _ _ Hb [Hk|[? Hk]]; [|done]. change (is_Some (eve_update !! k)) in Hk.
  unfold eve_update in Hk. apply lookup_singleton_is_Some in Hk as <-. by vm_compute in Hb.
Defined.

Lemma load_related_partial_witness :
  (∃ c' res, load_related (called "Ann") (with_updates ann_update) = (c', Ok res) ∧ to_ann ∈ res) ∧
  (∃ c' v, cache_get u1 ScopeStore (with_updates ann_update) = (c', Ok (Some v)) ∧ view v = null_merge (view bob) (change to_ann)).
Proof.
  apply (load_related_partial sample_arc store weights_ok (called "Ann") user user_name
           (with_updates ann_update) u1 bob to_ann); [exact ann_update_ok|done..].
Defined.

Lemma generated_ids_unique_witness :
  (seq_id (seq_new 5) IdTInt8).2 = Ok (IdInt8 (5 * 2 ^ 32)) ∧ id_seq (seq_id (seq_new 5) IdTInt8).1 = 1.
Proof.
  split; [done|]. destruct (generated_ids_unique (seq_new 5) (seq_new 5) IdTInt8 (IdInt8 (5 * 2 ^ 32))) as (_ & _ & H);
    [done..|exact H].
Defined.

(** ** The state of a block *)

Definition sample_ds : InstanceDSTemplateInfo := mkTemplateInfo (Onchain "Pair" (Some 1)) [] None 5.
Definition sample_error : SubgraphError := mkSubgraphError "failed" None None true.
Definition state0 : BlockState queue := block_state_new empty.
Definition entered : BlockState queue := (block_enter_handler state0).1.
Definition body : list BodyOp := [BodySet u2 eve; BodyCreate sample_ds; BodyGet u1 ScopeStore].
Definition ran : SeqGenerator * BlockState queue := default (seq_new 5, entered) (body_run body (seq_new 5, entered)).

Lemma body_runs : match body_run body (seq_new 5, entered) with Some _ => true | None => false end = true.
Proof. vm_compute. reflexivity. Defined.

Lemma ran_eq : body_run body (seq_new 5, entered) = Some (ran.1, ran.2).
Proof. pose proof body_runs as Hr. unfold ran. by destruct (body_run body (seq_new 5, entered)) as [[g b]|]. Defined.

Lemma failed_handler_leaves_error_witness :
  ∃ b3, exit_handler_and_discard_changes_due_to_error sample_error ran.2 = (b3, Ok tt) ∧ quiet b3 ∧
    updates (entity_cache b3) = ∅ ∧ created_data_sources b3 = [] ∧ persisted_data_sources b3 = [] ∧
    processed_data_sources b3 = [] ∧ bs_deterministic_errors b3 = [sample_error].
Proof.
  apply (failed_handler_leaves_error body sample_error (seq_new 5) state0 ran.1 entered ran.2); [done|done|exact ran_eq].
Defined.

Definition sample_stored : StoredDynamicDataSource := mkDataSource 1 None None (Some 5) None ONCHAIN.

Lemma restore_checkpoint_witness :
  ∃ b'', restore (mkCheckpoint 0 0 0 0) (persist_data_source sample_stored state0) = (b'', Ok tt) ∧
    created_data_sources b'' = [] ∧ persisted_data_sources b'' = [] ∧ processed_data_sources b'' = [] ∧
    bs_deterministic_errors b'' = [] ∧ entity_cache b'' = entity_cache state0.
Proof.
  apply (restore_checkpoint state0 (persist_data_source sample_stored state0)); [done| |done].
  apply rtc_once. constructor.
Defined.

Definition merged : BlockState queue := (block_state_extend state0 state0).1.

Lemma merged_eq : block_state_extend state0 state0 = (merged, Ok tt).
Proof.
  assert (is_ok (block_state_extend state0 state0).2 = true) as Hok by (vm_compute; reflexivity).
  unfold merged. by destruct (block_state_extend state0 state0) as [b [[]| |]].
Defined.

Lemma extend_takes_capacity_witness :
  write_capacity_remaining merged = 0 ∧
  block_set u2 eve (seq_new 5, merged) = ((seq_new 5, merged), Err (ExceededWriteLimit (IdString "u2"))).
Proof.
  destruct (extend_takes_capacity state0 state0 merged (seq_new 5) u2 eve) as [Hw Hs]; [done|done|exact merged_eq|].
  split; [exact Hw|]. apply Hs; vm_compute; reflexivity.
Defined.

End CacheSample.
