(* ===== verification/EndToEnd.v ===== *)
(** * From handlers to the store

    The modifications that the entity cache makes of a block become a batch
    ([Batch::new]), and the batch is written to the store.  What the store then
    has is what handlers have seen last.  The step from the batch to the answers
    of the store goes through the store's interface, [SyncStoreSpec]. *)

From Stdlib Require Import ZArith Lia ZifyBool.
From stdpp Require Import base gmap list strings.
From S2P Require Import Prelude Values IdText Intern InternFacts Entity EntityFacts.
From S2P Require Import Write WriteFacts Relational RelationalFacts AppendFacts BatchFacts ReadFacts RevertFacts.
From S2P Require Import Deployment DeploymentFacts SyncStore.
From S2P Require Import LfuCache LfuFacts EntityCache EntityCacheFacts DerivedFacts CacheRuns ModificationFacts BlockFacts BlockState.
From S2P Require Import HostExports HostFacts.

Local Open Scope Z_scope.

(** ** The rows of a new batch *)

Section NewBatch.
  Context `{EV : EnvVars} `{IS : InputSchema} `{US : UnstableSort} (mods_weight : RowGroups → Z).
  Implicit Types (m : EntityModification) (ms : list EntityModification).

(** Modifications that do not meet in a group *)
Definition distinct_ids ms : Prop :=
  ∀ i j m1 m2, ms !! i = Some m1 → ms !! j = Some m2 →
    entity_type (emod_key m1) = entity_type (emod_key m2) → emod_id m1 = emod_id m2 → i = j.

(** Entities of immutable types are inserted, and repetitions are no reason to
    skip rows. *)
Definition insert_only m : Prop :=
  is_immutable (entity_type (emod_key m)) = true →
  skip_duplicates (entity_type (emod_key m)) = false ∧ (∃ key data b end_, m = Insert key data b end_).

(** A row of [b] whose id is new in a group of rows of [b] *)
Lemma group_push_new m b g :
  last_mod_ok g → group_type g = entity_type (emod_key m) → insert_only m → emod_block m = b →
  Forall (λ r, emod_block r = b) (rows g) → Forall (λ r, emod_id r ≠ emod_id m) (rows g) →
  group_push m b g = (push_row g m, Ok tt).
Proof.
  intros Hlm Hty Hins Hb Hbl Hnew. rewrite Forall_forall in Hbl. unfold group_push.
  assert (match last (rows g) with Some r => emod_block r <=? b | None => true end = true) as ->.
  { destruct (last (rows g)) as [r|] eqn:El; [|done]. apply last_Some in El as [l El]. apply Z.leb_le.
    rewrite (Hbl r); [done|]. rewrite El. apply elem_of_app. right. by apply list_elem_of_singleton. }
  simpl. unfold append_row. rewrite Hty. destruct (is_immutable _) eqn:Ei.
  - destruct (Hins Ei) as (Hsk & k & data & b' & e & ->). unfold append_row_immutable.
    destruct (_ ≫= _) as [prev|] eqn:Ep; [|done]. apply bind_Some in Ep as (idx & _ & Hidx).
    rewrite (Hbl prev) by (by eapply list_elem_of_lookup_2). by rewrite decide_False by auto.
  - pose proof (prev_row_spec g (emod_id m) Hlm) as Hp. destruct (prev_row_mut g (emod_id m)) as [[idx prev]|]; [|done].
    destruct Hp as (pre & post & Hr & _ & Hid & _). exfalso. rewrite Hr in Hnew. by apply Forall_app in Hnew as [_ [? _]%Forall_cons].
Qed.

Lemma with_group_entry_ok {E A} t (f : st RowGroup E A) gs g' a :
  f (default (group_new t) (groups_group gs t)) = (g', Ok a) → ∃ gs', with_group_entry t f gs = (gs', Ok a).
Proof.
  unfold with_group_entry, groups_group. destruct (list_find _ _) as [[pos g]|]; simpl; intros ->; eauto.
Qed.

Lemma push_mods_rows b ms gs :
  Forall raw_mod_ok ms → Forall insert_only ms → Forall (λ m, emod_block m = b) ms → groups_wf (groups gs) →
  (∀ t, Forall (λ r, emod_block r = b) (rows_of gs t)) →
  (∀ m, m ∈ ms → Forall (λ r, emod_id r ≠ emod_id m) (rows_of gs (entity_type (emod_key m)))) → distinct_ids ms →
  ∃ gs', st_for (λ m, with_group_entry (entity_type (emod_key m)) (group_push m b)) ms gs = (gs', Ok tt) ∧
    ∀ t, rows_of gs' t = rows_of gs t ++ filter (λ m, entity_type (emod_key m) = t) ms.
Proof.
  intros Hraw Hins Hb. revert gs. induction ms as [|m ms IH]; intros gs Hwf Hbl Hnew Hd.
  { exists gs. split; [done|]. intros t. by rewrite app_nil_r. }
  apply Forall_cons in Hraw as [Hm Hraw], Hins as [Him Hins], Hb as [Hbm Hb].
  set (g := default (group_new (entity_type (emod_key m))) (groups_group gs (entity_type (emod_key m)))).
  assert (rows g = rows_of gs (entity_type (emod_key m))) as Hg by (unfold g, rows_of; by destruct (groups_group gs _)).
  assert (last_mod_ok g ∧ group_type g = entity_type (emod_key m)) as [Hlm Hty].
  { unfold g. destruct (groups_group gs (entity_type (emod_key m))) as [g0|] eqn:E0; simpl.
    - destruct (groups_wf_group _ _ _ Hwf E0) as [[? _] ?]. done.
    - split; [|done]. by intros _ id. }
  assert (group_push m b g = (push_row g m, Ok tt)) as Hpush.
  { apply group_push_new; try done; rewrite Hg; [apply Hbl|apply Hnew; left]. }
  destruct (with_group_entry_ok _ _ _ _ _ Hpush) as [gs1 Hgs1].
  assert (groups_wf (groups gs1)) as Hwf1.
  { apply (push_mods_wf b [m] gs gs1); [by apply Forall_singleton|done|]. apply st_for_cons_ok. exists gs1. by split. }
  pose proof Hgs1 as Hentry. apply with_group_entry_spec in Hentry as (g' & Hg' & _ & Hlook);
    [|apply Hwf|intros; by eapply group_push_type]. fold g in Hg'. rewrite Hpush in Hg'. injection Hg' as <-.
  assert (∀ t, rows_of gs1 t = rows_of gs t ++ filter (λ m, entity_type (emod_key m) = t) [m]) as Hrows.
  { intros t. unfold rows_of at 1. rewrite Hlook, filter_cons, filter_nil. destruct (decide (t = _)) as [-> |Hne].
    - rewrite decide_True by done. simpl. by rewrite Hg.
    - rewrite decide_False by congruence. by rewrite app_nil_r. }
  destruct (IH Hraw Hins Hb gs1 Hwf1) as (gs' & Hst & Hall).
  - intros t. rewrite Hrows. apply Forall_app_2; [done|]. apply Forall_forall. by intros r [_ ->%list_elem_of_singleton]%list_elem_of_filter.
  - intros m' Hm'. rewrite Hrows. apply Forall_app_2; [apply Hnew; by right|]. apply Forall_forall.
    intros r [Ht ->%list_elem_of_singleton]%list_elem_of_filter Hid. apply list_elem_of_lookup in Hm' as [i Hi].
    by pose proof (Hd 0%nat (Datatypes.S i) m m' eq_refl Hi Ht Hid).
  - intros i j m1 m2 Hi Hj Ht Hid. by injection (Hd (Datatypes.S i) (Datatypes.S j) m1 m2 Hi Hj Ht Hid).
  - exists gs'. split; [apply st_for_cons_ok; by exists gs1|]. intros t. by rewrite Hall, Hrows, <-app_assoc, <-filter_app.
Qed.

Lemma distinct_ids_alt ms : distinct_ids ms ↔ NoDup ((λ m, (entity_type (emod_key m), emod_id m)) <$> ms).
Proof.
  rewrite NoDup_alt. unfold distinct_ids. split.
  - intros Hl i j x. rewrite !list_lookup_fmap. intros (m1 & H1 & ->)%fmap_Some (m2 & H2 & [= ? ?])%fmap_Some.
    by eapply (Hl i j m1 m2).
  - intros Hl i j m1 m2 H1 H2 Ht Hid. eapply Hl; rewrite list_lookup_fmap; [by rewrite H1|rewrite H2; simpl; by rewrite Ht, Hid].
Qed.

Lemma distinct_ids_perm ms ms' : ms ≡ₚ ms' → distinct_ids ms → distinct_ids ms'.
Proof. rewrite !distinct_ids_alt. by intros ->. Qed.

(** The modifications of a block make a batch, with one row for each of them. *)
Lemma batch_new_rows ptr time cursor ms dss errors to_remove nonfatal :
  Forall raw_mod_ok ms → Forall insert_only ms → Forall (λ m, emod_block m = ptr_number ptr) ms → distinct_ids ms →
  ∃ b ms', batch_new mods_weight ptr time cursor ms dss errors to_remove nonfatal = Ok b ∧
    groups_wf (groups (mods b)) ∧ first_block b = ptr_number ptr ∧ block_ptr b = ptr ∧ ms' ≡ₚ ms ∧
    ∀ t, rows_of (mods b) t = filter (λ m, entity_type (emod_key m) = t) ms'.
Proof.
  intros Hraw Hins Hb Hd. unfold batch_new. set (ms' := sort_unstable_by_key sort_rank ms).
  assert (ms' ≡ₚ ms) as Hp by apply sort_unstable_perm.
  assert (Forall raw_mod_ok ms') as Hraw' by by rewrite Hp.
  assert (groups_wf (groups groups_new)) as Hnew by (split; constructor).
  destruct (push_mods_rows (ptr_number ptr) ms' groups_new Hraw') as (gs & Hst & Hrows);
    [by rewrite Hp|by rewrite Hp|done|constructor|constructor|by eapply distinct_ids_perm|].
  rewrite Hst. eexists _, ms'. split; [done|]. split; [by eapply (push_mods_wf (ptr_number ptr) ms' groups_new)|]. done.
Qed.

(** What a batch with the rows [ms] says about a key *)
Lemma rows_last_op b ms ms' key at_ :
  groups_wf (groups (mods b)) → ms' ≡ₚ ms → (∀ t, rows_of (mods b) t = filter (λ m, entity_type (emod_key m) = t) ms') →
  distinct_ids ms → Forall (λ m, emod_block m ≤ at_) ms → key_fits key (mods b) →
  (∀ m, m ∈ ms → emod_key m = key → batch_last_op b key at_ = Some (as_entity_op m at_)) ∧
  (key ∉ emod_key <$> ms → batch_last_op b key at_ = None).
Proof.
  intros Hwf Hp Hrows Hd Hat Hfit.
  assert (batch_last_op b key at_ = (λ m, as_entity_op m at_) <$>
    rfind (λ m, bool_decide (emod_key m = key) && (emod_block m <=? at_)) (rows_of (mods b) (entity_type key))) as Hlast.
  { unfold batch_last_op, rows_of. destruct (groups_group (mods b) (entity_type key)) as [g|] eqn:Eg; [|done]. simpl.
    destruct (groups_wf_group _ _ _ Hwf Eg) as [[Hlm _] _]. rewrite last_op_fast by (done || by apply Hfit). done. }
  rewrite Hrows in Hlast. rewrite Hlast. rewrite Forall_forall in Hat. split.
  - intros m Hm Hk. destruct (rfind _ _) as [m'|] eqn:Er; simpl.
    + apply rfind_Some in Er as [[_ Hin']%list_elem_of_filter Hm']. rewrite Hp in Hin'. apply andb_true_iff in Hm' as [Hk'%bool_decide_eq_true _].
      enough (m' = m) as -> by done.
      apply list_elem_of_lookup in Hm as [i Hi]. apply list_elem_of_lookup in Hin' as [j Hj].
      assert (j = i) as ->; [|congruence]. eapply Hd; [exact Hj|exact Hi|congruence|]. rewrite <-!emod_key_id. congruence.
    + exfalso. rewrite rfind_None, Forall_forall in Er. specialize (Er m).
      rewrite (proj2 (Z.leb_le _ _) (Hat m Hm)), bool_decide_true in Er by done. discriminate Er.
      apply list_elem_of_filter. split; [by rewrite Hk|by rewrite Hp].
  - intros Hk. enough (rfind (λ m, bool_decide (emod_key m = key) && (emod_block m <=? at_))
      (filter (λ m, entity_type (emod_key m) = entity_type key) ms') = None) as -> by done.
    apply rfind_None, Forall_forall. intros m [_ Hm]%list_elem_of_filter. rewrite bool_decide_false; [done|]. intros Heq. apply Hk.
    apply list_elem_of_fmap. exists m. split; [done|by rewrite <-Hp].
Qed.

End NewBatch.

(** ** A block *)

Section Block.
  Context `{EV : EnvVars} `{IS : InputSchema} `{US : UnstableSort}.
  Context (mods_weight : RowGroups → Z) {Q : Type} `{PQ : !PriorityQueue EntityKey (option Entity) Q}.
  Context `{PQS : !PriorityQueueSpec EntityKey (option Entity) Q} `{AR : Arithmetic}.
  Context `{CC : !CacheConfig EntityKey (option Entity)} `{RS : ReadStore} `{HO : HashOrder} `{CE : CacheEnv}.
  Context (P : ArcPool) (base : gmap EntityKey Entity) `{RSS : !ReadStoreSpec P base}.
  Hypothesis Hweight : ∀ (k : EntityKey) (v : option Entity), 0 ≤ entry_weight k v.
  Hypothesis Hvid : is_Some (pool_lookup (arc_pool P) VID_FIELD).

(** The operations of a block respect the schema: ids have the type that it
    declares, entities of immutable types are new and not skipped, and an
    entity is only written in one causality region. *)
Definition ops_respect (ops : list HandlerOp) : Prop :=
  (∀ op k, op ∈ ops → written op = Some k →
     id_type (entity_id k) = schema_id_type (entity_type k) ∧
     (is_immutable (entity_type k) = true → base !! k = None ∧ skip_duplicates (entity_type k) = false)) ∧
  (∀ op1 op2 k1 k2, op1 ∈ ops → op2 ∈ ops → written op1 = Some k1 → written op2 = Some k2 →
     entity_type k1 = entity_type k2 → entity_id k1 = entity_id k2 → k1 = k2).

(** No entity with the id of [key] is written in another causality region. *)
Definition key_respects (ops : list HandlerOp) (key : EntityKey) : Prop :=
  ∀ op k, op ∈ ops → written op = Some k → entity_type k = entity_type key → entity_id k = entity_id key → k = key.

Lemma mods_written ops w w' rs (ms : list EntityModification) :
  handler_run ops w = (w', rs) → updates (w_cache w) = ∅ → handler_updates (w_cache w) = ∅ →
  (∀ m, m ∈ ms → is_Some (updates (w_cache w') !! emod_key m)) →
  ∀ m, m ∈ ms → ∃ op, op ∈ ops ∧ written op = Some (emod_key m).
Proof.
  intros Hrun Hu Hh Hms m Hm. destruct (run_written ops w w' rs (omap written ops)) as [Hw _]; [..|done|].
  - intros op k Hop Hk. apply list_elem_of_omap. eauto.
  - split; rewrite ?Hu, ?Hh; apply map_Forall_empty.
  - destruct (Hms m Hm) as [op Hk]. apply Hw, list_elem_of_omap in Hk as (op' & ? & ?). eauto.
Qed.

(** The modifications of a block are what [Batch::new] expects. *)
Lemma mods_raw_ok ops block (ms : list EntityModification) (was : EntityKey → option Entity) (ups : gmap EntityKey CacheOp) :
  ops_respect ops → block ≤ BLOCK_NUMBER_MAX → NoDup (emod_key <$> ms) →
  (∀ m, m ∈ ms → ∃ op, op ∈ ops ∧ written op = Some (emod_key m)) →
  (∀ m, m ∈ ms → view <$> was (emod_key m) = store_view base (emod_key m)) →
  (∀ m, m ∈ ms → ∃ op, ups !! emod_key m = Some op ∧ mod_ok P block (was (emod_key m)) op m) →
  Forall raw_mod_ok ms ∧ Forall insert_only ms ∧ distinct_ids ms.
Proof.
  intros [Hkeys Hone] Hmax Hnd Hwr Hwas Hok.
  assert (∀ m, m ∈ ms → is_Some (was (emod_key m)) → is_immutable (entity_type (emod_key m)) = true → False) as Hno.
  { intros m Hm [e He] Hi. destruct (Hwr m Hm) as (op & Hop & Hk). destruct (Hkeys op _ Hop Hk) as [_ Himm].
    destruct (Himm Hi) as [Hnone _]. specialize (Hwas m Hm). unfold store_view in Hwas. by rewrite He, Hnone in Hwas. }
  split; [|split].
  - apply Forall_forall. intros m Hm. destruct (Hwr m Hm) as (op & Hop & Hk). destruct (Hkeys op _ Hop Hk) as [Hid _].
    destruct (Hok m Hm) as (cop & _ & Hb & Hmod). specialize (Hno m Hm). rewrite emod_key_id in Hid.
    destruct m as [k data b' end_|k data b' end_|k b']; simpl in *; subst b'.
    + destruct Hmod as (-> & _ & _ & [Hwf _] & _). by split_and!.
    + destruct Hmod as (-> & Hcur & _ & [Hwf _] & _). by split_and!.
    + destruct Hmod as [Hcur _]. split_and!; [done..|]. intros Hi. by destruct (Hno Hcur Hi).
  - apply Forall_forall. intros m Hm Hi. destruct (Hwr m Hm) as (op & Hop & Hk). destruct (Hkeys op _ Hop Hk) as [_ Himm].
    split; [by apply Himm|]. destruct (Hok m Hm) as (cop & _ & _ & Hmod). specialize (Hno m Hm).
    destruct m as [k data b' end_|k data b' end_|k b']; [by eauto|destruct Hmod as (_ & Hcur & _)|destruct Hmod as [Hcur _]];
      by destruct (Hno Hcur Hi).
  - intros i j m1 m2 Hi Hj Ht Hid. destruct (Hwr m1) as (op1 & Hop1 & Hk1); [by eapply list_elem_of_lookup_2|].
    destruct (Hwr m2) as (op2 & Hop2 & Hk2); [by eapply list_elem_of_lookup_2|].
    assert (emod_key m1 = emod_key m2) as Heq by (eapply (Hone op1 op2); try done; by rewrite !emod_key_id).
    apply (NoDup_lookup _ _ _ (emod_key m1) Hnd); rewrite list_lookup_fmap; [by rewrite Hi|rewrite Hj; simpl; by rewrite Heq].
Qed.

Lemma key_fits_written ops ms ms' b key :
  ms' ≡ₚ ms → (∀ t, rows_of (mods b) t = filter (λ m, entity_type (emod_key m) = t) ms') → key_respects ops key →
  (∀ m, m ∈ ms → ∃ op, op ∈ ops ∧ written op = Some (emod_key m)) → key_fits key (mods b).
Proof.
  intros Hp Hrows Hkey Hwr g Hg r Hr Hid. specialize (Hrows (entity_type key)).
  unfold rows_of in Hrows. rewrite Hg in Hrows. rewrite Hrows, list_elem_of_filter, Hp in Hr. destruct Hr as [Ht Hr].
  destruct (Hwr r Hr) as (op & Hop & Hk). apply (Hkey op); try done. by rewrite emod_key_id.
Qed.

(** What the store answers for a key after the batch of [ms] *)
Lemma key_answer block key at_ (ms : list EntityModification) (op : option EntityOp) was ups :
  (∀ m, m ∈ ms → emod_key m = key → op = Some (as_entity_op m at_)) → (key ∉ emod_key <$> ms → op = None) →
  (∀ k, is_Some (ups !! k) → view <$> was k = store_view base k) →
  (∀ m, m ∈ ms → ∃ cop, ups !! emod_key m = Some cop ∧ mod_ok P block (was (emod_key m)) cop m) →
  (key ∉ emod_key <$> ms → layer ups key (store_view base key) = store_view base key) →
  ∃ v, op_answer (E := StoreError) op (Ok (base !! key)) = Ok v ∧ view <$> v = layer ups key (store_view base key).
Proof.
  intros Hsome Hnone Hwas Hmods Hrest.
  destruct (decide (key ∈ emod_key <$> ms)) as [Hk|Hk].
  - apply list_elem_of_fmap in Hk as (m & -> & Hm). rewrite (Hsome m Hm eq_refl).
    destruct (Hmods m Hm) as (cop & Hop & _ & Hmod). unfold layer. rewrite Hop, <-Hwas by eauto.
    destruct m as [k data b' end_|k data b' end_|k b']; simpl in *.
    + destruct Hmod as (-> & -> & Hsem & _). simpl. eauto.
    + destruct Hmod as (-> & _ & Hsem & _). simpl. eauto.
    + destruct Hmod as (_ & ->). simpl. eauto.
  - rewrite (Hnone Hk). simpl. exists (base !! key). split; [done|]. symmetry. by apply Hrest.
Qed.

(** The batch of a block: what is inserted is not in the store, and reads that
    look at the batch first find what the handlers have left. *)
Lemma block_batch ops l g cap h ptr time cursor dss errors to_remove nonfatal :
  lfu_ok P (store_view base) l → (cap = None ∨ overflow_checks = false) →
  Forall (op_new P) ops → nesting false ops = Some false → ops_respect ops → 0 ≤ entity_cache_size →
  h < ptr_number ptr → ptr_number ptr < BLOCK_NUMBER_MAX →
  ∃ w' rs v' h' r b ms', handler_run ops (mkWorld g cap (with_current l)) = (w', rs) ∧ (Panic ∉ rs) ∧
    spec_steps (store_views base) (mkBlockView (store_views base) None) (mkBlockView ∅ None) (zip ops rs) v' h' ∧
    as_modifications (ptr_number ptr) (w_cache w') = Some (Ok r) ∧
    batch_new mods_weight ptr time cursor (modifications r) dss errors to_remove nonfatal = Ok b ∧
    batch_fits h b ∧
    (∀ t, rows_of (mods b) t = filter (λ m, entity_type (emod_key m) = t) ms') ∧ distinct_ids ms' ∧
    (∀ m, m ∈ ms' → (∃ op, op ∈ ops ∧ written op = Some (emod_key m)) ∧
                    (creates_entity m = true → base !! emod_key m = None)) ∧
    ∀ key at_, key_respects ops key → ptr_number ptr ≤ at_ → key_fits key (mods b) ∧
      ∃ v, op_answer (E := StoreError) (batch_last_op b key at_) (Ok (base !! key)) = Ok v ∧
           view <$> v = bv_block v' !! key.
Proof.
  intros Hl Hcap Hops Hnest Hresp Hsize Hlt Hmax.
  destruct (block_run_ok P base Hweight Hvid ops l g cap Hl Hcap Hops Hnest)
    as (w' & rs & v' & h' & Hrun & Hp & Hsteps & Hs & Hc & Hin & Hnew).
  { intros op k Hop Hk Hi. by apply (proj1 Hresp op k Hop Hk). }
  destruct (as_modifications_ok P (ptr_number ptr) Hweight base (w_cache w') Hc Hin Hnew Hsize)
    as (r & l0 & Has & Hwas & _ & Hnd & Hmods & Hrest & _).
  assert (∀ m, m ∈ modifications r → ∃ op, op ∈ ops ∧ written op = Some (emod_key m)) as Hwr.
  { eapply mods_written; [exact Hrun|done|done|]. intros m Hm. destruct (Hmods m Hm) as (op & Hop & _). eauto. }
  assert (∀ m, m ∈ modifications r → view <$> was l0 (emod_key m) = store_view base (emod_key m)) as Hwas'.
  { intros m Hm. destruct (Hmods m Hm) as (op & Hop & _). apply Hwas. eauto. }
  destruct (mods_raw_ok ops (ptr_number ptr) (modifications r) (was l0) (updates (w_cache w')) Hresp)
    as (Hraw & Hins & Hd); [lia|done..|].
  assert (Forall (λ m, emod_block m = ptr_number ptr) (modifications r)) as Hbl.
  { apply Forall_forall. intros m Hm. by destruct (Hmods m Hm) as (op & _ & -> & _). }
  destruct (batch_new_rows mods_weight ptr time cursor (modifications r) dss errors to_remove nonfatal Hraw Hins Hbl Hd)
    as (b & ms' & Hb & Hwf & Hfirst & Hptr & Hperm & Hrows).
  exists w', rs, v', h', r, b, ms'. do 5 (split; [done|]). split_and!.
  - split_and!; [done|by eapply batch_new_ordered|by rewrite Hfirst|by rewrite Hptr].
  - done.
  - by eapply distinct_ids_perm.
  - intros m Hm. rewrite Hperm in Hm. split; [by apply Hwr|]. intros Hcr. specialize (Hwas' m Hm).
    destruct (Hmods m Hm) as (op & _ & _ & Hmod). destruct m; try done. destruct Hmod as (_ & Hnone & _).
    simpl in *. rewrite Hnone in Hwas'. symmetry in Hwas'. by apply fmap_None in Hwas'.
  - intros key at_ Hkey Hat. pose proof (key_fits_written ops _ _ b key Hperm Hrows Hkey Hwr) as Hfit. split; [done|].
    destruct (rows_last_op b (modifications r) ms' key at_ Hwf Hperm Hrows Hd) as [Hsome Hnone]; [|done|].
    { eapply Forall_impl; [exact Hbl|]. simpl. by intros m ->. }
    rewrite Hs. eapply key_answer; [exact Hsome|exact Hnone|exact Hwas|exact Hmods|by apply Hrest].
Qed.

End Block.

(** ** Writing the block *)

Section Store.
  Context `{EV : EnvVars} `{IS : InputSchema} `{US : UnstableSort}.
  Context {S : Type} `{SS : SyncStore S} `{EQ : Equiv S} (mods_weight : RowGroups → Z) `{SPEC : !SyncStoreSpec S mods_weight}.
  Context (base : gmap EntityKey Entity).

(** A store that has the entities of [base], after a batch that takes [base]
    to the views [after] *)
Lemma transact_reaches (s t : S) b key at_ after :
  store_ok s → key_known key s → sync_get key (sync_head s) s = Ok (base !! key) →
  accepts b s → sync_transact b s = Ok t → key_fits key (mods b) → sync_head s ≤ at_ →
  (∃ v, op_answer (E := StoreError) (batch_last_op b key at_) (Ok (base !! key)) = Ok v ∧ view <$> v = after) →
  ∃ v, sync_get key at_ t = Ok v ∧ view <$> v = after.
Proof.
  intros Hok Hknown Hbase Hacc Htr Hfit Hat Hop. destruct (transact_get key b s t Hok Hacc Hfit Hknown Htr) as [_ Hget].
  by rewrite Hget, (get_after_head key s at_ (sync_head s)), Hbase by (done || lia).
Qed.

End Store.

Section Deployed.
  Context `{EV : EnvVars} `{IS : InputSchema} `{US : UnstableSort} `{BC : BuildConfig} `{DC : DeploymentConfig}.
  Context (value_too_large : list EntityWrite → bool) (layout : gmap EntityType Table) (mods_weight : RowGroups → Z).
  Hypothesis Hlarge : ∀ ws, value_too_large ws = false.
  Hypothesis Hlayout : layout_ok layout.
  Hypothesis Hintf : ∀ t, share_interfaces t = [].

Lemma exists_latest h v : ranged v → settled (h + 1) v → h < BLOCK_NUMBER_MAX → exists_at h v = false → latest v = false.
Proof.
  intros [r Hr] Hs Hh. unfold settled, exists_at, latest in *. rewrite Hr in *. destruct r as [|lo [up|]]; simpl; [done|lia..].
Qed.

(** A query at the head that finds nothing means that there is no current
    version, the one that the exclusion constraint would object to. *)
Lemma not_found_none_current key d table :
  deployment_ok layout d → layout !! entity_type key = Some table → is_immutable (entity_type key) = false →
  key_ok layout key (d_tables d) → deployment_get layout key (head_number d) d = Ok None →
  none_current (entity_id key) (db_versions (d_tables d) (entity_type key)).
Proof.
  intros [[Hdb Hok] Hh] Ht Him Hkey Hget. destruct (Hkey table Ht) as [Hreg _]. specialize (Hdb _ Him).
  unfold deployment_get, layout_find, table_for_entity in Hget. rewrite Ht in Hget. injection Hget as Hget.
  rewrite find_view in Hget by done. destruct (Hok _ _ Ht) as [Hset _]. rewrite Forall_forall in Hdb, Hset.
  apply Forall_forall. intros v Hv Hid. apply (exists_latest (head_number d)); auto.
  destruct (exists_at (head_number d) v) eqn:He; [|done]. exfalso.
  assert (v_data v ∈ ReadFacts.view (entity_id key) (head_number d) (db_versions (d_tables d) (entity_type key))) as Hin.
  { apply list_elem_of_fmap. exists v. split; [done|]. by apply list_elem_of_filter. }
  destruct (ReadFacts.view _ _ _); [by apply not_elem_of_nil in Hin|done].
Qed.

Lemma inserts_ok_distinct table rws vs :
  immutable table = false → NoDup (emod_id <$> rws) →
  (∀ r, r ∈ rws → creates_entity r = true → none_current (emod_id r) vs) → inserts_ok table rws vs.
Proof.
  intros Hmut. revert vs. induction rws as [|r rws IH]; intros vs Hnd Hnone; [done|].
  rewrite fmap_cons in Hnd. apply NoDup_cons in Hnd as [Hr Hnd]. simpl.
  split; [apply Hnone; left|]. intros vs' Hw. apply IH; [done|]. intros r' Hr' Hcr.
  apply (write_row_none_current table Hmut r (emod_id r') vs vs'); [|done|apply Hnone; [by right|done]].
  intros Heq. apply Hr. rewrite Heq. by apply list_elem_of_fmap_2.
Qed.

Lemma distinct_ids_of_type ms t : distinct_ids ms → NoDup (emod_id <$> filter (λ m, entity_type (emod_key m) = t) ms).
Proof.
  rewrite distinct_ids_alt. induction ms as [|m ms IH]; [constructor|]. rewrite fmap_cons. intros [Hm Hd]%NoDup_cons.
  rewrite filter_cons. destruct (decide _) as [Ht|]; [|by apply IH]. rewrite fmap_cons. apply NoDup_cons. split; [|by apply IH].
  intros (m' & Hid & [Ht' Hm']%list_elem_of_filter)%list_elem_of_fmap. apply Hm. rewrite Hid, Ht, <-Ht'.
  by apply (list_elem_of_fmap_2 (λ m, (entity_type (emod_key m), emod_id m))).
Qed.

Lemma block_inserts_fit ms b d :
  deployment_ok layout d → (∀ t, rows_of (mods b) t = filter (λ m, entity_type (emod_key m) = t) ms) → distinct_ids ms →
  (∀ m, m ∈ ms → creates_entity m = true →
     key_ok layout (emod_key m) (d_tables d) ∧ deployment_get layout (emod_key m) (head_number d) d = Ok None) →
  inserts_fit layout (mods b) (d_tables d).
Proof.
  intros Hok Hrows Hd Hnew t table Ht Him. right. destruct (Hlayout t table Ht) as (_ & Himm & _). rewrite Hrows.
  apply inserts_ok_distinct; [by rewrite Himm|by apply distinct_ids_of_type|].
  intros r [<- Hr]%list_elem_of_filter Hcr. destruct (Hnew r Hr Hcr) as [Hkey Hget]. rewrite <-emod_key_id.
  by apply (not_found_none_current _ d table).
Qed.

Section Reaches.
  Context {Q : Type} `{PQ : !PriorityQueue EntityKey (option Entity) Q}.
  Context `{PQS : !PriorityQueueSpec EntityKey (option Entity) Q} `{AR : Arithmetic}.
  Context `{CC : !CacheConfig EntityKey (option Entity)} `{RS : ReadStore} `{HO : HashOrder} `{CE : CacheEnv}.
  Context (P : ArcPool) (base : gmap EntityKey Entity) `{RSS : !ReadStoreSpec P base}.
  Hypothesis Hweight : ∀ (k : EntityKey) (v : option Entity), 0 ≤ entry_weight k v.
  Hypothesis Hvid : is_Some (pool_lookup (arc_pool P) VID_FIELD).

(** The key of an entity that the tables can hold: without a column for the
    causality region, entities are on chain. *)
Definition key_stored (key : EntityKey) (d : Deployment) : Prop :=
  key_ok layout key (d_tables d) ∧
  ∃ table, layout !! entity_type key = Some table ∧ (has_causality_region table = false → causality_region key = ONCHAIN).

(** A block from its handlers to the tables.  Handlers run on a cache whose
    entries agree with the tables.  Their modifications always make a batch,
    and with dynamic data sources that fit the batch is one that the store
    accepts: no insert is for an entity that has a current version.  Once it is
    written, queries at the block and later find every entity in the state in
    which the handlers have left it, whether they have changed it or not. *)
Theorem block_reaches_store ops (l : LfuCache Q) g cap ptr time cursor dss errors to_remove nonfatal d :
  deployment_ok layout d →
  (∀ k, key_stored k d → deployment_get layout k (head_number d) d = Ok (base !! k)) →
  (∀ op k, op ∈ ops → written op = Some k → key_stored k d) →
  lfu_ok P (store_view base) l → (cap = None ∨ overflow_checks = false) →
  Forall (op_new P) ops → nesting false ops = Some false → ops_respect base ops → 0 ≤ entity_cache_size →
  head_number d < ptr_number ptr → ptr_number ptr < BLOCK_NUMBER_MAX →
  ∃ w' rs v' h' r b, handler_run ops (mkWorld g cap (with_current l)) = (w', rs) ∧ (Panic ∉ rs) ∧
    spec_steps (store_views base) (mkBlockView (store_views base) None) (mkBlockView ∅ None) (zip ops rs) v' h' ∧
    as_modifications (ptr_number ptr) (w_cache w') = Some (Ok r) ∧
    batch_new mods_weight ptr time cursor (modifications r) dss errors to_remove nonfatal = Ok b ∧
    (dds_fit b (d_data_sources d) →
     deployment_accepts layout b d ∧
     ∀ d', transact_block_operations value_too_large layout b d = Ok d' →
       ∀ key at_, key_stored key d → key_respects ops key → ptr_number ptr ≤ at_ →
         ∃ v, deployment_get layout key at_ d' = Ok v ∧ view <$> v = bv_block v' !! key).
Proof.
  intros Hok Hbase Hknown Hl Hcap Hops Hnest Hresp Hsize Hlt Hmax.
  destruct (block_batch mods_weight P base Hweight Hvid ops l g cap (head_number d) ptr time cursor dss errors to_remove nonfatal)
    as (w' & rs & v' & h' & r & b & ms & Hrun & Hp & Hsteps & Has & Hb & Hfits & Hrows & Hd & Hms & Hread); try done.
  exists w', rs, v', h', r, b. do 5 (split; [done|]). intros Hdds.
  assert (deployment_accepts layout b d) as Hacc.
  { split_and!; try done. eapply block_inserts_fit; try done. intros m Hm Hcr. destruct (Hms m Hm) as [(op & Hop & Hk) Hnew].
    assert (key_stored (emod_key m) d) as Hkey by by eapply Hknown. split; [apply Hkey|]. by rewrite Hbase, Hnew. }
  split; [done|]. intros d' Htr key at_ Hkey Hresk Hat. destruct (Hread key at_ Hresk Hat) as [Hfit Hv].
  pose (SS := deployment_store value_too_large layout).
  pose (SPEC := deployment_store_spec value_too_large layout Hlarge Hlayout Hintf mods_weight).
  apply (transact_reaches (SS := SS) (SPEC := SPEC) mods_weight base d d' b key at_); try done; [apply Hkey|by apply Hbase|]. simpl. lia.
Qed.

(** *** From mappings to the tables *)

Section Mappings.
  Context `{ST : SchemaTypes} `{HX : Hex} `{GE : GasEnv} `{DO : DataOrder}.
  Hypothesis Hschema : P = schema_pool.
  Hypothesis Hpool : pool_wf (arc_pool schema_pool).
  Hypothesis Hvid_field : ∀ t, has_field t VID_FIELD = false.

(** The handlers of a block run for one causality region, and the entities that
    they can write are ones that the tables can hold, and new if their type is
    immutable. *)
Definition handlers_fit (hs : list Handler) (region : CausalityRegion) (d : Deployment) : Prop :=
  ∀ h, h ∈ hs → dsd_causality_region (h_source h) = region ∧
    ∀ call op k, call ∈ h_calls h → call_op (h_source h) call op → written op = Some k →
      key_stored k d ∧ (is_immutable (entity_type k) = true → base !! k = None ∧ skip_duplicates (entity_type k) = false).

Lemma from_handler_written hs region d ops op k :
  handlers_fit hs region d → Forall (λ op, ∃ h, h ∈ hs ∧ from_handler h op) ops → op ∈ ops → written op = Some k →
  key_stored k d ∧ causality_region k = region ∧ id_type (entity_id k) = schema_id_type (entity_type k) ∧
  (is_immutable (entity_type k) = true → base !! k = None ∧ skip_duplicates (entity_type k) = false).
Proof.
  intros Hfit Hops Hop Hk. rewrite Forall_forall in Hops. destruct (Hops op Hop) as (h & Hh & Hfrom).
  destruct (Hfit h Hh) as [<- Hw]. destruct op as [key e|key| | | | |]; try done; injection Hk as ->;
    destruct Hfrom as (call & Hcall & Hco); destruct (Hw call _ k Hcall Hco eq_refl) as [? ?]; destruct call; try done;
    destruct Hco as [(_ & _ & _ & Hr & Hid) _]; by rewrite Hr.
Qed.

Lemma handlers_respect hs region d ops :
  handlers_fit hs region d → Forall (λ op, ∃ h, h ∈ hs ∧ from_handler h op) ops →
  ops_respect base ops ∧ (∀ key, causality_region key = region → key_respects ops key) ∧
  (∀ op k, op ∈ ops → written op = Some k → key_stored k d) ∧ Forall (op_new P) ops.
Proof.
  intros Hfit Hops. pose proof (λ op k, from_handler_written hs region d ops op k Hfit Hops) as Hw. split_and!.
  - split; [intros op k Hop Hk; by destruct (Hw op k Hop Hk) as (_ & _ & ? & ?)|].
    intros op1 op2 [] [] Hop1 Hop2 Hk1 Hk2 Ht Hi. destruct (Hw _ _ Hop1 Hk1) as (_ & Hr1 & _), (Hw _ _ Hop2 Hk2) as (_ & Hr2 & _).
    simpl in *. congruence.
  - intros [] Hr op [] Hop Hk Ht Hi. destruct (Hw op _ Hop Hk) as (_ & Hrk & _). simpl in *. congruence.
  - intros op k Hop Hk. by destruct (Hw op k Hop Hk).
  - apply Forall_forall. intros op Hop. rewrite Forall_forall in Hops. destruct (Hops op Hop) as (h & Hh & Hfrom).
    destruct op as [key e| | | | | |]; try done. destruct Hfrom as ([] & _ & Hco); try done. destruct Hco as (_ & Hwf & Hp & Hobj & _).
    split; [split; [done|congruence]|]. rewrite Hobj. apply map_lookup_filter_None. right. intros v _. simpl.
    unfold has_field_with_name. rewrite Hvid_field. by case_match.
Qed.


End Mappings.

End Reaches.

End Deployed.
