(* ===== verification/HostSamples.v ===== *)
(** * Blocks and mappings on a concrete deployment

    The schema and the cache of [CacheSamples.v] with a table that holds the user
    of the store: a block of operations and the handlers of mappings that reach
    the table, and the theorems about host functions applied to them. *)

From Stdlib Require Import ZArith Lia ZifyBool.
From stdpp Require Import base gmap list strings.
From S2P Require Import Prelude Values IdText Intern InternFacts Entity EntityFacts.
From S2P Require Import Write WriteFacts Relational RelationalFacts AppendFacts BatchFacts ReadFacts RevertFacts.
From S2P Require Import Deployment DeploymentFacts SyncStore.
From S2P Require Import LfuCache LfuFacts EntityCache EntityCacheFacts DerivedFacts CacheRuns ModificationFacts BlockFacts BlockState.
From S2P Require Import HostExports HostFacts CacheSamples EndToEnd.

Local Open Scope Z_scope.

Module BlockSample.
Import MapQueue CacheSample.
#[local] Existing Instances BatchSample.sample_env BatchSample.sample_build BatchSample.sample_sort.
#[local] Existing Instances schema checks config hash_order cache_env read_store read_store_spec.

#[local] Instance sample_deployment : DeploymentConfig :=
  {| reorg_threshold := 250; error_id := err_message; graft_block := None |}.

Definition layout : gmap EntityType Table := {[ user := BatchSample.user_table ]}.

(** The user of the store was written in block 3. *)
Definition deployed : Deployment :=
  mkDeployment {[ user := [mkVersion (Some 7) (IdString "u1") ONCHAIN bob (RangeCol (RRange 3 None))] ]}
    (mkHead (Some (mkBlockPtr 4 [])) None 1) (mkStatus 0 0 0 0 false Healthy None []) [] [].

Lemma layout_table t table : layout !! t = Some table → t = user ∧ table = BatchSample.user_table.
Proof. unfold layout. by intros [<- <-]%lookup_singleton_Some. Defined.

Lemma tables_match : layout_ok layout.
Proof. by intros t table [-> ->]%layout_table. Defined.

Lemma deployed_ok : deployment_ok layout deployed.
Proof.
  split; [|done]. split.
  - intros t _. unfold db_versions. cbn [d_tables deployed]. destruct (decide (t = user)) as [-> |Hne].
    + rewrite lookup_singleton_eq. repeat constructor. by eexists.
    + rewrite lookup_singleton_ne by done. constructor.
  - intros t table [-> ->]%layout_table. split; [|done]. unfold db_versions. cbn [d_tables deployed].
    rewrite lookup_singleton_eq. by repeat constructor.
Defined.

Lemma user_key_stored id : key_stored layout (mkEntityKey user id ONCHAIN) deployed.
Proof.
  split; [|by exists BatchSample.user_table]. intros table [_ ->]%layout_table. split; [|done].
  apply Forall_forall. by intros v _ _.
Defined.

(** The tables have the entities that the cache reads. *)
Lemma deployed_store k :
  key_stored layout k deployed → deployment_get layout k (head_number deployed) deployed = Ok (store !! k).
Proof.
  intros (_ & table & [Ht ->]%layout_table & Hcr). destruct k as [t id cr]. simpl in *. subst t. rewrite Hcr by done.
  unfold deployment_get, layout_find, table_for_entity, layout. cbn [entity_type]. rewrite lookup_singleton_eq.
  unfold db_versions. cbn [d_tables deployed mbind outcome_bind]. rewrite lookup_singleton_eq. simpl. unfold store, u1. f_equal.
  destruct (decide (id = IdString "u1")) as [-> |Hne].
  - by vm_compute.
  - rewrite lookup_singleton_ne by congruence. unfold find_matches. cbn [entity_id v_id].
    rewrite filter_cons, decide_False; [done|]. rewrite bool_decide_false by done. by intros [[]%andb_true_iff]%andb_true_iff.
Defined.

Lemma sample_written op k : op ∈ sample_ops → written op = Some k → ∃ id, k = mkEntityKey user id ONCHAIN ∧ id_type id = IdTString.
Proof.
  intros Hop Hk. assert (k ∈ omap written sample_ops) as Hin by (apply list_elem_of_omap; eauto).
  cbn in Hin. repeat (apply elem_of_cons in Hin as [->|Hin]; [by eexists|]). by apply not_elem_of_nil in Hin.
Defined.

Lemma sample_respects : ops_respect store sample_ops.
Proof.
  split.
  - intros op k Hop Hk. destruct (sample_written op k Hop Hk) as (id & -> & Hid). split; [done|]. done.
  - intros op1 op2 k1 k2 Hop1 Hop2 Hk1 Hk2 _ Hid.
    destruct (sample_written _ _ Hop1 Hk1) as (id1 & -> & _), (sample_written _ _ Hop2 Hk2) as (id2 & -> & _).
    simpl in Hid. by rewrite Hid.
Defined.

Definition block5 : BlockPtr := mkBlockPtr 5 [].

Lemma block_reaches_store_witness :
  ∃ w' rs v' h' r b, handler_run sample_ops (mkWorld (seq_new 5) None (with_current empty)) = (w', rs) ∧ (Panic ∉ rs) ∧
    spec_steps (store_views store) (mkBlockView (store_views store) None) (mkBlockView ∅ None) (zip sample_ops rs) v' h' ∧
    as_modifications (ptr_number block5) (w_cache w') = Some (Ok r) ∧
    batch_new BatchSample.no_weight block5 0 None (modifications r) [] [] [] false = Ok b ∧
    (dds_fit b (d_data_sources deployed) →
     deployment_accepts layout b deployed ∧
     ∀ d', transact_block_operations BatchSample.never_large layout b deployed = Ok d' →
       ∀ key at_, key_stored layout key deployed → key_respects sample_ops key → ptr_number block5 ≤ at_ →
         ∃ v, deployment_get layout key at_ d' = Ok v ∧ view <$> v = bv_block v' !! key).
Proof.
  apply (block_reaches_store BatchSample.never_large layout BatchSample.no_weight (λ _, eq_refl) tables_match (λ _, eq_refl)
           sample_arc store weights_ok vid_interned sample_ops empty (seq_new 5) None block5 0 None [] [] [] false deployed);
    [exact deployed_ok|exact deployed_store| |apply empty_ok|by left|exact sample_ops_new|done|exact sample_respects|done|done|done].
  intros op k Hop Hk. destruct (sample_written op k Hop Hk) as (id & -> & _). apply user_key_stored.
Defined.

(** The name of a user after the block was written *)
Definition name_after (key : EntityKey) (at_ : BlockNumber) : option (option Value) :=
  let '(w, _) := handler_run sample_ops (mkWorld (seq_new 5) None (with_current empty)) in
  match as_modifications (ptr_number block5) (w_cache w) with
  | Some (Ok r) =>
      match batch_new BatchSample.no_weight block5 0 None (modifications r) [] [] [] false with
      | Ok b =>
          match transact_block_operations BatchSample.never_large layout b deployed with
          | Ok d => match deployment_get layout key at_ d with
                    | Ok (Some e) => Some (entity_get e "name")
                    | _ => None
                    end
          | _ => None
          end
      | _ => None
      end
  | _ => None
  end.

Example names_after :
  (name_after u1 4, name_after u1 5, name_after u2 4, name_after u2 5) =
  (Some (Some (VString "Bob")), Some (Some (VString "Ann")), None, Some (Some (VString "Eve"))).
Proof. vm_compute. reflexivity. Qed.

End BlockSample.

(** ** Mappings *)

Module MappingSample.
Import MapQueue CacheSample BlockSample HexSample.
#[local] Existing Instances BatchSample.sample_env BatchSample.sample_build BatchSample.sample_sort.
#[local] Existing Instances schema config hash_order cache_env read_store read_store_spec block_env.
#[local] Existing Instances BlockSample.sample_deployment sample_hex.

#[local] Instance release : Arithmetic := {| overflow_checks := false |}.

#[local] Instance types : SchemaTypes := {|
  schema_pool := sample_arc;
  type_kind := λ t, if decide (t = user) then Some KObject else None;
  is_timeseries := λ _, false;
|}.

#[local] Instance gas : GasEnv := {|
  gas_size_set := λ _ _, 1; gas_size_remove := λ _, 1; gas_size_get := λ _ _, 1; gas_size_related := λ _ _, 1;
  max_gas_per_handler := CONST_MAX_GAS_PER_HANDLER;
|}.

#[local] Instance data_order : DataOrder := {| data_iter := map_to_list; data_iter_perm := λ m, reflexivity _ |}.

Definition source : DataSourceDetails := mkDataSourceDetails true AccessAny [] ONCHAIN.

Definition named (name : string) : gmap string Value := {[ "name"%string := VString name ]}.

(** One handler renames the user, another one creates a user and then sets a
    field that does not exist. *)
Definition rename : Handler :=
  mkHandler source "rename" [CallGet "User" "u1" ScopeStore; CallSet 0 "User" "u1" (named "Ann")] Returned.
Definition broken : Handler :=
  mkHandler source "broken" [CallSet 0 "User" "u2" (named "Eve"); CallSet 0 "User" "u3" {[ "age"%string := VInt 7 ]}] Returned.
Definition handlers : list Handler := [rename; broken].

Definition started : HostState queue := mkHostState (seq_new 5) (block_state_new empty) 0 [].

(** What is found for users in the end, and the number of errors *)
Definition found (at_ : BlockNumber) : option (list (option Value) * nat) :=
  match run_handlers block5 handlers started with
  | (s, Ok _) =>
      match as_modifications (ptr_number block5) (entity_cache (hs_state s)) with
      | Some (Ok r) =>
          match batch_new BatchSample.no_weight block5 0 None (modifications r) [] [] [] false with
          | Ok b =>
              match transact_block_operations BatchSample.never_large layout b deployed with
              | Ok d =>
                  Some ((λ key, match deployment_get layout key at_ d with Ok (Some e) => entity_get e "name" | _ => None end) <$> [u1; u2],
                        length (bs_deterministic_errors (hs_state s)))
              | _ => None
              end
          | _ => None
          end
      | _ => None
      end
  | _ => None
  end.

Example mapping_found :
  (found 4, found 5) = (Some ([Some (VString "Bob"); None], 1%nat), Some ([Some (VString "Ann"); None], 1%nat)).
Proof. vm_compute. reflexivity. Qed.

Lemma handlers_user h call op k :
  h ∈ handlers → call ∈ h_calls h → call_op (h_source h) call op → written op = Some k → ∃ id, k = mkEntityKey user id ONCHAIN.
Proof.
  intros Hh Hcall Hco Hk.
  assert (∀ type key, type = "User"%string → key_allowed source type key → ∃ id, key = mkEntityKey user id ONCHAIN) as Hkey.
  { intros type [t id cr] -> (Ht & _ & _ & Hr & _). simpl in *. subst. by exists id. }
  repeat (apply elem_of_cons in Hh as [->|Hh]); [..|by apply not_elem_of_nil in Hh]; cbn [h_calls rename broken] in Hcall;
    repeat (apply elem_of_cons in Hcall as [->|Hcall]); try (by apply not_elem_of_nil in Hcall);
    destruct op; try done; injection Hk as <-; eapply Hkey; (done || apply Hco).
Defined.

Lemma handlers_ok : handlers_fit layout store handlers ONCHAIN deployed.
Proof.
  intros h Hh. split; [by repeat (apply elem_of_cons in Hh as [->|Hh]); [..|by apply not_elem_of_nil in Hh]|].
  intros call op k Hcall Hco Hk. destruct (handlers_user h call op k Hh Hcall Hco Hk) as [id ->]. split; [apply user_key_stored|done].
Defined.

Lemma pool_ok : pool_wf (arc_pool schema_pool).
Proof. exact sample_arc_wf. Defined.

Lemma pool_agrees : sample_arc = schema_pool.
Proof. reflexivity. Defined.

Lemma no_vid_field t : has_field t VID_FIELD = false.
Proof.
  unfold has_field. cbn. destruct (decide (t = user)) as [-> |Hne]; [by vm_compute|done].
Defined.



(** Inside of the first handler *)
Definition inside : HostState queue := mkHostState (seq_new 5) (block_enter_handler (block_state_new empty)).1 0 [].

Lemma host_calls_are_operations_witness :
  let '(s', hrs) := host_calls source (h_calls broken) inside in
  ∃ ops w' rs, run_of source (h_calls broken) hrs (world_of inside) s' ops w' rs.
Proof. apply (host_calls_are_operations pool_ok). done. Defined.

Lemma gas_limits_writes_witness :
  let '(s', hrs) := host_calls source (h_calls broken) inside in
  hs_gas inside + Z.of_nat (length (filter has_written (zip (h_calls broken) hrs))) * 40010000 < max_gas_per_handler.
Proof. apply gas_limits_writes; [done|by repeat constructor|done]. Defined.

End MappingSample.
