(* ===== verification/DataSource.v ===== *)
(** * Data sources and triggers

    Models [graph/src/data_source/mod.rs], [offchain.rs], [subgraph.rs] and
    [causality_region.rs], and the path of [graph/src/ipfs/content_path.rs]:
    the data sources of a subgraph, the triggers they handle and how the two
    are matched.  A chain is the class [Blockchain], as it is a trait in the
    code.  [done_at] of an offchain data source is an atomic that its clones
    share; the atomics of all data sources are a heap that is passed around.
    The end has what a chain promises ([BlockchainSpec]). *)

From Stdlib Require Import ZArith Lia ZifyBool Ascii.
From stdpp Require Import base gmap list strings.
From S2P Require Import Prelude Values Intern Write.

Local Open Scope Z_scope.

(** [str::as_bytes] and [String::from_utf8]; the characters of a [string] are
    the bytes of the text *)
Fixpoint as_bytes (s : string) : list Z :=
  match s with
  | EmptyString => []
  | String c s => Z.of_nat (nat_of_ascii c) :: as_bytes s
  end.

Fixpoint string_of_bytes (bs : list Z) : string :=
  match bs with
  | [] => EmptyString
  | b :: bs => String (ascii_of_nat (Z.to_nat b)) (string_of_bytes bs)
  end.

Definition byte_in (lo hi b : Z) : bool := (lo <=? b) && (b <=? hi).

Fixpoint utf8_valid (bs : list Z) : bool :=
  match bs with
  | [] => true
  | b :: bs =>
      if byte_in 0 127 b then utf8_valid bs
      else match bs with
        | [] => false
        | b1 :: bs =>
            if byte_in 194 223 b then byte_in 128 191 b1 && utf8_valid bs
            else match bs with
              | [] => false
              | b2 :: bs =>
                  let low := if b =? 224 then 160 else 128 in
                  let high := if b =? 237 then 159 else 191 in
                  if byte_in 224 239 b then byte_in low high b1 && byte_in 128 191 b2 && utf8_valid bs
                  else match bs with
                    | [] => false
                    | b3 :: bs =>
                        let low := if b =? 240 then 144 else 128 in
                        let high := if b =? 244 then 143 else 191 in
                        byte_in 240 244 b && byte_in low high b1 && byte_in 128 191 b2 && byte_in 128 191 b3 && utf8_valid bs
                    end
              end
        end
  end.

Definition from_utf8 (bs : list Z) : option string :=
  if utf8_valid bs then Some (string_of_bytes bs) else None.

(** ** Paths to files *)

(** [ContentPath], with the text of its [Cid] *)
Record ContentPath := mkContentPath { cp_cid : string; cp_path : option string }.

#[export] Instance ContentPath_eq_dec : EqDecision ContentPath.
Proof. solve_decision. Defined.

Definition content_path_to_string (self : ContentPath) : string :=
  match cp_path self with
  | Some path => cp_cid self +:+ "/" +:+ path
  | None => cp_cid self
  end.

(** [str::split_once] *)
Fixpoint split_once (c : ascii) (s : string) : option (string * string) :=
  match s with
  | EmptyString => None
  | String c' s =>
      if bool_decide (c' = c) then Some (EmptyString, s)
      else (λ p, (String c' p.1, p.2)) <$> split_once c s
  end.

Fixpoint str_contains (c : ascii) (s : string) : bool :=
  match s with
  | EmptyString => false
  | String c' s => bool_decide (c' = c) || str_contains c s
  end.

Fixpoint trim_start_matches (c : ascii) (s : string) : string :=
  match s with
  | String c' s' => if bool_decide (c' = c) then trim_start_matches c s' else s
  | EmptyString => EmptyString
  end.

Fixpoint trim_end_matches (c : ascii) (s : string) : string :=
  match s with
  | EmptyString => EmptyString
  | String c' s =>
      match trim_end_matches c s with
      | EmptyString => if bool_decide (c' = c) then EmptyString else String c' EmptyString
      | s' => String c' s'
      end
  end.

Fixpoint strip_prefix (prefix s : string) : option string :=
  match prefix, s with
  | EmptyString, _ => Some s
  | String c p, String c' s => if bool_decide (c = c') then strip_prefix p s else None
  | String _ _, EmptyString => None
  end.

(** [Cid::from_str] of the [cid] crate, whose result is kept as the text it is
    displayed with; [None] is a parse error. *)
Class Cids := { parse_cid : string → option string }.

Definition parse_from_cid_and_path `{Cids} (input : string) : option ContentPath :=
  let input := trim_end_matches "/"%char (trim_start_matches "/"%char input) in
  let input := default input (strip_prefix "ipfs/" input) in
  let input := default input (strip_prefix "ipfs://" input) in
  let '(cid, path) := default (input, EmptyString) (split_once "/"%char input) in
  cid ← parse_cid cid;
  if str_contains "?"%char path then None
  else Some (mkContentPath cid (if bool_decide (path = EmptyString) then None else Some path)).

(** [str::trim]: the characters with the property [White_Space], by their
    encodings *)
Definition white_space : list (list Z) :=
  [[9]; [10]; [11]; [12]; [13]; [32]; [194; 133]; [194; 160]; [225; 154; 128];
   [226; 128; 128]; [226; 128; 129]; [226; 128; 130]; [226; 128; 131]; [226; 128; 132]; [226; 128; 133];
   [226; 128; 134]; [226; 128; 135]; [226; 128; 136]; [226; 128; 137]; [226; 128; 138];
   [226; 128; 168]; [226; 128; 169]; [226; 128; 175]; [226; 129; 159]; [227; 128; 128]].

Definition strip_any (prefixes : list (list Z)) (bs : list Z) : option (list Z) :=
  p ← list_find (λ p, take (length p) bs = p) prefixes;
  Some (drop (length p.2) bs).

Fixpoint strip_all (fuel : nat) (prefixes : list (list Z)) (bs : list Z) : list Z :=
  match fuel, strip_any prefixes bs with
  | S fuel, Some bs => strip_all fuel prefixes bs
  | _, _ => bs
  end.

Definition str_trim (s : string) : string :=
  let bs := as_bytes s in
  let bs := strip_all (length bs) white_space bs in
  string_of_bytes (reverse (strip_all (length bs) (reverse <$> white_space) (reverse bs))).

(** [Url] of the [url] crate, by what the parser of paths uses: the value of
    the query parameter [arg], and the path. *)
Class Urls := { parse_url : string → option (option string * string) }.

(** The text after the first occurrence of a separator *)
Fixpoint after_first (sep s : string) : option string :=
  match strip_prefix sep s with
  | Some rest => Some rest
  | None => match s with EmptyString => None | String _ s => after_first sep s end
  end.

Definition parse_from_url `{Cids, Urls} (input : string) : option ContentPath :=
  url ← parse_url input;
  match url.1 with
  | Some x => parse_from_cid_and_path x
  | None => parse_from_cid_and_path (default url.2 (after_first "/ipfs/" url.2))
  end.

Definition content_path_new `{Cids, Urls} (input : string) : option ContentPath :=
  let input := str_trim input in
  if bool_decide (input = EmptyString) then None
  else if bool_decide (is_Some (strip_prefix "http://" input)) || bool_decide (is_Some (strip_prefix "https://" input))
  then parse_from_url input
  else parse_from_cid_and_path input.

(** ** Offchain data sources *)

Inductive OffchainDataSourceKind := Ipfs | Arweave.

Inductive Source := SourceIpfs (path : ContentPath) | SourceArweave (base64 : string).

#[export] Instance Source_eq_dec : EqDecision Source.
Proof. solve_decision. Defined.

Definition source_into_bytes (self : Source) : list Z :=
  match self with
  | SourceIpfs path => as_bytes (content_path_to_string path)
  | SourceArweave base64 => as_bytes base64
  end.

Definition source_address (self : Source) : option (list Z) := Some (source_into_bytes self).

Definition try_parse_source `{Cids, Urls} (self : OffchainDataSourceKind) (bs : list Z) : option Source :=
  match self with
  | Ipfs => s ← from_utf8 bs; SourceIpfs <$> content_path_new s
  | Arweave => SourceArweave <$> from_utf8 bs
  end.

Definition NOT_DONE_VALUE : Z := -1.

(** The atomics that data sources share *)
Record Atomics := mkAtomics { next_cell : nat; cells : gmap nat Z }.

Definition atomics_empty : Atomics := mkAtomics 0 ∅.

Definition alloc (v : Z) (self : Atomics) : nat * Atomics :=
  (next_cell self, mkAtomics (S (next_cell self)) (<[next_cell self := v]> (cells self))).

Definition load (c : nat) (self : Atomics) : Z := default NOT_DONE_VALUE (cells self !! c).

Definition store (c : nat) (v : Z) (self : Atomics) : Atomics :=
  mkAtomics (next_cell self) (<[c := v]> (cells self)).

(** [offchain::Mapping] without the link and the version of the API *)
Record OffchainMapping := mkOffchainMapping {
  om_entities : list EntityType;
  om_handler : string;
  om_runtime : list Z;
}.

Record OffchainDataSource := mkOffchain {
  off_kind : OffchainDataSourceKind;
  off_name : string;
  off_manifest_idx : Z;
  off_source : Source;
  off_mapping : OffchainMapping;
  off_context : option string;
  off_creation_block : option BlockNumber;
  off_done_at : nat;
  off_causality_region : CausalityRegion;
}.

Record OffchainTemplate := mkOffchainTemplate {
  ot_kind : OffchainDataSourceKind;
  ot_name : string;
  ot_manifest_idx : Z;
  ot_mapping : OffchainMapping;
}.

Definition mark_processed_at {E} (self : OffchainDataSource) (block_no : Z) : st Atomics E unit := λ h,
  if bool_decide (block_no = NOT_DONE_VALUE) then (h, Panic) else (store (off_done_at self) block_no h, Ok tt).

Definition is_processed (self : OffchainDataSource) (h : Atomics) : bool :=
  bool_decide (load (off_done_at self) h ≠ NOT_DONE_VALUE).

Definition offchain_done_at (self : OffchainDataSource) (h : Atomics) : option Z :=
  let n := load (off_done_at self) h in
  if bool_decide (n = NOT_DONE_VALUE) then None else Some n.

Definition offchain_set_done_at (self : OffchainDataSource) (block : option Z) (h : Atomics) : Atomics :=
  store (off_done_at self) (default NOT_DONE_VALUE block) h.

Definition offchain_as_stored (self : OffchainDataSource) (h : Atomics) : StoredDynamicDataSource :=
  mkDataSource (off_manifest_idx self) (Some (source_into_bytes (off_source self))) (off_context self)
    (off_creation_block self) (offchain_done_at self h) (off_causality_region self).

Definition offchain_from_stored `{Cids, Urls} (template : OffchainTemplate) (stored : StoredDynamicDataSource)
    : st Atomics string OffchainDataSource := λ h,
  match param stored with
  | None => (h, Err "no param on stored data source")
  | Some param =>
      match try_parse_source (ot_kind template) param with
      | None => (h, Err "invalid source")
      | Some source =>
          let '(cell, h) := alloc (default NOT_DONE_VALUE (done_at stored)) h in
          (h, Ok (mkOffchain (ot_kind template) (ot_name template) (manifest_idx stored) source (ot_mapping template)
                    (context stored) (creation_block stored) cell (ds_causality_region stored)))
      end
  end.

Definition offchain_is_duplicate_of (self b : OffchainDataSource) : bool :=
  bool_decide (off_manifest_idx self = off_manifest_idx b) &&
  bool_decide (off_source self = off_source b) &&
  bool_decide (off_context self = off_context b).

(** ** Data sources on the entities of another subgraph *)

(** Declarations of calls, and the calls that a trigger makes of them
    ([graph/src/data_source/common.rs]) *)
Class DeclaredCalls := {
  CallDecls : Type;
  CallDecls_eq_dec :: EqDecision CallDecls;
  DeclaredCall : Type;
}.

Inductive EntityOperationKind := OpCreate | OpModify | OpDelete.

Record EntitySourceOperation := mkEntityOperation {
  eso_op : EntityOperationKind;
  eso_entity_type : EntityType;
  eso_entity : Object Value;
  eso_vid : Z;
}.

Record EntityHandler `{DeclaredCalls} := mkEntityHandler {
  eh_handler : string;
  eh_entity : string;
  eh_calls : CallDecls;
}.

Record SubgraphSource := mkSubgraphSource { ss_address : string; ss_start_block : BlockNumber }.

Record SubgraphDataSource `{DeclaredCalls} := mkSubgraphDataSource {
  sub_name : string;
  sub_manifest_idx : Z;
  sub_source : SubgraphSource;
  sub_handlers : list EntityHandler;
  sub_runtime : list Z;
  sub_context : option string;
  sub_creation_block : option BlockNumber;
}.

Record SubgraphTrigger := mkSubgraphTrigger { st_source : string; st_entity : EntitySourceOperation; st_source_idx : Z }.

(** [SubgraphFilter]: what a block stream needs to know of a subgraph data source *)
Record SubgraphFilter := mkSubgraphFilter {
  sf_subgraph : string;
  sf_start_block : BlockNumber;
  sf_entities : list string;
  sf_manifest_idx : Z;
}.

Definition subgraph_address `{DeclaredCalls} (self : SubgraphDataSource) : option (list Z) :=
  Some (as_bytes (ss_address (sub_source self))).

(** [Ord] of triggers on entities *)
Definition subgraph_trigger_cmp (a b : SubgraphTrigger) : comparison :=
  match st_source_idx a ?= st_source_idx b with
  | Eq => eso_vid (st_entity a) ?= eso_vid (st_entity b)
  | ord => ord
  end.

(** ** Amp data sources, by what the other parts use of them *)

Record AmpDataSource := mkAmp {
  amp_name : string;
  amp_address : list Z;
  amp_start_block : BlockNumber;
  amp_end_block : BlockNumber;
}.

(** ** Chains and triggers *)

Record TriggerWithHandler (T : Type) := mkTriggerWithHandler {
  twh_trigger : T;
  handler_name : string;
  twh_block_ptr : BlockPtr;
  twh_timestamp : option Z;
}.
Arguments mkTriggerWithHandler {T}.
Arguments twh_trigger {T}.
Arguments handler_name {T}.
Arguments twh_block_ptr {T}.
Arguments twh_timestamp {T}.

Definition map_trigger {T T'} (f : T → T') (self : TriggerWithHandler T) : TriggerWithHandler T' :=
  mkTriggerWithHandler (f (twh_trigger self)) (handler_name self) (twh_block_ptr self) (twh_timestamp self).

(** The traits [Blockchain], [Block], [DataSource] and [TriggerData] of a chain,
    by what the other parts use of them *)
Class Blockchain := {
  ChainDataSource : Type;
  ChainTrigger : Type;
  ChainMappingTrigger : Type;
  ChainBlock : Type;
  block_ptr : ChainBlock → BlockPtr;
  block_timestamp : ChainBlock → option Z;
  chain_address : ChainDataSource → option (list Z);
  chain_start_block : ChainDataSource → BlockNumber;
  chain_end_block : ChainDataSource → option BlockNumber;
  chain_creation_block : ChainDataSource → option BlockNumber;
  chain_runtime : ChainDataSource → option (list Z);
  chain_name : ChainDataSource → string;
  chain_is_duplicate_of : ChainDataSource → ChainDataSource → bool;
  chain_as_stored : ChainDataSource → StoredDynamicDataSource;
  chain_match_and_decode : ChainDataSource → ChainTrigger → ChainBlock
    → outcome string (option (TriggerWithHandler ChainMappingTrigger));
  address_match : ChainTrigger → option (list Z);
}.

Definition block_number `{Blockchain} (b : ChainBlock) : BlockNumber := ptr_number (block_ptr b).

(** [DataSource::has_expired], a method the trait provides *)
Definition has_expired `{Blockchain} (self : ChainDataSource) (block : BlockNumber) : bool :=
  match chain_end_block self with Some end_block => bool_decide (block > end_block) | None => false end.

Section DataSources.
Context `{Blockchain} `{DeclaredCalls}.

Inductive DataSource :=
| DsOnchain (ds : ChainDataSource)
| DsOffchain (ds : OffchainDataSource)
| DsSubgraph (ds : SubgraphDataSource)
| DsAmp (ds : AmpDataSource).

(** [offchain::TriggerData] *)
Record OffchainTrigger := mkOffchainTrigger { ot_source : Source; ot_data : list Z }.

Inductive TriggerData :=
| TrOnchain (t : ChainTrigger)
| TrOffchain (t : OffchainTrigger)
| TrSubgraph (t : SubgraphTrigger).

Inductive MappingTrigger :=
| MtOnchain (t : ChainMappingTrigger)
| MtOffchain (t : OffchainTrigger)
| MtSubgraph (t : SubgraphTrigger) (calls : list DeclaredCall).

Definition as_onchain (self : DataSource) : option ChainDataSource :=
  match self with DsOnchain ds => Some ds | _ => None end.

Definition as_offchain (self : DataSource) : option OffchainDataSource :=
  match self with DsOffchain ds => Some ds | _ => None end.

Definition as_subgraph (self : DataSource) : option SubgraphDataSource :=
  match self with DsSubgraph ds => Some ds | _ => None end.

Definition is_chain_based (self : DataSource) : bool :=
  match self with DsOnchain _ | DsSubgraph _ | DsAmp _ => true | DsOffchain _ => false end.

Definition ds_start_block (self : DataSource) : option BlockNumber :=
  match self with
  | DsOnchain ds => Some (chain_start_block ds)
  | DsOffchain _ => None
  | DsSubgraph ds => Some (ss_start_block (sub_source ds))
  | DsAmp ds => Some (wrap_signed 32 (amp_start_block ds))
  end.

Definition ds_end_block (self : DataSource) : option BlockNumber :=
  match self with
  | DsOnchain ds => chain_end_block ds
  | DsOffchain _ | DsSubgraph _ => None
  | DsAmp ds => Some (wrap_signed 32 (amp_end_block ds))
  end.

Definition ds_address (self : DataSource) : option (list Z) :=
  match self with
  | DsOnchain ds => chain_address ds
  | DsOffchain ds => source_address (off_source ds)
  | DsSubgraph ds => subgraph_address ds
  | DsAmp ds => Some (amp_address ds)
  end.

Definition ds_name (self : DataSource) : string :=
  match self with
  | DsOnchain ds => chain_name ds
  | DsOffchain ds => off_name ds
  | DsSubgraph ds => sub_name ds
  | DsAmp ds => amp_name ds
  end.

Definition ds_creation_block (self : DataSource) : option BlockNumber :=
  match self with
  | DsOnchain ds => chain_creation_block ds
  | DsOffchain ds => off_creation_block ds
  | DsSubgraph ds => sub_creation_block ds
  | DsAmp _ => None
  end.

Definition ds_runtime (self : DataSource) : option (list Z) :=
  match self with
  | DsOnchain ds => chain_runtime ds
  | DsOffchain ds => Some (om_runtime (off_mapping ds))
  | DsSubgraph ds => Some (sub_runtime ds)
  | DsAmp _ => None
  end.

Definition ds_region (self : DataSource) : CausalityRegion :=
  match self with DsOffchain ds => off_causality_region ds | _ => ONCHAIN end.

Definition is_duplicate_of (self other : DataSource) : bool :=
  match self, other with
  | DsOnchain a, DsOnchain b => chain_is_duplicate_of a b
  | DsOffchain a, DsOffchain b => offchain_is_duplicate_of a b
  | _, _ => false
  end.

Definition as_stored_dynamic_data_source (self : DataSource) (h : Atomics) : outcome string StoredDynamicDataSource :=
  match self with
  | DsOnchain ds => Ok (chain_as_stored ds)
  | DsOffchain ds => Ok (offchain_as_stored ds h)
  | DsSubgraph _ | DsAmp _ => Panic
  end.

Definition offchain_match_and_decode (self : OffchainDataSource) (trigger : OffchainTrigger) (h : Atomics)
    : option (TriggerWithHandler MappingTrigger) :=
  if bool_decide (off_source self ≠ ot_source trigger) || is_processed self h then None
  else Some (mkTriggerWithHandler (MtOffchain trigger) (om_handler (off_mapping self))
               (mkBlockPtr (default 0 (off_creation_block self)) []) None).

(** [DeclaredCall::from_entity_trigger] *)
Context (from_entity_trigger : CallDecls → EntitySourceOperation → outcome string (list DeclaredCall)).

Definition subgraph_match_and_decode (self : SubgraphDataSource) (block : ChainBlock) (trigger : SubgraphTrigger)
    : outcome string (option (TriggerWithHandler MappingTrigger)) :=
  if bool_decide (ss_address (sub_source self) ≠ st_source trigger) then Ok None
  else
    match reverse (filter (λ h, eh_entity h = et_name (eso_entity_type (st_entity trigger))) (sub_handlers self)) with
    | [] => Ok None
    | [handler] =>
        calls ← from_entity_trigger (eh_calls handler) (st_entity trigger);
        Ok (Some (mkTriggerWithHandler (MtSubgraph trigger calls) (eh_handler handler) (block_ptr block) (block_timestamp block)))
    | _ => Err "Multiple handlers defined for entity, only one is supported"
    end.

Definition match_and_decode (self : DataSource) (trigger : TriggerData) (block : ChainBlock) (h : Atomics)
    : outcome string (option (TriggerWithHandler MappingTrigger)) :=
  match self, trigger with
  | DsOnchain ds, TrOnchain trigger =>
      if has_expired ds (block_number block) then Ok None
      else option_map (map_trigger MtOnchain) <$> chain_match_and_decode ds trigger block
  | DsOffchain ds, TrOffchain trigger => Ok (offchain_match_and_decode ds trigger h)
  | DsSubgraph ds, TrSubgraph trigger => subgraph_match_and_decode ds block trigger
  | _, _ => Ok None
  end.

End DataSources.

Arguments TriggerData {_}.
Arguments MappingTrigger {_ _}.
Arguments DataSource {_ _}.

(** ** What a chain promises

    Duplicates have the same address, and a data source with an address does
    not match the triggers of another address. *)

Class BlockchainSpec `{Blockchain} := {
  duplicate_address : ∀ a b, chain_is_duplicate_of a b = true → chain_address a = chain_address b;
  match_needs_address : ∀ ds t b a a', chain_address ds = Some a → address_match t = Some a' → a ≠ a'
    → chain_match_and_decode ds t b = Ok None;
}.

Section DataSourceFacts.
Context `{BlockchainSpec} `{DeclaredCalls}.

Lemma is_duplicate_of_address a b : is_duplicate_of a b = true → ds_address a = ds_address b.
Proof.
  destruct a, b; try done; simpl; [apply duplicate_address|].
  unfold offchain_is_duplicate_of. rewrite !andb_true_iff, !bool_decide_eq_true. by intros [[_ ->] _].
Qed.

Lemma is_duplicate_of_kind a b : is_duplicate_of a b = true → is_chain_based a = is_chain_based b.
Proof. by destruct a, b. Qed.

End DataSourceFacts.
