(* ===== verification/Instance.v ===== *)
(** * The hosts of a running subgraph

    Models [core/src/subgraph/context/instance/hosts.rs] and [mod.rs] and the
    in-memory state of [core/src/subgraph/context/mod.rs]: one host per data
    source, indexed by address to match triggers, added when data sources are
    created and taken away when blocks are reverted.  An [Arc] of a host is
    the host with an identity, which [Arc::ptr_eq] compares. *)

From Stdlib Require Import ZArith Lia ZifyBool.
From stdpp Require Import base gmap list sorting strings.
From S2P Require Import Prelude Values Write DataSource.
From S2P Require HostExports.

Local Open Scope Z_scope.

(** [Ord] of [Option<BlockNumber>] *)
Definition opt_le (a b : option Z) : bool :=
  match a, b with
  | None, _ => true
  | Some _, None => false
  | Some a, Some b => a <=? b
  end.

Section Hosts.
Context `{Blockchain} `{DeclaredCalls}.

Record Host := mkHost { host_id : nat; host_ds : DataSource }.

Definition host_address (h : Host) : option (list Z) := ds_address (host_ds h).
Definition creation_block_number (h : Host) : option BlockNumber := ds_creation_block (host_ds h).
Definition host_eq (a b : Host) : bool := is_duplicate_of (host_ds a) (host_ds b).
Definition host_done_at (h : Host) (m : Atomics) : option Z :=
  match host_ds h with DsOffchain ds => offchain_done_at ds m | _ => None end.
Definition host_set_done_at (h : Host) (block : option Z) (m : Atomics) : Atomics :=
  match host_ds h with DsOffchain ds => offchain_set_done_at ds block m | _ => m end.

(** ** Onchain hosts *)

Record OnchainHosts := mkOnchainHosts {
  hosts : list Host;
  hosts_by_address : gmap (list Z) (list nat);
  hosts_without_address : list nat;
}.

Definition onchain_new : OnchainHosts := mkOnchainHosts [] ∅ [].

Fixpoint any_host {E} (f : Host → bool) (hs : list Host) (idxs : list nat) : outcome E bool :=
  match idxs with
  | [] => Ok false
  | i :: idxs =>
      h ← unwrap (hs !! i);
      if f h then Ok true else any_host f hs idxs
  end.

Fixpoint hosts_at {E} (hs : list Host) (idxs : list nat) : outcome E (list Host) :=
  match idxs with
  | [] => Ok []
  | i :: idxs =>
      h ← unwrap (hs !! i);
      rest ← hosts_at hs idxs;
      Ok (h :: rest)
  end.

Definition onchain_contains {E} (other : Host) (self : OnchainHosts) : outcome E bool :=
  let idxs := match host_address other with
    | Some address => default [] (hosts_by_address self !! address)
    | None => hosts_without_address self
    end in
  any_host (λ h, host_eq h other) (hosts self) idxs.

Definition onchain_last (self : OnchainHosts) : option Host := last (hosts self).
Definition onchain_len (self : OnchainHosts) : nat := length (hosts self).

Definition onchain_push {E} (host : Host) : st OnchainHosts E unit := λ self,
  if is_chain_based (host_ds host) then
    let hs := hosts self ++ [host] in
    let idx := (length hs - 1)%nat in
    match host_address host with
    | Some address =>
        let at_address := default [] (hosts_by_address self !! address) ++ [idx] in
        (mkOnchainHosts hs (<[address := at_address]> (hosts_by_address self)) (hosts_without_address self), Ok tt)
    | None => (mkOnchainHosts hs (hosts_by_address self) (hosts_without_address self ++ [idx]), Ok tt)
    end
  else (self, Panic).

(** [Vec::pop] *)
Definition vec_pop {A} (l : list A) : option (A * list A) :=
  x ← last l; Some (x, take (length l - 1) l).

Definition onchain_pop {E} : st OnchainHosts E unit := λ self,
  match vec_pop (hosts self) with
  | None => (self, Ok tt)
  | Some (host, hs) =>
      let self := mkOnchainHosts hs (hosts_by_address self) (hosts_without_address self) in
      match host_address host with
      | Some address =>
          match hosts_by_address self !! address ≫= vec_pop with
          | None => (self, Panic)
          | Some (idx, idxs) =>
              let self := mkOnchainHosts hs (<[address := idxs]> (hosts_by_address self)) (hosts_without_address self) in
              if bool_decide (idx = length hs) then (self, Ok tt) else (self, Panic)
          end
      | None =>
          match vec_pop (hosts_without_address self) with
          | None => (self, Panic)
          | Some (idx, idxs) =>
              let self := mkOnchainHosts hs (hosts_by_address self) idxs in
              if bool_decide (idx = length hs) then (self, Ok tt) else (self, Panic)
          end
      end
  end.

Definition onchain_matches_by_address {E} (address : option (list Z)) (self : OnchainHosts) : outcome E (list Host) :=
  match address with
  | None => Ok (hosts self)
  | Some address =>
      let matching_hosts := default [] (hosts_by_address self !! address) ++ hosts_without_address self in
      hosts_at (hosts self) (merge_sort (≤)%nat matching_hosts)
  end.

(** ** Offchain hosts *)

(** [BTreeMap<Option<BlockNumber>, Vec<_>>] as the list of its entries in the
    order of the keys *)
Record OffchainHosts := mkOffchainHosts {
  by_block : list (option BlockNumber * list Host);
  by_address : gmap (list Z) (list Host);
  wildcard_address : list Host;
}.

Definition offchain_new : OffchainHosts := mkOffchainHosts [] ∅ [].

Definition offchain_len (self : OffchainHosts) : nat := foldr Nat.add 0%nat (length <$> (by_block self).*2).

Definition offchain_all (self : OffchainHosts) : list Host := concat (by_block self).*2.

Definition offchain_contains (other : Host) (self : OffchainHosts) : bool :=
  let hs := match host_address other with
    | Some address => default [] (by_address self !! address)
    | None => wildcard_address self
    end in
  existsb (λ h, host_eq h other) hs.

(** [map.entry(block).or_default().push(host)] *)
Fixpoint push_entry (block : option BlockNumber) (host : Host) (m : list (option BlockNumber * list Host))
    : list (option BlockNumber * list Host) :=
  match m with
  | [] => [(block, [host])]
  | (b, hs) :: m =>
      if bool_decide (b = block) then (b, hs ++ [host]) :: m
      else if opt_le block b then (block, [host]) :: (b, hs) :: m
      else (b, hs) :: push_entry block host m
  end.

Definition offchain_push {E} (host : Host) : st OffchainHosts E unit := λ self,
  match as_offchain (host_ds host) with
  | None => (self, Panic)
  | Some _ =>
      let blocks := push_entry (creation_block_number host) host (by_block self) in
      match host_address host with
      | Some address =>
          (mkOffchainHosts blocks (<[address := default [] (by_address self !! address) ++ [host]]> (by_address self))
             (wildcard_address self), Ok tt)
      | None => (mkOffchainHosts blocks (by_address self) (wildcard_address self ++ [host]), Ok tt)
      end
  end.

(** [hosts.retain(|h| !Arc::ptr_eq(h, &host))] *)
Definition without_host (host : Host) (hs : list Host) : list Host :=
  filter (λ h, host_id h ≠ host_id host) hs.

Definition remove_host {E} (host : Host) : st OffchainHosts E unit := λ self,
  match host_address host with
  | Some address =>
      match by_address self !! address with
      | None => (self, Panic)
      | Some hs => (mkOffchainHosts (by_block self) (<[address := without_host host hs]> (by_address self))
                      (wildcard_address self), Ok tt)
      end
  | None => (mkOffchainHosts (by_block self) (by_address self) (without_host host (wildcard_address self)), Ok tt)
  end.

Definition remove_ge_block {E} (block : BlockNumber) : st OffchainHosts E unit := λ self,
  let removed := filter (λ e, opt_le (Some block) e.1) (by_block self) in
  let kept := filter (λ e, opt_le (Some block) e.1 = false) (by_block self) in
  st_for remove_host (concat removed.*2) (mkOffchainHosts kept (by_address self) (wildcard_address self)).

Definition offchain_matches_by_address (address : option (list Z)) (self : OffchainHosts) : list Host :=
  match address with
  | None => offchain_all self
  | Some address => default [] (by_address self !! address) ++ wildcard_address self
  end.

End Hosts.

(** ** The instance *)

(** [RuntimeHostBuilder]: modules are compiled once per hash of their text *)
Class RuntimeHostBuilder `{Blockchain} `{DeclaredCalls} := {
  Sender : Type;
  module_hash : list Z → Z;
  spawn_mapping : list Z → outcome string Sender;
  build_host : DataSource → Sender → outcome string unit;
}.

(** [GRAPH_SUBGRAPH_MAX_DATA_SOURCES] *)
Class InstanceEnv := { subgraph_max_data_sources : nat }.

(** [CausalityRegion::next], the addition of 1 to an [i32] *)
Definition region_next {E} `{Arithmetic} (region : CausalityRegion) : outcome E CausalityRegion :=
  if region + 1 <? 2 ^ 31 then Ok (region + 1)
  else if overflow_checks then Panic else Ok (wrap_signed 32 (region + 1)).

Section Instances.
Context `{Blockchain} `{DeclaredCalls} `{!RuntimeHostBuilder} `{InstanceEnv} `{AR : Arithmetic}.

(** The fields of [SubgraphInstance] that change or that other parts read; the
    atomics and the next identity of an [Arc] stand for the memory. *)
Record SubgraphInstance := mkInstance {
  static_data_sources : list DataSource;
  onchain_hosts : OnchainHosts;
  subgraph_hosts : OnchainHosts;
  offchain_hosts : OffchainHosts;
  module_cache : gmap Z Sender;
  causality_region_seq : CausalityRegion;
  next_host : nat;
  atomics : Atomics;
}.

Definition instance_new (data_sources : list DataSource) (seq : CausalityRegion) (m : Atomics) : SubgraphInstance :=
  mkInstance data_sources onchain_new onchain_new offchain_new ∅ seq 0 m.

Definition set_onchain (hs : OnchainHosts) (self : SubgraphInstance) : SubgraphInstance :=
  mkInstance (static_data_sources self) hs (subgraph_hosts self) (offchain_hosts self) (module_cache self)
    (causality_region_seq self) (next_host self) (atomics self).
Definition set_region (region : CausalityRegion) (self : SubgraphInstance) : SubgraphInstance :=
  mkInstance (static_data_sources self) (onchain_hosts self) (subgraph_hosts self) (offchain_hosts self)
    (module_cache self) region (next_host self) (atomics self).
Definition set_subgraph (hs : OnchainHosts) (self : SubgraphInstance) : SubgraphInstance :=
  mkInstance (static_data_sources self) (onchain_hosts self) hs (offchain_hosts self) (module_cache self)
    (causality_region_seq self) (next_host self) (atomics self).
Definition set_offchain (hs : OffchainHosts) (self : SubgraphInstance) : SubgraphInstance :=
  mkInstance (static_data_sources self) (onchain_hosts self) (subgraph_hosts self) hs (module_cache self)
    (causality_region_seq self) (next_host self) (atomics self).
Definition set_modules (ms : gmap Z Sender) (self : SubgraphInstance) : SubgraphInstance :=
  mkInstance (static_data_sources self) (onchain_hosts self) (subgraph_hosts self) (offchain_hosts self) ms
    (causality_region_seq self) (next_host self) (atomics self).
Definition set_atomics (m : Atomics) (self : SubgraphInstance) : SubgraphInstance :=
  mkInstance (static_data_sources self) (onchain_hosts self) (subgraph_hosts self) (offchain_hosts self)
    (module_cache self) (causality_region_seq self) (next_host self) m.

(** [Arc::new] of a host *)
Definition new_arc {E} (ds : DataSource) : st SubgraphInstance E Host := λ self,
  (mkInstance (static_data_sources self) (onchain_hosts self) (subgraph_hosts self) (offchain_hosts self)
     (module_cache self) (causality_region_seq self) (S (next_host self)) (atomics self),
   Ok (mkHost (next_host self) ds)).

Definition on_field {S' E A} (get : SubgraphInstance → S') (set : S' → SubgraphInstance → SubgraphInstance)
    (m : st S' E A) : st SubgraphInstance E A := λ self,
  let '(s, r) := m (get self) in (set s self, r).

Definition hosts_len (self : SubgraphInstance) : nat :=
  (onchain_len (onchain_hosts self) + offchain_len (offchain_hosts self))%nat.

Definition mapping_request_sender (module_bytes : list Z) : st SubgraphInstance string Sender := λ self,
  match module_cache self !! module_hash module_bytes with
  | Some sender => (self, Ok sender)
  | None =>
      match spawn_mapping module_bytes with
      | Ok sender => (set_modules (<[module_hash module_bytes := sender]> (module_cache self)) self, Ok sender)
      | Err e => (self, Err e)
      | Panic => (self, Panic)
      end
  end.

Definition new_host (data_source : DataSource) : st SubgraphInstance string (option Host) :=
  match ds_runtime data_source with
  | None => mret None
  | Some module_bytes =>
      sender ← mapping_request_sender module_bytes;
      _ ← lift (build_host data_source sender);
      host ← new_arc data_source;
      mret (Some host)
  end.

(** Add a host to the hosts of one kind unless they have a duplicate *)
Definition push_unless {S'} (contains : Host → S' → outcome string bool) (push : Host → st S' string unit) (host : Host)
    : st S' string (option Host) :=
  hs ← st_get;
  present ← lift (contains host hs);
  if present : bool then mret None else (push host;; mret (Some host)).

(** The second half of [add_dynamic_data_source] *)
Definition register_host (host : Host) : st SubgraphInstance string (option Host) :=
  match host_ds host with
  | DsOnchain _ =>
      self ← st_get;
      if opt_le (onchain_last (onchain_hosts self) ≫= creation_block_number) (creation_block_number host)
      then on_field onchain_hosts set_onchain (push_unless onchain_contains onchain_push host)
      else st_fail "Condition failed: creation blocks are ordered"
  | DsOffchain _ =>
      on_field offchain_hosts set_offchain (push_unless (λ h hs, Ok (offchain_contains h hs)) offchain_push host)
  | DsSubgraph _ => on_field subgraph_hosts set_subgraph (push_unless onchain_contains onchain_push host)
  | DsAmp _ => lift Panic
  end.

Definition add_dynamic_data_source (data_source : DataSource) : st SubgraphInstance string (option Host) := λ self,
  if (subgraph_max_data_sources <=? hosts_len self)%nat then (self, Err "Limit of data sources per subgraph exceeded")
  else
    (host ← new_host data_source;
     match host with
     | None => mret None
     | Some host => register_host host
     end) self.

(** The loop of [revert_onchain_hosts]; it pops at most as many hosts as there
    are. *)
Fixpoint revert_onchain_loop {E} (fuel : nat) (reverted_block : BlockNumber) : st OnchainHosts E unit := λ self,
  match onchain_last self with
  | Some h =>
      if opt_le (Some reverted_block) (creation_block_number h) then
        match fuel with
        | O => (self, Ok tt)
        | S fuel => (onchain_pop;; revert_onchain_loop fuel reverted_block) self
        end
      else (self, Ok tt)
  | None => (self, Ok tt)
  end.

Definition revert_onchain_hosts {E} (reverted_block : BlockNumber) : st OnchainHosts E unit := λ self,
  revert_onchain_loop (onchain_len self) reverted_block self.

(** The hosts that were done at the block or later, and what unmarking them
    does *)
Definition unmark_step (reverted_block : BlockNumber) (acc : list Source * Atomics) (h : Host) : list Source * Atomics :=
  match host_done_at h acc.2, host_ds h with
  | Some done_at, DsOffchain ds =>
      if reverted_block <=? done_at then (acc.1 ++ [off_source ds], host_set_done_at h None acc.2) else acc
  | _, _ => acc
  end.

Definition unmark_done (reverted_block : BlockNumber) (hs : list Host) (m : Atomics) : list Source * Atomics :=
  foldl (unmark_step reverted_block) ([], m) hs.

Definition unmark_hosts {E} (reverted_block : BlockNumber) : st SubgraphInstance E (list Source) := λ self,
  if bool_decide (causality_region_seq self = ONCHAIN) then (self, Ok [])
  else
    let '(sources, m) := unmark_done reverted_block (offchain_all (offchain_hosts self)) (atomics self) in
    (set_atomics m self, Ok sources).

Definition revert_data_sources (reverted_block : BlockNumber) : st SubgraphInstance string (list Source) :=
  on_field onchain_hosts set_onchain (revert_onchain_hosts reverted_block);;
  on_field offchain_hosts set_offchain (remove_ge_block reverted_block);;
  unmark_hosts reverted_block.

Definition hosts_for_trigger (trigger : TriggerData) (self : SubgraphInstance) : outcome string (list Host) :=
  match trigger with
  | TrOnchain trigger => onchain_matches_by_address (address_match trigger) (onchain_hosts self)
  | TrOffchain trigger => Ok (offchain_matches_by_address (source_address (ot_source trigger)) (offchain_hosts self))
  | TrSubgraph trigger => onchain_matches_by_address (Some (as_bytes (st_source trigger))) (subgraph_hosts self)
  end.

(** [CausalityRegionSeq::next_val] *)
Definition causality_region_next_value {E} : st SubgraphInstance E CausalityRegion := λ self,
  match region_next (causality_region_seq self) with
  | Ok next => (set_region next self, Ok next)
  | Err e => (self, Err e)
  | Panic => (self, Panic)
  end.

(** [SubgraphInstance::onchain_data_sources] *)
Definition onchain_data_sources (self : SubgraphInstance) : outcome string (list ChainDataSource) :=
  hs ← foldr (λ h acc, ds ← unwrap (as_onchain (host_ds h)); rest ← acc; Ok (ds :: rest)) (Ok []) (hosts (onchain_hosts self));
  Ok (hs ++ omap (λ ds, if bool_decide (ds_runtime ds = None) then as_onchain ds else None) (static_data_sources self)).

End Instances.

(** ** The decoder of core/src/subgraph/trigger_processor.rs *)

Section Decoder.
Context `{Blockchain} `{DeclaredCalls}.
Context (from_entity_trigger : CallDecls → EntitySourceOperation → outcome string (list DeclaredCall)).

Record HostedTrigger := mkHosted { ht_host : Host; mapping_trigger : TriggerWithHandler MappingTrigger }.

Fixpoint match_and_decode_inner (block : ChainBlock) (trigger : TriggerData) (m : Atomics) (hs : list Host)
    : outcome HostExports.MappingError (list HostedTrigger) :=
  match hs with
  | [] => Ok []
  | host :: hs =>
      decoded ← map_err (λ _, HostExports.MappingUnknown) (match_and_decode from_entity_trigger (host_ds host) trigger block m);
      rest ← match_and_decode_inner block trigger m hs;
      Ok (match decoded with Some mapping_trigger => mkHosted host mapping_trigger :: rest | None => rest end)
  end.

End Decoder.
