(* ===== verification/InstanceFacts.v ===== *)
(** * The hosts of a running subgraph: what the indexes give

    The indexes by address stay in step with the hosts in every sequence of
    additions and reverts, so that matching by address gives the hosts that
    are there, in the order in which they were added, and looking for a
    duplicate finds one exactly when there is one. *)

From Stdlib Require Import ZArith Lia ZifyBool.
From stdpp Require Import base gmap list sorting strings.
From S2P Require Import Prelude Values Write DataSource Instance.

Local Open Scope Z_scope.

(** ** Positions of the elements with a property *)

Section Positions.
Context {A : Type}.
Implicit Types (p q : A → bool) (l : list A).

Definition holds_at p l (i : nat) : bool := match l !! i with Some x => p x | None => false end.

Definition positions p l : list nat := filter (λ i, holds_at p l i = true) (seq 0 (length l)).

Lemma positions_snoc p l x :
  positions p (l ++ [x]) = positions p l ++ (if p x then [length l] else []).
Proof.
  unfold positions. rewrite length_app, seq_app, filter_app. f_equal.
  - apply filter_ext_in. intros i Hi%elem_of_seq. unfold holds_at. by rewrite lookup_app_l by lia.
  - cbn [length seq]. rewrite filter_cons, filter_nil. unfold holds_at.
    cbn [Nat.add]. rewrite lookup_app_r, Nat.sub_diag by lia. simpl. by destruct (p x).
Qed.

Lemma positions_sorted p l : StronglySorted (≤)%nat (positions p l).
Proof.
  unfold positions. generalize 0%nat as k. induction (length l) as [|n IH]; intros k; [constructor|].
  cbn [seq]. rewrite filter_cons. case_decide; [|apply IH]. constructor; [apply IH|].
  apply Forall_forall. intros i Hi%list_elem_of_filter. destruct Hi as [_ Hi%elem_of_seq]. lia.
Qed.

Lemma elem_of_positions p l i : i ∈ positions p l ↔ ∃ x, l !! i = Some x ∧ p x = true.
Proof.
  unfold positions. rewrite list_elem_of_filter, elem_of_seq. unfold holds_at. split.
  - intros [Hx _]. destruct (l !! i) as [x|]; [eauto|done].
  - intros (x & Hx & Hp). rewrite Hx. apply lookup_lt_Some in Hx. split; [done|lia].
Qed.

Lemma positions_disjoint p q l : (∀ x, p x = true → q x = false) →
  positions p l ++ positions q l ≡ₚ positions (λ x, p x || q x) l.
Proof.
  intros Hpq. apply NoDup_Permutation.
  - apply NoDup_app. split_and!; try (apply NoDup_filter, NoDup_seq).
    intros i (x & Hx & Hp)%elem_of_positions (y & Hy & Hq)%elem_of_positions. simplify_eq.
    apply Hpq in Hp. congruence.
  - apply NoDup_filter, NoDup_seq.
  - intros i. rewrite elem_of_app, !elem_of_positions. setoid_rewrite orb_true_iff. naive_solver.
Qed.

Lemma merge_sort_positions p q l : (∀ x, p x = true → q x = false) →
  merge_sort (≤)%nat (positions p l ++ positions q l) = positions (λ x, p x || q x) l.
Proof.
  intros Hpq. apply (StronglySorted_unique (≤)%nat).
  - apply Sorted_StronglySorted; [intros ???; lia|]. apply Sorted_merge_sort. intros x y. lia.
  - apply positions_sorted.
  - rewrite merge_sort_Permutation. by apply positions_disjoint.
Qed.

End Positions.

Lemma NoDup_fmap_filter {A B} (f : A → B) (P : A → Prop) `{!∀ x, Decision (P x)} l :
  NoDup (f <$> l) → NoDup (f <$> filter P l).
Proof.
  induction l as [|x l IH]; [done|]. intros [Hx Hl]%NoDup_cons. rewrite filter_cons. case_decide; [|auto].
  apply NoDup_cons. split; [|auto]. intros (y & Hxy & [_ Hy]%list_elem_of_filter)%list_elem_of_fmap.
  apply Hx. rewrite Hxy. by apply list_elem_of_fmap_2.
Qed.

(** ** Onchain hosts *)

Section OnchainFacts.
Context `{BlockchainSpec} `{DeclaredCalls}.
Implicit Types (h : Host) (hs : list Host) (s : OnchainHosts).

Definition at_address (a : option (list Z)) h : bool := bool_decide (host_address h = a).

(** The host matches triggers of an address *)
Definition matches_address (a : list Z) h : bool := at_address (Some a) h || at_address None h.

Definition onchain_wf s : Prop :=
  (∀ a, default [] (hosts_by_address s !! a) = positions (at_address (Some a)) (hosts s)) ∧
  hosts_without_address s = positions (at_address None) (hosts s) ∧
  Forall (λ h, is_chain_based (host_ds h) = true) (hosts s).

Lemma onchain_new_wf : onchain_wf onchain_new.
Proof. split_and!; [intros a; simpl; by rewrite lookup_empty|done|constructor]. Qed.

Lemma onchain_push_wf {E} h s : onchain_wf s → is_chain_based (host_ds h) = true →
  ∃ s', onchain_push (E := E) h s = (s', Ok tt) ∧ onchain_wf s' ∧ hosts s' = hosts s ++ [h].
Proof.
  intros (Hby & Hwo & Hall) Hh. unfold onchain_push. rewrite Hh, length_app. cbn [length].
  replace (length (hosts s) + 1 - 1)%nat with (length (hosts s)) by lia.
  destruct (host_address h) as [a|] eqn:Ha; eexists; (split; [done|split; [|done]]); split_and!; simpl; try done.
  - intros a'. rewrite positions_snoc. unfold at_address at 2. rewrite Ha.
    destruct (decide (a' = a)) as [->|Hne].
    + rewrite lookup_insert_eq. simpl. rewrite Hby. by rewrite bool_decide_eq_true_2.
    + rewrite lookup_insert_ne by done. rewrite Hby, bool_decide_eq_false_2 by congruence. by rewrite app_nil_r.
  - rewrite positions_snoc, Hwo. unfold at_address at 3. rewrite Ha, bool_decide_eq_false_2 by done. by rewrite app_nil_r.
  - apply Forall_app. auto.
  - intros a'. rewrite positions_snoc. unfold at_address at 2. rewrite Ha, bool_decide_eq_false_2 by done.
    by rewrite app_nil_r.
  - rewrite positions_snoc, Hwo. unfold at_address at 3. by rewrite Ha, bool_decide_eq_true_2.
  - apply Forall_app. auto.
Qed.

Lemma vec_pop_snoc {A} (l : list A) x : vec_pop (l ++ [x]) = Some (x, l).
Proof.
  unfold vec_pop. rewrite last_snoc. simpl. rewrite length_app. cbn [length].
  by rewrite Nat.add_sub, take_app_length.
Qed.

Lemma onchain_pop_wf {E} h hs s : onchain_wf s → hosts s = hs ++ [h] →
  ∃ s', onchain_pop (E := E) s = (s', Ok tt) ∧ onchain_wf s' ∧ hosts s' = hs.
Proof.
  intros (Hby & Hwo & Hall) Hhs. unfold onchain_pop. rewrite Hhs, vec_pop_snoc.
  assert (Forall (λ h, is_chain_based (host_ds h) = true) hs) as Hall'
    by (rewrite Hhs, Forall_app in Hall; by destruct Hall).
  assert (∀ a, default [] (hosts_by_address s !! a) =
    positions (at_address (Some a)) hs ++ (if at_address (Some a) h then [length hs] else [])) as Hby'.
  { intros a. by rewrite Hby, Hhs, positions_snoc. }
  rewrite Hhs, positions_snoc in Hwo. simpl.
  unfold at_address in Hby' at 2. unfold at_address in Hwo at 2.
  destruct (host_address h) as [a|] eqn:Ha.
  - pose proof (Hby' a) as Hat. rewrite bool_decide_eq_true_2 in Hat by done.
    destruct (hosts_by_address s !! a) as [idxs|] eqn:Hlk; simpl in Hat; [|by apply app_cons_not_nil in Hat].
    subst idxs. simpl. rewrite vec_pop_snoc, bool_decide_eq_true_2 by done.
    eexists; (split; [done|split; [|done]]); split_and!; simpl; try done.
    + intros a'. destruct (decide (a' = a)) as [->|Hne]; [by rewrite lookup_insert_eq|].
      rewrite lookup_insert_ne by done. rewrite Hby', bool_decide_eq_false_2 by congruence. by rewrite app_nil_r.
    + by rewrite Hwo, bool_decide_eq_false_2, app_nil_r by done.
  - rewrite Hwo, bool_decide_eq_true_2, vec_pop_snoc, bool_decide_eq_true_2 by done.
    eexists; (split; [done|split; [|done]]); split_and!; simpl; try done.
    intros a. by rewrite Hby', bool_decide_eq_false_2, app_nil_r by done.
Qed.

Lemma any_host_positions {E} p f hs :
  any_host (E := E) f hs (positions p hs) = Ok (existsb (λ h, p h && f h) hs).
Proof.
  assert (∀ l idxs, Forall (λ i, is_Some (l !! i)) idxs →
    any_host (E := E) f l idxs = Ok (existsb f (omap (λ i, l !! i) idxs))) as Hgen.
  { intros l idxs. induction 1 as [|i idxs [h Hh] _ IH]; [done|]. simpl. rewrite Hh. simpl.
    destruct (f h); simpl; [done|]. apply IH. }
  rewrite Hgen.
  - f_equal. induction hs as [|h hs IH] using rev_ind; [done|].
    rewrite positions_snoc, omap_app, existsb_app, existsb_app. f_equal.
    + rewrite <- IH. f_equal. apply list_omap_ext, Forall_Forall2_diag, Forall_forall.
      intros i (x & Hx & _)%elem_of_positions. apply lookup_lt_Some in Hx. by rewrite lookup_app_l.
    + destruct (p h) eqn:Hp; cbn; rewrite ?Hp; [|done]. rewrite lookup_app_r, Nat.sub_diag by lia. done.
  - apply Forall_forall. intros i (x & Hx & _)%elem_of_positions. eauto.
Qed.

Lemma hosts_at_positions {E} p hs : hosts_at (E := E) hs (positions p hs) = Ok (filter (λ h, p h = true) hs).
Proof.
  assert (∀ l idxs, Forall (λ i, is_Some (l !! i)) idxs →
    hosts_at (E := E) l idxs = Ok (omap (λ i, l !! i) idxs)) as Hgen.
  { intros l idxs. induction 1 as [|i idxs [h Hh] _ IH]; [done|]. simpl. rewrite Hh. simpl. by rewrite IH. }
  rewrite Hgen.
  - f_equal. induction hs as [|h hs IH] using rev_ind; [done|].
    rewrite positions_snoc, omap_app, filter_app. f_equal.
    + rewrite <- IH. apply list_omap_ext, Forall_Forall2_diag, Forall_forall.
      intros i (x & Hx & _)%elem_of_positions. apply lookup_lt_Some in Hx. by rewrite lookup_app_l.
    + rewrite filter_cons, filter_nil. destruct (p h) eqn:Hp; cbn; [|done].
      rewrite lookup_app_r, Nat.sub_diag by lia. done.
  - apply Forall_forall. intros i (x & Hx & _)%elem_of_positions. eauto.
Qed.

Lemma existsb_ext_in {A} (f g : A → bool) l : (∀ x, f x = g x) → existsb f l = existsb g l.
Proof. intros Hfg. induction l as [|x l IH]; simpl; [done|]. by rewrite Hfg, IH. Qed.

Lemma onchain_contains_spec {E} h s : onchain_wf s →
  onchain_contains (E := E) h s = Ok (existsb (λ h', host_eq h' h) (hosts s)).
Proof.
  intros (Hby & Hwo & _). unfold onchain_contains.
  assert (∀ h', at_address (host_address h) h' && host_eq h' h = host_eq h' h) as Heq.
  { intros h'. destruct (host_eq h' h) eqn:Heq; [|apply andb_false_r].
    rewrite andb_true_r. unfold at_address. apply bool_decide_eq_true_2. by apply is_duplicate_of_address. }
  rewrite <- (existsb_ext_in _ _ (hosts s) Heq).
  destruct (host_address h) as [a|]; [rewrite Hby|rewrite Hwo]; apply any_host_positions.
Qed.

Lemma onchain_matches_spec {E} a s : onchain_wf s →
  onchain_matches_by_address (E := E) a s =
    Ok (match a with Some a => filter (λ h, matches_address a h = true) (hosts s) | None => hosts s end).
Proof.
  intros (Hby & Hwo & _). destruct a as [a|]; simpl; [|done].
  rewrite Hby, Hwo, merge_sort_positions; [apply hosts_at_positions|].
  intros h. unfold at_address. rewrite bool_decide_eq_true, bool_decide_eq_false. by intros ->.
Qed.

(** [revert_onchain_hosts] keeps the hosts that were created before the block,
    since the hosts are in the order of their creation *)
Definition created_before (b : BlockNumber) h : bool := negb (opt_le (Some b) (creation_block_number h)).

Definition creation_le h h' : Prop := opt_le (creation_block_number h) (creation_block_number h') = true.

Lemma opt_le_trans a b c : opt_le a b = true → opt_le b c = true → opt_le a c = true.
Proof. destruct a, b, c; simpl; lia || done. Qed.

Lemma revert_onchain_spec {E} b s : onchain_wf s → StronglySorted creation_le (hosts s) →
  ∃ s', revert_onchain_hosts (E := E) b s = (s', Ok tt) ∧ onchain_wf s' ∧ hosts s' = filter (λ h, created_before b h = true) (hosts s).
Proof.
  intros Hwf Hs. unfold revert_onchain_hosts, onchain_len.
  remember (length (hosts s)) as n eqn:Hn. revert s Hn Hwf Hs.
  induction n as [|n IH]; intros s Hn Hwf Hs; destruct (hosts s) as [|h hs _] eqn:Hhs using rev_ind.
  - exists s. simpl. unfold onchain_last. by rewrite Hhs.
  - rewrite length_app in Hn. simpl in Hn. lia.
  - done.
  - rewrite length_app in Hn. simpl in Hn. cbn [revert_onchain_loop]. unfold onchain_last.
    rewrite Hhs, last_snoc.
    apply StronglySorted_app_1_l in Hs as Hs'.
    destruct (opt_le (Some b) (creation_block_number h)) eqn:Hle.
    + destruct (onchain_pop_wf (E := E) h hs s Hwf Hhs) as (s1 & Hpop & Hwf1 & Hhs1).
      destruct (IH s1) as (s' & Hrun & Hwf' & Hhs'); [rewrite Hhs1; lia|done|by rewrite Hhs1|].
      exists s'. unfold mbind, st_bind. rewrite Hpop.
      split; [done|split; [done|]].
      rewrite Hhs', Hhs1, filter_app, filter_cons, filter_nil, decide_False, app_nil_r; [done|].
      unfold created_before. by rewrite Hle.
    + exists s. split; [done|split; [done|]]. rewrite Hhs. symmetry. apply filter_all. intros h' Hh'.
      unfold created_before. apply negb_true_iff, not_true_is_false. intros Hb. apply elem_of_app in Hh' as [Hh'|Hh'].
      * assert (creation_le h' h) as Hc by (eapply StronglySorted_app_1_elem_of; [exact Hs|done|set_solver]).
        unfold creation_le in Hc. pose proof (opt_le_trans _ _ _ Hb Hc). congruence.
      * apply list_elem_of_singleton in Hh' as ->. congruence.
Qed.

End OnchainFacts.

(** ** Offchain hosts *)

Section OffchainFacts.
Context `{BlockchainSpec} `{DeclaredCalls}.
Implicit Types (h : Host) (hs : list Host) (s : OffchainHosts) (m : list (option BlockNumber * list Host)).

Definition with_address (a : option (list Z)) hs : list Host := filter (λ h, at_address a h = true) hs.
Definition is_offchain_host h : Prop := is_Some (as_offchain (host_ds h)).
Definition entries m : list Host := concat m.*2.

(** The entries of a map by block are in the order of their keys, and each
    host is where its creation block says *)
Definition blocks_wf m : Prop :=
  StronglySorted (λ e e', opt_le e'.1 e.1 = false) m ∧ Forall (λ e, Forall (λ h, creation_block_number h = e.1) e.2) m.

(** The indexes by address hold the hosts [all] *)
Definition indexed_as (all : list Host) (by_address : gmap (list Z) (list Host)) (wildcard : list Host) : Prop :=
  (∀ a, default [] (by_address !! a) ≡ₚ with_address (Some a) all) ∧ wildcard ≡ₚ with_address None all.

Definition offchain_wf s : Prop :=
  blocks_wf (by_block s) ∧ indexed_as (offchain_all s) (by_address s) (wildcard_address s) ∧
  NoDup (host_id <$> offchain_all s) ∧ Forall is_offchain_host (offchain_all s).

Lemma offchain_new_wf : offchain_wf offchain_new.
Proof.
  split; [split; constructor|]. split; [split; [intros a; simpl; by rewrite lookup_empty|done]|].
  split; constructor.
Qed.

Lemma with_address_app a l k : with_address a (l ++ k) = with_address a l ++ with_address a k.
Proof. apply filter_app. Qed.

Lemma with_address_cons a h l :
  with_address a (h :: l) = (if at_address a h then [h] else []) ++ with_address a l.
Proof. unfold with_address. rewrite filter_cons. by destruct (at_address a h). Qed.

#[local] Instance with_address_perm a : Proper ((≡ₚ) ==> (≡ₚ)) (with_address a).
Proof. intros l k Hlk. unfold with_address. by rewrite Hlk. Qed.

Lemma opt_le_total a b : opt_le a b = false → opt_le b a = true.
Proof. destruct a, b; simpl; lia || done. Qed.

Lemma opt_le_antisym a b : opt_le a b = true → opt_le b a = true → a = b.
Proof. destruct a, b; simpl; try done. intros. f_equal. lia. Qed.

Lemma push_entry_perm b h m : entries (push_entry b h m) ≡ₚ h :: entries m.
Proof.
  unfold entries. induction m as [|[b' hs] m IH]; [done|]. simpl. repeat case_match; simpl.
  - rewrite <- app_assoc. simpl. by rewrite <- Permutation_middle.
  - done.
  - rewrite IH. by rewrite <- Permutation_middle.
Qed.

Lemma push_entry_keys b h m e : e ∈ push_entry b h m → e.1 = b ∨ ∃ e', e' ∈ m ∧ e'.1 = e.1.
Proof.
  induction m as [|[b' hs] m IH]; simpl; [set_solver|]. repeat case_match; set_solver.
Qed.

Lemma push_entry_wf h m : blocks_wf m → blocks_wf (push_entry (creation_block_number h) h m).
Proof.
  intros [Hs Hc]. set (b := creation_block_number h). split.
  - clear Hc. induction m as [|[b' hs] m IH]; simpl; [repeat constructor|].
    apply StronglySorted_cons in Hs as [Hb Hs]. rewrite Forall_forall in Hb.
    destruct (bool_decide (b' = b)) eqn:Heq; [constructor; [done|by apply Forall_forall]|].
    apply bool_decide_eq_false in Heq. destruct (opt_le b b') eqn:Hle.
    + assert (opt_le b' b = false) as Hlt.
      { apply not_true_is_false. intros Hle'. by pose proof (opt_le_antisym _ _ Hle' Hle). }
      constructor; [by constructor; [|apply Forall_forall]|]. constructor; [done|].
      apply Forall_forall. intros e He%Hb. apply not_true_is_false. intros Hle'.
      pose proof (opt_le_trans _ _ _ Hle' Hle) as Ht. cbn [fst] in *. congruence.
    + constructor; [auto|]. apply Forall_forall. intros e [->|(e' & He' & <-)]%push_entry_keys; [done|by apply Hb].
  - clear Hs. induction Hc as [|[b' hs] m Hhs Hm IH]; simpl; [repeat constructor|].
    case_bool_decide as Heq; [subst b'; constructor; [apply Forall_app; auto|done]|].
    case_match; repeat (constructor; try done).
Qed.

Lemma indexed_push h all idx wild : indexed_as all idx wild →
  match host_address h with
  | Some a => indexed_as (h :: all) (<[a := default [] (idx !! a) ++ [h]]> idx) wild
  | None => indexed_as (h :: all) idx (wild ++ [h])
  end.
Proof.
  intros [Hidx Hwild]. destruct (host_address h) as [a|] eqn:Ha; split.
  - intros a'. rewrite with_address_cons. unfold at_address. rewrite Ha.
    destruct (decide (a' = a)) as [->|Hne].
    + rewrite lookup_insert_eq, bool_decide_eq_true_2 by done. cbn. by rewrite Hidx, Permutation_app_comm.
    + rewrite lookup_insert_ne, bool_decide_eq_false_2 by congruence. apply Hidx.
  - rewrite with_address_cons. unfold at_address. by rewrite Ha, bool_decide_eq_false_2.
  - intros a. rewrite with_address_cons. unfold at_address. by rewrite Ha, bool_decide_eq_false_2.
  - rewrite with_address_cons. unfold at_address. rewrite Ha, bool_decide_eq_true_2 by done.
    by rewrite Hwild, Permutation_app_comm.
Qed.

Lemma indexed_perm all all' idx wild : all ≡ₚ all' → indexed_as all idx wild → indexed_as all' idx wild.
Proof. intros Hp [Hidx Hwild]. split; [intros a; by rewrite Hidx, Hp|by rewrite Hwild, Hp]. Qed.

Lemma offchain_push_wf {E} h s : offchain_wf s → is_offchain_host h → host_id h ∉ host_id <$> offchain_all s →
  ∃ s', offchain_push (E := E) h s = (s', Ok tt) ∧ offchain_wf s' ∧ offchain_all s' ≡ₚ h :: offchain_all s.
Proof.
  intros (Hb & Hi & Hnd & Hoff) Hh Hid. unfold offchain_push. pose proof Hh as [ds Hds]. rewrite Hds.
  pose proof (push_entry_perm (creation_block_number h) h (by_block s)) as Hp.
  pose proof (push_entry_wf h _ Hb) as Hb'.
  pose proof (indexed_push h _ _ _ Hi) as Hi'.
  destruct (host_address h) as [a|]; eexists; (split; [done|]); (split; [|exact Hp]);
    (split; [done|]); (split; [by eapply indexed_perm; [symmetry; exact Hp|]|]); unfold offchain_all; simpl;
    fold (entries (push_entry (creation_block_number h) h (by_block s))); rewrite Hp; simpl;
    (split; [by constructor|]); by constructor.
Qed.

Lemma without_host_perm a h l rest : l ≡ₚ with_address a (h :: rest) → NoDup (host_id <$> h :: rest) →
  without_host h l ≡ₚ with_address a rest.
Proof.
  intros Hl Hnd. apply NoDup_cons in Hnd as [Hh _]. unfold without_host. rewrite Hl, with_address_cons, filter_app.
  rewrite filter_none by (intros x; destruct (at_address a h); set_solver). simpl.
  rewrite filter_all; [done|]. intros x [_ Hx]%list_elem_of_filter Heq. apply Hh. rewrite <- Heq. set_solver.
Qed.

Lemma remove_host_indexed {E} h rest s : indexed_as (h :: rest) (by_address s) (wildcard_address s) →
  NoDup (host_id <$> h :: rest) →
  ∃ idx wild, remove_host (E := E) h s = (mkOffchainHosts (by_block s) idx wild, Ok tt) ∧ indexed_as rest idx wild.
Proof.
  intros [Hidx Hwild] Hnd. unfold remove_host. destruct (host_address h) as [a|] eqn:Ha.
  - pose proof (Hidx a) as Hat. destruct (by_address s !! a) as [hs|] eqn:Hlk; simpl in Hat.
    + do 2 eexists. split; [done|]. split.
      * intros a'. destruct (decide (a' = a)) as [->|Hne].
        -- rewrite lookup_insert_eq. simpl. by apply without_host_perm.
        -- rewrite lookup_insert_ne by done. rewrite Hidx, with_address_cons. unfold at_address at 1.
           by rewrite Ha, bool_decide_eq_false_2 by congruence.
      * rewrite Hwild, with_address_cons. unfold at_address at 1. by rewrite Ha, bool_decide_eq_false_2.
    + rewrite with_address_cons in Hat. unfold at_address in Hat at 1. rewrite Ha, bool_decide_eq_true_2 in Hat by done.
      by apply Permutation_nil_l in Hat.
  - do 2 eexists. split; [done|]. split.
    + intros a. rewrite Hidx, with_address_cons. unfold at_address at 1. by rewrite Ha, bool_decide_eq_false_2.
    + by apply without_host_perm.
Qed.

Lemma remove_hosts_indexed {E} rem kept s : indexed_as (rem ++ kept) (by_address s) (wildcard_address s) →
  NoDup (host_id <$> rem ++ kept) →
  ∃ idx wild, st_for (E := E) remove_host rem s = (mkOffchainHosts (by_block s) idx wild, Ok tt) ∧ indexed_as kept idx wild.
Proof.
  revert s. induction rem as [|h rem IH]; intros s Hi Hnd.
  - exists (by_address s), (wildcard_address s). split; [by destruct s|done].
  - destruct (remove_host_indexed (E := E) h (rem ++ kept) s Hi Hnd) as (idx & wild & Hr & Hi').
    apply NoDup_cons in Hnd as [_ Hnd].
    destruct (IH (mkOffchainHosts (by_block s) idx wild) Hi' Hnd) as (idx' & wild' & Hrs & Hi'').
    exists idx', wild'. split; [|done]. simpl. unfold mbind, st_bind. by rewrite Hr.
Qed.

Lemma entries_filter b m : Forall (λ e, Forall (λ h, creation_block_number h = e.1) e.2) m →
  entries (filter (λ e, opt_le (Some b) e.1 = false) m) = filter (λ h, created_before b h = true) (entries m).
Proof.
  unfold entries. induction 1 as [|[b' hs] m Hhs _ IH]; [done|]. rewrite filter_cons. cbn [fmap list_fmap concat snd].
  rewrite filter_app, <- IH. rewrite Forall_forall in Hhs. cbn [fst] in *. case_decide as Hb; cbn [fmap list_fmap concat snd].
  - rewrite (filter_all _ hs); [done|]. intros h Hh. unfold created_before. by rewrite (Hhs h Hh), Hb.
  - rewrite (filter_none _ hs); [done|]. intros h Hh. unfold created_before. rewrite (Hhs h Hh).
    by apply not_false_is_true in Hb as ->.
Qed.

Lemma entries_split (P : option BlockNumber * list Host → Prop) `{!∀ e, Decision (P e)} m :
  entries m ≡ₚ entries (filter P m) ++ entries (filter (λ e, ¬ P e) m).
Proof.
  unfold entries. induction m as [|e m IH]; [done|]. rewrite !filter_cons. simpl.
  destruct (decide (P e)), (decide (¬ P e)); try done; simpl; rewrite IH, ?app_assoc; [done|].
  by rewrite (Permutation_app_comm e.2), <- !app_assoc.
Qed.

Lemma remove_ge_block_spec {E} b s : offchain_wf s →
  ∃ s', remove_ge_block (E := E) b s = (s', Ok tt) ∧ offchain_wf s' ∧
    offchain_all s' = filter (λ h, created_before b h = true) (offchain_all s).
Proof.
  intros ([Hs Hc] & Hi & Hnd & Hoff). unfold remove_ge_block.
  set (removed := filter (λ e, opt_le (Some b) e.1) (by_block s)).
  set (kept := filter (λ e, opt_le (Some b) e.1 = false) (by_block s)).
  assert (offchain_all s ≡ₚ entries removed ++ entries kept) as Hp.
  { unfold offchain_all. fold (entries (by_block s)). rewrite (entries_split (λ e, opt_le (Some b) e.1)).
    replace (filter (λ e, ¬ opt_le (Some b) e.1) (by_block s)) with kept; [done|].
    apply filter_ext_in. intros e _. destruct (opt_le (Some b) e.1); simpl; naive_solver. }
  pose proof (entries_filter b (by_block s) Hc) as Hkept.
  destruct (remove_hosts_indexed (E := E) (entries removed) (entries kept)
    (mkOffchainHosts kept (by_address s) (wildcard_address s))) as (idx & wild & Hrun & Hi').
  { by eapply indexed_perm. }
  { by rewrite <- Hp. }
  exists (mkOffchainHosts kept idx wild).
  assert (offchain_all (mkOffchainHosts kept idx wild) = filter (λ h, created_before b h = true) (offchain_all s))
    as Hall by exact Hkept.
  split; [exact Hrun|]. split; [|done].
  split; [split; [by apply StronglySorted_filter|by apply Forall_filter_l]|]. split; [exact Hi'|].
  rewrite Hall. split; [by apply NoDup_fmap_filter|by apply Forall_filter_l].
Qed.

Lemma existsb_perm {A} (f : A → bool) l k : l ≡ₚ k → existsb f l = existsb f k.
Proof. induction 1; simpl; try congruence. by destruct (f x), (f y). Qed.

Lemma existsb_filter_in {A} (p f : A → bool) l : (∀ x, f x = true → p x = true) →
  existsb f (filter (λ x, p x = true) l) = existsb f l.
Proof.
  intros Hpf. induction l as [|x l IH]; [done|]. rewrite filter_cons. simpl.
  case_decide as Hp; simpl; rewrite IH; [done|]. destruct (f x) eqn:Hf; [|done]. by apply Hpf in Hf.
Qed.

Lemma offchain_contains_spec h s : offchain_wf s →
  offchain_contains h s = existsb (λ h', host_eq h' h) (offchain_all s).
Proof.
  intros (_ & [Hidx Hwild] & _). unfold offchain_contains.
  trans (existsb (λ h', host_eq h' h) (with_address (host_address h) (offchain_all s))).
  - destruct (host_address h) as [a|]; by apply existsb_perm.
  - apply existsb_filter_in. intros h' Hdup. apply bool_decide_eq_true_2. by apply is_duplicate_of_address.
Qed.

Lemma offchain_matches_spec a s : offchain_wf s →
  offchain_matches_by_address (Some a) s ≡ₚ filter (λ h, matches_address a h = true) (offchain_all s).
Proof.
  intros (_ & [Hidx Hwild] & _). simpl. rewrite Hidx, Hwild. unfold with_address, matches_address.
  clear Hidx Hwild. induction (offchain_all s) as [|h hs IH]; [done|]. rewrite !filter_cons.
  assert (at_address (Some a) h = true → at_address None h = false) as Hx.
  { unfold at_address. rewrite bool_decide_eq_true, bool_decide_eq_false. by intros ->. }
  destruct (at_address (Some a) h) eqn:Ha.
  - rewrite Hx by done. simpl.
    by rewrite IH.
  - destruct (at_address None h) eqn:Hn; simpl; [|done]. by rewrite <- Permutation_middle, IH.
Qed.

End OffchainFacts.
