(* ===== verification/InstanceRuns.v ===== *)
(** * Sequences of operations on the hosts of a subgraph

    A registry of hosts without indexes says what a [SubgraphInstance] does:
    hosts are listed in the order in which they were added, adding one looks
    through all hosts of its kind, and a revert keeps the ones that were
    created before the block.  [instance_refines] shows that the instance with
    its indexes does the same in every sequence of operations, and
    [hosts_for_trigger_complete] that decoding a trigger for the hosts that
    the indexes give is decoding it for all hosts.  The decoder is
    [match_and_decode_inner] of [core/src/subgraph/trigger_processor.rs]. *)

From Stdlib Require Import ZArith Lia ZifyBool.
From stdpp Require Import base gmap list sorting strings.
From S2P Require Import Prelude Values Write DataSource Instance InstanceFacts.

Local Open Scope Z_scope.

(** Spawning and building hosts fails with errors, not with panics *)
Class RuntimeHostBuilderSpec `{Blockchain} `{DeclaredCalls} `{!RuntimeHostBuilder} := {
  spawn_no_panic : ∀ bytes, spawn_mapping bytes ≠ Panic;
  build_no_panic : ∀ ds sender, build_host ds sender ≠ Panic;
}.

Section Registry.
Context `{Blockchain} `{DeclaredCalls} `{!RuntimeHostBuilder} `{InstanceEnv} `{AR : Arithmetic}.

Record Registry := mkRegistry {
  reg_onchain : list Host;
  reg_subgraph : list Host;
  reg_offchain : list Host;
  reg_seq : CausalityRegion;
  reg_done : Atomics;
}.

Definition registry_new (seq : CausalityRegion) (m : Atomics) : Registry := mkRegistry [] [] [] seq m.

Definition add_to (h : Host) (hs : list Host) : list Host * outcome string (option Host) :=
  if existsb (λ h', host_eq h' h) hs then (hs, Ok None) else (hs ++ [h], Ok (Some h)).

Definition registry_add (h : Host) (r : Registry) : Registry * outcome string (option Host) :=
  match host_ds h with
  | DsOnchain _ =>
      if forallb (λ h', opt_le (creation_block_number h') (creation_block_number h)) (reg_onchain r) then
        let '(hs, a) := add_to h (reg_onchain r) in
        (mkRegistry hs (reg_subgraph r) (reg_offchain r) (reg_seq r) (reg_done r), a)
      else (r, Err "Condition failed: creation blocks are ordered")
  | DsOffchain _ =>
      let '(hs, a) := add_to h (reg_offchain r) in
      (mkRegistry (reg_onchain r) (reg_subgraph r) hs (reg_seq r) (reg_done r), a)
  | DsSubgraph _ =>
      let '(hs, a) := add_to h (reg_subgraph r) in
      (mkRegistry (reg_onchain r) hs (reg_offchain r) (reg_seq r) (reg_done r), a)
  | DsAmp _ => (r, Panic)
  end.

(** The hosts that were done at a block or later *)
Definition done_since (b : BlockNumber) (m : Atomics) (h : Host) : option OffchainDataSource :=
  match host_ds h, host_done_at h m with
  | DsOffchain ds, Some at_ => if b <=? at_ then Some ds else None
  | _, _ => None
  end.

(** Their atomics are reset, the others stay as they are *)
Definition unmarked (b : BlockNumber) (hs : list Host) (m m' : Atomics) : Prop :=
  ∀ c, load c m' = if bool_decide (c ∈ off_done_at <$> omap (done_since b m) hs) then NOT_DONE_VALUE else load c m.

Inductive InstanceOp :=
| OpAdd (ds : DataSource)
| OpRevert (b : BlockNumber)
| OpNextRegion
| OpMark (ds : OffchainDataSource) (b : BlockNumber).

Inductive InstanceAnswer :=
| Added (r : outcome string (option Host))
| Reverted (r : outcome string (list Source))
| Region (r : outcome string CausalityRegion)
| Marked (r : outcome string unit).

Definition unbuildable (ds : DataSource) (e : string) : Prop :=
  ∃ bytes, ds_runtime ds = Some bytes ∧ (spawn_mapping bytes = Err e ∨ ∃ sender, build_host ds sender = Err e).

Definition has_room (r : Registry) : Prop :=
  (length (reg_onchain r) + length (reg_offchain r) < subgraph_max_data_sources)%nat.

Inductive registry_step : InstanceOp → InstanceAnswer → Registry → Registry → Prop :=
| reg_full ds r : ¬ has_room r →
    registry_step (OpAdd ds) (Added (Err "Limit of data sources per subgraph exceeded")) r r
| reg_no_host ds r : has_room r → ds_runtime ds = None → registry_step (OpAdd ds) (Added (Ok None)) r r
| reg_unbuildable ds e r : has_room r → unbuildable ds e → registry_step (OpAdd ds) (Added (Err e)) r r
| reg_add ds h r r' a : has_room r → is_Some (ds_runtime ds) → host_ds h = ds →
    (∀ h', h' ∈ reg_onchain r ++ reg_subgraph r ++ reg_offchain r → host_id h' ≠ host_id h) →
    registry_add h r = (r', a) → registry_step (OpAdd ds) (Added a) r r'
| reg_revert b r m' sources :
    let kept := filter (λ h, created_before b h = true) (reg_offchain r) in
    sources ≡ₚ off_source <$> omap (done_since b (reg_done r)) kept →
    unmarked b kept (reg_done r) m' →
    registry_step (OpRevert b) (Reverted (Ok sources)) r
      (mkRegistry (filter (λ h, created_before b h = true) (reg_onchain r)) (reg_subgraph r) kept (reg_seq r) m')
| reg_next r :
    let next := wrap_signed 32 (reg_seq r + 1) in
    registry_step OpNextRegion (Region (Ok next)) r
      (mkRegistry (reg_onchain r) (reg_subgraph r) (reg_offchain r) next (reg_done r))
| reg_mark ds b r :
    registry_step (OpMark ds b) (Marked (Ok tt)) r
      (mkRegistry (reg_onchain r) (reg_subgraph r) (reg_offchain r) (reg_seq r) (store (off_done_at ds) b (reg_done r))).

(** What callers keep to: offchain data sources get their region from the
    sequence and an atomic of their own, which clones share, the sequence of
    regions does not overflow in a build that checks this, and blocks are not
    the value that stands for not done. *)
Definition op_fits (op : InstanceOp) (r : Registry) : Prop :=
  match op with
  | OpAdd (DsOffchain ds) =>
      reg_seq r ≠ ONCHAIN ∧
      ∀ h ds', h ∈ reg_offchain r → host_ds h = DsOffchain ds' → off_done_at ds' = off_done_at ds →
        offchain_is_duplicate_of ds' ds = true
  | OpNextRegion => 0 ≤ reg_seq r < 2 ^ 31 ∧ (overflow_checks = true → reg_seq r < 2 ^ 31 - 1)
  | OpMark _ b => b ≠ NOT_DONE_VALUE
  | _ => True
  end.

Inductive registry_run : list (InstanceOp * InstanceAnswer) → Registry → Registry → Prop :=
| registry_run_nil r : registry_run [] r r
| registry_run_cons op a run r r' r'' :
    registry_step op a r r' → registry_run run r' r'' → registry_run ((op, a) :: run) r r''.

(** The operations of an instance *)
Definition mark_in_instance (ds : OffchainDataSource) (b : BlockNumber) : st SubgraphInstance string unit :=
  on_field atomics set_atomics (mark_processed_at ds b).

Definition instance_step (op : InstanceOp) (self : SubgraphInstance) : SubgraphInstance * InstanceAnswer :=
  match op with
  | OpAdd ds => let '(self, a) := add_dynamic_data_source ds self in (self, Added a)
  | OpRevert b => let '(self, a) := revert_data_sources b self in (self, Reverted a)
  | OpNextRegion => let '(self, a) := causality_region_next_value self in (self, Region a)
  | OpMark ds b => let '(self, a) := mark_in_instance ds b self in (self, Marked a)
  end.

Fixpoint instance_run (ops : list InstanceOp) (self : SubgraphInstance) : SubgraphInstance * list InstanceAnswer :=
  match ops with
  | [] => (self, [])
  | op :: ops =>
      let '(self, a) := instance_step op self in
      let '(self, answers) := instance_run ops self in
      (self, a :: answers)
  end.

End Registry.

Section Refinement.
Context `{BlockchainSpec} `{DeclaredCalls} `{!RuntimeHostBuilder} `{!RuntimeHostBuilderSpec} `{InstanceEnv} `{AR : Arithmetic}.
Implicit Types (h : Host) (inst : SubgraphInstance) (r : Registry).

Definition cell_of h : option nat := off_done_at <$> as_offchain (host_ds h).

(** The instance holds the hosts of the registry *)
Record represents inst r : Prop := {
  rep_onchain : onchain_wf (onchain_hosts inst);
  rep_onchain_hosts : hosts (onchain_hosts inst) = reg_onchain r;
  rep_onchain_kind : Forall (λ h, is_Some (as_onchain (host_ds h))) (reg_onchain r);
  rep_sorted : StronglySorted creation_le (reg_onchain r);
  rep_subgraph : onchain_wf (subgraph_hosts inst);
  rep_subgraph_hosts : hosts (subgraph_hosts inst) = reg_subgraph r;
  rep_subgraph_kind : Forall (λ h, is_Some (as_subgraph (host_ds h))) (reg_subgraph r);
  rep_offchain : offchain_wf (offchain_hosts inst);
  rep_offchain_hosts : offchain_all (offchain_hosts inst) ≡ₚ reg_offchain r;
  rep_seq : causality_region_seq inst = reg_seq r;
  rep_done : atomics inst = reg_done r;
  rep_ids : Forall (λ h, (host_id h < next_host inst)%nat) (reg_onchain r ++ reg_subgraph r ++ reg_offchain r);
  rep_regions : reg_seq r = ONCHAIN → reg_offchain r = [];
  rep_cells : NoDup (omap cell_of (reg_offchain r));
}.

Lemma represents_new dss seq m : represents (instance_new dss seq m) (registry_new seq m).
Proof. constructor; simpl; eauto using onchain_new_wf, offchain_new_wf; by constructor. Qed.

(** ** Making a host *)

Definition with_modules ms n inst : SubgraphInstance :=
  mkInstance (static_data_sources inst) (onchain_hosts inst) (subgraph_hosts inst) (offchain_hosts inst) ms
    (causality_region_seq inst) n (atomics inst).

Lemma represents_modules ms n inst r : represents inst r → (next_host inst ≤ n)%nat → represents (with_modules ms n inst) r.
Proof.
  intros [] Hn. constructor; try done. eapply Forall_impl; [exact rep_ids0|]. simpl. intros h Hh. lia.
Qed.

Inductive new_host_result ds inst : SubgraphInstance → outcome string (option Host) → Prop :=
| no_host : ds_runtime ds = None → new_host_result ds inst inst (Ok None)
| host_failed ms e : unbuildable ds e → new_host_result ds inst (with_modules ms (next_host inst) inst) (Err e)
| host_made ms : is_Some (ds_runtime ds) →
    new_host_result ds inst (with_modules ms (S (next_host inst)) inst) (Ok (Some (mkHost (next_host inst) ds))).

Lemma new_host_spec ds inst : new_host_result ds inst (new_host ds inst).1 (new_host ds inst).2.
Proof.
  unfold new_host. destruct (ds_runtime ds) as [bytes|] eqn:Hrt; [|by constructor].
  assert (with_modules (module_cache inst) (next_host inst) inst = inst) as Hid by (by destruct inst).
  st_run. unfold mapping_request_sender.
  destruct (module_cache inst !! module_hash bytes) as [sender|]; [|destruct (spawn_mapping bytes) as [sender|e|] eqn:Hsp].
  1, 2: destruct (build_host ds sender) as [[]|e|] eqn:Hb; [| |by destruct (build_no_panic ds sender)]; simpl.
  - apply (host_made ds inst (module_cache inst)). eauto.
  - rewrite <- Hid at 2. apply host_failed. exists bytes. eauto.
  - apply (host_made ds inst (<[module_hash bytes:=sender]> (module_cache inst))). eauto.
  - apply (host_failed ds inst (<[module_hash bytes:=sender]> (module_cache inst))). exists bytes. eauto.
  - simpl. rewrite <- Hid at 2. apply host_failed. exists bytes. eauto.
  - by destruct (spawn_no_panic bytes).
Qed.

(** ** Adding a host *)

Lemma last_creation hs h : StronglySorted creation_le hs →
  opt_le (last hs ≫= creation_block_number) (creation_block_number h) =
  forallb (λ h', opt_le (creation_block_number h') (creation_block_number h)) hs.
Proof.
  intros Hs. destruct hs as [|l hs _] using rev_ind; [done|].
  rewrite last_snoc, forallb_app. simpl. rewrite andb_true_r.
  destruct (opt_le (creation_block_number l) (creation_block_number h)) eqn:Hle; [|by rewrite andb_false_r].
  rewrite andb_true_r. symmetry. apply forallb_forall. intros h' Hh'%list_elem_of_In.
  eapply opt_le_trans; [|exact Hle]. by eapply (StronglySorted_app_1_elem_of creation_le hs [l]); [|..]; set_solver.
Qed.

Lemma push_unless_onchain h s : onchain_wf s → is_chain_based (host_ds h) = true →
  ∃ s', push_unless onchain_contains onchain_push h s = (s', (add_to h (hosts s)).2) ∧
    onchain_wf s' ∧ hosts s' = (add_to h (hosts s)).1.
Proof.
  intros Hwf Hh. unfold push_unless, add_to. st_run. rewrite onchain_contains_spec by done.
  destruct (existsb _ (hosts s)); [by exists s|].
  destruct (onchain_push_wf (E := string) h s Hwf Hh) as (s' & Hp & Hwf' & Hhs). rewrite Hp. by exists s'.
Qed.

Lemma push_unless_offchain h s hs : offchain_wf s → is_offchain_host h → host_id h ∉ host_id <$> offchain_all s →
  offchain_all s ≡ₚ hs →
  ∃ s', push_unless (λ h hs, Ok (offchain_contains h hs)) offchain_push h s = (s', (add_to h hs).2) ∧
    offchain_wf s' ∧ offchain_all s' ≡ₚ (add_to h hs).1.
Proof.
  intros Hwf Hh Hid Hp. unfold push_unless, add_to. st_run. rewrite offchain_contains_spec by done.
  rewrite (existsb_perm _ _ _ Hp). destruct (existsb _ hs); [by exists s|].
  destruct (offchain_push_wf (E := string) h s Hwf Hh Hid) as (s' & Hs' & Hwf' & Hall). rewrite Hs'.
  exists s'. split; [done|]. split; [done|]. rewrite Hall, Hp. simpl. apply Permutation_cons_append.
Qed.

Lemma add_to_sub h hs h' : h' ∈ (add_to h hs).1 → h' ∈ hs ∨ h' = h.
Proof. unfold add_to. destruct (existsb _ hs); set_solver. Qed.

Lemma add_to_Forall (P : Host → Prop) h hs : Forall P hs → P h → Forall P (add_to h hs).1.
Proof. rewrite !Forall_forall. intros Hhs Hh h' [?| ->]%add_to_sub; auto. Qed.

Lemma add_to_sorted h hs : StronglySorted creation_le hs →
  forallb (λ h', opt_le (creation_block_number h') (creation_block_number h)) hs = true →
  StronglySorted creation_le (add_to h hs).1.
Proof.
  intros Hs Hle. unfold add_to. destruct (existsb _ hs); [done|]. simpl. apply StronglySorted_app_2; [|done|].
  - intros h1 h2 Hin%list_elem_of_In ->%list_elem_of_singleton. rewrite forallb_forall in Hle. by apply Hle.
  - by repeat constructor.
Qed.

Lemma offchain_len_all s : offchain_len s = length (offchain_all s).
Proof.
  unfold offchain_len, offchain_all. induction (by_block s) as [|e m IH]; [done|].
  cbn. rewrite length_app. f_equal. exact IH.
Qed.

Lemma hosts_len_room inst r : represents inst r →
  (subgraph_max_data_sources <=? hosts_len inst)%nat = false ↔ has_room r.
Proof.
  intros Hrep. unfold hosts_len, onchain_len, has_room. rewrite offchain_len_all, (rep_offchain_hosts _ _ Hrep),
    (rep_onchain_hosts _ _ Hrep), Nat.leb_gt. done.
Qed.

(** The hosts of a registry after a host [n] was added have smaller ids than
    [S n] *)
Lemma ids_add n h (l k : list Host) : Forall (λ h', (host_id h' < n)%nat) l → host_id h = n →
  (∀ h', h' ∈ k → h' ∈ l ∨ h' = h) → Forall (λ h', (host_id h' < S n)%nat) k.
Proof.
  rewrite !Forall_forall. intros Hl Hh Hk h' [Hin| ->]%Hk; [|lia]. specialize (Hl h' Hin). lia.
Qed.

Lemma add_to_cells h ds hs : host_ds h = DsOffchain ds →
  (∀ h' ds', h' ∈ hs → host_ds h' = DsOffchain ds' → off_done_at ds' = off_done_at ds → offchain_is_duplicate_of ds' ds = true) →
  NoDup (omap cell_of hs) → NoDup (omap cell_of (add_to h hs).1).
Proof.
  intros Hh Hfit Hnd. unfold add_to. destruct (existsb _ hs) eqn:Hdup; [done|]. simpl.
  rewrite omap_app. cbn. unfold cell_of at 2. rewrite Hh. cbn. apply NoDup_app. split; [done|].
  split; [|apply NoDup_singleton].
  intros c (h' & Hin & Hc)%list_elem_of_omap ->%list_elem_of_singleton.
  unfold cell_of in Hc. destruct (host_ds h') as [|ds'| |] eqn:Hds; try done. simplify_eq/=.
  apply not_true_iff_false in Hdup. apply Hdup, existsb_exists. exists h'. split; [by apply list_elem_of_In|].
  unfold host_eq. rewrite Hds, Hh. simpl. by eapply Hfit.
Qed.

Lemma add_host_refines ms h inst r : represents inst r → op_fits (OpAdd (host_ds h)) r →
  is_Some (ds_runtime (host_ds h)) → host_id h = next_host inst →
  ∃ inst', register_host h (with_modules ms (S (next_host inst)) inst) = (inst', (registry_add h r).2) ∧
    represents inst' (registry_add h r).1.
Proof.
  intros Hrep Hfit Hrt Hid. pose proof (represents_modules ms (S (next_host inst)) _ _ Hrep) as Hrep1.
  destruct Hrep as [Hon Hons Honk Hsort Hsub Hsubs Hsubk Hoff Hoffs Hseq Hdone Hids Hreg Hcells].
  unfold registry_add, register_host. destruct (host_ds h) as [ds|ds|ds|ds] eqn:Hds; cbn [op_fits] in Hfit.
  - st_run. unfold onchain_last. cbn [with_modules onchain_hosts]. rewrite Hons, last_creation by done.
    destruct (forallb _ (reg_onchain r)) eqn:Hord; [|eexists; split; [done|apply Hrep1; lia]].
    unfold on_field. cbn [with_modules onchain_hosts].
    destruct (push_unless_onchain h (onchain_hosts inst)) as (s' & Hrun & Hwf & Hhs); [done|by rewrite Hds|].
    rewrite Hrun, Hons in *. rewrite (surjective_pairing (add_to h (reg_onchain r))). eexists. split; [done|].
    constructor; try done; simpl.
    + apply add_to_Forall; [done|]. rewrite Hds. eauto.
    + by apply add_to_sorted.
    + eapply ids_add; [exact Hids|done|]. intros h' Hh'. rewrite !elem_of_app in *.
      destruct Hh' as [[?| ->]%add_to_sub|]; tauto.
  - unfold on_field. cbn [with_modules offchain_hosts]. destruct Hfit as [Hne Hfit].
    destruct (push_unless_offchain h (offchain_hosts inst) (reg_offchain r)) as (s' & Hrun & Hwf & Hhs); [done|..|done|].
    { unfold is_offchain_host. rewrite Hds. eauto. }
    { rewrite Hoffs. intros (h' & Heq & Hin)%list_elem_of_fmap. rewrite Forall_forall in Hids.
      assert (host_id h' < next_host inst)%nat by (apply Hids; rewrite !elem_of_app; auto). lia. }
    rewrite Hrun. rewrite (surjective_pairing (add_to h (reg_offchain r))). eexists. split; [done|].
    constructor; try done; simpl.
    + eapply ids_add; [exact Hids|done|]. intros h' Hh'. rewrite !elem_of_app in *.
      destruct Hh' as [|[|[?| ->]%add_to_sub]]; tauto.
    + by apply add_to_cells with ds.
  - unfold on_field. cbn [with_modules subgraph_hosts].
    destruct (push_unless_onchain h (subgraph_hosts inst)) as (s' & Hrun & Hwf & Hhs); [done|by rewrite Hds|].
    rewrite Hrun, Hsubs in *. rewrite (surjective_pairing (add_to h (reg_subgraph r))). eexists. split; [done|].
    constructor; try done; simpl.
    + apply add_to_Forall; [done|]. rewrite Hds. eauto.
    + eapply ids_add; [exact Hids|done|]. intros h' Hh'. rewrite !elem_of_app in *.
      destruct Hh' as [|[[?| ->]%add_to_sub|]]; tauto.
  - by destruct Hrt.
Qed.

Lemma add_refines ds inst r : represents inst r → op_fits (OpAdd ds) r →
  ∃ r', registry_step (OpAdd ds) (Added (add_dynamic_data_source ds inst).2) r r' ∧
    represents (add_dynamic_data_source ds inst).1 r'.
Proof.
  intros Hrep Hfit. unfold add_dynamic_data_source.
  destruct (subgraph_max_data_sources <=? hosts_len inst)%nat eqn:Hlen.
  { exists r. split; [|done]. apply reg_full. rewrite <- (hosts_len_room inst r) by done. by rewrite Hlen. }
  apply (hosts_len_room inst r Hrep) in Hlen. st_run.
  pose proof (new_host_spec ds inst) as Hnew. destruct (new_host ds inst) as [inst1 a]. simpl in Hnew.
  destruct Hnew as [Hrt|ms e Hun|ms Hrt]; simpl.
  - exists r. split; [by apply reg_no_host|done].
  - exists r. split; [by apply reg_unbuildable|]. by apply represents_modules.
  - set (h := mkHost (next_host inst) ds).
    destruct (add_host_refines ms h inst r) as (inst' & Hrun & Hrep'); try done. rewrite Hrun. simpl.
    exists (registry_add h r).1. split; [|done]. eapply (reg_add _ h); try done; [|apply surjective_pairing].
    intros h' Hh'. pose proof (rep_ids _ _ Hrep) as Hids. rewrite Forall_forall in Hids.
    specialize (Hids h' Hh'). simpl. lia.
Qed.

(** ** Reverting *)

Lemma load_store c c' v m : load c (store c' v m) = if bool_decide (c = c') then v else load c m.
Proof.
  unfold load, store. simpl. case_bool_decide as Hc; [subst; by rewrite lookup_insert_eq|by rewrite lookup_insert_ne].
Qed.

Lemma done_since_load b m m' h : (∀ c, cell_of h = Some c → load c m' = load c m) → done_since b m' h = done_since b m h.
Proof.
  unfold done_since, host_done_at, offchain_done_at, cell_of. destruct (host_ds h) as [|ds| |]; try done.
  simpl. intros Hc. by rewrite (Hc (off_done_at ds)).
Qed.

Lemma done_since_cell b m h ds : done_since b m h = Some ds → host_ds h = DsOffchain ds ∧ cell_of h = Some (off_done_at ds).
Proof. unfold done_since, cell_of. repeat case_match; naive_solver. Qed.

Lemma unmark_done_spec b hs m acc : NoDup (omap cell_of hs) →
  ∃ m', foldl (unmark_step b) (acc, m) hs = (acc ++ (off_source <$> omap (done_since b m) hs), m') ∧ unmarked b hs m m'.
Proof.
  revert acc m. induction hs as [|h hs IH]; intros acc m Hnd; cbn [foldl].
  { exists m. rewrite app_nil_r. split; [done|]. intros c. by rewrite bool_decide_eq_false_2 by (cbn; set_solver). }
  cbn [omap list_omap] in Hnd |- *.
  assert (NoDup (omap cell_of hs)) as Hnd' by (destruct (cell_of h); [by apply NoDup_cons in Hnd as []|done]).
  destruct (done_since b m h) as [ds|] eqn:Hd.
  - destruct (done_since_cell _ _ _ _ Hd) as [Hds Hcell]. rewrite Hcell in Hnd. apply NoDup_cons in Hnd as [Hfresh _].
    set (m1 := store (off_done_at ds) NOT_DONE_VALUE m).
    assert (omap (done_since b m1) hs = omap (done_since b m) hs) as Hsame.
    { apply list_omap_ext, Forall_Forall2_diag, Forall_forall. intros h' Hh'. apply done_since_load. intros c Hc.
      unfold m1. rewrite load_store, bool_decide_eq_false_2; [done|]. intros ->. apply Hfresh.
      apply list_elem_of_omap. eauto. }
    destruct (IH (acc ++ [off_source ds]) m1 Hnd') as (m' & Hrun & Hm'). rewrite Hsame in Hrun. exists m'. split.
    + replace (unmark_step b (acc, m) h) with (acc ++ [off_source ds], m1); [rewrite Hrun, <- app_assoc; done|].
      unfold unmark_step, host_set_done_at. unfold done_since in Hd. rewrite Hds in Hd |- *. cbn [fst snd].
      destruct (host_done_at h m) as [d|]; [|done]. by destruct (b <=? d).
    + intros c. rewrite Hm', Hsame. cbn. rewrite Hd. unfold m1. rewrite load_store. cbn [fmap list_fmap].
      rewrite (bool_decide_ext (c ∈ off_done_at ds :: _) (c = off_done_at ds ∨ c ∈ off_done_at <$> omap (done_since b m) hs))
        by apply elem_of_cons.
      rewrite bool_decide_or. by destruct (bool_decide (c = _)), (bool_decide (c ∈ _)).
  - destruct (IH acc m Hnd') as (m' & Hrun & Hm'). exists m'. split; [|intros c; rewrite Hm'; cbn; by rewrite Hd].
    rewrite <- Hrun. f_equal. unfold unmark_step. unfold done_since in Hd. cbn [fst snd]. repeat case_match; naive_solver.
Qed.

Lemma unmarked_perm b hs hs' m m' : hs ≡ₚ hs' → unmarked b hs m m' → unmarked b hs' m m'.
Proof.
  intros Hp Hm c. rewrite Hm.
  rewrite (bool_decide_ext _ (c ∈ off_done_at <$> omap (done_since b m) hs')); [done|by rewrite Hp].
Qed.

Lemma unmarked_nil b m : unmarked b [] m m.
Proof. intros c. by rewrite bool_decide_eq_false_2 by (cbn; set_solver). Qed.

Lemma NoDup_omap_filter {A B} (f : A → option B) (P : A → Prop) `{!∀ x, Decision (P x)} l :
  NoDup (omap f l) → NoDup (omap f (filter P l)).
Proof.
  induction l as [|x l IH]; [done|]. rewrite filter_cons. cbn. intros Hnd.
  destruct (f x) as [y|] eqn:Hf; [apply NoDup_cons in Hnd as [Hy Hnd]|]; (case_decide; [|auto]); cbn; rewrite Hf; auto.
  apply NoDup_cons. split; [|auto]. intros (z & [_ Hz]%list_elem_of_filter & Hfz)%list_elem_of_omap.
  apply Hy, list_elem_of_omap. eauto.
Qed.

Lemma revert_refines b inst r : represents inst r →
  ∃ r', registry_step (OpRevert b) (Reverted (revert_data_sources b inst).2) r r' ∧
    represents (revert_data_sources b inst).1 r'.
Proof.
  intros [Hon Hons Honk Hsort Hsub Hsubs Hsubk Hoff Hoffs Hseq Hdone Hids Hreg Hcells].
  unfold revert_data_sources, on_field. st_run.
  destruct (revert_onchain_spec (E := string) b (onchain_hosts inst)) as (on' & Hron & Hwf1 & Hhs1); [done|by rewrite Hons|].
  rewrite Hron. cbn [set_onchain offchain_hosts].
  destruct (remove_ge_block_spec (E := string) b (offchain_hosts inst) Hoff) as (off' & Hroff & Hwf2 & Hhs2).
  rewrite Hroff. unfold unmark_hosts. cbn [set_offchain set_onchain causality_region_seq offchain_hosts atomics].
  rewrite Hseq, Hdone.
  set (kept := filter (λ h, created_before b h = true) (reg_offchain r)).
  assert (offchain_all off' ≡ₚ kept) as Hkept by (by rewrite Hhs2, Hoffs).
  assert (NoDup (omap cell_of kept)) as Hnd by (by apply NoDup_omap_filter).
  assert (∀ m sources, sources ≡ₚ off_source <$> omap (done_since b (reg_done r)) kept → unmarked b kept (reg_done r) m →
    let inst' := set_atomics m (set_offchain off' (set_onchain on' inst)) in
    ∃ r', registry_step (OpRevert b) (Reverted (Ok sources)) r r' ∧ represents inst' r') as Hstep.
  { intros m sources Hs Hm. eexists. split; [by apply reg_revert|].
    constructor; simpl; rewrite ?Hhs1, ?Hons; try done.
    - by apply Forall_filter_l.
    - by apply StronglySorted_filter.
    - rewrite !Forall_app in *. destruct Hids as (? & ? & ?). split_and!; try done; by apply Forall_filter_l.
    - intros Hz. unfold kept. by rewrite (Hreg Hz). }
  case_bool_decide as Hz.
  - replace (set_offchain off' (set_onchain on' inst)) with (set_atomics (reg_done r) (set_offchain off' (set_onchain on' inst)))
      by (rewrite <- Hdone; by destruct inst).
    apply Hstep; unfold kept; rewrite (Hreg Hz); [done|apply unmarked_nil].
  - destruct (unmark_done_spec b (offchain_all off') (reg_done r) []) as (m' & Hrun & Hm'); [by rewrite Hkept|].
    unfold unmark_done. rewrite Hrun. apply Hstep; [cbn; by rewrite Hkept|by eapply unmarked_perm].
Qed.

(** ** Sequences of operations *)

(** What callers keep to ([op_fits]), for an instance *)
Definition op_ok (op : InstanceOp) inst : Prop :=
  match op with
  | OpAdd (DsOffchain ds) =>
      causality_region_seq inst ≠ ONCHAIN ∧
      Forall (λ h, match as_offchain (host_ds h) with
        | Some ds' => off_done_at ds' = off_done_at ds → offchain_is_duplicate_of ds' ds = true
        | None => True
        end) (offchain_all (offchain_hosts inst))
  | OpNextRegion =>
      0 ≤ causality_region_seq inst < 2 ^ 31 ∧ (overflow_checks = true → causality_region_seq inst < 2 ^ 31 - 1)
  | OpMark _ b => b ≠ NOT_DONE_VALUE
  | _ => True
  end.

Fixpoint ops_ok (ops : list InstanceOp) inst : Prop :=
  match ops with
  | [] => True
  | op :: ops => op_ok op inst ∧ ops_ok ops (instance_step op inst).1
  end.

Definition answered (a : InstanceAnswer) : Prop :=
  match a with
  | Added Panic | Reverted Panic | Region Panic | Marked Panic => False
  | _ => True
  end.

Lemma region_next_spec {E} region :
  0 ≤ region < 2 ^ 31 → (overflow_checks = true → region < 2 ^ 31 - 1) →
  region_next (E := E) region = Ok (wrap_signed 32 (region + 1)) ∧ wrap_signed 32 (region + 1) ≠ ONCHAIN.
Proof.
  intros Hr Hc. unfold region_next, wrap_signed, ONCHAIN. rewrite Z.mod_small by lia.
  change (2 ^ (32 - 1)) with (2 ^ 31). destruct (Z.ltb_spec (region + 1) (2 ^ 31)); [split; [done|lia]|].
  destruct overflow_checks; [specialize (Hc eq_refl)|split; [done|]]; lia.
Qed.

Lemma op_ok_fits op inst r : represents inst r → op_ok op inst → op_fits op r.
Proof.
  intros Hrep. destruct op as [[| ds | |]| | |]; cbn; rewrite ?(rep_seq _ _ Hrep); try done.
  intros [Hseq Hcell]. split; [done|]. intros h ds' Hh Hds. rewrite (rep_offchain_hosts _ _ Hrep), Forall_forall in Hcell.
  specialize (Hcell h Hh). by rewrite Hds in Hcell.
Qed.

Lemma step_refines op inst r : represents inst r → op_ok op inst →
  ∃ r', registry_step op (instance_step op inst).2 r r' ∧ represents (instance_step op inst).1 r'.
Proof.
  intros Hrep Hok. pose proof (op_ok_fits _ _ _ Hrep Hok) as Hfit. destruct op as [ds|b| |ds b]; cbn [instance_step].
  - destruct (add_refines ds inst r Hrep Hfit) as (r' & Hs & Hr). destruct (add_dynamic_data_source ds inst). eauto.
  - destruct (revert_refines b inst r Hrep) as (r' & Hs & Hr). destruct (revert_data_sources b inst). eauto.
  - cbn [op_fits] in Hfit. destruct (region_next_spec (E := string) (reg_seq r)) as [Hnext Hne]; [tauto..|].
    unfold causality_region_next_value. rewrite (rep_seq _ _ Hrep), Hnext. eexists. split; [apply reg_next|].
    destruct Hrep. constructor; done.
  - eexists. unfold mark_in_instance, on_field, mark_processed_at. rewrite bool_decide_eq_false_2 by done. cbn.
    rewrite (rep_done _ _ Hrep). split; [apply reg_mark|]. by destruct Hrep.
Qed.

Lemma registry_step_answered op a r r' : registry_step op a r r' → answered a.
Proof.
  destruct 1 as [| | |ds h r r' a _ [bytes Hrt] <- _ Ha| | |]; try done.
  unfold registry_add, add_to in Ha. repeat case_match; simplify_eq/=; done.
Qed.

(** C19: In every sequence of additions, reverts and processed data sources, a
    [SubgraphInstance] gives the answers of a registry that looks through all
    hosts: data sources are duplicates when a host of the kind says so, hosts
    stay in the order in which they were added, a revert keeps exactly the
    hosts that were created before the block and returns the sources that have
    to be fetched again; the indexes by address stay in step with the hosts,
    and no assertion fails.  A build that checks for overflow must not use up
    the causality regions; others wrap around, to a region below 0. *)
Theorem instance_refines dss seq m ops :
  ops_ok ops (instance_new dss seq m) →
  let '(inst, answers) := instance_run ops (instance_new dss seq m) in
  ∃ r, registry_run (zip ops answers) (registry_new seq m) r ∧ represents inst r ∧ Forall answered answers.
Proof.
  pose proof (represents_new dss seq m) as Hrep. revert Hrep.
  generalize (instance_new dss seq m) as inst, (registry_new seq m) as r.
  induction ops as [|op ops IH]; intros inst r Hrep Hok; [exists r; split; [apply registry_run_nil|done]|].
  destruct Hok as [Hop Hok]. destruct (step_refines op inst r Hrep Hop) as (r1 & Hstep & Hrep1).
  cbn [instance_run]. destruct (instance_step op inst) as [inst1 a]. cbn in *.
  specialize (IH inst1 r1 Hrep1 Hok). destruct (instance_run ops inst1) as [inst2 answers].
  destruct IH as (r2 & Hrun & Hrep2 & Hans). exists r2. cbn. split; [by econstructor|]. split; [done|].
  constructor; [by eapply registry_step_answered|done].
Qed.

(** ** Triggers *)

Section Triggers.
Context (from_entity_trigger : CallDecls → EntitySourceOperation → outcome string (list DeclaredCall)).
Abbreviation decode := (match_and_decode from_entity_trigger).
Abbreviation decode_all := (match_and_decode_inner from_entity_trigger).

Lemma decode_filter b t m (p : Host → bool) hs : (∀ h, h ∈ hs → p h = false → decode (host_ds h) t b m = Ok None) →
  decode_all b t m (filter (λ h, p h = true) hs) = decode_all b t m hs.
Proof.
  induction hs as [|h hs IH]; intros Hp; [done|]. rewrite filter_cons. destruct (p h) eqn:Hh.
  - rewrite decide_True by done. cbn. rewrite IH by set_solver. done.
  - rewrite decide_False by done. cbn. rewrite Hp by (done || left). cbn. rewrite IH by set_solver.
    by destruct (decode_all b t m hs).
Qed.

Lemma decode_none_l b t m hs hs' : (∀ h, h ∈ hs → decode (host_ds h) t b m = Ok None) →
  decode_all b t m (hs ++ hs') = decode_all b t m hs'.
Proof.
  intros Hn. induction hs as [|h hs IH]; [done|]. cbn. rewrite Hn by left. cbn. rewrite IH by set_solver.
  by destruct (decode_all b t m hs').
Qed.

Lemma decode_none_r b t m hs hs' : (∀ h, h ∈ hs → decode (host_ds h) t b m = Ok None) →
  decode_all b t m (hs' ++ hs) = decode_all b t m hs'.
Proof.
  intros Hn. induction hs' as [|h hs' IH]; cbn; [|by rewrite IH].
  rewrite <- (app_nil_r hs). by rewrite decode_none_l.
Qed.

Lemma decode_offchain_perm b t m hs hs' : (∀ h, h ∈ hs → ∃ x, decode (host_ds h) t b m = Ok x) → hs ≡ₚ hs' →
  ∃ l l', decode_all b t m hs = Ok l ∧ decode_all b t m hs' = Ok l' ∧ l ≡ₚ l'.
Proof.
  intros Hok Hp. assert (∀ k, (∀ h, h ∈ k → ∃ x, decode (host_ds h) t b m = Ok x) →
    decode_all b t m k = Ok (omap (λ h, match decode (host_ds h) t b m with Ok (Some x) => Some (mkHosted h x) | _ => None end) k))
    as Hall.
  { induction k as [|h k IH]; intros Hk; [done|]. cbn. destruct (Hk h) as [x Hx]; [left|]. rewrite Hx. cbn.
    rewrite IH by set_solver. cbn. by destruct x. }
  do 2 eexists. rewrite (Hall hs Hok), (Hall hs') by (intros h Hh; apply Hok; by rewrite Hp). split; [done|]. split; [done|]. by rewrite Hp.
Qed.

(** A host that does not match the address of a trigger does not match the
    trigger *)
Lemma onchain_no_match h t b m a : is_Some (as_onchain (host_ds h)) → address_match t = Some a →
  matches_address a h = false → decode (host_ds h) (TrOnchain t) b m = Ok None.
Proof.
  intros [ds Hds] Ht. unfold matches_address, at_address, host_address. destruct (host_ds h) as [ds'| | |]; simplify_eq/=.
  rewrite orb_false_iff, !bool_decide_eq_false. intros [Ha Hn]. destruct (has_expired ds (block_number b)); [done|].
  destruct (chain_address ds) as [a'|] eqn:Hc; [|done].
  rewrite (match_needs_address ds t b a' a) by congruence. done.
Qed.

Lemma offchain_no_match h t b m : is_offchain_host h →
  matches_address (source_into_bytes (ot_source t)) h = false → decode (host_ds h) (TrOffchain t) b m = Ok None.
Proof.
  intros [ds Hds]. unfold matches_address, at_address, host_address. destruct (host_ds h) as [|ds'| |]; simplify_eq/=.
  rewrite orb_false_iff, !bool_decide_eq_false. intros [Ha _]. unfold offchain_match_and_decode, source_address in *.
  rewrite bool_decide_eq_true_2; [done|]. congruence.
Qed.

Lemma subgraph_no_match h t b m :
  matches_address (as_bytes (st_source t)) h = false → decode (host_ds h) (TrSubgraph t) b m = Ok None.
Proof.
  unfold matches_address, at_address, host_address. destruct (host_ds h) as [| |ds|]; try done. cbn.
  rewrite orb_false_iff, !bool_decide_eq_false. intros [Ha _]. unfold subgraph_match_and_decode, subgraph_address in *.
  rewrite bool_decide_eq_true_2; [done|]. congruence.
Qed.

(** C21: Decoding a trigger for the hosts that the indexes by address give is
    decoding it for all hosts of the subgraph.  For triggers of the chain and
    of other subgraphs the same hosts handle it, in the same order, with the
    same errors; for a file the same hosts handle it, in an order that can
    differ. *)
Theorem hosts_for_trigger_complete inst r t b : represents inst r →
  let all := reg_onchain r ++ reg_subgraph r ++ reg_offchain r in
  ∃ hs, hosts_for_trigger t inst = Ok hs ∧
    match t with
    | TrOffchain _ => ∃ l l', decode_all b t (atomics inst) hs = Ok l ∧ decode_all b t (atomics inst) all = Ok l' ∧ l ≡ₚ l'
    | _ => decode_all b t (atomics inst) hs = decode_all b t (atomics inst) all
    end.
Proof.
  intros Hrep all. pose proof (rep_onchain_kind _ _ Hrep) as Hon. rewrite Forall_forall in Hon.
  pose proof (rep_subgraph_kind _ _ Hrep) as Hsub. rewrite Forall_forall in Hsub.
  assert (∀ h, h ∈ reg_offchain r → is_offchain_host h) as Hoff.
  { intros h Hh. destruct (rep_offchain _ _ Hrep) as (_ & _ & _ & Hc). rewrite Forall_forall in Hc. apply Hc.
    by rewrite (rep_offchain_hosts _ _ Hrep). }
  destruct t as [t|t|t]; cbn [hosts_for_trigger].
  - rewrite onchain_matches_spec, (rep_onchain_hosts _ _ Hrep) by apply (rep_onchain _ _ Hrep). eexists. split; [done|].
    unfold all. rewrite decode_none_r.
    + destruct (address_match t) as [a|] eqn:Ha; [|done]. apply decode_filter. intros h Hh Hp. eapply onchain_no_match; eauto.
    + intros h [[ds Hh]%Hsub|[ds Hh]%Hoff]%elem_of_app; by destruct (host_ds h).
  - pose proof (offchain_matches_spec (source_into_bytes (ot_source t)) (offchain_hosts inst) (rep_offchain _ _ Hrep)) as Hm.
    rewrite (rep_offchain_hosts _ _ Hrep) in Hm. eexists. split; [done|].
    destruct (decode_offchain_perm b (TrOffchain t) (atomics inst) _ _ ltac:(
      intros h _; by destruct (host_ds h); eexists) Hm) as (l & l' & Hl & Hl' & Hp).
    exists l, l'. split; [done|]. split; [|done]. unfold all. rewrite app_assoc.
    rewrite decode_none_l.
    + rewrite <- Hl'. symmetry. apply decode_filter. intros h Hh Hnm. apply offchain_no_match; auto.
    + intros h [[ds Hh]%Hon|[ds Hh]%Hsub]%elem_of_app; by destruct (host_ds h).
  - rewrite onchain_matches_spec, (rep_subgraph_hosts _ _ Hrep) by apply (rep_subgraph _ _ Hrep). eexists. split; [done|].
    unfold all. rewrite decode_none_l, decode_none_r.
    + apply decode_filter. intros h Hh. apply subgraph_no_match.
    + intros h [ds Hh]%Hoff. by destruct (host_ds h).
    + intros h [ds Hh]%Hon. by destruct (host_ds h).
Qed.

End Triggers.

End Refinement.
