(* ===== verification/EthData.v ===== *)
(** * Ethereum: blocks, triggers and data sources

    Models [chain/ethereum/src/data_source.rs] and [trigger.rs] and the types
    of [graph/src/components/ethereum/types.rs]: what the handlers of a data
    source ask for, and how a trigger is matched with them and decoded.  The
    codec of contract ABIs, the hash function and the evaluation of declared
    calls are parameters.  The data source makes Ethereum an instance of
    [Blockchain], whose promises are proved at the end. *)

From Stdlib Require Import ZArith Lia ZifyBool Ascii.
From stdpp Require Import base gmap list strings.
From S2P Require Import Prelude Values Write DataSource.

Local Open Scope Z_scope.

(** Addresses and hashes are their bytes *)
Abbreviation Address := (list Z) (only parsing).
Abbreviation B256 := (list Z) (only parsing).
Abbreviation FunctionSelector := (list Z) (only parsing).

(** [keccak256] of the [alloy] crates *)
Class Keccak := { keccak256 : list Z → B256 }.

(** ** Blocks *)

(** [alloy::rpc::types::Log] *)
Record Log := mkLog {
  log_address : Address;
  log_topics : list B256;
  log_data : list Z;
  log_block_hash : option B256;
  log_block_number : option Z;
  log_transaction_hash : option B256;
  log_transaction_index : option Z;
  log_index : option Z;
}.

#[export] Instance Log_eq_dec : EqDecision Log.
Proof. solve_decision. Defined.

Record Receipt := mkReceipt {
  receipt_transaction_hash : B256;
  receipt_status : bool;
  receipt_logs : list Log;
}.

Record EthereumCall := mkEthereumCall {
  call_from : Address;
  call_to : Address;
  call_value : Z;
  call_gas_used : Z;
  call_input : list Z;
  call_output : list Z;
  call_block_number : BlockNumber;
  call_block_hash : B256;
  call_transaction_hash : option B256;
  call_transaction_index : Z;
}.

#[export] Instance EthereumCall_eq_dec : EqDecision EthereumCall.
Proof. solve_decision. Defined.

(** A transaction of a block, by what the mappings see of it *)
Record Transaction := mkTransaction {
  tx_hash : B256;
  tx_from : Address;
  tx_input : list Z;
  tx_block_hash : option B256;
  tx_block_number : option Z;
  tx_transaction_index : option Z;
}.

(** [LightEthereumBlock], by what the other parts use; the number of a block
    fits into an [i32], as its [BlockPtr] requires. *)
Record LightEthereumBlock := mkLightBlock {
  header_hash : B256;
  header_number : BlockNumber;
  header_parent_hash : B256;
  header_timestamp : Z;
  transactions : list Transaction;
}.

Definition light_block_ptr (self : LightEthereumBlock) : BlockPtr := mkBlockPtr (header_number self) (header_hash self).

Definition light_parent_ptr (self : LightEthereumBlock) : option BlockPtr :=
  if header_number self =? 0 then None else Some (mkBlockPtr (header_number self - 1) (header_parent_hash self)).

Definition find_transaction (hash : option B256) (self : LightEthereumBlock) : option Transaction :=
  hash ← hash;
  snd <$> list_find (λ tx, tx_hash tx = hash) (transactions self).

Definition transaction_for_log (log : Log) (self : LightEthereumBlock) : option Transaction :=
  find_transaction (log_transaction_hash log) self.

Definition transaction_for_call (call : EthereumCall) (self : LightEthereumBlock) : option Transaction :=
  find_transaction (call_transaction_hash call) self.

Record EthereumBlock := mkEthereumBlock { eb_block : LightEthereumBlock; transaction_receipts : list Receipt }.

Record EthereumBlockWithCalls := mkBlockWithCalls { ethereum_block : EthereumBlock; block_calls : option (list EthereumCall) }.

Definition transaction_for_call_succeeded (call : EthereumCall) (self : EthereumBlockWithCalls) : outcome string bool :=
  match call_transaction_hash call with
  | None => Err "failed to find a transaction for this call"
  | Some hash =>
      match list_find (λ r, receipt_transaction_hash r = hash) (transaction_receipts (ethereum_block self)) with
      | None => Err "failed to find the receipt for this transaction"
      | Some (_, receipt) => Ok (receipt_status receipt)
      end
  end.

(** ** Triggers *)

Inductive LogRef :=
| FullLog (log : Log) (receipt : option Receipt)
| LogPosition (index : nat) (receipt : Receipt) (requires_transaction_receipt : bool).

Definition log_ref_log (self : LogRef) : outcome string Log :=
  match self with
  | FullLog log _ => Ok log
  | LogPosition index receipt _ => unwrap (receipt_logs receipt !! index)
  end.

Definition log_ref_receipt (self : LogRef) : option Receipt :=
  match self with
  | FullLog _ receipt => receipt
  | LogPosition _ receipt requires => if requires then Some receipt else None
  end.

Inductive EthereumBlockTriggerType := Start | End | WithCallTo (address : Address).

#[export] Instance EthereumBlockTriggerType_eq_dec : EqDecision EthereumBlockTriggerType.
Proof. solve_decision. Defined.

Inductive EthereumTrigger :=
| EtBlock (ptr : BlockPtr) (type : EthereumBlockTriggerType)
| EtCall (call : EthereumCall)
| EtLog (log : LogRef).

(** [EthereumTrigger::address]; a position outside of the receipt panics. *)
Definition trigger_address (self : EthereumTrigger) : outcome string (option Address) :=
  match self with
  | EtBlock _ (WithCallTo address) => Ok (Some address)
  | EtCall call => Ok (Some (call_to call))
  | EtLog log_ref => log ← log_ref_log log_ref; Ok (Some (log_address log))
  | EtBlock _ End | EtBlock _ Start => Ok None
  end.

(** ** Contracts *)

(** [abi::Param], with the text of its type *)
Record AbiParam := mkAbiParam { param_name : string; selector_type : string; indexed : bool }.
Record AbiEvent := mkAbiEvent { event_name : string; event_inputs : list AbiParam }.
Inductive StateMutability := Pure | View | NonPayable | Payable.
Record AbiFunction := mkAbiFunction {
  function_name : string;
  function_inputs : list AbiParam;
  function_outputs : list AbiParam;
  state_mutability : StateMutability;
}.
Record MappingABI := mkMappingABI { abi_name : string; abi_events : list AbiEvent; abi_functions : list AbiFunction }.

#[export] Instance AbiParam_eq_dec : EqDecision AbiParam.
Proof. solve_decision. Defined.
#[export] Instance AbiEvent_eq_dec : EqDecision AbiEvent.
Proof. solve_decision. Defined.
#[export] Instance StateMutability_eq_dec : EqDecision StateMutability.
Proof. solve_decision. Defined.
#[export] Instance AbiFunction_eq_dec : EqDecision AbiFunction.
Proof. solve_decision. Defined.
#[export] Instance MappingABI_eq_dec : EqDecision MappingABI.
Proof. solve_decision. Defined.

(** The codec of [alloy] *)
Class AbiCodec := {
  SolValue : Type;
  decode_log : AbiEvent → Log → option (list (string * SolValue));
  abi_decode_input : AbiFunction → list Z → option (list SolValue);
  abi_decode_output : AbiFunction → list Z → option (list SolValue);
}.

(** ** Handlers *)

Record MappingEventHandler `{DeclaredCalls} := mkEventHandler {
  event : string;
  handler_topic0 : option B256;
  handler_topic1 : option (list B256);
  handler_topic2 : option (list B256);
  handler_topic3 : option (list B256);
  event_handler : string;
  handler_receipt : bool;
  handler_calls : CallDecls;
}.

#[global] Arguments mkEventHandler {_}.

Record MappingCallHandler := mkCallHandler { function : string; call_handler : string }.

(** [every] is a [NonZeroU32] *)
Inductive BlockHandlerFilter := CallFilter | Once | Polling (every : Z).

Record MappingBlockHandler := mkBlockHandler { block_handler : string; block_filter : option BlockHandlerFilter }.

#[export] Instance MappingEventHandler_eq_dec `{DeclaredCalls} : EqDecision MappingEventHandler.
Proof. solve_decision. Defined.
#[export] Instance MappingCallHandler_eq_dec : EqDecision MappingCallHandler.
Proof. solve_decision. Defined.
#[export] Instance BlockHandlerFilter_eq_dec : EqDecision BlockHandlerFilter.
Proof. solve_decision. Defined.
#[export] Instance MappingBlockHandler_eq_dec : EqDecision MappingBlockHandler.
Proof. solve_decision. Defined.

(** [str::replace] of a pattern by the empty string *)
Fixpoint str_remove (fuel : nat) (pat s : string) : string :=
  match fuel, s with
  | O, _ | _, EmptyString => s
  | S fuel, String c s' =>
      match strip_prefix pat s with
      | Some rest => str_remove fuel pat rest
      | None => String c (str_remove fuel pat s')
      end
  end.

Definition string_to_b256 `{Keccak} (s : string) : B256 := keccak256 (as_bytes (str_remove (String.length s) " " s)).

Definition topic0 `{Keccak} `{DeclaredCalls} (self : MappingEventHandler) : B256 :=
  default (string_to_b256 (str_remove (String.length (event self)) "indexed " (event self))) (handler_topic0 self).

(** A topic of a log is one of the topics that are asked for *)
Definition matches_topic (topics : list B256) (index : nat) (asked : option (list B256)) : bool :=
  match asked with
  | None => true
  | Some asked => match topics !! index with Some topic => bool_decide (topic ∈ asked) | None => false end
  end.

Definition event_handler_matches `{Keccak} `{DeclaredCalls} (log : Log) (self : MappingEventHandler) : bool :=
  match log_topics log with
  | [] => false
  | topic :: _ =>
      bool_decide (topic0 self = topic) &&
      matches_topic (log_topics log) 1 (handler_topic1 self) &&
      matches_topic (log_topics log) 2 (handler_topic2 self) &&
      matches_topic (log_topics log) 3 (handler_topic3 self)
  end.

Definition asks_topics (asked : option (list B256)) : bool :=
  match asked with Some (_ :: _) => true | _ => false end.

Definition has_additional_topics `{DeclaredCalls} (self : MappingEventHandler) : bool :=
  asks_topics (handler_topic1 self) || asks_topics (handler_topic2 self) || asks_topics (handler_topic3 self).

(** ** Data sources *)

Record Mapping `{DeclaredCalls} := mkMapping {
  abis : list MappingABI;
  block_handlers : list MappingBlockHandler;
  call_handlers : list MappingCallHandler;
  event_handlers : list MappingEventHandler;
  runtime : list Z;
}.

Record EthDataSource `{DeclaredCalls} := mkEthDataSource {
  eds_kind : string;
  eds_network : option string;
  eds_name : string;
  eds_manifest_idx : Z;
  eds_address : option Address;
  start_block : BlockNumber;
  end_block : option BlockNumber;
  mapping : Mapping;
  eds_context : option string;
  eds_creation_block : option BlockNumber;
  contract_abi : MappingABI;
}.

#[global] Arguments mkMapping {_}.
#[global] Arguments mkEthDataSource {_}.

Section EthDataSources.
Context `{Keccak} `{AbiCodec} `{DeclaredCalls}.

(** [DeclaredCall::from_log_trigger_with_event] *)
Context (from_log_trigger : list MappingABI → CallDecls → Log → list (string * SolValue) → outcome string (list DeclaredCall)).

Implicit Types (self : EthDataSource).

Definition eth_is_duplicate_of self (other : EthDataSource) : bool :=
  bool_decide (eds_kind self = eds_kind other) &&
  bool_decide (eds_network self = eds_network other) &&
  bool_decide (eds_name self = eds_name other) &&
  bool_decide (eds_manifest_idx self = eds_manifest_idx other) &&
  bool_decide (eds_address self = eds_address other) &&
  bool_decide (abis (mapping self) = abis (mapping other)) &&
  bool_decide (event_handlers (mapping self) = event_handlers (mapping other)) &&
  bool_decide (call_handlers (mapping self) = call_handlers (mapping other)) &&
  bool_decide (block_handlers (mapping self) = block_handlers (mapping other)) &&
  bool_decide (eds_context self = eds_context other).

Definition eth_as_stored self : StoredDynamicDataSource :=
  mkDataSource (eds_manifest_idx self) (eds_address self) (eds_context self) (eds_creation_block self) None ONCHAIN.

(** [validate]: whether the version of the API allows receipts and that of the
    specification declared calls, and the errors of declared calls, are given. *)
Definition validate (receipts_supported calls_supported : bool) (has_calls : CallDecls → bool)
    (call_errors : list MappingABI → CallDecls → list string) self : list string :=
  let handlers := block_handlers (mapping self) in
  let count f := length (filter (λ h, f (block_filter h) = true) handlers) in
  let non_filtered := count (λ f, bool_decide (f = None)) in
  let call_filtered := count (λ f, bool_decide (f = Some CallFilter)) in
  let initialization := count (λ f, bool_decide (f = Some Once)) in
  let polling := count (λ f, match f with Some (Polling _) => true | _ => false end) in
  (if bool_decide (eds_kind self ∈ ["ethereum/contract"; "ethereum"]) then [] else ["data source has invalid `kind`"]) ++
  (if bool_decide (eds_address self = None) &&
      (negb (bool_decide (call_handlers (mapping self) = [])) || negb (bool_decide (handlers = [])))
   then ["SourceAddressRequired"] else []) ++
  (if (0 <? non_filtered)%nat && ((0 <? polling)%nat || (0 <? initialization)%nat)
   then ["data source has a combination of filtered and non-filtered block handlers that is not allowed"] else []) ++
  (if (1 <? non_filtered)%nat || (1 <? call_filtered)%nat || (1 <? initialization)%nat || (1 <? polling)%nat
   then ["data source has duplicated block handlers"] else []) ++
  (if negb receipts_supported && existsb handler_receipt (event_handlers (mapping self))
   then ["data source has event handlers that require transaction receipts"] else []) ++
  (if negb calls_supported && existsb (λ h, has_calls (handler_calls h)) (event_handlers (mapping self))
   then ["declaring eth calls on handlers is only supported for specVersion >= 1.2.0"] else []) ++
  (event_handlers (mapping self) ≫= λ h, call_errors (abis (mapping self)) (handler_calls h)).

Definition handlers_for_log (log : Log) self : list MappingEventHandler :=
  filter (λ h, event_handler_matches log h = true) (event_handlers (mapping self)).

(** The first four bytes of the hash of the signature of a function *)
Definition method_id (h : MappingCallHandler) : FunctionSelector := take 4 (keccak256 (as_bytes (function h))).

Definition handler_for_call (call : EthereumCall) self : outcome string (option MappingCallHandler) :=
  if (length (call_input call) <? 4)%nat then Err "Ethereum call has input with less than 4 bytes"
  else Ok (snd <$> list_find (λ h, take 4 (call_input call) = method_id h) (call_handlers (mapping self))).

(** [i32] remainder; the quotient is rounded towards zero. *)
Definition block_handler_matches (trigger_type : EthereumBlockTriggerType) (block : BlockNumber) self (h : MappingBlockHandler) : bool :=
  match trigger_type, block_filter h with
  | Start, Some Once => bool_decide (block = start_block self)
  | End, Some (Polling every) => Z.rem (block - start_block self) (wrap_signed 32 every) =? 0
  | End, None => true
  | WithCallTo _, Some CallFilter => true
  | _, _ => false
  end.

Definition handler_for_block (trigger_type : EthereumBlockTriggerType) (block : BlockNumber) self : option MappingBlockHandler :=
  snd <$> list_find (λ h, block_handler_matches trigger_type block self h = true) (block_handlers (mapping self)).

Definition join_types (ps : list string) : string :=
  match ps with [] => EmptyString | p :: ps => foldl (λ s p, s +:+ "," +:+ p) p ps end.

Definition ambiguous_event_signature (e : AbiEvent) : string :=
  event_name e +:+ "(" +:+ join_types (selector_type <$> event_inputs e) +:+ ")".

Definition event_signature (e : AbiEvent) : string :=
  event_name e +:+ "(" +:+
  join_types ((λ i, (if indexed i then "indexed " else EmptyString) +:+ selector_type i) <$> event_inputs e) +:+ ")".

Definition contract_event_with_signature (signature : string) self : option AbiEvent :=
  match list_find (λ e, event_signature e = signature) (abi_events (contract_abi self)) with
  | Some (_, e) => Some e
  | None =>
      let name := match split_once "("%char signature with Some (name, _) => name | None => EmptyString end in
      match filter (λ e, event_name e = name) (abi_events (contract_abi self)) with
      | [e] => if bool_decide (ambiguous_event_signature e = signature) then Some e else None
      | _ => None
      end
  end.

Definition function_signature (f : AbiFunction) : string :=
  function_name f +:+ "(" +:+ join_types (selector_type <$> function_inputs f) +:+ ")".

Definition contract_function_with_signature (target : string) self : option AbiFunction :=
  let callable f := match state_mutability f with Payable | NonPayable => true | Pure | View => false end in
  snd <$> list_find (λ f, target = function_signature f) (filter (λ f, callable f = true) (abi_functions (contract_abi self))).

Definition matches_trigger_address (trigger : EthereumTrigger) self : outcome string bool :=
  match eds_address self with
  | None => Ok true
  | Some ds_address =>
      address ← trigger_address trigger;
      Ok (match address with None => true | Some trigger_address => bool_decide (ds_address = trigger_address) end)
  end.

Inductive EthMappingTrigger :=
| EmLog (block : LightEthereumBlock) (transaction : Transaction) (log : Log) (params : list (string * SolValue))
    (receipt : option Receipt) (calls : list DeclaredCall)
| EmCall (block : LightEthereumBlock) (transaction : Transaction) (call : EthereumCall)
    (inputs outputs : list (string * SolValue))
| EmBlock (block : LightEthereumBlock).

Definition with_block (block : LightEthereumBlock) (t : EthMappingTrigger) (handler : string) : TriggerWithHandler EthMappingTrigger :=
  mkTriggerWithHandler t handler (light_block_ptr block) (Some (header_timestamp block)).

(** [collect] into a [Result] *)
Fixpoint collect_ok {E A B} (f : A → outcome E B) (l : list A) : outcome E (list B) :=
  match l with
  | [] => Ok []
  | x :: l => y ← f x; ys ← collect_ok f l; Ok (y :: ys)
  end.

Definition B256_ZERO : B256 := replicate 32 0.
Definition ADDRESS_ZERO : Address := replicate 20 0.

Definition create_dummy_transaction (block_number : Z) (block_hash : B256) (transaction_index : option Z)
    (transaction_hash : option B256) : outcome string Transaction :=
  tx_hash ← ok_or transaction_hash "Log has no transaction hash";
  Ok (mkTransaction tx_hash ADDRESS_ZERO [] (Some block_hash) (Some block_number) transaction_index).

Definition decode_log_trigger (log_ref : LogRef) (block : LightEthereumBlock) self
    : outcome string (option (TriggerWithHandler EthMappingTrigger)) :=
  log ← log_ref_log log_ref;
  valid_handlers ← collect_ok (λ h,
    match contract_event_with_signature (event h) self with
    | Some abi => Ok (h, abi)
    | None => Err "Event not found in contract"
    end) (handlers_for_log log self);
  match reverse (omap (λ ha, params ← decode_log ha.2 log; Some (ha.1, params)) valid_handlers) with
  | [] => Ok None
  | [(h, params)] =>
      transaction ←
        (if bool_decide (log_transaction_hash log = Some (header_hash block)) ||
            bool_decide (log_transaction_hash log = Some B256_ZERO)
         then create_dummy_transaction (header_number block) (header_hash block) (log_transaction_index log) (log_transaction_hash log)
         else ok_or (transaction_for_log log block) "Found no transaction for event");
      calls ← from_log_trigger (abis (mapping self)) (handler_calls h) log params;
      Ok (Some (with_block block (EmLog block transaction log params (log_ref_receipt log_ref) calls) (event_handler h)))
  | _ => Err "Multiple handlers defined for event, only one is supported"
  end.

Definition decode_call_trigger (call : EthereumCall) (block : LightEthereumBlock) self
    : outcome string (option (TriggerWithHandler EthMappingTrigger)) :=
  handler ← handler_for_call call self;
  match handler with
  | None => Ok None
  | Some handler =>
      abi ← ok_or (contract_function_with_signature (function handler) self) "Function not found in contract";
      match abi_decode_input abi (drop 4 (call_input call)) with
      | None => Ok None
      | Some values =>
          if bool_decide (length values ≠ length (function_inputs abi))
          then Err "Number of arguments in call does not match number of inputs in function signature"
          else
            outputs ← ok_or (abi_decode_output abi (call_output call)) "Decoding function outputs failed";
            if bool_decide (length outputs ≠ length (function_outputs abi))
            then Err "Number of parameters in the call output does not match"
            else
              transaction ← ok_or (transaction_for_call call block) "Found no transaction for call";
              Ok (Some (with_block block
                (EmCall block transaction call (zip (param_name <$> function_inputs abi) values)
                   (zip (param_name <$> function_outputs abi) outputs)) (call_handler handler)))
      end
  end.

Definition eth_match_and_decode (trigger : EthereumTrigger) (block : LightEthereumBlock) self
    : outcome string (option (TriggerWithHandler EthMappingTrigger)) :=
  matches ← matches_trigger_address trigger self;
  if negb matches then Ok None
  else if bool_decide (start_block self > header_number block) then Ok None
  else
    match trigger with
    | EtBlock _ trigger_type =>
        Ok ((λ h, with_block block (EmBlock block) (block_handler h)) <$> handler_for_block trigger_type (header_number block) self)
    | EtLog log_ref => decode_log_trigger log_ref block self
    | EtCall call => decode_call_trigger call block self
    end.

(** [EthereumTrigger::address_match], of a trigger whose log exists *)
Definition eth_address_match (trigger : EthereumTrigger) : option (list Z) :=
  match trigger_address trigger with Ok address => address | _ => None end.

#[export] Instance ethereum : Blockchain := {|
  ChainDataSource := EthDataSource;
  ChainTrigger := EthereumTrigger;
  ChainMappingTrigger := EthMappingTrigger;
  ChainBlock := LightEthereumBlock;
  block_ptr := light_block_ptr;
  block_timestamp b := Some (header_timestamp b);
  chain_address := eds_address;
  chain_start_block := start_block;
  chain_end_block := end_block;
  chain_creation_block := eds_creation_block;
  chain_runtime ds := Some (runtime (mapping ds));
  chain_name := eds_name;
  chain_is_duplicate_of := eth_is_duplicate_of;
  chain_as_stored := eth_as_stored;
  chain_match_and_decode ds t b := eth_match_and_decode t b ds;
  address_match := eth_address_match;
|}.

#[export] Instance ethereum_spec : BlockchainSpec.
Proof.
  split.
  - intros a b. cbn. unfold eth_is_duplicate_of. rewrite !andb_true_iff, !bool_decide_eq_true. tauto.
  - intros ds t b a a'. cbn. intros Ha Ht Hne. unfold eth_match_and_decode, matches_trigger_address, eth_address_match in *.
    rewrite Ha. destruct (trigger_address t) as [address|?|]; try done. cbn. rewrite Ht, bool_decide_eq_false_2 by done. done.
Qed.

End EthDataSources.
