(* ===== verification/EthFilter.v ===== *)
(** * Ethereum: trigger filters

    Models the filters of [chain/ethereum/src/adapter.rs]: the log filter as a
    bipartite graph between contracts and events, the call filter and the block
    filter, how they are made from data sources and templates, how they are
    merged, and how the log filter is covered by [eth_getLogs] requests.  The
    [petgraph] crate is an interface with its documented laws. *)

From Stdlib Require Import ZArith Lia ZifyBool.
From stdpp Require Import base gmap list strings.
From S2P Require Import Prelude Values Write DataSource EthData.

Local Open Scope Z_scope.

(** ** Graphs *)

(** [GraphMap<N, bool, Undirected>] of the [petgraph] crate *)
Class GraphMap (N : Type) := {
  Graph : Type;
  graph_new : Graph;
  add_edge : N → N → bool → Graph → Graph;
  edge_weight : N → N → Graph → option bool;
  edge_count : Graph → nat;
  nodes : Graph → list N;
  neighbors : N → Graph → list N;
  remove_node : N → Graph → Graph;
  all_edges : Graph → list (N * N * bool);
}.
#[global] Arguments Graph N {_}.

(** The same edge of an undirected graph *)
Definition same_edge {N} (a b c d : N) : Prop := (a = c ∧ b = d) ∨ (a = d ∧ b = c).

Class GraphMapSpec (N : Type) `{GraphMap N} := {
  edge_weight_sym (a b : N) g : edge_weight a b g = edge_weight b a g;
  edge_weight_new (a b : N) : edge_weight a b graph_new = None;
  edge_weight_add (a b c d : N) w g : same_edge a b c d → edge_weight a b (add_edge c d w g) = Some w;
  edge_weight_add_ne (a b c d : N) w g : ¬ same_edge a b c d → edge_weight a b (add_edge c d w g) = edge_weight a b g;
  edge_weight_remove (a b c : N) g : a = c ∨ b = c → edge_weight a b (remove_node c g) = None;
  edge_weight_remove_ne (a b c : N) g : a ≠ c → b ≠ c → edge_weight a b (remove_node c g) = edge_weight a b g;
  elem_of_neighbors (a b : N) g : b ∈ neighbors a g ↔ is_Some (edge_weight a b g);
  neighbors_nodup (a : N) g : NoDup (neighbors a g);
  elem_of_nodes (a b : N) g : is_Some (edge_weight a b g) → a ∈ nodes g;
  all_edges_weight (a b : N) w g : (a, b, w) ∈ all_edges g → edge_weight a b g = Some w;
  all_edges_complete (a b : N) w g : edge_weight a b g = Some w → (a, b, w) ∈ all_edges g ∨ (b, a, w) ∈ all_edges g;
  edge_count_all (g : Graph N) : edge_count g = length (all_edges g);
  edge_count_remove (a : N) g :
    a ∉ neighbors a g → (edge_count (remove_node a g) + length (neighbors a g))%nat = edge_count g;
}.

Inductive LogFilterNode := Contract (address : Address) | Event (signature : B256).

#[export] Instance LogFilterNode_eq_dec : EqDecision LogFilterNode.
Proof. solve_decision. Defined.

Section MergeGraphs.
Context `{GraphMap LogFilterNode}.

(** [MergeGraph] *)
Definition or_add_edge (a b : LogFilterNode) (v : bool) (self : Graph LogFilterNode) : Graph LogFilterNode :=
  let merged := v || default false (edge_weight a b self) in
  add_edge a b merged self.

Definition contains_edge (a b : LogFilterNode) (self : Graph LogFilterNode) : bool :=
  bool_decide (is_Some (edge_weight a b self)).

(** [Iterator::max_by_key], which returns the last of the greatest elements *)
Fixpoint max_by_key {A} (key : A → nat) (l : list A) : option A :=
  match l with
  | [] => None
  | x :: l =>
      match max_by_key key l with
      | None => Some x
      | Some y => if (key y <? key x)%nat then Some x else Some y
      end
  end.

End MergeGraphs.

(** [MergeMap::or_insert] *)
Definition or_insert {K} `{Countable K} (k : K) (v : bool) (self : gmap K bool) : gmap K bool :=
  match self !! k with
  | Some e => <[k := e || v]> self
  | None => <[k := v]> self
  end.

(** ** The log filter *)

Record EventSignatureWithTopics := mkEventSignature {
  es_address : option Address;
  es_signature : B256;
  es_topic1 : option (list B256);
  es_topic2 : option (list B256);
  es_topic3 : option (list B256);
}.

#[export] Instance EventSignatureWithTopics_eq_dec : EqDecision EventSignatureWithTopics.
Proof. solve_decision. Defined.
#[export] Instance EventSignatureWithTopics_countable : Countable EventSignatureWithTopics.
Proof.
  refine (inj_countable' (λ e, (es_address e, es_signature e, es_topic1 e, es_topic2 e, es_topic3 e))
    (λ '(a, s, t1, t2, t3), mkEventSignature a s t1 t2 t3) _).
  by intros [].
Defined.

Definition event_signature_matches (address : option Address) (sig : B256) (topics : list B256)
    (self : EventSignatureWithTopics) : bool :=
  (match es_address self with Some self_addr => bool_decide (address = Some self_addr) | None => true end) &&
  bool_decide (es_signature self = sig) &&
  matches_topic topics 1 (es_topic1 self) &&
  matches_topic topics 2 (es_topic2 self) &&
  matches_topic topics 3 (es_topic3 self).

Record EthGetLogsFilter := mkGetLogs {
  contracts : list Address;
  event_signatures : list B256;
  gl_topic1 : option (list B256);
  gl_topic2 : option (list B256);
  gl_topic3 : option (list B256);
}.

Definition from_contract (address : Address) : EthGetLogsFilter := mkGetLogs [address] [] None None None.
Definition from_event (event : B256) : EthGetLogsFilter := mkGetLogs [] [event] None None None.
Definition from_event_with_topics (e : EventSignatureWithTopics) : EthGetLogsFilter :=
  mkGetLogs (match es_address e with Some a => [a] | None => [] end) [es_signature e] (es_topic1 e) (es_topic2 e) (es_topic3 e).

Definition push_contract (a : Address) (self : EthGetLogsFilter) : EthGetLogsFilter :=
  mkGetLogs (contracts self ++ [a]) (event_signatures self) (gl_topic1 self) (gl_topic2 self) (gl_topic3 self).
Definition push_event (e : B256) (self : EthGetLogsFilter) : EthGetLogsFilter :=
  mkGetLogs (contracts self) (event_signatures self ++ [e]) (gl_topic1 self) (gl_topic2 self) (gl_topic3 self).

(** The filter object of [eth_getLogs]: the addresses and, for each position,
    the topics that are asked for; [from] and [to] bound the block numbers. *)
Record Filter := mkFilter { filter_from : Z; filter_to : Z; filter_address : list Address; filter_topics : list (list B256) }.

Definition to_alloy_filter (from to : BlockNumber) (self : EthGetLogsFilter) : Filter :=
  mkFilter from to (contracts self)
    [event_signatures self; default [] (gl_topic1 self); default [] (gl_topic2 self); default [] (gl_topic3 self)].

Section LogFilters.
Context `{GraphMap LogFilterNode} `{Keccak} `{DeclaredCalls}.

Record EthereumLogFilter := mkLogFilter {
  contracts_and_events_graph : Graph LogFilterNode;
  wildcard_events : gmap B256 bool;
  events_with_topic_filters : gmap EventSignatureWithTopics bool;
}.

Implicit Types self : EthereumLogFilter.

Definition log_filter_default : EthereumLogFilter := mkLogFilter graph_new ∅ ∅.

Definition set_graph (g : Graph LogFilterNode) self := mkLogFilter g (wildcard_events self) (events_with_topic_filters self).
Definition set_wildcards (m : gmap B256 bool) self := mkLogFilter (contracts_and_events_graph self) m (events_with_topic_filters self).
Definition set_with_topics (m : gmap EventSignatureWithTopics bool) self :=
  mkLogFilter (contracts_and_events_graph self) (wildcard_events self) m.

Definition log_filter_matches (log : Log) self : bool :=
  match log_topics log with
  | [] => false
  | sig :: _ =>
      contains_edge (Contract (log_address log)) (Event sig) (contracts_and_events_graph self) ||
      bool_decide (is_Some (wildcard_events self !! sig)) ||
      existsb (λ e, event_signature_matches (Some (log_address log)) sig (log_topics log) e.1)
        (map_to_list (events_with_topic_filters self))
  end.

Definition requires_transaction_receipt (event_signature : B256) (contract_address : option Address) (topics : list B256) self : bool :=
  if bool_decide (wildcard_events self !! event_signature = Some true) then true
  else if existsb (λ e, e.2 && event_signature_matches contract_address event_signature topics e.1)
            (map_to_list (events_with_topic_filters self)) then true
  else
    match contract_address with
    | Some address => bool_decide (edge_weight (Contract address) (Event event_signature) (contracts_and_events_graph self) = Some true)
    | None => false
    end.

Definition with_topics (address : option Address) (event_sig : B256) (h : MappingEventHandler) : EventSignatureWithTopics :=
  mkEventSignature address event_sig (handler_topic1 h) (handler_topic2 h) (handler_topic3 h).

(** The body of the loop of [from_data_sources] *)
Definition add_event_handler (address : option Address) (this : EthereumLogFilter) (h : MappingEventHandler) : EthereumLogFilter :=
  let event_sig := topic0 h in
  match address with
  | Some contract =>
      if has_additional_topics h
      then set_with_topics (or_insert (with_topics (Some contract) event_sig h) (handler_receipt h) (events_with_topic_filters this)) this
      else set_graph (or_add_edge (Contract contract) (Event event_sig) (handler_receipt h) (contracts_and_events_graph this)) this
  | None =>
      if has_additional_topics h
      then set_with_topics (or_insert (with_topics None event_sig h) (handler_receipt h) (events_with_topic_filters this)) this
      else set_wildcards (or_insert event_sig (handler_receipt h) (wildcard_events this)) this
  end.

Definition log_filter_from_data_sources (dss : list EthDataSource) : EthereumLogFilter :=
  foldl (λ this ds, foldl (add_event_handler (eds_address ds)) this (event_handlers (mapping ds))) log_filter_default dss.

Definition log_filter_from_mapping (m : Mapping) : EthereumLogFilter :=
  foldl (λ this h, set_wildcards (or_insert (topic0 h) (handler_receipt h) (wildcard_events this)) this)
    log_filter_default (event_handlers m).

Definition log_filter_is_empty self : bool :=
  bool_decide (edge_count (contracts_and_events_graph self) = 0%nat) &&
  bool_decide (wildcard_events self = ∅) &&
  bool_decide (events_with_topic_filters self = ∅).

Definition or_insert_all {K} `{Countable K} (other self : gmap K bool) : gmap K bool :=
  foldl (λ m e, or_insert e.1 e.2 m) self (map_to_list other).

Definition log_filter_extend (other self : EthereumLogFilter) : EthereumLogFilter :=
  if log_filter_is_empty other then self
  else
    mkLogFilter
      (foldl (λ g '(s, t, e), or_add_edge s t e g) (contracts_and_events_graph self) (all_edges (contracts_and_events_graph other)))
      (or_insert_all (wildcard_events other) (wildcard_events self))
      (or_insert_all (events_with_topic_filters other) (events_with_topic_filters self)).

(** [push_filter], with its assertions *)
Definition push_filter (filter : EthGetLogsFilter) (filters : list EthGetLogsFilter) : outcome string (list EthGetLogsFilter) :=
  if negb (bool_decide (contracts filter = []) || bool_decide (event_signatures filter = [])) &&
     (bool_decide (length (contracts filter) = 1%nat) || bool_decide (length (event_signatures filter) = 1%nat))
  then Ok (filters ++ [filter])
  else Panic.

(** The loop over the neighbors of the vertex with most of them *)
Fixpoint add_neighbors (get_logs_max_contracts : nat) (l : list LogFilterNode) (filter : EthGetLogsFilter)
    (filters : list EthGetLogsFilter) : outcome string (EthGetLogsFilter * list EthGetLogsFilter) :=
  match l with
  | [] => Ok (filter, filters)
  | Contract address :: l =>
      if bool_decide (length (contracts filter) = get_logs_max_contracts) then
        event ← unwrap (event_signatures filter !! 0%nat);
        filters ← push_filter filter filters;
        add_neighbors get_logs_max_contracts l (push_contract address (from_event event)) filters
      else add_neighbors get_logs_max_contracts l (push_contract address filter) filters
  | Event event_sig :: l => add_neighbors get_logs_max_contracts l (push_event event_sig filter) filters
  end.

(** The loop that takes vertices with their edges out of the graph; [fuel]
    bounds its iterations. *)
Fixpoint cover_edges (fuel : nat) (get_logs_max_contracts : nat) (g : Graph LogFilterNode) (filters : list EthGetLogsFilter)
    : outcome string (list EthGetLogsFilter) :=
  if bool_decide (edge_count g = 0%nat) then Ok filters
  else
    match fuel with
    | O => Panic
    | S fuel =>
        max_vertex ← unwrap (max_by_key (λ n, length (neighbors n g)) (nodes g));
        let filter := match max_vertex with Contract address => from_contract address | Event sig => from_event sig end in
        r ← add_neighbors get_logs_max_contracts (neighbors max_vertex g) filter filters;
        filters ← push_filter r.1 r.2;
        cover_edges fuel get_logs_max_contracts (remove_node max_vertex g) filters
    end.

Definition eth_get_logs_filters (get_logs_max_contracts : nat) self : outcome string (list EthGetLogsFilter) :=
  let filters :=
    ((λ e, from_event e.1) <$> map_to_list (wildcard_events self)) ++
    ((λ e, from_event_with_topics e.1) <$> map_to_list (events_with_topic_filters self)) in
  let g := contracts_and_events_graph self in
  cover_edges (edge_count g) get_logs_max_contracts g filters.

End LogFilters.

(** ** The call filter *)

Record EthereumCallFilter := mkCallFilter {
  contract_addresses_function_signatures : gmap Address (BlockNumber * gset FunctionSelector);
  wildcard_signatures : gset FunctionSelector;
}.

Definition call_filter_default : EthereumCallFilter := mkCallFilter ∅ ∅.

Definition call_filter_matches (call : EthereumCall) (self : EthereumCallFilter) : bool :=
  if (length (call_input call) <? 4)%nat then false
  else
    let call_signature := take 4 (call_input call) in
    match contract_addresses_function_signatures self !! call_to call with
    | Some v =>
        if bool_decide (v.2 = ∅) then true
        else bool_decide (call_signature ∈ v.2) || bool_decide (call_signature ∈ wildcard_signatures self)
    | None => bool_decide (call_signature ∈ wildcard_signatures self)
    end.

Definition call_filter_is_empty (self : EthereumCallFilter) : bool :=
  bool_decide (contract_addresses_function_signatures self = ∅) && bool_decide (wildcard_signatures self = ∅).

(** The closure of [from_iter] *)
Definition add_signature (lookup : gmap Address (BlockNumber * gset FunctionSelector))
    (e : BlockNumber * Address * FunctionSelector) : gmap Address (BlockNumber * gset FunctionSelector) :=
  let '(start_block, address, function_signature) := e in
  let entry := default (start_block, ∅) (lookup !! address) in
  let first := if bool_decide (entry.1 > start_block) then start_block else entry.1 in
  <[address := (first, {[function_signature]} ∪ entry.2)]> lookup.

Definition call_filter_from_iter (l : list (BlockNumber * Address * FunctionSelector)) : EthereumCallFilter :=
  mkCallFilter (foldl add_signature ∅ l) ∅.

Definition extend_entry (m : gmap Address (BlockNumber * gset FunctionSelector))
    (e : Address * (BlockNumber * gset FunctionSelector)) : gmap Address (BlockNumber * gset FunctionSelector) :=
  let '(address, (proposed_start_block, new_sigs)) := e in
  match m !! address with
  | Some (existing_start_block, existing_sigs) =>
      <[address := (Z.min proposed_start_block existing_start_block, existing_sigs ∪ new_sigs)]> m
  | None => <[address := (proposed_start_block, new_sigs)]> m
  end.

Definition call_filter_extend (other self : EthereumCallFilter) : EthereumCallFilter :=
  if call_filter_is_empty other then self
  else
    mkCallFilter
      (foldl extend_entry (contract_addresses_function_signatures self)
         (map_to_list (contract_addresses_function_signatures other)))
      (wildcard_signatures self ∪ wildcard_signatures other).

Section CallFilters.
Context `{Keccak} `{DeclaredCalls}.

Definition call_filter_from_mapping (m : Mapping) : EthereumCallFilter :=
  mkCallFilter ∅ (list_to_set (method_id <$> call_handlers m)).

Definition call_entries (ds : EthDataSource) : list (BlockNumber * Address * FunctionSelector) :=
  match eds_address ds with
  | None => []
  | Some contract_addr => (λ h, (start_block ds, contract_addr, method_id h)) <$> call_handlers (mapping ds)
  end.

Definition call_filter_from_data_sources (dss : list EthDataSource) : EthereumCallFilter :=
  call_filter_from_iter (dss ≫= call_entries).

End CallFilters.

(** ** The block filter *)

Record EthereumBlockFilter := mkBlockFilter {
  polling_intervals : gset (BlockNumber * Z);
  contract_addresses : gset (BlockNumber * Address);
  trigger_every_block : bool;
}.

Definition block_filter_default : EthereumBlockFilter := mkBlockFilter ∅ ∅ false.

Definition block_filter_is_empty (self : EthereumBlockFilter) : bool :=
  negb (trigger_every_block self) && bool_decide (contract_addresses self = ∅) && bool_decide (polling_intervals self = ∅).

Definition find_contract_address (candidate : Address) (cs : gset (BlockNumber * Address)) : option (BlockNumber * Address) :=
  snd <$> list_find (λ c, candidate = c.2) (elements cs).

Definition extend_address (cs : gset (BlockNumber * Address)) (other : BlockNumber * Address) : gset (BlockNumber * Address) :=
  match find_contract_address other.2 cs with
  | Some (current_start_block, current_address) =>
      if bool_decide (other.1 < current_start_block)
      then {[other]} ∪ (cs ∖ {[(current_start_block, current_address)]})
      else cs
  | None => {[other]} ∪ cs
  end.

Definition block_filter_extend (other self : EthereumBlockFilter) : EthereumBlockFilter :=
  if block_filter_is_empty other then self
  else
    mkBlockFilter (polling_intervals self ∪ polling_intervals other)
      (foldl extend_address (contract_addresses self) (elements (contract_addresses other)))
      (trigger_every_block self || trigger_every_block other).

(** [EthereumCallFilter::from] a block filter *)
Definition call_filter_from_block_filter (f : EthereumBlockFilter) : EthereumCallFilter :=
  mkCallFilter (foldl (λ m c, <[c.2 := (c.1, ∅)]> m) ∅ (elements (contract_addresses f))) ∅.

Section BlockFilters.
Context `{DeclaredCalls}.

Definition block_filter_from_mapping (m : Mapping) : EthereumBlockFilter :=
  mkBlockFilter ∅ ∅ (negb (bool_decide (block_handlers m = []))).

Definition polling_interval (ds : EthDataSource) (h : MappingBlockHandler) : option (BlockNumber * Z) :=
  match block_filter h with
  | Some (Polling every) => Some (start_block ds, wrap_signed 32 every)
  | Some Once => Some (start_block ds, 0)
  | _ => None
  end.

Definition block_filter_of (ds : EthDataSource) (address : Address) : EthereumBlockFilter :=
  let has_block_handler_with_call_filter :=
    existsb (λ h, bool_decide (block_filter h = Some CallFilter)) (block_handlers (mapping ds)) in
  let has_block_handler_without_filter :=
    existsb (λ h, bool_decide (block_filter h = None)) (block_handlers (mapping ds)) in
  mkBlockFilter (list_to_set (omap (polling_interval ds) (block_handlers (mapping ds))))
    (if has_block_handler_with_call_filter then {[(start_block ds, address)]} else ∅)
    has_block_handler_without_filter.

Definition block_filter_from_data_sources (dss : list EthDataSource) : EthereumBlockFilter :=
  foldl (λ f ds,
    match eds_address ds with
    | Some address => block_filter_extend (block_filter_of ds address) f
    | None => f
    end) block_filter_default dss.

End BlockFilters.

(** ** All three *)

Section TriggerFilters.
Context `{GraphMap LogFilterNode} `{Keccak} `{DeclaredCalls}.

Record TriggerFilter := mkTriggerFilter {
  tf_log : EthereumLogFilter;
  tf_call : EthereumCallFilter;
  tf_block : EthereumBlockFilter;
}.

Definition trigger_filter_default : TriggerFilter := mkTriggerFilter log_filter_default call_filter_default block_filter_default.

Definition block_requires_traces (self : EthereumBlockFilter) : bool := negb (bool_decide (contract_addresses self = ∅)).

Definition requires_traces (self : TriggerFilter) : bool :=
  negb (call_filter_is_empty (tf_call self)) || block_requires_traces (tf_block self).

Definition trigger_filter_extend (dss : list EthDataSource) (self : TriggerFilter) : TriggerFilter :=
  mkTriggerFilter
    (log_filter_extend (log_filter_from_data_sources dss) (tf_log self))
    (call_filter_extend (call_filter_from_data_sources dss) (tf_call self))
    (block_filter_extend (block_filter_from_data_sources dss) (tf_block self)).

Definition extend_with_template (mappings : list Mapping) (self : TriggerFilter) : TriggerFilter :=
  foldl (λ f m,
    mkTriggerFilter
      (log_filter_extend (log_filter_from_mapping m) (tf_log f))
      (call_filter_extend (call_filter_from_mapping m) (tf_call f))
      (block_filter_extend (block_filter_from_mapping m) (tf_block f))) self mappings.

(** [TriggerFilter::from_data_sources] of the trait *)
Definition trigger_filter_from_data_sources (dss : list EthDataSource) : TriggerFilter :=
  trigger_filter_extend dss trigger_filter_default.

End TriggerFilters.
