(* ===== verification/EthTriggers.v ===== *)
(** * Ethereum: the triggers of a block and of a range of blocks

    Models the order of triggers of [chain/ethereum/src/trigger.rs],
    [BlockWithTriggers] of [graph/src/blockchain/block_stream.rs], the parsing
    of the triggers of a block that is not final and the scan of a range of
    final blocks of [chain/ethereum/src/ethereum_adapter.rs], and
    [triggers_in_block] of [chain/ethereum/src/chain.rs].  The Ethereum node and
    the cache of blocks are an interface; a request stands for its retries. *)

From Stdlib Require Import ZArith Lia ZifyBool.
From stdpp Require Import base gmap list strings.
From S2P Require Import Prelude Values Write DataSource EthData EthFilter.

Local Open Scope Z_scope.

#[export] Instance BlockPtr_eq_dec : EqDecision BlockPtr.
Proof. solve_decision. Defined.

(** ** The order of triggers *)

Definition log_ref_index (self : LogRef) : outcome string (option Z) := log_index <$> log_ref_log self.
Definition log_ref_transaction_index (self : LogRef) : outcome string (option Z) := log_transaction_index <$> log_ref_log self.
Definition log_ref_transaction_hash (self : LogRef) : outcome string (option B256) := log_transaction_hash <$> log_ref_log self.

Definition trigger_eq (self other : EthereumTrigger) : outcome string bool :=
  match self, other with
  | EtBlock a_ptr a_kind, EtBlock b_ptr b_kind => Ok (bool_decide (a_ptr = b_ptr) && bool_decide (a_kind = b_kind))
  | EtCall a, EtCall b => Ok (bool_decide (a = b))
  | EtLog a, EtLog b =>
      a_hash ← log_ref_transaction_hash a; b_hash ← log_ref_transaction_hash b;
      a_index ← log_ref_index a; b_index ← log_ref_index b;
      Ok (bool_decide (a_hash = b_hash) && bool_decide (a_index = b_index))
  | _, _ => Ok false
  end.

(** [Ord] of [Option<u64>] *)
Definition option_compare (a b : option Z) : comparison :=
  match a, b with
  | None, None => Eq
  | None, Some _ => Lt
  | Some _, None => Gt
  | Some a, Some b => a ?= b
  end.

Definition trigger_cmp (self other : EthereumTrigger) : outcome string comparison :=
  match self, other with
  | EtBlock _ Start, _ => Ok Lt
  | _, EtBlock _ Start => Ok Gt
  | EtBlock _ _, EtBlock _ _ => Ok Eq
  | EtBlock _ _, _ => Ok Gt
  | _, EtBlock _ _ => Ok Lt
  | EtCall a, EtCall b => Ok (call_transaction_index a ?= call_transaction_index b)
  | EtLog a, EtLog b => a ← log_ref_index a; b ← log_ref_index b; Ok (option_compare a b)
  | EtCall a, EtLog b =>
      index ← log_ref_transaction_index b; index ← unwrap index;
      Ok (if bool_decide (call_transaction_index a = index) then Gt else call_transaction_index a ?= index)
  | EtLog a, EtCall b =>
      index ← log_ref_transaction_index a; index ← unwrap index;
      Ok (if bool_decide (index = call_transaction_index b) then Lt else index ?= call_transaction_index b)
  end.

Section Sorting.
Context {A : Type} (cmp : A → A → outcome string comparison) (eqb : A → A → outcome string bool).

(** [Vec::sort], by insertion: for a comparison that is a total preorder, what
    every stable sort returns *)
Fixpoint sort_insert (x : A) (l : list A) : outcome string (list A) :=
  match l with
  | [] => Ok [x]
  | y :: l' =>
      c ← cmp x y;
      match c with
      | Gt => r ← sort_insert x l'; Ok (y :: r)
      | _ => Ok (x :: l)
      end
  end.

Fixpoint sort (l : list A) : outcome string (list A) :=
  match l with
  | [] => Ok []
  | x :: l => r ← sort l; sort_insert x r
  end.

(** [Vec::dedup], which compares an element with the last one it kept *)
Fixpoint dedup_from (kept : A) (l : list A) : outcome string (list A) :=
  match l with
  | [] => Ok [kept]
  | x :: l =>
      e ← eqb x kept;
      if (e : bool) then dedup_from kept l else (r ← dedup_from x l; Ok (kept :: r))
  end.

Definition dedup (l : list A) : outcome string (list A) :=
  match l with [] => Ok [] | x :: l => dedup_from x l end.

End Sorting.

Record ExtendedBlockPtr := mkExtendedPtr {
  ebp_hash : B256;
  ebp_number : BlockNumber;
  ebp_parent_hash : B256;
  ebp_timestamp : Z;
}.

Inductive BlockFinality :=
| Final (block : LightEthereumBlock)
| NonFinal (block : EthereumBlockWithCalls)
| Ptr (block : ExtendedBlockPtr).

Definition light_block {E} (self : BlockFinality) : outcome E LightEthereumBlock :=
  match self with Final block => Ok block | NonFinal block => Ok (eb_block (ethereum_block block)) | Ptr _ => Panic end.

Definition finality_ptr (self : BlockFinality) : BlockPtr :=
  match self with
  | Final block => light_block_ptr block
  | NonFinal block => light_block_ptr (eb_block (ethereum_block block))
  | Ptr block => mkBlockPtr (ebp_number block) (ebp_hash block)
  end.

Definition finality_parent_ptr (self : BlockFinality) : option BlockPtr :=
  match self with
  | Final block => light_parent_ptr block
  | NonFinal block => light_parent_ptr (eb_block (ethereum_block block))
  | Ptr block => Some (mkBlockPtr (ebp_number block - 1) (ebp_parent_hash block))
  end.

Record BlockWithTriggers := mkBlockWithTriggers { bt_block : BlockFinality; trigger_data : list EthereumTrigger }.

Definition bt_ptr (self : BlockWithTriggers) : BlockPtr := finality_ptr (bt_block self).

Definition block_with_triggers_new (block : BlockFinality) (triggers : list EthereumTrigger) : outcome string BlockWithTriggers :=
  sorted ← sort trigger_cmp triggers;
  deduped ← dedup trigger_eq sorted;
  Ok (mkBlockWithTriggers block deduped).

(** ** Traces *)

Inductive TraceAction :=
| CallAction (from to : Address) (value : Z) (input : list Z)
| OtherAction.

Inductive TraceOutput := CallOutput (gas_used : Z) (output : list Z) | OtherOutput.

(** [LocalizedTransactionTrace] *)
Record Trace := mkTrace {
  trace_error : option string;
  trace_action : TraceAction;
  trace_result : option TraceOutput;
  transaction_position : option Z;
  trace_transaction_hash : option B256;
  trace_block_number : option BlockNumber;
  trace_block_hash : option B256;
}.

Definition try_from_trace (trace : Trace) : outcome string (option EthereumCall) :=
  match trace_error trace with
  | Some _ => Ok None
  | None =>
      match trace_action trace with
      | OtherAction => Ok None
      | CallAction from to value input =>
          if (length input <? 4)%nat then Ok None
          else
            match trace_result trace with
            | Some (CallOutput gas_used output) =>
                match transaction_position trace with
                | None => Ok None
                | Some transaction_index =>
                    block_number ← unwrap (trace_block_number trace);
                    block_hash ← unwrap (trace_block_hash trace);
                    Ok (Some (mkEthereumCall from to value gas_used input output block_number block_hash
                      (trace_transaction_hash trace) transaction_index))
                end
            | _ => Ok None
            end
      end
  end.

(** [filter_map] in the presence of errors *)
Fixpoint filter_map_ok {E A B} (f : A → outcome E (option B)) (l : list A) : outcome E (list B) :=
  match l with
  | [] => Ok []
  | x :: l =>
      y ← f x; ys ← filter_map_ok f l;
      Ok (match y with Some y => y :: ys | None => ys end)
  end.

(** ** Parsing the triggers of one block *)

Section Parsing.
Context `{GraphMap LogFilterNode}.

Definition receipt_log_triggers (log_filter : EthereumLogFilter) (receipt : Receipt) : list EthereumTrigger :=
  imap (λ index log,
    let requires_transaction_receipt :=
      match log_topics log with
      | [] => false
      | signature :: _ => requires_transaction_receipt signature (Some (log_address log)) (log_topics log) log_filter
      end in
    EtLog (LogPosition index receipt requires_transaction_receipt)) (receipt_logs receipt).

Definition parse_log_triggers (log_filter : EthereumLogFilter) (block : EthereumBlock) : list EthereumTrigger :=
  if log_filter_is_empty log_filter then []
  else transaction_receipts block ≫= receipt_log_triggers log_filter.

Definition parse_call_triggers (call_filter : EthereumCallFilter) (block : EthereumBlockWithCalls) : outcome string (list EthereumTrigger) :=
  if call_filter_is_empty call_filter then Ok []
  else
    match block_calls block with
    | None => Ok []
    | Some calls =>
        filter_map_ok (λ call,
          ok ← transaction_for_call_succeeded call block;
          Ok (if ok : bool then Some (EtCall call) else None))
          (filter (λ call, call_filter_matches call call_filter = true) calls)
    end.

Definition block_trigger_types_from_intervals (block_number : BlockNumber) (intervals : gset (BlockNumber * Z))
    : list EthereumBlockTriggerType :=
  let has_once_trigger := existsb (λ i, bool_decide (i.2 = 0) && bool_decide (block_number = i.1)) (elements intervals) in
  let has_polling_trigger :=
    existsb (λ i : BlockNumber * Z, bool_decide (i.2 > 0) && bool_decide ((block_number >= i.1)%Z) && (Z.rem (block_number - i.1) i.2 =? 0))
      (elements intervals) in
  (if has_once_trigger then [Start] else []) ++ (if has_polling_trigger then [End] else []).

Definition parse_block_triggers (block_filter : EthereumBlockFilter) (block : EthereumBlockWithCalls) : list EthereumTrigger :=
  if block_filter_is_empty block_filter then []
  else
    let block_ptr := light_block_ptr (eb_block (ethereum_block block)) in
    let call_filter := call_filter_from_block_filter block_filter in
    let triggers :=
      match block_calls block with
      | Some calls =>
          (λ call, EtBlock block_ptr (WithCallTo (call_to call))) <$> filter (λ call, call_filter_matches call call_filter = true) calls
      | None => []
      end in
    if trigger_every_block block_filter then triggers ++ [EtBlock block_ptr Start; EtBlock block_ptr End]
    else if bool_decide (polling_intervals block_filter = ∅) then triggers
    else triggers ++ (EtBlock block_ptr <$> block_trigger_types_from_intervals (ptr_number block_ptr) (polling_intervals block_filter)).

End Parsing.

(** ** Scanning a range of blocks *)

(** What the node and the cache of blocks answer; a request that is retried
    without a limit only fails for the rounds without a block.  The results of
    requests that run at the same time come in the order of [completion_order]. *)
Class EthereumNode := {
  get_block_by_number : BlockNumber → outcome string (option LightEthereumBlock);
  get_block_by_hash : B256 → outcome string (option LightEthereumBlock);
  get_logs : Filter → outcome string (list Log);
  trace_filter : BlockNumber → BlockNumber → list Address → outcome string (list Trace);
  get_transaction_receipt : B256 → outcome string (option Receipt);
  cached_blocks : list B256 → outcome string (list LightEthereumBlock);
  cached_receipts : B256 → outcome string (list (B256 * bool));
  fetch_receipt : B256 → B256 → outcome string Receipt;
  completion_order : list (list EthereumTrigger) → list (list EthereumTrigger);
}.

(** The settings of a chain *)
Class EthereumSettings := {
  get_logs_max_contracts : nat;
  max_event_only_range : Z;
  trace_stream_step_size : Z;
}.

Section Scanning.
Context `{GraphMap LogFilterNode} `{EthereumNode} `{EthereumSettings}.

(** [str::contains] of a string *)
Definition contains_str (pat s : string) : bool :=
  match String.index 0 pat s with Some _ => true | None => false end.

Definition detect_null_block {A} (res : outcome string A) : bool :=
  match res with Err e => contains_str "requested epoch was a null round" e | _ => false end.

(** [next_existing_ptr_to_number]; [fuel] bounds the rounds without a block. *)
Fixpoint next_existing_ptr_to_number (fuel : nat) (block_number : BlockNumber) : outcome string BlockPtr :=
  let res := get_block_by_number block_number in
  if detect_null_block res then
    match fuel with O => Panic | S fuel => next_existing_ptr_to_number fuel (block_number + 1) end
  else
    block ← res;
    match block with
    | Some block => Ok (mkBlockPtr block_number (header_hash block))
    | None => Err "Block does not contain hash"
    end.

Definition load_block_ptr (block_num : BlockNumber) : outcome string (option BlockPtr) :=
  let res := block ← get_block_by_number block_num; ok_or block "Ethereum node did not find block" in
  if detect_null_block res then Ok None
  else block ← res; Ok (Some (light_block_ptr block)).

Definition load_block_ptrs_rpc (block_nums : list BlockNumber) : outcome string (list BlockPtr) :=
  filter_map_ok load_block_ptr block_nums.

(** [from..=to] *)
Definition block_range (from to : BlockNumber) : list BlockNumber := seqZ from (to - from + 1).

Definition block_range_to_ptrs (from to : BlockNumber) : outcome string (list BlockPtr) :=
  load_block_ptrs_rpc (block_range from to).

Definition blocks_matching_polling_intervals (from to : BlockNumber) (filter : EthereumBlockFilter) : outcome string (list EthereumTrigger) :=
  let types block_number := block_trigger_types_from_intervals block_number (polling_intervals filter) in
  let matching_blocks := base.filter (λ n, types n ≠ []) (block_range from to) in
  ptrs ← load_block_ptrs_rpc matching_blocks;
  Ok (ptrs ≫= λ ptr, EtBlock ptr <$> types (ptr_number ptr)).

(** The errors by which providers refuse requests for too many logs *)
Definition TOO_MANY_LOGS_FINGERPRINTS : list string :=
  ["ServerError(-32005)"; "503 Service Unavailable"; "ServerError(-32000)"; "Try with this block range"; "block range too large"].

(** The loop of [log_stream] *)
Fixpoint log_stream_from (fuel : nat) (to : BlockNumber) (filter : EthGetLogsFilter) (start step : Z) : outcome string (list Log) :=
  if bool_decide (start > to) then Ok []
  else
    match fuel with
    | O => Panic
    | S fuel =>
        let end_ := Z.min (start + step) to in
        match get_logs (to_alloy_filter start end_ filter) with
        | Panic => Panic
        | Err string_err =>
            if existsb (λ f, contains_str f string_err) TOO_MANY_LOGS_FINGERPRINTS && bool_decide (step > 0)
            then log_stream_from fuel to filter start (step `quot` 10)
            else Err string_err
        | Ok logs => rest ← log_stream_from fuel to filter (end_ + 1) step; Ok (logs ++ rest)
        end
    end.

Definition log_stream (from to : BlockNumber) (filter : EthGetLogsFilter) : outcome string (list Log) :=
  if bool_decide (from > to) then Panic
  else
    let step := match contracts filter with [] => Z.min (to - from) (max_event_only_range - 1) | _ => to - from end in
    log_stream_from (2 * Z.to_nat (to - from + 1)) to filter from step.

Definition logs_in_block_range (from to : BlockNumber) (log_filter : EthereumLogFilter) : outcome string (list Log) :=
  filters ← eth_get_logs_filters get_logs_max_contracts log_filter;
  logs ← collect_ok (log_stream from to) filters;
  Ok (concat logs).

(** The ranges that [trace_stream] requests *)
Fixpoint trace_ranges (fuel : nat) (start to step_size : Z) : outcome string (list (BlockNumber * BlockNumber)) :=
  if bool_decide (start > to) then Ok []
  else
    match fuel with
    | O => Panic
    | S fuel =>
        let end_ := Z.min (start + step_size - 1) to in
        rest ← trace_ranges fuel (end_ + 1) to step_size;
        Ok ((start, end_) :: rest)
    end.

Definition trace_stream (from to : BlockNumber) (addresses : list Address) : outcome string (list Trace) :=
  if bool_decide (from > to) then Panic
  else
    let step_size := match addresses with [] => 1 | _ => trace_stream_step_size end in
    ranges ← trace_ranges (Z.to_nat (to - from + 1)) from to step_size;
    traces ← collect_ok (λ r, trace_filter r.1 r.2 addresses) ranges;
    Ok (concat traces).

Definition calls_in_block_range (from to : BlockNumber) (call_filter : EthereumCallFilter) : outcome string (list EthereumCall) :=
  let started := base.filter (λ e, e.2.1 ≤ to) (map_to_list (contract_addresses_function_signatures call_filter)) in
  let addresses := started.*1 in
  if bool_decide (addresses = []) && bool_decide (wildcard_signatures call_filter = ∅) then Ok []
  else
    let addresses := if (100 <? length addresses)%nat || negb (bool_decide (wildcard_signatures call_filter = ∅)) then [] else addresses in
    traces ← trace_stream from to addresses;
    filter_map_ok (λ trace,
      call ← try_from_trace trace;
      Ok (call ← call; if call_filter_matches call call_filter then Some call else None)) traces.

Definition calls_in_block (block_number : BlockNumber) (block_hash : B256) : outcome string (list EthereumCall) :=
  traces ← trace_stream block_number block_number [];
  match traces with
  | [] => Err "Trace stream returned no traces for block"
  | first :: _ =>
      if bool_decide (trace_block_hash first ≠ Some block_hash) then Err "Trace stream returned traces for an unexpected block"
      else filter_map_ok try_from_trace traces
  end.

Definition get_calls (requires_traces : bool) (block : BlockFinality) : outcome string BlockFinality :=
  match block with
  | Final _ => Ok block
  | NonFinal b =>
      match block_calls b with
      | Some _ => Ok block
      | None =>
          let eb := ethereum_block b in
          calls ← (if negb requires_traces || bool_decide (length (transaction_receipts eb) = 0%nat) then Ok []
                   else calls_in_block (header_number (eb_block eb)) (header_hash (eb_block eb)));
          Ok (NonFinal (mkBlockWithCalls eb (Some calls)))
      end
  | Ptr _ => Panic
  end.

(** A loop that may fail *)
Fixpoint fold_ok {E A B} (f : B → A → outcome E B) (acc : B) (l : list A) : outcome E B :=
  match l with [] => Ok acc | x :: l => acc ← f acc x; fold_ok f acc l end.

Definition record_receipt (acc : gset B256 * gmap B256 Receipt) (receipt : Receipt) : outcome string (gset B256 * gmap B256 Receipt) :=
  let hash := receipt_transaction_hash receipt in
  if bool_decide (hash ∉ acc.1) then Err "Received a receipt for a different transaction hash"
  else
    match acc.2 !! hash with
    | Some _ => Err "Received a duplicate transaction receipt"
    | None => Ok (acc.1 ∖ {[hash]}, <[hash := receipt]> acc.2)
    end.

(** [get_transaction_receipts_for_transaction_hashes]: the receipts of the
    transactions of logs, by transaction *)
Definition get_transaction_receipts (hashes : gmap B256 (gset B256)) : outcome string (gmap B256 Receipt) :=
  receipts ← collect_ok (λ e, collect_ok (λ txn, fetch_receipt txn e.1) (elements e.2)) (map_to_list hashes);
  r ← fold_ok record_receipt (⋃ ((map_to_list hashes).*2), ∅) (concat receipts);
  if bool_decide (r.1 = ∅) then Ok r.2 else Err "Didn't receive all necessary transaction receipts".

(** One step of the fold that collects transactions by block *)
Definition add_hash (acc : gmap B256 (gset B256)) (log : Log) : gmap B256 (gset B256) :=
  match log_block_hash log, log_transaction_hash log with
  | Some block, Some txn => <[block := {[txn]} ∪ default ∅ (acc !! block)]> acc
  | _, _ => acc
  end.

Definition get_logs_and_transactions (from to : BlockNumber) (log_filter : EthereumLogFilter) (receipts_supported : bool)
    : outcome string (list EthereumTrigger) :=
  logs ← logs_in_block_range from to log_filter;
  let needs log :=
    receipts_supported &&
    match log_topics log with
    | [] => false
    | signature :: _ => requires_transaction_receipt signature (Some (log_address log)) (log_topics log) log_filter
    end in
  let hashes := foldl add_hash ∅ (base.filter (λ log, needs log = true) logs) in
  receipts ← (if bool_decide (hashes = ∅) then Ok ∅ else get_transaction_receipts hashes);
  Ok ((λ log, EtLog (FullLog log (txn ← log_transaction_hash log; receipts !! txn))) <$> logs).

(** [EthereumTrigger::block_hash], [block_number] *)
Definition trigger_block_hash (self : EthereumTrigger) : outcome string B256 :=
  match self with
  | EtBlock block_ptr _ => Ok (ptr_hash block_ptr)
  | EtCall call => Ok (call_block_hash call)
  | EtLog log_ref => log ← log_ref_log log_ref; unwrap (log_block_hash log)
  end.

Definition trigger_block_number (self : EthereumTrigger) : outcome string BlockNumber :=
  match self with
  | EtBlock block_ptr _ => Ok (ptr_number block_ptr)
  | EtCall call => Ok (call_block_number call)
  | EtLog log_ref =>
      log ← log_ref_log log_ref; n ← unwrap (log_block_number log);
      if n <? 2 ^ 31 then Ok n else Panic
  end.

Definition load_block_rpc (hash : B256) : outcome string LightEthereumBlock :=
  block ← get_block_by_hash hash; ok_or block "Ethereum node did not find block".

(** [load_blocks]; the blocks that it adds to the cache are left out. *)
Definition load_blocks (block_hashes : gset B256) : outcome string (list LightEthereumBlock) :=
  let blocks := match cached_blocks (elements block_hashes) with Ok blocks => blocks | _ => [] end in
  let missing_blocks := base.filter (λ hash, hash ∉ header_hash <$> blocks) (elements block_hashes) in
  new_blocks ← collect_ok load_block_rpc missing_blocks;
  sort (λ a b, Ok (header_number a ?= header_number b)) (blocks ++ new_blocks).

Definition call_transaction (t : EthereumTrigger) : option (option B256) :=
  match t with EtCall call => Some (call_transaction_hash call) | _ => None end.

(** The transactions with a receipt in the cache, each of which is taken once,
    and the others *)
Fixpoint split_receipts (receipts : gmap B256 bool) (txs : list Transaction) : list (B256 * bool) * list B256 :=
  match txs with
  | [] => ([], [])
  | tx :: txs =>
      match receipts !! tx_hash tx with
      | Some status => let r := split_receipts (delete (tx_hash tx) receipts) txs in ((tx_hash tx, status) :: r.1, r.2)
      | None => let r := split_receipts receipts txs in (r.1, tx_hash tx :: r.2)
      end
  end.

Definition fetch_receipt_from_ethereum_client (transaction_hash : B256) : outcome string (B256 * bool) :=
  receipt ← get_transaction_receipt transaction_hash;
  receipt ← ok_or receipt "Could not find transaction receipt";
  Ok (transaction_hash, receipt_status receipt).

Definition retain_trigger (transaction_success : gmap B256 bool) (t : EthereumTrigger) : bool :=
  match call_transaction t with
  | Some (Some hash) => default false (transaction_success !! hash)
  | _ => true
  end.

Definition filter_call_triggers_from_unsuccessful_transactions (block : BlockWithTriggers) : outcome string BlockWithTriggers :=
  if bool_decide (length (trigger_data block) = 0%nat) then Ok block
  else
    hashes ← collect_ok (λ h : option B256, ok_or h "failed to obtain transaction hash from call triggers")
               (omap call_transaction (trigger_data block));
    let transaction_hashes : gset B256 := list_to_set hashes in
    if bool_decide (transaction_hashes = ∅) then Ok block
    else
      match bt_block block with
      | NonFinal _ | Ptr _ => Panic
      | Final light =>
          let transactions := base.filter (λ tx, tx_hash tx ∈ transaction_hashes) (transactions light) in
          if bool_decide (length transactions ≠ size transaction_hashes)
          then Err "failed to find transactions in block for the given call triggers"
          else
            stored ← cached_receipts (ptr_hash (bt_ptr block));
            let '(known, without_receipt) := split_receipts (list_to_map (reverse stored)) transactions in
            fetched ← collect_ok fetch_receipt_from_ethereum_client without_receipt;
            let transaction_success : gmap B256 bool := list_to_map (reverse (known ++ fetched)) in
            if bool_decide (transaction_hashes ⊆ dom transaction_success) then
              Ok (mkBlockWithTriggers (bt_block block)
                (base.filter (λ t, retain_trigger transaction_success t = true) (trigger_data block)))
            else Err "Not all transactions status were inspected"
      end.

(** One step of the fold that groups the triggers by block *)
Definition push_trigger (m : gmap BlockNumber (list EthereumTrigger)) (e : BlockNumber * EthereumTrigger)
    : gmap BlockNumber (list EthereumTrigger) :=
  <[e.1 := default [] (m !! e.1) ++ [e.2]]> m.

(** The blocks with the triggers of their number, each of which is taken once *)
Fixpoint take_triggers (by_block : gmap BlockNumber (list EthereumTrigger)) (blocks : list LightEthereumBlock)
    : outcome string (list BlockWithTriggers) :=
  match blocks with
  | [] => Ok []
  | block :: blocks =>
      triggers ← ok_or (by_block !! header_number block) "block not found in `triggers_by_block`";
      b ← block_with_triggers_new (Final block) triggers;
      bs ← take_triggers (delete (header_number block) by_block) blocks;
      Ok (b :: bs)
  end.

(** The four requests of [blocks_with_triggers] *)
Definition scan_blocks (from to : BlockNumber) (filter : EthereumBlockFilter) : outcome string (list EthereumTrigger) :=
  if trigger_every_block filter then (λ ptrs, mjoin ((λ ptr, [EtBlock ptr Start; EtBlock ptr End]) <$> ptrs)) <$> block_range_to_ptrs from to
  else if bool_decide (polling_intervals filter = ∅) then Ok []
  else blocks_matching_polling_intervals from to filter.

Definition scan_logs (from to : BlockNumber) (filter : EthereumLogFilter) (receipts_supported : bool) : outcome string (list EthereumTrigger) :=
  if log_filter_is_empty filter then Ok [] else get_logs_and_transactions from to filter receipts_supported.

Definition scan_calls (from to : BlockNumber) (filter : EthereumCallFilter) : outcome string (list EthereumTrigger) :=
  if call_filter_is_empty filter then Ok [] else (λ calls : list EthereumCall, EtCall <$> calls) <$> calls_in_block_range from to filter.

Definition with_call_trigger (call : EthereumCall) : EthereumTrigger :=
  EtBlock (mkBlockPtr (call_block_number call) (call_block_hash call)) (WithCallTo (call_to call)).

Definition scan_with_calls (from to : BlockNumber) (filter : EthereumBlockFilter) : outcome string (list EthereumTrigger) :=
  if bool_decide (contract_addresses filter = ∅) then Ok []
  else (λ calls : list EthereumCall, with_call_trigger <$> calls) <$> calls_in_block_range from to (call_filter_from_block_filter filter).

Definition range_triggers (from to : BlockNumber) (filter : TriggerFilter) (receipts_supported : bool) : outcome string (list EthereumTrigger) :=
  blocks ← scan_blocks from to (tf_block filter);
  logs ← scan_logs from to (tf_log filter) receipts_supported;
  calls ← scan_calls from to (tf_call filter);
  with_calls ← scan_with_calls from to (tf_block filter);
  Ok (concat (completion_order [blocks; logs; calls; with_calls])).

Definition blocks_with_triggers (fuel : nat) (from to : BlockNumber) (filter : TriggerFilter) (receipts_supported : bool)
    : outcome string (list BlockWithTriggers * BlockNumber) :=
  to_ptr ← next_existing_ptr_to_number fuel to;
  let to := ptr_number to_ptr in
  triggers ← range_triggers from to filter receipts_supported;
  hashes ← collect_ok trigger_block_hash triggers;
  numbers ← collect_ok trigger_block_number triggers;
  let block_hashes : gset B256 := {[ptr_hash to_ptr]} ∪ list_to_set hashes in
  let by_block := foldl push_trigger ∅ (zip numbers triggers) in
  let by_block := <[to := default [] (by_block !! to)]> by_block in
  light_blocks ← load_blocks block_hashes;
  blocks ← take_triggers by_block light_blocks;
  blocks ← collect_ok filter_call_triggers_from_unsuccessful_transactions blocks;
  blocks ← sort (λ a b, Ok (ptr_number (bt_ptr a) ?= ptr_number (bt_ptr b))) blocks;
  first ← unwrap (head blocks);
  last ← unwrap (last blocks);
  if bool_decide (ptr_number (bt_ptr first) < from) then Err "block is before the first block of the requested range"
  else if bool_decide (ptr_number (bt_ptr last) > to) then Err "block is after the last block of the requested range"
  else Ok (blocks, to).

Definition triggers_in_block (fuel : nat) (block : BlockFinality) (filter : TriggerFilter) (receipts_supported : bool)
    : outcome string BlockWithTriggers :=
  block ← get_calls (requires_traces filter) block;
  match block with
  | Final light =>
      r ← blocks_with_triggers fuel (header_number light) (header_number light) filter receipts_supported;
      match r.1 with [b] => Ok b | _ => Panic end
  | NonFinal full_block =>
      calls ← parse_call_triggers (tf_call filter) full_block;
      block_with_triggers_new block
        (parse_log_triggers (tf_log filter) (ethereum_block full_block) ++ calls ++ parse_block_triggers (tf_block filter) full_block)
  | Ptr _ => Panic
  end.

End Scanning.
