(* ===== verification/EthFilterFacts.v ===== *)
(** * Facts about the trigger filters

    The log filter as a map from what a handler asks for to whether a receipt
    is needed: what [from_data_sources] and [extend] put into it, that a log
    matches exactly when one of the keys does, and that the [eth_getLogs]
    requests of [eth_get_logs_filters] select exactly the logs that match.  The
    call and block filters as unions of what their data sources ask for. *)

From Stdlib Require Import ZArith Lia ZifyBool.
From stdpp Require Import base gmap list strings fin_maps.
From S2P Require Import Prelude Values Write DataSource EthData EthFilter.

Local Open Scope Z_scope.

(** ** Merging maps *)

(** Whether a receipt is needed for a key, in either of two filters *)
Definition or_weight (a b : option bool) : option bool :=
  match a, b with
  | Some a, Some b => Some (a || b)
  | Some a, None => Some a
  | None, b => b
  end.

Lemma or_weight_None_r a : or_weight a None = a.
Proof. by destruct a. Qed.

Lemma or_weight_assoc a b c : or_weight a (or_weight b c) = or_weight (or_weight a b) c.
Proof. destruct a as [[]|], b as [[]|], c as [[]|]; done. Qed.

Lemma or_weight_comm a b : or_weight a b = or_weight b a.
Proof. destruct a as [[]|], b as [[]|]; done. Qed.

Lemma or_weight_is_Some a b : is_Some (or_weight a b) ↔ is_Some a ∨ is_Some b.
Proof. destruct a, b; cbn; rewrite ?is_Some_alt; naive_solver. Qed.

Lemma or_weight_true a b : or_weight a b = Some true ↔ a = Some true ∨ b = Some true.
Proof. destruct a as [[]|], b as [[]|]; naive_solver. Qed.

Section MergeMaps.
Context {K : Type} `{Countable K}.
Implicit Types m : gmap K bool.

Lemma lookup_or_insert k v m k' :
  or_insert k v m !! k' = or_weight (m !! k') (if decide (k = k') then Some v else None).
Proof.
  unfold or_insert. destruct (m !! k) eqn:E, (decide (k = k')) as [->|]; simplify_map_eq; rewrite ?E, ?or_weight_None_r; done.
Qed.

Lemma lookup_or_insert_fold l m k :
  foldl (λ m e, or_insert e.1 e.2 m) m l !! k =
  foldl (λ w (e : K * bool), or_weight w (if decide (e.1 = k) then Some e.2 else None)) (m !! k) l.
Proof. revert m. induction l as [|e l IH]; intros m; [done|]. cbn. by rewrite IH, lookup_or_insert. Qed.

Lemma or_weight_fold_absent (l : list (K * bool)) k w :
  k ∉ l.*1 → foldl (λ w (e : K * bool), or_weight w (if decide (e.1 = k) then Some e.2 else None)) w l = w.
Proof.
  revert w. induction l as [|e l IH]; intros w Hk; [done|]. cbn in *. rewrite not_elem_of_cons in Hk.
  rewrite decide_False by naive_solver. rewrite or_weight_None_r. apply IH. tauto.
Qed.

Lemma or_weight_fold_nodup (l : list (K * bool)) k w v :
  NoDup l.*1 → (k, v) ∈ l →
  foldl (λ w (e : K * bool), or_weight w (if decide (e.1 = k) then Some e.2 else None)) w l = or_weight w (Some v).
Proof.
  revert w. induction l as [|[k' v'] l IH]; intros w Hn Hk; [by apply elem_of_nil in Hk|].
  cbn in *. apply NoDup_cons in Hn as [Hne Hn]. apply list_elem_of_In in Hk as [[= -> ->]|Hk].
  - rewrite decide_True by done. by apply or_weight_fold_absent.
  - apply list_elem_of_In in Hk. rewrite decide_False, or_weight_None_r; [by apply IH|].
    intros ->. apply Hne. apply list_elem_of_fmap. by exists (k, v).
Qed.

Lemma lookup_or_insert_all other m k : or_insert_all other m !! k = or_weight (m !! k) (other !! k).
Proof.
  unfold or_insert_all. rewrite lookup_or_insert_fold. destruct (other !! k) as [v|] eqn:E.
  - apply or_weight_fold_nodup; [apply NoDup_fst_map_to_list|by apply elem_of_map_to_list].
  - rewrite or_weight_None_r. apply or_weight_fold_absent. intros Hk. apply list_elem_of_fmap in Hk as ([k' v] & -> & Hk).
    apply elem_of_map_to_list in Hk. cbn in E. congruence.
Qed.

End MergeMaps.

(** ** Graphs *)

Section Graphs.
Context `{GraphMapSpec LogFilterNode}.
Implicit Types g : Graph LogFilterNode.

(** An edge between a contract and an event *)
Definition edge (a : Address) (s : B256) g : option bool := edge_weight (Contract a) (Event s) g.

(** [contracts_and_events_graph] is bipartite *)
Definition bipartite g : Prop :=
  ∀ x y, is_Some (edge_weight x y g) → (∃ a s, x = Contract a ∧ y = Event s) ∨ (∃ a s, x = Event s ∧ y = Contract a).

Lemma bipartite_new : bipartite graph_new.
Proof. intros x y. rewrite edge_weight_new. by intros [? ?]. Qed.

Lemma bipartite_no_loop g x : bipartite g → x ∉ neighbors x g.
Proof. intros Hb Hx%elem_of_neighbors. destruct (Hb _ _ Hx) as [(?&?&?&?)|(?&?&?&?)]; congruence. Qed.

#[global] Instance same_edge_dec (a b c d : LogFilterNode) : Decision (same_edge a b c d).
Proof. unfold same_edge. apply _. Defined.

Lemma edge_weight_same a b c d g : same_edge a b c d → edge_weight a b g = edge_weight c d g.
Proof. intros [[-> ->]|[-> ->]]; [done|apply edge_weight_sym]. Qed.

Lemma edge_weight_or_add a b c d v g :
  edge_weight a b (or_add_edge c d v g) = or_weight (edge_weight a b g) (if decide (same_edge a b c d) then Some v else None).
Proof.
  unfold or_add_edge. destruct (decide (same_edge a b c d)) as [E|E].
  - rewrite edge_weight_add, <- (edge_weight_same a b c d g) by done.
    destruct (edge_weight a b g) as [[]|], v; done.
  - by rewrite edge_weight_add_ne, or_weight_None_r.
Qed.

Lemma edge_or_add a s c e v g :
  edge a s (or_add_edge (Contract c) (Event e) v g) = or_weight (edge a s g) (if decide (a = c ∧ s = e) then Some v else None).
Proof.
  unfold edge. rewrite edge_weight_or_add. f_equal. apply decide_ext. unfold same_edge. naive_solver.
Qed.

Lemma bipartite_or_add c e v g : bipartite g → bipartite (or_add_edge (Contract c) (Event e) v g).
Proof.
  intros Hb x y. rewrite edge_weight_or_add, or_weight_is_Some. intros [Hx|Hx]; [by apply Hb|].
  case_decide as E; [|by destruct Hx]. destruct E as [[-> ->]|[-> ->]]; eauto 6.
Qed.

Lemma edge_weight_or_add_all l g a b :
  edge_weight a b (foldl (λ g '(s, t, e), or_add_edge s t e g) g l) =
  foldl (λ w '(s, t, e), or_weight w (if decide (same_edge a b s t) then Some e else None)) (edge_weight a b g) l.
Proof.
  revert g. induction l as [|[[s t] e] l IH]; intros g; [done|]. cbn [foldl].
  by rewrite IH, edge_weight_or_add.
Qed.

(** Folding the weights of an edge, each entry of which has the same weight *)
Lemma or_weight_fold_edges (l : list (LogFilterNode * LogFilterNode * bool)) a b w v :
  (∀ s t e, (s, t, e) ∈ l → same_edge a b s t → e = v) →
  foldl (λ w '(s, t, e), or_weight w (if decide (same_edge a b s t) then Some e else None)) w l =
  or_weight w (if existsb (λ '(s, t, _), bool_decide (same_edge a b s t)) l then Some v else None).
Proof.
  revert w. induction l as [|[[s t] e] l IH]; intros w Hv; [by rewrite or_weight_None_r|]. cbn [foldl existsb].
  rewrite IH by (intros; eapply Hv; [by right|done]). rewrite <- or_weight_assoc. f_equal.
  destruct (decide (same_edge a b s t)) as [E|E].
  - rewrite bool_decide_eq_true_2 by done. rewrite (Hv s t e) by (done || by left).
    cbn. destruct (existsb _ l); cbn; [by rewrite orb_diag|done].
  - by rewrite bool_decide_eq_false_2.
Qed.

Lemma edge_weight_extend other g a b :
  edge_weight a b (foldl (λ g '(s, t, e), or_add_edge s t e g) g (all_edges other)) =
  or_weight (edge_weight a b g) (edge_weight a b other).
Proof.
  rewrite edge_weight_or_add_all.
  rewrite (or_weight_fold_edges _ a b _ (default false (edge_weight a b other))).
  2:{ intros s t e Hin E. apply all_edges_weight in Hin. by rewrite (edge_weight_same a b s t other E), Hin. }
  f_equal. destruct (existsb _ _) eqn:Ex.
  - apply existsb_exists in Ex as ([[s t] e] & Hin & E). apply bool_decide_eq_true in E.
    apply list_elem_of_In, all_edges_weight in Hin. by rewrite (edge_weight_same a b s t other E), Hin.
  - destruct (edge_weight a b other) as [v|] eqn:E; [|done]. exfalso.
    apply not_true_iff_false in Ex. apply Ex, existsb_exists.
    destruct (all_edges_complete a b v other E) as [Hin|Hin]; eexists; (split; [by apply list_elem_of_In|]);
      apply bool_decide_eq_true; unfold same_edge; auto.
Qed.

Lemma edge_count_zero g : edge_count g = 0%nat → ∀ a b, edge_weight a b g = None.
Proof.
  rewrite edge_count_all. intros Hl a b. apply nil_length_inv in Hl.
  destruct (edge_weight a b g) as [v|] eqn:E; [|done].
  destruct (all_edges_complete a b v g E) as [Hin|Hin]; rewrite Hl in Hin; by apply elem_of_nil in Hin.
Qed.

Lemma edge_count_pos g : edge_count g ≠ 0%nat → ∃ a b, is_Some (edge_weight a b g).
Proof.
  rewrite edge_count_all. destruct (all_edges g) as [|[[a b] w] l] eqn:E; [done|]. intros _. exists a, b, w.
  apply all_edges_weight. rewrite E. by left.
Qed.

End Graphs.

(** ** What the log filter contains *)

(** What a handler asks for *)
Inductive LogKey :=
| KeyEdge (address : Address) (signature : B256)
| KeyWildcard (signature : B256)
| KeyTopics (event : EventSignatureWithTopics).

#[global] Instance LogKey_eq_dec : EqDecision LogKey.
Proof. solve_decision. Defined.

Definition key_matches (k : LogKey) (log : Log) : bool :=
  match log_topics log with
  | [] => false
  | sig :: _ =>
      match k with
      | KeyEdge a s => bool_decide (a = log_address log) && bool_decide (s = sig)
      | KeyWildcard s => bool_decide (s = sig)
      | KeyTopics e => event_signature_matches (Some (log_address log)) sig (log_topics log) e
      end
  end.

Section LogKeys.
Context `{GraphMapSpec LogFilterNode} `{Keccak} `{DeclaredCalls}.
Implicit Types (f : EthereumLogFilter) (h : MappingEventHandler).

Definition weight (k : LogKey) f : option bool :=
  match k with
  | KeyEdge a s => edge a s (contracts_and_events_graph f)
  | KeyWildcard s => wildcard_events f !! s
  | KeyTopics e => events_with_topic_filters f !! e
  end.

Definition log_filter_wf f : Prop := bipartite (contracts_and_events_graph f).

Definition key_of (address : option Address) h : LogKey :=
  match address with
  | Some a => if has_additional_topics h then KeyTopics (with_topics (Some a) (topic0 h) h) else KeyEdge a (topic0 h)
  | None => if has_additional_topics h then KeyTopics (with_topics None (topic0 h) h) else KeyWildcard (topic0 h)
  end.

(** The handlers of data sources with the address that they are for *)
Definition asked (dss : list EthDataSource) : list (option Address * MappingEventHandler) :=
  dss ≫= λ ds, (eds_address ds,.) <$> event_handlers (mapping ds).

Lemma weight_default k : weight k log_filter_default = None.
Proof. destruct k; cbn; [apply edge_weight_new|apply lookup_empty..]. Qed.

Lemma weight_add a f h k :
  weight k (add_event_handler a f h) = or_weight (weight k f) (if decide (key_of a h = k) then Some (handler_receipt h) else None).
Proof.
  unfold add_event_handler, key_of.
  destruct a, (has_additional_topics h), k; cbn; rewrite ?lookup_or_insert, ?edge_or_add, ?or_weight_None_r; try done;
    f_equal; apply decide_ext; naive_solver.
Qed.

Lemma wf_add a f h : log_filter_wf f → log_filter_wf (add_event_handler a f h).
Proof.
  intros Hf. unfold log_filter_wf, add_event_handler. destruct a, (has_additional_topics h); try done.
  by apply bipartite_or_add.
Qed.

Lemma from_data_sources_asked dss :
  log_filter_from_data_sources dss = foldl (λ f ah, add_event_handler ah.1 f ah.2) log_filter_default (asked dss).
Proof.
  unfold log_filter_from_data_sources, asked. generalize log_filter_default.
  induction dss as [|ds dss IH]; intros f; [done|]. cbn. rewrite foldl_app, <- IH. f_equal.
  revert f. induction (event_handlers (mapping ds)) as [|h l IHl]; intros f; [done|]. cbn. apply IHl.
Qed.

Lemma wf_from_data_sources dss : log_filter_wf (log_filter_from_data_sources dss).
Proof.
  rewrite from_data_sources_asked. assert (log_filter_wf log_filter_default) as Hd by apply bipartite_new.
  revert Hd. generalize log_filter_default. induction (asked dss) as [|ah l IH]; intros f Hf; [done|].
  cbn. apply IH. by apply wf_add.
Qed.

Definition weight_asked (k : LogKey) (l : list (option Address * MappingEventHandler)) : option bool :=
  foldl (λ w ah, or_weight w (if decide (key_of ah.1 ah.2 = k) then Some (handler_receipt ah.2) else None)) None l.

Lemma weight_from_data_sources k dss : weight k (log_filter_from_data_sources dss) = weight_asked k (asked dss).
Proof.
  rewrite from_data_sources_asked. unfold weight_asked.
  generalize (weight_default k). generalize log_filter_default at 1 2. generalize (@None bool) at 1 3.
  induction (asked dss) as [|ah l IH]; intros w f Hw; [done|]. cbn. apply IH. by rewrite weight_add, Hw.
Qed.

Lemma weight_asked_snoc k l ah :
  weight_asked k (l ++ [ah]) = or_weight (weight_asked k l) (if decide (key_of ah.1 ah.2 = k) then Some (handler_receipt ah.2) else None).
Proof. unfold weight_asked. by rewrite foldl_app. Qed.

Lemma weight_asked_is_Some k l : is_Some (weight_asked k l) ↔ ∃ ah, ah ∈ l ∧ key_of ah.1 ah.2 = k.
Proof.
  induction l as [|ah l IH] using rev_ind; [cbn; split; [by intros [? ?]|set_solver]|].
  rewrite weight_asked_snoc, or_weight_is_Some, IH. setoid_rewrite elem_of_app. setoid_rewrite list_elem_of_singleton.
  split.
  - intros [(ah' & ? & ?)|Hs]; [by exists ah'; auto|]. case_decide; [by exists ah; auto|by destruct Hs].
  - intros (ah' & [Hin| ->] & Hk); [left; by exists ah'|right; by rewrite decide_True].
Qed.

Lemma weight_asked_true k l : weight_asked k l = Some true ↔ ∃ ah, ah ∈ l ∧ key_of ah.1 ah.2 = k ∧ handler_receipt ah.2 = true.
Proof.
  induction l as [|ah l IH] using rev_ind; [cbn; split; [done|set_solver]|].
  rewrite weight_asked_snoc, or_weight_true, IH. setoid_rewrite elem_of_app. setoid_rewrite list_elem_of_singleton.
  split.
  - intros [(ah' & ? & ?)|Hs]; [by exists ah'; auto|]. case_decide; [|done]. injection Hs as Hs. by exists ah; auto.
  - intros (ah' & [Hin| ->] & Hk & Hr); [left; by exists ah'|right; by rewrite decide_True, Hr].
Qed.

(** ** Matching *)

Lemma log_filter_matches_keys log f :
  log_filter_matches log f = true ↔ ∃ k, is_Some (weight k f) ∧ key_matches k log = true.
Proof.
  unfold log_filter_matches, key_matches. destruct (log_topics log) as [|sig ts]; [naive_solver|].
  rewrite !orb_true_iff, existsb_exists. unfold contains_edge. rewrite !bool_decide_eq_true. split.
  - intros [[?|?]|([e v] & Hin%list_elem_of_In%elem_of_map_to_list & Hm)].
    + exists (KeyEdge (log_address log) sig). by rewrite !bool_decide_eq_true_2.
    + exists (KeyWildcard sig). by rewrite !bool_decide_eq_true_2.
    + exists (KeyTopics e). cbn. by rewrite Hin.
  - intros ([a s|s|e] & Hk & Hm); cbn in *.
    + apply andb_true_iff in Hm as [->%bool_decide_eq_true ->%bool_decide_eq_true]. auto.
    + apply bool_decide_eq_true in Hm as ->. auto.
    + right. destruct Hk as [v Hk]. exists (e, v). split; [by apply list_elem_of_In, elem_of_map_to_list|done].
Qed.

Lemma requires_receipt_keys log sig f :
  head (log_topics log) = Some sig →
  requires_transaction_receipt sig (Some (log_address log)) (log_topics log) f = true ↔
  ∃ k, weight k f = Some true ∧ key_matches k log = true.
Proof.
  intros Hs. unfold requires_transaction_receipt, key_matches. destruct (log_topics log) as [|sig' ts]; [done|].
  injection Hs as ->. case_bool_decide as Hw.
  { split; [intros _|done]. exists (KeyWildcard sig). by rewrite !bool_decide_eq_true_2. }
  destruct (existsb _ _) eqn:Ex.
  { apply existsb_exists in Ex as ([e v] & Hin%list_elem_of_In%elem_of_map_to_list & Hm). cbn in Hm.
    apply andb_true_iff in Hm as [-> Hm]. split; [intros _; by exists (KeyTopics e)|done]. }
  rewrite bool_decide_eq_true. split.
  - intros He. exists (KeyEdge (log_address log) sig). by rewrite !bool_decide_eq_true_2.
  - intros ([a s|s|e] & Hk & Hm); cbn in *.
    + apply andb_true_iff in Hm as [->%bool_decide_eq_true ->%bool_decide_eq_true]. done.
    + apply bool_decide_eq_true in Hm as ->. done.
    + exfalso. apply not_true_iff_false in Ex. apply Ex, existsb_exists. exists (e, true).
      split; [by apply list_elem_of_In, elem_of_map_to_list|]. done.
Qed.

(** A handler for the given address accepts a log *)
Definition accepts (address : option Address) (log : Log) h : bool :=
  match address with Some a => bool_decide (a = log_address log) | None => true end && event_handler_matches log h.

(** No list of topics of a handler is empty *)
Definition no_empty_topics h : Prop :=
  handler_topic1 h ≠ Some [] ∧ handler_topic2 h ≠ Some [] ∧ handler_topic3 h ≠ Some [].

Lemma no_topics h :
  has_additional_topics h = false → no_empty_topics h →
  handler_topic1 h = None ∧ handler_topic2 h = None ∧ handler_topic3 h = None.
Proof.
  unfold has_additional_topics, no_empty_topics.
  destruct (handler_topic1 h) as [[]|], (handler_topic2 h) as [[]|], (handler_topic3 h) as [[]|]; naive_solver.
Qed.

Lemma accepts_key a log h : accepts a log h = true → key_matches (key_of a h) log = true.
Proof.
  unfold accepts, event_handler_matches, key_matches, key_of. destruct (log_topics log) as [|sig ts]; [by rewrite andb_false_r|].
  rewrite !andb_true_iff, bool_decide_eq_true. intros (Ha & ((Hs & T1) & T2) & T3).
  destruct a as [a|], (has_additional_topics h); unfold event_signature_matches; cbn in *;
    rewrite ?T1, ?T2, ?T3, ?Hs, ?(bool_decide_eq_true_2 (sig = sig)) by done; cbn; try done.
  all: apply bool_decide_eq_true in Ha as ->; by rewrite bool_decide_eq_true_2.
Qed.

Lemma key_accepts a log h : no_empty_topics h → key_matches (key_of a h) log = true → accepts a log h = true.
Proof.
  intros Hne. unfold accepts, event_handler_matches, key_matches, key_of. destruct (log_topics log) as [|sig ts] eqn:E; [done|].
  destruct (has_additional_topics h) eqn:Ht; [|pose proof (no_topics h Ht Hne) as (H1' & H2' & H3')];
    destruct a as [a|]; unfold event_signature_matches; cbn; rewrite ?H1', ?H2', ?H3'; cbn;
    rewrite ?andb_true_iff, ?bool_decide_eq_true; naive_solver.
Qed.

End LogKeys.

(** ** Merging log filters *)

Section LogFilterExtend.
Context `{GraphMapSpec LogFilterNode} `{Keccak} `{DeclaredCalls}.
Implicit Types f : EthereumLogFilter.

Lemma log_filter_empty_weight f : log_filter_is_empty f = true → ∀ k, weight k f = None.
Proof.
  unfold log_filter_is_empty. rewrite !andb_true_iff, !bool_decide_eq_true. intros [[Hg Hw] Ht] [a s|s|e]; cbn.
  - by apply edge_count_zero.
  - by rewrite Hw.
  - by rewrite Ht.
Qed.

Lemma weight_extend other f k : weight k (log_filter_extend other f) = or_weight (weight k f) (weight k other).
Proof.
  unfold log_filter_extend. destruct (log_filter_is_empty other) eqn:E.
  - by rewrite (log_filter_empty_weight _ E), or_weight_None_r.
  - destruct k; cbn; rewrite ?lookup_or_insert_all; [|done..]. apply edge_weight_extend.
Qed.

Lemma wf_extend other f : log_filter_wf other → log_filter_wf f → log_filter_wf (log_filter_extend other f).
Proof.
  intros Ho Hf. unfold log_filter_extend. destruct (log_filter_is_empty other); [done|].
  intros x y. cbn. rewrite edge_weight_extend, or_weight_is_Some. intros [?|?]; [by apply Hf|by apply Ho].
Qed.

Lemma log_filter_empty_spec f : log_filter_wf f → log_filter_is_empty f = true ↔ ∀ k, weight k f = None.
Proof.
  intros Hf. split; [apply log_filter_empty_weight|]. intros Hw. unfold log_filter_is_empty.
  rewrite !andb_true_iff, !bool_decide_eq_true. split; [split|].
  - destruct (decide (edge_count (contracts_and_events_graph f) = 0%nat)) as [|(x & y & Hxy)%edge_count_pos]; [done|].
    exfalso. destruct (Hf _ _ Hxy) as [(a & s & -> & ->)|(a & s & -> & ->)].
    + specialize (Hw (KeyEdge a s)). cbn in Hw. unfold edge in Hw. rewrite Hw in Hxy. by destruct Hxy.
    + specialize (Hw (KeyEdge a s)). cbn in Hw. unfold edge in Hw. rewrite edge_weight_sym, Hw in Hxy. by destruct Hxy.
  - apply map_empty. intros s. apply (Hw (KeyWildcard s)).
  - apply map_empty. intros e. apply (Hw (KeyTopics e)).
Qed.

End LogFilterExtend.

(** ** Covering the log filter with requests *)

(** The logs that [eth_getLogs] returns for a filter object, by address and
    topics: an empty list stands for any address, or any topic. *)
Definition topic_selects (topics : list B256) (i : nat) (allowed : list B256) : bool :=
  match allowed with
  | [] => true
  | _ => match topics !! i with Some t => bool_decide (t ∈ allowed) | None => false end
  end.

Definition topics_select (topics : list B256) (asked : list (list B256)) : bool :=
  forallb id (imap (topic_selects topics) asked).

Definition selects (f : Filter) (log : Log) : bool :=
  (bool_decide (filter_address f = []) || bool_decide (log_address log ∈ filter_address f)) &&
  topics_select (log_topics log) (filter_topics f).

Section GetLogs.
Context `{GraphMapSpec LogFilterNode} (max : nat) (max_pos : (0 < max)%nat).
Implicit Types (g : Graph LogFilterNode) (f : EthGetLogsFilter).

(** A filter for pairs of a contract and an event *)
Definition pairs f : Prop :=
  contracts f ≠ [] ∧ event_signatures f ≠ [] ∧ (length (contracts f) = 1%nat ∨ length (event_signatures f) = 1%nat) ∧
  (length (contracts f) ≤ max)%nat ∧ gl_topic1 f = None ∧ gl_topic2 f = None ∧ gl_topic3 f = None.

Definition covers (fs : list EthGetLogsFilter) (a : Address) (s : B256) : Prop :=
  ∃ f, f ∈ fs ∧ a ∈ contracts f ∧ s ∈ event_signatures f.

Lemma push_filter_ok f fs : pairs f → push_filter f fs = Ok (fs ++ [f]).
Proof.
  intros (Hc & He & Hl & _). unfold push_filter. rewrite !bool_decide_eq_false_2 by done. cbn.
  by rewrite <- bool_decide_or, bool_decide_eq_true_2.
Qed.

Lemma covers_app fs gs a s : covers (fs ++ gs) a s ↔ covers fs a s ∨ covers gs a s.
Proof. unfold covers. setoid_rewrite elem_of_app. naive_solver. Qed.

Lemma covers_singleton f a s : covers [f] a s ↔ a ∈ contracts f ∧ s ∈ event_signatures f.
Proof. unfold covers. setoid_rewrite list_elem_of_singleton. naive_solver. Qed.

(** The neighbors of an event, in batches *)
Lemma add_contracts (e : B256) (l : list Address) cs fs :
  (length cs ≤ max)%nat → cs ≠ [] ∨ l ≠ [] →
  ∃ cs' new, add_neighbors max (Contract <$> l) (mkGetLogs cs [e] None None None) fs = Ok (mkGetLogs cs' [e] None None None, fs ++ new) ∧
    Forall pairs new ∧ cs' ≠ [] ∧ (length cs' ≤ max)%nat ∧
    ∀ a s, covers (new ++ [mkGetLogs cs' [e] None None None]) a s ↔ s = e ∧ (a ∈ cs ∨ a ∈ l).
Proof.
  revert cs fs. induction l as [|a l IH]; intros cs fs Hcs Hne.
  { exists cs, []. rewrite app_nil_r. destruct Hne as [Hne|]; [|done]. split_and!; try done. intros a s.
    cbn. rewrite covers_singleton. cbn. set_solver. }
  rewrite fmap_cons. cbn [add_neighbors contracts]. case_bool_decide as Hm.
  - assert (pairs (mkGetLogs cs [e] None None None)) as Hp.
    { unfold pairs; cbn. destruct cs; cbn in *; [lia|]. by split_and!; try lia; auto. }
    csimpl. rewrite push_filter_ok by done. csimpl.
    destruct (IH [a] (fs ++ [mkGetLogs cs [e] None None None])) as (cs' & new & Hr & Hall & Hne' & Hl & Hcov);
      [cbn; lia|by left|].
    exists cs', (mkGetLogs cs [e] None None None :: new). change (push_contract a (from_event e)) with (mkGetLogs [a] [e] None None None).
    rewrite Hr, <- app_assoc. split_and!; try done; [by constructor|].
    intros x s. change (mkGetLogs cs [e] None None None :: new) with ([mkGetLogs cs [e] None None None] ++ new).
    rewrite <- app_assoc, covers_app, Hcov, covers_singleton. cbn. set_solver.
  - unfold push_contract; csimpl. destruct (IH (cs ++ [a]) fs) as (cs' & new & Hr & Hall & Hne' & Hl & Hcov).
    + rewrite length_app. cbn. lia.
    + left. by destruct cs.
    + exists cs', new. split_and!; try done. intros x s. rewrite Hcov. set_solver.
Qed.

(** The neighbors of a contract *)
Lemma add_events (a : Address) (l : list B256) es fs :
  add_neighbors max (Event <$> l) (mkGetLogs [a] es None None None) fs = Ok (mkGetLogs [a] (es ++ l) None None None, fs).
Proof.
  revert es. induction l as [|e l IH]; intros es; cbn; [by rewrite app_nil_r|].
  unfold push_event; cbn. by rewrite IH, <- app_assoc.
Qed.

Lemma max_by_key_spec {A} (key : A → nat) l : l ≠ [] → ∃ x, max_by_key key l = Some x ∧ ∀ y, y ∈ l → (key y ≤ key x)%nat.
Proof.
  induction l as [|x l IH]; [done|]. intros _. cbn [max_by_key]. destruct (decide (l = [])) as [->|Hne].
  { exists x. split; [done|]. intros y ->%list_elem_of_singleton. lia. }
  destruct IH as (y & -> & Hy); [done|]. destruct (Nat.ltb_spec (key y) (key x)).
  - exists x. split; [done|]. intros z [->|Hz]%elem_of_cons; [lia|]. specialize (Hy z Hz). lia.
  - exists y. split; [done|]. intros z [->|Hz]%elem_of_cons; [lia|auto].
Qed.

Lemma neighbors_contract g a : bipartite g → ∃ l, neighbors (Contract a) g = Event <$> l ∧ ∀ s, s ∈ l ↔ is_Some (edge a s g).
Proof.
  intros Hb. assert (∀ n, n ∈ neighbors (Contract a) g → ∃ s, n = Event s) as Hn.
  { intros n Hin%elem_of_neighbors. destruct (Hb _ _ Hin) as [(?&?&?&?)|(?&?&?&?)]; naive_solver. }
  assert (∃ l, neighbors (Contract a) g = Event <$> l) as [l Hl].
  { induction (neighbors (Contract a) g) as [|n ns IH]; [by exists []|].
    destruct IH as [l ->]; [intros; apply Hn; by right|]. destruct (Hn n) as [s ->]; [by left|]. by exists (s :: l). }
  exists l. split; [done|]. intros s. unfold edge. rewrite <- elem_of_neighbors, Hl, list_elem_of_fmap. naive_solver.
Qed.

Lemma neighbors_event g s : bipartite g → ∃ l, neighbors (Event s) g = Contract <$> l ∧ ∀ a, a ∈ l ↔ is_Some (edge a s g).
Proof.
  intros Hb. assert (∀ n, n ∈ neighbors (Event s) g → ∃ a, n = Contract a) as Hn.
  { intros n Hin%elem_of_neighbors. destruct (Hb _ _ Hin) as [(?&?&?&?)|(?&?&?&?)]; naive_solver. }
  assert (∃ l, neighbors (Event s) g = Contract <$> l) as [l Hl].
  { induction (neighbors (Event s) g) as [|n ns IH]; [by exists []|].
    destruct IH as [l ->]; [intros; apply Hn; by right|]. destruct (Hn n) as [a ->]; [by left|]. by exists (a :: l). }
  exists l. split; [done|]. intros a. unfold edge. rewrite edge_weight_sym, <- elem_of_neighbors, Hl, list_elem_of_fmap. naive_solver.
Qed.

(** One iteration: the edges of a vertex become filters *)
Lemma cover_vertex g v fs :
  bipartite g → neighbors v g ≠ [] →
  ∃ f new, add_neighbors max (neighbors v g) (match v with Contract a => from_contract a | Event s => from_event s end) fs = Ok (f, fs ++ new) ∧
    Forall pairs (new ++ [f]) ∧
    ∀ a s, covers (new ++ [f]) a s ↔ (v = Contract a ∨ v = Event s) ∧ is_Some (edge a s g).
Proof.
  intros Hb Hne. destruct v as [c|e].
  - destruct (neighbors_contract g c Hb) as (l & Hl & Hin). rewrite Hl in *. unfold from_contract. rewrite add_events.
    exists (mkGetLogs [c] l None None None), []. rewrite app_nil_r. split; [done|]. split.
    + apply Forall_singleton. unfold pairs. cbn. split_and!; try done; [by intros ->|lia].
    + intros a s. cbn. rewrite covers_singleton. cbn. rewrite list_elem_of_singleton. split.
      * intros [-> ?]. split; [by left|by apply Hin].
      * intros [[[= ->]|?] ?]; [split; [done|by apply Hin]|done].
  - destruct (neighbors_event g e Hb) as (l & Hl & Hin). rewrite Hl in *.
    destruct (add_contracts e l [] fs) as (cs & new & Hr & Hall & Hcs & Hlen & Hcov); [cbn; lia|right; by intros ->|].
    exists (mkGetLogs cs [e] None None None), new. split; [done|]. split.
    + apply Forall_app. split; [done|]. apply Forall_singleton. unfold pairs. cbn. auto 10.
    + intros a s. rewrite Hcov. split.
      * intros [-> [?%elem_of_nil|?]]; [done|]. split; [by right|by apply Hin].
      * intros [[?|[= ->]] ?]; [done|]. split; [done|]. right. by apply Hin.
Qed.

Lemma bipartite_remove g v : bipartite g → bipartite (remove_node v g).
Proof.
  intros Hb x y. destruct (decide (x = v ∨ y = v)) as [Hv|Hv].
  - rewrite edge_weight_remove by done. by intros [? ?].
  - rewrite edge_weight_remove_ne by tauto. apply Hb.
Qed.

(** The loop ends without a panic and covers exactly the edges. *)
Lemma cover_edges_spec fuel g fs :
  (edge_count g ≤ fuel)%nat → bipartite g →
  ∃ new, cover_edges fuel max g fs = Ok (fs ++ new) ∧ Forall pairs new ∧ ∀ a s, covers new a s ↔ is_Some (edge a s g).
Proof.
  revert g fs. induction fuel as [|fuel IH]; intros g fs Hfuel Hb; cbn [cover_edges]; case_bool_decide as Hz.
  1,3: (exists []; rewrite app_nil_r; split; [done|]; split; [constructor|]; intros a s; unfold edge;
    rewrite (edge_count_zero g Hz); split; [intros (?&?%elem_of_nil&_); done|by intros [? ?]]).
  { lia. }
  destruct (edge_count_pos g Hz) as (x & y & Hxy). pose proof (elem_of_nodes x y g Hxy) as Hx.
  destruct (max_by_key_spec (λ n, length (neighbors n g)) (nodes g)) as (v & Hv & Hmax); [by intros E; rewrite E in Hx; apply elem_of_nil in Hx|].
  assert (neighbors v g ≠ []) as Hne.
  { specialize (Hmax x Hx). apply elem_of_neighbors in Hxy. destruct (neighbors x g); [by apply elem_of_nil in Hxy|].
    by destruct (neighbors v g); cbn in Hmax; [lia|]. }
  rewrite Hv. cbn. destruct (cover_vertex g v fs Hb Hne) as (f & new & Hr & Hall & Hcov). rewrite Hr. cbn.
  pose proof Hall as [_ Hf]%Forall_app. rewrite Forall_singleton in Hf.
  rewrite (push_filter_ok f) by done. cbn.
  pose proof (edge_count_remove v g (bipartite_no_loop g v Hb)) as Hcount.
  destruct (IH (remove_node v g) ((fs ++ new) ++ [f])) as (new' & Hr' & Hall' & Hcov').
  { destruct (neighbors v g); [done|]. cbn in Hcount. lia. }
  { by apply bipartite_remove. }
  exists ((new ++ [f]) ++ new'). rewrite Hr', !app_assoc. split; [done|]. split; [by apply Forall_app|].
  intros a s. rewrite covers_app, Hcov, Hcov'. unfold edge.
  destruct (decide (Contract a = v ∨ Event s = v)) as [E|E].
  - rewrite edge_weight_remove by done. split; [by intros [[_ ?]|[? ?]]|]. intros ?. left. split; [naive_solver|done].
  - rewrite edge_weight_remove_ne by tauto. naive_solver.
Qed.

End GetLogs.

(** ** What the requests select *)

Section Selecting.
Context `{GraphMapSpec LogFilterNode} `{Keccak} `{DeclaredCalls}.
Context (from to : BlockNumber).

(** A request selects a log *)
Definition asks_for (log : Log) (g : EthGetLogsFilter) : bool := selects (to_alloy_filter from to g) log.

Lemma asks_for_unfold log g :
  asks_for log g =
  (bool_decide (contracts g = []) || bool_decide (log_address log ∈ contracts g)) &&
  (topic_selects (log_topics log) 0 (event_signatures g) &&
   (topic_selects (log_topics log) 1 (default [] (gl_topic1 g)) &&
    (topic_selects (log_topics log) 2 (default [] (gl_topic2 g)) &&
     (topic_selects (log_topics log) 3 (default [] (gl_topic3 g)) && true)))).
Proof. done. Qed.

(** A topic that is asked for and, where the list is not empty, conversely *)
Lemma asked_topic topics i (o : option (list B256)) : matches_topic topics i o = true → topic_selects topics i (default [] o) = true.
Proof. by destruct o as [[]|]. Qed.

Lemma asked_topic_inv topics i (o : option (list B256)) :
  o ≠ Some [] → topic_selects topics i (default [] o) = true → matches_topic topics i o = true.
Proof. by destruct o as [[]|]. Qed.

Definition topics_not_empty (e : EventSignatureWithTopics) : Prop :=
  es_topic1 e ≠ Some [] ∧ es_topic2 e ≠ Some [] ∧ es_topic3 e ≠ Some [].

Lemma asks_for_event log s : asks_for log (from_event s) = key_matches (KeyWildcard s) log.
Proof.
  rewrite asks_for_unfold. unfold key_matches. cbn. rewrite !andb_true_r. destruct (log_topics log) as [|t ts]; [done|].
  cbn. apply bool_decide_ext. rewrite list_elem_of_singleton. naive_solver.
Qed.

Lemma asks_for_topics log e : key_matches (KeyTopics e) log = true → asks_for log (from_event_with_topics e) = true.
Proof.
  rewrite asks_for_unfold. unfold key_matches, event_signature_matches.
  destruct (log_topics log) as [|t ts] eqn:E; [done|]. rewrite <- E, !andb_true_iff.
  intros ((((Ha & Hs) & T1) & T2) & T3). apply bool_decide_eq_true in Hs as <-.
  split; [|split; [|split; [|split; [|split]]]]; [|by cbn; rewrite E; cbn; rewrite bool_decide_eq_true_2 by set_solver|by apply asked_topic..|done].
  cbn. destruct (es_address e); [|done]. apply bool_decide_eq_true in Ha as [= ->]. apply orb_true_iff. right.
  apply bool_decide_eq_true. set_solver.
Qed.

Lemma asks_for_topics_inv log e :
  topics_not_empty e → asks_for log (from_event_with_topics e) = true → key_matches (KeyTopics e) log = true.
Proof.
  intros (Hn1 & Hn2 & Hn3). rewrite asks_for_unfold. unfold key_matches, event_signature_matches. cbn [from_event_with_topics event_signatures].
  rewrite !andb_true_iff. intros (Ha & Hs & T1 & T2 & T3 & _).
  destruct (log_topics log) as [|t ts] eqn:E; [done|]. rewrite <- E in *. rewrite !andb_true_iff.
  split_and!; [|by rewrite E in Hs; cbn in Hs; apply bool_decide_eq_true, list_elem_of_singleton in Hs as ->; rewrite bool_decide_eq_true_2|by apply asked_topic_inv..].
  cbn in Ha. destruct (es_address e) as [a|]; [|done]. cbn in Ha. apply bool_decide_eq_true in Ha.
  apply list_elem_of_singleton in Ha as ->. by rewrite bool_decide_eq_true_2.
Qed.

Lemma asks_for_pairs max log g :
  pairs max g → asks_for log g = true ↔ ∃ sig, head (log_topics log) = Some sig ∧ log_address log ∈ contracts g ∧ sig ∈ event_signatures g.
Proof.
  intros (Hc & He & _ & _ & T1 & T2 & T3). rewrite asks_for_unfold, T1, T2, T3. cbn. rewrite !andb_true_r.
  rewrite bool_decide_eq_false_2 by done. cbn. rewrite andb_true_iff, bool_decide_eq_true.
  destruct (event_signatures g) as [|s l]; [done|]. destruct (log_topics log) as [|t ts]; cbn; [naive_solver|].
  rewrite bool_decide_eq_true. naive_solver.
Qed.

(** The requests for a log filter *)
Lemma get_logs_filters_spec max f :
  (0 < max)%nat → log_filter_wf f →
  ∃ new, eth_get_logs_filters max f =
      Ok ((((λ e, from_event e.1) <$> map_to_list (wildcard_events f)) ++
           ((λ e, from_event_with_topics e.1) <$> map_to_list (events_with_topic_filters f))) ++ new) ∧
    Forall (pairs max) new ∧ ∀ a s, covers new a s ↔ is_Some (edge a s (contracts_and_events_graph f)).
Proof. intros Hm Hf. unfold eth_get_logs_filters. by apply cover_edges_spec. Qed.

Lemma covers_asks max log new g :
  Forall (pairs max) new → (∀ a s, covers new a s ↔ is_Some (edge a s g)) →
  (∃ f, f ∈ new ∧ asks_for log f = true) ↔ ∃ a s, is_Some (edge a s g) ∧ key_matches (KeyEdge a s) log = true.
Proof.
  intros Hall Hcov. setoid_rewrite <- Hcov. rewrite Forall_forall in Hall. unfold key_matches. split.
  - intros (f & Hf & Hs). apply (asks_for_pairs max) in Hs as (sig & Hh & Ha & Hsig); [|by apply Hall].
    exists (log_address log), sig. split; [by exists f|]. destruct (log_topics log); [done|]. injection Hh as ->.
    by rewrite !bool_decide_eq_true_2.
  - intros (a & s & (f & Hf & Ha & Hs) & Hk). exists f. split; [done|]. apply (asks_for_pairs max); [by apply Hall|].
    destruct (log_topics log) as [|t ts]; [done|]. apply andb_true_iff in Hk as [->%bool_decide_eq_true ->%bool_decide_eq_true].
    by exists t.
Qed.

Lemma get_logs_complete max f :
  (0 < max)%nat → log_filter_wf f →
  ∃ fs, eth_get_logs_filters max f = Ok fs ∧ ∀ log, log_filter_matches log f = true → ∃ g, g ∈ fs ∧ asks_for log g = true.
Proof.
  intros Hm Hf. destruct (get_logs_filters_spec max f Hm Hf) as (new & Hr & Hall & Hcov). eexists. split; [exact Hr|].
  intros log (k & Hk & Hm')%log_filter_matches_keys. setoid_rewrite elem_of_app. setoid_rewrite elem_of_app.
  setoid_rewrite list_elem_of_fmap. destruct k as [a s|s|e]; cbn in Hk.
  - destruct (proj2 (covers_asks max log new _ Hall Hcov)) as (g & Hg & Hs); [by exists a, s|]. exists g. auto.
  - destruct Hk as [v Hk]. exists (from_event s). rewrite asks_for_event. split; [|done]. left. left.
    exists (s, v). split; [done|by apply elem_of_map_to_list].
  - destruct Hk as [v Hk]. exists (from_event_with_topics e). split; [|by apply asks_for_topics]. left. right.
    exists (e, v). split; [done|by apply elem_of_map_to_list].
Qed.

(** C20: the [eth_getLogs] requests into which a log filter is split are found
    without running into one of the assertions, have at most the given number
    of contracts each, and select every log that the filter matches; when no
    list of topics is empty they select no other log. *)
Theorem eth_get_logs_filters_exact max f :
  (0 < max)%nat → log_filter_wf f →
  ∃ fs, eth_get_logs_filters max f = Ok fs ∧
    (∀ g, g ∈ fs → (length (contracts g) ≤ max)%nat) ∧
    (∀ log, log_filter_matches log f = true → ∃ g, g ∈ fs ∧ asks_for log g = true) ∧
    ((∀ e, is_Some (events_with_topic_filters f !! e) → topics_not_empty e) →
     ∀ log g, g ∈ fs → asks_for log g = true → log_filter_matches log f = true).
Proof.
  intros Hm Hf. destruct (get_logs_complete max f Hm Hf) as (fs & Hfs & Hcomp). exists fs. split; [done|].
  destruct (get_logs_filters_spec max f Hm Hf) as (new & Hr & Hall & Hcov). rewrite Hr in Hfs. injection Hfs as <-.
  split; [|split; [done|]].
  - intros g. rewrite !elem_of_app, !list_elem_of_fmap. intros [[(e & -> & _)|(e & -> & _)]|Hg]; [cbn; lia| |].
    + cbn. destruct (es_address e.1); cbn; lia.
    + rewrite Forall_forall in Hall. by apply Hall in Hg as (_ & _ & _ & ? & _).
  - intros Hne log g Hg Hs. apply log_filter_matches_keys. revert Hg.
    rewrite !elem_of_app, !list_elem_of_fmap. intros [[([s v] & -> & Hin%elem_of_map_to_list)|([e v] & -> & Hin%elem_of_map_to_list)]|Hg].
    + exists (KeyWildcard s). cbn. rewrite Hin. by rewrite asks_for_event in Hs.
    + exists (KeyTopics e). cbn. rewrite Hin. split; [done|]. apply asks_for_topics_inv; [apply Hne; by rewrite Hin|done].
    + destruct (proj1 (covers_asks max log new _ Hall Hcov)) as (a & s & He & Hk); [by exists g|]. by exists (KeyEdge a s).
Qed.

Lemma elem_of_asked dss a h : (a, h) ∈ asked dss ↔ ∃ ds, ds ∈ dss ∧ a = eds_address ds ∧ h ∈ event_handlers (mapping ds).
Proof.
  unfold asked. rewrite list_elem_of_bind. setoid_rewrite list_elem_of_fmap. naive_solver.
Qed.

Lemma asked_accepts dss log (P : MappingEventHandler → Prop) :
  (∀ ds h, ds ∈ dss → h ∈ event_handlers (mapping ds) → no_empty_topics h) →
  (∃ ah, ah ∈ asked dss ∧ key_matches (key_of ah.1 ah.2) log = true ∧ P ah.2) ↔
  ∃ ds h, ds ∈ dss ∧ h ∈ handlers_for_log log ds ∧ (eds_address ds = None ∨ eds_address ds = Some (log_address log)) ∧ P h.
Proof.
  intros Hne. unfold handlers_for_log. setoid_rewrite list_elem_of_filter. split.
  - intros ([a h] & (ds & Hds & -> & Hh)%elem_of_asked & Hk & HP). exists ds, h.
    apply key_accepts in Hk; [|by eapply Hne]. unfold accepts in Hk. apply andb_true_iff in Hk as [Ha Hm].
    split_and!; try done. cbn in Ha. destruct (eds_address ds); [right|by left]. apply bool_decide_eq_true in Ha. by subst.
  - intros (ds & h & Hds & [Hm Hh] & Ha & HP). exists (eds_address ds, h). split; [apply elem_of_asked; by exists ds|].
    split; [|done]. apply accepts_key. unfold accepts. cbn. rewrite Hm.
    destruct Ha as [-> | ->]; [done|by rewrite bool_decide_eq_true_2].
Qed.

(** The log filter of data sources matches exactly the logs for which one
    of the data sources has a handler, and requires the receipt of a log
    exactly when one of these handlers asks for receipts. *)
Theorem log_filter_exact dss log :
  (∀ ds h, ds ∈ dss → h ∈ event_handlers (mapping ds) → no_empty_topics h) →
  (log_filter_matches log (log_filter_from_data_sources dss) = true ↔
   ∃ ds h, ds ∈ dss ∧ h ∈ handlers_for_log log ds ∧ (eds_address ds = None ∨ eds_address ds = Some (log_address log))) ∧
  (∀ sig, head (log_topics log) = Some sig →
   requires_transaction_receipt sig (Some (log_address log)) (log_topics log) (log_filter_from_data_sources dss) = true ↔
   ∃ ds h, ds ∈ dss ∧ h ∈ handlers_for_log log ds ∧ (eds_address ds = None ∨ eds_address ds = Some (log_address log)) ∧
     handler_receipt h = true).
Proof.
  intros Hne. split.
  - rewrite log_filter_matches_keys. setoid_rewrite weight_from_data_sources. setoid_rewrite weight_asked_is_Some.
    trans (∃ ah, ah ∈ asked dss ∧ key_matches (key_of ah.1 ah.2) log = true ∧ True); [naive_solver|].
    rewrite (asked_accepts dss log (λ _, True) Hne). naive_solver.
  - intros sig Hs. rewrite requires_receipt_keys by done. setoid_rewrite weight_from_data_sources. setoid_rewrite weight_asked_true.
    rewrite <- (asked_accepts dss log (λ h, handler_receipt h = true) Hne). naive_solver.
Qed.

End Selecting.
