(* ===== verification/EthCallFacts.v ===== *)
(** * Facts about the call and block filters

    What the filters of calls and blocks contain after they were made from data
    sources and merged: for every contract the first block at which it is of
    interest and the functions, and for block handlers the intervals, the
    contracts and whether every block is of interest. *)

From Stdlib Require Import ZArith Lia ZifyBool.
From stdpp Require Import base gmap list strings fin_maps.
From S2P Require Import Prelude Values Write DataSource EthData EthFilter.

Local Open Scope Z_scope.

Abbreviation Entry := (BlockNumber * gset FunctionSelector)%type.

Lemma exists_snoc {A} (P : A → Prop) l a : (∃ x, x ∈ l ++ [a] ∧ P x) ↔ (∃ x, x ∈ l ∧ P x) ∨ P a.
Proof.
  setoid_rewrite elem_of_app. setoid_rewrite list_elem_of_singleton. split; [intros (x & [?| ->] & ?); eauto|].
  intros [(x & ? & ?)|?]; eauto.
Qed.

(** ** Merging *)

Definition merge_entry (a b : option Entry) : option Entry :=
  match a, b with
  | Some (n, s), Some (n', s') => Some (Z.min n n', s ∪ s')
  | Some e, None => Some e
  | None, b => b
  end.

Lemma merge_entry_None_r a : merge_entry a None = a.
Proof. by destruct a as [[]|]. Qed.

Lemma lookup_extend_entry m a e b :
  extend_entry m (a, e) !! b = merge_entry (m !! b) (if decide (a = b) then Some e else None).
Proof.
  destruct e as [n s]. unfold extend_entry. destruct (decide (a = b)) as [->|Hne].
  - destruct (m !! b) as [[n' s']|]; rewrite lookup_insert_eq; cbn; [|done]. by rewrite Z.min_comm.
  - destruct (m !! a) as [[n' s']|]; by rewrite lookup_insert_ne, merge_entry_None_r.
Qed.

Lemma lookup_extend_entries (l : list (Address * Entry)) m b :
  NoDup l.*1 →
  foldl extend_entry m l !! b = merge_entry (m !! b) ((list_to_map l : gmap Address Entry) !! b).
Proof.
  revert m. induction l as [|[a e] l IH]; intros m Hn; [by cbn; rewrite lookup_empty, merge_entry_None_r|].
  apply NoDup_cons in Hn as [Ha Hn]. cbn [foldl]. rewrite IH, list_to_map_cons by done.
  rewrite lookup_extend_entry. destruct (decide (a = b)) as [->|Hne].
  - by rewrite (not_elem_of_list_to_map_1 l b), merge_entry_None_r, lookup_insert_eq by done.
  - by rewrite merge_entry_None_r, lookup_insert_ne.
Qed.

Lemma lookup_call_extend other f a :
  contract_addresses_function_signatures (call_filter_extend other f) !! a =
  merge_entry (contract_addresses_function_signatures f !! a) (contract_addresses_function_signatures other !! a).
Proof.
  unfold call_filter_extend. destruct (call_filter_is_empty other) eqn:E.
  - unfold call_filter_is_empty in E. apply andb_true_iff in E as [->%bool_decide_eq_true _].
    by rewrite lookup_empty, merge_entry_None_r.
  - cbn. rewrite lookup_extend_entries by apply NoDup_fst_map_to_list. by rewrite list_to_map_to_list.
Qed.

Lemma wildcards_call_extend other f :
  wildcard_signatures (call_filter_extend other f) = wildcard_signatures f ∪ wildcard_signatures other.
Proof.
  unfold call_filter_extend. destruct (call_filter_is_empty other) eqn:E; [|done].
  unfold call_filter_is_empty in E. apply andb_true_iff in E as [_ ->%bool_decide_eq_true]. set_solver.
Qed.

(** ** What the call filter asks for *)

(** The filter asks for the calls of a function of a contract from a block on *)
Definition call_asks (f : EthereumCallFilter) (a : Address) (n : BlockNumber) (sig : FunctionSelector) : Prop :=
  ∃ n' s, contract_addresses_function_signatures f !! a = Some (n', s) ∧ n' ≤ n ∧ sig ∈ s.

Lemma call_asks_extend_l other f a n sig : call_asks f a n sig → call_asks (call_filter_extend other f) a n sig.
Proof.
  intros (n' & s & Hl & Hn & Hs). unfold call_asks. rewrite lookup_call_extend, Hl.
  destruct (contract_addresses_function_signatures other !! a) as [[n'' s'']|]; cbn; [|by eauto].
  eexists _, _. split; [done|]. split; [lia|set_solver].
Qed.

Lemma call_asks_extend_r other f a n sig : call_asks other a n sig → call_asks (call_filter_extend other f) a n sig.
Proof.
  intros (n' & s & Hl & Hn & Hs). unfold call_asks. rewrite lookup_call_extend, Hl.
  destruct (contract_addresses_function_signatures f !! a) as [[n'' s'']|]; cbn; [|by eauto].
  eexists _, _. split; [done|]. split; [lia|set_solver].
Qed.

(** The entry of a contract after the triples were collected *)
Definition entry_of (l : list (BlockNumber * Address * FunctionSelector)) (a : Address) (o : option Entry) : Prop :=
  match o with
  | None => ∀ n sig, (n, a, sig) ∉ l
  | Some (n, s) => s ≠ ∅ ∧ (∀ n' sig, (n', a, sig) ∈ l → n ≤ n') ∧ ∀ sig, sig ∈ s ↔ ∃ n', (n', a, sig) ∈ l
  end.

Lemma entry_of_snoc l m a e :
  (∀ a, entry_of l a (m !! a)) → entry_of (l ++ [e]) a (add_signature m e !! a).
Proof.
  destruct e as [[n b] sig]. intros Hm. specialize (Hm a). unfold add_signature, entry_of in *.
  destruct (decide (b = a)) as [->|Hne]; [rewrite lookup_insert_eq|rewrite lookup_insert_ne by done].
  - destruct (m !! a) as [[n0 s0]|]; cbn in *.
    + destruct Hm as (Hs & Hn & Hin). split; [set_solver|]. split.
      * intros n' sig' [Hi|[= -> ->]%list_elem_of_singleton]%elem_of_app; case_bool_decide; try lia; specialize (Hn _ _ Hi); lia.
      * intros sig'. rewrite elem_of_union, Hin. setoid_rewrite elem_of_app. setoid_rewrite list_elem_of_singleton. set_solver.
    + split; [set_solver|]. split.
      * intros n' sig' [Hi|[= -> ->]%list_elem_of_singleton]%elem_of_app; [by apply Hm in Hi|]. case_bool_decide; lia.
      * intros sig'. rewrite elem_of_union. setoid_rewrite elem_of_app. setoid_rewrite list_elem_of_singleton.
        split; [set_solver|]. intros (n' & [Hi|[= -> ->]]); [by apply Hm in Hi|set_solver].
  - destruct (m !! a) as [[n0 s0]|].
    + destruct Hm as (Hs & Hn & Hin). split; [done|]. split; [intros n' sig' [?|[= ? ? ?]%list_elem_of_singleton]%elem_of_app; [by eapply Hn|done]|].
      intros sig'. rewrite Hin. setoid_rewrite elem_of_app. setoid_rewrite list_elem_of_singleton. set_solver.
    + intros n' sig'. rewrite elem_of_app, list_elem_of_singleton. intros [Hi|[= ? ? ?]]; [by apply Hm in Hi|done].
Qed.

Lemma from_iter_entry l a : entry_of l a (contract_addresses_function_signatures (call_filter_from_iter l) !! a).
Proof.
  cbn. revert a. induction l as [|e l IH] using rev_ind; intros a.
  - cbn. rewrite lookup_empty. intros n sig. apply not_elem_of_nil.
  - rewrite foldl_app. cbn [foldl]. by apply entry_of_snoc.
Qed.

Section CallFilterFacts.
Context `{Keccak} `{DeclaredCalls}.
Implicit Types ds : EthDataSource.

Lemma elem_of_entries dss n a sig :
  (n, a, sig) ∈ dss ≫= call_entries ↔
  ∃ ds h, ds ∈ dss ∧ eds_address ds = Some a ∧ start_block ds = n ∧ h ∈ call_handlers (mapping ds) ∧ method_id h = sig.
Proof.
  rewrite list_elem_of_bind. unfold call_entries. split.
  - intros (ds & Hin & Hds). destruct (eds_address ds) as [a'|] eqn:E; [|by apply elem_of_nil in Hin].
    apply list_elem_of_fmap in Hin as (h & [= -> -> ->] & Hh). by exists ds, h.
  - intros (ds & h & Hds & Ha & <- & Hh & <-). exists ds. rewrite Ha. split; [|done].
    apply list_elem_of_fmap. by exists h.
Qed.

Lemma call_asks_data_source dss ds h a :
  ds ∈ dss → eds_address ds = Some a → h ∈ call_handlers (mapping ds) →
  call_asks (call_filter_from_data_sources dss) a (start_block ds) (method_id h).
Proof.
  intros Hds Ha Hh. assert ((start_block ds, a, method_id h) ∈ dss ≫= call_entries) as Hin by (apply elem_of_entries; eauto 10).
  unfold call_asks, call_filter_from_data_sources. pose proof (from_iter_entry (dss ≫= call_entries) a) as Hm.
  destruct (_ !! a) as [[n s]|]; [|by apply Hm in Hin]. destruct Hm as (_ & Hn & Hs). exists n, s. split; [done|].
  split; [by eapply Hn|]. apply Hs. eauto.
Qed.

(** A call for which the filter asks is matched *)
Lemma call_asks_matches f call n :
  (4 ≤ length (call_input call))%nat → call_asks f (call_to call) n (take 4 (call_input call)) → call_filter_matches call f = true.
Proof.
  intros Hl (n' & s & Hf & _ & Hs). unfold call_filter_matches. destruct (Nat.ltb_spec (length (call_input call)) 4); [lia|].
  rewrite Hf. cbn. case_bool_decide; [done|]. by rewrite bool_decide_eq_true_2.
Qed.

(** The call filter of data sources matches exactly the calls with a
    function selector for which one of the data sources, being for the called
    contract, has a handler. *)
Theorem call_filter_exact dss call :
  call_filter_matches call (call_filter_from_data_sources dss) = true ↔
  (4 ≤ length (call_input call))%nat ∧
  ∃ ds h, ds ∈ dss ∧ eds_address ds = Some (call_to call) ∧ h ∈ call_handlers (mapping ds) ∧ method_id h = take 4 (call_input call).
Proof.
  split.
  - unfold call_filter_matches. destruct (Nat.ltb_spec (length (call_input call)) 4); [done|]. intros Hm. split; [lia|].
    pose proof (from_iter_entry (dss ≫= call_entries) (call_to call)) as He. unfold call_filter_from_data_sources in Hm.
    destruct (_ !! call_to call) as [[n s]|]; cbn in He, Hm.
    + destruct He as (Hne & _ & Hs). rewrite bool_decide_eq_false_2 in Hm by done.
      apply orb_true_iff in Hm as [Hm|Hm]; apply bool_decide_eq_true in Hm; [|set_solver].
      apply Hs in Hm as (n' & (ds & h & ? & ? & ? & ? & ?)%elem_of_entries). by exists ds, h.
    + apply bool_decide_eq_true in Hm. set_solver.
  - intros (Hl & ds & h & Hds & Ha & Hh & Hid). eapply call_asks_matches; [done|]. rewrite <- Hid. by eapply call_asks_data_source.
Qed.

End CallFilterFacts.

(** ** The block filter *)

(** Every contract is of interest from one block on *)
Definition unique_addresses (cs : gset (BlockNumber * Address)) : Prop :=
  ∀ n n' a, (n, a) ∈ cs → (n', a) ∈ cs → n = n'.

Definition address_from (cs : gset (BlockNumber * Address)) (n : BlockNumber) (a : Address) : Prop :=
  ∃ n', (n', a) ∈ cs ∧ n' ≤ n.

Lemma find_contract_address_Some a cs n b : find_contract_address a cs = Some (n, b) → b = a ∧ (n, a) ∈ cs.
Proof.
  unfold find_contract_address. intros ([i c] & (Hl & -> & _)%list_find_Some & Hc)%fmap_Some. cbn in *. subst c.
  split; [done|]. apply elem_of_elements. by eapply list_elem_of_lookup_2.
Qed.

Lemma find_contract_address_None a cs : find_contract_address a cs = None → ∀ n, (n, a) ∉ cs.
Proof.
  unfold find_contract_address. intros Hf%fmap_None n Hin. apply list_find_None in Hf. rewrite Forall_forall in Hf.
  by eapply (Hf (n, a)); [by apply elem_of_elements|].
Qed.

Lemma unique_extend_address cs e : unique_addresses cs → unique_addresses (extend_address cs e).
Proof.
  intros Hu. destruct e as [m b]. unfold extend_address. cbn [snd fst].
  destruct (find_contract_address b cs) as [[n b']|] eqn:E.
  - apply find_contract_address_Some in E as [-> Hin]. case_bool_decide; [|done]. intros x y a.
    rewrite !elem_of_union, !elem_of_difference, !elem_of_singleton. intros [Hx|[Hx Hx']] [Hy|[Hy Hy']]; simplify_eq; try done.
    + exfalso. apply Hy'. f_equal. by eapply Hu.
    + exfalso. apply Hx'. f_equal. by eapply Hu.
    + by eapply Hu.
  - pose proof (find_contract_address_None _ _ E) as Hn. intros x y a. rewrite !elem_of_union, !elem_of_singleton.
    intros [Hx|Hx] [Hy|Hy]; simplify_eq; try done; [by apply Hn in Hy|by apply Hn in Hx|by eapply Hu].
Qed.

Lemma address_from_extend cs e n a :
  unique_addresses cs → address_from (extend_address cs e) n a ↔ address_from cs n a ∨ (a = e.2 ∧ e.1 ≤ n).
Proof.
  intros Hu. destruct e as [m b]. unfold extend_address, address_from. cbn [snd fst].
  destruct (find_contract_address b cs) as [[k b']|] eqn:E.
  - apply find_contract_address_Some in E as [-> Hin]. case_bool_decide as Hlt.
    + setoid_rewrite elem_of_union. setoid_rewrite elem_of_difference. setoid_rewrite elem_of_singleton. split.
      * intros (n' & [[= -> ->]|[Hn _]] & Hle); [right; auto|left; eauto].
      * intros [(n' & Hn & Hle)|[-> Hle]]; [|exists m; auto].
        destruct (decide (a = b)) as [->|Hne]; [|exists n'; naive_solver].
        rewrite (Hu _ _ _ Hn Hin) in Hle. exists m. split; [by left|lia].
    + split; [by left|]. intros [?|[-> Hle]]; [done|]. exists k. split; [done|lia].
  - setoid_rewrite elem_of_union. setoid_rewrite elem_of_singleton. naive_solver.
Qed.

Lemma extend_addresses_spec l cs :
  unique_addresses cs →
  unique_addresses (foldl extend_address cs l) ∧
  ∀ n a, address_from (foldl extend_address cs l) n a ↔ address_from cs n a ∨ ∃ m, (m, a) ∈ l ∧ m ≤ n.
Proof.
  revert cs. induction l as [|[m b] l IH]; intros cs Hu.
  { split; [done|]. intros n a. cbn. split; [by left|]. intros [?|(m & ?%elem_of_nil & _)]; done. }
  cbn [foldl]. destruct (IH (extend_address cs (m, b))) as [Hu' Hf]; [by apply unique_extend_address|].
  split; [done|]. intros n a. rewrite Hf, address_from_extend by done. cbn. setoid_rewrite elem_of_cons. naive_solver.
Qed.

Definition block_filter_wf (f : EthereumBlockFilter) : Prop := unique_addresses (contract_addresses f).

Lemma block_filter_empty_spec f :
  block_filter_is_empty f = true ↔ trigger_every_block f = false ∧ contract_addresses f = ∅ ∧ polling_intervals f = ∅.
Proof.
  unfold block_filter_is_empty. rewrite !andb_true_iff, !bool_decide_eq_true, negb_true_iff. tauto.
Qed.

Lemma block_extend_spec other f :
  block_filter_wf f →
  block_filter_wf (block_filter_extend other f) ∧
  trigger_every_block (block_filter_extend other f) = trigger_every_block f || trigger_every_block other ∧
  polling_intervals (block_filter_extend other f) = polling_intervals f ∪ polling_intervals other ∧
  ∀ n a, address_from (contract_addresses (block_filter_extend other f)) n a ↔
    address_from (contract_addresses f) n a ∨ address_from (contract_addresses other) n a.
Proof.
  intros Hf. unfold block_filter_extend. destruct (block_filter_is_empty other) eqn:E.
  - apply block_filter_empty_spec in E as (-> & -> & ->). rewrite orb_false_r. split_and!; try done; [set_solver|].
    intros n a. unfold address_from at 3. set_solver.
  - destruct (extend_addresses_spec (elements (contract_addresses other)) (contract_addresses f) Hf) as [Hu Hs].
    split; [done|]. split; [done|]. split; [done|]. intros n a. cbn. rewrite Hs. unfold address_from.
    by setoid_rewrite elem_of_elements.
Qed.

Section BlockFilterFacts.
Context `{DeclaredCalls}.
Implicit Types ds : EthDataSource.

(** What the block handlers of a data source ask for *)
Definition every_block ds : Prop := ∃ h, h ∈ block_handlers (mapping ds) ∧ block_filter h = None.
Definition interval_of ds (i : BlockNumber * Z) : Prop := ∃ h, h ∈ block_handlers (mapping ds) ∧ polling_interval ds h = Some i.
Definition calls_to ds : Prop := ∃ h, h ∈ block_handlers (mapping ds) ∧ block_filter h = Some CallFilter.

Lemma existsb_handlers (P : MappingBlockHandler → bool) l : existsb P l = true ↔ ∃ h, h ∈ l ∧ P h = true.
Proof. rewrite existsb_exists. by setoid_rewrite list_elem_of_In. Qed.

Lemma block_filter_of_spec ds a :
  (trigger_every_block (block_filter_of ds a) = true ↔ every_block ds) ∧
  (∀ i, i ∈ polling_intervals (block_filter_of ds a) ↔ interval_of ds i) ∧
  (∀ n b, address_from (contract_addresses (block_filter_of ds a)) n b ↔ b = a ∧ start_block ds ≤ n ∧ calls_to ds).
Proof.
  unfold block_filter_of; cbn. split; [|split].
  - rewrite existsb_handlers. unfold every_block. by setoid_rewrite bool_decide_eq_true.
  - intros i. rewrite elem_of_list_to_set, list_elem_of_omap. done.
  - intros n b. unfold address_from, calls_to. destruct (existsb _ _) eqn:E.
    + apply existsb_handlers in E as (h & Hh & Hc). apply bool_decide_eq_true in Hc.
      setoid_rewrite elem_of_singleton. split; [intros (n' & [= -> ->] & Hle); eauto 10|].
      intros (-> & Hle & _). eauto.
    + split; [set_solver|]. intros (-> & _ & h & Hh & Hc). apply not_true_iff_false in E. exfalso. apply E.
      apply existsb_handlers. exists h. by rewrite bool_decide_eq_true_2.
Qed.

(** The block filter of data sources with an address *)
Lemma block_from_data_sources_spec dss :
  block_filter_wf (block_filter_from_data_sources dss) ∧
  (trigger_every_block (block_filter_from_data_sources dss) = true ↔ ∃ ds, ds ∈ dss ∧ is_Some (eds_address ds) ∧ every_block ds) ∧
  (∀ i, i ∈ polling_intervals (block_filter_from_data_sources dss) ↔ ∃ ds, ds ∈ dss ∧ is_Some (eds_address ds) ∧ interval_of ds i) ∧
  (∀ n a, address_from (contract_addresses (block_filter_from_data_sources dss)) n a ↔
     ∃ ds, ds ∈ dss ∧ eds_address ds = Some a ∧ start_block ds ≤ n ∧ calls_to ds).
Proof.
  unfold block_filter_from_data_sources. induction dss as [|ds dss IH] using rev_ind.
  { cbn. split; [by intros ? ? ? ?%elem_of_empty|]. split; [|split].
    - split; [done|]. by intros (? & ?%elem_of_nil & _).
    - intros i. split; [by intros ?%elem_of_empty|]. by intros (? & ?%elem_of_nil & _).
    - intros n a. split; [by intros (? & ?%elem_of_empty & _)|]. by intros (? & ?%elem_of_nil & _). }
  rewrite foldl_app. cbn [foldl]. set (f := foldl _ _ dss) in *. clearbody f. destruct IH as (Hwf & Ht & Hp & Hc).
  setoid_rewrite exists_snoc. setoid_rewrite <- Ht. setoid_rewrite <- Hp. setoid_rewrite <- Hc.
  destruct (eds_address ds) as [a|].
  - destruct (block_extend_spec (block_filter_of ds a) f Hwf) as (Hwf' & Ht' & Hp' & Hc').
    destruct (block_filter_of_spec ds a) as (Dt & Dp & Dc). split; [done|]. split; [|split].
    + rewrite Ht', orb_true_iff, Dt. intuition eauto.
    + intros i. rewrite Hp', elem_of_union, Dp. intuition eauto.
    + intros n b. rewrite Hc', Dc. intuition congruence.
  - split; [done|]. assert (¬ is_Some (@None Address)) by (by intros [? ?]). split; [|split]; intuition congruence.
Qed.

End BlockFilterFacts.

(** The call filter of a block filter asks for every call to its contracts. *)
Lemma call_filter_of_block f a :
  block_filter_wf f →
  (∀ n, (n, a) ∈ contract_addresses f → contract_addresses_function_signatures (call_filter_from_block_filter f) !! a = Some (n, ∅)) ∧
  ((∀ n, (n, a) ∉ contract_addresses f) → contract_addresses_function_signatures (call_filter_from_block_filter f) !! a = None).
Proof.
  intros Hu. cbn. set (cs := elements (contract_addresses f)).
  assert (∀ n n', (n, a) ∈ cs → (n', a) ∈ cs → n = n') as Hn by (intros n n'; unfold cs; rewrite !elem_of_elements; apply Hu).
  assert (∀ n, (n, a) ∈ contract_addresses f ↔ (n, a) ∈ cs) as Heq by (intros; by rewrite <- elem_of_elements).
  setoid_rewrite Heq. clearbody cs. clear Heq Hu. induction cs as [|[m b] cs IH] using rev_ind.
  { split; [by intros n ?%elem_of_nil|]. intros _. apply lookup_empty. }
  rewrite foldl_app. cbn [foldl]. destruct IH as [IH1 IH2]; [intros; apply Hn; apply elem_of_app; by left|].
  cbn [snd fst]. setoid_rewrite elem_of_app. setoid_rewrite list_elem_of_singleton. destruct (decide (b = a)) as [->|Hne].
  - rewrite lookup_insert_eq. split.
    + intros n Hin. f_equal. f_equal. apply Hn; apply elem_of_app; [right; by left|].
      destruct Hin as [?|[= ->]]; [by left|right; by left].
    + intros Hno. exfalso. apply (Hno m). auto.
  - rewrite lookup_insert_ne by done. split.
    + intros n [?|[= ? ?]]; [by apply IH1|congruence].
    + intros Hno. apply IH2. intros n ?. apply (Hno n). auto.
Qed.
