(* ===== verification/EthOrder.v ===== *)
(** * The order of the triggers of a block

    [BlockWithTriggers::new] sorts and dedups the triggers of a block: the
    handlers for [once] first, then logs and calls by transaction with the logs
    of a transaction before its calls, then the other block triggers, and every
    log once. *)

From Stdlib Require Import ZArith Lia ZifyBool.
From stdpp Require Import base gmap list strings sorting.
From S2P Require Import Prelude Values Write DataSource EthData EthFilter EthTriggers.

Local Open Scope Z_scope.

(** ** Sorting *)

Section SortFacts.
Context {A : Type} (cmp : A → A → outcome string comparison) (le : A → A → Prop).
Context `{!Transitive le}.

(** The comparison decides [le] among the elements of a list *)
Definition compares (l : list A) : Prop :=
  ∀ a b, a ∈ l → b ∈ l → (le a b ∨ le b a) ∧ ∃ c, cmp a b = Ok c ∧ (c ≠ Gt ↔ le a b).

Lemma compares_perm l l' : l ≡ₚ l' → compares l → compares l'.
Proof. intros Hp Hc a b. rewrite <- Hp. apply Hc. Qed.

Lemma sort_insert_spec x l :
  compares (x :: l) → StronglySorted le l →
  ∃ r, sort_insert cmp x l = Ok r ∧ r ≡ₚ x :: l ∧ StronglySorted le r ∧
    ∀ (P : A → Prop) (D : ∀ a, Decision (P a)), (∀ a b, P a → P b → le a b) → filter P r = filter P (x :: l).
Proof.
  induction l as [|y l IH]; intros Hc Hs.
  { exists [x]. cbn. split; [done|]. split; [done|]. split; [repeat constructor|done]. }
  cbn [sort_insert]. destruct (Hc x y) as (Ht & c & Hxy & Hle); [set_solver..|]. rewrite Hxy. cbn.
  apply StronglySorted_inv in Hs as [Hs Hy].
  assert (c = Gt ∨ c ≠ Gt) as [->|Hn] by (destruct c; auto).
  - assert (¬ le x y) as Hnle by (intros ?%Hle; done). destruct IH as (r & -> & Hp & Hsr & Hf).
    { intros a b Ha Hb. apply Hc; set_solver. } { done. }
    exists (y :: r). split; [done|]. split; [rewrite Hp; by constructor|]. split.
    + constructor; [done|]. rewrite Hp. constructor; [tauto|done].
    + intros P ? HP. rewrite !filter_cons, Hf by done. rewrite filter_cons.
      destruct (decide (P x)), (decide (P y)); try done. exfalso. apply Hnle. by apply HP.
  - exists (x :: y :: l). assert (le x y) as Hxy' by by apply Hle.
    split; [by destruct c|]. split; [done|]. split; [|done].
    constructor; [by constructor|]. constructor; [done|]. eapply Forall_impl; [exact Hy|]. intros z ?. by trans y.
Qed.

Lemma sort_spec l :
  compares l →
  ∃ r, sort cmp l = Ok r ∧ r ≡ₚ l ∧ StronglySorted le r ∧
    ∀ (P : A → Prop) (D : ∀ a, Decision (P a)), (∀ a b, P a → P b → le a b) → filter P r = filter P l.
Proof.
  induction l as [|x l IH]; intros Hc.
  { exists []. split; [done|]. split; [done|]. split; [constructor|done]. }
  destruct IH as (r & Hr & Hp & Hs & Hf). { intros a b Ha Hb. apply Hc; set_solver. }
  destruct (sort_insert_spec x r) as (r' & Hr' & Hp' & Hs' & Hf').
  { eapply compares_perm; [|exact Hc]. by rewrite Hp. } { done. }
  exists r'. cbn. rewrite Hr. cbn. split; [done|]. split; [by rewrite Hp', Hp|]. split; [done|].
  intros P ? HP. rewrite Hf' by done. rewrite !filter_cons, Hf by done. done.
Qed.

End SortFacts.

Lemma sort_by_number {A} (key : A → Z) l :
  ∃ r, sort (λ a b, Ok (key a ?= key b)) l = Ok r ∧ r ≡ₚ l ∧ StronglySorted (λ a b, key a ≤ key b) r.
Proof.
  assert (Transitive (λ a b : A, key a ≤ key b)) as Ht by (intros a b c; lia).
  destruct (sort_spec (λ a b, Ok (key a ?= key b)) (λ a b, key a ≤ key b) l) as (r & ? & ? & ? & _); [|by exists r].
  intros a b _ _. split; [lia|]. eexists. split; [reflexivity|]. destruct (Z.compare_spec (key a) (key b)); split; (done || lia).
Qed.

Lemma StronglySorted_sublist {A} (R : A → A → Prop) l k : l `sublist_of` k → StronglySorted R k → StronglySorted R l.
Proof.
  induction 1 as [|x l k Hsub IH|x l k Hsub IH]; intros Hs; [constructor| |].
  - apply StronglySorted_inv in Hs as [Hs Hx]. constructor; [by apply IH|].
    apply Forall_forall. intros y Hy. rewrite Forall_forall in Hx. apply Hx. by eapply elem_of_sublist.
  - apply StronglySorted_inv in Hs as [Hs _]. by apply IH.
Qed.

(** ** Removing duplicates *)

Section DedupFacts.
Context {A : Type} (eqb : A → A → outcome string bool) (same le : A → A → Prop).
Context `{!Equivalence same} `{!Transitive le}.

Definition decides_same (l : list A) : Prop :=
  ∀ a b, a ∈ l → b ∈ l → ∃ e, eqb a b = Ok e ∧ (e = true ↔ same a b).

(** Elements that [le] puts between two elements that are the same are the same *)
Definition convex (Q : A → Prop) (l : list A) : Prop :=
  ∀ a x b, a ∈ l → x ∈ l → b ∈ l → Q a → le a x → le x b → same a b → same a x.

(** No later element is the same as an earlier one *)
Definition distinct (Q : A → Prop) (l : list A) : Prop :=
  ∀ i j a b, (i < j)%nat → l !! i = Some a → l !! j = Some b → Q a → ¬ same a b.

Lemma dedup_from_spec k l :
  decides_same (k :: l) →
  ∃ r, dedup_from eqb k l = Ok (k :: r) ∧ r `sublist_of` l ∧ (∀ x, x ∈ l → ∃ y, y ∈ k :: r ∧ same x y) ∧
    ∀ Q, StronglySorted le (k :: l) → convex Q (k :: l) → distinct Q (k :: r).
Proof.
  revert k. induction l as [|x l IH]; intros k Hd.
  { exists []. cbn. split; [done|]. split; [done|]. split; [by intros ? ?%elem_of_nil|].
    intros Q _ _ i j a b Hij [-> _]%list_lookup_singleton_Some [-> _]%list_lookup_singleton_Some. lia. }
  cbn [dedup_from]. destruct (Hd x k) as (e & He & Hs); [set_solver..|]. rewrite He. cbn. destruct e.
  - destruct (IH k) as (r & Hr & Hsub & Hin & Hdist). { intros a b Ha Hb. apply Hd; set_solver. }
    exists r. split; [done|]. split; [by constructor|]. split.
    + intros z [->|Hz]%elem_of_cons; [|by apply Hin]. exists k. split; [by left|by apply Hs].
    + intros Q HS HQ. apply Hdist.
      * apply StronglySorted_inv in HS as [HS Hk]. apply StronglySorted_inv in HS as [HS _].
        constructor; [done|]. by apply Forall_inv_tail in Hk.
      * intros a y b Ha Hy Hb. apply HQ; set_solver.
  - destruct (IH x) as (r & Hr & Hsub & Hin & Hdist). { intros a b Ha Hb. apply Hd; set_solver. }
    rewrite Hr. cbn. exists (x :: r). split; [done|]. split; [by constructor|]. split.
    + intros z [->|Hz]%elem_of_cons; [exists x; set_solver|]. destruct (Hin z Hz) as (y & Hy & ?). exists y. set_solver.
    + intros Q HS HQ. pose proof HS as [HS' Hk]%StronglySorted_inv. pose proof HS' as [_ Hx]%StronglySorted_inv.
      assert (distinct Q (x :: r)) as Hxr by (apply Hdist; [done|intros a y b Ha Hy Hb; apply HQ; set_solver]).
      intros i j a b Hij Ha Hb HQa Hsame. destruct i as [|i], j as [|j]; try lia; cbn in Ha, Hb.
      * injection Ha as <-. apply list_elem_of_lookup_2 in Hb.
        assert (b ∈ x :: l) as Hbl by (apply elem_of_cons in Hb as [->|Hb]; [by left|right; by eapply elem_of_sublist]).
        rewrite Forall_forall in Hk, Hx. enough (false = true) by done.
        apply Hs. symmetry. apply elem_of_cons in Hbl as [->|Hbl]; [done|].
        eapply (HQ k x b); [by left|right; by left|right; by right|done|apply Hk; by left|by apply Hx|done].
      * by eapply (Hxr i j a b); [lia|..].
Qed.

Lemma dedup_spec l :
  decides_same l →
  ∃ r, dedup eqb l = Ok r ∧ r `sublist_of` l ∧ (∀ x, x ∈ l → ∃ y, y ∈ r ∧ same x y) ∧
    ∀ Q, StronglySorted le l → convex Q l → distinct Q r.
Proof.
  intros Hd. destruct l as [|x l].
  { exists []. cbn. split; [done|]. split; [done|]. split; [by intros ? ?%elem_of_nil|]. by intros Q _ _ i j a b _ Ha. }
  destruct (dedup_from_spec x l Hd) as (r & Hr & Hsub & Hin & Hdist). exists (x :: r). split; [done|].
  split; [by constructor|]. split; [|done]. intros y [->|Hy]%elem_of_cons; [exists x; set_solver|by apply Hin].
Qed.

End DedupFacts.

(** ** The order of triggers *)

(** What the order of triggers goes by: block triggers for [once] handlers,
    logs and calls by transaction, other block triggers *)
Definition trigger_key (t : EthereumTrigger) : Z * Z * Z * Z :=
  match t with
  | EtBlock _ Start => (0, 0, 0, 0)
  | EtLog r =>
      match log_ref_log r with
      | Ok log => (1, default 0 (log_transaction_index log), 0, default 0 (log_index log))
      | _ => (1, 0, 0, 0)
      end
  | EtCall c => (1, call_transaction_index c, 1, 0)
  | EtBlock _ _ => (2, 0, 0, 0)
  end.

Definition key_le (a b : Z * Z * Z * Z) : Prop :=
  let '(a1, a2, a3, a4) := a in
  let '(b1, b2, b3, b4) := b in
  a1 < b1 ∨ a1 = b1 ∧ (a2 < b2 ∨ a2 = b2 ∧ (a3 < b3 ∨ a3 = b3 ∧ a4 ≤ b4)).

Definition trigger_le (a b : EthereumTrigger) : Prop := key_le (trigger_key a) (trigger_key b).

#[global] Instance trigger_le_trans : Transitive trigger_le.
Proof.
  unfold trigger_le. intros a b c.
  destruct (trigger_key a) as [[[??]?]?], (trigger_key b) as [[[??]?]?], (trigger_key c) as [[[??]?]?]. cbn. lia.
Qed.

Lemma trigger_le_total a b : trigger_le a b ∨ trigger_le b a.
Proof. unfold trigger_le. destruct (trigger_key a) as [[[??]?]?], (trigger_key b) as [[[??]?]?]. cbn. lia. Qed.

(** What two triggers have in common that are equal *)
Inductive TriggerId :=
| IdBlock (ptr : BlockPtr) (type : EthereumBlockTriggerType)
| IdCall (call : EthereumCall)
| IdLog (hash : outcome string (option B256)) (index : outcome string (option Z)).

Definition trigger_id (t : EthereumTrigger) : TriggerId :=
  match t with
  | EtBlock ptr type => IdBlock ptr type
  | EtCall call => IdCall call
  | EtLog r => IdLog (log_ref_transaction_hash r) (log_ref_index r)
  end.

Definition same_trigger (a b : EthereumTrigger) : Prop := trigger_id a = trigger_id b.

#[global] Instance same_trigger_equivalence : Equivalence same_trigger.
Proof. split; unfold same_trigger; repeat intro; congruence. Qed.

(** Logs of a block: they are numbered in the order of their transactions. *)
Definition logs_ordered (logs : list Log) : Prop :=
  ∀ a b, a ∈ logs → b ∈ logs →
  ∃ i j s t, log_index a = Some i ∧ log_index b = Some j ∧ log_transaction_index a = Some s ∧ log_transaction_index b = Some t ∧
    (i < j → s ≤ t) ∧ (i = j → a = b).

(** The logs of triggers *)
Definition trigger_log (t : EthereumTrigger) : option Log :=
  match t with EtLog r => match log_ref_log r with Ok log => Some log | _ => None end | _ => None end.

Definition is_log (t : EthereumTrigger) : Prop := match t with EtLog _ => True | _ => False end.

Definition triggers_wf (ts : list EthereumTrigger) : Prop :=
  (∀ t, t ∈ ts → is_log t → is_Some (trigger_log t)) ∧ logs_ordered (omap trigger_log ts).

Lemma triggers_wf_log ts r :
  triggers_wf ts → EtLog r ∈ ts → ∃ log, log_ref_log r = Ok log ∧ log ∈ omap trigger_log ts.
Proof.
  intros [Hl _] Hr. destruct (Hl _ Hr) as [log Hlog]; [done|]. cbn in Hlog. destruct (log_ref_log r) as [log'|?|] eqn:E; try done.
  exists log'. split; [done|]. apply list_elem_of_omap. exists (EtLog r). split; [done|]. cbn. by rewrite E.
Qed.

Lemma trigger_cmp_spec ts : triggers_wf ts → compares trigger_cmp trigger_le ts.
Proof.
  intros Hwf a b Ha Hb. split; [apply trigger_le_total|]. unfold trigger_le.
  destruct a as [pa [| |xa]|ca|ra], b as [pb [| |xb]|cb|rb]; cbn; try (eexists; split; [reflexivity|]; cbn; split; [intros _; lia|done]).
  all: try (eexists; split; [reflexivity|]; cbn; split; [done|lia]).
  all: try (destruct (triggers_wf_log ts ra Hwf Ha) as (la & Hla & Hina)).
  all: try (destruct (triggers_wf_log ts rb Hwf Hb) as (lb & Hlb & Hinb)).
  all: unfold log_ref_index, log_ref_transaction_index; rewrite ?Hla, ?Hlb; cbn.
  all: try (eexists; split; [reflexivity|]; cbn; first [split; [done|lia] | split; [intros _; lia|done]]).
  - eexists. split; [reflexivity|]. destruct (Z.compare_spec (call_transaction_index ca) (call_transaction_index cb)); split; try done; lia.
  - destruct (proj2 Hwf lb lb Hinb Hinb) as (i & _ & s & _ & Hi & _ & Hs & _). rewrite Hs. cbn. eexists. split; [reflexivity|].
    case_bool_decide; [split; [done|lia]|].
    destruct (Z.compare_spec (call_transaction_index ca) s); split; try done; lia.
  - destruct (proj2 Hwf la la Hina Hina) as (i & _ & s & _ & Hi & _ & Hs & _). rewrite Hs. cbn. eexists. split; [reflexivity|].
    case_bool_decide; [split; [intros _; lia|done]|].
    destruct (Z.compare_spec s (call_transaction_index cb)); split; try done; lia.
  - destruct (proj2 Hwf la lb Hina Hinb) as (i & j & s & t & Hi & Hj & Hs & Ht & H1 & H2).
    destruct (proj2 Hwf lb la Hinb Hina) as (i' & j' & s' & t' & Hi' & Hj' & Hs' & Ht' & H3 & H4).
    rewrite Hi, Hj, Hs, Ht in *. simplify_eq. cbn. eexists. split; [reflexivity|].
    clear H4. destruct (Z.compare_spec j' i') as [E|E|E]; [rewrite (H2 E) in *; simplify_eq| |]; clear H2; split; try done; lia.
Qed.

Lemma trigger_eq_spec ts : triggers_wf ts → decides_same trigger_eq same_trigger ts.
Proof.
  intros Hwf a b Ha Hb. unfold same_trigger.
  destruct a as [pa xa|ca|ra], b as [pb xb|cb|rb]; cbn; try (eexists; split; [reflexivity|]; split; done).
  - eexists. split; [reflexivity|]. rewrite andb_true_iff, !bool_decide_eq_true. naive_solver.
  - eexists. split; [reflexivity|]. rewrite bool_decide_eq_true. naive_solver.
  - destruct (triggers_wf_log ts ra Hwf Ha) as (la & Hla & _), (triggers_wf_log ts rb Hwf Hb) as (lb & Hlb & _).
    unfold log_ref_transaction_hash, log_ref_index. rewrite Hla, Hlb. cbn. eexists. split; [reflexivity|].
    rewrite andb_true_iff, !bool_decide_eq_true. split; [by intros [-> ->]|by intros [= -> ->]].
Qed.

(** Between two logs that are equal there is no other trigger. *)
Lemma logs_convex ts : triggers_wf ts → convex same_trigger trigger_le is_log ts.
Proof.
  intros Hwf a x b Ha Hx Hb Hlog Hax Hxb Hab. destruct a as [| |ra]; try done.
  destruct b as [| |rb]; try done. unfold same_trigger, trigger_le in *. cbn in Hab, Hax, Hxb |- *.
  destruct (triggers_wf_log ts ra Hwf Ha) as (la & Hla & Hina), (triggers_wf_log ts rb Hwf Hb) as (lb & Hlb & Hinb).
  unfold log_ref_transaction_hash, log_ref_index in *. rewrite Hla, Hlb in *. cbn in *. injection Hab as Hhash Hidx.
  destruct (proj2 Hwf la lb Hina Hinb) as (i & j & s & t & Hi & Hj & Hs & Ht & _ & H2).
  rewrite Hi, Hj, Hs, Ht in *. injection Hidx as ->. assert (s = t) as -> by (rewrite (H2 eq_refl) in Hs; congruence). cbn in *.
  destruct x as [px [| |xx]|cx|rx]; cbn in *; try lia.
  destruct (triggers_wf_log ts rx Hwf Hx) as (lx & Hlx & Hinx). rewrite Hlx in *. cbn in *.
  destruct (proj2 Hwf la lx Hina Hinx) as (i' & k & s' & u & Hi' & Hk & Hs' & Hu & _ & H4).
  rewrite Hk, Hu in Hax, Hxb. cbn in Hax, Hxb. assert (i' = j) as -> by congruence. assert (k = j) as -> by lia.
  unfold log_ref_transaction_hash, log_ref_index. rewrite Hlx. cbn. by rewrite (H4 eq_refl), Hk.
Qed.

Lemma block_with_triggers_spec block ts :
  triggers_wf ts →
  ∃ r sorted, block_with_triggers_new block ts = Ok (mkBlockWithTriggers block r) ∧
    StronglySorted trigger_le r ∧ (∀ t, t ∈ r → t ∈ ts) ∧ (∀ t, t ∈ ts → ∃ t', t' ∈ r ∧ same_trigger t t') ∧
    distinct same_trigger is_log r ∧
    r `sublist_of` sorted ∧ ∀ k, filter (λ t, trigger_key t = k) sorted = filter (λ t, trigger_key t = k) ts.
Proof.
  intros Hwf. destruct (sort_spec trigger_cmp trigger_le ts (trigger_cmp_spec ts Hwf)) as (s & Hs & Hp & Hss & Hf).
  assert (triggers_wf s) as Hwf'.
  { destruct Hwf as [Hl Ho]. split; [intros t; rewrite Hp; apply Hl|]. intros a b. rewrite Hp. apply Ho. }
  destruct (dedup_spec trigger_eq same_trigger trigger_le s (trigger_eq_spec s Hwf')) as (r & Hr & Hsub & Hin & Hd).
  exists r, s. unfold block_with_triggers_new. rewrite Hs. cbn. rewrite Hr. cbn. split; [done|].
  split; [by eapply StronglySorted_sublist|]. split; [intros t Ht; rewrite <- Hp; by eapply elem_of_sublist|].
  split; [intros t; rewrite <- Hp; apply Hin|]. split; [apply Hd; [done|by apply logs_convex]|]. split; [done|].
  intros k. apply Hf. unfold trigger_le. intros a b -> ->. destruct k as [[[??]?]?]. cbn. lia.
Qed.

(** Log triggers of a block that are equal are for the same log. *)
Lemma same_trigger_log logs a b :
  logs_ordered logs → same_trigger a b → (is_log a → ∃ log, trigger_log a = Some log ∧ log ∈ logs) →
  (is_log b → ∃ log, trigger_log b = Some log ∧ log ∈ logs) → trigger_log a = trigger_log b.
Proof.
  intros Ho Hs Ha Hb. destruct a as [| |ra], b as [| |rb]; try done.
  destruct Ha as (la & Hla & Hina), Hb as (lb & Hlb & Hinb); [done..|]. unfold same_trigger in Hs. cbn in *.
  unfold log_ref_transaction_hash, log_ref_index in Hs.
  destruct (log_ref_log ra) as [la'|?|], (log_ref_log rb) as [lb'|?|]; try done. cbn in Hs. simplify_eq.
  destruct (Ho la lb Hina Hinb) as (i & j & s & t & Hi & Hj & _ & _ & _ & Heq). f_equal. apply Heq. congruence.
Qed.

(** C22: the triggers of a block come in order, the handlers for [once] first,
    then logs and calls by their transactions with logs before calls, then the
    other block triggers; none is added, every log is there once, and triggers
    of the same rank keep their order.  What is left out are triggers that
    compare equal to a neighbor: for each trigger there is one that the code
    takes to be the same, which can be another call with the same data. *)
Theorem triggers_sorted block ts :
  triggers_wf ts →
  ∃ r sorted, block_with_triggers_new block ts = Ok (mkBlockWithTriggers block r) ∧
    StronglySorted trigger_le r ∧ (∀ t, t ∈ r → t ∈ ts) ∧ (∀ t, t ∈ ts → ∃ t', t' ∈ r ∧ same_trigger t t') ∧
    distinct same_trigger is_log r ∧
    r `sublist_of` sorted ∧ ∀ k, filter (λ t, trigger_key t = k) sorted = filter (λ t, trigger_key t = k) ts.
Proof. apply block_with_triggers_spec. Qed.
