(* ===== verification/EthComplete.v ===== *)
(** * No trigger is missed

    The filter that is made from data sources lets through every trigger that
    one of them has a handler for: first for the parsing of a block that is not
    final, then for the scan of a range of final blocks. *)

From Stdlib Require Import ZArith Lia ZifyBool.
From stdpp Require Import base gmap list strings sorting fin_maps.
From S2P Require Import Prelude Values Write DataSource EthData EthFilter EthTriggers EthFilterFacts EthCallFacts EthOrder.

Local Open Scope Z_scope.

(** ** Filters that cover a data source *)

Section Covering.
Context `{GraphMapSpec LogFilterNode} `{Keccak} `{DeclaredCalls}.
Implicit Types ds : EthDataSource.

Definition handler_covered (f : EthereumLogFilter) (address : option Address) (h : MappingEventHandler) : Prop :=
  ∃ k, (∀ log, accepts address log h = true → key_matches k log = true) ∧ is_Some (weight k f) ∧
    (handler_receipt h = true → weight k f = Some true).

Definition call_covered (f : EthereumCallFilter) (a : Address) (n : BlockNumber) (sig : FunctionSelector) : Prop :=
  call_asks f a n sig ∨ sig ∈ wildcard_signatures f.

Record filter_covers (f : TriggerFilter) ds := {
  covers_logs : ∀ h, h ∈ event_handlers (mapping ds) → handler_covered (tf_log f) (eds_address ds) h;
  covers_calls : ∀ a h, eds_address ds = Some a → h ∈ call_handlers (mapping ds) →
    call_covered (tf_call f) a (start_block ds) (method_id h);
  covers_every : is_Some (eds_address ds) → every_block ds → trigger_every_block (tf_block f) = true;
  covers_intervals : ∀ i, is_Some (eds_address ds) → interval_of ds i →
    trigger_every_block (tf_block f) = true ∨ i ∈ polling_intervals (tf_block f);
  covers_with_calls : ∀ a, eds_address ds = Some a → calls_to ds →
    address_from (contract_addresses (tf_block f)) (start_block ds) a;
}.

Definition filter_wf (f : TriggerFilter) : Prop := log_filter_wf (tf_log f) ∧ block_filter_wf (tf_block f).

Lemma handler_covered_extend_l other f a h : handler_covered f a h → handler_covered (log_filter_extend other f) a h.
Proof.
  intros (k & Hk & Hs & Hr). exists k. rewrite weight_extend, or_weight_is_Some, or_weight_true. tauto.
Qed.

Lemma handler_covered_extend_r other f a h : handler_covered other a h → handler_covered (log_filter_extend other f) a h.
Proof.
  intros (k & Hk & Hs & Hr). exists k. rewrite weight_extend, or_weight_is_Some, or_weight_true. tauto.
Qed.

Lemma handler_covered_data_source dss ds h :
  ds ∈ dss → h ∈ event_handlers (mapping ds) → handler_covered (log_filter_from_data_sources dss) (eds_address ds) h.
Proof.
  intros Hds Hh. exists (key_of (eds_address ds) h). split; [intros log; apply accepts_key|].
  rewrite weight_from_data_sources, weight_asked_is_Some, weight_asked_true.
  split; [|intros Hr]; exists (eds_address ds, h); rewrite elem_of_asked; eauto 10.
Qed.

Lemma call_covered_extend_l other f a n sig : call_covered f a n sig → call_covered (call_filter_extend other f) a n sig.
Proof. intros [?|?]; [left; by apply call_asks_extend_l|right; rewrite wildcards_call_extend; set_solver]. Qed.

Lemma call_covered_extend_r other f a n sig : call_covered other a n sig → call_covered (call_filter_extend other f) a n sig.
Proof. intros [?|?]; [left; by apply call_asks_extend_r|right; rewrite wildcards_call_extend; set_solver]. Qed.

Lemma filter_wf_default : filter_wf trigger_filter_default.
Proof. split; [apply bipartite_new|]. by intros n n' a ?%elem_of_empty. Qed.

(** Extending a filter by data sources covers them and what was covered. *)
Lemma extend_covers dss (f : TriggerFilter) :
  filter_wf f →
  filter_wf (trigger_filter_extend dss f) ∧ (∀ ds, ds ∈ dss → filter_covers (trigger_filter_extend dss f) ds) ∧
  (∀ ds, filter_covers f ds → filter_covers (trigger_filter_extend dss f) ds).
Proof.
  intros [Hl Hb]. destruct (block_from_data_sources_spec dss) as (Dwf & Dt & Dp & Dc).
  destruct (block_extend_spec (block_filter_from_data_sources dss) (tf_block f) Hb) as (Ewf & Et & Ep & Ec).
  split; [split; [apply wf_extend; [apply wf_from_data_sources|done]|done]|]. split.
  - intros ds Hds. constructor; cbn.
    + intros h Hh. by apply handler_covered_extend_r, handler_covered_data_source.
    + intros a h Ha Hh. apply call_covered_extend_r. left. by eapply call_asks_data_source.
    + intros Ha He. rewrite Et. apply orb_true_iff. right. apply Dt. eauto.
    + intros i Ha Hi. right. rewrite Ep. apply elem_of_union_r, Dp. eauto.
    + intros a Ha Hc. apply Ec. right. apply Dc. eauto with lia.
  - intros ds [Fl Fc Fe Fi Fw]. constructor; cbn.
    + intros h Hh. by apply handler_covered_extend_l, Fl.
    + intros a h Ha Hh. by apply call_covered_extend_l, Fc.
    + intros Ha He. by rewrite Et, Fe.
    + intros i Ha Hi. rewrite Et, Ep. destruct (Fi i Ha Hi) as [-> |?]; [by left|right; by apply elem_of_union_l].
    + intros a Ha Hc. apply Ec. left. by apply Fw.
Qed.

(** A log that a handler accepts matches the filter, with its receipt. *)
Lemma covered_log f address h log :
  handler_covered f address h → accepts address log h = true →
  log_filter_matches log f = true ∧
  (handler_receipt h = true → ∀ sig, head (log_topics log) = Some sig →
   requires_transaction_receipt sig (Some (log_address log)) (log_topics log) f = true).
Proof.
  intros (k & Hk & Hs & Hr) Ha. split; [apply log_filter_matches_keys; eauto|].
  intros Hrec sig Hsig. apply requires_receipt_keys; [done|]. eauto.
Qed.

Lemma covered_call f call n :
  (4 ≤ length (call_input call))%nat → call_covered f (call_to call) n (take 4 (call_input call)) →
  call_filter_matches call f = true.
Proof.
  intros Hl [?|Hw]; [by eapply call_asks_matches|]. unfold call_filter_matches.
  destruct (Nat.ltb_spec (length (call_input call)) 4); [lia|].
  destruct (contract_addresses_function_signatures f !! call_to call) as [v|]; [|by apply bool_decide_eq_true_2].
  case_bool_decide; [done|]. apply orb_true_iff. right. by apply bool_decide_eq_true_2.
Qed.

Lemma log_filter_not_empty f log : log_filter_matches log f = true → log_filter_is_empty f = false.
Proof.
  intros Hm. destruct (log_filter_is_empty f) eqn:E; [|done]. exfalso.
  apply log_filter_matches_keys in Hm as (k & Hk & _). rewrite (log_filter_empty_weight f E) in Hk. by destruct Hk.
Qed.

Lemma call_filter_not_empty f a n sig : call_covered f a n sig → call_filter_is_empty f = false.
Proof.
  unfold call_filter_is_empty. intros [(n' & s & Hf & _)|Hw].
  - rewrite bool_decide_eq_false_2; [done|]. intros E. by rewrite E, lookup_empty in Hf.
  - apply andb_false_iff. right. apply bool_decide_eq_false_2. set_solver.
Qed.

End Covering.

(** ** What a data source handles *)

Section Handled.
Context `{Keccak} `{AbiCodec} `{DeclaredCalls}.
Context (from_log_trigger : list MappingABI → CallDecls → Log → list (string * SolValue) → outcome string (list DeclaredCall)).
Implicit Types ds : EthDataSource.

(** A data source has a handler for a trigger *)
Definition handles ds (t : EthereumTrigger) (block : LightEthereumBlock) : Prop :=
  ∃ m, eth_match_and_decode from_log_trigger t block ds = Ok (Some m).

(** The manifest has a data source with call or block handlers only with an
    address, and intervals fit into an [i32]. *)
Definition source_ok ds : Prop :=
  (eds_address ds = None → call_handlers (mapping ds) = [] ∧ block_handlers (mapping ds) = []) ∧
  ∀ h every, h ∈ block_handlers (mapping ds) → block_filter h = Some (Polling every) → 0 < every < 2 ^ 31.

Lemma handles_address ds t block :
  handles ds t block →
  start_block ds ≤ header_number block ∧ ∀ a a', eds_address ds = Some a → trigger_address t = Ok (Some a') → a = a'.
Proof.
  intros [m Hm]. unfold eth_match_and_decode, matches_trigger_address in Hm.
  destruct (eds_address ds) as [a0|].
  - destruct (trigger_address t) as [a1|?|]; try done. cbn in Hm. destruct (negb _) eqn:E; [done|]. case_bool_decide; [done|].
    split; [lia|]. intros a a' [= <-] [= ->]. apply negb_false_iff, bool_decide_eq_true in E. done.
  - cbn in Hm. case_bool_decide; [done|]. split; [lia|done].
Qed.

Lemma collect_ok_length {E A B} (g : A → outcome E B) l r : collect_ok g l = Ok r → length r = length l.
Proof.
  revert r. induction l as [|x l IH]; intros r; cbn; [by intros [= <-]|].
  destruct (g x); try done. cbn. destruct (collect_ok g l) as [ys|?|]; try done. cbn. intros [= <-]. cbn. by rewrite IH.
Qed.

Lemma handles_log ds r block :
  handles ds (EtLog r) block → ∃ log h, log_ref_log r = Ok log ∧ h ∈ handlers_for_log log ds ∧ accepts (eds_address ds) log h = true.
Proof.
  intros Hh. pose proof (handles_address _ _ _ Hh) as [_ Ha]. destruct Hh as [m Hm]. unfold eth_match_and_decode in Hm.
  destruct (matches_trigger_address _ _) as [[]|?|]; try done. cbn in Hm. case_bool_decide; [done|].
  unfold decode_log_trigger in Hm. destruct (log_ref_log r) as [log|?|] eqn:El; try done. cbn in Hm.
  destruct (collect_ok _ _) as [vs|?|] eqn:Ec; try done. cbn in Hm. apply collect_ok_length in Ec.
  destruct (handlers_for_log log ds) as [|h hs] eqn:Eh. { by destruct vs. }
  assert (h ∈ handlers_for_log log ds) as Hin by (rewrite Eh; by left).
  exists log, h. split; [done|]. split; [done|].
  apply list_elem_of_filter in Hin as [Hmt _]. unfold accepts. rewrite Hmt, andb_true_r.
  destruct (eds_address ds) as [a|]; [|done]. apply bool_decide_eq_true_2. apply Ha; [done|]. cbn. by rewrite El.
Qed.

Lemma handles_call ds call block :
  handles ds (EtCall call) block →
  (4 ≤ length (call_input call))%nat ∧ ∃ h, h ∈ call_handlers (mapping ds) ∧ take 4 (call_input call) = method_id h.
Proof.
  intros [m Hm]. unfold eth_match_and_decode in Hm.
  destruct (matches_trigger_address _ _) as [[]|?|]; try done. cbn in Hm. case_bool_decide; [done|].
  unfold decode_call_trigger, handler_for_call in Hm. destruct (Nat.ltb_spec (length (call_input call)) 4); [done|]. split; [lia|].
  cbn in Hm. destruct (list_find _ _) as [[i h]|] eqn:Ef; [|done]. apply list_find_Some in Ef as (Hl & Hid & _).
  exists h. split; [by eapply list_elem_of_lookup_2|done].
Qed.

Lemma handles_block ds ptr type block :
  handles ds (EtBlock ptr type) block →
  ∃ h, h ∈ block_handlers (mapping ds) ∧ block_handler_matches type (header_number block) ds h = true.
Proof.
  intros [m Hm]. unfold eth_match_and_decode in Hm.
  destruct (matches_trigger_address _ _) as [[]|?|]; try done. cbn in Hm. case_bool_decide; [done|].
  unfold handler_for_block in Hm. destruct (list_find _ _) as [[i h]|] eqn:Ef; [|done]. apply list_find_Some in Ef as (Hl & Hid & _).
  exists h. split; [by eapply list_elem_of_lookup_2|done].
Qed.

End Handled.

(** ** A block that is not final *)

(** The triggers that a block has *)
Inductive trigger_of (block : EthereumBlockWithCalls) (calls : list EthereumCall) : EthereumTrigger → Prop :=
| of_log receipt i log requires :
    receipt ∈ transaction_receipts (ethereum_block block) → receipt_logs receipt !! i = Some log →
    trigger_of block calls (EtLog (LogPosition i receipt requires))
| of_call call :
    call ∈ calls → transaction_for_call_succeeded call block = Ok true → trigger_of block calls (EtCall call)
| of_start : trigger_of block calls (EtBlock (light_block_ptr (eb_block (ethereum_block block))) Start)
| of_end : trigger_of block calls (EtBlock (light_block_ptr (eb_block (ethereum_block block))) End)
| of_call_to call :
    call ∈ calls → trigger_of block calls (EtBlock (light_block_ptr (eb_block (ethereum_block block))) (WithCallTo (call_to call))).

Definition block_logs (block : EthereumBlock) : list Log := transaction_receipts block ≫= receipt_logs.

(** The logs of a block are numbered, its calls have a function selector, and
    their transactions have receipts. *)
Definition block_ok (block : EthereumBlockWithCalls) (calls : list EthereumCall) : Prop :=
  logs_ordered (block_logs (ethereum_block block)) ∧
  ∀ call, call ∈ calls → (4 ≤ length (call_input call))%nat ∧ ∃ ok, transaction_for_call_succeeded call block = Ok ok.

Lemma logs_ordered_subset l k : (∀ log, log ∈ l → log ∈ k) → logs_ordered k → logs_ordered l.
Proof. intros Hs Hk a b Ha Hb. apply Hk; by apply Hs. Qed.

Lemma filter_map_ok_spec {E A B} (g : A → outcome E (option B)) l :
  (∀ x, x ∈ l → ∃ y, g x = Ok y) →
  ∃ r, filter_map_ok g l = Ok r ∧ ∀ y, y ∈ r ↔ ∃ x, x ∈ l ∧ g x = Ok (Some y).
Proof.
  induction l as [|x l IH]; intros Hg.
  { exists []. split; [done|]. intros y. split; [by intros ?%elem_of_nil|]. by intros (? & ?%elem_of_nil & _). }
  destruct (Hg x) as [y Hy]; [by left|]. destruct IH as (r & Hr & Hin); [intros; apply Hg; by right|].
  cbn. rewrite Hy, Hr. cbn. eexists. split; [done|]. intros z. setoid_rewrite elem_of_cons.
  destruct y as [y|]; rewrite ?elem_of_cons, Hin; split.
  - intros [->|(x' & ? & ?)]; eauto.
  - intros (x' & [->|?] & Hz); [left; congruence|right; eauto].
  - intros (x' & ? & ?); eauto.
  - intros (x' & [->|?] & Hz); [congruence|eauto].
Qed.

Section NonFinalBlocks.
Context `{GraphMapSpec LogFilterNode} `{Keccak} `{AbiCodec} `{DeclaredCalls} `{EthereumNode} `{EthereumSettings}.
Context (from_log_trigger : list MappingABI → CallDecls → Log → list (string * SolValue) → outcome string (list DeclaredCall)).
Implicit Types (ds : EthDataSource) (block : EthereumBlockWithCalls).

Abbreviation handles := (handles from_log_trigger).

Lemma elem_of_log_triggers f (block : EthereumBlock) t :
  t ∈ parse_log_triggers f block →
  ∃ receipt i log requires, t = EtLog (LogPosition i receipt requires) ∧ receipt ∈ transaction_receipts block ∧ receipt_logs receipt !! i = Some log.
Proof.
  unfold parse_log_triggers. destruct (log_filter_is_empty f); [by intros ?%elem_of_nil|].
  intros (receipt & Ht & Hr)%list_elem_of_bind. unfold receipt_log_triggers in Ht. apply elem_of_lookup_imap in Ht as (i & log & -> & Hl).
  eauto 10.
Qed.

Lemma parse_calls_spec f block calls :
  block_calls block = Some calls → block_ok block calls →
  ∃ r, parse_call_triggers f block = Ok r ∧
    ∀ t, t ∈ r ↔ ∃ call, t = EtCall call ∧ call ∈ calls ∧ call_filter_matches call f = true ∧
      call_filter_is_empty f = false ∧ transaction_for_call_succeeded call block = Ok true.
Proof.
  intros Hc [_ Hok]. unfold parse_call_triggers. destruct (call_filter_is_empty f) eqn:E.
  { exists []. split; [done|]. intros t. split; [by intros ?%elem_of_nil|naive_solver]. }
  rewrite Hc. match goal with |- context [filter_map_ok ?g ?l] => destruct (filter_map_ok_spec g l) as (r & -> & Hin) end.
  { intros call [_ Hcall]%list_elem_of_filter. destruct (Hok call Hcall) as (_ & ok & ->). cbn. eauto. }
  exists r. split; [done|]. intros t. rewrite Hin. setoid_rewrite list_elem_of_filter. split.
  - intros (call & [Hm Hcall] & Ht). destruct (Hok call Hcall) as (_ & ok & Hs). rewrite Hs in Ht. cbn in Ht. destruct ok; naive_solver.
  - intros (call & -> & Hcall & Hm & _ & Hs). exists call. rewrite Hs. done.
Qed.

Lemma nonfinal_triggers_wf f block calls ts :
  block_ok block calls →
  (∀ t, t ∈ ts → is_log t → t ∈ parse_log_triggers f (ethereum_block block)) → triggers_wf ts.
Proof.
  intros [Ho _] Hts. split.
  - intros t Ht Hl. destruct (elem_of_log_triggers _ _ _ (Hts t Ht Hl)) as (receipt & i & log & req & -> & _ & Hlog). cbn. by rewrite Hlog.
  - eapply logs_ordered_subset; [|exact Ho]. intros log (t & Ht & Hl)%list_elem_of_omap.
    destruct t as [| |r]; try done. destruct (elem_of_log_triggers _ _ _ (Hts _ Ht I)) as (receipt & i & log' & req & [= ->] & Hr & Hlog).
    cbn in Hl. rewrite Hlog in Hl. injection Hl as <-. apply list_elem_of_bind. exists receipt.
    split; [by eapply list_elem_of_lookup_2|done].
Qed.

Abbreviation ptr_of block := (light_block_ptr (eb_block (ethereum_block block))).

Lemma elem_of_block_triggers f block t : t ∈ parse_block_triggers f block → ∃ type, t = EtBlock (ptr_of block) type.
Proof.
  unfold parse_block_triggers. destruct (block_filter_is_empty f); [by intros ?%elem_of_nil|].
  assert (∀ cs, t ∈ (λ call, EtBlock (ptr_of block) (WithCallTo (call_to call))) <$> cs → ∃ type, t = EtBlock (ptr_of block) type) as Hc
    by (intros cs (call & -> & _)%list_elem_of_fmap; eauto).
  set (cs := match block_calls block with Some _ => _ | None => _ end).
  assert (t ∈ cs → ∃ type, t = EtBlock (ptr_of block) type) as Hcs
    by (unfold cs; destruct (block_calls block); [apply Hc|by intros ?%elem_of_nil]).
  clearbody cs. destruct (trigger_every_block f); [|case_bool_decide; [done|]]; intros [?|Ht]%elem_of_app; try by apply Hcs.
  - apply elem_of_cons in Ht as [-> | ->%list_elem_of_singleton]; eauto.
  - apply list_elem_of_fmap in Ht as (type & -> & _). eauto.
Qed.

Lemma every_block_triggers f block type :
  trigger_every_block f = true → type = Start ∨ type = End → EtBlock (ptr_of block) type ∈ parse_block_triggers f block.
Proof.
  intros He Ht. unfold parse_block_triggers. destruct (block_filter_is_empty f) eqn:E.
  { apply block_filter_empty_spec in E as [? _]. congruence. }
  rewrite He. apply elem_of_app. right. destruct Ht as [-> | ->]; set_solver.
Qed.

Lemma interval_types n intervals i :
  i ∈ intervals →
  (i.2 = 0 → n = i.1 → Start ∈ block_trigger_types_from_intervals n intervals) ∧
  (0 < i.2 → i.1 ≤ n → Z.rem (n - i.1) i.2 = 0 → End ∈ block_trigger_types_from_intervals n intervals).
Proof.
  intros Hi. unfold block_trigger_types_from_intervals. split.
  - intros Hz Hs. apply elem_of_app. left.
    rewrite (proj2 (existsb_exists _ _)); [by left|]. exists i. split; [by apply list_elem_of_In, elem_of_elements|].
    by rewrite !bool_decide_eq_true_2.
  - intros Hz Hs Hr. apply elem_of_app. right.
    rewrite (proj2 (existsb_exists (λ i : BlockNumber * Z, _) _)); [by left|]. exists i.
    split; [by apply list_elem_of_In, elem_of_elements|]. rewrite !bool_decide_eq_true_2 by lia. by rewrite Hr.
Qed.

Lemma interval_triggers f block i :
  trigger_every_block f = true ∨ i ∈ polling_intervals f →
  (i.2 = 0 → header_number (eb_block (ethereum_block block)) = i.1 → EtBlock (ptr_of block) Start ∈ parse_block_triggers f block) ∧
  (0 < i.2 → i.1 ≤ header_number (eb_block (ethereum_block block)) →
   Z.rem (header_number (eb_block (ethereum_block block)) - i.1) i.2 = 0 → EtBlock (ptr_of block) End ∈ parse_block_triggers f block).
Proof.
  destruct (trigger_every_block f) eqn:Ht; [intros _; split; intros; apply every_block_triggers; auto|].
  intros [?|Hi]; [done|]. destruct (interval_types (header_number (eb_block (ethereum_block block))) _ _ Hi) as [Hs He].
  unfold parse_block_triggers. destruct (block_filter_is_empty f) eqn:E.
  { apply block_filter_empty_spec in E as (_ & _ & E). set_solver. }
  rewrite Ht, bool_decide_eq_false_2 by set_solver.
  split; intros; apply elem_of_app; right; apply list_elem_of_fmap; eexists; (split; [done|]); [by apply Hs|by apply He].
Qed.

Lemma with_call_triggers f block calls call :
  block_filter_wf f → block_calls block = Some calls → call ∈ calls → (4 ≤ length (call_input call))%nat →
  (∃ n, (n, call_to call) ∈ contract_addresses f) →
  EtBlock (ptr_of block) (WithCallTo (call_to call)) ∈ parse_block_triggers f block.
Proof.
  intros Hwf Hc Hcall Hl [n Hn]. unfold parse_block_triggers. destruct (block_filter_is_empty f) eqn:E.
  { apply block_filter_empty_spec in E as (_ & E & _). set_solver. }
  rewrite Hc. set (cs := _ <$> filter _ calls).
  assert (EtBlock (ptr_of block) (WithCallTo (call_to call)) ∈ cs) as Hin.
  { apply list_elem_of_fmap. exists call. split; [done|]. apply list_elem_of_filter. split; [|done].
    unfold call_filter_matches. destruct (Nat.ltb_spec (length (call_input call)) 4); [lia|].
    destruct (call_filter_of_block f (call_to call) Hwf) as [Hf _]. rewrite (Hf n Hn). cbn. done. }
  clearbody cs. destruct (trigger_every_block f); [|case_bool_decide; [done|]]; apply elem_of_app; by left.
Qed.

(** The block triggers that a data source handles are parsed. *)
Lemma handled_block_trigger f ds block calls type :
  filter_wf f → filter_covers f ds → source_ok ds → block_calls block = Some calls → block_ok block calls →
  trigger_of block calls (EtBlock (ptr_of block) type) →
  handles ds (EtBlock (ptr_of block) type) (eb_block (ethereum_block block)) →
  EtBlock (ptr_of block) type ∈ parse_block_triggers (tf_block f) block.
Proof.
  intros [_ Hwf] Hcov [Hadr Hev] Hc [_ Hok] Hof Hh. pose proof (handles_address _ _ _ _ Hh) as [Hstart Ha].
  destruct (handles_block _ _ _ _ _ Hh) as (h & Hin & Hm).
  assert (is_Some (eds_address ds)) as Hsome.
  { destruct (eds_address ds) as [a|] eqn:E; [by eexists|]. destruct Hadr as [_ Hb]; [done|]. rewrite Hb in Hin. by apply elem_of_nil in Hin. }
  destruct type as [| |a]; cbn in Hm; destruct (block_filter h) as [[| |every]|] eqn:Ef; try done.
  - apply bool_decide_eq_true in Hm. assert (interval_of ds (start_block ds, 0)) as Hi by (exists h; unfold polling_interval; by rewrite Ef).
    apply (interval_triggers (tf_block f) block (start_block ds, 0)); [by apply (covers_intervals _ _ Hcov)|done..].
  - assert (wrap_signed 32 every = every) as Hw by (specialize (Hev h every Hin Ef); unfold wrap_signed; rewrite Z.mod_small by lia; destruct (Z.ltb_spec every (2 ^ (32 - 1))); lia).
    assert (interval_of ds (start_block ds, every)) as Hi by (exists h; unfold polling_interval; by rewrite Ef, Hw).
    rewrite Hw in Hm. specialize (Hev h every Hin Ef).
    apply (interval_triggers (tf_block f) block (start_block ds, every)); [by apply (covers_intervals _ _ Hcov)|cbn; lia..].
  - apply every_block_triggers; [|by right]. apply (covers_every _ _ Hcov); [done|by exists h].
  - inversion Hof as [| | | |call Hcall Heq]. subst a. destruct Hsome as [a' Ha'].
    assert (a' = call_to call) as -> by (by apply Ha).
    destruct (covers_with_calls _ _ Hcov (call_to call)) as (n & Hn & _); [done|by exists h|].
    apply (with_call_triggers _ _ calls); [done|done|done|by apply Hok|by exists n].
Qed.

Lemma handled_log_trigger f ds block r :
  filter_covers f ds → (∃ calls, trigger_of block calls (EtLog r)) → handles ds (EtLog r) (eb_block (ethereum_block block)) →
  ∃ t', t' ∈ parse_log_triggers (tf_log f) (ethereum_block block) ∧ same_trigger (EtLog r) t'.
Proof.
  intros Hcov [calls Hof] Hh. inversion Hof as [receipt i log req Hr Hl Heq| | | |]. subst r.
  destruct (handles_log _ _ _ _ Hh) as (log' & h & Hlog & Hin & Hacc). cbn in Hlog. rewrite Hl in Hlog. injection Hlog as <-.
  assert (h ∈ event_handlers (mapping ds)) as Hh' by (apply list_elem_of_filter in Hin as [_ ?]; done).
  destruct (covered_log _ _ _ _ (covers_logs _ _ Hcov h Hh') Hacc) as [Hm _].
  pose proof (log_filter_not_empty _ _ Hm) as Hne. unfold parse_log_triggers. rewrite Hne.
  eexists. split.
  { apply list_elem_of_bind. exists receipt. split; [|done]. unfold receipt_log_triggers. apply elem_of_lookup_imap. by exists i, log. }
  done.
Qed.

(** The receipt is there when a handler asks for it. *)
Lemma parsed_log_receipt f ds (block : EthereumBlock) r log h :
  filter_covers f ds → EtLog r ∈ parse_log_triggers (tf_log f) block → log_ref_log r = Ok log →
  h ∈ handlers_for_log log ds → accepts (eds_address ds) log h = true → handler_receipt h = true →
  ∃ receipt, log_ref_receipt r = Some receipt ∧ log ∈ receipt_logs receipt.
Proof.
  intros Hcov Hr Hlog Hin Hacc Hrec. unfold parse_log_triggers in Hr. destruct (log_filter_is_empty _); [by apply elem_of_nil in Hr|].
  apply list_elem_of_bind in Hr as (receipt & Hr & _). apply elem_of_lookup_imap in Hr as (i & log' & [= ->] & Hl).
  cbn in Hlog. rewrite Hl in Hlog. injection Hlog as <-. exists receipt. split; [|by eapply list_elem_of_lookup_2].
  apply list_elem_of_filter in Hin as [Hmt Hh].
  destruct (covered_log _ _ _ _ (covers_logs _ _ Hcov h Hh) Hacc) as [_ Hreq].
  unfold event_handler_matches in Hmt. cbn. destruct (log_topics log') as [|sig ts]; [done|]. by rewrite (Hreq Hrec sig).
Qed.

Lemma handled_call_trigger f ds block calls call :
  filter_covers f ds → source_ok ds → block_calls block = Some calls → block_ok block calls →
  trigger_of block calls (EtCall call) → handles ds (EtCall call) (eb_block (ethereum_block block)) →
  ∀ r, parse_call_triggers (tf_call f) block = Ok r → EtCall call ∈ r.
Proof.
  intros Hcov [Hadr _] Hc Hok Hof Hh r Hr. pose proof (handles_address _ _ _ _ Hh) as [_ Ha].
  destruct (handles_call _ _ _ _ Hh) as (Hl & h & Hin & Hid).
  inversion Hof as [|call' Hcall Hs Heq| | |]. subst call'.
  destruct (eds_address ds) as [a|] eqn:E; [|destruct (Hadr eq_refl) as [Hn _]; rewrite Hn in Hin; by apply elem_of_nil in Hin].
  assert (a = call_to call) as -> by (by apply Ha).
  pose proof (covers_calls _ _ Hcov _ _ E Hin) as Hcc. rewrite <- Hid in Hcc.
  destruct (parse_calls_spec (tf_call f) block calls Hc Hok) as (r' & Hr' & Hin'). rewrite Hr in Hr'. injection Hr' as <-.
  apply Hin'. exists call. split; [done|]. split; [done|]. split; [by eapply covered_call|]. split; [by eapply call_filter_not_empty|done].
Qed.

Lemma nonfinal_triggers_complete fuel dss block calls receipts_supported :
  (∀ ds, ds ∈ dss → source_ok ds) → block_calls block = Some calls → block_ok block calls →
  ∃ bt, triggers_in_block fuel (NonFinal block) (trigger_filter_from_data_sources dss) receipts_supported = Ok bt ∧
    bt_block bt = NonFinal block ∧ StronglySorted trigger_le (trigger_data bt) ∧
    (∀ ds t, ds ∈ dss → trigger_of block calls t → handles ds t (eb_block (ethereum_block block)) →
     ∃ t', t' ∈ trigger_data bt ∧ same_trigger t t' ∧ trigger_log t = trigger_log t') ∧
    ∀ ds r log h, ds ∈ dss → EtLog r ∈ trigger_data bt → log_ref_log r = Ok log → h ∈ handlers_for_log log ds →
    accepts (eds_address ds) log h = true → handler_receipt h = true →
    ∃ receipt, log_ref_receipt r = Some receipt ∧ log ∈ receipt_logs receipt.
Proof.
  intros Hsrc Hc Hok. destruct (extend_covers dss _ filter_wf_default) as (Hwf & Hcov & _).
  set (f := trigger_filter_from_data_sources dss). change (trigger_filter_extend dss trigger_filter_default) with f in *. clearbody f.
  destruct (parse_calls_spec (tf_call f) block calls Hc Hok) as (cs & Hcs & Hcs').
  set (ts := parse_log_triggers (tf_log f) (ethereum_block block) ++ cs ++ parse_block_triggers (tf_block f) block).
  assert (∀ t, t ∈ ts → is_log t → t ∈ parse_log_triggers (tf_log f) (ethereum_block block)) as Hlogs.
  { intros t [?|[Ht|Ht]%elem_of_app]%elem_of_app Hl; [done| |].
    - apply Hcs' in Ht as (? & -> & _). done.
    - apply elem_of_block_triggers in Ht as [? ->]. done. }
  pose proof (nonfinal_triggers_wf (tf_log f) block calls ts Hok Hlogs) as Htw.
  destruct (block_with_triggers_spec (NonFinal block) ts Htw) as (r & sorted & Hr & Hs & Hsub & Hall & _).
  exists (mkBlockWithTriggers (NonFinal block) r). unfold triggers_in_block, get_calls. rewrite Hc. cbn. rewrite Hcs. cbn.
  split; [done|]. split; [done|]. split; [done|]. cbn. split.
  2:{ intros ds lr log h Hds Hlr. eapply parsed_log_receipt; [by apply Hcov|]. by apply Hlogs; [apply Hsub|]. }
  intros ds t Hds Hof Hh.
  assert (∃ t0, t0 ∈ ts ∧ same_trigger t t0) as (t0 & Ht0 & Hsame).
  { destruct t as [ptr type|call|lr].
    - assert (ptr = ptr_of block) as -> by (inversion Hof; done). eexists. split; [|done]. apply elem_of_app. right. apply elem_of_app. right.
      eapply handled_block_trigger; eauto.
    - eexists. split; [|done]. apply elem_of_app. right. apply elem_of_app. left. eapply handled_call_trigger; eauto.
    - destruct (handled_log_trigger f ds block lr) as (t0 & Ht0 & Hsame); [by apply Hcov|by exists calls|done|].
      exists t0. split; [apply elem_of_app; by left|done]. }
  destruct (Hall t0 Ht0) as (t' & Ht' & Hsame'). exists t'.
  assert (same_trigger t t') as Hst by (by trans t0). split; [done|]. split; [done|].
  eapply same_trigger_log; [apply Hok|done| |].
  - intros Hl. inversion Hof as [receipt i log req Hrc Hlg Heq| | | |]; subst t; try done. exists log. cbn. rewrite Hlg. split; [done|].
    apply list_elem_of_bind. exists receipt. split; [by eapply list_elem_of_lookup_2|done].
  - intros Hl. destruct (elem_of_log_triggers _ _ _ (Hlogs t' (Hsub _ Ht') Hl)) as (receipt & i & log & req & -> & Hrc & Hlg).
    exists log. cbn. rewrite Hlg. split; [done|]. apply list_elem_of_bind. exists receipt. split; [by eapply list_elem_of_lookup_2|done].
Qed.

(** Without traces there are no triggers of calls to handle. *)
Lemma no_call_triggers dss eb calls calls' ds t :
  source_ok ds → ds ∈ dss → (transaction_receipts eb = [] → calls = []) →
  requires_traces (trigger_filter_from_data_sources dss) = false ∨ transaction_receipts eb = [] →
  trigger_of (mkBlockWithCalls eb (Some calls)) calls t → handles ds t (eb_block eb) →
  trigger_of (mkBlockWithCalls eb (Some calls')) calls' t.
Proof.
  intros [Hadr _] Hds Hempty Hno Hof Hh. destruct (extend_covers dss _ filter_wf_default) as (_ & Hcov & _). specialize (Hcov ds Hds).
  change (trigger_filter_extend dss trigger_filter_default) with (trigger_filter_from_data_sources dss) in Hcov.
  assert (∀ call, call ∈ calls → transaction_receipts eb ≠ []) as Hcalls.
  { intros call Hc E. rewrite (Hempty E) in Hc. by apply elem_of_nil in Hc. }
  pose proof (handles_address _ _ _ _ Hh) as [_ Ha]. unfold requires_traces in Hno.
  inversion Hof as [receipt i log req Hr Hl|call Hc Hs| | |call Hc]; subst t;
    [by eapply of_log| |exact (of_start (mkBlockWithCalls eb (Some calls')) calls')|exact (of_end (mkBlockWithCalls eb (Some calls')) calls')|].
  - exfalso. destruct Hno as [Hno|?]; [|by eapply Hcalls]. apply orb_false_iff in Hno as [Hno%negb_false_iff _].
    destruct (handles_call _ _ _ _ Hh) as (_ & h & Hin & Hid).
    destruct (eds_address ds) as [a|] eqn:E; [|destruct (Hadr eq_refl) as [Hn _]; rewrite Hn in Hin; by apply elem_of_nil in Hin].
    pose proof (covers_calls _ _ Hcov a h E Hin) as Hcc%call_filter_not_empty. congruence.
  - exfalso. destruct Hno as [Hno|?]; [|by eapply Hcalls]. apply orb_false_iff in Hno as [_ Hno%negb_false_iff%bool_decide_eq_true].
    destruct (handles_block _ _ _ _ _ Hh) as (h & Hin & Hm). cbn in Hm. destruct (block_filter h) as [[| |every]|] eqn:Ef; try done.
    destruct (eds_address ds) as [a|] eqn:E; [|destruct (Hadr eq_refl) as [_ Hn]; rewrite Hn in Hin; by apply elem_of_nil in Hin].
    destruct (covers_with_calls _ _ Hcov a E) as (n & Hn & _); [by exists h|]. rewrite Hno in Hn. by apply elem_of_empty in Hn.
Qed.

Lemma trace_stream_block n : trace_stream n n [] = (ts ← trace_filter n n []; Ok (ts ++ [])).
Proof.
  unfold trace_stream. rewrite bool_decide_eq_false_2 by lia. replace (Z.to_nat (n - n + 1)) with 1%nat by lia.
  cbn [trace_ranges]. rewrite bool_decide_eq_false_2 by lia. replace (Z.min (n + 1 - 1) n) with n by lia.
  rewrite bool_decide_eq_true_2 by lia. cbn. by destruct (trace_filter _ _ _).
Qed.

(** What the node answers when it is asked for the traces of a block, which are
    those of its calls; a block without transactions has none. *)
Definition block_traces (eb : EthereumBlock) (calls : list EthereumCall) : Prop :=
  (∃ traces, trace_filter (header_number (eb_block eb)) (header_number (eb_block eb)) [] = Ok traces ∧
     filter_map_ok try_from_trace traces = Ok calls ∧
     (transaction_receipts eb ≠ [] → trace_block_hash <$> head traces = Some (Some (header_hash (eb_block eb))))) ∧
  (transaction_receipts eb = [] → calls = []).

Lemma loaded_calls eb calls :
  block_traces eb calls → transaction_receipts eb ≠ [] →
  calls_in_block (header_number (eb_block eb)) (header_hash (eb_block eb)) = Ok calls.
Proof.
  intros [(traces & Ha & Hc & Hh) _] Hne. unfold calls_in_block. rewrite trace_stream_block, Ha. cbn. rewrite app_nil_r.
  specialize (Hh Hne). destruct traces as [|first rest]; [done|]. injection Hh as Hf.
  by rewrite Hf, bool_decide_eq_false_2 by (by intros []).
Qed.

(** A block comes without its calls, or with the ones that the node has. *)
Definition as_loaded (eb : EthereumBlock) (calls : list EthereumCall) (block : EthereumBlockWithCalls) : Prop :=
  block = mkBlockWithCalls eb None ∧ block_traces eb calls ∨ block = mkBlockWithCalls eb (Some calls).

(** The calls that [get_calls] provides are enough for the triggers. *)
Lemma provided_calls dss eb calls block :
  (∀ ds, ds ∈ dss → source_ok ds) → as_loaded eb calls block →
  ∃ calls', get_calls (requires_traces (trigger_filter_from_data_sources dss)) (NonFinal block) =
      Ok (NonFinal (mkBlockWithCalls eb (Some calls'))) ∧
    (∀ call, call ∈ calls' → call ∈ calls) ∧
    ∀ ds t, ds ∈ dss → trigger_of (mkBlockWithCalls eb (Some calls)) calls t → handles ds t (eb_block eb) →
      trigger_of (mkBlockWithCalls eb (Some calls')) calls' t.
Proof.
  intros Hsrc [[-> Htr]| ->]; [|by exists calls]. unfold get_calls. cbn [block_calls ethereum_block].
  destruct (negb _ || _) eqn:E.
  - exists []. split; [done|]. split; [by intros ? ?%elem_of_nil|]. intros ds t Hds.
    apply (no_call_triggers dss); [by apply Hsrc|done|apply Htr|].
    apply orb_true_iff in E as [E%negb_true_iff|E%bool_decide_eq_true]; [by left|right]. by apply nil_length_inv.
  - apply orb_false_iff in E as [_ E%bool_decide_eq_false]. exists calls. rewrite (loaded_calls eb calls Htr); [done|].
    by intros Hnil; rewrite Hnil in E.
Qed.

(** C14: for a block that is not final, whether or not it comes with its calls,
    the triggers are found and are in order, and every trigger of the block for
    which one of the data sources of the filter has a handler is among them; a
    log comes with the receipt of its transaction when one of its handlers asks
    for it.  The calls of a block that comes without them are loaded from the
    traces of the node, if a data source has use for them. *)
Theorem triggers_in_block_complete fuel dss eb calls block receipts_supported :
  (∀ ds, ds ∈ dss → source_ok ds) → as_loaded eb calls block → block_ok (mkBlockWithCalls eb (Some calls)) calls →
  ∃ bt calls', triggers_in_block fuel (NonFinal block) (trigger_filter_from_data_sources dss) receipts_supported = Ok bt ∧
    bt_block bt = NonFinal (mkBlockWithCalls eb (Some calls')) ∧ StronglySorted trigger_le (trigger_data bt) ∧
    (∀ ds t, ds ∈ dss → trigger_of (mkBlockWithCalls eb (Some calls)) calls t → handles ds t (eb_block eb) →
     ∃ t', t' ∈ trigger_data bt ∧ same_trigger t t' ∧ trigger_log t = trigger_log t') ∧
    ∀ ds r log h, ds ∈ dss → EtLog r ∈ trigger_data bt → log_ref_log r = Ok log → h ∈ handlers_for_log log ds →
    accepts (eds_address ds) log h = true → handler_receipt h = true →
    ∃ receipt, log_ref_receipt r = Some receipt ∧ log ∈ receipt_logs receipt.
Proof.
  intros Hsrc Hload [Hlogs Hcalls]. destruct (provided_calls dss eb calls block Hsrc Hload) as (calls' & Hget & Hsub & Hof).
  destruct (nonfinal_triggers_complete fuel dss (mkBlockWithCalls eb (Some calls')) calls' receipts_supported Hsrc eq_refl)
    as (bt & Hbt & Hblock & Hsorted & Hall & Hrec).
  { split; [done|]. intros call Hc. by apply Hcalls, Hsub. }
  exists bt, calls'. split; [|split_and!; eauto].
  unfold triggers_in_block in *. rewrite Hget. exact Hbt.
Qed.

End NonFinalBlocks.
