(* ===== verification/EthScan.v ===== *)
(** * Scanning a range of final blocks

    What the Ethereum node answers for a chain that does not change, and that
    the scan of a range of its blocks returns the blocks of the range with
    every trigger that a data source handles. *)

From Stdlib Require Import ZArith Lia ZifyBool.
From stdpp Require Import base gmap list strings sorting fin_maps.
From S2P Require Import Prelude Values Write DataSource EthData EthFilter EthTriggers EthFilterFacts EthCallFacts EthOrder EthComplete.

Local Open Scope Z_scope.

(** ** Loops that succeed *)

Lemma collect_ok_total {E A B} (f : A → outcome E B) l :
  (∀ x, x ∈ l → ∃ y, f x = Ok y) → ∃ r, collect_ok f l = Ok r ∧ Forall2 (λ x y, f x = Ok y) l r.
Proof.
  induction l as [|x l IH]; intros Hf; [by exists []|].
  destruct (Hf x) as [y Hy]; [by left|]. destruct IH as (r & Hr & Hall); [intros; apply Hf; by right|].
  exists (y :: r). cbn. rewrite Hy. cbn. rewrite Hr. cbn. split; [done|by constructor].
Qed.

Lemma collect_ok_fmap {E A B} (f : A → outcome E B) (g : A → B) l : (∀ x, x ∈ l → f x = Ok (g x)) → collect_ok f l = Ok (g <$> l).
Proof.
  induction l as [|x l IH]; intros Hf; [done|]. cbn. rewrite Hf by (by left). cbn.
  rewrite IH by (intros; apply Hf; by right). done.
Qed.

Lemma collect_ok_inv {E A B} (f : A → outcome E B) l r : collect_ok f l = Ok r → Forall2 (λ x y, f x = Ok y) l r.
Proof.
  revert r. induction l as [|x l IH]; intros r; cbn; [intros [= <-]; constructor|].
  destruct (f x) as [y|?|] eqn:Ef; try done. cbn. destruct (collect_ok f l) as [ys|?|]; try done. cbn.
  intros [= <-]. constructor; [done|by apply IH].
Qed.

Lemma Forall2_impl_elem {A B} (P Q : A → B → Prop) l k :
  Forall2 P l k → (∀ x y, x ∈ l → P x y → Q x y) → Forall2 Q l k.
Proof.
  induction 1 as [|x y l k Hxy Hall IH]; intros HQ; constructor; [apply HQ; [by left|done]|].
  apply IH. intros; apply HQ; [by right|done].
Qed.

Lemma Forall2_fmap_eq (l : list B256) (k : list Receipt) :
  Forall2 (λ t r, receipt_transaction_hash r = t) l k → receipt_transaction_hash <$> k = l.
Proof. induction 1 as [|t r l k Htr Hall IH]; [done|]. cbn. by rewrite Htr, IH. Qed.

Lemma elem_of_concat {A} (x : A) ls : x ∈ concat ls ↔ ∃ l, x ∈ l ∧ l ∈ ls.
Proof.
  induction ls as [|l ls IH]; cbn; [split; [by intros ?%elem_of_nil|by intros (? & _ & ?%elem_of_nil)]|].
  rewrite elem_of_app, IH. setoid_rewrite elem_of_cons. naive_solver.
Qed.

Lemma Forall2_ok_elem {E A B} (f : A → outcome E B) l k :
  Forall2 (λ x y, f x = Ok y) l k → ∀ y, y ∈ k ↔ ∃ x, x ∈ l ∧ f x = Ok y.
Proof.
  induction 1 as [|x y l k Hxy _ IH]; intros z; [split; [by intros ?%elem_of_nil|by intros (? & ?%elem_of_nil & _)]|].
  rewrite elem_of_cons, IH. setoid_rewrite elem_of_cons. split; [intros [->|(u & ? & ?)]; eauto|].
  intros (u & [->|?] & Hu); [left; congruence|right; eauto].
Qed.

Lemma zip_numbers ts numbers :
  Forall2 (λ t n, trigger_block_number t = Ok n) ts numbers →
  ∀ n t, (n, t) ∈ zip numbers ts ↔ t ∈ ts ∧ trigger_block_number t = Ok n.
Proof.
  induction 1 as [|t n ts numbers Ht _ IH]; intros m u; [split; [by intros ?%elem_of_nil|by intros [?%elem_of_nil _]]|].
  cbn [zip zip_with]. rewrite elem_of_cons, IH, elem_of_cons. split.
  - intros [[= -> ->]|[? ?]]; auto.
  - intros [[->|?] Hu]; [left; congruence|auto].
Qed.

(** ** A chain *)

(** A block of the chain with its traces *)
Record FullBlock := mkFullBlock { fb_block : EthereumBlock; fb_traces : list Trace }.

Definition fb_light (b : FullBlock) : LightEthereumBlock := eb_block (fb_block b).
Definition fb_ptr (b : FullBlock) : BlockPtr := light_block_ptr (fb_light b).
Definition fb_logs (b : FullBlock) : list Log := block_logs (fb_block b).

Definition trace_call (t : Trace) : option EthereumCall := match try_from_trace t with Ok call => call | _ => None end.
Definition fb_calls (b : FullBlock) : list EthereumCall := omap trace_call (fb_traces b).
Definition fb_with_calls (b : FullBlock) : EthereumBlockWithCalls := mkBlockWithCalls (fb_block b) (Some (fb_calls b)).

(** [to_address] of a trace filter *)
Definition trace_to (addresses : list Address) (t : Trace) : bool :=
  match addresses with
  | [] => true
  | _ => match trace_action t with CallAction _ to _ _ => bool_decide (to ∈ addresses) | OtherAction => false end
  end.

Section Chains.
Context (chain : BlockNumber → option FullBlock).

(** The blocks of a range of numbers *)
Definition blocks_in (from to : BlockNumber) : list FullBlock := omap chain (block_range from to).

(** Blocks are linked to their logs, traces, transactions and receipts. *)
Record fb_ok (n : BlockNumber) (b : FullBlock) := {
  fb_number : header_number (fb_light b) = n;
  fb_logs_in : ∀ log, log ∈ fb_logs b → log_block_hash log = Some (header_hash (fb_light b)) ∧ log_block_number log = Some n;
  fb_logs_ordered : logs_ordered (fb_logs b);
  fb_traces_in : ∀ t, t ∈ fb_traces b → trace_block_hash t = Some (header_hash (fb_light b)) ∧ trace_block_number t = Some n;
  fb_calls_in : ∀ call, call ∈ fb_calls b → ∃ hash, call_transaction_hash call = Some hash ∧ hash ∈ tx_hash <$> transactions (fb_light b);
  fb_transactions : NoDup (tx_hash <$> transactions (fb_light b));
  fb_receipts : ∀ hash, hash ∈ tx_hash <$> transactions (fb_light b) →
    ∃ receipt, receipt ∈ transaction_receipts (fb_block b) ∧ receipt_transaction_hash receipt = hash;
  fb_receipts_unique : NoDup (receipt_transaction_hash <$> transaction_receipts (fb_block b));
}.

Record chain_ok := {
  chain_numbers : ∀ n b, chain n = Some b → 0 ≤ n < 2 ^ 31 ∧ fb_ok n b;
  chain_hashes : ∀ n m b c, chain n = Some b → chain m = Some c → header_hash (fb_light b) = header_hash (fb_light c) → n = m;
  chain_log_hashes : ∀ n m b c l k, chain n = Some b → chain m = Some c → l ∈ fb_logs b → k ∈ fb_logs c →
    log_transaction_hash l = log_transaction_hash k → is_Some (log_transaction_hash l) → n = m;
}.

(** The answers of the node, up to the block with number [head] *)
Class NodeSpec (head : BlockNumber) `{EthereumNode} := {
  node_block n b : chain n = Some b → n ≤ head → get_block_by_number n = Ok (Some (fb_light b));
  node_null n : chain n = None → n ≤ head → ∃ e, get_block_by_number n = Err e ∧ contains_str "requested epoch was a null round" e = true;
  node_hash n b : chain n = Some b → n ≤ head → get_block_by_hash (header_hash (fb_light b)) = Ok (Some (fb_light b));
  node_logs f : filter_to f ≤ head →
    get_logs f = Ok (filter (λ log, selects f log = true) (blocks_in (filter_from f) (filter_to f) ≫= fb_logs)) ∨
    filter_from f < filter_to f ∧ ∃ e, get_logs f = Err e ∧ existsb (λ p, contains_str p e) TOO_MANY_LOGS_FINGERPRINTS = true;
  node_traces from to addresses : to ≤ head →
    trace_filter from to addresses = Ok (filter (λ t, trace_to addresses t = true) (blocks_in from to ≫= fb_traces));
  node_receipt n b receipt : chain n = Some b → n ≤ head → receipt ∈ transaction_receipts (fb_block b) →
    get_transaction_receipt (receipt_transaction_hash receipt) = Ok (Some receipt);
  node_fetch n b log hash : chain n = Some b → n ≤ head → log ∈ fb_logs b → log_transaction_hash log = Some hash →
    ∃ receipt, fetch_receipt hash (header_hash (fb_light b)) = Ok receipt ∧ receipt_transaction_hash receipt = hash;
  node_cached hashes l : cached_blocks hashes = Ok l →
    NoDup l ∧ ∀ light, light ∈ l → header_hash light ∈ hashes ∧
      ∀ n b, chain n = Some b → n ≤ head → header_hash light = header_hash (fb_light b) → light = fb_light b;
  node_cached_receipts n b : chain n = Some b → n ≤ head →
    ∃ l, cached_receipts (header_hash (fb_light b)) = Ok l ∧
      ∀ hash status, (hash, status) ∈ l → hash ∈ tx_hash <$> transactions (fb_light b) →
        ∃ receipt, receipt ∈ transaction_receipts (fb_block b) ∧ receipt_transaction_hash receipt = hash ∧ receipt_status receipt = status;
  node_completion l : completion_order l ≡ₚ l;
}.

Lemma elem_of_block_range from to n : n ∈ block_range from to ↔ from ≤ n ≤ to.
Proof. unfold block_range. rewrite elem_of_seqZ. lia. Qed.

Lemma elem_of_blocks_in from to b : b ∈ blocks_in from to ↔ ∃ n, from ≤ n ≤ to ∧ chain n = Some b.
Proof. unfold blocks_in. rewrite list_elem_of_omap. setoid_rewrite elem_of_block_range. done. Qed.

Lemma blocks_in_app from mid to : from ≤ mid + 1 → mid ≤ to → blocks_in from to = blocks_in from mid ++ blocks_in (mid + 1) to.
Proof.
  intros H1 H2. unfold blocks_in, block_range. rewrite <- omap_app. f_equal.
  replace (to - from + 1) with ((mid - from + 1) + (to - (mid + 1) + 1)) by lia.
  rewrite seqZ_app by lia. do 2 f_equal. lia.
Qed.

Lemma blocks_in_nil from to : to < from → blocks_in from to = [].
Proof. intros Hlt. unfold blocks_in, block_range. rewrite seqZ_nil by lia. done. Qed.

(** ** Blocks by number *)

Section Scans.
Context (head : BlockNumber) `{GraphMapSpec LogFilterNode} `{EthereumNode} `{!NodeSpec head} `{EthereumSettings}.
Context (Hchain : chain_ok).

Lemma next_existing fuel n to :
  n ≤ to ≤ head → is_Some (chain to) → (∀ m, n ≤ m < to → chain m = None) → (Z.to_nat (to - n) ≤ fuel)%nat →
  ∃ b, chain to = Some b ∧ next_existing_ptr_to_number fuel n = Ok (fb_ptr b).
Proof.
  revert n. induction fuel as [|fuel IH]; intros n Hn [b Hb] Hnone Hf.
  - assert (n = to) as -> by lia. exists b. split; [done|]. cbn. rewrite (node_block to b) by (done || lia). cbn.
    destruct (chain_numbers Hchain to b Hb) as [_ Hok]. unfold fb_ptr, light_block_ptr. by rewrite (fb_number _ _ Hok).
  - destruct (decide (n = to)) as [->|Hne].
    + exists b. split; [done|]. cbn. rewrite (node_block to b) by (done || lia). cbn.
      destruct (chain_numbers Hchain to b Hb) as [_ Hok]. unfold fb_ptr, light_block_ptr. by rewrite (fb_number _ _ Hok).
    + destruct (node_null n) as (e & He & Hc); [apply Hnone; lia|lia|]. cbn. rewrite He. cbn. rewrite Hc.
      apply IH; [lia|by eexists|intros; apply Hnone; lia|lia].
Qed.

Lemma load_block_ptr_spec n : n ≤ head → load_block_ptr n = Ok (fb_ptr <$> chain n).
Proof.
  intros Hn. unfold load_block_ptr. destruct (chain n) as [b|] eqn:E.
  - by rewrite (node_block n b).
  - destruct (node_null n E Hn) as (e & -> & Hc). cbn. by rewrite Hc.
Qed.

Lemma load_ptrs_spec l :
  (∀ n, n ∈ l → n ≤ head) → ∃ r, load_block_ptrs_rpc l = Ok r ∧ ∀ p, p ∈ r ↔ ∃ n b, n ∈ l ∧ chain n = Some b ∧ p = fb_ptr b.
Proof.
  intros Hl. destruct (filter_map_ok_spec load_block_ptr l) as (r & Hr & Hin).
  { intros n Hn. rewrite load_block_ptr_spec by auto. eauto. }
  exists r. split; [done|]. intros p. rewrite Hin. split.
  - intros (n & Hn & Hp). rewrite load_block_ptr_spec in Hp by auto. injection Hp as Hp.
    destruct (chain n) as [b|] eqn:E; [|done]. injection Hp as <-. eauto.
  - intros (n & b & Hn & Hb & ->). exists n. split; [done|]. rewrite load_block_ptr_spec, Hb by auto. done.
Qed.

Lemma scan_blocks_spec from to f :
  to ≤ head →
  ∃ r, scan_blocks from to f = Ok r ∧
    (∀ t, t ∈ r → ∃ n b type, from ≤ n ≤ to ∧ chain n = Some b ∧ t = EtBlock (fb_ptr b) type) ∧
    ∀ n b, from ≤ n ≤ to → chain n = Some b →
      (trigger_every_block f = true → EtBlock (fb_ptr b) Start ∈ r ∧ EtBlock (fb_ptr b) End ∈ r) ∧
      (∀ type, trigger_every_block f = false → type ∈ block_trigger_types_from_intervals n (polling_intervals f) → EtBlock (fb_ptr b) type ∈ r).
Proof.
  intros Hto. unfold scan_blocks. destruct (trigger_every_block f).
  - unfold block_range_to_ptrs. destruct (load_ptrs_spec (block_range from to)) as (r & -> & Hin).
    { intros n Hn%elem_of_block_range. lia. }
    eexists. split; [reflexivity|]. cbn. split.
    + intros t (l & Ht & (p & -> & Hp)%list_elem_of_fmap)%list_elem_of_join. apply Hin in Hp as (n & b & Hn%elem_of_block_range & Hb & ->).
      set_unfold in Ht. exists n, b. destruct Ht as [->|[->|[]]]; eauto.
    + intros n b Hn Hb. split; [intros _|done].
      assert (fb_ptr b ∈ r) as Hp by (apply Hin; exists n, b; by rewrite elem_of_block_range).
      split; apply list_elem_of_join; eexists; (split; [|apply list_elem_of_fmap; eexists; split; [reflexivity|exact Hp]]); set_solver.
  - case_bool_decide as E.
    + exists []. split; [done|]. split; [by intros ? ?%elem_of_nil|]. intros n b Hn Hb. split; [done|]. intros type _.
      rewrite E. unfold block_trigger_types_from_intervals. rewrite elements_empty. by intros ?%elem_of_nil.
    + unfold blocks_matching_polling_intervals.
      match goal with |- context [load_block_ptrs_rpc ?l] => destruct (load_ptrs_spec l) as (r & -> & Hin) end.
      { intros n [_ Hn%elem_of_block_range]%list_elem_of_filter. lia. }
      eexists. split; [reflexivity|]. split.
      * intros t (p & Ht & Hp)%list_elem_of_bind. apply Hin in Hp as (n & b & [_ Hn%elem_of_block_range]%list_elem_of_filter & Hb & ->).
        apply list_elem_of_fmap in Ht as (type & -> & _). eauto 10.
      * intros n b Hn Hb. split; [done|]. intros type _ Ht. destruct (chain_numbers Hchain n b Hb) as [_ Hok].
        apply list_elem_of_bind. exists (fb_ptr b). split.
        -- apply list_elem_of_fmap. exists type. split; [done|]. unfold fb_ptr, light_block_ptr. cbn. by rewrite (fb_number _ _ Hok).
        -- apply Hin. exists n, b. split; [|done]. apply list_elem_of_filter. split; [|by apply elem_of_block_range].
           intros E'. rewrite E' in Ht. by apply elem_of_nil in Ht.
Qed.

(** ** Logs *)

Definition selected (g : EthGetLogsFilter) (log : Log) : bool := asks_for 0 0 log g.

Lemma selects_range from to g log : selects (to_alloy_filter from to g) log = selected g log.
Proof. done. Qed.

(** The requests for ranges of blocks return what one request for all of them
    would, whatever ranges the node refuses. *)
Lemma log_stream_from_spec fuel to g start step :
  to ≤ head → 0 ≤ step → (Z.to_nat (to - start + 1 + step) ≤ fuel)%nat →
  log_stream_from fuel to g start step = Ok (filter (λ log, selected g log = true) (blocks_in start to ≫= fb_logs)).
Proof.
  intros Hto. revert start step. induction fuel as [|fuel IH]; intros start step Hstep Hf; cbn [log_stream_from]; case_bool_decide as Hs.
  1,3: by rewrite blocks_in_nil by lia. { lia. }
  destruct (node_logs (to_alloy_filter start (Z.min (start + step) to) g)) as [Hl|(Hlt & e & He & Hm)]; [cbn; lia| |].
  - rewrite Hl. cbn [filter_from filter_to to_alloy_filter]. rewrite IH by lia. cbn.
    rewrite (blocks_in_app start (Z.min (start + step) to) to) by lia. by rewrite bind_app, filter_app.
  - rewrite He, Hm. cbn in Hlt. rewrite bool_decide_eq_true_2 by lia. cbn.
    pose proof (Z.quot_lt step 10). pose proof (Z.quot_pos step 10). apply IH; lia.
Qed.

Lemma log_stream_spec from to g :
  from ≤ to → to ≤ head → 0 < max_event_only_range →
  log_stream from to g = Ok (filter (λ log, selected g log = true) (blocks_in from to ≫= fb_logs)).
Proof.
  intros Hft Hto Hm. unfold log_stream. rewrite bool_decide_eq_false_2 by lia.
  destruct (contracts g); apply log_stream_from_spec; lia.
Qed.

Lemma logs_in_range_spec from to f :
  from ≤ to → to ≤ head → 0 < max_event_only_range → (0 < get_logs_max_contracts)%nat → log_filter_wf f →
  ∃ logs, logs_in_block_range from to f = Ok logs ∧
    (∀ log, log ∈ logs → ∃ n b, from ≤ n ≤ to ∧ chain n = Some b ∧ log ∈ fb_logs b) ∧
    ∀ n b log, from ≤ n ≤ to → chain n = Some b → log ∈ fb_logs b → log_filter_matches log f = true → log ∈ logs.
Proof.
  intros Hft Hto Hm Hc Hwf. unfold logs_in_block_range.
  destruct (get_logs_complete 0 0 get_logs_max_contracts f Hc Hwf) as (fs & -> & Hall). cbn.
  rewrite (collect_ok_fmap _ (λ g, filter (λ log, selected g log = true) (blocks_in from to ≫= fb_logs)))
    by (intros; by apply log_stream_spec).
  cbn. eexists. split; [reflexivity|]. split.
  - intros log (l & Hlog & (g & -> & _)%list_elem_of_fmap)%elem_of_concat.
    apply list_elem_of_filter in Hlog as [_ (b & Hlog & (n & Hn & Hb)%elem_of_blocks_in)%list_elem_of_bind]. eauto.
  - intros n b log Hn Hb Hlog Hmt. destruct (Hall log Hmt) as (g & Hg & Hs). apply elem_of_concat. eexists.
    split; [|apply list_elem_of_fmap; by exists g]. apply list_elem_of_filter. split; [done|].
    apply list_elem_of_bind. exists b. split; [done|]. apply elem_of_blocks_in. eauto.
Qed.

(** Recording receipts of different transactions *)
Lemma record_receipts (l : list Receipt) (unique : gset B256) (m : gmap B256 Receipt) :
  NoDup (receipt_transaction_hash <$> l) → (∀ r, r ∈ l → receipt_transaction_hash r ∈ unique ∧ m !! receipt_transaction_hash r = None) →
  ∃ m', fold_ok record_receipt (unique, m) l = Ok (unique ∖ list_to_set (receipt_transaction_hash <$> l), m').
Proof.
  revert unique m. induction l as [|r l IH]; intros unique m Hn Hr.
  { exists m. cbn. do 2 f_equal. set_solver. }
  rewrite fmap_cons in Hn. apply NoDup_cons in Hn as [Hni Hn]. destruct (Hr r) as [Hu Hm]; [by left|].
  assert (record_receipt (unique, m) r = Ok (unique ∖ {[receipt_transaction_hash r]}, <[receipt_transaction_hash r := r]> m)) as Hrec.
  { unfold record_receipt. cbn [fst snd]. by rewrite bool_decide_eq_false_2, Hm by (intros E; by apply E). }
  cbn [fold_ok]. rewrite Hrec. cbn [mbind outcome_bind].
  destruct (IH (unique ∖ {[receipt_transaction_hash r]}) (<[receipt_transaction_hash r := r]> m)) as [m' Hm'].
  { done. }
  { intros r' Hr'. assert (receipt_transaction_hash r' ≠ receipt_transaction_hash r).
    { intros E. apply Hni. rewrite <- E. apply list_elem_of_fmap. by exists r'. }
    destruct (Hr r') as [? ?]; [by right|]. rewrite lookup_insert_ne by done. set_solver. }
  exists m'. rewrite Hm'. do 2 f_equal. set_solver.
Qed.

Lemma elem_of_hashes (logs : list Log) block s txn :
  foldl add_hash ∅ logs !! block = Some s → txn ∈ s →
  ∃ log, log ∈ logs ∧ log_block_hash log = Some block ∧ log_transaction_hash log = Some txn.
Proof.
  revert s. induction logs as [|log logs IH] using rev_ind; intros s; [by cbn; rewrite lookup_empty|].
  rewrite foldl_app. cbn [foldl]. unfold add_hash at 1. setoid_rewrite elem_of_app. intros Hl Ht.
  destruct (log_block_hash log) as [b|] eqn:Eb; [|by destruct (IH s Hl Ht) as (l & ? & ?); eauto].
  destruct (log_transaction_hash log) as [t|] eqn:Et; [|by destruct (IH s Hl Ht) as (l & ? & ?); eauto].
  destruct (decide (b = block)) as [->|Hne].
  - rewrite lookup_insert_eq in Hl. injection Hl as <-. apply elem_of_union in Ht as [->%elem_of_singleton|Ht].
    + exists log. split; [right; by left|done].
    + destruct (foldl add_hash ∅ logs !! block) as [s'|]; [|set_solver]. destruct (IH s' eq_refl Ht) as (l & ? & ?). eauto.
  - rewrite lookup_insert_ne in Hl by done. destruct (IH s Hl Ht) as (l & ? & ?). eauto.
Qed.

Lemma NoDup_elements_bind (l : list (B256 * gset B256)) :
  NoDup l.*1 → (∀ e e' t, e ∈ l → e' ∈ l → t ∈ e.2 → t ∈ e'.2 → e.1 = e'.1) → NoDup (l ≫= λ e, elements e.2).
Proof.
  induction l as [|e l IH]; [constructor|]. cbn. intros [Hne Hn]%NoDup_cons Hd. apply NoDup_app. split; [apply NoDup_elements|].
  split; [|apply IH; [done|]; intros; eapply Hd; eauto; by right].
  intros t Ht%elem_of_elements (e' & Ht'%elem_of_elements & He')%list_elem_of_bind. apply Hne.
  rewrite (Hd e e' t) by (done || by left || by right). apply list_elem_of_fmap. by exists e'.
Qed.

Lemma transaction_receipts_ok (hashes : gmap B256 (gset B256)) :
  (∀ block s txn, hashes !! block = Some s → txn ∈ s →
   ∃ n b log, chain n = Some b ∧ n ≤ head ∧ log ∈ fb_logs b ∧ block = header_hash (fb_light b) ∧ log_transaction_hash log = Some txn) →
  ∃ m, get_transaction_receipts hashes = Ok m.
Proof.
  intros Hh. unfold get_transaction_receipts.
  match goal with |- context [collect_ok ?g ?l] => destruct (collect_ok_total g l) as (rs & Hrs & Hall) end.
  { intros [block s] He. apply elem_of_map_to_list in He. cbn.
    destruct (collect_ok_total (λ txn, fetch_receipt txn block) (elements s)) as (r & Hr & _); [|by exists r].
    intros txn Ht%elem_of_elements. destruct (Hh block s txn He Ht) as (n & b & log & Hb & Hn & Hl & -> & Htx).
    destruct (node_fetch n b log txn Hb Hn Hl Htx) as (receipt & ? & _). by exists receipt. }
  rewrite Hrs. cbn [mbind outcome_bind].
  assert (receipt_transaction_hash <$> concat rs = (map_to_list hashes ≫= λ e, elements e.2)) as Hhash.
  { assert (∀ e, e ∈ map_to_list hashes → hashes !! e.1 = Some e.2) as Hin by (intros [k s]; apply elem_of_map_to_list).
    revert Hall Hin. generalize (map_to_list hashes). intros l. clear Hrs. revert rs.
    induction l as [|e l IH]; intros rs Hall Hin; inversion Hall as [|? r ? rs' Hr Hall']; subst; [done|]. cbn. rewrite fmap_app.
    rewrite (IH rs' Hall') by (intros; apply Hin; by right). f_equal. pose proof (collect_ok_inv _ _ _ Hr) as Hf.
    apply (Forall2_fmap_eq (elements e.2) r). eapply Forall2_impl_elem; [exact Hf|]. intros txn receipt Ht%elem_of_elements Hfetch.
    destruct (Hh e.1 e.2 txn (Hin e ltac:(by left)) Ht) as (n & b & log & Hb & Hn & Hl & Heq & Htx).
    destruct (node_fetch n b log txn Hb Hn Hl Htx) as (receipt' & Hf' & Heq'). rewrite <- Heq, Hfetch in Hf'. by injection Hf' as ->. }
  destruct (record_receipts (concat rs) (⋃ ((map_to_list hashes).*2)) ∅) as [m Hm].
  { rewrite Hhash. apply NoDup_elements_bind; [apply NoDup_fst_map_to_list|].
    intros [k s] [k' s'] t He%elem_of_map_to_list He'%elem_of_map_to_list Ht Ht'. cbn in *.
    destruct (Hh k s t He Ht) as (n & b & log & Hb & Hn & Hl & -> & Htx).
    destruct (Hh k' s' t He' Ht') as (n' & b' & log' & Hb' & Hn' & Hl' & -> & Htx').
    assert (n = n') as -> by (eapply (chain_log_hashes Hchain n n' b b' log log'); eauto; congruence). congruence. }
  { intros r Hr. split; [|apply lookup_empty].
    assert (receipt_transaction_hash r ∈ receipt_transaction_hash <$> concat rs) as Hin by (apply list_elem_of_fmap; by exists r).
    rewrite Hhash in Hin. apply list_elem_of_bind in Hin as (e & Ht%elem_of_elements & He). apply elem_of_union_list.
    exists e.2. split; [apply list_elem_of_fmap; by exists e|done]. }
  rewrite Hm. cbn. rewrite bool_decide_eq_true_2; [by exists m|]. rewrite Hhash. apply set_eq. intros t.
  rewrite elem_of_difference, elem_of_empty, elem_of_list_to_set, elem_of_union_list. split; [|done].
  intros [(s & (e & -> & He)%list_elem_of_fmap & Ht) Hnot]. apply Hnot. apply list_elem_of_bind. exists e.
  split; [by apply elem_of_elements|done].
Qed.

Lemma scan_logs_spec from to f supported :
  from ≤ to → to ≤ head → 0 < max_event_only_range → (0 < get_logs_max_contracts)%nat → log_filter_wf f →
  ∃ r, scan_logs from to f supported = Ok r ∧
    (∀ t, t ∈ r → ∃ n b log receipt, from ≤ n ≤ to ∧ chain n = Some b ∧ log ∈ fb_logs b ∧ t = EtLog (FullLog log receipt)) ∧
    ∀ n b log, from ≤ n ≤ to → chain n = Some b → log ∈ fb_logs b → log_filter_matches log f = true →
      ∃ receipt, EtLog (FullLog log receipt) ∈ r.
Proof.
  intros Hft Hto Hm Hc Hwf. unfold scan_logs. destruct (log_filter_is_empty f) eqn:E.
  { exists []. split; [done|]. split; [by intros ? ?%elem_of_nil|]. intros n b log _ _ _ Hl.
    apply log_filter_not_empty in Hl. congruence. }
  unfold get_logs_and_transactions. destruct (logs_in_range_spec from to f) as (logs & -> & Hin & Hcomp); [done..|]. cbn [mbind outcome_bind].
  set (hashes := foldl add_hash ∅ (filter _ logs)).
  assert (∃ m, (if bool_decide (hashes = ∅) then Ok ∅ else get_transaction_receipts hashes) = Ok m) as [m ->].
  { case_bool_decide; [by eexists|]. apply transaction_receipts_ok. intros block s txn Hl Ht.
    destruct (elem_of_hashes _ _ _ _ Hl Ht) as (log & [_ Hlog]%list_elem_of_filter & Hb' & Htx).
    destruct (Hin log Hlog) as (n & b & Hn & Hb & Hlb). exists n, b, log. split; [done|]. split; [lia|]. split; [done|].
    destruct (chain_numbers Hchain n b Hb) as [_ Hok]. destruct (fb_logs_in _ _ Hok log Hlb) as [Hbh _]. split; [congruence|done]. }
  cbn. eexists. split; [reflexivity|]. split.
  - intros t (log & -> & Hlog)%list_elem_of_fmap. destruct (Hin log Hlog) as (n & b & ? & ? & ?). eauto 10.
  - intros n b log Hn Hb Hlog Hmt. eexists. apply list_elem_of_fmap. exists log. split; [done|]. by eapply Hcomp.
Qed.

(** ** Calls *)

Lemma trace_stream_ranges fuel start to step addresses :
  to ≤ head → 1 ≤ step → (Z.to_nat (to - start + 1) ≤ fuel)%nat →
  ∃ ranges ts, trace_ranges fuel start to step = Ok ranges ∧ collect_ok (λ r, trace_filter r.1 r.2 addresses) ranges = Ok ts ∧
    concat ts = filter (λ t, trace_to addresses t = true) (blocks_in start to ≫= fb_traces).
Proof.
  intros Hto Hstep. revert start. induction fuel as [|fuel IH]; intros start Hf; cbn [trace_ranges]; case_bool_decide as Hs.
  1,3: (exists [], []; by rewrite blocks_in_nil by lia). { lia. }
  destruct (IH (Z.min (start + step - 1) to + 1)) as (rs & ts & -> & Hts & Hc); [lia|]. cbn.
  eexists _, _. split; [done|]. cbn. rewrite node_traces by lia. cbn. rewrite Hts. cbn. split; [done|]. cbn. rewrite Hc.
  rewrite (blocks_in_app start (Z.min (start + step - 1) to) to) by lia. by rewrite bind_app, filter_app.
Qed.

Lemma trace_stream_spec from to addresses :
  from ≤ to → to ≤ head → 1 ≤ trace_stream_step_size →
  trace_stream from to addresses = Ok (filter (λ t, trace_to addresses t = true) (blocks_in from to ≫= fb_traces)).
Proof.
  intros Hft Hto Hs. unfold trace_stream. rewrite bool_decide_eq_false_2 by lia.
  destruct (trace_stream_ranges (Z.to_nat (to - from + 1)) from to (match addresses with [] => 1 | _ => trace_stream_step_size end) addresses)
    as (rs & ts & -> & Hts & Hc); [lia|destruct addresses; lia|lia|]. cbn. rewrite Hts. cbn. by rewrite Hc.
Qed.

Lemma trace_call_spec n b t : fb_ok n b → t ∈ fb_traces b → try_from_trace t = Ok (trace_call t).
Proof.
  intros Hok Ht. destruct (fb_traces_in _ _ Hok t Ht) as [Hh Hn]. unfold trace_call, try_from_trace. rewrite Hh, Hn.
  destruct (trace_error t); [done|]. destruct (trace_action t) as [? ? ? input|]; [|done]. destruct (length input <? 4)%nat; [done|].
  destruct (trace_result t) as [[]|]; [|done..]. by destruct (transaction_position t).
Qed.

(** What a call has of its trace *)
Lemma trace_call_inv n b t call :
  fb_ok n b → t ∈ fb_traces b → trace_call t = Some call →
  (4 ≤ length (call_input call))%nat ∧ call_block_number call = n ∧ call_block_hash call = header_hash (fb_light b) ∧
  ∀ addresses, trace_to addresses t = match addresses with [] => true | _ => bool_decide (call_to call ∈ addresses) end.
Proof.
  intros Hok Ht. destruct (fb_traces_in _ _ Hok t Ht) as [Hh Hn]. unfold trace_call, try_from_trace, trace_to. rewrite Hh, Hn.
  destruct (trace_error t); [done|]. destruct (trace_action t) as [? ? ? input|]; [|done].
  destruct (Nat.ltb_spec (length input) 4); [done|].
  destruct (trace_result t) as [[]|]; [|done..]. destruct (transaction_position t); [|done]. intros [= <-]. cbn. done.
Qed.

Lemma fb_call_spec n b call :
  fb_ok n b → call ∈ fb_calls b →
  (4 ≤ length (call_input call))%nat ∧ call_block_number call = n ∧ call_block_hash call = header_hash (fb_light b).
Proof.
  intros Hok (t & Ht & Hc)%list_elem_of_omap. destruct (trace_call_inv n b t call Hok Ht Hc) as (? & ? & ? & _). done.
Qed.

Definition started (f : EthereumCallFilter) (to : BlockNumber) (a : Address) : Prop :=
  ∃ n s, contract_addresses_function_signatures f !! a = Some (n, s) ∧ n ≤ to.

Lemma calls_in_range_spec from to f :
  from ≤ to → to ≤ head → 1 ≤ trace_stream_step_size →
  ∃ calls, calls_in_block_range from to f = Ok calls ∧
    (∀ call, call ∈ calls → ∃ n b, from ≤ n ≤ to ∧ chain n = Some b ∧ call ∈ fb_calls b) ∧
    ∀ n b call, from ≤ n ≤ to → chain n = Some b → call ∈ fb_calls b → call_filter_matches call f = true →
      started f to (call_to call) ∨ wildcard_signatures f ≠ ∅ → call ∈ calls.
Proof.
  intros Hft Hto Hs. unfold calls_in_block_range.
  set (sel := (filter (λ e : Address * Entry, e.2.1 ≤ to) (map_to_list (contract_addresses_function_signatures f))).*1).
  assert (∀ a, started f to a → a ∈ sel) as Hsel.
  { intros a (n & s & Hl & Hn). apply list_elem_of_fmap. exists (a, (n, s)). split; [done|]. apply list_elem_of_filter.
    split; [done|by apply elem_of_map_to_list]. }
  destruct (bool_decide (sel = []) && bool_decide (wildcard_signatures f = ∅)) eqn:E.
  { apply andb_true_iff in E as [E1%bool_decide_eq_true E2%bool_decide_eq_true]. exists []. split; [done|]. split; [by intros ? ?%elem_of_nil|].
    intros n b call _ _ _ _ [Hst|?]; [|done]. apply Hsel in Hst. rewrite E1 in Hst. by apply elem_of_nil in Hst. }
  set (addresses := if _ || _ then [] else sel). rewrite trace_stream_spec by done. cbn [mbind outcome_bind].
  match goal with |- context [filter_map_ok ?g ?l] => destruct (filter_map_ok_spec g l) as (calls & -> & Hin) end.
  { intros t [_ (b & Ht & (n & Hn & Hb)%elem_of_blocks_in)%list_elem_of_bind]%list_elem_of_filter.
    destruct (chain_numbers Hchain n b Hb) as [_ Hok]. rewrite (trace_call_spec n b t Hok Ht). cbn. eauto. }
  exists calls. split; [done|]. split.
  - intros call (t & [_ (b & Ht & (n & Hn & Hb)%elem_of_blocks_in)%list_elem_of_bind]%list_elem_of_filter & Hc)%Hin.
    exists n, b. split; [done|]. split; [done|]. destruct (chain_numbers Hchain n b Hb) as [_ Hok].
    rewrite (trace_call_spec n b t Hok Ht) in Hc. cbn in Hc. destruct (trace_call t) as [call'|] eqn:Ec; [|done]. cbn in Hc.
    destruct (call_filter_matches call' f); [|done]. injection Hc as <-. apply list_elem_of_omap. by exists t.
  - intros n b call Hn Hb Hc Hm Hst. apply list_elem_of_omap in Hc as (t & Ht & Hc). destruct (chain_numbers Hchain n b Hb) as [_ Hok].
    apply Hin. exists t. rewrite (trace_call_spec n b t Hok Ht), Hc. cbn. rewrite Hm. split; [|done].
    apply list_elem_of_filter. split; [|apply list_elem_of_bind; exists b; rewrite elem_of_blocks_in; eauto].
    destruct (trace_call_inv n b t call Hok Ht Hc) as (_ & _ & _ & ->). unfold addresses.
    destruct ((100 <? length sel)%nat || negb (bool_decide (wildcard_signatures f = ∅))) eqn:Ew; [done|].
    apply orb_false_iff in Ew as [_ Ew%negb_false_iff%bool_decide_eq_true]. destruct Hst as [Hst|?]; [|done].
    apply Hsel in Hst. destruct sel; [done|]. by apply bool_decide_eq_true_2.
Qed.

Lemma scan_calls_spec from to f :
  from ≤ to → to ≤ head → 1 ≤ trace_stream_step_size →
  ∃ r, scan_calls from to f = Ok r ∧
    (∀ t, t ∈ r → ∃ n b call, from ≤ n ≤ to ∧ chain n = Some b ∧ call ∈ fb_calls b ∧ t = EtCall call) ∧
    ∀ n b call m, from ≤ n ≤ to → chain n = Some b → call ∈ fb_calls b → m ≤ n →
      call_covered f (call_to call) m (take 4 (call_input call)) → EtCall call ∈ r.
Proof.
  intros Hft Hto Hs. unfold scan_calls. destruct (call_filter_is_empty f) eqn:E.
  { exists []. split; [done|]. split; [by intros ? ?%elem_of_nil|]. intros n b call m _ _ _ _ Hc. apply call_filter_not_empty in Hc. congruence. }
  destruct (calls_in_range_spec from to f) as (calls & -> & Hin & Hcomp); [done..|]. eexists. split; [reflexivity|]. split.
  - intros t (call & -> & Hc)%list_elem_of_fmap. destruct (Hin call Hc) as (n & b & ? & ? & ?). eauto 10.
  - intros n b call m Hn Hb Hc Hmn Hcov. apply list_elem_of_fmap. exists call. split; [done|].
    destruct (chain_numbers Hchain n b Hb) as [_ Hok]. destruct (fb_call_spec n b call Hok Hc) as (Hl & _ & _).
    eapply Hcomp; [done..|by eapply covered_call|]. destruct Hcov as [(n' & s & Hf & Hn' & _)|?]; [left|right; set_solver].
    exists n', s. split; [done|lia].
Qed.

Lemma scan_with_calls_spec from to f :
  from ≤ to → to ≤ head → 1 ≤ trace_stream_step_size → block_filter_wf f →
  ∃ r, scan_with_calls from to f = Ok r ∧
    (∀ t, t ∈ r → ∃ n b call, from ≤ n ≤ to ∧ chain n = Some b ∧ call ∈ fb_calls b ∧ t = EtBlock (fb_ptr b) (WithCallTo (call_to call))) ∧
    ∀ n b call m, from ≤ n ≤ to → chain n = Some b → call ∈ fb_calls b → m ≤ n →
      address_from (contract_addresses f) m (call_to call) → EtBlock (fb_ptr b) (WithCallTo (call_to call)) ∈ r.
Proof.
  intros Hft Hto Hs Hwf. unfold scan_with_calls. case_bool_decide as E.
  { exists []. split; [done|]. split; [by intros ? ?%elem_of_nil|]. intros n b call m _ _ _ _ (n' & Hn & _). set_solver. }
  destruct (calls_in_range_spec from to (call_filter_from_block_filter f)) as (calls & -> & Hin & Hcomp); [done..|].
  assert (∀ n b call, chain n = Some b → call ∈ fb_calls b → with_call_trigger call = EtBlock (fb_ptr b) (WithCallTo (call_to call))) as Hw.
  { intros n b call Hb Hc. destruct (chain_numbers Hchain n b Hb) as [_ Hok]. destruct (fb_call_spec n b call Hok Hc) as (_ & Hnum & Hhash).
    unfold with_call_trigger, fb_ptr, light_block_ptr. by rewrite Hnum, Hhash, (fb_number _ _ Hok). }
  eexists. split; [reflexivity|]. split.
  - intros t (call & -> & Hc)%list_elem_of_fmap. destruct (Hin call Hc) as (n & b & Hn & Hb & Hcb). exists n, b, call. eauto 10.
  - intros n b call m Hn Hb Hc Hmn (n' & Ha & Hle). apply list_elem_of_fmap. exists call. split; [symmetry; by eapply Hw|].
    destruct (chain_numbers Hchain n b Hb) as [_ Hok]. destruct (fb_call_spec n b call Hok Hc) as (Hl & _ & _).
    destruct (call_filter_of_block f (call_to call) Hwf) as [Hf _]. specialize (Hf n' Ha).
    eapply Hcomp; [done..| |left; exists n', ∅; split; [done|lia]].
    unfold call_filter_matches. destruct (Nat.ltb_spec (length (call_input call)) 4); [lia|]. rewrite Hf. done.
Qed.

(** ** All triggers of the range *)

(** A trigger that the scan finds for a block *)
Inductive chain_trigger (n : BlockNumber) (b : FullBlock) : EthereumTrigger → Prop :=
| ct_block type : chain_trigger n b (EtBlock (fb_ptr b) type)
| ct_log log receipt : log ∈ fb_logs b → chain_trigger n b (EtLog (FullLog log receipt))
| ct_call call : call ∈ fb_calls b → chain_trigger n b (EtCall call).

Lemma chain_trigger_block n b t :
  chain n = Some b → chain_trigger n b t → trigger_block_hash t = Ok (header_hash (fb_light b)) ∧ trigger_block_number t = Ok n.
Proof.
  intros Hb Ht. destruct (chain_numbers Hchain n b Hb) as [Hn Hok]. destruct Ht as [type|log receipt Hl|call Hc]; cbn.
  - by rewrite (fb_number _ _ Hok).
  - destruct (fb_logs_in _ _ Hok log Hl) as [-> ->]. cbn. destruct (Z.ltb_spec n (2 ^ 31)); [done|lia].
  - destruct (fb_call_spec n b call Hok Hc) as (_ & -> & ->). done.
Qed.

Section Ranges.
Context `{Keccak} `{AbiCodec} `{DeclaredCalls}.
Context (from_log_trigger : list MappingABI → CallDecls → Log → list (string * SolValue) → outcome string (list DeclaredCall)).
Context (settings_ok : 0 < max_event_only_range ∧ (0 < get_logs_max_contracts)%nat ∧ 1 ≤ trace_stream_step_size).
Implicit Types ds : EthDataSource.

Abbreviation handles := (handles from_log_trigger).

Lemma handled_scanned_block f ds from to n b type (blocks with_calls : list EthereumTrigger) :
  filter_covers f ds → source_ok ds → from ≤ n ≤ to → chain n = Some b →
  (∀ n b, from ≤ n ≤ to → chain n = Some b →
      (trigger_every_block (tf_block f) = true → EtBlock (fb_ptr b) Start ∈ blocks ∧ EtBlock (fb_ptr b) End ∈ blocks) ∧
      (∀ type, trigger_every_block (tf_block f) = false → type ∈ block_trigger_types_from_intervals n (polling_intervals (tf_block f)) →
        EtBlock (fb_ptr b) type ∈ blocks)) →
  (∀ n b call m, from ≤ n ≤ to → chain n = Some b → call ∈ fb_calls b → m ≤ n →
      address_from (contract_addresses (tf_block f)) m (call_to call) → EtBlock (fb_ptr b) (WithCallTo (call_to call)) ∈ with_calls) →
  trigger_of (fb_with_calls b) (fb_calls b) (EtBlock (fb_ptr b) type) → handles ds (EtBlock (fb_ptr b) type) (fb_light b) →
  EtBlock (fb_ptr b) type ∈ blocks ∨ EtBlock (fb_ptr b) type ∈ with_calls.
Proof.
  intros Hcov [Hadr Hev] Hn Hb Hbl Hwc Hof Hh. pose proof (handles_address _ _ _ _ Hh) as [Hstart Ha].
  destruct (handles_block _ _ _ _ _ Hh) as (h & Hin & Hm). destruct (chain_numbers Hchain n b Hb) as [_ Hok].
  rewrite (fb_number _ _ Hok) in Hstart, Hm. destruct (Hbl n b Hn Hb) as [Hevery Hint].
  assert (is_Some (eds_address ds)) as Hsome.
  { destruct (eds_address ds) as [a|] eqn:E; [by eexists|]. destruct Hadr as [_ Hbh]; [done|]. rewrite Hbh in Hin. by apply elem_of_nil in Hin. }
  assert (∀ i, interval_of ds i → i.2 = 0 ∧ n = i.1 ∧ type = Start ∨ 0 < i.2 ∧ i.1 ≤ n ∧ Z.rem (n - i.1) i.2 = 0 ∧ type = End →
    EtBlock (fb_ptr b) type ∈ blocks) as Hi.
  { intros i Hi Hc. destruct (trigger_every_block (tf_block f)) eqn:E.
    - destruct (Hevery eq_refl). destruct Hc as [(_ & _ & ->)|(_ & _ & _ & ->)]; done.
    - apply Hint; [done|]. destruct (covers_intervals _ _ Hcov i Hsome Hi) as [?|Hp]; [congruence|].
      destruct (interval_types n _ _ Hp) as [Hs He]. destruct Hc as [(? & ? & ->)|(? & ? & ? & ->)]; auto. }
  destruct type as [| |a]; cbn in Hm; destruct (block_filter h) as [[| |every]|] eqn:Ef; try done.
  - apply bool_decide_eq_true in Hm. left. apply (Hi (start_block ds, 0)); [|auto]. exists h. unfold polling_interval. by rewrite Ef.
  - assert (wrap_signed 32 every = every) as Hw by (specialize (Hev h every Hin Ef); unfold wrap_signed; rewrite Z.mod_small by lia; destruct (Z.ltb_spec every (2 ^ (32 - 1))); lia).
    rewrite Hw in Hm. specialize (Hev h every Hin Ef). left. apply (Hi (start_block ds, every)).
    + exists h. unfold polling_interval. by rewrite Ef, Hw.
    + right. cbn. split; [lia|]. split; [lia|]. split; [lia|done].
  - left. apply Hevery. apply (covers_every _ _ Hcov); [done|by exists h].
  - right. inversion Hof as [| | | |call Hcall Heq]. subst a. destruct Hsome as [a' Ha'].
    assert (a' = call_to call) as -> by (by apply Ha).
    eapply (Hwc n b call (start_block ds)); [done|done|done|done|].
    apply (covers_with_calls _ _ Hcov); [done|by exists h].
Qed.

(** The scan finds only triggers of the blocks of the range, and all that a
    data source handles. *)
Lemma range_triggers_spec from to f supported :
  from ≤ to → to ≤ head → filter_wf f →
  ∃ ts, range_triggers from to f supported = Ok ts ∧
    (∀ t, t ∈ ts → ∃ n b, from ≤ n ≤ to ∧ chain n = Some b ∧ chain_trigger n b t) ∧
    ∀ n b ds t, from ≤ n ≤ to → chain n = Some b → filter_covers f ds → source_ok ds →
      trigger_of (fb_with_calls b) (fb_calls b) t → handles ds t (fb_light b) →
      ∃ t', t' ∈ ts ∧ same_trigger t t' ∧ trigger_log t = trigger_log t' ∧ chain_trigger n b t'.
Proof.
  intros Hft Hto [Hl Hb]. destruct settings_ok as (Hm & Hg & Hs). unfold range_triggers.
  destruct (scan_blocks_spec from to (tf_block f)) as (blocks & -> & Bin & Bcomp); [done|]. cbn [mbind outcome_bind].
  destruct (scan_logs_spec from to (tf_log f) supported) as (logs & -> & Lin & Lcomp); [done..|]. cbn [mbind outcome_bind].
  destruct (scan_calls_spec from to (tf_call f)) as (calls & -> & Cin & Ccomp); [done..|]. cbn [mbind outcome_bind].
  destruct (scan_with_calls_spec from to (tf_block f)) as (withs & -> & Win & Wcomp); [done..|]. cbn [mbind outcome_bind].
  eexists. split; [reflexivity|].
  assert (∀ t, t ∈ concat (completion_order [blocks; logs; calls; withs]) ↔ t ∈ blocks ∨ t ∈ logs ∨ t ∈ calls ∨ t ∈ withs) as Hc.
  { intros t. rewrite elem_of_concat. setoid_rewrite node_completion. set_solver. }
  setoid_rewrite Hc. clear Hc. split.
  - intros t [Ht|[Ht|[Ht|Ht]]].
    + destruct (Bin t Ht) as (n & b & type & Hn & Hnb & ->). exists n, b. split; [done|]. split; [done|constructor].
    + destruct (Lin t Ht) as (n & b & log & receipt & Hn & Hnb & ? & ->). exists n, b. split; [done|]. split; [done|by constructor].
    + destruct (Cin t Ht) as (n & b & call & Hn & Hnb & ? & ->). exists n, b. split; [done|]. split; [done|by constructor].
    + destruct (Win t Ht) as (n & b & call & Hn & Hnb & ? & ->). exists n, b. split; [done|]. split; [done|constructor].
  - intros n b ds t Hn Hnb Hcov Hsrc Hof Hh. destruct t as [ptr type|call|r].
    + assert (ptr = fb_ptr b) as -> by (inversion Hof; done). eexists. split; [|split; [done|split; [done|constructor]]].
      destruct (handled_scanned_block f ds from to n b type blocks withs) as [?|?]; auto.
    + inversion Hof as [|call' Hcall Hsucc Heq| | |]. subst call'. eexists. split; [|split; [done|split; [done|by constructor]]].
      right. right. left. pose proof (handles_address _ _ _ _ Hh) as [Hst Ha].
      destruct (handles_call _ _ _ _ Hh) as (Hlen & h & Hin & Hid). destruct (chain_numbers Hchain n b Hnb) as [_ Hok].
      rewrite (fb_number _ _ Hok) in Hst. destruct Hsrc as [Hadr _].
      destruct (eds_address ds) as [a|] eqn:E; [|destruct (Hadr eq_refl) as [Hno _]; rewrite Hno in Hin; by apply elem_of_nil in Hin].
      assert (a = call_to call) as -> by (by apply Ha).
      eapply (Ccomp n b call (start_block ds)); [done..|]. rewrite Hid. by apply (covers_calls _ _ Hcov).
    + inversion Hof as [receipt i log req Hr Hlg Heq| | | |]. subst r.
      destruct (handles_log _ _ _ _ Hh) as (log' & h & Hlog & Hin & Hacc). cbn in Hlog. rewrite Hlg in Hlog. injection Hlog as <-.
      apply list_elem_of_filter in Hin as [_ Hin]. destruct (covered_log _ _ _ _ (covers_logs _ _ Hcov h Hin) Hacc) as [Hmt _].
      assert (log ∈ fb_logs b) as Hlb by (apply list_elem_of_bind; exists receipt; split; [by eapply list_elem_of_lookup_2|done]).
      destruct (Lcomp n b log Hn Hnb Hlb Hmt) as (receipt' & Hrt). exists (EtLog (FullLog log receipt')).
      split; [by right; left|]. unfold same_trigger. cbn. unfold log_ref_transaction_hash, log_ref_index. cbn. rewrite Hlg. cbn.
      split; [done|]. split; [done|by constructor].
Qed.

(** ** Grouping by block *)

Lemma push_triggers_lookup (l : list (BlockNumber * EthereumTrigger)) m n :
  foldl push_trigger m l !! n =
  match (filter (λ e, e.1 = n) l).*2 with [] => m !! n | ts => Some (default [] (m !! n) ++ ts) end.
Proof.
  revert m. induction l as [|[k t] l IH]; intros m; [done|]. cbn [foldl]. rewrite IH, filter_cons. cbn [fst].
  unfold push_trigger. cbn [fst snd]. destruct (decide (k = n)) as [->|Hne].
  - rewrite lookup_insert_eq. rewrite fmap_cons. destruct (_.*2); cbn; [done|]. by rewrite <- app_assoc.
  - by rewrite !lookup_insert_ne.
Qed.

(** Light blocks of the chain *)
Definition on_chain (light : LightEthereumBlock) : Prop := ∃ n b, chain n = Some b ∧ n ≤ head ∧ light = fb_light b.

Lemma on_chain_unique light light' :
  on_chain light → on_chain light' → header_hash light = header_hash light' ∨ header_number light = header_number light' → light = light'.
Proof.
  intros (n & b & Hb & _ & ->) (m & c & Hc & _ & ->) Heq.
  destruct (chain_numbers Hchain n b Hb) as [_ Hok], (chain_numbers Hchain m c Hc) as [_ Hok'].
  rewrite (fb_number _ _ Hok), (fb_number _ _ Hok') in Heq.
  assert (n = m) as -> by (destruct Heq; [by eapply (chain_hashes Hchain)|done]). congruence.
Qed.

Lemma load_missing missing :
  (∀ hash, hash ∈ missing → ∃ light, on_chain light ∧ hash = header_hash light) →
  ∃ new, collect_ok load_block_rpc missing = Ok new ∧ header_hash <$> new = missing ∧ ∀ light, light ∈ new → on_chain light.
Proof.
  induction missing as [|hash l IH]; intros Hh; [exists []; split; [done|]; split; [done|]; by intros ? ?%elem_of_nil|].
  destruct IH as (new & Hn & Hhash & Hall); [intros; apply Hh; by right|].
  destruct (Hh hash) as (light & (n & b & Hb & Hle & ->) & ->); [by left|]. exists (fb_light b :: new).
  assert (load_block_rpc (header_hash (fb_light b)) = Ok (fb_light b)) as Hl by (unfold load_block_rpc; by rewrite (node_hash n b)).
  cbn [collect_ok]. rewrite Hl. cbn [mbind outcome_bind]. rewrite Hn. split; [done|].
  split; [by rewrite fmap_cons, Hhash|]. intros light [->|?]%elem_of_cons; [by exists n, b|auto].
Qed.

Lemma load_blocks_spec (hashes : gset B256) :
  (∀ hash, hash ∈ hashes → ∃ light, on_chain light ∧ hash = header_hash light) →
  ∃ lights, load_blocks hashes = Ok lights ∧ NoDup (header_number <$> lights) ∧
    ∀ light, light ∈ lights ↔ on_chain light ∧ header_hash light ∈ hashes.
Proof.
  intros Hh. unfold load_blocks.
  set (blocks := match cached_blocks (elements hashes) with Ok blocks => blocks | _ => [] end).
  assert (NoDup blocks ∧ ∀ light, light ∈ blocks → header_hash light ∈ hashes ∧ on_chain light) as [Hn Hbl].
  { unfold blocks. destruct (cached_blocks (elements hashes)) as [l|?|] eqn:E; [|split; [constructor|by intros ? ?%elem_of_nil]..].
    destruct (node_cached _ _ E) as [Hn Hl]. split; [done|]. intros light Hlight. destruct (Hl light Hlight) as [Hin%elem_of_elements Hun].
    split; [done|]. destruct (Hh _ Hin) as (light' & (n & b & Hb & Hle & ->) & Heq). exists n, b. split; [done|]. split; [done|]. by apply (Hun n b). }
  clearbody blocks. set (missing := filter _ (elements hashes)).
  assert (∀ hash, hash ∈ missing ↔ hash ∈ hashes ∧ hash ∉ header_hash <$> blocks) as Hmiss.
  { intros hash. unfold missing. rewrite list_elem_of_filter, elem_of_elements. tauto. }
  destruct (load_missing missing) as (new & -> & Hhash & Hnew); [intros hash [? _]%Hmiss; auto|]. cbn [mbind outcome_bind].
  destruct (sort_by_number header_number (blocks ++ new)) as (r & -> & Hp & _). exists r. split; [done|].
  assert (∀ light, light ∈ blocks ++ new → on_chain light) as Hall by (intros light [Hl|Hl]%elem_of_app; [by apply Hbl|by apply Hnew]).
  assert (∀ light, light ∈ new → header_hash light ∈ missing) as Hnm by (intros light Hl; rewrite <- Hhash; apply list_elem_of_fmap; by exists light).
  split.
  - rewrite Hp. apply NoDup_fmap_2_strong; [intros x y Hx Hy ?; apply on_chain_unique; auto|].
    apply NoDup_app. split; [done|]. split.
    + intros light Hl [_ Hno]%Hnm%Hmiss. apply Hno. apply list_elem_of_fmap. by exists light.
    + eapply NoDup_fmap_1. rewrite Hhash. apply NoDup_filter, NoDup_elements.
  - intros light. rewrite Hp. split.
    + intros Hl. split; [by apply Hall|]. apply elem_of_app in Hl as [Hl|Hl]; [by apply (Hbl light Hl)|]. by apply Hnm, Hmiss in Hl as [? _].
    + intros [Hon Hin]. apply elem_of_app. destruct (decide (header_hash light ∈ header_hash <$> blocks)) as [Hd|Hd].
      * left. apply list_elem_of_fmap in Hd as (light' & Heq & Hl). rewrite (on_chain_unique light light'); [done|done|by apply Hbl|by left].
      * right. assert (header_hash light ∈ header_hash <$> new) as Hm by (rewrite Hhash; by apply Hmiss).
        apply list_elem_of_fmap in Hm as (light' & Heq & Hl). rewrite (on_chain_unique light light'); [done|done|by apply Hnew|by left].
Qed.

Lemma take_triggers_spec by_block lights :
  NoDup (header_number <$> lights) →
  (∀ light, light ∈ lights → ∃ ts, by_block !! header_number light = Some ts ∧ triggers_wf ts) →
  ∃ bts, take_triggers by_block lights = Ok bts ∧
    Forall2 (λ light bt, ∃ ts, by_block !! header_number light = Some ts ∧ block_with_triggers_new (Final light) ts = Ok bt) lights bts.
Proof.
  revert by_block. induction lights as [|light lights IH]; intros by_block Hn Hts; [exists []; by split|].
  rewrite fmap_cons in Hn. apply NoDup_cons in Hn as [Hni Hn]. destruct (Hts light) as (ts & Hl & Hwf); [by left|].
  destruct (block_with_triggers_spec (Final light) ts Hwf) as (r & _ & Hr & _).
  assert (∀ l, l ∈ lights → delete (header_number light) by_block !! header_number l = by_block !! header_number l) as Hdel.
  { intros l Hin. apply lookup_delete_ne. intros E. apply Hni. rewrite E. apply list_elem_of_fmap. by exists l. }
  destruct (IH (delete (header_number light) by_block)) as (bts & Hb & Hall); [done| |].
  { intros l Hin. rewrite Hdel by done. apply Hts. by right. }
  eexists. cbn. rewrite Hl. cbn. rewrite Hr. cbn. rewrite Hb. cbn. split; [done|]. constructor; [by exists ts|].
  eapply Forall2_impl_elem; [exact Hall|]. cbn. intros l bt Hin. by rewrite Hdel.
Qed.

(** ** Calls of transactions that failed *)

(** The transaction with a hash succeeded *)
Definition tx_status (b : FullBlock) (hash : B256) (status : bool) : Prop :=
  ∃ receipt, receipt ∈ transaction_receipts (fb_block b) ∧ receipt_transaction_hash receipt = hash ∧ receipt_status receipt = status.

Lemma tx_status_unique n b hash s s' : fb_ok n b → tx_status b hash s → tx_status b hash s' → s = s'.
Proof.
  intros Hok (r & Hr & <- & <-) (r' & Hr' & Heq & <-). f_equal.
  apply list_elem_of_lookup in Hr as [i Hi], Hr' as [j Hj].
  assert (i = j) as ->; [|congruence].
  eapply (NoDup_lookup _ _ _ _ (fb_receipts_unique _ _ Hok)); rewrite list_lookup_fmap, ?Hi, ?Hj; cbn; by rewrite ?Heq.
Qed.

Lemma split_receipts_spec (receipts : gmap B256 bool) txs :
  let r := split_receipts receipts txs in
  (∀ hash status, (hash, status) ∈ r.1 → receipts !! hash = Some status ∧ hash ∈ tx_hash <$> txs) ∧
  (∀ hash, hash ∈ r.2 → hash ∈ tx_hash <$> txs) ∧
  (∀ hash, hash ∈ tx_hash <$> txs → hash ∈ r.1.*1 ∨ hash ∈ r.2).
Proof.
  revert receipts. induction txs as [|tx txs IH]; intros receipts; cbn.
  { split; [by intros ? ? ?%elem_of_nil|]. split; by intros ? ?%elem_of_nil. }
  destruct (receipts !! tx_hash tx) as [status|] eqn:E; cbn.
  - destruct (IH (delete (tx_hash tx) receipts)) as (H1' & H2' & H3'). split; [|split].
    + intros hash s [[= -> ->]|Hin]%elem_of_cons; [split; [done|by left]|]. apply H1' in Hin as [Hl ?].
      apply lookup_delete_Some in Hl as [_ ?]. split; [done|by right].
    + intros hash ?. right. by apply H2'.
    + intros hash [->|Hin]%elem_of_cons; [left; by left|]. destruct (H3' hash Hin); [left; by right|by right].
  - destruct (IH receipts) as (H1' & H2' & H3'). split; [|split].
    + intros hash s Hin. apply H1' in Hin as [? ?]. split; [done|by right].
    + intros hash [->|?]%elem_of_cons; [by left|right; by apply H2'].
    + intros hash [->|Hin]%elem_of_cons; [right; by left|]. destruct (H3' hash Hin); [by left|right; by right].
Qed.

(** The statuses that were looked up *)
Lemma transaction_success_spec (n : BlockNumber) (b : FullBlock) (hashes : gset B256) (txs := filter (λ tx, tx_hash tx ∈ hashes) (transactions (fb_light b))) :
  chain n = Some b → n ≤ head → (∀ hash, hash ∈ hashes → hash ∈ tx_hash <$> transactions (fb_light b)) →
  ∃ stored fetched, cached_receipts (header_hash (fb_light b)) = Ok stored ∧
    let r := split_receipts (list_to_map (reverse stored)) txs in
    collect_ok fetch_receipt_from_ethereum_client r.2 = Ok fetched ∧
    let success : gmap B256 bool := list_to_map (reverse (r.1 ++ fetched)) in
    hashes ⊆ dom success ∧ ∀ hash status, success !! hash = Some status → tx_status b hash status.
Proof.
  intros Hb Hn Hh. destruct (chain_numbers Hchain n b Hb) as [_ Hok].
  destruct (node_cached_receipts n b Hb Hn) as (stored & Hst & Hstored). exists stored.
  destruct (split_receipts_spec (list_to_map (reverse stored)) txs) as (Hknown & Hwithout & Hcover).
  assert (∀ hash, hash ∈ tx_hash <$> txs ↔ hash ∈ hashes) as Htxs.
  { intros hash. unfold txs. rewrite list_elem_of_fmap. setoid_rewrite list_elem_of_filter. split; [by intros (tx & -> & ? & _)|].
    intros Hin. destruct (proj1 (list_elem_of_fmap _ _ _) (Hh hash Hin)) as (tx & -> & ?). eauto. }
  assert (∀ hash, hash ∈ tx_hash <$> txs → ∃ status, fetch_receipt_from_ethereum_client hash = Ok (hash, status) ∧ tx_status b hash status) as Hfetch.
  { intros hash Hin%Htxs%Hh. destruct (fb_receipts _ _ Hok hash Hin) as (receipt & Hr & <-). exists (receipt_status receipt).
    split; [|by exists receipt]. unfold fetch_receipt_from_ethereum_client. rewrite (node_receipt n b receipt) by done. done. }
  destruct (collect_ok_total fetch_receipt_from_ethereum_client (split_receipts (list_to_map (reverse stored)) txs).2) as (fetched & Hf & Hall).
  { intros hash Hin%Hwithout. destruct (Hfetch hash Hin) as (status & ? & _). eauto. }
  exists fetched. split; [done|]. split; [done|].
  assert (∀ hash status, (hash, status) ∈ fetched → tx_status b hash status) as Hfs.
  { intros hash status (i & Hi)%list_elem_of_lookup. destruct (Forall2_lookup_r _ _ _ _ _ Hall Hi) as (h & Hl & Hfh).
    destruct (Hfetch h) as (s & Hs & ?); [by apply Hwithout; eapply list_elem_of_lookup_2|]. rewrite Hs in Hfh. by injection Hfh as <- <-. }
  assert (∀ hash, hash ∈ (split_receipts (list_to_map (reverse stored)) txs).2 → hash ∈ fetched.*1) as Hfd.
  { intros hash (i & Hi)%list_elem_of_lookup. destruct (Forall2_lookup_l _ _ _ _ _ Hall Hi) as ([h s] & Hl & Hfh).
    destruct (Hfetch hash) as (s' & Hs & _); [by apply Hwithout; eapply list_elem_of_lookup_2|]. rewrite Hs in Hfh. injection Hfh as <- <-.
    apply list_elem_of_fmap. exists (hash, s'). split; [done|by eapply list_elem_of_lookup_2]. }
  split.
  - intros hash Hin%Htxs. rewrite dom_list_to_map_L, elem_of_list_to_set, fmap_reverse, elem_of_reverse, fmap_app, elem_of_app.
    destruct (Hcover hash Hin); auto.
  - intros hash status Hl%elem_of_list_to_map_2. rewrite elem_of_reverse, elem_of_app in Hl. destruct Hl as [Hl|?]; [|auto].
    apply Hknown in Hl as [Hl Hin%Htxs%Hh]. apply elem_of_list_to_map_2 in Hl. rewrite elem_of_reverse in Hl. by eapply Hstored.
Qed.

(** The transactions of the call triggers *)
Lemma call_hashes_spec n b ts :
  fb_ok n b → (∀ t, t ∈ ts → chain_trigger n b t) →
  ∃ hs, collect_ok (λ h : option B256, ok_or h "failed to obtain transaction hash from call triggers") (omap call_transaction ts) = Ok hs ∧
    (∀ hash, hash ∈ hs → hash ∈ tx_hash <$> transactions (fb_light b)) ∧
    ∀ call hash, EtCall call ∈ ts → call_transaction_hash call = Some hash → hash ∈ hs.
Proof.
  intros Hok Hts.
  assert (∀ h, h ∈ omap call_transaction ts → ∃ hash, h = Some hash ∧ hash ∈ tx_hash <$> transactions (fb_light b)) as Hcalls.
  { intros h (t & Hin & Ht)%list_elem_of_omap. destruct t as [|call|]; try done. injection Ht as <-.
    apply (fb_calls_in _ _ Hok). pose proof (Hts _ Hin) as Hct. by inversion Hct. }
  destruct (collect_ok_total (λ h : option B256, ok_or h "failed to obtain transaction hash from call triggers") (omap call_transaction ts)) as (hs & Hhs & Hall).
  { intros h Hin. destruct (Hcalls h Hin) as (hash & -> & _). by eexists. }
  exists hs. split; [done|]. pose proof (Forall2_ok_elem _ _ _ Hall) as Helem. split.
  - intros hash (h & Hin & Hh)%Helem. destruct (Hcalls h Hin) as (hash' & -> & ?). by injection Hh as <-.
  - intros call hash Hin Hc. apply Helem. exists (Some hash). split; [|done]. apply list_elem_of_omap. exists (EtCall call). cbn. by rewrite Hc.
Qed.

(** Only the calls of transactions that failed are removed. *)
Lemma filter_calls_spec n b bt :
  chain n = Some b → n ≤ head → bt_block bt = Final (fb_light b) → (∀ t, t ∈ trigger_data bt → chain_trigger n b t) →
  ∃ ts, filter_call_triggers_from_unsuccessful_transactions bt = Ok (mkBlockWithTriggers (bt_block bt) ts) ∧
    ts `sublist_of` trigger_data bt ∧
    (∀ t, t ∈ trigger_data bt → (∀ call, t ≠ EtCall call) → t ∈ ts) ∧
    ∀ call hash, EtCall call ∈ trigger_data bt → call_transaction_hash call = Some hash → EtCall call ∈ ts ↔ tx_status b hash true.
Proof.
  intros Hb Hn Hbt Hts. destruct (chain_numbers Hchain n b Hb) as [_ Hok].
  assert (bt = mkBlockWithTriggers (bt_block bt) (trigger_data bt)) as Heta by by destruct bt.
  unfold filter_call_triggers_from_unsuccessful_transactions. case_bool_decide as E.
  { apply nil_length_inv in E. exists []. rewrite E in *. split; [by rewrite Heta at 1|]. split; [done|].
    split; [by intros ? ?%elem_of_nil|by intros ? ? ?%elem_of_nil]. }
  destruct (call_hashes_spec n b (trigger_data bt) Hok Hts) as (hs & -> & Hhs & Hcalls). cbn [mbind outcome_bind].
  set (hashes := list_to_set hs : gset B256). assert (∀ hash, hash ∈ hashes ↔ hash ∈ hs) as Hset by (intros; apply elem_of_list_to_set).
  case_bool_decide as Ee.
  { exists (trigger_data bt). split; [by rewrite Heta at 1|]. split; [done|]. split; [done|]. intros call hash Hin Hc.
    assert (hash ∈ hashes) as Hh by (apply Hset; by eapply Hcalls). set_solver. }
  rewrite Hbt. assert (∀ hash, hash ∈ hashes → hash ∈ tx_hash <$> transactions (fb_light b)) as Hsub by (intros hash Hin%Hset; by apply Hhs).
  set (txs := filter (λ tx, tx_hash tx ∈ hashes) (transactions (fb_light b))).
  rewrite bool_decide_eq_false_2.
  2:{ intros Hne. apply Hne. rewrite <- (length_fmap tx_hash), <- (size_list_to_set (C := gset B256)).
      - f_equal. apply set_eq. intros hash. rewrite elem_of_list_to_set, list_elem_of_fmap. split.
        + by intros (tx & -> & [? _]%list_elem_of_filter).
        + intros Hin. destruct (proj1 (list_elem_of_fmap _ _ _) (Hsub hash Hin)) as (tx & -> & ?). exists tx.
          split; [done|]. by apply list_elem_of_filter.
      - eapply sublist_NoDup; [apply (fb_transactions _ _ Hok)|]. apply fmap_sublist, sublist_filter. }
  destruct (transaction_success_spec n b hashes Hb Hn Hsub) as (stored & fetched & Hst & Hf & Hdom & Hsucc).
  unfold bt_ptr. rewrite Hbt. cbn [ptr_hash finality_ptr light_block_ptr]. rewrite Hst. cbn [mbind outcome_bind].
  destruct (split_receipts _ _) as [known without]. cbn [fst snd] in *. rewrite Hf. cbn [mbind outcome_bind].
  set (success := list_to_map (reverse (known ++ fetched)) : gmap B256 bool) in *. rewrite bool_decide_eq_true_2 by done.
  eexists. split; [reflexivity|]. split; [apply sublist_filter|]. split.
  - intros t Hin Hno. apply list_elem_of_filter. split; [|done]. destruct t as [|call|]; [done|by destruct (Hno call)|done].
  - intros call hash Hin Hc. rewrite list_elem_of_filter. unfold retain_trigger. cbn. rewrite Hc.
    assert (hash ∈ dom success) as [s Hs]%elem_of_dom by (apply Hdom, Hset; by eapply Hcalls). rewrite Hs. cbn.
    pose proof (Hsucc _ _ Hs) as Htx. split; [by intros [-> _]|]. intros Ht. split; [|done]. by eapply tx_status_unique.
Qed.

(** ** The scan *)

Lemma chain_triggers_wf n b ts : chain n = Some b → (∀ t, t ∈ ts → chain_trigger n b t) → triggers_wf ts.
Proof.
  intros Hb Hts. destruct (chain_numbers Hchain n b Hb) as [_ Hok]. split.
  - intros t Ht Hl. destruct (Hts t Ht); done.
  - eapply logs_ordered_subset; [|apply (fb_logs_ordered _ _ Hok)]. intros log (t & Ht & Hl)%list_elem_of_omap.
    destruct (Hts t Ht); try done. by injection Hl as <-.
Qed.

Lemma succeeded_status b call hash :
  call_transaction_hash call = Some hash → transaction_for_call_succeeded call (fb_with_calls b) = Ok true → tx_status b hash true.
Proof.
  intros Hc. unfold transaction_for_call_succeeded. rewrite Hc. destruct (list_find _ _) as [[i receipt]|] eqn:E; [|done].
  apply list_find_Some in E as (Hl & Hr & _). intros [= Hs]. exists receipt. split; [by eapply list_elem_of_lookup_2|done].
Qed.

(** The triggers of a block of the range, as the scan groups, sorts and filters
    them *)
Definition scanned (ts : list EthereumTrigger) (to : BlockNumber) (light : LightEthereumBlock) (bt : BlockWithTriggers) : Prop :=
  ∃ n b, chain n = Some b ∧ n ≤ to ∧ light = fb_light b ∧ bt_block bt = Final light ∧
    StronglySorted trigger_le (trigger_data bt) ∧ (∀ t, t ∈ trigger_data bt → t ∈ ts ∧ chain_trigger n b t) ∧
    ∀ t, t ∈ ts → chain_trigger n b t →
      (∀ call, t = EtCall call → transaction_for_call_succeeded call (fb_with_calls b) = Ok true) →
      ∃ t', t' ∈ trigger_data bt ∧ same_trigger t t'.

Lemma scan_block ts (group : list EthereumTrigger) n b bt :
  chain n = Some b → n ≤ head → (∀ t, t ∈ group → t ∈ ts ∧ chain_trigger n b t) → (∀ t, t ∈ ts → chain_trigger n b t → t ∈ group) →
  block_with_triggers_new (Final (fb_light b)) group = Ok bt →
  ∃ bt', filter_call_triggers_from_unsuccessful_transactions bt = Ok bt' ∧ scanned ts head (fb_light b) bt'.
Proof.
  intros Hb Hn Hg Hg' Hnew. destruct (chain_numbers Hchain n b Hb) as [_ Hok].
  assert (triggers_wf group) as Hwf by (eapply chain_triggers_wf; [exact Hb|]; intros t Ht; by apply Hg).
  destruct (block_with_triggers_spec (Final (fb_light b)) group Hwf) as (r & sorted & Hr & Hs & Hin & Hall & _).
  rewrite Hr in Hnew. injection Hnew as <-.
  destruct (filter_calls_spec n b (mkBlockWithTriggers (Final (fb_light b)) r)) as (r' & Hf & Hsub & Hkeep & Hcalls); [done..| |].
  { intros t Ht. by apply Hg, Hin. }
  eexists. split; [exact Hf|]. exists n, b. split; [done|]. split; [done|]. split; [done|]. split; [done|]. cbn in *.
  split; [by eapply StronglySorted_sublist|]. split; [intros t Ht; apply Hg, Hin; by eapply elem_of_sublist|].
  intros t Ht Hct Hsucc. destruct (Hall t (Hg' t Ht Hct)) as (t' & Ht' & Hsame). exists t'. split; [|done].
  destruct t' as [|call|]; [by apply Hkeep| |by apply Hkeep].
  assert (t = EtCall call) as ->. { destruct t; try done. unfold same_trigger in Hsame. cbn in Hsame. congruence. }
  destruct (fb_calls_in _ _ Hok call) as (hash & Hc & _); [by inversion Hct|].
  apply (Hcalls call hash Ht' Hc). by eapply succeeded_status; [|apply Hsucc].
Qed.

(** The triggers of the range, each of which belongs to a block of it *)
Definition range_triggers_of (from to : BlockNumber) (ts : list EthereumTrigger) : Prop :=
  ∀ t, t ∈ ts → ∃ n b, from ≤ n ≤ to ∧ chain n = Some b ∧ chain_trigger n b t ∧
    trigger_block_hash t = Ok (header_hash (fb_light b)) ∧ trigger_block_number t = Ok n.

(** The map from numbers to triggers *)
Definition group_triggers (to : BlockNumber) (numbers : list BlockNumber) (ts : list EthereumTrigger) : gmap BlockNumber (list EthereumTrigger) :=
  let by_block := foldl push_trigger ∅ (zip numbers ts) in
  <[to := default [] (by_block !! to)]> by_block.

Lemma group_lookup from to ts numbers n b :
  range_triggers_of from to ts → Forall2 (λ t n, trigger_block_number t = Ok n) ts numbers → chain n = Some b →
  ∃ group, (∀ t, t ∈ group ↔ t ∈ ts ∧ chain_trigger n b t) ∧
    (n = to ∨ group ≠ [] → group_triggers to numbers ts !! n = Some group).
Proof.
  intros Hts Hall Hb. set (group := (filter (λ e : BlockNumber * EthereumTrigger, e.1 = n) (zip numbers ts)).*2). exists group. split.
  - intros t. unfold group. rewrite list_elem_of_fmap. split.
    + intros ([m u] & -> & [Hm Hz]%list_elem_of_filter). cbn in *. subst m. apply (zip_numbers _ _ Hall) in Hz as [Hu Hun]. split; [done|].
      destruct (Hts u Hu) as (m & c & _ & Hc & Hct & _ & Hun'). assert (m = n) as -> by congruence. by replace b with c by congruence.
    + intros [Ht Hct]. exists (n, t). split; [done|]. apply list_elem_of_filter. split; [done|]. apply (zip_numbers _ _ Hall). split; [done|].
      by destruct (chain_trigger_block n b t Hb Hct).
  - unfold group_triggers. set (by_block := foldl push_trigger ∅ (zip numbers ts)).
    assert (by_block !! n = match group with [] => None | _ => Some group end) as Hby.
    { unfold by_block. rewrite push_triggers_lookup, lookup_empty. fold group. by destruct group. }
    destruct (decide (n = to)) as [->|Hne].
    + intros _. rewrite lookup_insert_eq, Hby. by destruct group.
    + intros [?|Hg]; [done|]. rewrite lookup_insert_ne, Hby by done. by destruct group.
Qed.

(** The blocks that are loaded are those of the triggers and the last one. *)
Lemma scan_lights from to b_to ts hashes :
  range_triggers_of from to ts → from ≤ to → to ≤ head → chain to = Some b_to → Forall2 (λ t h, trigger_block_hash t = Ok h) ts hashes →
  ∃ lights, load_blocks ({[header_hash (fb_light b_to)]} ∪ list_to_set hashes) = Ok lights ∧ NoDup (header_number <$> lights) ∧
    fb_light b_to ∈ lights ∧ (∀ t n b, t ∈ ts → chain n = Some b → chain_trigger n b t → fb_light b ∈ lights) ∧
    ∀ light, light ∈ lights → ∃ n b, chain n = Some b ∧ from ≤ n ≤ to ∧ light = fb_light b ∧
      (n = to ∨ ∃ t, t ∈ ts ∧ chain_trigger n b t).
Proof.
  intros Hts Hft Hto Hbto Hall. pose proof (Forall2_ok_elem _ _ _ Hall) as Hhash.
  destruct (load_blocks_spec ({[header_hash (fb_light b_to)]} ∪ list_to_set hashes)) as (lights & Hl & Hnd & Hin).
  { intros hash [->%elem_of_singleton|(t & Ht & Hth)%elem_of_list_to_set%Hhash]%elem_of_union; [exists (fb_light b_to); split; [by exists to, b_to|done]|].
    destruct (Hts t Ht) as (n & b & Hn & Hb & _ & Hth' & _). exists (fb_light b). rewrite Hth in Hth'. injection Hth' as ->.
    split; [exists n, b; split; [done|]; split; [lia|done]|done]. }
  exists lights. split; [done|]. split; [done|]. split; [apply Hin; split; [by exists to, b_to|set_solver]|]. split.
  - intros t n b Ht Hb Hct. destruct (Hts t Ht) as (m & c & Hm & Hc & Hct' & Hth & Htn).
    destruct (chain_trigger_block n b t Hb Hct) as [Hth2 Htn2]. assert (m = n) as -> by congruence.
    apply Hin. split; [exists n, b; split; [done|]; split; [lia|done]|]. apply elem_of_union_r, elem_of_list_to_set, Hhash. eauto.
  - intros light [(n & b & Hb & Hle & ->) Hinh]%Hin. exists n, b. split; [done|].
    apply elem_of_union in Hinh as [Heq%elem_of_singleton|(t & Ht & Hth)%elem_of_list_to_set%Hhash].
    + assert (n = to) as -> by (by eapply (chain_hashes Hchain)). split; [lia|]. split; [done|by left].
    + destruct (Hts t Ht) as (m & c & Hm & Hc & Hct & Hth' & _). assert (m = n) as ->.
      { apply (chain_hashes Hchain m n c b Hc Hb). congruence. }
      split; [done|]. split; [done|]. right. exists t. split; [done|]. by replace b with c by congruence.
Qed.

(** The blocks of the scan, before they are put into order *)
Lemma scan_groups ts from to lights numbers :
  range_triggers_of from to ts → to ≤ head → Forall2 (λ t n, trigger_block_number t = Ok n) ts numbers → NoDup (header_number <$> lights) →
  (∀ light, light ∈ lights → ∃ n b, chain n = Some b ∧ from ≤ n ≤ to ∧ light = fb_light b ∧ (n = to ∨ ∃ t, t ∈ ts ∧ chain_trigger n b t)) →
  ∃ bts bts', take_triggers (group_triggers to numbers ts) lights = Ok bts ∧
    collect_ok filter_call_triggers_from_unsuccessful_transactions bts = Ok bts' ∧ Forall2 (scanned ts head) lights bts'.
Proof.
  intros Hts Hto Hall Hnd Hlights.
  assert (∀ light, light ∈ lights → ∃ n b group, chain n = Some b ∧ from ≤ n ≤ to ∧ light = fb_light b ∧ header_number light = n ∧
    group_triggers to numbers ts !! n = Some group ∧ ∀ t, t ∈ group ↔ t ∈ ts ∧ chain_trigger n b t) as Hgroup.
  { intros light Hlight. destruct (Hlights light Hlight) as (n & b & Hb & Hn & -> & Hor).
    destruct (group_lookup from to ts numbers n b Hts Hall Hb) as (group & Hg & Hlk). exists n, b, group.
    destruct (chain_numbers Hchain n b Hb) as [_ Hok]. split; [done|]. split; [done|]. split; [done|]. split; [by apply fb_number|].
    split; [|done]. apply Hlk. destruct Hor as [?|(t & Ht)]; [by left|right]. intros ->. apply Hg in Ht. by apply elem_of_nil in Ht. }
  destruct (take_triggers_spec (group_triggers to numbers ts) lights Hnd) as (bts & Hbts & Hball).
  { intros light Hlight. destruct (Hgroup light Hlight) as (n & b & group & Hb & _ & _ & Hn & Hg & Hsub). exists group. rewrite Hn.
    split; [done|]. eapply chain_triggers_wf; [exact Hb|]. intros t Ht. by apply Hsub. }
  exists bts. enough (∃ bts', collect_ok filter_call_triggers_from_unsuccessful_transactions bts = Ok bts' ∧ Forall2 (scanned ts head) lights bts')
    as (bts' & ? & ?) by eauto.
  clear Hbts Hnd Hlights. induction Hball as [|light bt lights bts (ts' & Hl & Hnew) _ IH]; [exists []; by split|].
  destruct IH as (bts' & Hb & Hs); [intros; apply Hgroup; by right|].
  destruct (Hgroup light) as (n & b & grp & Hb' & Hr & -> & Hn & Hg & Hiff); [by left|].
  rewrite Hn, Hg in Hl. injection Hl as <-.
  destruct (scan_block ts grp n b bt Hb') as (bt' & Hf & Hsc); [lia|naive_solver|naive_solver|done|].
  exists (bt' :: bts'). cbn. rewrite Hf. cbn. rewrite Hb. cbn. split; [done|by constructor].
Qed.

Lemma chain_trigger_log n b t : chain_trigger n b t → is_log t → ∃ log, trigger_log t = Some log ∧ log ∈ fb_logs b.
Proof. destruct 1; try done. intros _. eauto. Qed.

Lemma sorted_strictly (blocks : list BlockWithTriggers) :
  StronglySorted (λ a b, ptr_number (bt_ptr a) ≤ ptr_number (bt_ptr b)) blocks → NoDup ((λ bt, ptr_number (bt_ptr bt)) <$> blocks) →
  StronglySorted (λ a b, ptr_number (bt_ptr a) < ptr_number (bt_ptr b)) blocks.
Proof.
  induction 1 as [|bt blocks Hs IH Hall]; intros Hn; [constructor|]. rewrite fmap_cons in Hn. apply NoDup_cons in Hn as [Hni Hn].
  constructor; [by apply IH|]. rewrite Forall_forall in *. intros bt' Hbt'. specialize (Hall bt' Hbt').
  assert (ptr_number (bt_ptr bt) ≠ ptr_number (bt_ptr bt')); [|lia]. intros E. apply Hni. rewrite E. apply list_elem_of_fmap. by exists bt'.
Qed.

(** The blocks in order *)
Lemma scanned_blocks ts from to lights bts blocks :
  (∀ light, light ∈ lights → ∃ n b, chain n = Some b ∧ from ≤ n ≤ to ∧ light = fb_light b ∧ (n = to ∨ ∃ t, t ∈ ts ∧ chain_trigger n b t)) →
  NoDup (header_number <$> lights) → Forall2 (scanned ts head) lights bts → blocks ≡ₚ bts →
  NoDup ((λ bt, ptr_number (bt_ptr bt)) <$> blocks) ∧
  (∀ bt, bt ∈ blocks → ∃ n b, from ≤ n ≤ to ∧ chain n = Some b ∧ bt_block bt = Final (fb_light b) ∧ ptr_number (bt_ptr bt) = n ∧
    StronglySorted trigger_le (trigger_data bt) ∧ (∀ t, t ∈ trigger_data bt → chain_trigger n b t) ∧
    ∀ t, t ∈ ts → chain_trigger n b t →
      (∀ call, t = EtCall call → transaction_for_call_succeeded call (fb_with_calls b) = Ok true) →
      ∃ t', t' ∈ trigger_data bt ∧ same_trigger t t') ∧
  ∀ light, light ∈ lights → ∃ bt, bt ∈ blocks ∧ bt_block bt = Final light.
Proof.
  intros Hlights Hnd Hscan Hp. split; [|split].
  - rewrite Hp. enough ((λ bt, ptr_number (bt_ptr bt)) <$> bts = header_number <$> lights) as -> by done.
    clear -Hscan. induction Hscan as [|light bt lights bts (n & b & _ & _ & -> & Hbl & _) _ IH]; [done|].
    rewrite !fmap_cons, IH. f_equal. unfold bt_ptr. by rewrite Hbl.
  - intros bt. rewrite Hp. intros [i Hi]%list_elem_of_lookup.
    destruct (Forall2_lookup_r _ _ _ _ _ Hscan Hi) as (light & Hl & n & b & Hb & _ & -> & Hbl & Hs & Hin & Hkeep).
    destruct (Hlights (fb_light b)) as (m & c & Hc & Hm & Heq & _); [by eapply list_elem_of_lookup_2|].
    assert (m = n) as -> by (apply (chain_hashes Hchain m n c b Hc Hb); congruence).
    exists n, b. split; [done|]. split; [done|]. split; [done|]. split.
    + unfold bt_ptr. rewrite Hbl. cbn. destruct (chain_numbers Hchain n b Hb) as [_ Hok]. by apply fb_number.
    + split; [done|]. split; [intros t Ht; by apply Hin|done].
  - intros light [i Hi]%list_elem_of_lookup. destruct (Forall2_lookup_l _ _ _ _ _ Hscan Hi) as (bt & Hl & n & b & _ & _ & _ & Hbl & _).
    exists bt. rewrite Hp. split; [by eapply list_elem_of_lookup_2|done].
Qed.

Lemma blocks_with_triggers_complete fuel dss from to last_block supported :
  from ≤ to ≤ last_block → last_block ≤ head → is_Some (chain last_block) → (∀ m, to ≤ m < last_block → chain m = None) →
  (Z.to_nat (last_block - to) ≤ fuel)%nat → (∀ ds, ds ∈ dss → source_ok ds) →
  ∃ blocks, blocks_with_triggers fuel from to (trigger_filter_from_data_sources dss) supported = Ok (blocks, last_block) ∧
    StronglySorted (λ a b, ptr_number (bt_ptr a) < ptr_number (bt_ptr b)) blocks ∧
    (∃ bt, bt ∈ blocks ∧ ptr_number (bt_ptr bt) = last_block) ∧
    (∀ bt, bt ∈ blocks → ∃ n b, from ≤ n ≤ last_block ∧ chain n = Some b ∧ bt_block bt = Final (fb_light b) ∧
      StronglySorted trigger_le (trigger_data bt) ∧ ∀ t, t ∈ trigger_data bt → chain_trigger n b t) ∧
    ∀ n b ds t, from ≤ n ≤ last_block → chain n = Some b → ds ∈ dss →
      trigger_of (fb_with_calls b) (fb_calls b) t → handles ds t (fb_light b) →
      ∃ bt t', bt ∈ blocks ∧ bt_block bt = Final (fb_light b) ∧ t' ∈ trigger_data bt ∧ same_trigger t t' ∧ trigger_log t = trigger_log t'.
Proof.
  intros Hft Hhead Hlast Hnull Hfuel Hsrc. destruct (extend_covers dss _ filter_wf_default) as (Hwf & Hcov & _).
  set (f := trigger_filter_from_data_sources dss). change (trigger_filter_extend dss trigger_filter_default) with f in *. clearbody f.
  unfold blocks_with_triggers. destruct (next_existing fuel to last_block) as (b_to & Hbto & ->); [lia|done|done|done|]. cbn [mbind outcome_bind].
  assert (ptr_number (fb_ptr b_to) = last_block) as Hnum by (destruct (chain_numbers Hchain _ _ Hbto) as [_ Hok]; by apply fb_number).
  rewrite Hnum. destruct (range_triggers_spec from last_block f supported) as (ts & -> & Hts0 & Hcomp); [lia|done|done|]. cbn [mbind outcome_bind].
  assert (range_triggers_of from last_block ts) as Hts.
  { intros t Ht. destruct (Hts0 t Ht) as (n & b & Hn & Hb & Hct). exists n, b. destruct (chain_trigger_block n b t Hb Hct). done. }
  destruct (collect_ok_total trigger_block_hash ts) as (hashes & -> & Hhall). { intros t Ht. destruct (Hts t Ht) as (n & b & _ & _ & _ & ? & _). eauto. }
  destruct (collect_ok_total trigger_block_number ts) as (numbers & -> & Hnall). { intros t Ht. destruct (Hts t Ht) as (n & b & _ & _ & _ & _ & ?). eauto. }
  cbn [mbind outcome_bind].
  destruct (scan_lights from last_block b_to ts hashes) as (lights & Hl & Hnd & Hto & Htrig & Hlights); [done|lia|done..|].
  change (ptr_hash (fb_ptr b_to)) with (header_hash (fb_light b_to)). rewrite Hl. cbn [mbind outcome_bind].
  destruct (scan_groups ts from last_block lights numbers) as (bts & bts' & Hbts & Hbts' & Hscan); [done..|].
  unfold group_triggers in Hbts. rewrite Hbts. cbn [mbind outcome_bind]. rewrite Hbts'. cbn [mbind outcome_bind].
  destruct (sort_by_number (λ bt, ptr_number (bt_ptr bt)) bts') as (blocks & Hsort & Hp & Hss). rewrite Hsort. cbn [mbind outcome_bind].
  destruct (scanned_blocks ts from last_block lights bts' blocks) as (Hnd' & Hscanned & Hlight); [done..|].
  assert (∀ bt, bt ∈ blocks → from ≤ ptr_number (bt_ptr bt) ≤ last_block) as Hrange.
  { intros bt Hbt. destruct (Hscanned bt Hbt) as (n & b & Hn & _ & _ & -> & _). done. }
  destruct (Hlight (fb_light b_to) Hto) as (bt_to & Hbt_to & Hbl_to).
  assert (∃ first last, hd_error blocks = Some first ∧ list.last blocks = Some last ∧ first ∈ blocks ∧ last ∈ blocks) as (first & last & -> & -> & Hf & Hla).
  { destruct blocks as [|first blocks]; [by apply elem_of_nil in Hbt_to|]. exists first.
    destruct (last_is_Some (first :: blocks)) as [_ Hlast']. destruct Hlast' as [x Hx]; [done|]. exists x. split; [done|]. split; [done|].
    split; [by left|]. apply last_Some in Hx as [l' ->]. apply elem_of_app. right. by left. }
  cbn [mbind outcome_bind unwrap]. pose proof (Hrange first Hf). pose proof (Hrange last Hla). rewrite !bool_decide_eq_false_2 by lia.
  exists blocks. split; [done|]. split; [by apply sorted_strictly|]. split.
  { exists bt_to. split; [done|]. unfold bt_ptr. rewrite Hbl_to. cbn. destruct (chain_numbers Hchain _ _ Hbto) as [_ Hok]. by apply fb_number. }
  split. { intros bt Hbt. destruct (Hscanned bt Hbt) as (n & b & Hn & Hb & Hbl & _ & Hso & Hct & _). exists n, b. auto. }
  intros n b ds t Hn Hb Hds Hof Hh. destruct (Hcomp n b ds t Hn Hb) as (t' & Ht' & Hsame & Hlog & Hct); [by apply Hcov|by apply Hsrc|done|done|].
  destruct (Hlight (fb_light b)) as (bt & Hbt & Hbl); [by eapply Htrig|].
  destruct (Hscanned bt Hbt) as (m & c & _ & Hc & Hblc & _ & _ & Hin & Hkeep).
  assert (m = n) as ->. { apply (chain_hashes Hchain m n c b Hc Hb). congruence. } replace c with b in * by congruence.
  destruct (Hkeep t' Ht' Hct) as (t'' & Ht'' & Hsame').
  { intros call ->. destruct t; try done. unfold same_trigger in Hsame. cbn in Hsame. injection Hsame as ->. by inversion Hof. }
  exists bt, t''. split; [done|]. split; [done|]. split; [done|]. split; [by trans t'|]. rewrite Hlog.
  destruct (chain_numbers Hchain n b Hb) as [_ Hok].
  apply (same_trigger_log (fb_logs b)); [apply (fb_logs_ordered _ _ Hok)|done|by eapply chain_trigger_log|eapply chain_trigger_log; by apply Hin].
Qed.

(** C13: scanning a range of final blocks succeeds and resolves the end of the
    range to the next block that exists; the blocks come by increasing number
    and include the last one, every trigger is one of its block, and every
    trigger of a block of the range for which a data source has a handler is
    among the triggers of that block. *)
Theorem scan_complete fuel dss from to last_block supported :
  from ≤ to ≤ last_block → last_block ≤ head → is_Some (chain last_block) → (∀ m, to ≤ m < last_block → chain m = None) →
  (Z.to_nat (last_block - to) ≤ fuel)%nat → (∀ ds, ds ∈ dss → source_ok ds) →
  ∃ blocks, blocks_with_triggers fuel from to (trigger_filter_from_data_sources dss) supported = Ok (blocks, last_block) ∧
    StronglySorted (λ a b, ptr_number (bt_ptr a) < ptr_number (bt_ptr b)) blocks ∧
    (∃ bt, bt ∈ blocks ∧ ptr_number (bt_ptr bt) = last_block) ∧
    (∀ bt, bt ∈ blocks → ∃ n b, from ≤ n ≤ last_block ∧ chain n = Some b ∧ bt_block bt = Final (fb_light b) ∧
      StronglySorted trigger_le (trigger_data bt) ∧ ∀ t, t ∈ trigger_data bt → chain_trigger n b t) ∧
    ∀ n b ds t, from ≤ n ≤ last_block → chain n = Some b → ds ∈ dss →
      trigger_of (fb_with_calls b) (fb_calls b) t → handles ds t (fb_light b) →
      ∃ bt t', bt ∈ blocks ∧ bt_block bt = Final (fb_light b) ∧ t' ∈ trigger_data bt ∧ same_trigger t t' ∧ trigger_log t = trigger_log t'.
Proof. apply blocks_with_triggers_complete. Qed.

End Ranges.

End Scans.
End Chains.
