(* ===== verification/EthSamples.v ===== *)
(** * Samples of the Ethereum model

    A graph that satisfies the laws of [GraphMap], a small chain with a node
    that answers for it, and the theorems about filters, triggers, scans and
    the hosts of a subgraph applied to them. *)

From Stdlib Require Import ZArith Lia ZifyBool.
From stdpp Require Import base gmap list strings sorting fin_maps.
From S2P Require Import Prelude Values Write DataSource EthData EthFilter EthTriggers Instance InstanceFacts InstanceRuns EthFilterFacts EthCallFacts EthOrder EthComplete EthScan.

Local Open Scope Z_scope.

(** ** A graph as the list of its edges *)

Module EdgeList.

Definition Edge : Type := LogFilterNode * LogFilterNode * bool.

Definition joins (a b : LogFilterNode) (e : Edge) : Prop := same_edge a b e.1.1 e.1.2.

#[global] Instance joins_dec a b e : Decision (joins a b e).
Proof. unfold joins, same_edge. apply _. Defined.

Fixpoint uniq (l : list Edge) : Prop :=
  match l with [] => True | e :: l => Forall (λ e', ¬ joins e.1.1 e.1.2 e') l ∧ uniq l end.

Record EdgeGraph := mkGraph { edges : list Edge; edges_uniq : uniq edges }.

Lemma uniq_filter (P : Edge → Prop) `{!∀ e, Decision (P e)} l : uniq l → uniq (filter P l).
Proof.
  induction l as [|e l IH]; [done|]. cbn [uniq]. intros [He Hl]. rewrite filter_cons. case_decide; [|auto].
  split; [|auto]. apply Forall_forall. intros e' [_ Hin]%list_elem_of_filter. rewrite Forall_forall in He. auto.
Qed.

Definition weight_of (a b : LogFilterNode) (l : list Edge) : option bool := (λ e : nat * Edge, e.2.2) <$> list_find (joins a b) l.

Definition neighbor (n : LogFilterNode) (e : Edge) : option LogFilterNode :=
  if decide (e.1.1 = n) then Some e.1.2 else if decide (e.1.2 = n) then Some e.1.1 else None.

Definition untouched (n : LogFilterNode) (e : Edge) : Prop := neighbor n e = None.

#[global] Instance untouched_dec n e : Decision (untouched n e).
Proof. unfold untouched. apply _. Defined.

Lemma add_uniq a b w (g : EdgeGraph) : uniq ((a, b, w) :: filter (λ e, ¬ joins a b e) (edges g)).
Proof.
  split; [|apply uniq_filter, edges_uniq]. apply Forall_forall. by intros e [? _]%list_elem_of_filter.
Qed.

#[global] Instance edge_graph : GraphMap LogFilterNode := {|
  Graph := EdgeGraph;
  graph_new := mkGraph [] I;
  add_edge a b w g := mkGraph ((a, b, w) :: filter (λ e, ¬ joins a b e) (edges g)) (add_uniq a b w g);
  edge_weight a b g := weight_of a b (edges g);
  edge_count g := length (edges g);
  nodes g := ((λ e : Edge, e.1.1) <$> edges g) ++ ((λ e : Edge, e.1.2) <$> edges g);
  neighbors n g := omap (neighbor n) (edges g);
  remove_node n g := mkGraph (filter (untouched n) (edges g)) (uniq_filter _ _ (edges_uniq g));
  all_edges g := edges g;
|}.

Lemma joins_sym a b e : joins a b e ↔ joins b a e.
Proof. unfold joins, same_edge. naive_solver. Qed.

Lemma joins_same a b c d e : same_edge a b c d → joins a b e ↔ joins c d e.
Proof. unfold joins, same_edge. naive_solver. Qed.

Lemma weight_of_Some a b l w : uniq l → weight_of a b l = Some w ↔ ∃ e, e ∈ l ∧ joins a b e ∧ e.2 = w.
Proof.
  intros Hu. unfold weight_of. split.
  - intros ([i e] & (Hl & Hj & _)%list_find_Some & ->)%fmap_Some. exists e. split; [by eapply list_elem_of_lookup_2|done].
  - intros (e & Hin & Hj & <-). destruct (list_find (joins a b) l) as [[i e']|] eqn:E.
    + apply list_find_Some in E as (Hl & Hj' & _). apply list_elem_of_lookup_2 in Hl. cbn. do 2 f_equal.
      clear i. induction l as [|x l IH]; [by apply elem_of_nil in Hin|]. destruct Hu as [Hx Hu]. rewrite Forall_forall in Hx.
      apply elem_of_cons in Hin as [->|Hin], Hl as [->|Hl]; [done| | |by apply IH].
      * exfalso. apply (Hx e' Hl). by rewrite <- (joins_same a b x.1.1 x.1.2).
      * exfalso. apply (Hx e Hin). by rewrite <- (joins_same a b x.1.1 x.1.2).
    + apply list_find_None in E. rewrite Forall_forall in E. by destruct (E e Hin).
Qed.

Lemma weight_of_None a b l : weight_of a b l = None ↔ ∀ e, e ∈ l → ¬ joins a b e.
Proof. unfold weight_of. by rewrite fmap_None, list_find_None, Forall_forall. Qed.

Lemma weight_of_ext a b c d l k :
  uniq l → uniq k → (∀ e, e ∈ l ∧ joins a b e ↔ e ∈ k ∧ joins c d e) → weight_of a b l = weight_of c d k.
Proof.
  intros Hl Hk He. destruct (weight_of c d k) as [w|] eqn:E.
  - apply weight_of_Some in E as (e & Hin & Hj & <-); [|done]. apply weight_of_Some; [done|]. exists e. naive_solver.
  - apply weight_of_None. intros e Hin Hj. rewrite weight_of_None in E. apply (E e); apply He; done.
Qed.

Lemma neighbor_joins n m e : neighbor n e = Some m ↔ joins n m e ∧ (e.1.1 = n → e.1.2 = m).
Proof.
  unfold neighbor, joins, same_edge. destruct e as [[a b] w]. cbn.
  destruct (decide (a = n)); [naive_solver|]. destruct (decide (b = n)); naive_solver.
Qed.

Lemma neighbor_None n e : neighbor n e = None ↔ e.1.1 ≠ n ∧ e.1.2 ≠ n.
Proof. unfold neighbor. repeat case_decide; naive_solver. Qed.

Lemma joins_neighbor n m e : joins n m e → neighbor n e = Some m.
Proof.
  unfold neighbor, joins, same_edge. destruct e as [[a b] w]. cbn. intros [[-> ->]|[-> ->]].
  - by rewrite decide_True.
  - destruct (decide (a = b)) as [->|]; [done|]. by rewrite decide_True.
Qed.

Lemma neighbors_uniq n l : uniq l → NoDup (omap (neighbor n) l).
Proof.
  induction l as [|e l IH]; [constructor|]. intros [He Hu]. cbn. destruct (neighbor n e) as [m|] eqn:E; [|auto].
  constructor; [|auto]. intros (e' & Hin & Hm)%list_elem_of_omap. rewrite Forall_forall in He. apply (He e' Hin).
  apply neighbor_joins in E as [Hj _], Hm as [Hj' _]. unfold joins, same_edge in *. naive_solver.
Qed.

Lemma count_removed n (l : list Edge) : (length (filter (untouched n) l) + length (omap (neighbor n) l))%nat = length l.
Proof.
  induction l as [|e l IH]; [done|]. rewrite filter_cons. cbn [omap list_omap].
  destruct (decide (untouched n e)) as [E|E]; unfold untouched in E; [rewrite E|destruct (neighbor n e); [|done]]; cbn; lia.
Qed.

#[global] Instance edge_graph_spec : GraphMapSpec LogFilterNode.
Proof.
  split; cbn -[weight_of uniq].
  - intros a b g. apply weight_of_ext; [apply edges_uniq..|]. intros e. by rewrite joins_sym.
  - done.
  - intros a b c d w g Hs. apply weight_of_Some; [apply (add_uniq c d w g)|]. exists (c, d, w). split; [by left|done].
  - intros a b c d w g Hs. apply weight_of_ext; [apply (add_uniq c d w g)|apply edges_uniq|]. intros e.
    rewrite elem_of_cons, list_elem_of_filter. split.
    + intros [[->|[_ Hin]] Hj]; [done|]. auto.
    + intros [Hin Hj]. split; [|done]. right. split; [|done]. intros Hcd. apply Hs. unfold joins, same_edge in *. naive_solver.
  - intros a b c g Hs. apply weight_of_None. intros e [Hu%neighbor_None _]%list_elem_of_filter Hj. unfold joins, same_edge in Hj. naive_solver.
  - intros a b c g Ha Hb. apply weight_of_ext; [apply uniq_filter, edges_uniq|apply edges_uniq|]. intros e.
    rewrite list_elem_of_filter. split; [tauto|]. intros [Hin Hj]. split; [|done]. split; [|done].
    apply neighbor_None. unfold joins, same_edge in Hj. naive_solver.
  - intros a b g. rewrite list_elem_of_omap. split.
    + intros (e & Hin & [Hj _]%neighbor_joins). exists e.2. apply weight_of_Some; [apply edges_uniq|]. eauto.
    + intros (w & (e & Hin & Hj & _)%weight_of_Some); [|apply edges_uniq]. exists e. split; [done|by apply joins_neighbor].
  - intros a g. apply neighbors_uniq, edges_uniq.
  - intros a b g (w & (e & Hin & Hj & _)%weight_of_Some); [|apply edges_uniq]. apply elem_of_app. rewrite !list_elem_of_fmap.
    destruct Hj as [[-> _]|[-> _]]; eauto.
  - intros a b w g Hin. apply weight_of_Some; [apply edges_uniq|]. exists (a, b, w). split; [done|]. by split; [left|].
  - intros a b w g (e & Hin & Hj & <-)%weight_of_Some; [|apply edges_uniq]. destruct e as [[c d] w]. destruct Hj as [[-> ->]|[-> ->]]; cbn in *; auto.
  - done.
  - intros a g _. apply count_removed.
Qed.

End EdgeList.

(** ** A chain with two blocks *)

Module ChainSample.
Export EdgeList.

#[global] Instance sample_keccak : Keccak := {| keccak256 bytes := bytes |}.
#[global] Instance sample_calls : DeclaredCalls := {| CallDecls := unit; DeclaredCall := Empty_set |}.
#[global] Instance sample_codec : AbiCodec := {|
  SolValue := Z;
  decode_log _ _ := Some [];
  abi_decode_input _ _ := Some [];
  abi_decode_output _ _ := Some [];
|}.
#[global] Instance sample_settings : EthereumSettings := {|
  get_logs_max_contracts := 2;
  max_event_only_range := 500;
  trace_stream_step_size := 50;
|}.

Definition no_calls (_ : list MappingABI) (_ : CallDecls) (_ : Log) (_ : list (string * SolValue)) : outcome string (list DeclaredCall) := Ok [].

Definition sample_abi : MappingABI := mkMappingABI "Token" [mkAbiEvent "Sent" []] [mkAbiFunction "ping" [] [] NonPayable].

Definition event_handler_for (receipt : bool) (topic1 : option (list B256)) : MappingEventHandler :=
  mkEventHandler "Sent()" None topic1 None None "handleSent" receipt tt.

(** A data source with handlers of all kinds *)
Definition sample_source (address : option Address) (start : BlockNumber) (blocks : list MappingBlockHandler) : EthDataSource :=
  mkEthDataSource "ethereum" (Some "mainnet") "Token" 0 address start None
    (mkMapping [sample_abi] blocks [mkCallHandler "ping()" "handlePing"] [event_handler_for true None] [])
    None None sample_abi.

Definition source_a : EthDataSource :=
  sample_source (Some [1]) 1 [mkBlockHandler "handleOnce" (Some Once); mkBlockHandler "handleCall" (Some CallFilter); mkBlockHandler "handleTick" (Some (Polling 2))].

Definition sample_log (n hash tx index : Z) : Log :=
  mkLog [1] [as_bytes "Sent()"] [] (Some [hash]) (Some n) (Some [tx]) (Some 0) (Some index).

Definition sample_trace (n hash tx to : Z) : Trace :=
  mkTrace None (CallAction [9] [to] 0 (as_bytes "ping()")) (Some (CallOutput 21000 [])) (Some 0) (Some [tx]) (Some n) (Some [hash]).

Definition sample_tx (tx : Z) : Transaction := mkTransaction [tx] [9] [] None None None.

Definition sample_block (n hash tx : Z) (tos : list Z) : FullBlock :=
  mkFullBlock
    (mkEthereumBlock (mkLightBlock [hash] n [hash - 2] (1000 + n) [sample_tx tx])
       [mkReceipt [tx] true [sample_log n hash tx 0; sample_log n hash tx 1]])
    (sample_trace n hash tx <$> tos).

Definition block1 : FullBlock := sample_block 1 101 11 [1].
Definition block3 : FullBlock := sample_block 3 103 13 [1; 2; 1].

(** The round 2 has no block. *)
Definition sample_chain (n : BlockNumber) : option FullBlock :=
  if n =? 1 then Some block1 else if n =? 3 then Some block3 else None.

Lemma sample_chain_Some n b : sample_chain n = Some b → n = 1 ∧ b = block1 ∨ n = 3 ∧ b = block3.
Proof.
  unfold sample_chain. destruct (Z.eqb_spec n 1) as [->|]; [intros [= <-]; by left|].
  destruct (Z.eqb_spec n 3) as [->|]; [intros [= <-]; by right|done].
Qed.

Definition sample_by_hash (hash : B256) : option FullBlock :=
  if decide (hash = [101]) then Some block1 else if decide (hash = [103]) then Some block3 else None.

Lemma sample_by_hash_Some hash b : sample_by_hash hash = Some b → hash = [101] ∧ b = block1 ∨ hash = [103] ∧ b = block3.
Proof.
  unfold sample_by_hash. destruct (decide (hash = [101])) as [->|]; [intros [= <-]; by left|].
  destruct (decide (hash = [103])) as [->|]; [intros [= <-]; by right|done].
Qed.

Definition sample_receipt (hash block_hash : B256) : option Receipt :=
  b ← sample_by_hash block_hash; snd <$> list_find (λ r, receipt_transaction_hash r = hash) (transaction_receipts (fb_block b)).

#[global] Instance sample_node : EthereumNode := {|
  get_block_by_number n :=
    match sample_chain n with Some b => Ok (Some (fb_light b)) | None => Err "requested epoch was a null round (2)" end;
  get_block_by_hash hash :=
    Ok (fb_light <$> sample_by_hash hash);
  get_logs f :=
    if filter_from f <? filter_to f then Err "ServerError(-32005)"
    else Ok (filter (λ log, selects f log = true) (blocks_in sample_chain (filter_from f) (filter_to f) ≫= fb_logs));
  trace_filter from to addresses := Ok (filter (λ t, trace_to addresses t = true) (blocks_in sample_chain from to ≫= fb_traces));
  get_transaction_receipt hash :=
    Ok (snd <$> list_find (λ r, receipt_transaction_hash r = hash)
          (transaction_receipts (fb_block block1) ++ transaction_receipts (fb_block block3)));
  cached_blocks _ := Err "no cache";
  cached_receipts _ := Ok [];
  fetch_receipt hash block_hash := ok_or (sample_receipt hash block_hash) "no receipt";
  completion_order l := l;
|}.

Lemma sample_logs_ordered n hash tx : logs_ordered [sample_log n hash tx 0; sample_log n hash tx 1].
Proof.
  intros a b Ha Hb. set_unfold. destruct Ha as [->|[->|[]]], Hb as [->|[->|[]]]; cbn;
    eexists _, _, _, _; (split; [done|]); (split; [done|]); (split; [done|]); (split; [done|]); split; intros; (done || lia).
Qed.

Lemma sample_block_ok n hash tx tos : fb_ok n (sample_block n hash tx tos).
Proof.
  split; cbn.
  - done.
  - intros log Hl. set_unfold. by destruct Hl as [->|[->|[]]].
  - apply sample_logs_ordered.
  - intros t (to & -> & _)%list_elem_of_fmap. done.
  - intros call (t & (to & -> & _)%list_elem_of_fmap & Hc)%list_elem_of_omap. cbn in Hc. injection Hc as <-. eexists. split; [done|]. set_solver.
  - apply NoDup_singleton.
  - intros h ->%list_elem_of_singleton. eexists. split; [by left|done].
  - apply NoDup_singleton.
Qed.

Lemma sample_chain_ok : chain_ok sample_chain.
Proof.
  split.
  - intros n b [[-> ->]|[-> ->]]%sample_chain_Some; (split; [lia|apply sample_block_ok]).
  - intros n m b c [[-> ->]|[-> ->]]%sample_chain_Some [[-> ->]|[-> ->]]%sample_chain_Some; cbn; try done.
  - intros n m b c l k [[-> ->]|[-> ->]]%sample_chain_Some [[-> ->]|[-> ->]]%sample_chain_Some Hl Hk Heq _; try done; exfalso; revert Heq;
      unfold fb_logs, block_logs in *; cbn in *; set_unfold; destruct Hl as [->|[->|[]]], Hk as [->|[->|[]]]; done.
Qed.

#[global] Instance sample_node_spec : NodeSpec sample_chain 3.
Proof.
  split; cbn -[selects].
  - intros n b -> _. done.
  - intros n -> _. eexists. split; [reflexivity|]. vm_compute. done.
  - intros n b [[-> ->]|[-> ->]]%sample_chain_Some _; done.
  - intros f _. destruct (Z.ltb_spec (filter_from f) (filter_to f)); [right|by left]. split; [done|]. eexists. split; [reflexivity|]. vm_compute. done.
  - done.
  - intros n b receipt [[-> ->]|[-> ->]]%sample_chain_Some _ ->%list_elem_of_singleton; vm_compute; done.
  - intros n b log hash [[-> ->]|[-> ->]]%sample_chain_Some _ Hl Hh; unfold fb_logs, block_logs in Hl; cbn in Hl; set_unfold;
      destruct Hl as [->|[->|[]]]; injection Hh as <-; eexists; split; reflexivity.
  - done.
  - intros n b _ _. exists []. split; [done|]. by intros ? ? ?%elem_of_nil.
  - done.
Qed.

Lemma source_a_ok : source_ok source_a.
Proof.
  split; [done|]. intros h every Hin. cbn in Hin. set_unfold. destruct Hin as [->|[->|[->|[]]]]; intros [= <-]. lia.
Qed.

Lemma sources_ok ds : ds ∈ [source_a] → source_ok ds.
Proof. intros ->%list_elem_of_singleton. apply source_a_ok. Qed.

Lemma sample_settings_ok : 0 < max_event_only_range ∧ (0 < get_logs_max_contracts)%nat ∧ 1 ≤ trace_stream_step_size.
Proof. cbn. lia. Qed.

(** ** The theorems applied *)

Lemma scan_complete_witness :
  ∃ blocks bt t', blocks_with_triggers 1 1 2 (trigger_filter_from_data_sources [source_a]) true = Ok (blocks, 3) ∧
    bt ∈ blocks ∧ bt_block bt = Final (fb_light block1) ∧ t' ∈ trigger_data bt ∧ trigger_log t' = Some (sample_log 1 101 11 1).
Proof.
  destruct (scan_complete sample_chain 3 sample_chain_ok no_calls sample_settings_ok 1 [source_a] 1 2 3 true)
    as (blocks & Hr & _ & _ & _ & Hall); [lia|lia|by eexists| |cbn; lia|apply sources_ok|].
  { intros m Hm. unfold sample_chain. destruct (Z.eqb_spec m 1); [lia|]. destruct (Z.eqb_spec m 3); [lia|done]. }
  destruct (Hall 1 block1 source_a (EtLog (LogPosition 1 (mkReceipt [11] true [sample_log 1 101 11 0; sample_log 1 101 11 1]) false)))
    as (bt & t' & Hbt & Hbl & Ht' & _ & Hlog).
  - lia.
  - done.
  - by left.
  - by econstructor; [left|].
  - eexists. vm_compute. reflexivity.
  - exists blocks, bt, t'. split; [exact Hr|]. split; [exact Hbt|]. split; [exact Hbl|]. split; [exact Ht'|]. symmetry. exact Hlog.
Defined.

Lemma block3_ok : block_ok (fb_with_calls block3) (fb_calls block3).
Proof.
  split; [apply sample_logs_ordered|]. intros call Hc. assert (Forall (λ call, (4 ≤ length (call_input call))%nat ∧
    transaction_for_call_succeeded call (fb_with_calls block3) = Ok true) (fb_calls block3)) as Hall by (vm_compute; repeat constructor).
  rewrite Forall_forall in Hall. destruct (Hall call Hc). eauto.
Qed.

Definition call3 : EthereumCall := mkEthereumCall [9] [1] 0 21000 (as_bytes "ping()") [] 3 [103] (Some [13]) 0.

Lemma call3_in : call3 ∈ fb_calls block3.
Proof. unfold call3. vm_compute. left. Qed.

(** The block as it comes from the node, without its calls *)
Lemma block3_loaded : as_loaded (fb_block block3) (fb_calls block3) (mkBlockWithCalls (fb_block block3) None).
Proof.
  left. split; [done|]. split; [|done]. eexists. split; [vm_compute; reflexivity|]. split; [vm_compute; reflexivity|]. intros _. reflexivity.
Defined.

Lemma triggers_in_block_complete_witness :
  ∃ bt, triggers_in_block 0 (NonFinal (mkBlockWithCalls (fb_block block3) None)) (trigger_filter_from_data_sources [source_a]) true = Ok bt ∧
    ∃ t', t' ∈ trigger_data bt ∧ same_trigger (EtBlock (fb_ptr block3) (WithCallTo [1])) t'.
Proof.
  destruct (triggers_in_block_complete no_calls 0 [source_a] (fb_block block3) (fb_calls block3) (mkBlockWithCalls (fb_block block3) None) true)
    as (bt & calls' & Hr & _ & _ & Hall & _); [apply sources_ok|exact block3_loaded|apply block3_ok|].
  exists bt. split; [exact Hr|]. destruct (Hall source_a (EtBlock (fb_ptr block3) (WithCallTo [1]))) as (t' & Ht' & Hs & _).
  - by left.
  - exact (of_call_to (fb_with_calls block3) (fb_calls block3) call3 call3_in).
  - eexists. vm_compute. reflexivity.
  - exists t'. exact (conj Ht' Hs).
Defined.

Lemma triggers_sorted_witness :
  ∃ r sorted, block_with_triggers_new (Final (fb_light block1))
      [EtBlock (fb_ptr block1) End; EtLog (FullLog (sample_log 1 101 11 1) None); EtLog (FullLog (sample_log 1 101 11 0) None);
       EtLog (FullLog (sample_log 1 101 11 1) None); EtBlock (fb_ptr block1) Start] = Ok (mkBlockWithTriggers (Final (fb_light block1)) r) ∧
    StronglySorted trigger_le r ∧ distinct same_trigger is_log r ∧ r `sublist_of` sorted.
Proof.
  match goal with |- ∃ r sorted, block_with_triggers_new _ ?ts = _ ∧ _ => destruct (triggers_sorted (Final (fb_light block1)) ts) as (r & sorted & Hr & Hs & _ & _ & Hd & Hsub & _) end.
  - split.
    + intros t Ht. set_unfold. destruct Ht as [->|[->|[->|[->|[->|[]]]]]]; cbn; (done || by eexists).
    + eapply logs_ordered_subset; [|apply (sample_logs_ordered 1 101 11)]. cbn. set_solver.
  - exists r, sorted. exact (conj Hr (conj Hs (conj Hd Hsub))).
Defined.

Lemma log_filter_exact_witness :
  log_filter_matches (sample_log 1 101 11 0) (log_filter_from_data_sources [source_a]) = true.
Proof.
  destruct (log_filter_exact [source_a] (sample_log 1 101 11 0)) as [[_ Hm] _].
  - intros ds h ->%list_elem_of_singleton ->%list_elem_of_singleton. done.
  - apply Hm. exists source_a, (event_handler_for true None). split; [by left|]. split; [|by right].
    apply list_elem_of_filter. split; [vm_compute; done|by left].
Defined.

Lemma eth_get_logs_filters_exact_witness :
  ∃ fs g, eth_get_logs_filters 2 (log_filter_from_data_sources [source_a; sample_source (Some [2]) 1 []; sample_source (Some [3]) 1 []]) = Ok fs ∧
    g ∈ fs ∧ asks_for 0 0 (sample_log 1 101 11 0) g = true ∧ (length (contracts g) ≤ 2)%nat.
Proof.
  destruct (eth_get_logs_filters_exact 0 0 2 (log_filter_from_data_sources [source_a; sample_source (Some [2]) 1 []; sample_source (Some [3]) 1 []]))
    as (fs & Hfs & Hlen & Hcomp & _); [lia|apply wf_from_data_sources|].
  destruct (Hcomp (sample_log 1 101 11 0)) as (g & Hg & Hs); [vm_compute; done|].
  exists fs, g. exact (conj Hfs (conj Hg (conj Hs (Hlen g Hg)))).
Defined.

Definition source_b : EthDataSource := sample_source (Some [2]) 1 [mkBlockHandler "handleCall" (Some CallFilter)].

(** The triggers of a block can contain a block trigger twice: a trigger
    for calls to a contract is produced for each call, and duplicates are only
    removed when they are neighbors. The block handler of the contract then
    runs twice for the block. *)
Theorem call_to_triggers_repeated :
  ∃ bt, triggers_in_block 0 (NonFinal (fb_with_calls block3)) (trigger_filter_from_data_sources [source_a; source_b]) true = Ok bt ∧
    omap (λ t, match t with EtBlock _ (WithCallTo a) => Some a | _ => None end) (trigger_data bt) = [[1]; [2]; [1]].
Proof. eexists. split; vm_compute; reflexivity. Qed.


End ChainSample.

(** ** A subgraph with hosts *)

Module HostSample.
Import ChainSample.

#[global] Instance sample_chain_class : Blockchain := ethereum no_calls.

#[global] Instance sample_builder : RuntimeHostBuilder := {|
  Sender := unit;
  module_hash bytes := Z.of_nat (length bytes);
  spawn_mapping _ := Ok tt;
  build_host _ _ := Ok tt;
|}.

#[global] Instance sample_builder_spec : RuntimeHostBuilderSpec.
Proof. by split. Qed.

#[global] Instance sample_env : InstanceEnv := {| subgraph_max_data_sources := 10 |}.
#[global] Instance sample_checks : Arithmetic := {| overflow_checks := true |}.

Definition created_at (block : BlockNumber) (address : Address) : EthDataSource :=
  mkEthDataSource "ethereum" (Some "mainnet") "Token" 0 (Some address) block None (mapping source_a) None (Some block) sample_abi.

Definition sample_file : OffchainDataSource :=
  mkOffchain Ipfs "File" 1 (SourceIpfs (mkContentPath "Qm1" None)) (mkOffchainMapping [] "handleFile" []) None (Some 5) 0 1.

Definition sample_ops : list InstanceOp :=
  [OpAdd (DsOnchain source_a); OpAdd (DsOnchain (created_at 4 [2])); OpAdd (DsOnchain (created_at 4 [2]));
   OpNextRegion; OpAdd (DsOffchain sample_file); OpMark sample_file 7; OpRevert 6; OpRevert 4].

Definition sample_instance : SubgraphInstance := instance_new [DsOnchain source_a] 1 (alloc NOT_DONE_VALUE atomics_empty).2.

Definition answer_kind (a : InstanceAnswer) : Z :=
  match a with
  | Added (Ok (Some h)) => Z.of_nat (host_id h)
  | Added (Ok None) => -1
  | Reverted (Ok l) => 10 + Z.of_nat (length l)
  | Region (Ok n) => 100 + n
  | Marked (Ok _) => 50
  | _ => -2
  end.

Lemma sample_ops_ok : ops_ok sample_ops sample_instance.
Proof.
  unfold sample_ops. cbn [ops_ok op_ok]. split; [done|]. split; [done|]. split; [done|]. split; [split; [vm_compute; done|done]|].
  split; [|by repeat split]. split; [vm_compute; done|].
  match goal with |- Forall _ ?l => assert (length l = 0%nat) as ->%nil_length_inv by (vm_compute; done) end. constructor.
Qed.

Lemma instance_refines_witness :
  ∃ inst answers r, instance_run sample_ops sample_instance = (inst, answers) ∧
    answer_kind <$> answers = [0; 1; -1; 102; 3; 50; 11; 10] ∧
    registry_run (zip sample_ops answers) (registry_new 1 (alloc NOT_DONE_VALUE atomics_empty).2) r ∧ length (reg_onchain r) = 1%nat.
Proof.
  pose proof (instance_refines [DsOnchain source_a] 1 (alloc NOT_DONE_VALUE atomics_empty).2 sample_ops sample_ops_ok) as Hr.
  change (instance_new _ _ _) with sample_instance in Hr.
  destruct (instance_run sample_ops sample_instance) as [inst answers] eqn:E. destruct Hr as (r & Hrun & Hrep & _).
  exists inst, answers, r. split; [done|]. split; [|split; [done|]].
  - change answers with (inst, answers).2. rewrite <- E.
    vm_compute. reflexivity.
  - rewrite <- (rep_onchain_hosts _ _ Hrep). change inst with (inst, answers).1. rewrite <- E. vm_compute. done.
Defined.

Definition sample_hosts : SubgraphInstance :=
  let step op inst := (instance_step op inst).1 in
  step (OpAdd (DsOnchain (created_at 4 [2]))) (step (OpAdd (DsOnchain (created_at 4 [2]))) (step (OpAdd (DsOnchain source_a)) sample_instance)).

Definition call3_trigger : TriggerData := TrOnchain (EtCall call3 : @ChainTrigger sample_chain_class).

Lemma sample_hosts_represented : ∃ r, represents sample_hosts r.
Proof.
  unfold sample_hosts. pose proof (represents_new [DsOnchain source_a] 1 (alloc NOT_DONE_VALUE atomics_empty).2) as Hrep.
  destruct sample_ops_ok as (Hok1 & Hok2 & Hok3 & _).
  destruct (step_refines _ _ _ Hrep Hok1) as (r1 & _ & Hrep1). destruct (step_refines _ _ _ Hrep1 Hok2) as (r2 & _ & Hrep2).
  destruct (step_refines _ _ _ Hrep2 Hok3) as (r3 & _ & Hrep3). exists r3. exact Hrep3.
Qed.

Lemma hosts_for_trigger_complete_witness :
  ∃ r hs, represents sample_hosts r ∧ hosts_for_trigger call3_trigger sample_hosts = Ok hs ∧ length hs = 1%nat ∧
    match_and_decode_inner (λ _ _, Ok []) (fb_light block3) call3_trigger (atomics sample_hosts) hs =
    match_and_decode_inner (λ _ _, Ok []) (fb_light block3) call3_trigger (atomics sample_hosts)
      (reg_onchain r ++ reg_subgraph r ++ reg_offchain r).
Proof.
  destruct sample_hosts_represented as [r Hrep].
  destruct (hosts_for_trigger_complete (λ _ _, Ok []) sample_hosts r call3_trigger (fb_light block3) Hrep) as (hs & Hhs & Heq).
  exists r, hs. split; [exact Hrep|]. split; [exact Hhs|]. split; [|exact Heq].
  assert (match hosts_for_trigger call3_trigger sample_hosts with Ok l => length l | _ => 0%nat end = 1%nat) as Hl by (vm_compute; done).
  rewrite Hhs in Hl. exact Hl.
Defined.

End HostSample.
