(* ===== verification/Float64.v ===== *)
(** * Floating point numbers

    The operations on [f64] that the code uses to choose the size of the ranges
    it scans and of batches: conversions from and to integers, arithmetic and
    the comparisons behind [max] and [min], on the IEEE 754 numbers of the
    standard library. *)

From Stdlib Require Import ZArith Lia ZifyBool SpecFloat.
From stdpp Require Import base numbers.

Local Open Scope Z_scope.

Definition f64 : Type := spec_float.

(** [n as f64] *)
Definition f64_of_int (n : Z) : f64 := binary_normalize 53 1024 n 0 false.

Definition f64_div (a b : f64) : f64 := SFdiv 53 1024 a b.

Definition f64_is_nan (a : f64) : bool := match a with S754_nan => true | _ => false end.

(** The comparison of the numbers that [±m1*2^e1] and [±m2*2^e2] are *)
Definition dyadic_compare (m1 e1 m2 e2 : Z) : comparison :=
  let e := Z.min e1 e2 in (m1 * 2 ^ (e1 - e)) ?= (m2 * 2 ^ (e2 - e)).

Definition f64_compare (a b : f64) : option comparison :=
  match a, b with
  | S754_nan, _ | _, S754_nan => None
  | S754_infinity s, S754_infinity t => Some (if eqb s t then Eq else if s then Lt else Gt)
  | S754_infinity s, _ => Some (if s then Lt else Gt)
  | _, S754_infinity s => Some (if s then Gt else Lt)
  | S754_zero _, S754_zero _ => Some Eq
  | S754_zero _, S754_finite s m e => Some (0 ?= cond_Zopp s (Zpos m))
  | S754_finite s m e, S754_zero _ => Some (cond_Zopp s (Zpos m) ?= 0)
  | S754_finite s m e, S754_finite t n f => Some (dyadic_compare (cond_Zopp s (Zpos m)) e (cond_Zopp t (Zpos n)) f)
  end.

Definition f64_ltb (a b : f64) : bool := match f64_compare a b with Some Lt => true | _ => false end.
Definition f64_eqb (a b : f64) : bool := match f64_compare a b with Some Eq => true | _ => false end.

(** [a.max(b)] and [a.min(b)]: a number that is not a NaN wins. *)
Definition f64_max (a b : f64) : f64 := if f64_is_nan a || f64_ltb a b then b else a.
Definition f64_min (a b : f64) : f64 := if f64_is_nan a || f64_ltb b a then b else a.

Definition I32_MIN : Z := -2147483648.
Definition I32_MAX : Z := 2147483647.

Definition saturate (n : Z) : Z := Z.max I32_MIN (Z.min n I32_MAX).

(** [m * 2 ^ e] without its fractional part *)
Definition truncate (m e : Z) : Z := if 0 <=? e then m * 2 ^ e else Z.quot m (2 ^ (- e)).

(** [a as i32] *)
Definition f64_as_i32 (a : f64) : Z :=
  match a with
  | S754_nan | S754_zero _ => 0
  | S754_infinity s => if s then I32_MIN else I32_MAX
  | S754_finite s m e => saturate (truncate (cond_Zopp s (Zpos m)) e)
  end.

Definition I64_MIN : Z := -9223372036854775808.
Definition I64_MAX : Z := 9223372036854775807.

(** [a as i64] *)
Definition f64_as_i64 (a : f64) : Z :=
  match a with
  | S754_nan | S754_zero _ => 0
  | S754_infinity s => if s then I64_MIN else I64_MAX
  | S754_finite s m e => Z.max I64_MIN (Z.min (truncate (cond_Zopp s (Zpos m)) e) I64_MAX)
  end.

Definition f64_mul (a b : f64) : f64 := SFmul 53 1024 a b.
Definition f64_add (a b : f64) : f64 := SFadd 53 1024 a b.
Definition f64_sub (a b : f64) : f64 := SFsub 53 1024 a b.
Definition f64_abs (a : f64) : f64 := SFabs a.

(** [a >= b] *)
Definition f64_geb (a b : f64) : bool := match f64_compare a b with Some Gt | Some Eq => true | _ => false end.

(** [a.round()], half away from zero *)
Definition f64_round (a : f64) : f64 :=
  match a with
  | S754_finite s m e =>
      if 0 <=? e then a
      else let n := (Zpos m + 2 ^ (- e - 1)) / 2 ^ (- e) in if n =? 0 then S754_zero s else binary_normalize 53 1024 (cond_Zopp s n) 0 s
  | _ => a
  end.

(** [a % b], which is exact and has the sign of [a] *)
Definition f64_rem (a b : f64) : f64 :=
  match a, b with
  | S754_nan, _ | _, S754_nan | S754_infinity _, _ | _, S754_zero _ => S754_nan
  | _, S754_infinity _ | S754_zero _, _ => a
  | S754_finite s m e, S754_finite _ n f =>
      let g := Z.min e f in
      let r := (Zpos m * 2 ^ (e - g)) mod (Zpos n * 2 ^ (f - g)) in
      if r =? 0 then S754_zero s else binary_normalize 53 1024 (cond_Zopp s r) g s
  end.

Definition f64_rem_euclid (a b : f64) : f64 :=
  let r := f64_rem a b in
  if f64_ltb r (f64_of_int 0) then f64_add r (f64_abs b) else r.

(** ** Integers are converted without loss *)

Lemma digits_bounds m : 2 ^ (Zpos (digits2_pos m) - 1) ≤ Zpos m < 2 ^ Zpos (digits2_pos m).
Proof.
  induction m as [m IH|m IH|]; cbn [digits2_pos]; [| |done];
    rewrite Pos2Z.inj_succ; replace (Z.succ _ - 1) with (Z.succ (Zpos (digits2_pos m) - 1)) by lia;
    rewrite !Z.pow_succ_r by lia; lia.
Qed.

Lemma digits_shift m k : digits2_pos (Pos.iter xO m k) = (digits2_pos m + k)%positive.
Proof.
  induction k as [|k IH] using Pos.peano_ind; [cbn; lia|]. rewrite Pos.iter_succ. cbn. rewrite IH. lia.
Qed.

Lemma shift_value m k : Zpos (Pos.iter xO m k) = Zpos m * 2 ^ Zpos k.
Proof.
  induction k as [|k IH] using Pos.peano_ind; [cbn; lia|].
  rewrite Pos.iter_succ, Pos2Z.inj_xO, IH, Pos2Z.inj_succ, Z.pow_succ_r by lia. lia.
Qed.

Lemma fexp_small d : 0 < d ≤ 53 → fexp 53 1024 d = d - 53.
Proof. unfold fexp, SpecFloat.emin. lia. Qed.

Lemma shr_fexp_exact m e : 0 < Zpos (digits2_pos m) + e ≤ 53 → Zpos (digits2_pos m) = 53 →
  shr_fexp 53 1024 (Zpos m) e loc_Exact = (Build_shr_record (Zpos m) false false, e).
Proof.
  intros He Hd. unfold shr_fexp. cbn [Zdigits2]. rewrite fexp_small by done. rewrite Hd.
  replace (53 + e - 53 - e) with 0 by lia. done.
Qed.

Lemma f64_of_pos m : Zpos m < 2 ^ 53 →
  ∃ mz, f64_of_int (Zpos m) = S754_finite false mz (Zpos (digits2_pos m) - 53) ∧ Zpos (digits2_pos m) ≤ 53 ∧
    Zpos mz = Zpos m * 2 ^ (53 - Zpos (digits2_pos m)).
Proof.
  intros Hm. pose proof (digits_bounds m) as [Hlo _]. set (d := Zpos (digits2_pos m)) in *.
  assert (0 < d) by (unfold d; lia).
  assert (d ≤ 53) as Hd. { destruct (Z.le_gt_cases d 53); [done|]. pose proof (Z.pow_le_mono_r 2 53 (d - 1)). lia. }
  assert (∃ mz, shl_align m 0 (fexp 53 1024 (d + 0)) = (mz, d - 53) ∧ Zpos mz = Zpos m * 2 ^ (53 - d) ∧ Zpos (digits2_pos mz) = 53)
    as (mz & Hal & Hv & Hdz).
  { rewrite fexp_small by lia. unfold shl_align. replace (d + 0 - 53 - 0) with (d - 53) by lia.
    destruct (d - 53) as [|k|k] eqn:E; [|lia|].
    - exists m. replace d with 53 by lia. split; [done|]. split; [rewrite Z.pow_0_r; lia|]. unfold d in *. lia.
    - exists (Pos.iter xO m k). split; [f_equal; lia|]. rewrite shift_value, digits_shift, Pos2Z.inj_add. split; [|unfold d in *; lia].
      do 2 f_equal. lia. }
  exists mz. split; [|done]. unfold f64_of_int. cbn [binary_normalize]. unfold binary_round. fold d. rewrite Hal.
  unfold binary_round_aux. rewrite shr_fexp_exact by lia. cbn [shr_m loc_of_shr_record round_nearest_even]. rewrite shr_fexp_exact by lia.
  cbn [shr_m]. replace (d - 53 <=? 1024 - 53) with true by lia. done.
Qed.

Lemma f64_of_int_exact n : 0 ≤ n ≤ I32_MAX → f64_as_i32 (f64_of_int n) = n.
Proof.
  intros [H0 Hn]. unfold I32_MAX in Hn. destruct n as [|m|m]; [done| |lia].
  destruct (f64_of_pos m ltac:(lia)) as (mz & -> & Hd & Hv). cbn [f64_as_i32 cond_Zopp].
  assert (truncate (Zpos mz) (Zpos (digits2_pos m) - 53) = Zpos m) as ->.
  { unfold truncate. destruct (Z.leb_spec 0 (Zpos (digits2_pos m) - 53)).
    - replace (Zpos (digits2_pos m)) with 53 in * by lia. rewrite Hv. rewrite Z.sub_diag, Z.pow_0_r. lia.
    - replace (- (Zpos (digits2_pos m) - 53)) with (53 - Zpos (digits2_pos m)) by lia. rewrite Hv. apply Z.quot_mul. lia. }
  unfold saturate, I32_MIN, I32_MAX. lia.
Qed.

(** ** Conversions to integers keep the order *)

Lemma truncate_scale m e k : 0 ≤ k → truncate (m * 2 ^ k) (e - k) = truncate m e.
Proof.
  intros Hk. unfold truncate. destruct (Z.leb_spec 0 e), (Z.leb_spec 0 (e - k)); [| |lia|].
  - rewrite <- Z.mul_assoc, <- Z.pow_add_r by lia. do 2 f_equal. lia.
  - replace k with (e + (- (e - k))) at 1 by lia. rewrite Z.pow_add_r, Z.mul_assoc by lia. apply Z.quot_mul. lia.
  - replace (- (e - k)) with (- e + k) by lia. rewrite Z.pow_add_r by lia. apply Z.quot_mul_cancel_r; lia.
Qed.

Lemma truncate_mono m n e : m ≤ n → truncate m e ≤ truncate n e.
Proof.
  intros Hmn. unfold truncate. destruct (0 <=? e); [apply Z.mul_le_mono_nonneg_r; [|done]; apply Z.pow_nonneg; lia|].
  destruct (decide (e ≤ 0)); [apply Z.quot_le_mono; [apply Z.pow_pos_nonneg; lia|done]|]. rewrite Z.pow_neg_r by lia. by destruct m, n.
Qed.

Lemma truncate_0 e : truncate 0 e = 0.
Proof. unfold truncate. destruct (0 <=? e); [lia|]. by destruct (2 ^ (- e)). Qed.

Lemma dyadic_le m e n f : dyadic_compare m e n f ≠ Gt → truncate m e ≤ truncate n f.
Proof.
  unfold dyadic_compare. set (g := Z.min e f). intros Hle%Z.compare_le_iff.
  rewrite <- (truncate_scale m e (e - g)), <- (truncate_scale n f (f - g)) by lia.
  replace (e - (e - g)) with g by lia. replace (f - (f - g)) with g by lia. by apply truncate_mono.
Qed.

Lemma saturate_mono m n : m ≤ n → saturate m ≤ saturate n.
Proof. unfold saturate. lia. Qed.

Lemma f64_as_i32_bounds a : I32_MIN ≤ f64_as_i32 a ≤ I32_MAX.
Proof. destruct a as [s|s| |s m e]; cbn; try destruct s; unfold saturate, I32_MIN, I32_MAX; lia. Qed.

Lemma f64_as_i32_mono a b c : f64_compare a b = Some c → c ≠ Gt → f64_as_i32 a ≤ f64_as_i32 b.
Proof.
  pose proof (f64_as_i32_bounds a) as Ha. pose proof (f64_as_i32_bounds b) as Hb. revert Ha Hb.
  destruct a as [s|s| |s m e], b as [t|t| |t n f]; cbn [f64_compare]; intros Ha Hb [= <-] Hc; try done.
  - by destruct t.
  - cbn [f64_as_i32]. change 0 with (saturate 0) at 1. apply saturate_mono. rewrite <- (truncate_0 f). apply truncate_mono.
    by apply Z.compare_le_iff.
  - by destruct s.
  - by destruct s, t.
  - destruct s; [|done]. exact (proj1 Hb).
  - cbn [f64_as_i32]. change 0 with (saturate 0) at 1. apply saturate_mono. rewrite <- (truncate_0 e). apply truncate_mono.
    by apply Z.compare_le_iff.
  - destruct t; [done|]. exact (proj2 Ha).
  - cbn [f64_as_i32]. by apply saturate_mono, dyadic_le.
Qed.

(** ** Values that are kept between bounds *)

Lemma f64_compare_nan a b : f64_compare a b = None ↔ f64_is_nan a = true ∨ f64_is_nan b = true.
Proof. destruct a, b; cbn; naive_solver. Qed.

Lemma f64_compare_swap a b c : f64_compare a b = Some c → f64_compare b a = Some (CompOpp c).
Proof.
  destruct a as [s|s| |s m e], b as [t|t| |t n f]; cbn [f64_compare]; try done;
    try (by destruct s; intros [= <-]); try (by destruct t; intros [= <-]); try (by destruct s, t; intros [= <-]); intros [= <-]; f_equal; [apply Z.compare_antisym..|].
  unfold dyadic_compare. rewrite Z.min_comm. apply Z.compare_antisym.
Qed.

Lemma f64_not_ltb a b : f64_is_nan a = false → f64_is_nan b = false → f64_ltb a b = false → f64_as_i32 b ≤ f64_as_i32 a.
Proof.
  intros Ha Hb. unfold f64_ltb. destruct (f64_compare a b) as [[| |]|] eqn:E; intros Hlt; try done.
  - apply f64_compare_swap in E. by apply (f64_as_i32_mono _ _ _ E).
  - apply f64_compare_swap in E. by apply (f64_as_i32_mono _ _ _ E).
  - apply f64_compare_nan in E as [?|?]; congruence.
Qed.

Lemma f64_ltb_le a b : f64_ltb a b = true → f64_as_i32 a ≤ f64_as_i32 b.
Proof.
  unfold f64_ltb. destruct (f64_compare a b) as [[| |]|] eqn:E; try done. intros _. by apply (f64_as_i32_mono _ _ _ E).
Qed.

Lemma f64_max_ge a b : f64_is_nan b = false → f64_is_nan (f64_max a b) = false ∧ f64_as_i32 b ≤ f64_as_i32 (f64_max a b).
Proof.
  intros Hb. unfold f64_max. destruct (f64_is_nan a) eqn:Ha; [done|]. cbn. destruct (f64_ltb a b) eqn:E; [done|].
  split; [done|]. by apply f64_not_ltb.
Qed.

Lemma f64_min_between a b k : f64_is_nan a = false → f64_is_nan b = false → k ≤ f64_as_i32 a → k ≤ f64_as_i32 b →
  k ≤ f64_as_i32 (f64_min a b) ≤ f64_as_i32 b.
Proof.
  intros Ha Hb Hka Hkb. unfold f64_min. rewrite Ha. cbn. destruct (f64_ltb b a) eqn:E; [lia|].
  split; [done|]. by apply f64_not_ltb.
Qed.

Lemma f64_of_int_not_nan n : 0 ≤ n ≤ I32_MAX → f64_is_nan (f64_of_int n) = false.
Proof.
  unfold I32_MAX. intros [? ?]. destruct n as [|m|m]; [done| |lia]. destruct (f64_of_pos m) as (mz & -> & _); [lia|done].
Qed.

(** [x.max(1.0).min(limit as f64) as i32] is between [1] and [limit], whatever
    [x] is. *)
Lemma f64_clamp x limit : 1 ≤ limit ≤ I32_MAX →
  1 ≤ f64_as_i32 (f64_min (f64_max x (f64_of_int 1)) (f64_of_int limit)) ≤ limit.
Proof.
  intros Hl. destruct (f64_max_ge x (f64_of_int 1)) as [Hn Hm]; [done|].
  change (f64_as_i32 (f64_of_int 1)) with 1 in Hm.
  pose proof (f64_of_int_exact limit ltac:(lia)) as He. rewrite <- He at 3. apply f64_min_between; [done| |done|lia].
  apply f64_of_int_not_nan. lia.
Qed.
