(* ===== verification/BlockStream.v ===== *)
(** * The polling block stream

    [PollingBlockStream] (chain/ethereum/src/polling_block_stream.rs), which
    tells a subgraph which blocks to process and to revert.  The adapter that
    it asks about the chain is a class: its answers depend on the state of the
    chain at the time of the request, and every request is answered at a later
    time than the one before it. *)

From Stdlib Require Import ZArith Lia ZifyBool.
From stdpp Require Import base list strings.
From S2P Require Import Prelude Values Write Float64.

Local Open Scope Z_scope.

(** Arithmetic on [i32] and [u32] as release builds do it *)
Definition i32 (z : Z) : Z := wrap_signed 32 z.
Definition u32 (z : Z) : Z := z mod 2 ^ 32.

Definition BLOCK_NUMBER_MAX : BlockNumber := I32_MAX.

(** ** The adapter *)

(** [TriggersAdapterWrapper]: blocks, blocks with their triggers, and the
    requests, for a filter and a state of the chain *)
Class TriggersAdapter (World : Type) := {
  AdapterFilter : Type;
  AdapterBlock : Type;
  ab_ptr : AdapterBlock → BlockPtr;
  ab_parent_hash : AdapterBlock → option (list Z);
  BlockTriggers : Type;
  bw_block : BlockTriggers → AdapterBlock;
  trigger_count : BlockTriggers → nat;
  chain_head_ptr : World → outcome string (option BlockPtr);
  is_on_main_chain : BlockPtr → World → outcome string bool;
  adapter_parent_ptr : BlockPtr → World → outcome string (option BlockPtr);
  ancestor_block : BlockPtr → BlockNumber → option (list Z) → World → outcome string (option AdapterBlock);
  scan_triggers : AdapterFilter → BlockNumber → BlockNumber → World → outcome string (list BlockTriggers * BlockNumber);
  block_triggers : AdapterFilter → AdapterBlock → World → outcome string BlockTriggers;
}.

Definition bw_ptr `{TriggersAdapter World} (b : BlockTriggers) : BlockPtr := ab_ptr (bw_block b).

(** ** The stream *)

Definition STARTING_PREVIOUS_TRIGGERS_PER_BLOCK : f64 := f64_of_int 1000000.

Section Streams.
Context `{TriggersAdapter World}.

(** [PollingBlockStreamContext]; the wrapped adapter is the class. *)
Record PollingBlockStreamContext := mkContext {
  reorg_threshold : BlockNumber;
  ctx_filter : AdapterFilter;
  start_blocks : list BlockNumber;
  previous_triggers_per_block : f64;
  previous_block_range_size : BlockNumber;
  max_block_range_size : BlockNumber;
  target_triggers_per_block_range : Z;
  current_block : option BlockPtr;
}.

Inductive ReconciliationStep :=
| StepRevert (ptr : BlockPtr)
| ProcessDescendantBlocks (blocks : list BlockTriggers) (range_size : BlockNumber)
| Retry
| StepDone.

Inductive NextBlocks :=
| NextBlocksBlocks (blocks : list BlockTriggers) (range_size : BlockNumber)
| NextBlocksRevert (ptr : BlockPtr)
| NextBlocksDone.

Inductive BlockStreamState :=
| BeginReconciliation
| Reconciliation (ctx : PollingBlockStreamContext)
| YieldingBlocks (blocks : list BlockTriggers)
| RetryAfterDelay (secs : Z)
| Idle.

Record PollingBlockStream := mkStream {
  stream_state : BlockStreamState;
  consecutive_err_count : Z;
  stream_ctx : PollingBlockStreamContext;
}.

Definition stream_new (filter : AdapterFilter) (start_blocks : list BlockNumber) (reorg_threshold max_block_range_size : BlockNumber)
    (target_triggers_per_block_range : Z) (start_block : option BlockPtr) : PollingBlockStream :=
  mkStream BeginReconciliation 0
    (mkContext reorg_threshold filter start_blocks STARTING_PREVIOUS_TRIGGERS_PER_BLOCK 1 max_block_range_size
       target_triggers_per_block_range start_block).

Definition set_state (state : BlockStreamState) (self : PollingBlockStream) : PollingBlockStream :=
  mkStream state (consecutive_err_count self) (stream_ctx self).
Definition set_err_count (n : Z) (self : PollingBlockStream) : PollingBlockStream :=
  mkStream (stream_state self) n (stream_ctx self).
Definition set_ctx (ctx : PollingBlockStreamContext) (self : PollingBlockStream) : PollingBlockStream :=
  mkStream (stream_state self) (consecutive_err_count self) ctx.

Definition set_current_block (ptr : BlockPtr) (c : PollingBlockStreamContext) : PollingBlockStreamContext :=
  mkContext (reorg_threshold c) (ctx_filter c) (start_blocks c) (previous_triggers_per_block c) (previous_block_range_size c)
    (max_block_range_size c) (target_triggers_per_block_range c) (Some ptr).
Definition set_max_range (n : BlockNumber) (c : PollingBlockStreamContext) : PollingBlockStreamContext :=
  mkContext (reorg_threshold c) (ctx_filter c) (start_blocks c) (previous_triggers_per_block c) (previous_block_range_size c)
    n (target_triggers_per_block_range c) (current_block c).
Definition set_previous_triggers (x : f64) (c : PollingBlockStreamContext) : PollingBlockStreamContext :=
  mkContext (reorg_threshold c) (ctx_filter c) (start_blocks c) x (previous_block_range_size c)
    (max_block_range_size c) (target_triggers_per_block_range c) (current_block c).
Definition set_previous_range (n : BlockNumber) (c : PollingBlockStreamContext) : PollingBlockStreamContext :=
  mkContext (reorg_threshold c) (ctx_filter c) (start_blocks c) (previous_triggers_per_block c) n
    (max_block_range_size c) (target_triggers_per_block_range c) (current_block c).

(** ** Reconciliation

    The states of the chain at the times at which requests are answered; the
    state of the monad is the number of requests so far. *)

Context (world : nat → World).

Definition ask {A} (request : World → outcome string A) : st nat string A := λ t, (S t, request (world t)).

Definition parent_ptr (block_ptr : BlockPtr) : st nat string BlockPtr :=
  ptr ← ask (adapter_parent_ptr block_ptr);
  match ptr with Some ptr => mret ptr | None => st_fail "Failed to get parent pointer" end.

(** The first block after [from] at which a data source starts *)
Definition next_start_block (from : BlockNumber) (start_blocks : list BlockNumber) : BlockNumber :=
  match base.filter (λ n, from < n) start_blocks with
  | [] => BLOCK_NUMBER_MAX
  | n :: l => foldl Z.min n l
  end.

(** How many blocks to scan *)
Definition target_range_size (ctx : PollingBlockStreamContext) : BlockNumber :=
  let range_size_upper_limit := Z.min (max_block_range_size ctx) (i32 (previous_block_range_size ctx * 10)) in
  if f64_eqb (previous_triggers_per_block ctx) (f64_of_int 0) then range_size_upper_limit
  else
    f64_as_i32
      (f64_min
         (f64_max (f64_div (f64_of_int (target_triggers_per_block_range ctx)) (previous_triggers_per_block ctx)) (f64_of_int 1))
         (f64_of_int range_size_upper_limit)).

(** The last block to scan *)
Definition scan_to (ctx : PollingBlockStreamContext) (from head reorg_threshold : BlockNumber) : BlockNumber :=
  let to_limit := Z.min (i32 (head - reorg_threshold)) (i32 (next_start_block from (start_blocks ctx) - 1)) in
  Z.min (i32 (i32 (from + target_range_size ctx) - 1)) to_limit.

(** The branch of [get_next_step] for a pointer that is far behind the head *)
Definition step_final (ctx : PollingBlockStreamContext) (head_ptr : BlockPtr) (reorg_threshold : BlockNumber) (subgraph_ptr : option BlockPtr)
    : st nat string ReconciliationStep :=
  on_main ← match subgraph_ptr with Some ptr => ask (is_on_main_chain ptr) | None => mret true end;
  if negb on_main then
    match subgraph_ptr with
    | Some from => parent ← parent_ptr from; mret (StepRevert parent)
    | None => λ t, (t, Panic)
    end
  else
    let from := match subgraph_ptr with Some ptr => i32 (ptr_number ptr + 1) | None => 0 end in
    r ← ask (scan_triggers (ctx_filter ctx) from (scan_to ctx from (ptr_number head_ptr) reorg_threshold));
    let '(blocks, to) := r : list BlockTriggers * BlockNumber in
    let range_size := i32 (i32 (to - from) + 1) in
    if bool_decide (i32 (ptr_number head_ptr - reorg_threshold) < to) then mret Retry
    else mret (ProcessDescendantBlocks blocks range_size).

(** The branch for a pointer that is near the head *)
Definition step_nonfinal (ctx : PollingBlockStreamContext) (head_ptr : BlockPtr) (subgraph_ptr : BlockPtr)
    : st nat string ReconciliationStep :=
  let offset := i32 (i32 (ptr_number head_ptr - ptr_number subgraph_ptr) - 1) in
  head_ancestor_opt ← ask (ancestor_block head_ptr offset (Some (ptr_hash subgraph_ptr)));
  match head_ancestor_opt with
  | None => mret Retry
  | Some head_ancestor =>
      if bool_decide (ab_parent_hash head_ancestor = Some (ptr_hash subgraph_ptr)) then
        block ← ask (block_triggers (ctx_filter ctx) head_ancestor);
        mret (ProcessDescendantBlocks [block] 1)
      else
        parent ← parent_ptr subgraph_ptr;
        mret (StepRevert parent)
  end.

Definition get_next_step (ctx : PollingBlockStreamContext) : st nat string ReconciliationStep :=
  head_ptr_opt ← ask chain_head_ptr;
  let subgraph_ptr := current_block ctx in
  match head_ptr_opt with
  | None => mret StepDone
  | Some head_ptr =>
      let reorg_threshold := Z.min (reorg_threshold ctx) (ptr_number head_ptr) in
      match subgraph_ptr with
      | None => step_final ctx head_ptr reorg_threshold None
      | Some ptr =>
          if bool_decide (ptr_number head_ptr ≤ ptr_number ptr) then mret StepDone
          else if bool_decide (reorg_threshold < i32 (ptr_number head_ptr - ptr_number ptr)) then
            step_final ctx head_ptr reorg_threshold (Some ptr)
          else step_nonfinal ctx head_ptr ptr
      end
  end.

(** [next_blocks], as far as it gets with [fuel] rounds; [None] when it has not
    ended by then *)
Fixpoint next_blocks (fuel : nat) (ctx : PollingBlockStreamContext) : st nat string (option NextBlocks) :=
  match fuel with
  | O => mret None
  | S fuel =>
      step ← get_next_step ctx;
      match step with
      | ProcessDescendantBlocks blocks range_size => mret (Some (NextBlocksBlocks blocks range_size))
      | Retry => next_blocks fuel ctx
      | StepDone => mret (Some NextBlocksDone)
      | StepRevert parent_ptr => mret (Some (NextBlocksRevert parent_ptr))
      end
  end.

(** ** Polling *)

Inductive BlockStreamEvent :=
| Revert (ptr : BlockPtr) (cursor : option string)
| ProcessBlock (block : BlockTriggers) (cursor : option string).

Inductive Poll :=
| Pending
| Ready (item : BlockStreamEvent + string).

(** What the environment has done when the stream is polled: how many rounds
    of the reconciliation have ended, whether the delay after an error is over,
    and what the stream of chain head updates gives *)
Record Tick := mkTick {
  tick_rounds : nat;
  tick_delay_over : bool;
  tick_head_update : option (option unit);
}.

Definition count_triggers (blocks : list BlockTriggers) : nat := foldr (λ b n, (trigger_count b + n)%nat) 0%nat blocks.

(** The bookkeeping when blocks have been found *)
Definition blocks_found (blocks : list BlockTriggers) (block_range_size : BlockNumber) (self : PollingBlockStream) : PollingBlockStream :=
  let ctx := stream_ctx self in
  let ctx := if bool_decide (consecutive_err_count self = 1)
             then set_max_range (Z.max (Z.quot (i32 (max_block_range_size ctx * 9)) 10) 10) ctx else ctx in
  let total_triggers := Z.of_nat (count_triggers blocks) in
  let ctx := set_previous_triggers (f64_div (f64_of_int total_triggers) (f64_of_int block_range_size)) ctx in
  let ctx := set_previous_range block_range_size ctx in
  mkStream (YieldingBlocks blocks) 0 ctx.

(** The bookkeeping after an error *)
Definition reconciliation_failed (self : PollingBlockStream) : PollingBlockStream :=
  let n := u32 (consecutive_err_count self + 1) in
  let secs := Z.max (u32 (5 * n)) 120 in
  mkStream (RetryAfterDelay secs) n (set_previous_triggers STARTING_PREVIOUS_TRIGGERS_PER_BLOCK (stream_ctx self)).

(** One iteration of the loop of [poll_next]; [None] is another iteration. *)
Definition poll_iteration (tick : Tick) (self : PollingBlockStream) (t : nat) : PollingBlockStream * nat * outcome string (option Poll) :=
  match stream_state self with
  | BeginReconciliation => (set_state (Reconciliation (stream_ctx self)) self, t, Ok None)
  | Reconciliation ctx =>
      let '(t, r) := next_blocks (tick_rounds tick) ctx t in
      match r with
      | Ok None => (self, t, Ok (Some Pending))
      | Ok (Some (NextBlocksBlocks blocks block_range_size)) => (blocks_found blocks block_range_size self, t, Ok None)
      | Ok (Some NextBlocksDone) => (set_state Idle (set_err_count 0 self), t, Ok None)
      | Ok (Some (NextBlocksRevert parent_ptr)) =>
          (set_state BeginReconciliation (set_ctx (set_current_block parent_ptr (stream_ctx self)) self), t,
           Ok (Some (Ready (inl (Revert parent_ptr None)))))
      | Err e => (reconciliation_failed self, t, Ok (Some (Ready (inr e))))
      | Panic => (self, t, Panic)
      end
  | YieldingBlocks [] => (set_state BeginReconciliation self, t, Ok None)
  | YieldingBlocks (next_block :: rest) =>
      (set_state (YieldingBlocks rest) (set_ctx (set_current_block (bw_ptr next_block) (stream_ctx self)) self), t,
       Ok (Some (Ready (inl (ProcessBlock next_block None)))))
  | RetryAfterDelay _ =>
      if tick_delay_over tick then (set_state BeginReconciliation self, t, Ok None) else (self, t, Ok (Some Pending))
  | Idle =>
      match tick_head_update tick with
      | Some (Some _) => (set_state BeginReconciliation self, t, Ok None)
      | Some None => (self, t, Ok (Some (Ready (inr "chain head update stream ended unexpectedly"))))
      | None => (self, t, Ok (Some Pending))
      end
  end.

(** A run: an iteration for each tick; the items that the stream gives *)
Fixpoint poll_run (ticks : list Tick) (self : PollingBlockStream) (t : nat)
    : PollingBlockStream * nat * outcome string (list (BlockStreamEvent + string)) :=
  match ticks with
  | [] => (self, t, Ok [])
  | tick :: ticks =>
      match poll_iteration tick self t with
      | (self, t, Ok r) =>
          match poll_run ticks self t with
          | (self, t, Ok items) => (self, t, Ok (match r with Some (Ready item) => item :: items | _ => items end))
          | (self, t, r) => (self, t, r)
          end
      | (self, t, Err e) => (self, t, Err e)
      | (self, t, Panic) => (self, t, Panic)
      end
  end.

End Streams.
