(* ===== verification/StreamFacts.v ===== *)
(** * The polling block stream follows the chain

    What the block stream relies on of its adapter, and what a subgraph can
    rely on: the blocks that it is told to process and to revert follow the
    chain, and no block with triggers is left out. *)

From Stdlib Require Import ZArith Lia ZifyBool.
From stdpp Require Import base list sets strings sorting.
From S2P Require Import Prelude Values Write Float64 BlockStream.

Local Open Scope Z_scope.

Lemma i32_id z : I32_MIN ≤ z ≤ I32_MAX → i32 z = z.
Proof.
  unfold I32_MIN, I32_MAX. intros Hz. unfold i32, wrap_signed. change (2 ^ 32) with 4294967296. change (2 ^ (32 - 1)) with 2147483648. destruct (Z.leb_spec 0 z).
  - rewrite Z.mod_small by lia. destruct (Z.ltb_spec z 2147483648); lia.
  - replace (z mod 4294967296) with (z + 4294967296).
    + destruct (Z.ltb_spec (z + 4294967296) 2147483648); lia.
    + rewrite <- (Z.mod_add z 1 4294967296) by lia. rewrite Z.mod_small; lia.
Qed.


(** ** What the adapter promises *)

(** The state of the chain behind the answers: the pointers of the blocks of
    the main chain by their number, the last number that is known, which blocks
    have triggers for the filter, whether a block comes with all of them, and
    how blocks descend from each other *)
Class ChainView (World : Type) `{TriggersAdapter World} := {
  canonical : World → BlockNumber → option BlockPtr;
  known : World → BlockNumber;
  relevant : BlockPtr → Prop;
  complete : BlockTriggers → Prop;
  is_parent : BlockPtr → BlockPtr → Prop;
  ancestor : BlockPtr → BlockPtr → Prop;
}.

Section Views.
Context `{ChainView World}.

(** The result of a scan from [from] to [to] *)
Record scanned (w : World) (from to : BlockNumber) (blocks : list BlockTriggers) : Prop := {
  scanned_sorted : StronglySorted (λ a b, ptr_number (bw_ptr a) < ptr_number (bw_ptr b)) blocks;
  scanned_canonical : ∀ b, b ∈ blocks →
    from ≤ ptr_number (bw_ptr b) ≤ to ∧ canonical w (ptr_number (bw_ptr b)) = Some (bw_ptr b) ∧ complete b;
  scanned_all : ∀ n p, from ≤ n ≤ to → canonical w n = Some p → relevant p → ∃ b, b ∈ blocks ∧ bw_ptr b = p;
}.

End Views.

(** The block number up to which blocks are final *)
Definition final_number (threshold head : BlockNumber) : BlockNumber := head - Z.min threshold head.

(** Blocks below the reorg threshold do not change any more; a scan gives all
    blocks with triggers of a range, and passes at most [gap] rounds without a
    block at its end; requests that make sense do not panic. *)
Class TriggersAdapterSpec {World : Type} `{ChainView World} (world : nat → World) (filter : AdapterFilter)
    (threshold gap head_max : BlockNumber) := {
  canonical_number : ∀ t n p, canonical (world t) n = Some p → ptr_number p = n;
  known_mono : ∀ t t', (t ≤ t')%nat → known (world t) ≤ known (world t');
  head_known : ∀ t h, chain_head_ptr (world t) = Ok (Some h) → 0 ≤ ptr_number h ≤ known (world t) ∧ ptr_number h ≤ head_max;
  finality : ∀ t t' h n, (t ≤ t')%nat → chain_head_ptr (world t) = Ok (Some h) → 0 ≤ n ≤ final_number threshold (ptr_number h) →
    canonical (world t') n = canonical (world t) n;
  main_chain_spec : ∀ p t on_main, 0 ≤ ptr_number p ≤ known (world t) → is_on_main_chain p (world t) = Ok on_main →
    on_main = true ↔ canonical (world t) (ptr_number p) = Some p;
  scan_spec : ∀ from to t blocks to', 0 ≤ from ≤ to → to ≤ known (world t) → scan_triggers filter from to (world t) = Ok (blocks, to') →
    to ≤ to' ≤ to + gap ∧ scanned (world t) from to' blocks ∧ ∃ b, b ∈ blocks ∧ ptr_number (bw_ptr b) = to';
  block_triggers_spec : ∀ h n r t0 b t bt, ancestor_block h n r (world t0) = Ok (Some b) → block_triggers filter b (world t) = Ok bt →
    bw_ptr bt = ab_ptr b ∧ ab_parent_hash (bw_block bt) = ab_parent_hash b ∧ complete bt;
  parent_ptr_spec : ∀ c t p, adapter_parent_ptr c (world t) = Ok (Some p) → is_parent p c ∧ 0 ≤ ptr_number p;
  ancestor_spec : ∀ h c t b, ptr_number c < ptr_number h → ancestor c h →
    ancestor_block h (ptr_number h - ptr_number c - 1) (Some (ptr_hash c)) (world t) = Ok (Some b) → ab_parent_hash b = Some (ptr_hash c);
  head_no_panic : ∀ t, chain_head_ptr (world t) ≠ Panic;
  main_chain_no_panic : ∀ p t, 0 ≤ ptr_number p ≤ known (world t) → is_on_main_chain p (world t) ≠ Panic;
  parent_no_panic : ∀ p t, adapter_parent_ptr p (world t) ≠ Panic;
  ancestor_no_panic : ∀ h n r t, ancestor_block h n r (world t) ≠ Panic;
  scan_no_panic : ∀ from to t, 0 ≤ from ≤ to → to ≤ known (world t) → scan_triggers filter from to (world t) ≠ Panic;
  block_triggers_no_panic : ∀ h n r t0 b t, ancestor_block h n r (world t0) = Ok (Some b) → block_triggers filter b (world t) ≠ Panic;
  ancestor_number : ∀ h n r t b, ancestor_block h n r (world t) = Ok (Some b) → 0 ≤ ptr_number (ab_ptr b);
}.

(** ** The range of a scan *)

Lemma foldl_min_spec n l : foldl Z.min n l ∈ n :: l ∧ ∀ m, m ∈ n :: l → foldl Z.min n l ≤ m.
Proof.
  revert n. induction l as [|k l IH]; intros n; cbn [foldl].
  { split; [by left|]. intros m ->%list_elem_of_singleton. lia. }
  destruct (IH (Z.min n k)) as [Hin Hle]. split.
  - apply elem_of_cons in Hin as [->|Hin]; [|set_solver]. destruct (Z.min_spec n k) as [[_ ->]|[_ ->]]; set_solver.
  - intros m Hm. pose proof (Hle (Z.min n k) ltac:(set_solver)). apply elem_of_cons in Hm as [->|[->|Hm]%elem_of_cons]; [lia..|].
    apply Hle. set_solver.
Qed.

Lemma next_start_block_spec from l : from < BLOCK_NUMBER_MAX → (∀ n, n ∈ l → n ≤ BLOCK_NUMBER_MAX) →
  from < next_start_block from l ≤ BLOCK_NUMBER_MAX ∧ ∀ n, n ∈ l → from < n → next_start_block from l ≤ n.
Proof.
  intros Hf Hl. unfold next_start_block. destruct (base.filter (λ n, from < n) l) as [|n k] eqn:E.
  - split; [lia|]. intros n Hn Hlt. exfalso. apply (elem_of_nil n). rewrite <- E. by apply list_elem_of_filter.
  - destruct (foldl_min_spec n k) as [Hin Hle]. rewrite <- E in Hin, Hle. apply list_elem_of_filter in Hin as [Hlt Hin].
    split; [auto|]. intros m Hm Hfm. apply Hle. by apply list_elem_of_filter.
Qed.

Section Following.
Context {World : Type} `{ChainView World} (world : nat → World) (filter : AdapterFilter) (threshold gap head_max max_range : BlockNumber).
Context `{!TriggersAdapterSpec world filter threshold gap head_max}.
Context (Hthreshold : 0 ≤ threshold) (Hgap : 0 ≤ gap) (Hmax : 10 ≤ max_range) (Hsmall : 10 * (max_range + gap) ≤ I32_MAX).
Context (Hhead : head_max + max_range ≤ I32_MAX).

(** The settings of a stream; [max_range] bounds the configured size of ranges. *)
Record ctx_ok (ctx : PollingBlockStreamContext) : Prop := {
  ok_threshold : reorg_threshold ctx = threshold;
  ok_filter : ctx_filter ctx = filter;
  ok_start_blocks : ∀ n, n ∈ start_blocks ctx → n ≤ BLOCK_NUMBER_MAX;
  ok_previous : 1 ≤ previous_block_range_size ctx ≤ max_range + gap;
  ok_max : 1 ≤ max_block_range_size ctx ≤ max_range;
  ok_current : ∀ p, current_block ctx = Some p → 0 ≤ ptr_number p;
}.

Lemma target_range_size_spec ctx : ctx_ok ctx → 1 ≤ target_range_size ctx ≤ max_block_range_size ctx.
Proof using Hgap Hsmall Hmax.
  intros Hok. pose proof (ok_previous _ Hok). pose proof (ok_max _ Hok). unfold target_range_size.
  rewrite i32_id by (unfold I32_MIN, I32_MAX in *; lia). set (limit := Z.min _ _).
  assert (1 ≤ limit ≤ max_block_range_size ctx) as Hl by (unfold limit; lia).
  destruct (f64_eqb _ _); [done|]. pose proof (f64_clamp (f64_div (f64_of_int (target_triggers_per_block_range ctx)) (previous_triggers_per_block ctx)) limit) as Hc.
  unfold I32_MAX in *. lia.
Qed.

Lemma scan_to_spec ctx from head : ctx_ok ctx → 0 ≤ from → from ≤ final_number threshold head → head ≤ head_max →
  from ≤ scan_to ctx from head (Z.min threshold head) ≤ final_number threshold head ∧
  scan_to ctx from head (Z.min threshold head) < from + max_block_range_size ctx ∧
  ∀ n, n ∈ start_blocks ctx → from < n → scan_to ctx from head (Z.min threshold head) < n.
Proof using Hgap Hsmall Hmax Hhead Hthreshold.
  intros Hok Hf Hff Hh. pose proof (target_range_size_spec ctx Hok) as Ht. pose proof (ok_max _ Hok) as Hm.
  destruct (next_start_block_spec from (start_blocks ctx)) as [Hn Hnall]; [|apply Hok|].
  { unfold final_number, BLOCK_NUMBER_MAX in *. lia. }
  unfold scan_to, final_number, BLOCK_NUMBER_MAX in *.
  rewrite !i32_id by (rewrite ?i32_id; unfold I32_MIN, I32_MAX in *; lia).
  split; [lia|]. split; [lia|]. intros n Hin Hlt. specialize (Hnall n Hin Hlt). lia.
Qed.

(** ** Following the chain *)

Definition first_after (cur : option BlockPtr) : BlockNumber := match cur with Some c => ptr_number c + 1 | None => 0 end.

(** A block that may be processed after [cur]: its child, or a final block such
    that the blocks between them, which are also final, have no triggers *)
Inductive linked (cur : option BlockPtr) (b : BlockTriggers) : Prop :=
| linked_child c : cur = Some c → ab_parent_hash (bw_block b) = Some (ptr_hash c) → linked cur b
| linked_final t0 t h :
    (t0 ≤ t)%nat → chain_head_ptr (world t0) = Ok (Some h) → ptr_number (bw_ptr b) ≤ final_number threshold (ptr_number h) →
    canonical (world t) (ptr_number (bw_ptr b)) = Some (bw_ptr b) →
    (∀ c, cur = Some c → canonical (world t) (ptr_number c) = Some c) → first_after cur ≤ ptr_number (bw_ptr b) →
    (∀ n p, first_after cur ≤ n < ptr_number (bw_ptr b) → canonical (world t) n = Some p → ¬ relevant p) → linked cur b.

(** A block that is reverted: a final block took its place, or the head of the
    chain does not descend from it *)
Definition off_chain (c : BlockPtr) : Prop :=
  (∃ t0 t h, (t0 ≤ t)%nat ∧ chain_head_ptr (world t0) = Ok (Some h) ∧ ptr_number c < final_number threshold (ptr_number h) ∧
    canonical (world t) (ptr_number c) ≠ Some c) ∨
  ∃ t h, chain_head_ptr (world t) = Ok (Some h) ∧ ptr_number c < ptr_number h ∧ ¬ ancestor c h.

(** The blocks that a subgraph at [cur] goes through with the items of the
    stream, up to the last pointer *)
Inductive follows : option BlockPtr → list (BlockStreamEvent + string) → option BlockPtr → Prop :=
| follows_nil cur : follows cur [] cur
| follows_process cur b items last :
    linked cur b → complete b → follows (Some (bw_ptr b)) items last → follows cur (inl (ProcessBlock b None) :: items) last
| follows_revert c p items last :
    is_parent p c → off_chain c → follows (Some p) items last → follows (Some c) (inl (Revert p None) :: items) last
| follows_error cur e items last : follows cur items last → follows cur (inr e :: items) last.

Fixpoint queued (cur : option BlockPtr) (blocks : list BlockTriggers) : Prop :=
  match blocks with
  | [] => True
  | b :: blocks => linked cur b ∧ complete b ∧ 0 ≤ ptr_number (bw_ptr b) ∧ queued (Some (bw_ptr b)) blocks
  end.

Lemma scanned_queued t0 t h from to blocks cur :
  (t0 ≤ t)%nat → chain_head_ptr (world t0) = Ok (Some h) → to ≤ final_number threshold (ptr_number h) →
  (∀ c, cur = Some c → canonical (world t) (ptr_number c) = Some c) → first_after cur = from → 0 ≤ from →
  scanned (world t) from to blocks → queued cur blocks.
Proof.
  intros Ht Hh Hto. revert from cur. induction blocks as [|b blocks IH]; [done|]. intros from cur Hcur Hfrom Hf0 [Hs Hc Hall].
  pose proof Hs as [Hs' Hlt]%StronglySorted_inv. rewrite Forall_forall in Hlt.
  destruct (Hc b ltac:(by left)) as (Hb & Hcb & Hcomp). cbn [queued]. split; [|split; [done|split; [lia|]]].
  - eapply (linked_final _ _ t0 t h); try done; [lia|lia|]. intros n p Hn Hp Hr.
    destruct (Hall n p ltac:(lia) Hp Hr) as (b' & [->|Hin]%elem_of_cons & <-).
    + apply canonical_number in Hp. lia.
    + apply Hlt in Hin. apply canonical_number in Hp. lia.
  - apply (IH (ptr_number (bw_ptr b) + 1)); [by intros c [= <-]|done|lia|]. split; [done| |].
    + intros b' Hb'. destruct (Hc b' ltac:(by right)) as (? & ? & ?). apply Hlt in Hb'. split; [lia|done].
    + intros n p Hn Hp Hr. destruct (Hall n p ltac:(lia) Hp Hr) as (b' & [->|Hin]%elem_of_cons & Heq); [|eauto].
      apply canonical_number in Hp. subst p. lia.
Qed.

(** ** Steps *)

Definition step_ok (ctx : PollingBlockStreamContext) (r : outcome string ReconciliationStep) : Prop :=
  match r with
  | Ok (StepRevert p) => ∃ c, current_block ctx = Some c ∧ is_parent p c ∧ off_chain c ∧ 0 ≤ ptr_number p
  | Ok (ProcessDescendantBlocks blocks size) => queued (current_block ctx) blocks ∧ blocks ≠ [] ∧ 1 ≤ size ≤ max_range + gap
  | Panic => False
  | _ => True
  end.

Lemma ask_bind {A B} (f : World → outcome string A) (g : A → st nat string B) t :
  (ask world f ≫= g) t = match f (world t) with Ok a => g a (S t) | Err e => (S t, Err e) | Panic => (S t, Panic) end.
Proof. unfold ask, mbind, st_bind. by destruct (f (world t)). Qed.

Lemma parent_ptr_step ctx c t :
  current_block ctx = Some c → off_chain c →
  step_ok ctx (((parent ← parent_ptr world c; mret (StepRevert parent)) : st nat string ReconciliationStep) t).2.
Proof.
  intros Hc Hoff. unfold mbind, st_bind at 1, parent_ptr. rewrite ask_bind.
  destruct (adapter_parent_ptr c (world t)) as [[p|]|e|] eqn:E; try done.
  - destruct (parent_ptr_spec _ _ _ E). cbn. eauto.
  - by apply parent_no_panic in E.
Qed.

Lemma step_final_spec ctx h t0 t :
  ctx_ok ctx → (t0 ≤ t)%nat → chain_head_ptr (world t0) = Ok (Some h) →
  (∀ c, current_block ctx = Some c → ptr_number c < final_number threshold (ptr_number h)) →
  step_ok ctx (step_final world ctx h (Z.min threshold (ptr_number h)) (current_block ctx) t).2.
Proof using All.
  intros Hok Ht Hh Hcur. destruct (head_known _ _ Hh) as [Hk Hhm]. unfold step_final.
  assert (final_number threshold (ptr_number h) ≤ ptr_number h) as Hfin by (unfold final_number; lia).
  assert (0 ≤ final_number threshold (ptr_number h)) as Hfin0 by (unfold final_number; lia).
  assert (∀ t1, (t0 ≤ t1)%nat → (∀ c, current_block ctx = Some c → canonical (world t1) (ptr_number c) = Some c) →
    step_ok ctx ((let from := match current_block ctx with Some ptr => i32 (ptr_number ptr + 1) | None => 0 end in
      r ← ask world (scan_triggers (ctx_filter ctx) from (scan_to ctx from (ptr_number h) (Z.min threshold (ptr_number h))));
      let '(blocks, to) := r : list BlockTriggers * BlockNumber in
      let range_size := i32 (i32 (to - from) + 1) in
      if bool_decide (i32 (ptr_number h - Z.min threshold (ptr_number h)) < to) then mret Retry
      else mret (ProcessDescendantBlocks blocks range_size)) t1).2) as Hscan.
  { intros t1 Ht1 Hcan. set (from := match current_block ctx with Some ptr => i32 (ptr_number ptr + 1) | None => 0 end).
    assert (first_after (current_block ctx) = from ∧ 0 ≤ from ≤ final_number threshold (ptr_number h)) as [Hfrom Hf].
    { unfold from, first_after. destruct (current_block ctx) as [c|] eqn:Ec; [|lia]. specialize (Hcur c eq_refl).
      pose proof (ok_current _ Hok c Ec). rewrite i32_id by (unfold I32_MIN, I32_MAX in *; lia). lia. }
    destruct (scan_to_spec ctx from (ptr_number h) Hok) as ([Hto1 Hto2] & Hto3 & _); [lia|lia|lia|].
    cbv zeta. fold from. rewrite ask_bind, (ok_filter _ Hok). set (to := scan_to _ _ _ _) in *. clearbody to from. pose proof (known_mono t0 t1 Ht1).
    destruct (scan_triggers filter from to (world t1)) as [[blocks to']|e|] eqn:E; [|done|by apply scan_no_panic in E; [|lia|lia]].
    destruct (scan_spec from to t1 blocks to') as (Hto' & Hs & b & Hb & _); [lia|lia|exact E|].
    pose proof (ok_max _ Hok). rewrite !(i32_id (ptr_number h - _)) by (unfold I32_MIN, I32_MAX in *; lia). case_bool_decide; [exact I|]. cbn.
    split; [apply (scanned_queued t0 t1 h from to'); [lia|done|unfold final_number; lia|done|done|lia|done]|]. split; [by intros ->; apply elem_of_nil in Hb|].
    rewrite !i32_id by (rewrite ?i32_id; unfold final_number, I32_MIN, I32_MAX in *; lia). lia. }
  destruct (current_block ctx) as [c|] eqn:Ec; [|by apply (Hscan t)].
  rewrite ask_bind. pose proof (known_mono t0 t Ht). pose proof (ok_current _ Hok c Ec). specialize (Hcur c eq_refl).
  destruct (is_on_main_chain c (world t)) as [on_main|e|] eqn:E; [|done|by apply main_chain_no_panic in E; [|lia]].
  assert (on_main = true ↔ canonical (world t) (ptr_number c) = Some c) as Hon by (apply main_chain_spec; [lia|done]).
  destruct on_main; cbn [negb].
  - apply Hscan; [lia|]. intros ? [= <-].
    rewrite (finality t0 (S t) h) by (done || lia). rewrite <- (finality t0 t h) by (done || lia). by apply Hon.
  - apply parent_ptr_step; [done|]. left. exists t0, t, h. split; [done|]. split; [done|]. split; [done|].
    intros Hcan. by apply Hon in Hcan.
Qed.

Lemma step_nonfinal_spec ctx h c t :
  chain_head_ptr (world t) = Ok (Some h) → ctx_ok ctx → current_block ctx = Some c → ptr_number c < ptr_number h →
  step_ok ctx (step_nonfinal world ctx h c (S t)).2.
Proof using All.
  intros Hh Hok Hc Hlt. destruct (head_known _ _ Hh) as [Hk Hhm]. pose proof (ok_current _ Hok c Hc). unfold step_nonfinal.
  rewrite !i32_id by (rewrite ?i32_id; unfold I32_MIN, I32_MAX in *; lia). cbv zeta. rewrite ask_bind.
  destruct (ancestor_block _ _ _ _) as [[b|]|e|] eqn:E; [|done|done|by apply ancestor_no_panic in E].
  case_bool_decide as Hp.
  - rewrite ask_bind, (ok_filter _ Hok). destruct (block_triggers filter b _) as [bt|e|] eqn:E'; [|done|by eapply block_triggers_no_panic in E'].
    destruct (block_triggers_spec _ _ _ _ _ _ _ E E') as (Hptr & Hpar & Hcomp). rewrite <- Hpar in Hp. cbn. rewrite Hc, Hptr.
    split; [split; [by eapply linked_child|]|split; [done|lia]]. split; [done|]. split; [by eapply ancestor_number|done].
  - apply parent_ptr_step; [done|]. right. exists t, h. split; [done|]. split; [done|]. intros Ha. apply Hp. by eapply ancestor_spec.
Qed.

Lemma get_next_step_spec ctx t : ctx_ok ctx → step_ok ctx (get_next_step world ctx t).2.
Proof using All.
  intros Hok. unfold get_next_step. rewrite ask_bind. destruct (chain_head_ptr (world t)) as [[h|]|e|] eqn:Hh; [|done|done|by apply head_no_panic in Hh].
  rewrite (ok_threshold _ Hok). cbv zeta. destruct (head_known _ _ Hh) as [Hk Hhm]. destruct (current_block ctx) as [c|] eqn:Hc.
  - pose proof (ok_current _ Hok c Hc). case_bool_decide; [done|].
    rewrite i32_id by (unfold I32_MIN, I32_MAX in *; lia). case_bool_decide; [|by apply step_nonfinal_spec; [| | |lia]].
    rewrite <- Hc. apply (step_final_spec ctx h t); [done|lia|done|]. rewrite Hc. intros ? [= <-]. unfold final_number. lia.
  - rewrite <- Hc. apply (step_final_spec ctx h t); [done|lia|done|]. by rewrite Hc.
Qed.

Definition next_ok (ctx : PollingBlockStreamContext) (r : outcome string (option NextBlocks)) : Prop :=
  match r with
  | Ok (Some (NextBlocksRevert p)) => ∃ c, current_block ctx = Some c ∧ is_parent p c ∧ off_chain c ∧ 0 ≤ ptr_number p
  | Ok (Some (NextBlocksBlocks blocks size)) => queued (current_block ctx) blocks ∧ blocks ≠ [] ∧ 1 ≤ size ≤ max_range + gap
  | Panic => False
  | _ => True
  end.

Lemma next_blocks_spec fuel ctx t : ctx_ok ctx → next_ok ctx (next_blocks world fuel ctx t).2.
Proof using All.
  intros Hok. revert t. induction fuel as [|fuel IH]; intros t; [done|]. cbn [next_blocks]. pose proof (get_next_step_spec ctx t Hok) as Hs.
  unfold mbind, st_bind. destruct (get_next_step world ctx t) as [t' [[p|blocks size| |]|e|]]; cbn in *; try done.
Qed.

(** ** Runs *)

Record stream_ok (s : PollingBlockStream) : Prop := {
  stream_ctx_ok : ctx_ok (stream_ctx s);
  stream_state_ok : match stream_state s with
    | Reconciliation ctx => ctx = stream_ctx s
    | YieldingBlocks blocks => queued (current_block (stream_ctx s)) blocks
    | _ => True
    end;
}.

Lemma ctx_set_current_ok ctx p : ctx_ok ctx → 0 ≤ ptr_number p → ctx_ok (set_current_block p ctx).
Proof. intros [] Hp. split; try done. by intros ? [= <-]. Qed.

Lemma blocks_found_ok blocks size s :
  ctx_ok (stream_ctx s) → queued (current_block (stream_ctx s)) blocks → 1 ≤ size ≤ max_range + gap → stream_ok (blocks_found blocks size s).
Proof using Hgap Hsmall Hmax.
  intros [] Hq Hsize. unfold blocks_found. split; [|by case_bool_decide]. case_bool_decide; split; try done. cbn.
  rewrite i32_id by (unfold I32_MIN, I32_MAX in *; lia). pose proof (Z.quot_pos (max_block_range_size (stream_ctx s) * 9) 10).
  pose proof (Z.quot_le_upper_bound (max_block_range_size (stream_ctx s) * 9) 10 max_range). lia.
Qed.

(** What one iteration does *)
Definition iteration_ok (s s' : PollingBlockStream) (r : outcome string (option Poll)) : Prop :=
  stream_ok s' ∧
  match r with
  | Ok (Some (Ready item)) => ∀ items last, follows (current_block (stream_ctx s')) items last →
      follows (current_block (stream_ctx s)) (item :: items) last
  | Ok _ => current_block (stream_ctx s') = current_block (stream_ctx s)
  | _ => False
  end.

Lemma poll_iteration_ok tick s t s' t' r :
  stream_ok s → poll_iteration world tick s t = (s', t', r) → iteration_ok s s' r.
Proof using All.
  intros [Hctx Hst]. unfold poll_iteration. destruct (stream_state s) as [|ctx|[|b blocks]|secs|] eqn:Es.
  - intros [= <- <- <-]. by split.
  - subst ctx. pose proof (next_blocks_spec (tick_rounds tick) (stream_ctx s) t Hctx) as Hn.
    destruct (next_blocks _ _ _ _) as [t1 [[[blocks size|p|]|]|e|]]; intros [= <- <- <-]; cbn in Hn; try done.
    + destruct Hn as (Hq & _ & Hsize). split; [by apply blocks_found_ok|]. unfold blocks_found. by case_bool_decide.
    + destruct Hn as (c & Hc & Hp & Hoff & Hnum). split; [by split; [apply ctx_set_current_ok|]|]. cbn. rewrite Hc. intros items last Hf. by constructor.
    + split; [|done]. split; [done|]. by rewrite Es.
    + split; [by split; [destruct Hctx; split|]|]. cbn. intros items last Hf. by constructor.
  - intros [= <- <- <-]. by split.
  - intros [= <- <- <-]. destruct Hst as (Hl & Hcomp & Hnum & Hq). split.
    + split; [|done]. by apply ctx_set_current_ok.
    + cbn. intros items last Hf. by constructor.
  - destruct (tick_delay_over tick); intros [= <- <- <-]; split; try done; split; try done. by rewrite Es.
  - destruct (tick_head_update tick) as [[[]|]|]; intros [= <- <- <-]; split; try (by split); (split; [done|by rewrite Es]) || idtac.
    cbn. intros items last Hf. by constructor.
Qed.

Lemma poll_run_ok ticks s t : stream_ok s →
  let '(s', _, r) := poll_run world ticks s t in
  ∃ items, r = Ok items ∧ stream_ok s' ∧ follows (current_block (stream_ctx s)) items (current_block (stream_ctx s')).
Proof using All.
  revert s t. induction ticks as [|tick ticks IH]; intros s t Hs; cbn [poll_run]; [exists []; split; [done|]; split; [done|constructor]|].
  destruct (poll_iteration world tick s t) as [[s1 t1] r1] eqn:E. destruct (poll_iteration_ok _ _ _ _ _ _ Hs E) as [Hs1 Hr].
  specialize (IH s1 t1 Hs1). destruct r1 as [r1|e|]; [|done|done].
  destruct (poll_run world ticks s1 t1) as [[s2 t2] r2]. destruct IH as (items & -> & Hs2 & Hf).
  destruct r1 as [[|item]|]; eexists; (split; [done|]; split; [done|]); [by rewrite <- Hr|auto|by rewrite <- Hr].
Qed.

(** What the stream tells a subgraph, however the chain changes and the stream
    is polled *)
Lemma poll_run_follows start_blocks max_size target start ticks t :
  (∀ n, n ∈ start_blocks → n ≤ BLOCK_NUMBER_MAX) → 1 ≤ max_size ≤ max_range → (∀ p, start = Some p → 0 ≤ ptr_number p) →
  let '(s, _, r) := poll_run world ticks (stream_new filter start_blocks threshold max_size target start) t in
  ∃ items, r = Ok items ∧ follows start items (current_block (stream_ctx s)).
Proof using All.
  intros Hsb Hms Hst. pose proof (poll_run_ok ticks (stream_new filter start_blocks threshold max_size target start) t) as Hr.
  destruct (poll_run _ _ _ _) as [[s t'] r]. destruct Hr as (items & -> & _ & Hf); [|eauto].
  split; [|done]. split; cbn; try done. lia.
Qed.

End Following.

(** ** Progress

    When the chain does not change and requests are answered, the stream gets
    to the head of the chain. *)

Section Progress.
Context {World : Type} `{ChainView World} (w : World) (filter : AdapterFilter) (threshold gap head_max max_range : BlockNumber).
Context `{!TriggersAdapterSpec (λ _, w) filter threshold gap head_max}.
Context (Hthreshold : 0 ≤ threshold) (Hgap : 0 ≤ gap) (Hmax : 10 ≤ max_range) (Hsmall : 10 * (max_range + gap) ≤ I32_MAX).
Context (Hhead : head_max + max_range ≤ I32_MAX).
Context (h : BlockPtr) (Hh : chain_head_ptr w = Ok (Some h)) (Hcan : canonical w (ptr_number h) = Some h).
Abbreviation final := (final_number threshold (ptr_number h)).
Abbreviation ok := (stream_ok (λ _, w) filter threshold gap max_range).

(** The node answers for blocks of the main chain, and the last final number
    has a block. *)
Context (Hmain : ∀ p, canonical w (ptr_number p) = Some p → ∃ on_main, is_on_main_chain p w = Ok on_main).
Context (Hscan : ∀ from to, 0 ≤ from ≤ to → to ≤ final → ∃ blocks to', scan_triggers filter from to w = Ok (blocks, to') ∧ to' ≤ final).

(** Near the head the block that follows one of the main chain is found. *)
Context (Hnear : ∀ c, canonical w (ptr_number c) = Some c → final ≤ ptr_number c < ptr_number h →
  ∃ b bt, ancestor_block h (ptr_number h - ptr_number c - 1) (Some (ptr_hash c)) w = Ok (Some b) ∧
    ab_parent_hash b = Some (ptr_hash c) ∧ block_triggers filter b w = Ok bt ∧
    canonical w (ptr_number (ab_ptr b)) = Some (ab_ptr b) ∧ ptr_number c < ptr_number (ab_ptr b) ≤ ptr_number h).

Definition tick : Tick := mkTick 1 true None.

Definition reaches (s s' : PollingBlockStream) : Prop :=
  ∀ t, ∃ n t' items, poll_run (λ _, w) (replicate n tick) s t = (s', t', Ok items).

Lemma reaches_refl s : reaches s s.
Proof. intros t. by exists 0%nat, t, []. Qed.

Lemma reaches_step s s1 s' :
  (∀ t, ∃ t' r, poll_iteration (λ _, w) tick s t = (s1, t', Ok r)) → reaches s1 s' → reaches s s'.
Proof.
  intros Hstep Hr t. destruct (Hstep t) as (t1 & r & E). destruct (Hr t1) as (n & t' & items & E'). exists (S n), t'. eexists.
  cbn [replicate poll_run]. rewrite E, E'. done.
Qed.

Lemma reaches_trans s1 s2 s3 : reaches s1 s2 → reaches s2 s3 → reaches s1 s3.
Proof.
  intros H12 H23 t. destruct (H12 t) as (n & t1 & items & E). clear H12. revert s1 t t1 items E.
  induction n as [|n IH]; intros s1 t t1 items; cbn [replicate poll_run].
  - intros [= <- <- <-]. apply H23.
  - destruct (poll_iteration _ tick s1 t) as [[s t'] [r|e|]] eqn:Ei; try done.
    destruct (poll_run _ (replicate n tick) s t') as [[s' t''] [its|e|]] eqn:Er; try done. intros [= -> -> _].
    destruct (IH s t' t1 its Er) as (m & t3 & items' & E'). exists (S m), t3. eexists. cbn [replicate poll_run]. rewrite Ei, E'. done.
Qed.

(** The pointers that the stream has on its way *)
Definition on_way (cur : option BlockPtr) : Prop :=
  first_after cur ≤ ptr_number h + 1 ∧ ∀ c, cur = Some c → canonical w (ptr_number c) = Some c.

Lemma drain blocks s :
  stream_state s = YieldingBlocks blocks →
  ∃ s', reaches s s' ∧ stream_state s' = BeginReconciliation ∧ consecutive_err_count s' = consecutive_err_count s ∧
    stream_ctx s' = match last blocks with Some b => set_current_block (bw_ptr b) (stream_ctx s) | None => stream_ctx s end.
Proof.
  revert s. induction blocks as [|b blocks IH]; intros s Hs.
  - exists (set_state BeginReconciliation s). split; [|done]. eapply reaches_step; [|apply reaches_refl].
    intros t. unfold poll_iteration. rewrite Hs. eauto.
  - destruct (IH (set_state (YieldingBlocks blocks) (set_ctx (set_current_block (bw_ptr b) (stream_ctx s)) s)) eq_refl)
      as (s' & Hr & Hst & Herr & Hctx). exists s'. split; [|split; [done|]; split; [done|]].
    + eapply reaches_step; [|exact Hr]. intros t. unfold poll_iteration. rewrite Hs. eauto.
    + rewrite Hctx. cbn [stream_ctx set_state set_ctx]. rewrite last_cons. by destruct (last blocks).
Qed.

Lemma sorted_last blocks from to b :
  scanned w from to blocks → b ∈ blocks → ptr_number (bw_ptr b) = to → ∃ l, last blocks = Some l ∧ ptr_number (bw_ptr l) = to.
Proof.
  intros [Hs Hc _] Hb Hn. destruct (last blocks) as [l|] eqn:E; [|apply last_None in E as ->; by apply elem_of_nil in Hb].
  exists l. split; [done|]. apply last_Some in E as [k ->]. destruct (Hc l) as [Hl _]; [set_solver|].
  apply elem_of_app in Hb as [Hb| ->%list_elem_of_singleton]; [|done].
  apply StronglySorted_app in Hs as (Hlt & _ & _). specialize (Hlt b l Hb ltac:(by left)). lia.
Qed.

(** The next step from a pointer of the main chain that is not the head *)
Definition forward (ctx : PollingBlockStreamContext) (r : outcome string ReconciliationStep) : Prop :=
  ∃ blocks size b, r = Ok (ProcessDescendantBlocks blocks size) ∧ last blocks = Some b ∧
    first_after (current_block ctx) ≤ ptr_number (bw_ptr b) ≤ ptr_number h ∧ canonical w (ptr_number (bw_ptr b)) = Some (bw_ptr b).

Lemma scan_forward ctx from t :
  ctx_ok filter threshold gap max_range ctx → first_after (current_block ctx) = from → 0 ≤ from ≤ final →
  forward ctx ((r ← ask (λ _, w) (scan_triggers (ctx_filter ctx) from (scan_to ctx from (ptr_number h) (Z.min threshold (ptr_number h))));
    let '(blocks, to) := r : list BlockTriggers * BlockNumber in
    let range_size := i32 (i32 (to - from) + 1) in
    if bool_decide (i32 (ptr_number h - Z.min threshold (ptr_number h)) < to) then mret Retry
    else mret (ProcessDescendantBlocks blocks range_size)) t).2.
Proof using All.
  intros Hok Hfrom Hf. destruct (head_known (filter := filter) 0%nat h Hh) as [Hk Hhm].
  destruct (scan_to_spec filter threshold gap head_max max_range Hthreshold Hgap Hmax Hsmall Hhead ctx from (ptr_number h) Hok) as ([Hto1 Hto2] & _ & _); [lia..|].
  rewrite ask_bind, (ok_filter _ _ _ _ _ Hok). set (to := scan_to _ _ _ _) in *. clearbody to.
  destruct (Hscan from to) as (blocks & to' & Hr & Hto'); [lia..|]. rewrite Hr.
  destruct (scan_spec (world := λ _, w) from to 0%nat blocks to') as (Hgt & Hs & b & Hb & Hnum); [lia|unfold final_number in *; lia|done|].
  destruct (sorted_last blocks from to' b Hs Hb Hnum) as (l & Hl & Hln).
  rewrite (i32_id (ptr_number h - _)) by (unfold I32_MIN, I32_MAX in *; lia).
  rewrite bool_decide_eq_false_2 by (unfold final_number in *; lia). exists blocks, (i32 (i32 (to' - from) + 1)), l.
  split; [done|]. split; [done|]. apply last_Some_elem_of in Hl. destruct (scanned_canonical _ _ _ _ Hs l Hl) as (? & ? & _).
  split; [unfold final_number in *; lia|done].
Qed.

Lemma next_step_forward ctx t :
  ctx_ok filter threshold gap max_range ctx → on_way (current_block ctx) → first_after (current_block ctx) ≤ ptr_number h →
  forward ctx (get_next_step (λ _, w) ctx t).2.
Proof using All.
  intros Hok [_ Hcur] Hlt. destruct (head_known (filter := filter) 0%nat h Hh) as [Hk Hhm].
  unfold get_next_step. rewrite ask_bind, Hh, (ok_threshold _ _ _ _ _ Hok). cbv zeta. unfold step_final.
  destruct (current_block ctx) as [c|] eqn:Ec.
  - cbn in Hlt. specialize (Hcur c eq_refl). pose proof (ok_current _ _ _ _ _ Hok c Ec). rewrite bool_decide_eq_false_2 by lia.
    rewrite (i32_id (ptr_number h - ptr_number c)) by (unfold I32_MIN, I32_MAX in *; lia). case_bool_decide as Hd.
    + rewrite ask_bind. destruct (Hmain c Hcur) as [on_main Hm]. rewrite Hm.
      assert (on_main = true) as -> by (apply (main_chain_spec (world := λ _, w) c 0%nat); [lia|done|done]).
      cbn [negb]. rewrite (i32_id (ptr_number c + 1)) by (unfold I32_MIN, I32_MAX in *; lia). apply scan_forward; [done|by rewrite Ec|unfold final_number; lia].
    + unfold step_nonfinal. rewrite !i32_id by (rewrite ?i32_id; unfold I32_MIN, I32_MAX in *; lia). cbv zeta. rewrite ask_bind.
      destruct (Hnear c Hcur) as (b & bt & Hb & Hp & Hbt & Hcb & Hnum); [unfold final_number; lia|]. rewrite Hb.
      rewrite bool_decide_eq_true_2 by done. rewrite ask_bind, (ok_filter _ _ _ _ _ Hok), Hbt.
      destruct (block_triggers_spec (world := λ _, w) _ _ _ 0%nat _ 0%nat _ Hb Hbt) as [Hptr _].
      exists [bt], 1, bt. split; [done|]. split; [done|]. rewrite Ec, Hptr. cbn. split; [lia|done].
  - apply (scan_forward ctx 0); [done|by rewrite Ec|unfold final_number; lia].
Qed.

(** Requests at different times have the same answers. *)
Definition timeless {A} (m : st nat string A) : Prop := ∀ t t', (m t).2 = (m t').2.

Lemma timeless_ask {A B} (f : World → outcome string A) (g : A → st nat string B) :
  (∀ a, timeless (g a)) → timeless (ask (λ _, w) f ≫= g).
Proof. intros Hg t t'. rewrite !ask_bind. destruct (f w); [apply Hg|done|done]. Qed.

Lemma timeless_parent c : timeless (parent ← parent_ptr (λ _, w) c; mret (StepRevert parent)).
Proof. intros t t'. unfold parent_ptr, ask, mbind, st_bind. by destruct (adapter_parent_ptr c w) as [[p|]|e|]. Qed.

Lemma get_next_step_time ctx t t' : (get_next_step (λ _, w) ctx t).2 = (get_next_step (λ _, w) ctx t').2.
Proof.
  revert t t'. apply timeless_ask. intros [head|]; [|done].
  assert (∀ thr cur, timeless (step_final (λ _, w) ctx head thr cur)) as Hfinal.
  { intros thr cur. unfold step_final. assert (∀ g : bool → st nat string ReconciliationStep, (∀ b, timeless (g b)) →
      timeless (match cur with Some ptr => ask (λ _, w) (is_on_main_chain ptr) | None => mret true end ≫= g)) as Hon.
    { intros g Hg. destruct cur; [by apply timeless_ask|]. intros t t'. apply Hg. }
    apply Hon. intros [|]; cbn [negb].
    - apply timeless_ask. intros [blocks to]. by case_bool_decide.
    - destruct cur; [apply timeless_parent|done]. }
  cbv zeta. destruct (current_block ctx) as [c|]; [|apply Hfinal]. case_bool_decide; [done|]. case_bool_decide; [apply Hfinal|].
  unfold step_nonfinal. apply timeless_ask. intros [b|]; [|done]. case_bool_decide; [by apply timeless_ask|apply timeless_parent].
Qed.

(** At the head of the chain the stream becomes idle. *)
Lemma at_head s : ok s → stream_state s = BeginReconciliation → on_way (current_block (stream_ctx s)) →
  ptr_number h < first_after (current_block (stream_ctx s)) →
  ∃ s', reaches s s' ∧ stream_state s' = Idle ∧ current_block (stream_ctx s') = Some h.
Proof using All.
  intros Hs Hst [Hle Hcur] Hgt. destruct (head_known (filter := filter) 0%nat h Hh) as [Hk _].
  destruct (current_block (stream_ctx s)) as [c|] eqn:Ec; [|cbn in Hgt; lia]. cbn in Hle, Hgt. specialize (Hcur c eq_refl).
  assert (c = h) as -> by (replace (ptr_number c) with (ptr_number h) in Hcur by lia; congruence).
  eexists. split; [|split; [|]].
  - eapply reaches_step; [|eapply reaches_step; [|apply reaches_refl]].
    + intros t. unfold poll_iteration. rewrite Hst. eauto.
    + intros t. unfold poll_iteration. cbn [stream_state set_state tick_rounds tick next_blocks]. unfold mbind at 1, st_bind at 1, get_next_step.
      rewrite ask_bind, Hh. cbv zeta. rewrite Ec, bool_decide_eq_true_2 by lia. cbn. eauto.
  - done.
  - done.
Qed.

(** A round of the stream *)
Lemma round s :
  ok s → stream_state s = BeginReconciliation → on_way (current_block (stream_ctx s)) →
  first_after (current_block (stream_ctx s)) ≤ ptr_number h →
  ∃ s' b, reaches s s' ∧ ok s' ∧ stream_state s' = BeginReconciliation ∧ current_block (stream_ctx s') = Some b ∧
    first_after (current_block (stream_ctx s)) ≤ ptr_number b ≤ ptr_number h ∧ canonical w (ptr_number b) = Some b.
Proof using All.
  intros Hs Hst Hway Hlt. pose proof (stream_ctx_ok _ _ _ _ _ _ Hs) as Hctx.
  set (s1 := set_state (Reconciliation (stream_ctx s)) s).
  assert (ok s1) as Hs1 by (by split).
  assert (∀ t, forward (stream_ctx s) (get_next_step (λ _, w) (stream_ctx s) t).2) as Hfw by (intros; by apply next_step_forward).
  assert (∃ blocks size b, (∀ t, (get_next_step (λ _, w) (stream_ctx s) t).2 = Ok (ProcessDescendantBlocks blocks size)) ∧ last blocks = Some b ∧
    first_after (current_block (stream_ctx s)) ≤ ptr_number (bw_ptr b) ≤ ptr_number h ∧ canonical w (ptr_number (bw_ptr b)) = Some (bw_ptr b))
    as (blocks & size & b & Hstep & Hlast & Hnum & Hcb).
  { destruct (Hfw 0%nat) as (blocks & size & b & Hr & Hrest). exists blocks, size, b. split; [|done]. intros t.
    rewrite <- Hr. apply get_next_step_time. }
  assert (∀ t, ∃ t' r, poll_iteration (λ _, w) tick s1 t = (blocks_found blocks size s1, t', Ok r)) as Hpoll.
  { intros t. unfold poll_iteration, s1. cbn [stream_state set_state tick_rounds tick next_blocks]. unfold mbind, st_bind.
    specialize (Hstep t). destruct (get_next_step _ _ t) as [t' r]. cbn in Hstep. rewrite Hstep. eauto. }
  assert (ok (blocks_found blocks size s1)) as Hs2.
  { destruct (Hpoll 0%nat) as (t' & r & E). by apply (poll_iteration_ok (λ _, w) filter threshold gap head_max max_range) in E as [? _]. }
  destruct (drain blocks (blocks_found blocks size s1)) as (s' & Hr & Hst' & _ & Hctx'); [unfold blocks_found; by case_bool_decide|].
  rewrite Hlast in Hctx'. exists s', (bw_ptr b). split; [|split; [|split; [done|split; [by rewrite Hctx'|done]]]].
  - eapply reaches_step; [|eapply reaches_step; [exact Hpoll|exact Hr]]. intros t. unfold poll_iteration. rewrite Hst. eauto.
  - split; [|by rewrite Hst']. rewrite Hctx'. apply ctx_set_current_ok; [apply Hs2|].
    destruct (current_block (stream_ctx s)) as [c|] eqn:Ec; cbn in Hnum; [|lia]. pose proof (ok_current _ _ _ _ _ Hctx c Ec). lia.
Qed.

(** C34: When the chain stays as it is and requests are answered, a stream that
    starts on the main chain gets to the head of the chain, where it waits for
    updates. *)
Theorem stream_reaches_head start_blocks max_size target start :
  (∀ n, n ∈ start_blocks → n ≤ BLOCK_NUMBER_MAX) → 1 ≤ max_size ≤ max_range → (∀ p, start = Some p → 0 ≤ ptr_number p) → on_way start →
  ∃ s, reaches (stream_new filter start_blocks threshold max_size target start) s ∧ stream_state s = Idle ∧ current_block (stream_ctx s) = Some h.
Proof using All.
  intros Hsb Hms Hst Hway.
  assert (ok (stream_new filter start_blocks threshold max_size target start)) as Hok by (by split; [split; cbn; try done; lia|]).
  revert Hok. change start with (current_block (stream_ctx (stream_new filter start_blocks threshold max_size target start))) in Hway. revert Hway.
  assert (stream_state (stream_new filter start_blocks threshold max_size target start) = BeginReconciliation) as Hb by done. revert Hb.
  generalize (stream_new filter start_blocks threshold max_size target start) as s. clear Hsb Hms Hst.
  intros s. remember (Z.to_nat (ptr_number h + 1 - first_after (current_block (stream_ctx s)))) as n eqn:Hn. revert s Hn.
  induction n as [n IH] using lt_wf_ind. intros s -> Hb Hway Hok. destruct (decide (first_after (current_block (stream_ctx s)) ≤ ptr_number h)) as [Hlt|Hge].
  - destruct (round s Hok Hb Hway Hlt) as (s1 & b & Hr & Hs1 & Hb1 & Hc1 & Hnum & Hcb). 
    destruct (IH (Z.to_nat (ptr_number h + 1 - first_after (current_block (stream_ctx s1))))) with (s := s1) as (s' & Hr' & Hs').
    + rewrite Hc1. cbn [first_after]. lia.
    + done.
    + done.
    + rewrite Hc1. split; [cbn; lia|]. by intros ? [= <-].
    + done.
    + exists s'. split; [by eapply reaches_trans|done].
  - apply at_head; [done..|lia].
Qed.

End Progress.
