(* ===== verification/EthAdapter.v ===== *)
(** * The Ethereum adapter of the block stream

    [TriggersAdapter] of chain/ethereum/src/chain.rs for a client that asks a
    node by JSON-RPC, as an instance of the class that the block stream uses,
    with what it promises: the requests of one call see one state of the
    chain. *)

From Stdlib Require Import ZArith Lia ZifyBool.
From stdpp Require Import base gmap list strings sorting.
From S2P Require Import Prelude Values Write DataSource EthData EthFilter EthTriggers EthFilterFacts EthCallFacts EthOrder EthComplete EthScan.
From S2P Require Import BlockStream StreamFacts.

Local Open Scope Z_scope.

(** ** Requests *)

Inductive CachedBlock :=
| CachedFull (block : EthereumBlock)
| CachedLight (block : LightEthereumBlock).

Definition into_full_block (self : CachedBlock) : option EthereumBlock :=
  match self with CachedFull block => Some block | CachedLight _ => None end.

(** The head of the chain and the ancestors of blocks in the chain store; the
    receipts of whole blocks, which not all nodes support *)
Class EthereumStore := {
  store_head : outcome string (option BlockPtr);
  store_ancestor : BlockPtr → BlockNumber → option B256 → outcome string (option (CachedBlock * BlockPtr));
  supports_block_receipts : bool;
  get_block_receipts : B256 → outcome string (option (list Receipt));
}.

(** [walk_back_ancestor], for the steps that are left *)
Fixpoint walk_back (parent_getter : BlockPtr → outcome string (option BlockPtr)) (steps : nat) (root : option B256) (current_ptr : BlockPtr)
    : outcome string (option BlockPtr) :=
  match steps with
  | O => Ok (Some current_ptr)
  | S steps =>
      parent ← parent_getter current_ptr;
      match parent with
      | Some parent => if bool_decide (root = Some (ptr_hash parent)) then Ok (Some current_ptr) else walk_back parent_getter steps root parent
      | None => Ok None
      end
  end.

Definition walk_back_ancestor (parent_getter : BlockPtr → outcome string (option BlockPtr)) (start_ptr : BlockPtr) (offset : BlockNumber)
    (root : option B256) : outcome string (option BlockPtr) :=
  walk_back parent_getter (Z.to_nat offset) root start_ptr.

Section Requests.
Context `{EthereumNode} `{EthereumStore}.

Definition rpc_is_on_main_chain (fuel : nat) (block_ptr : BlockPtr) : outcome string bool :=
  canonical_block ← next_existing_ptr_to_number fuel (ptr_number block_ptr);
  Ok (bool_decide (canonical_block = block_ptr)).

Definition fetch_light_block_with_rpc (block_ptr : BlockPtr) : outcome string (option LightEthereumBlock) :=
  blocks ← load_blocks {[ptr_hash block_ptr]};
  Ok (hd_error blocks).

Definition rpc_parent_ptr (block : BlockPtr) : outcome string (option BlockPtr) :=
  light ← fetch_light_block_with_rpc block;
  light ← unwrap light;
  Ok (light_parent_ptr light).

Definition fetch_block_receipts (hashes : list B256) (block_hash : B256) : outcome string (list Receipt) :=
  receipts ← get_block_receipts block_hash;
  match receipts with
  | None => Err "Block receipts unavailable"
  | Some receipts =>
      let set : gset B256 := list_to_set (receipt_transaction_hash <$> receipts) in
      if bool_decide (length hashes = size set) && forallb (λ hash, bool_decide (hash ∈ set)) hashes then Ok receipts
      else Err "Block receipts mismatched"
  end.

Definition fetch_individual_receipts (hashes : list B256) (block_hash : B256) : outcome string (list Receipt) :=
  collect_ok (λ hash, fetch_receipt hash block_hash) hashes.

Definition fetch_receipts (hashes : list B256) (block_hash : B256) : outcome string (list Receipt) :=
  if supports_block_receipts then fetch_block_receipts hashes block_hash else fetch_individual_receipts hashes block_hash.

Definition load_full_block (block : LightEthereumBlock) : outcome string EthereumBlock :=
  match transactions block with
  | [] => Ok (mkEthereumBlock block [])
  | txs =>
      receipts ← fetch_receipts (tx_hash <$> txs) (header_hash block);
      Ok (mkEthereumBlock block receipts)
  end.

Definition fetch_full_block_with_rpc (block_ptr : BlockPtr) : outcome string (option EthereumBlock) :=
  light_block ← fetch_light_block_with_rpc block_ptr;
  match light_block with
  | Some light_block => ethereum_block ← load_full_block light_block; Ok (Some ethereum_block)
  | None => Ok None
  end.

(** The data of the ancestor that was found *)
Definition fetch_ancestor (block_ptr : BlockPtr) : outcome string (option BlockFinality) :=
  block ← fetch_full_block_with_rpc block_ptr;
  match block with
  | Some ethereum_block => Ok (Some (NonFinal (mkBlockWithCalls ethereum_block None)))
  | None => Ok None
  end.

Definition rpc_ancestor_block (ptr : BlockPtr) (offset : BlockNumber) (root : option B256) : outcome string (option BlockFinality) :=
  cached ← store_ancestor ptr offset root;
  match cached with
  | Some (cached_block, block_ptr) =>
      match into_full_block cached_block with
      | Some block => Ok (Some (NonFinal (mkBlockWithCalls block None)))
      | None => fetch_ancestor block_ptr
      end
  | None =>
      block_ptr ← walk_back_ancestor rpc_parent_ptr ptr offset root;
      match block_ptr with Some block_ptr => fetch_ancestor block_ptr | None => Ok None end
  end.

End Requests.

(** ** The instance *)

Record EthWorld := mkWorld { world_node : EthereumNode; world_store : EthereumStore }.

Section Adapter.
Context `{GraphMap LogFilterNode} `{EthereumSettings} (fuel : nat) (receipts_supported : bool).

#[export] Instance eth_adapter : TriggersAdapter EthWorld := {|
  AdapterFilter := TriggerFilter;
  AdapterBlock := BlockFinality;
  ab_ptr := finality_ptr;
  ab_parent_hash b := ptr_hash <$> finality_parent_ptr b;
  BlockTriggers := BlockWithTriggers;
  bw_block := bt_block;
  trigger_count b := length (trigger_data b);
  chain_head_ptr w := @store_head (world_store w);
  is_on_main_chain p w := @rpc_is_on_main_chain (world_node w) fuel p;
  adapter_parent_ptr p w := @rpc_parent_ptr (world_node w) p;
  ancestor_block h n r w := @rpc_ancestor_block (world_node w) (world_store w) h n r;
  scan_triggers filter from to w := @blocks_with_triggers _ (world_node w) _ fuel from to filter receipts_supported;
  block_triggers filter b w := @triggers_in_block _ (world_node w) _ fuel b filter receipts_supported;
|}.

End Adapter.
