(* ===== verification/EthStream.v ===== *)
(** * The block stream of an Ethereum chain

    Nodes and chain stores that answer for an evolving chain make the Ethereum
    adapter keep the promises that the block stream relies on. *)

From Stdlib Require Import ZArith Lia ZifyBool.
From stdpp Require Import base gmap list sets strings sorting.
From S2P Require Import Prelude Values Write DataSource EthData EthFilter EthTriggers EthFilterFacts EthCallFacts EthOrder EthComplete EthScan.
From S2P Require Import Float64 BlockStream StreamFacts EthAdapter.

Local Open Scope Z_scope.

Lemma unique_by_key {A K} (key : A → K) (l k : list A) :
  NoDup (key <$> l) → key <$> k = key <$> l → (∀ x, x ∈ k → x ∈ l) → k = l.
Proof.
  intros Hnd Heq Hin. apply list_eq. intros i. destruct (k !! i) as [x|] eqn:Hk.
  - assert ((key <$> l) !! i = Some (key x)) as Hl by (rewrite <- Heq, list_lookup_fmap, Hk; done).
    rewrite list_lookup_fmap in Hl. destruct (l !! i) as [y|] eqn:Hy; [|done]. cbn in Hl. injection Hl as Hl.
    destruct (proj1 (list_elem_of_lookup l x)) as [j Hj]; [apply Hin; by eapply list_elem_of_lookup_2|].
    enough (i = j) as ->; [congruence|]. eapply NoDup_lookup; [exact Hnd|rewrite list_lookup_fmap, Hy; reflexivity|].
    rewrite list_lookup_fmap, Hj. cbn. by rewrite Hl.
  - symmetry. apply lookup_ge_None. apply lookup_ge_None in Hk. apply (f_equal length) in Heq. rewrite !length_fmap in Heq. lia.
Qed.

Lemma least_some {A} (f : Z → option A) d n m : n ≤ m ≤ n + Z.of_nat d → is_Some (f m) →
  ∃ k, n ≤ k ≤ m ∧ is_Some (f k) ∧ ∀ i, n ≤ i < k → f i = None.
Proof.
  revert n. induction d as [|d IH]; intros n Hm Hs.
  - replace m with n in * by lia. exists n. split; [lia|]. split; [done|]. intros; lia.
  - destruct (f n) as [x|] eqn:E; [exists n; rewrite E; split; [lia|]; split; [by eexists|intros; lia]|].
    destruct (decide (m = n)) as [->|Hne]; [rewrite E in Hs; by destruct Hs|].
    destruct (IH (n + 1)) as (k & Hk & Hks & Hkn); [lia|done|]. exists k. split; [lia|]. split; [done|].
    intros i Hi. destruct (decide (i = n)) as [->|]; [done|]. apply Hkn. lia.
Qed.

Lemma sorted_unique {A} (key : A → Z) l x y : StronglySorted (λ a b, key a < key b) l → x ∈ l → y ∈ l → key x = key y → x = y.
Proof.
  induction 1 as [|a l _ IH Ha]; [by intros ?%elem_of_nil|]. rewrite Forall_forall in Ha.
  intros [->|Hx]%elem_of_cons [->|Hy]%elem_of_cons Hk; [done| | |by apply IH].
  - specialize (Ha y Hy). lia.
  - specialize (Ha x Hx). lia.
Qed.

Lemma collect_ok_no_panic {E A B} (f : A → outcome E B) l : (∀ x, x ∈ l → f x ≠ Panic) → collect_ok f l ≠ Panic.
Proof.
  induction l as [|x l IH]; intros Hf; [done|]. cbn. pose proof (Hf x ltac:(by left)). destruct (f x); try done. cbn.
  pose proof (IH ltac:(intros; apply Hf; by right)). by destruct (collect_ok f l).
Qed.

Section Ethereum.
Context `{GraphMapSpec LogFilterNode} `{EthereumSettings} `{Keccak} `{AbiCodec} `{DeclaredCalls}.
Context (from_log_trigger : list MappingABI → CallDecls → Log → list (string * SolValue) → outcome string (list DeclaredCall)).
Context (fuel : nat) (receipts_supported : bool) (dss : list EthDataSource).

(** The blocks of the network by their hash, those that are not on a chain any
    more included; the blocks of the chain and the last number of a node *)
Context (world : nat → EthWorld) (blocks : B256 → option FullBlock).
Context (chain_of : EthWorld → BlockNumber → option FullBlock) (known_of : EthWorld → BlockNumber).
Context (threshold gap head_max : BlockNumber).

Abbreviation flt := (trigger_filter_from_data_sources dss).
Abbreviation node t := (world_node (world t)).
Abbreviation store t := (world_store (world t)).

(** [c] is a proper ancestor of a block. *)
Inductive descends (c : B256) : FullBlock → Prop :=
| descends_child b : header_parent_hash (fb_light b) = c → descends c b
| descends_step b b' : blocks (header_parent_hash (fb_light b)) = Some b' → descends c b' → descends c b.

Definition block_of (p : BlockPtr) (b : FullBlock) : Prop := blocks (ptr_hash p) = Some b ∧ header_number (fb_light b) = ptr_number p.

(** The head of the chain descends from [c]. *)
Definition is_ancestor (c h : BlockPtr) : Prop :=
  ∃ b bc, block_of h b ∧ block_of c bc ∧ descends (ptr_hash c) b.

Definition has_triggers (b : FullBlock) : Prop :=
  ∃ ds tr, ds ∈ dss ∧ trigger_of (fb_with_calls b) (fb_calls b) tr ∧ handles from_log_trigger ds tr (fb_light b).

Definition all_triggers (b : FullBlock) (trs : list EthereumTrigger) : Prop :=
  ∀ ds tr, ds ∈ dss → trigger_of (fb_with_calls b) (fb_calls b) tr → handles from_log_trigger ds tr (fb_light b) →
  ∃ tr', tr' ∈ trs ∧ same_trigger tr tr' ∧ trigger_log tr = trigger_log tr'.

Abbreviation adapter := (eth_adapter fuel receipts_supported).

#[export] Instance eth_view : @ChainView EthWorld adapter :=
  Build_ChainView EthWorld adapter
    (λ w n, fb_ptr <$> chain_of w n)
    known_of
    (λ p, ∃ b, block_of p b ∧ has_triggers b)
    (λ bt : BlockWithTriggers, ∀ b, block_of (bt_ptr bt) b → all_triggers b (trigger_data bt))
    (λ p c, ∃ b, blocks (ptr_hash c) = Some b ∧ light_parent_ptr (fb_light b) = Some p)
    is_ancestor.

(** Blocks are linked, and what nodes and stores say of a block is true of the
    block with its hash. *)
Record network_ok : Prop := {
  blocks_ok : ∀ hash b, blocks hash = Some b → header_hash (fb_light b) = hash ∧ 0 ≤ header_number (fb_light b) ∧
    fb_ok (header_number (fb_light b)) b;
  blocks_parent : ∀ hash b b', blocks hash = Some b → blocks (header_parent_hash (fb_light b)) = Some b' →
    header_number (fb_light b') < header_number (fb_light b);
  blocks_receipts : ∀ hash b, blocks hash = Some b →
    receipt_transaction_hash <$> transaction_receipts (fb_block b) = tx_hash <$> transactions (fb_light b);
  node_by_hash : ∀ t hash r, @get_block_by_hash (node t) hash = r →
    match r with Ok (Some light) => ∃ b, blocks hash = Some b ∧ light = fb_light b | Panic => False | _ => True end;
  node_cache : ∀ t hashes l, @cached_blocks (node t) hashes = Ok l →
    ∀ light, light ∈ l → header_hash light ∈ hashes ∧ ∃ b, blocks (header_hash light) = Some b ∧ light = fb_light b;
  node_block_traces : ∀ t n r, @trace_filter (node t) n n [] = r →
    match r with
    | Ok ts => ∀ tr b, hd_error ts = Some tr → trace_block_hash tr = Some (header_hash (fb_light b)) → blocks (header_hash (fb_light b)) = Some b →
        ts = fb_traces b
    | Err _ => True
    | Panic => False
    end;
  node_fetched : ∀ t tx hash r, @fetch_receipt (node t) tx hash = r →
    match r with
    | Ok receipt => ∀ b, blocks hash = Some b → receipt ∈ transaction_receipts (fb_block b) ∧ receipt_transaction_hash receipt = tx
    | Err _ => True
    | Panic => False
    end;
  node_block_receipts : ∀ t hash r, @get_block_receipts (store t) hash = r →
    match r with Ok (Some l) => ∀ b, blocks hash = Some b → l = transaction_receipts (fb_block b) | Panic => False | _ => True end;
  store_ancestors : ∀ t h n root r, @store_ancestor (store t) h n root = r →
    match r with
    | Ok (Some (cached, p)) => ∃ b, blocks (ptr_hash p) = Some b ∧
        (∀ eb, into_full_block cached = Some eb → eb = fb_block b) ∧
        ∀ c, root = Some (ptr_hash c) → n = ptr_number h - ptr_number c - 1 → is_ancestor c h →
          header_parent_hash (fb_light b) = ptr_hash c
    | Panic => False
    | _ => True
    end;
}.

(** The chain at each time; its final part does not change. *)
Record chains_ok : Prop := {
  chain_node : ∀ t, @NodeSpec (chain_of (world t)) (known_of (world t)) (node t);
  chain_linked : ∀ t, chain_ok (chain_of (world t));
  chain_blocks : ∀ t n b, chain_of (world t) n = Some b → blocks (header_hash (fb_light b)) = Some b;
  chain_known : ∀ t t', (t ≤ t')%nat → known_of (world t) ≤ known_of (world t');
  chain_gap : ∀ t n, 0 ≤ n ≤ known_of (world t) → ∃ m, n ≤ m ≤ n + gap ∧ m ≤ known_of (world t) ∧ is_Some (chain_of (world t) m);
  chain_head : ∀ t r, @store_head (store t) = r →
    match r with Ok (Some h) => 0 ≤ ptr_number h ≤ known_of (world t) ∧ ptr_number h ≤ head_max | Panic => False | _ => True end;
  chain_final : ∀ t t' h n, (t ≤ t')%nat → @store_head (store t) = Ok (Some h) → 0 ≤ n ≤ final_number threshold (ptr_number h) →
    chain_of (world t') n = chain_of (world t) n;
}.

Context (Hnet : network_ok).

(** ** Blocks by hash *)

Lemma load_block_by_hash t hash r : @load_blocks (node t) {[hash]} = r →
  match r with
  | Ok l => l ≠ [] ∧ ∀ light, light ∈ l → ∃ b, blocks hash = Some b ∧ light = fb_light b
  | Err _ => True
  | Panic => False
  end.
Proof using Hnet.
  intros <-. unfold load_blocks. rewrite elements_singleton.
  set (cached := match @cached_blocks (node t) [hash] with Ok l => l | _ => [] end).
  assert (∀ light, light ∈ cached → header_hash light = hash ∧ ∃ b, blocks hash = Some b ∧ light = fb_light b) as Hc.
  { unfold cached. destruct (@cached_blocks (node t) [hash]) as [l|?|] eqn:E; [|by intros ? ?%elem_of_nil..].
    intros light Hl. destruct (node_cache Hnet t [hash] l E light Hl) as [Hh%list_elem_of_singleton (b & Hb & ->)]. rewrite Hh in Hb. eauto. }
  clearbody cached.
  assert (∀ new, (cached ++ new ≠ []) → (∀ light, light ∈ new → ∃ b, blocks hash = Some b ∧ light = fb_light b) →
    match sort (λ a b, Ok (header_number a ?= header_number b)) (cached ++ new) with
    | Ok l => l ≠ [] ∧ ∀ light, light ∈ l → ∃ b, blocks hash = Some b ∧ light = fb_light b
    | Err _ => True
    | Panic => False
    end) as Hsort.
  { intros new Hne Hnew. destruct (sort_by_number header_number (cached ++ new)) as (r & -> & Hp & _). split.
    - intros ->. by apply Permutation_nil_l in Hp.
    - intros light Hl. rewrite Hp in Hl. apply elem_of_app in Hl as [Hl|Hl]; [by apply Hc|by apply Hnew]. }
  rewrite filter_cons, filter_nil. case_decide as Hd.
  - cbn. unfold load_block_rpc at 1. pose proof (node_by_hash Hnet t hash _ eq_refl) as Hn.
    destruct (@get_block_by_hash (node t) hash) as [[light|]|e|]; cbn; try done. apply Hsort; [by destruct cached|].
    by intros ? ->%list_elem_of_singleton.
  - cbn. apply Hsort; [|by intros ? ?%elem_of_nil]. rewrite app_nil_r. intros ->. by apply elem_of_nil in Hd.
Qed.

Lemma fetch_light_spec t p r : @fetch_light_block_with_rpc (node t) p = r →
  match r with Ok light => ∃ b, blocks (ptr_hash p) = Some b ∧ light = Some (fb_light b) | Err _ => True | Panic => False end.
Proof using Hnet.
  intros <-. unfold fetch_light_block_with_rpc. pose proof (load_block_by_hash t (ptr_hash p) _ eq_refl) as Hl.
  destruct (@load_blocks (node t) _) as [l|e|]; cbn; try done. destruct Hl as [Hne Hl]. destruct l as [|light l]; [done|].
  destruct (Hl light ltac:(by left)) as (b & Hb & ->). eauto.
Qed.

Lemma parent_ptr_rpc t p r : @rpc_parent_ptr (node t) p = r →
  match r with Ok r => ∃ b, blocks (ptr_hash p) = Some b ∧ r = light_parent_ptr (fb_light b) | Err _ => True | Panic => False end.
Proof using Hnet.
  intros <-. unfold rpc_parent_ptr. pose proof (fetch_light_spec t p _ eq_refl) as Hl.
  destruct (@fetch_light_block_with_rpc (node t) p) as [light|e|]; cbn; try done. destruct Hl as (b & Hb & ->). cbn. eauto.
Qed.

(** ** Full blocks *)

Lemma individual_receipts t b r : blocks (header_hash (fb_light b)) = Some b →
  @fetch_individual_receipts (node t) (tx_hash <$> transactions (fb_light b)) (header_hash (fb_light b)) = r →
  match r with Ok l => l = transaction_receipts (fb_block b) | Err _ => True | Panic => False end.
Proof using Hnet.
  intros Hb <-. unfold fetch_individual_receipts.
  pose proof (λ tx, node_fetched Hnet t tx (header_hash (fb_light b)) _ eq_refl) as Hf.
  destruct (collect_ok _ _) as [l|e|] eqn:E; [|done|].
  - apply collect_ok_inv in E. destruct (blocks_ok Hnet _ _ Hb) as (_ & _ & Hok).
    apply (unique_by_key receipt_transaction_hash); [apply (fb_receipts_unique _ _ Hok)| |].
    + rewrite (blocks_receipts Hnet _ _ Hb). apply Forall2_fmap_eq. eapply Forall2_impl_elem; [exact E|]. intros tx receipt _ Hr. cbn in Hr.
      specialize (Hf tx). rewrite Hr in Hf. by destruct (Hf b Hb).
    + intros receipt Hin. destruct (proj1 (Forall2_ok_elem _ _ _ E receipt) Hin) as (tx & _ & Hr). specialize (Hf tx). cbn in Hr. rewrite Hr in Hf. by destruct (Hf b Hb).
  - apply (collect_ok_no_panic _ _) in E; [done|]. intros tx _ Hp. specialize (Hf tx). by rewrite Hp in Hf.
Qed.

Lemma load_full_spec t b r : blocks (header_hash (fb_light b)) = Some b →
  @load_full_block (node t) (store t) (fb_light b) = r →
  match r with Ok eb => eb = fb_block b | Err _ => True | Panic => False end.
Proof using Hnet.
  intros Hb <-. unfold load_full_block. pose proof (blocks_receipts Hnet _ _ Hb) as Hrec.
  assert (∀ l, l = transaction_receipts (fb_block b) → mkEthereumBlock (fb_light b) l = fb_block b) as Heta
    by (intros l ->; unfold fb_light; by destruct (fb_block b)).
  destruct (transactions (fb_light b)) as [|tx txs] eqn:E; [apply Heta; by destruct (transaction_receipts (fb_block b))|].
  rewrite <- E. clear tx txs E Hrec. unfold fetch_receipts. destruct (@supports_block_receipts (store t)).
  - unfold fetch_block_receipts. pose proof (node_block_receipts Hnet t (header_hash (fb_light b)) _ eq_refl) as Hn.
    destruct (@get_block_receipts (store t) _) as [[l|]|e|]; cbn; try done.
    destruct (bool_decide _ && _); cbn; [|done]. by apply Heta, Hn.
  - pose proof (individual_receipts t b _ Hb eq_refl) as Hl. destruct (@fetch_individual_receipts (node t) _ _); cbn; try done. by apply Heta.
Qed.

Lemma fetch_ancestor_spec t p r : @fetch_ancestor (node t) (store t) p = r →
  match r with
  | Ok o => ∃ b, blocks (ptr_hash p) = Some b ∧ o = Some (NonFinal (mkBlockWithCalls (fb_block b) None))
  | Err _ => True
  | Panic => False
  end.
Proof using Hnet.
  intros <-. unfold fetch_ancestor, fetch_full_block_with_rpc. pose proof (fetch_light_spec t p _ eq_refl) as Hl.
  destruct (@fetch_light_block_with_rpc (node t) p) as [light|e|]; cbn [mbind outcome_bind]; try done.
  destruct Hl as (b & Hb & ->). destruct (blocks_ok Hnet _ _ Hb) as (Hh & _). pose proof (load_full_spec t b _ ltac:(by rewrite Hh) eq_refl) as Hf.
  destruct (@load_full_block _ _ _) as [eb|e|]; cbn; try done. subst eb. eauto.
Qed.

(** ** Ancestors *)

Lemma descends_number c bc b : blocks c = Some bc → is_Some (blocks (header_hash (fb_light b))) → descends c b →
  blocks (header_hash (fb_light b)) = Some b → header_number (fb_light bc) < header_number (fb_light b).
Proof using Hnet.
  intros Hc _ Hd. induction Hd as [b Hp|b b' Hp Hd IH]; intros Hb.
  - subst c. by apply (blocks_parent Hnet _ _ _ Hb).
  - pose proof (blocks_parent Hnet _ _ _ Hb Hp). destruct (blocks_ok Hnet _ _ Hp) as [Hh _]. rewrite Hh in IH. specialize (IH Hp). lia.
Qed.

Lemma walk_back_spec t root steps p : @walk_back (@rpc_parent_ptr (node t)) steps root p ≠ Panic ∧
  ∀ c bc b q, root = Some c → blocks c = Some bc → blocks (ptr_hash p) = Some b → descends c b →
    header_number (fb_light b) - header_number (fb_light bc) - 1 ≤ Z.of_nat steps →
    @walk_back (@rpc_parent_ptr (node t)) steps root p = Ok (Some q) →
    ∃ b', blocks (ptr_hash q) = Some b' ∧ header_parent_hash (fb_light b') = c.
Proof using Hnet.
  revert p. induction steps as [|steps IH]; intros p; cbn [walk_back].
  - split; [done|]. intros c bc b q -> Hc Hb Hd Hn [= <-]. exists b. split; [done|]. destruct Hd as [b Hp|b b' Hp Hd]; [done|].
    destruct (blocks_ok Hnet _ _ Hp) as [Hh _]. rewrite <- Hh in Hp.
    pose proof (descends_number c bc b' Hc ltac:(by eexists) Hd Hp). rewrite Hh in Hp. pose proof (blocks_parent Hnet _ _ _ Hb Hp). lia.
  - pose proof (parent_ptr_rpc t p _ eq_refl) as Hpar. destruct (@rpc_parent_ptr (node t) p) as [parent|e|]; cbn [mbind outcome_bind]; [|done..].
    destruct Hpar as (b0 & Hb0 & ->). unfold light_parent_ptr. destruct (header_number (fb_light b0) =? 0) eqn:E0; [done|].
    cbn. case_bool_decide as Er.
    + split; [done|]. intros c bc b q -> Hc Hb Hd Hn [= <-]. injection Er as ->. eauto.
    + destruct (IH (mkBlockPtr (header_number (fb_light b0) - 1) (header_parent_hash (fb_light b0)))) as [Hnp IH']. split; [done|].
      intros c bc b q -> Hc Hb Hd Hn Hw. replace b0 with b in * by congruence. destruct Hd as [b Hp|b b' Hp Hd]; [congruence|].
      eapply IH'; [done|done|exact Hp|done| |done]. pose proof (blocks_parent Hnet _ _ _ Hb Hp). lia.
Qed.

Lemma ancestor_block_spec t h n root r : @rpc_ancestor_block (node t) (store t) h n root = r →
  match r with
  | Ok (Some x) => ∃ b, blocks (header_hash (fb_light b)) = Some b ∧ x = NonFinal (mkBlockWithCalls (fb_block b) None) ∧
      ∀ c, root = Some (ptr_hash c) → n = ptr_number h - ptr_number c - 1 → is_ancestor c h → header_parent_hash (fb_light b) = ptr_hash c
  | Panic => False
  | _ => True
  end.
Proof using Hnet.
  intros <-. unfold rpc_ancestor_block. pose proof (store_ancestors Hnet t h n root _ eq_refl) as Hst.
  destruct (@store_ancestor (store t) h n root) as [[[cached p]|]|e|]; cbn [mbind outcome_bind]; try done.
  - destruct Hst as (b & Hb & Hfull & Hanc). destruct (blocks_ok Hnet _ _ Hb) as (Hh & _). destruct (into_full_block cached) as [eb|] eqn:Ec.
    + rewrite (Hfull eb eq_refl). exists b. by rewrite Hh.
    + pose proof (fetch_ancestor_spec t p _ eq_refl) as Hf. destruct (@fetch_ancestor _ _ p) as [o|e|]; try done.
      destruct Hf as (b' & Hb' & ->). replace b' with b by congruence. exists b. by rewrite Hh.
  - unfold walk_back_ancestor. destruct (walk_back_spec t root (Z.to_nat n) h) as [Hnp Hw]. destruct (walk_back _ _ _ _) as [[q|]|e|]; cbn [mbind outcome_bind]; try done.
    pose proof (fetch_ancestor_spec t q _ eq_refl) as Hf. destruct (@fetch_ancestor _ _ q) as [o|e|]; try done.
    destruct Hf as (b & Hb & ->). destruct (blocks_ok Hnet _ _ Hb) as (Hh & _). exists b. rewrite Hh. split; [done|]. split; [done|].
    intros c Hroot -> (bh & bc & [Hbh Hnh] & [Hbc Hnc] & Hd).
    destruct (Hw (ptr_hash c) bc bh q Hroot Hbc Hbh Hd) as (b' & Hb' & Hp); [rewrite Hnh, Hnc; lia|done|]. congruence.
Qed.

Context (Hchains : chains_ok) (Hsources : ∀ ds, ds ∈ dss → source_ok ds) (Hfuel : (Z.to_nat gap ≤ fuel)%nat).
Context (settings_ok : 0 < max_event_only_range ∧ (0 < get_logs_max_contracts)%nat ∧ 1 ≤ trace_stream_step_size).

(** ** The triggers of a block that is not final *)

Lemma full_block_ok b : blocks (header_hash (fb_light b)) = Some b → block_ok (fb_with_calls b) (fb_calls b).
Proof.
  intros Hb. destruct (blocks_ok Hnet _ _ Hb) as (_ & _ & Hok). split; [apply (fb_logs_ordered _ _ Hok)|].
  intros call Hc. split; [by eapply fb_call_spec|]. destruct (fb_calls_in _ _ Hok call Hc) as (hash & Hh & Hin).
  destruct (fb_receipts _ _ Hok hash Hin) as (receipt & Hr & Hrh). unfold transaction_for_call_succeeded. rewrite Hh. cbn.
  destruct (list_find _ _) as [[i r]|] eqn:E; [eauto|]. apply list_find_None in E. rewrite Forall_forall in E.
  exfalso. by apply (E receipt).
Qed.

Lemma calls_have_receipts b : blocks (header_hash (fb_light b)) = Some b → transaction_receipts (fb_block b) = [] → fb_calls b = [].
Proof.
  intros Hb E. apply elem_of_nil_inv. intros call Hc. destruct (blocks_ok Hnet _ _ Hb) as (_ & _ & Hok).
  destruct (fb_calls_in _ _ Hok call Hc) as (hash & _ & Hin).
  destruct (fb_receipts _ _ Hok hash Hin) as (receipt & Hr & _). rewrite E in Hr. by apply elem_of_nil in Hr.
Qed.

Lemma calls_in_block_spec t b r : blocks (header_hash (fb_light b)) = Some b →
  @calls_in_block (node t) _ (header_number (fb_light b)) (header_hash (fb_light b)) = r →
  match r with Ok calls => calls = fb_calls b | Err _ => True | Panic => False end.
Proof.
  intros Hb <-. unfold calls_in_block. rewrite trace_stream_block. pose proof (node_block_traces Hnet t (header_number (fb_light b)) _ eq_refl) as Ht.
  destruct (@trace_filter (node t) _ _ _) as [ts|e|]; cbn; [|done..]. rewrite app_nil_r. destruct ts as [|tr ts]; [done|].
  case_bool_decide as E; [done|]. rewrite (Ht tr b eq_refl E Hb). destruct (blocks_ok Hnet _ _ Hb) as (_ & _ & Hok).
  unfold fb_calls. assert (∀ x, x ∈ fb_traces b → try_from_trace x = Ok (trace_call x)) as Htr by (intros x; by eapply trace_call_spec).
  clear E Ht. induction (fb_traces b) as [|x l IH]; [done|]. cbn. rewrite (Htr x) by (by left). cbn.
  specialize (IH ltac:(intros; apply Htr; by right)). destruct (filter_map_ok _ l) as [ys|?|]; cbn; try done. rewrite IH. by destruct (trace_call x).
Qed.

Lemma triggers_with_calls t eb :
  @triggers_in_block _ (node t) _ fuel (NonFinal (mkBlockWithCalls eb None)) flt receipts_supported =
  (calls ← (if negb (requires_traces flt) || bool_decide (length (transaction_receipts eb) = 0%nat) then Ok []
            else @calls_in_block (node t) _ (header_number (eb_block eb)) (header_hash (eb_block eb)));
   @triggers_in_block _ (node t) _ fuel (NonFinal (mkBlockWithCalls eb (Some calls))) flt receipts_supported).
Proof. unfold triggers_in_block, get_calls. cbn. destruct (negb _ || _); [done|]. by destruct (@calls_in_block (node t) _ _ _). Qed.

Lemma nonfinal_block t b r : blocks (header_hash (fb_light b)) = Some b →
  @triggers_in_block _ (node t) _ fuel (NonFinal (mkBlockWithCalls (fb_block b) None)) flt receipts_supported = r →
  match r with
  | Ok bt => (∃ calls, bt_block bt = NonFinal (mkBlockWithCalls (fb_block b) calls)) ∧ all_triggers b (trigger_data bt)
  | Err _ => True
  | Panic => False
  end.
Proof.
  intros Hb <-. pose proof (full_block_ok b Hb) as Hok.
  assert (∀ calls, (∀ call, call ∈ calls → call ∈ fb_calls b) →
    (∀ ds tr, ds ∈ dss → trigger_of (fb_with_calls b) (fb_calls b) tr → handles from_log_trigger ds tr (fb_light b) →
      trigger_of (mkBlockWithCalls (fb_block b) (Some calls)) calls tr) →
    ∃ bt, @triggers_in_block _ (node t) _ fuel (NonFinal (mkBlockWithCalls (fb_block b) (Some calls))) flt receipts_supported = Ok bt ∧
      bt_block bt = NonFinal (mkBlockWithCalls (fb_block b) (Some calls)) ∧ all_triggers b (trigger_data bt)) as Hcase.
  { intros calls Hin Hof.
    destruct (@nonfinal_triggers_complete _ _ _ _ _ (node t) _ from_log_trigger fuel dss (mkBlockWithCalls (fb_block b) (Some calls)) calls receipts_supported)
      as (bt & Hbt & Hblock & _ & Hall & _); [done|done| |].
    - split; [apply Hok|]. intros call Hc. by apply Hok, Hin.
    - exists bt. split; [done|]. split; [done|]. intros ds tr Hds Htr Hh. apply (Hall ds); [done|by eapply Hof|done]. }
  rewrite triggers_with_calls. destruct (negb (requires_traces flt) || bool_decide (length (transaction_receipts (fb_block b)) = 0%nat)) eqn:E.
  - cbn [mbind outcome_bind]. destruct (Hcase []) as (bt & -> & Hblock & Hall); [by intros ? ?%elem_of_nil| |eauto].
    intros ds tr Hds. apply (no_call_triggers _ dss); [by apply Hsources|done|by apply calls_have_receipts|]. apply orb_true_iff in E as [E%negb_true_iff|E%bool_decide_eq_true]; [by left|right].
    by apply nil_length_inv.
  - pose proof (calls_in_block_spec t b _ Hb eq_refl) as Hc. unfold fb_light at 1 2 in Hc.
    destruct (@calls_in_block (node t) _ _ _) as [calls|e|]; cbn [mbind outcome_bind]; [|done..]. subst calls.
    destruct (Hcase (fb_calls b)) as (bt & -> & Hblock & Hall); [done..|eauto].
Qed.

(** ** The main chain and the scan *)

Lemma chain_ptr t n b : chain_of (world t) n = Some b → ptr_number (fb_ptr b) = n ∧ blocks (ptr_hash (fb_ptr b)) = Some b.
Proof.
  intros Hb. destruct (chain_numbers _ (chain_linked Hchains t) n b Hb) as [_ Hok]. split; [by apply fb_number|by eapply (chain_blocks Hchains)].
Qed.

Lemma next_in_chain t n : 0 ≤ n ≤ known_of (world t) → ∃ m, n ≤ m ≤ n + gap ∧ m ≤ known_of (world t) ∧ is_Some (chain_of (world t) m) ∧
  ∀ k, n ≤ k < m → chain_of (world t) k = None.
Proof.
  intros Hn. destruct (chain_gap Hchains t n Hn) as (m & Hm & Hk & Hs).
  destruct (least_some (chain_of (world t)) (Z.to_nat (m - n)) n m) as (k & Hk' & Hks & Hkn); [lia|done|]. exists k. split; [lia|]. split; [lia|done].
Qed.



Lemma main_chain t p : 0 ≤ ptr_number p ≤ known_of (world t) →
  ∃ on_main, @rpc_is_on_main_chain (node t) fuel p = Ok on_main ∧
    (on_main = true ↔ fb_ptr <$> chain_of (world t) (ptr_number p) = Some p).
Proof.
  intros Hp. destruct (next_in_chain t (ptr_number p) Hp) as (m & Hm & Hk & Hs & Hnone).
  destruct (@next_existing (chain_of (world t)) (known_of (world t)) (node t) (chain_node Hchains t) (chain_linked Hchains t) fuel (ptr_number p) m) as (b & Hb & Hn);
    [lia|done|done|lia|].
  unfold rpc_is_on_main_chain. rewrite Hn. cbn. eexists. split; [done|]. rewrite bool_decide_eq_true. destruct (chain_ptr t m b Hb) as [Hnum _].
  split.
  - intros <-. by rewrite Hnum, Hb.
  - destruct (chain_of (world t) (ptr_number p)) as [b'|] eqn:Eb; [|done]. intros [= <-].
    assert (m = ptr_number (fb_ptr b')) as ->; [|congruence].
    destruct (decide (m = ptr_number (fb_ptr b'))); [done|]. rewrite Hnone in Eb by lia. done.
Qed.

Lemma scan_chain t from to : 0 ≤ from ≤ to → to ≤ known_of (world t) →
  ∃ bts to', @blocks_with_triggers _ (node t) _ fuel from to flt receipts_supported = Ok (bts, to') ∧
    to ≤ to' ≤ to + gap ∧ @scanned EthWorld adapter eth_view (world t) from to' bts ∧ ∃ b, b ∈ bts ∧ ptr_number (bt_ptr b) = to'.
Proof.
  intros Hft Hto. destruct (next_in_chain t to) as (m & Hm & Hk & Hs & Hnone); [lia|].
  destruct (@blocks_with_triggers_complete (chain_of (world t)) (known_of (world t)) _ _ (node t) (chain_node Hchains t) _
    (chain_linked Hchains t) _ _ _ from_log_trigger settings_ok fuel dss from to m receipts_supported)
    as (bts & Hbts & Hsorted & Hlast & Hin & Hall); [lia|done|done|done|lia|done|].
  exists bts, m. split; [done|]. split; [lia|]. split; [|done].
  assert (∀ bt b, bt_block bt = Final (fb_light b) → bt_ptr bt = fb_ptr b) as Hptr by (intros bt b Hbt; unfold bt_ptr; by rewrite Hbt).
  constructor; [done| |].
  - intros bt Hbt. destruct (Hin bt Hbt) as (n & b & Hn & Hb & Hblock & _). change (bw_ptr bt) with (bt_ptr bt).
    destruct (chain_ptr t n b Hb) as [Hnum Hhash]. rewrite (Hptr bt b Hblock). rewrite Hnum. split; [done|]. split; [cbn; by rewrite Hb|].
    cbn. intros b' [Hb' _] ds tr Hds Hof Hh. rewrite (Hptr bt b Hblock), Hhash in Hb'. injection Hb' as <-.
    destruct (Hall n b ds tr Hn Hb Hds Hof Hh) as (bt' & tr' & Hbt' & Hblock' & Htr' & Hsame & Hlog).
    enough (bt' = bt) as -> by eauto.
    eapply (sorted_unique (λ b, ptr_number (bt_ptr b)) bts); [done..|]. by rewrite (Hptr bt b), (Hptr bt' b).
  - cbn. intros n p Hn Hp (b & [Hb Hbn] & ds & tr & Hds & Hof & Hh). destruct (chain_of (world t) n) as [b'|] eqn:Eb; [|done]. injection Hp as <-.
    destruct (chain_ptr t n b' Eb) as [_ Hhash]. assert (b' = b) as -> by congruence.
    destruct (Hall n b ds tr Hn Eb Hds Hof Hh) as (bt' & tr' & Hbt' & Hblock' & _). exists bt'. split; [done|]. by apply Hptr.
Qed.


Lemma light_parent_hash b : blocks (header_hash (fb_light b)) = Some b → ∀ c, is_Some (blocks c) → header_parent_hash (fb_light b) = c →
  ptr_hash <$> light_parent_ptr (fb_light b) = Some c.
Proof.
  intros Hb c [bc Hc] <-. pose proof (blocks_parent Hnet _ _ _ Hb Hc). destruct (blocks_ok Hnet _ _ Hc) as (_ & ? & _).
  unfold light_parent_ptr. destruct (Z.eqb_spec (header_number (fb_light b)) 0); [lia|done].
Qed.

(** The Ethereum adapter keeps the promises of the interface. *)
#[export] Instance eth_adapter_spec : @TriggersAdapterSpec EthWorld adapter eth_view world flt threshold gap head_max.
Proof.
  split.
  - cbn. intros t n p Hp. destruct (chain_of (world t) n) as [b|] eqn:E; [|done]. injection Hp as <-. by destruct (chain_ptr t n b E).
  - apply (chain_known Hchains).
  - cbn. intros t h Hh. pose proof (chain_head Hchains t _ Hh) as Hc. done.
  - cbn. intros t t' h n Ht Hh Hn. by rewrite (chain_final Hchains t t' h n).
  - cbn. intros p t on_main Hp Hm. destruct (main_chain t p Hp) as (m & Hm' & Hiff). rewrite Hm in Hm'. by injection Hm' as ->.
  - cbn. intros from to t bts to' Hft Hto Hs. destruct (scan_chain t from to Hft Hto) as (bts' & to'' & Hs' & Hrest).
    rewrite Hs in Hs'. by injection Hs' as -> ->.
  - cbn. intros h n r t0 x t bt Hx Hbt. pose proof (ancestor_block_spec t0 h n r _ Hx) as (b & Hb & -> & _).
    pose proof (nonfinal_block t b _ Hb Hbt) as [[calls Hblock] Hall].
    unfold bw_ptr. cbn. rewrite Hblock. cbn. split; [done|]. split; [done|]. intros b' [Hb' _]. unfold bt_ptr in Hb'. rewrite Hblock in Hb'. cbn in Hb'.
    unfold fb_light in Hb. rewrite Hb in Hb'. by injection Hb' as <-.
  - cbn. intros c t p Hp. pose proof (parent_ptr_rpc t c _ Hp) as (b & Hb & Hl). split; [eauto|].
    destruct (blocks_ok Hnet _ _ Hb) as (_ & Hn & _). unfold light_parent_ptr in Hl. destruct (Z.eqb_spec (header_number (fb_light b)) 0); [done|].
    injection Hl as ->. cbn. lia.
  - cbn. intros h c t x Hlt Hanc Hx. pose proof (ancestor_block_spec t h _ _ _ Hx) as (b & Hb & -> & Hpar). cbn.
    apply (light_parent_hash b Hb); [|by apply Hpar]. destruct Hanc as (? & bc & _ & [Hbc _] & _). by eexists.
  - cbn. intros t Hp. by pose proof (chain_head Hchains t _ Hp).
  - cbn. intros p t Hp Hm. destruct (main_chain t p Hp) as (m & Hm' & _). congruence.
  - cbn. intros p t Hp. by pose proof (parent_ptr_rpc t p _ Hp).
  - cbn. intros h n r t Hp. by pose proof (ancestor_block_spec t h n r _ Hp).
  - cbn. intros from to t Hft Hto Hp. destruct (scan_chain t from to Hft Hto) as (bts' & to'' & Hs' & Hrest). congruence.
  - cbn. intros h n r t0 x t Hx Hp. pose proof (ancestor_block_spec t0 h n r _ Hx) as (b & Hb & -> & _).
    by pose proof (nonfinal_block t b _ Hb Hp).
  - cbn. intros h n r t x Hx. pose proof (ancestor_block_spec t h n r _ Hx) as (b & Hb & -> & _). cbn. by destruct (blocks_ok Hnet _ _ Hb) as (_ & ? & _).
Qed.


(** C12: Whatever happens on an Ethereum chain below its reorg threshold and
    however the block stream is polled, it does not panic, and what it tells a
    subgraph follows the chain: a block to process is a child of the last one,
    or both are final and no block between them has a trigger that a data
    source handles; it comes with all triggers that the data sources handle;
    and a block is only reverted, to its parent, when it is not on the chain
    any more. *)
Theorem ethereum_stream_follows_chain max_range start_blocks max_size target start ticks t :
  0 ≤ threshold → 0 ≤ gap → 10 ≤ max_range → 10 * (max_range + gap) ≤ I32_MAX → head_max + max_range ≤ I32_MAX →
  (∀ n, n ∈ start_blocks → n ≤ BLOCK_NUMBER_MAX) → 1 ≤ max_size ≤ max_range → (∀ p, start = Some p → 0 ≤ ptr_number p) →
  let '(s, _, r) := @poll_run EthWorld adapter world ticks (@stream_new EthWorld adapter flt start_blocks threshold max_size target start) t in
  ∃ items, r = Ok items ∧ @follows EthWorld adapter eth_view world threshold start items (@current_block _ adapter (@stream_ctx _ adapter s)).
Proof using All.
  intros. eapply poll_run_follows; [apply eth_adapter_spec|done..].
Qed.

End Ethereum.
