(* ===== verification/StreamSamples.v ===== *)
(** * A block stream at work

    The theorems on block streams for a small Ethereum chain: the stream goes
    over a round without a block, and finishes with the last block, which is
    not final. *)

From Stdlib Require Import ZArith Lia ZifyBool.
From stdpp Require Import base gmap list sets strings sorting.
From S2P Require Import Prelude Values Write DataSource EthData EthFilter EthTriggers EthFilterFacts EthCallFacts EthOrder EthComplete EthScan EthSamples.
From S2P Require Import Float64 BlockStream StreamFacts EthAdapter EthStream.

Local Open Scope Z_scope.

Module StreamSample.
Export ChainSample.

#[global] Instance sample_store : EthereumStore := {|
  store_head := Ok (Some (fb_ptr block3));
  store_ancestor _ _ _ := Ok None;
  supports_block_receipts := false;
  get_block_receipts _ := Ok None;
|}.

Definition sample_world : EthWorld := mkWorld sample_node sample_store.

Lemma sample_network_ok : network_ok (λ _, sample_world) sample_by_hash.
Proof.
  split; cbn.
  - intros hash b [[-> ->]|[-> ->]]%sample_by_hash_Some; (split; [done|split; [done|apply sample_block_ok]]).
  - intros hash b b' [[-> ->]|[-> ->]]%sample_by_hash_Some; cbn; [done|]. by intros [= <-].
  - intros hash b [[-> ->]|[-> ->]]%sample_by_hash_Some; done.
  - intros _ hash r <-. destruct (sample_by_hash hash) as [b|] eqn:E; cbn; eauto.
  - done.
  - intros _ n r <- tr b Hhd Hh Hb. revert Hhd. unfold blocks_in, block_range. replace (n - n + 1) with 1 by lia. rewrite seqZ_cons by lia. rewrite seqZ_nil by lia. cbn.
    destruct (sample_chain n) as [b'|] eqn:E; [|done]. apply sample_by_hash_Some in Hb as [[_ ->]|[_ ->]];
      apply sample_chain_Some in E as [[_ ->]|[_ ->]]; cbn; intros [= <-]; done.
  - intros _ tx hash r <-. unfold sample_receipt. destruct (sample_by_hash hash) as [b|]; [|done]. cbn.
    destruct (list_find _ _) as [[i receipt]|] eqn:E; [|done]. cbn. intros b' [= <-].
    apply list_find_Some in E as (Hl & Ht & _). split; [by eapply list_elem_of_lookup_2|done].
  - by intros _ hash r <-.
  - by intros _ h n root r <-.
Qed.

Lemma sample_chains_ok : chains_ok (λ _, sample_world) sample_by_hash (λ _, sample_chain) (λ _, 3) 2 1 3.
Proof.
  split; cbn.
  - intros _. apply sample_node_spec.
  - intros _. apply sample_chain_ok.
  - intros _ n b [[-> ->]|[-> ->]]%sample_chain_Some; done.
  - lia.
  - intros _ n Hn. destruct (decide (n ≤ 1)); [exists 1|exists 3]; (split; [lia|split; [lia|by eexists]]).
  - intros _ r <-. cbn. lia.
  - done.
Qed.

Abbreviation adapter := (eth_adapter 1 true).
Abbreviation sample_filter := (trigger_filter_from_data_sources [source_a]).

(** What the stream has told and where it is after some polls *)
Definition polls (n : nat) (start : option BlockPtr) : option (list BlockPtr * option BlockPtr) :=
  let '(s, _, r) := @poll_run EthWorld adapter (λ _, sample_world) (replicate n tick)
    (@stream_new EthWorld adapter sample_filter [1] 2 10 100 start) 0%nat in
  match r with
  | Ok items =>
      Some (omap (λ i : @BlockStreamEvent EthWorld adapter + string, match i with inl (ProcessBlock b _) => Some (@bw_ptr EthWorld adapter b) | _ => None end) items, @current_block _ adapter (@stream_ctx _ adapter s))
  | _ => None
  end.

Lemma ethereum_stream_follows_chain_witness :
  ∃ items, @follows EthWorld adapter (eth_view no_calls 1 true [source_a] sample_by_hash (λ _, sample_chain) (λ _, 3)) (λ _, sample_world) 2
      None items (Some (fb_ptr block3)).
Proof.
  unshelve epose proof (ethereum_stream_follows_chain no_calls 1 true [source_a] (λ _, sample_world) sample_by_hash (λ _, sample_chain) (λ _, 3) 2 1 3
    sample_network_ok sample_chains_ok sources_ok ltac:(cbn; lia) sample_settings_ok 1000 [1] 10 100 None (replicate 9 tick) 0 _ _ _ _ _ _ _ _) as Hf;
    [lia|lia|lia|unfold I32_MAX; lia|unfold I32_MAX; lia|by intros n ->%list_elem_of_singleton|lia|done|].
  assert (polls 9 None = Some ([fb_ptr block1; fb_ptr block3], Some (fb_ptr block3))) as Hp by (vm_compute; reflexivity).
  unfold polls in *. destruct (poll_run _ _ _ _) as [[s t] r]. destruct Hf as (items & -> & Hfol). exists items.
  injection Hp as _ Hs. rewrite <- Hs. exact Hfol.
Defined.

Abbreviation view := (eth_view no_calls 1 true [source_a] sample_by_hash (λ _, sample_chain) (λ _, 3)).

Lemma sample_canonical c n : @canonical EthWorld adapter view sample_world n = Some c → c = fb_ptr block1 ∧ n = 1 ∨ c = fb_ptr block3 ∧ n = 3.
Proof.
  cbn. destruct (sample_chain n) as [b|] eqn:E; [|done]. intros [= <-]. apply sample_chain_Some in E as [[-> ->]|[-> ->]]; auto.
Qed.

(** Near the head: the last block after the first one *)
Lemma sample_near c : @canonical EthWorld adapter view sample_world (ptr_number c) = Some c →
  final_number 2 (ptr_number (fb_ptr block3)) ≤ ptr_number c < ptr_number (fb_ptr block3) →
  ∃ b bt, @ancestor_block EthWorld adapter (fb_ptr block3) (ptr_number (fb_ptr block3) - ptr_number c - 1) (Some (ptr_hash c)) sample_world = Ok (Some b) ∧
    @ab_parent_hash EthWorld adapter b = Some (ptr_hash c) ∧ @block_triggers EthWorld adapter sample_filter b sample_world = Ok bt ∧
    @canonical EthWorld adapter view sample_world (ptr_number (@ab_ptr EthWorld adapter b)) = Some (@ab_ptr EthWorld adapter b) ∧
    ptr_number c < ptr_number (@ab_ptr EthWorld adapter b) ≤ ptr_number (fb_ptr block3).
Proof.
  intros [[-> _]|[-> _]]%sample_canonical Hn; [|cbn in Hn; lia].
  exists (NonFinal (mkBlockWithCalls (fb_block block3) None)).
  destruct (@block_triggers EthWorld adapter sample_filter (NonFinal (mkBlockWithCalls (fb_block block3) None)) sample_world) as [bt|e|] eqn:E.
  - exists bt. split; [vm_compute; reflexivity|]. split; [reflexivity|]. split; [reflexivity|]. split; [reflexivity|]. cbn. lia.
  - exfalso. vm_compute in E. discriminate.
  - exfalso. vm_compute in E. discriminate.
Qed.

Lemma sample_scan from to : 0 ≤ from ≤ to → to ≤ final_number 2 (ptr_number (fb_ptr block3)) →
  ∃ bts to', @scan_triggers EthWorld adapter sample_filter from to sample_world = Ok (bts, to') ∧ to' ≤ final_number 2 (ptr_number (fb_ptr block3)).
Proof.
  change (final_number 2 (ptr_number (fb_ptr block3))) with 1. intros Hft Hto.
  destruct (scan_chain no_calls 1 true [source_a] (λ _, sample_world) sample_by_hash (λ _, sample_chain) (λ _, 3) 2 1 3
    sample_chains_ok sources_ok ltac:(cbn; lia) sample_settings_ok 0 from to) as (bts & to' & Hs & Hto' & Hsc & b & Hb & Hn); [lia|lia|].
  exists bts, to'. split; [exact Hs|]. destruct (scanned_canonical _ _ _ _ Hsc b Hb) as (_ & Hc & _).
  change (@bw_ptr EthWorld adapter b) with (bt_ptr b) in Hc. rewrite Hn in Hc. apply sample_canonical in Hc as [[_ ->]|[_ ->]]; lia.
Qed.

Lemma sample_main p : @canonical EthWorld adapter view sample_world (ptr_number p) = Some p →
  ∃ on_main, @is_on_main_chain EthWorld adapter p sample_world = Ok on_main.
Proof. intros [[-> _]|[-> _]]%sample_canonical; exists true; vm_compute; reflexivity. Qed.

Lemma stream_reaches_head_witness :
  ∃ s, @reaches EthWorld adapter sample_world (@stream_new EthWorld adapter sample_filter [1] 2 10 100 None) s ∧
    @stream_state EthWorld adapter s = @Idle EthWorld adapter ∧ @current_block EthWorld adapter (@stream_ctx EthWorld adapter s) = Some (fb_ptr block3).
Proof.
  apply (@stream_reaches_head EthWorld adapter view sample_world sample_filter 2 1 3 1000).
  - apply (eth_adapter_spec no_calls 1 true [source_a] (λ _, sample_world) sample_by_hash (λ _, sample_chain) (λ _, 3) 2 1 3
      sample_network_ok sample_chains_ok sources_ok ltac:(cbn; lia) sample_settings_ok).
  - lia.
  - lia.
  - lia.
  - unfold I32_MAX. lia.
  - unfold I32_MAX. lia.
  - reflexivity.
  - reflexivity.
  - exact sample_main.
  - exact sample_scan.
  - exact sample_near.
  - by intros n ->%list_elem_of_singleton.
  - lia.
  - done.
  - split; [cbn; lia|done].
Defined.

End StreamSample.
