(* ===== verification/Poi.v ===== *)
(** * Proofs of indexing

    Models graph/src/components/subgraph/proof_of_indexing: the digest of the
    changes of a subgraph that is kept up to date block by block
    ([online.rs]), the hashing of its events ([event.rs]), and the structures
    whose hash it is meant to be ([reference.rs]).  The two versions of the
    crate [stable_hash] are parameters; what is proved uses the laws of the
    newer one. *)

From Stdlib Require Import ZArith Lia.
From stdpp Require Import base gmap list strings.
From S2P Require Import Prelude Values IdText Intern Entity Write Relational LfuCache EntityCache BlockState HostExports.

Local Open Scope Z_scope.

(** ** The hashers *)

(** [FastStableHasher] with its field addresses *)
Class FastHasher := {
  Addr : Type;
  addr_root : Addr;
  addr_child : Addr → Z → Addr;
  Fast : Type;
  fast_new : Fast;
  fast_write : Addr → list Z → Fast → Fast;
  fast_mixin : Fast → Fast → Fast;
  fast_to_bytes : Fast → list Z;
  fast_from_bytes : list Z → Fast;
  fast_finish : Fast → Z;
}.

(** [SetHasher] of the older version, with its sequence numbers; taking a child
    also changes the sequence number. *)
Class LegacyHasher := {
  Seq : Type;
  seq_root : Seq;
  seq_skip : Z → Seq → Seq;
  seq_next_child : Seq → Seq * Seq;
  Legacy : Type;
  legacy_new : Legacy;
  legacy_finish_unordered : Legacy → Legacy → Legacy;
  legacy_to_bytes : Legacy → list Z;
  legacy_from_bytes : list Z → Legacy;
  legacy_finish : Legacy → list Z;
}.

(** [sha2::Sha256] and [keccak256] *)
Class Digests := {
  sha256 : list Z → list Z;
  poi_keccak : list Z → list Z;
}.

(** Both traits [StableHash] *)
Class StableHash `{FastHasher} `{LegacyHasher} (A : Type) := {
  stable_hash : A → Addr → Fast → Fast;
  stable_hash_legacy : A → Seq → Legacy → Legacy;
}.

(** [AsBytes] *)
Record AsBytes := mkAsBytes { as_bytes_of : list Z }.

(** The implementations of the crates; [AsUnorderedSet] is used for entities. *)
Class StableHashPrims `{FastHasher} `{LegacyHasher} := {
  #[global] hash_int :: StableHash Z;
  #[global] hash_str :: StableHash string;
  #[global] hash_bytes :: StableHash AsBytes;
  #[global] hash_option_bytes :: StableHash (option AsBytes);
  #[global] hash_entity :: StableHash Entity;
}.

Inductive ProofOfIndexingVersion := VFast | VLegacy.

Section Hashing.
Context `{FH : FastHasher} `{LH : LegacyHasher} `{DG : Digests} `{PR : !StableHashPrims} `{HX : Hex}.

Inductive Hashers := HFast (fast : Fast) | HLegacy (legacy : Legacy).

Definition STABLE_HASH_LEN : nat := 32.

Definition hashers_new (version : ProofOfIndexingVersion) : Hashers :=
  match version with VLegacy => HLegacy legacy_new | VFast => HFast fast_new end.

(** A digest of 32 bytes is one of the fast hasher. *)
Definition hashers_from_bytes (bytes : list Z) : Hashers :=
  if bool_decide (length bytes = STABLE_HASH_LEN) then HFast (fast_from_bytes bytes) else HLegacy (legacy_from_bytes bytes).

Definition traverse_seq_no (counts : list Z) : Seq := foldl (λ s i, (seq_next_child (seq_skip i s)).1) seq_root counts.

Definition traverse_addr (children : list Z) : Addr := foldl addr_child addr_root children.

Definition hashers_write `{!StableHash A} (value : A) (children : list Z) (self : Hashers) : Hashers :=
  match self with
  | HFast fast => HFast (stable_hash value (traverse_addr children) fast)
  | HLegacy legacy => HLegacy (stable_hash_legacy value (traverse_seq_no children) legacy)
  end.

(** ** The hash of events *)

Definition event_name (self : ProofOfIndexingEvent) : string :=
  match self with
  | PoiRemoveEntity _ _ => "RemoveEntity"
  | PoiSetEntity _ _ _ => "SetEntity"
  | PoiDeterministicError _ => "DeterministicError"
  end.

Definition event_hash_legacy (self : ProofOfIndexingEvent) (sequence_number : Seq) (state : Legacy) : Legacy :=
  let '(c0, s) := seq_next_child sequence_number in
  let state := stable_hash_legacy (event_name self) c0 state in
  let '(c1, s) := seq_next_child s in
  match self with
  | PoiRemoveEntity entity_type id =>
      let state := stable_hash_legacy entity_type c1 state in
      let '(c2, s) := seq_next_child s in
      stable_hash_legacy id c2 state
  | PoiSetEntity entity_type id data =>
      let state := stable_hash_legacy entity_type c1 state in
      let '(c2, s) := seq_next_child s in
      let state := stable_hash_legacy id c2 state in
      let '(c3, s) := seq_next_child s in
      stable_hash_legacy data c3 state
  | PoiDeterministicError redacted_events => stable_hash_legacy redacted_events c1 state
  end.

Definition event_hash_fast (self : ProofOfIndexingEvent) (field_address : Addr) (state : Fast) : Fast :=
  let '(state, variant) :=
    match self with
    | PoiRemoveEntity entity_type id =>
        (stable_hash id (addr_child field_address 1) (stable_hash entity_type (addr_child field_address 0) state), 1)
    | PoiSetEntity entity_type id data =>
        (stable_hash data (addr_child field_address 2)
           (stable_hash id (addr_child field_address 1) (stable_hash entity_type (addr_child field_address 0) state)), 2)
    | PoiDeterministicError redacted_events => (stable_hash redacted_events (addr_child field_address 0) state, 3)
    end in
  fast_write field_address [variant] state.

#[global] Instance event_hash : StableHash ProofOfIndexingEvent := {|
  stable_hash := event_hash_fast;
  stable_hash_legacy := event_hash_legacy;
|}.

(** [StableHash] of an [Id] *)
#[global] Instance id_hash : StableHash Id := {|
  stable_hash id :=
    match id with
    | IdString s => stable_hash s
    | IdBytes b => stable_hash (bytes_to_string b)
    | IdInt8 i => stable_hash i
    end;
  stable_hash_legacy id :=
    match id with
    | IdString s => stable_hash_legacy s
    | IdBytes b => stable_hash_legacy (bytes_to_string b)
    | IdInt8 i => stable_hash_legacy i
    end;
|}.

(** [DeploymentHash] *)
Record DeploymentHash := mkDeploymentHash { dh_inner : string }.

#[global] Instance deployment_hash_hash : StableHash DeploymentHash := {|
  stable_hash d addr := stable_hash (dh_inner d) (addr_child addr 0);
  stable_hash_legacy d s := stable_hash_legacy (dh_inner d) (seq_next_child s).1;
|}.

(** ** The streams of a block *)

Record BlockEventStream := mkEventStream {
  vec_length : Z;
  handler_start : Z;
  block_index : Z;
  hasher : Hashers;
}.

(** [u64::try_from(block_number).unwrap()] *)
Definition event_stream_new {E} (block_number : BlockNumber) (version : ProofOfIndexingVersion) : outcome E BlockEventStream :=
  if block_number <? 0 then Panic else Ok (mkEventStream 0 0 block_number (hashers_new version)).

Definition pause (self : BlockEventStream) (prev : option (list Z)) : list Z :=
  match hashers_write (vec_length self) [1; 0; block_index self; 0] (hasher self) with
  | HLegacy digest =>
      legacy_to_bytes
        (match prev with Some prev => legacy_finish_unordered digest (legacy_from_bytes prev) | None => digest end)
  | HFast digest =>
      fast_to_bytes
        (match prev with
         | Some prev =>
             let prev := if bool_decide (length prev = STABLE_HASH_LEN) then prev else sha256 prev in
             fast_mixin digest (fast_from_bytes prev)
         | None => digest
         end)
  end.

(** [BlockEventStream::write]; the length is an [u64]. *)
Definition stream_write (event : ProofOfIndexingEvent) (self : BlockEventStream) : BlockEventStream :=
  let children := [1; 0; block_index self; 0; vec_length self] in
  mkEventStream (vec_length self + 1) (handler_start self) (block_index self) (hashers_write event children (hasher self)).

Definition stream_start_handler (self : BlockEventStream) : BlockEventStream :=
  mkEventStream (vec_length self) (vec_length self) (block_index self) (hasher self).

Record ProofOfIndexing := mkPoi {
  poi_version : ProofOfIndexingVersion;
  poi_block : BlockNumber;
  per_causality_region : gmap Id BlockEventStream;
}.

Definition poi_new (block_number : BlockNumber) (version : ProofOfIndexingVersion) : ProofOfIndexing :=
  mkPoi version block_number ∅.

Definition with_causality_region {E A} (region : string) (f : BlockEventStream → BlockEventStream * A) : st ProofOfIndexing E A := λ self,
  match
    match per_causality_region self !! IdString region with
    | Some entry => Ok entry
    | None => event_stream_new (poi_block self) (poi_version self)
    end
  with
  | Ok entry =>
      let '(entry, r) := f entry in
      (mkPoi (poi_version self) (poi_block self) (<[IdString region := entry]> (per_causality_region self)), Ok r)
  | Err e => (self, Err e)
  | Panic => (self, Panic)
  end.

Definition poi_write {E} (region : string) (event : ProofOfIndexingEvent) : st ProofOfIndexing E unit :=
  with_causality_region region (λ entry, (stream_write event entry, tt)).

Definition poi_start_handler {E} (region : string) : st ProofOfIndexing E unit :=
  with_causality_region region (λ entry, (stream_start_handler entry, tt)).

Definition poi_write_deterministic_error {E} (region : string) : st ProofOfIndexing E unit :=
  redacted_events ← with_causality_region region (λ entry, (entry, vec_length entry - handler_start entry));
  poi_write region (PoiDeterministicError redacted_events).

(** [SharedProofOfIndexing]: nothing when events are ignored *)
Definition on_shared {E} (m : st ProofOfIndexing E unit) : st (option ProofOfIndexing) E unit := λ self,
  match self with
  | Some poi => let '(poi, r) := m poi in (Some poi, r)
  | None => (None, Ok tt)
  end.

Definition from_network (network : string) : string := "ethereum/" +:+ network.

(** ** The proof for a block *)

Record ProofOfIndexingFinisher := mkFinisher {
  fin_block_number : BlockNumber;
  fin_state : Hashers;
  causality_count : Z;
}.

Definition finisher_new (block : BlockPtr) (subgraph_id : DeploymentHash) (indexer : option (list Z)) (version : ProofOfIndexingVersion)
    : ProofOfIndexingFinisher :=
  let state := hashers_new version in
  let state := hashers_write subgraph_id [1] state in
  let state := hashers_write (mkAsBytes (ptr_hash block)) [2] state in
  let state := hashers_write (mkAsBytes <$> indexer) [3] state in
  mkFinisher (ptr_number block) state 0.

Definition add_causality_region (name : Id) (region : list Z) (self : ProofOfIndexingFinisher) : ProofOfIndexingFinisher :=
  let state := hashers_from_bytes region in
  let state := hashers_write (fin_block_number self + 1) [1; 0] state in
  let state := hashers_write name [0] state in
  let fin :=
    match state with
    | HLegacy legacy => hashers_write (mkAsBytes (legacy_finish legacy)) [0; 1] (fin_state self)
    | HFast fast => hashers_write (mkAsBytes (fast_to_bytes fast)) [0] (fin_state self)
    end in
  mkFinisher (fin_block_number self) fin (causality_count self + 1).

Definition to_le_bytes (n : nat) (z : Z) : list Z := (λ i, Z.land (Z.shiftr z (8 * Z.of_nat i)) 255) <$> seq 0 n.

Definition finish (self : ProofOfIndexingFinisher) : list Z :=
  match fin_state self with
  | HLegacy legacy => legacy_finish (stable_hash_legacy (causality_count self) (traverse_seq_no [0; 2]) legacy)
  | HFast fast => poi_keccak (to_le_bytes 16 (fast_finish fast))
  end.

End Hashing.
