(* ===== verification/PoiFacts.v ===== *)
(** * The online proof of indexing is that of the reference

    The digests that are kept from block to block give, for any block, the
    same proof of indexing as the hash of the structure that has all events of
    all blocks. *)

From Stdlib Require Import ZArith Lia.
From stdpp Require Import base gmap list strings.
From S2P Require Import Prelude Values IdText Intern Entity Write Relational LfuCache EntityCache BlockState HostExports Poi.

Local Open Scope Z_scope.

(** ** What the crate promises

    Hashes can be mixed in any order, everything that is hashed is mixed in,
    zero adds nothing, and the bytes of a hasher bring it back. *)

Class FastHasherSpec `{FastHasher} := {
  mixin_assoc : ∀ a b c, fast_mixin a (fast_mixin b c) = fast_mixin (fast_mixin a b) c;
  mixin_comm : ∀ a b, fast_mixin a b = fast_mixin b a;
  mixin_new : ∀ a, fast_mixin a fast_new = a;
  write_mixin : ∀ a bs h, fast_write a bs h = fast_mixin h (fast_write a bs fast_new);
  from_to_bytes : ∀ h, fast_from_bytes (fast_to_bytes h) = h;
  to_bytes_length : ∀ h, length (fast_to_bytes h) = STABLE_HASH_LEN;
}.

Class Additive `{FastHasher} `{LegacyHasher} (A : Type) `{!StableHash A} := hash_mixin (x : A) a h :
  stable_hash x a h = fast_mixin h (stable_hash x a fast_new).

Class StableHashSpec `{StableHashPrims} := {
  #[global] int_additive :: Additive Z;
  #[global] str_additive :: Additive string;
  #[global] bytes_additive :: Additive AsBytes;
  #[global] option_bytes_additive :: Additive (option AsBytes);
  #[global] entity_additive :: Additive Entity;
  hash_zero : ∀ a h, stable_hash 0 a h = h;
}.

(** Vectors have their elements as children and their length at their own
    address; maps have the hash of each entry at their address. *)
Class Collections `{StableHashPrims} := {
  vec_hash : ∀ {A}, (A → Addr → Fast → Fast) → list A → Addr → Fast → Fast;
  map_hash : ∀ {A}, (A → Addr → Fast → Fast) → list (string * A) → Addr → Fast → Fast;
  vec_hash_spec : ∀ {A} (f : A → Addr → Fast → Fast) l a h,
    vec_hash f l a h = stable_hash (Z.of_nat (length l)) a (foldl (λ h ix, f ix.2 (addr_child a ix.1) h) h (imap (λ i x, (Z.of_nat i, x)) l));
  map_hash_spec : ∀ {A} (f : A → Addr → Fast → Fast) l a h,
    map_hash f l a h =
    foldl (λ h kv, stable_hash (mkAsBytes (fast_to_bytes (f kv.2 (addr_child addr_root 1) (stable_hash kv.1 (addr_child addr_root 0) fast_new)))) a h) h l;
}.

(** ** The reference *)

Record Block := mkBlock { block_events : list ProofOfIndexingEvent }.
Record PoICausalityRegion := mkRegion { region_blocks : list Block }.
Record PoI := mkPoiReference {
  causality_regions : list (string * PoICausalityRegion);
  poi_subgraph_id : DeploymentHash;
  poi_block_hash : list Z;
  poi_indexer : option (list Z);
}.

(** What is done with the proof of indexing of a block *)
Inductive PoiOp :=
| OpStart (region : string)
| OpWrite (region : string) (event : ProofOfIndexingEvent)
| OpError (region : string).

Section Reference.
Context `{FH : FastHasher} `{LH : LegacyHasher} `{DG : Digests} `{PR : !StableHashPrims} `{CO : !Collections} `{HX : Hex}.

Definition hash_block (b : Block) (a : Addr) (h : Fast) : Fast := vec_hash stable_hash (block_events b) (addr_child a 0) h.
Definition hash_region (r : PoICausalityRegion) (a : Addr) (h : Fast) : Fast := vec_hash hash_block (region_blocks r) (addr_child a 0) h.

Definition hash_poi (p : PoI) (a : Addr) (h : Fast) : Fast :=
  let h := map_hash hash_region (causality_regions p) (addr_child a 0) h in
  let h := stable_hash (poi_subgraph_id p) (addr_child a 1) h in
  let h := stable_hash (mkAsBytes (poi_block_hash p)) (addr_child a 2) h in
  stable_hash (mkAsBytes <$> poi_indexer p) (addr_child a 3) h.

Definition reference_poi (p : PoI) : list Z := poi_keccak (to_le_bytes 16 (fast_finish (hash_poi p addr_root fast_new))).

(** ** The online proof of indexing over blocks *)

Definition poi_op {E} (op : PoiOp) : st ProofOfIndexing E unit :=
  match op with
  | OpStart region => poi_start_handler region
  | OpWrite region event => poi_write region event
  | OpError region => poi_write_deterministic_error region
  end.

(** The digests after a block: every stream of the block is combined with the
    digest that there is. *)
Definition index_block {E} (version : ProofOfIndexingVersion) (block : BlockNumber) (ops : list PoiOp) (db : gmap Id (list Z))
    : outcome E (gmap Id (list Z)) :=
  match st_for poi_op ops (poi_new block version) with
  | (poi, Ok _) => Ok (map_imap (λ name stream, Some (pause stream (db !! name))) (per_causality_region poi) ∪ db)
  | (_, Err e) => Err e
  | (_, Panic) => Panic
  end.

Fixpoint index_blocks {E} (version : ProofOfIndexingVersion) (block : BlockNumber) (blocks : list (list PoiOp)) (db : gmap Id (list Z))
    : outcome E (gmap Id (list Z)) :=
  match blocks with
  | [] => Ok db
  | ops :: blocks => db ← index_block version block ops db; index_blocks version (block + 1) blocks db
  end.

Definition finish_all (fin : ProofOfIndexingFinisher) (db : list (Id * list Z)) : list Z :=
  finish (foldl (λ fin kv, add_causality_region kv.1 kv.2 fin) fin db).

End Reference.

(** ** The events of a region *)

Definition op_region (op : PoiOp) : string := match op with OpStart r | OpWrite r _ | OpError r => r end.

Definition op_step (op : PoiOp) (acc : list ProofOfIndexingEvent * nat) : list ProofOfIndexingEvent * nat :=
  match op with
  | OpStart _ => (acc.1, length acc.1)
  | OpWrite _ event => (acc.1 ++ [event], acc.2)
  | OpError _ => (acc.1 ++ [PoiDeterministicError (Z.of_nat (length acc.1) - Z.of_nat acc.2)], acc.2)
  end.

Definition region_step (region : string) (acc : option (list ProofOfIndexingEvent * nat)) (op : PoiOp)
    : option (list ProofOfIndexingEvent * nat) :=
  if bool_decide (op_region op = region) then Some (op_step op (default ([], 0%nat) acc)) else acc.

(** The events of a region in a block, if the block has to do with it *)
Definition region_events (region : string) (ops : list PoiOp) : option (list ProofOfIndexingEvent * nat) :=
  foldl (region_step region) None ops.

Definition reference_block (region : string) (ops : list PoiOp) : Block :=
  mkBlock (default [] (fst <$> region_events region ops)).

Definition touched (region : string) (blocks : list (list PoiOp)) : bool :=
  existsb (λ ops, bool_decide (is_Some (region_events region ops))) blocks.

(** ** Proofs *)

Section Online.
Context `{FHS : FastHasherSpec} `{LH : LegacyHasher} `{DG : Digests} `{PR : !StableHashPrims} `{SHS : !StableHashSpec} `{CO : !Collections} `{HX : Hex}.

Local Infix "⊕" := fast_mixin (at level 50, left associativity).

Lemma mixin_new_l a : fast_new ⊕ a = a.
Proof. by rewrite mixin_comm, mixin_new. Qed.

#[local] Instance mixin_assoc_inst : Assoc (=) fast_mixin.
Proof. intros a b c. apply mixin_assoc. Qed.
#[local] Instance mixin_comm_inst : Comm (=) fast_mixin.
Proof. intros a b. apply mixin_comm. Qed.

(** Steps that mix something in *)
Definition adds (f : Fast → Fast) : Prop := ∀ h, f h = h ⊕ f fast_new.

Lemma adds_id : adds (λ h, h).
Proof. intros h. by rewrite mixin_new. Qed.

Lemma adds_comp f g : adds f → adds g → adds (λ h, g (f h)).
Proof. intros Hf Hg h. rewrite (Hg (f h)), (Hg (f fast_new)), (Hf h). by rewrite mixin_assoc. Qed.

Lemma adds_hash `{!StableHash A} `{!Additive A} (x : A) a : adds (stable_hash x a).
Proof. intros h. apply hash_mixin. Qed.

Lemma adds_write a bs : adds (fast_write a bs).
Proof. intros h. apply write_mixin. Qed.

Lemma adds_foldl {A} (f : A → Fast → Fast) l : (∀ x, adds (f x)) → adds (λ h, foldl (λ h x, f x h) h l).
Proof.
  intros Hf. induction l as [|x l IH]; [apply adds_id|]. cbn [foldl]. by apply (adds_comp (f x) (λ h, foldl _ h l)).
Qed.

(** Mixing in from the left *)
Lemma adds_mixin f a h : adds f → f (a ⊕ h) = a ⊕ f h.
Proof. intros Hf. rewrite (Hf (a ⊕ h)), (Hf h). by rewrite mixin_assoc. Qed.

#[global] Instance event_additive : Additive ProofOfIndexingEvent.
Proof.
  intros ev a. change (adds (event_hash_fast ev a)). destruct ev; cbn;
    repeat first [apply adds_hash|apply (adds_comp _ (fast_write _ _)); [|apply adds_write]|apply (adds_comp _ (stable_hash _ _)); [|apply adds_hash]].
Qed.

#[global] Instance deployment_hash_additive : Additive DeploymentHash.
Proof. intros d a h. apply (hash_mixin (dh_inner d)). Qed.

(** ** A block *)

Definition event_at (i j : Z) : Addr := traverse_addr [1; 0; i; 0; j].

(** The hash of events of block [i], of which the first has number [from] *)
Fixpoint events_hash (i : Z) (from : nat) (evs : list ProofOfIndexingEvent) (h : Fast) : Fast :=
  match evs with
  | [] => h
  | ev :: evs => events_hash i (S from) evs (stable_hash ev (event_at i (Z.of_nat from)) h)
  end.

Lemma events_hash_app i from evs evs' h : events_hash i from (evs ++ evs') h = events_hash i (from + length evs) evs' (events_hash i from evs h).
Proof.
  revert from h. induction evs as [|ev evs IH]; intros from h; cbn; [by rewrite Nat.add_0_r|]. rewrite IH. f_equal. lia.
Qed.

Lemma adds_events i from evs : adds (events_hash i from evs).
Proof.
  revert from. induction evs as [|ev evs IH]; intros from; [apply adds_id|]. cbn [events_hash].
  apply (adds_comp (stable_hash ev (event_at i (Z.of_nat from))) (events_hash i (S from) evs)); [apply adds_hash|apply IH].
Qed.

Definition stream_of (i : Z) (acc : list ProofOfIndexingEvent * nat) : BlockEventStream :=
  mkEventStream (Z.of_nat (length acc.1)) (Z.of_nat acc.2) i (HFast (events_hash i 0 acc.1 fast_new)).

Lemma stream_write_of i ev acc : stream_write ev (stream_of i acc) = stream_of i (acc.1 ++ [ev], acc.2).
Proof.
  unfold stream_write, stream_of. cbn. rewrite length_app, events_hash_app. cbn. f_equal. lia.
Qed.

Definition streams_ok (i : Z) (acc : string → option (list ProofOfIndexingEvent * nat)) (poi : ProofOfIndexing) : Prop :=
  poi_version poi = VFast ∧ poi_block poi = i ∧
  (∀ region, per_causality_region poi !! IdString region = stream_of i <$> acc region) ∧
  ∀ id, is_Some (per_causality_region poi !! id) → ∃ region, id = IdString region.

Lemma with_region_ok {E A} i acc poi region (f : BlockEventStream → BlockEventStream * A) g :
  0 ≤ i → streams_ok i acc poi → (∀ x, (f (stream_of i x)).1 = stream_of i (g x)) →
  ∃ poi', with_causality_region (E := E) region f poi = (poi', Ok (f (stream_of i (default ([], 0%nat) (acc region)))).2) ∧
    streams_ok i (λ r, if bool_decide (region = r) then Some (g (default ([], 0%nat) (acc region))) else acc r) poi'.
Proof.
  intros Hi (Hv & Hb & Hs & Hids) Hf. unfold with_causality_region. rewrite Hs.
  assert (match stream_of i <$> acc region with Some entry => Ok entry | None => event_stream_new (poi_block poi) (poi_version poi) end
    = Ok (E := E) (stream_of i (default ([], 0%nat) (acc region)))) as ->.
  { destruct (acc region); [done|]. unfold event_stream_new. rewrite Hb, Hv. destruct (Z.ltb_spec i 0); [lia|done]. }
  specialize (Hf (default ([], 0%nat) (acc region))). destruct (f _) as [entry r]. cbn in *. subst entry. eexists. split; [reflexivity|].
  split; [done|]. split; [done|]. cbn. split.
  - intros r'. case_bool_decide as E0; [subst; by rewrite lookup_insert_eq|]. rewrite lookup_insert_ne by congruence. apply Hs.
  - intros id. destruct (decide (id = IdString region)) as [->|]; [eauto|]. rewrite lookup_insert_ne by done. apply Hids.
Qed.

Lemma poi_op_ok {E} i acc poi op : 0 ≤ i → streams_ok i acc poi →
  ∃ poi', poi_op (E := E) op poi = (poi', Ok tt) ∧ streams_ok i (λ r, region_step r (acc r) op) poi'.
Proof.
  intros Hi Hok.
  assert (∀ (op : PoiOp) poi', streams_ok i (λ r, if bool_decide (op_region op = r) then Some (op_step op (default ([], 0%nat) (acc (op_region op)))) else acc r) poi' →
    streams_ok i (λ r, region_step r (acc r) op) poi') as Hext.
  { intros op' poi' (Hv & Hb & Hs & Hids). split; [done|]. split; [done|]. split; [|done]. intros r. rewrite Hs. unfold region_step.
    by case_bool_decide; subst. }
  destruct op as [region|region ev|region]; cbn [poi_op]; unfold poi_start_handler, poi_write.
  - destruct (with_region_ok (E := E) i acc poi region (λ entry, (stream_start_handler entry, tt)) (op_step (OpStart region)) Hi Hok) as (poi' & -> & Hok'); [done|].
    exists poi'. split; [done|]. by apply Hext.
  - destruct (with_region_ok (E := E) i acc poi region (λ entry, (stream_write ev entry, tt)) (op_step (OpWrite region ev)) Hi Hok) as (poi' & -> & Hok');
      [intros x; apply stream_write_of|]. exists poi'. split; [done|]. by apply Hext.
  - unfold poi_write_deterministic_error, poi_write.
    destruct (with_region_ok (E := E) i acc poi region (λ entry, (entry, vec_length entry - handler_start entry)) id Hi Hok) as (poi1 & E1 & Hok1); [done|].
    set (d := default ([], 0%nat) (acc region)) in *.
    destruct (with_region_ok (E := E) i _ poi1 region (λ entry, (stream_write (PoiDeterministicError (Z.of_nat (length d.1) - Z.of_nat d.2)) entry, tt))
      (λ x, (x.1 ++ [PoiDeterministicError (Z.of_nat (length d.1) - Z.of_nat d.2)], x.2)) Hi Hok1) as (poi2 & E2 & Hok2); [intros x; apply stream_write_of|].
    exists poi2. cbn. unfold mbind, st_bind. rewrite E1. cbn. rewrite E2. split; [done|]. apply Hext.
    destruct Hok2 as (Hv & Hb & Hs & Hids). split; [done|]. split; [done|]. split; [|done]. intros r. rewrite Hs. cbn.
    rewrite (bool_decide_eq_true_2 (region = region) eq_refl). destruct (bool_decide (region = r)); reflexivity.
Qed.

Lemma poi_ops_ok {E} i acc ops poi : 0 ≤ i → streams_ok i acc poi →
  ∃ poi', st_for (poi_op (E := E)) ops poi = (poi', Ok tt) ∧ streams_ok i (λ r, foldl (region_step r) (acc r) ops) poi'.
Proof.
  intros Hi. revert acc poi. induction ops as [|op ops IH]; intros acc poi Hok; [by exists poi|].
  destruct (poi_op_ok (E := E) i acc poi op Hi Hok) as (poi1 & E1 & Hok1). destruct (IH _ _ Hok1) as (poi2 & E2 & Hok2).
  exists poi2. split; [apply st_for_cons_ok; eauto|exact Hok2].
Qed.

(** ** The digests *)

(** The hash of block [i] of a region *)
Definition block_hash (i : Z) (evs : list ProofOfIndexingEvent) (h : Fast) : Fast :=
  stable_hash (Z.of_nat (length evs)) (traverse_addr [1; 0; i; 0]) (events_hash i 0 evs h).

Fixpoint blocks_hash (i : Z) (blocks : list (list ProofOfIndexingEvent)) (h : Fast) : Fast :=
  match blocks with [] => h | evs :: blocks => blocks_hash (i + 1) blocks (block_hash i evs h) end.

Lemma adds_block i evs : adds (block_hash i evs).
Proof. apply (adds_comp (events_hash i 0 evs) (stable_hash _ _)); [apply adds_events|apply adds_hash]. Qed.

Lemma adds_blocks i blocks : adds (blocks_hash i blocks).
Proof.
  revert i. induction blocks as [|evs blocks IH]; intros i; [apply adds_id|]. cbn [blocks_hash].
  apply (adds_comp (block_hash i evs) (blocks_hash (i + 1) blocks)); [apply adds_block|apply IH].
Qed.

Lemma block_hash_nil i h : block_hash i [] h = h.
Proof. unfold block_hash. cbn. apply hash_zero. Qed.

Lemma pause_of i acc prev : pause (stream_of i acc) (fast_to_bytes <$> prev) =
  fast_to_bytes (block_hash i acc.1 (default fast_new prev)).
Proof.
  unfold pause, stream_of. cbn [hasher vec_length block_index hashers_write]. f_equal.
  change (stable_hash (Z.of_nat (length acc.1)) (traverse_addr [1; 0; i; 0]) (events_hash i 0 acc.1 fast_new)) with (block_hash i acc.1 fast_new).
  destruct prev as [h|]; cbn [fmap option_fmap option_map default]; [|done].
  rewrite bool_decide_eq_true_2 by apply to_bytes_length. rewrite from_to_bytes, mixin_comm. symmetry. apply adds_block.
Qed.

Definition db_ok (acc : string → option Fast) (db : gmap Id (list Z)) : Prop :=
  (∀ region, db !! IdString region = fast_to_bytes <$> acc region) ∧ ∀ id, is_Some (db !! id) → ∃ region, id = IdString region.

Definition region_hash (region : string) (i : Z) (ops : list PoiOp) (acc : option Fast) : option Fast :=
  match region_events region ops with Some evs => Some (block_hash i evs.1 (default fast_new acc)) | None => acc end.

Lemma index_block_ok {E} i ops acc db : 0 ≤ i → db_ok acc db →
  ∃ db', index_block (E := E) VFast i ops db = Ok db' ∧ db_ok (λ r, region_hash r i ops (acc r)) db'.
Proof.
  intros Hi [Hdb Hids]. destruct (poi_ops_ok (E := E) i (λ _, None) ops (poi_new i VFast) Hi) as (poi & Hrun & (_ & _ & Hs & Hsid)).
  { split; [done|]. split; [done|]. split; [intros; apply lookup_empty|]. intros id [x Hx]. cbn in Hx. by rewrite lookup_empty in Hx. }
  unfold index_block. rewrite Hrun. eexists. split; [reflexivity|]. split.
  - intros region. rewrite lookup_union, map_lookup_imap, Hs, Hdb. unfold region_hash, region_events.
    destruct (foldl (region_step region) None ops) as [evs|]; cbn [fmap option_fmap option_map mbind option_bind].
    + rewrite pause_of. by destruct (acc region).
    + by destruct (acc region).
  - intros id [x Hx]. apply lookup_union_Some_raw in Hx as [Hx|[_ Hx]]; [|apply Hids; by eexists].
    rewrite map_lookup_imap in Hx. apply Hsid. destruct (per_causality_region poi !! id); [by eexists|done].
Qed.

Definition evs_of (region : string) (ops : list PoiOp) : list ProofOfIndexingEvent := block_events (reference_block region ops).

Lemma blocks_hash_untouched r i blocks h : touched r blocks = false → blocks_hash i (evs_of r <$> blocks) h = h.
Proof.
  revert i h. induction blocks as [|ops blocks IH]; intros i h; [done|]. cbn [touched existsb]. intros [He Ht]%orb_false_iff.
  rewrite fmap_cons. cbn [blocks_hash]. rewrite IH by done. unfold evs_of, reference_block.
  apply bool_decide_eq_false in He. destruct (region_events r ops) as [x|]; [by destruct He|]. apply block_hash_nil.
Qed.

Lemma index_blocks_ok {E} i blocks acc db : 0 ≤ i → db_ok acc db →
  ∃ db', index_blocks (E := E) VFast i blocks db = Ok db' ∧
    db_ok (λ r, if touched r blocks then Some (blocks_hash i (evs_of r <$> blocks) (default fast_new (acc r))) else acc r) db'.
Proof.
  revert i acc db. induction blocks as [|ops blocks IH]; intros i acc db Hi Hdb; [by exists db|].
  destruct (index_block_ok (E := E) i ops acc db Hi Hdb) as (db1 & E1 & H1). destruct (IH (i + 1) _ db1 ltac:(lia) H1) as (db2 & E2 & [H2 H3]).
  exists db2. cbn [index_blocks]. rewrite E1. cbn [mbind outcome_bind]. split; [done|]. split; [|done]. intros r. rewrite H2. f_equal.
  cbn [touched existsb]. change (existsb (λ ops, bool_decide (is_Some (region_events r ops))) blocks) with (touched r blocks).
  unfold region_hash, evs_of, reference_block. destruct (region_events r ops) as [evs|] eqn:Er; cbn [block_events fmap option_fmap option_map default].
  - rewrite bool_decide_eq_true_2 by (by eexists). cbn [orb]. rewrite fmap_cons. cbn [blocks_hash]. rewrite Er. cbn.
    destruct (touched r blocks) eqn:Et; [done|]. f_equal.
    symmetry. by apply blocks_hash_untouched.
  - rewrite bool_decide_eq_false_2 by (by intros [? ?]). cbn [orb]. rewrite fmap_cons. cbn [blocks_hash]. rewrite Er. cbn. by rewrite block_hash_nil.
Qed.

(** ** The reference *)

Lemma foldl_imap_from {A B} (f : B → Z * A → B) (g : Z → list A → B → B) l i h :
  (∀ i h, g i [] h = h) → (∀ i x l h, g i (x :: l) h = g (i + 1) l (f h (i, x))) →
  foldl f h (imap (λ j x, (i + Z.of_nat j, x)) l) = g i l h.
Proof.
  intros Hnil Hcons. revert i h. induction l as [|x l IH]; intros i h; [by rewrite Hnil|]. rewrite Hcons, imap_cons. cbn [foldl].
  rewrite Z.add_0_r. rewrite <- IH. f_equal. apply imap_ext. intros j y _. cbn. f_equal. lia.
Qed.

Lemma events_hash_reference i from evs h :
  foldl (λ h ix, stable_hash ix.2 (addr_child (traverse_addr [1; 0; i; 0]) ix.1) h) h (imap (λ j ev, (Z.of_nat from + Z.of_nat j, ev)) evs) =
  events_hash i from evs h.
Proof.
  revert from h. induction evs as [|ev evs IH]; intros from h; [done|]. rewrite imap_cons. cbn [foldl]. rewrite Z.add_0_r. cbn [events_hash].
  rewrite <- IH. f_equal. apply imap_ext. intros j y _. cbn. f_equal. lia.
Qed.

Lemma hash_block_reference i evs h : hash_block (mkBlock evs) (addr_child (traverse_addr [1; 0]) i) h = block_hash i evs h.
Proof.
  unfold hash_block. rewrite vec_hash_spec. unfold block_hash. cbn [block_events]. f_equal. apply (events_hash_reference i 0).
Qed.

Lemma hash_region_reference blocks h :
  hash_region (mkRegion (mkBlock <$> blocks)) (addr_child addr_root 1) h =
  stable_hash (Z.of_nat (length blocks)) (traverse_addr [1; 0]) (blocks_hash 0 blocks h).
Proof.
  unfold hash_region. rewrite vec_hash_spec. cbn [region_blocks]. rewrite length_fmap. f_equal.
  rewrite <- (foldl_imap_from (λ h ix, block_hash ix.1 ix.2 h) blocks_hash blocks 0 h) by done.
  assert (∀ k (l : list (list ProofOfIndexingEvent)) h, foldl (λ h ix, hash_block ix.2 (addr_child (traverse_addr [1; 0]) ix.1) h) h
      (imap (λ i x, (k + Z.of_nat i, mkBlock x)) l) = foldl (λ h ix, block_hash ix.1 ix.2 h) h (imap (λ i x, (k + Z.of_nat i, x)) l)) as Hgen.
  { intros k l. revert k. induction l as [|evs l IH]; intros k h'; [done|]. rewrite !imap_cons. cbn [foldl fst snd].
    rewrite (hash_block_reference (k + Z.of_nat 0) evs h').
    rewrite (imap_ext _ (λ i x, (k + 1 + Z.of_nat i, mkBlock x))) by (intros; cbn; f_equal; lia).
    rewrite IH. f_equal. apply imap_ext. intros; cbn; f_equal; lia. }
  rewrite <- (Hgen 0), imap_fmap. reflexivity.
Qed.

(** ** The end *)

Lemma foldl_adds_perm {A} (f : A → Fast → Fast) l k h : (∀ x, adds (f x)) → l ≡ₚ k → foldl (λ h x, f x h) h l = foldl (λ h x, f x h) h k.
Proof.
  intros Hf Hp. revert h. induction Hp as [|x l k _ IH|x y l|l k m _ IH1 _ IH2]; intros h; cbn [foldl]; [done|apply IH| |by rewrite IH1].
  f_equal. rewrite (Hf x (f y h)), (Hf y (f x h)), (Hf x h), (Hf y h), <- !mixin_assoc. f_equal. apply mixin_comm.
Qed.

(** What a region adds to the proof *)
Definition add_digest (n : Z) (kv : Id * list Z) (h : Fast) : Fast :=
  stable_hash (mkAsBytes (fast_to_bytes (stable_hash kv.1 (traverse_addr [0]) (stable_hash (n + 1) (traverse_addr [1; 0]) (fast_from_bytes kv.2)))))
    (traverse_addr [0]) h.

Lemma add_regions n c h l : Forall (λ kv, length kv.2 = STABLE_HASH_LEN) l →
  ∃ c', foldl (λ fin kv, add_causality_region kv.1 kv.2 fin) (mkFinisher n (HFast h) c) l = mkFinisher n (HFast (foldl (λ h kv, add_digest n kv h) h l)) c'.
Proof.
  intros Hl. revert c h. induction Hl as [|[k v] l Hkv _ IH]; intros c h; [by eexists|]. cbn [foldl fst snd].
  unfold add_causality_region, hashers_from_bytes. cbn in Hkv. rewrite bool_decide_eq_true_2 by done. cbn [hashers_write fin_block_number fin_state causality_count].
  apply (IH (c + 1)).
Qed.

Lemma digest_reference n region blocks h : n + 1 = Z.of_nat (length blocks) →
  add_digest n (IdString region, fast_to_bytes (blocks_hash 0 blocks fast_new)) h =
  stable_hash (mkAsBytes (fast_to_bytes (hash_region (mkRegion (mkBlock <$> blocks)) (addr_child addr_root 1)
    (stable_hash region (addr_child addr_root 0) fast_new)))) (traverse_addr [0]) h.
Proof.
  intros Hn. unfold add_digest. cbn [fst snd]. rewrite from_to_bytes. do 3 f_equal. rewrite hash_region_reference, <- Hn.
  set (f := λ h, stable_hash (n + 1) (traverse_addr [1; 0]) (blocks_hash 0 blocks h)).
  assert (adds f) as Hf by (apply (adds_comp (blocks_hash 0 blocks) (stable_hash _ _)); [apply adds_blocks|apply adds_hash]).
  change (stable_hash region (traverse_addr [0]) (f fast_new) = f (stable_hash region (addr_child addr_root 0) fast_new)).
  rewrite (Hf (stable_hash _ _ _)), hash_mixin. apply mixin_comm.
Qed.

Lemma db_regions blocks regions db : NoDup regions → (∀ r, r ∈ regions ↔ touched r blocks = true) →
  db_ok (λ r, if touched r blocks then Some (blocks_hash 0 (evs_of r <$> blocks) fast_new) else None) db →
  map_to_list db ≡ₚ (λ r, (IdString r, fast_to_bytes (blocks_hash 0 (evs_of r <$> blocks) fast_new))) <$> regions.
Proof.
  intros Hnd Hreg [Hdb Hids]. apply NoDup_Permutation; [apply NoDup_map_to_list| |].
  - apply NoDup_fmap_2_strong; [|done]. by intros x y _ _ [= -> _].
  - intros [id bytes]. rewrite elem_of_map_to_list, list_elem_of_fmap. split.
    + intros Hid. destruct (Hids id ltac:(by eexists)) as [r ->]. rewrite Hdb in Hid. exists r. destruct (touched r blocks) eqn:Et; [|done].
      injection Hid as <-. by rewrite Hreg.
    + intros (r & [= -> ->] & Hr). rewrite Hdb. apply Hreg in Hr. by rewrite Hr.
Qed.

(** C33: The proof of indexing of a block from the digests that have been kept up
    to date from block to block, with the events, starts of handlers and
    deterministic errors of each block, is the hash of the reference structure
    with the events of all blocks, in whichever order the regions are
    added. *)
Theorem online_poi_is_reference {E} blocks block subgraph_id indexer regions :
  blocks ≠ [] → ptr_number block + 1 = Z.of_nat (length blocks) → NoDup regions → (∀ r, r ∈ regions ↔ touched r blocks = true) →
  ∃ db, index_blocks (E := E) VFast 0 blocks ∅ = Ok db ∧
    ∀ l, l ≡ₚ map_to_list db →
      finish_all (finisher_new block subgraph_id indexer VFast) l =
      reference_poi (mkPoiReference ((λ r, (r, mkRegion (reference_block r <$> blocks))) <$> regions) subgraph_id (ptr_hash block) indexer).
Proof.
  intros Hne Hn Hnd Hreg. destruct (index_blocks_ok (E := E) 0 blocks (λ _, None) ∅) as (db & Hrun & Hdb); [done| |].
  { split; [done|]. intros id [x Hx]. by rewrite lookup_empty in Hx. }
  exists db. split; [done|]. intros l Hl. rewrite (db_regions blocks regions db Hnd Hreg Hdb) in Hl.
  unfold finish_all, finisher_new. cbn [hashers_new hashers_write].
  edestruct (add_regions (ptr_number block)) as [c ->].
  { rewrite Hl. apply Forall_fmap, Forall_forall. intros r _. apply to_bytes_length. }
  unfold finish, reference_poi. cbn [fin_state]. do 3 f_equal.
  rewrite (foldl_adds_perm (add_digest (ptr_number block)) l _ _ (λ kv, adds_hash _ _) Hl).
  unfold hash_poi. cbn [causality_regions poi_subgraph_id poi_block_hash poi_indexer]. rewrite map_hash_spec.
  set (G := λ h, stable_hash (mkAsBytes <$> indexer) (traverse_addr [3]) (stable_hash (mkAsBytes (ptr_hash block)) (traverse_addr [2])
    (stable_hash subgraph_id (traverse_addr [1]) h))).
  set (F := λ h, foldl (λ h kv, add_digest (ptr_number block) kv h) h
    ((λ r, (IdString r, fast_to_bytes (blocks_hash 0 (evs_of r <$> blocks) fast_new))) <$> regions)).
  assert (adds G) as HG by (apply (adds_comp (λ h, stable_hash _ _ (stable_hash _ _ h)) (stable_hash _ _)); [apply (adds_comp (stable_hash _ _) (stable_hash _ _))|]; apply adds_hash).
  assert (adds F) as HF by (apply adds_foldl; intros kv; apply adds_hash).
  trans (G (F fast_new)); [change (F (G fast_new) = G (F fast_new)); rewrite (HF (G fast_new)), (HG (F fast_new)); apply mixin_comm|].
  unfold G, F. do 3 f_equal. rewrite !foldl_fmap. clear Hreg Hl Hnd F HF. generalize fast_new at 2 4 as h. induction regions as [|r regions IH]; intros h; [done|].
  cbn [foldl]. rewrite (digest_reference (ptr_number block) r) by (by rewrite length_fmap). rewrite <- list_fmap_compose. apply IH.
Qed.

End Online.
