(* ===== verification/PoiSamples.v ===== *)
(** * Proofs of indexing for a concrete hasher *)

From Stdlib Require Import ZArith Lia.
From stdpp Require Import base gmap list strings.
From S2P Require Import Prelude Values IdText Intern Entity Write Relational LfuCache EntityCache BlockState HostExports Poi PoiFacts.

Local Open Scope Z_scope.

Module PoiSample.

(** Hashes are sums. *)
Definition weight (l : list Z) : Z := foldr Z.add 1 l.

#[global] Instance sum_hasher : FastHasher := {|
  Addr := list Z;
  addr_root := [];
  addr_child a i := i :: a;
  Fast := Z;
  fast_new := 0;
  fast_write a bs h := h + weight a * weight bs;
  fast_mixin := Z.add;
  fast_to_bytes h := h :: replicate 31 0;
  fast_from_bytes bs := hd 0 bs;
  fast_finish h := h;
|}.

#[global] Instance sum_hasher_spec : FastHasherSpec.
Proof. split; cbn; intros; try lia; done. Qed.

#[global] Instance unit_legacy : LegacyHasher := {|
  Seq := unit;
  seq_root := tt;
  seq_skip _ s := s;
  seq_next_child s := (s, s);
  Legacy := unit;
  legacy_new := tt;
  legacy_finish_unordered l _ := l;
  legacy_to_bytes _ := [];
  legacy_from_bytes _ := tt;
  legacy_finish _ := [];
|}.

#[global] Instance sample_digests : Digests := {| sha256 bs := take 32 (bs ++ replicate 32 0); poi_keccak bs := bs |}.

Definition sum_hash {A} (value : A → Z) : StableHash A := {|
  stable_hash x a h := h + weight a * value x;
  stable_hash_legacy _ _ l := l;
|}.

#[global] Instance sum_prims : StableHashPrims := {|
  hash_int := sum_hash id;
  hash_str := sum_hash (λ s, Z.of_nat (String.length s));
  hash_bytes := sum_hash (λ b, weight (as_bytes_of b));
  hash_option_bytes := sum_hash (λ o, match o with Some b => weight (as_bytes_of b) | None => 0 end);
  hash_entity := sum_hash (λ _, 7);
|}.

#[global] Instance sum_prims_spec : StableHashSpec.
Proof. split; repeat intro; cbn; lia. Qed.

#[global] Instance sum_collections : Collections := {|
  vec_hash A f l a h := stable_hash (Z.of_nat (length l)) a (foldl (λ h ix, f ix.2 (addr_child a ix.1) h) h (imap (λ i x, (Z.of_nat i, x)) l));
  map_hash A f l a h :=
    foldl (λ h kv, stable_hash (mkAsBytes (fast_to_bytes (f kv.2 (addr_child addr_root 1) (stable_hash kv.1 (addr_child addr_root 0) fast_new)))) a h) h l;
  vec_hash_spec _ _ _ _ _ := eq_refl;
  map_hash_spec _ _ _ _ _ := eq_refl;
|}.

#[global] Instance sample_hex : Hex := {| hex_encode _ := EmptyString; hex_decode _ := None |}.

Definition region : string := from_network "mainnet".

(** A handler that fails after it has removed an entity, and a block without
    triggers *)
Definition sample_blocks : list (list PoiOp) :=
  [[OpStart region; OpWrite region (PoiRemoveEntity "Token" "1"); OpError region]; []].

Lemma sample_regions r : r ∈ [region] ↔ touched r sample_blocks = true.
Proof.
  rewrite list_elem_of_singleton. unfold touched, sample_blocks, region_events, region_step. cbn -[region].
  destruct (decide (region = r)) as [<-|Hne].
  - by rewrite bool_decide_eq_true_2.
  - rewrite (bool_decide_eq_false_2 (region = r)) by done. split; [intros ->; done|done].
Qed.

Lemma online_poi_is_reference_witness :
  ∃ db : gmap Id (list Z), index_blocks (E := string) VFast 0 sample_blocks ∅ = Ok db ∧
    finish_all (finisher_new (mkBlockPtr 1 [9]) (mkDeploymentHash "Qm") None VFast) (map_to_list db) =
    reference_poi (mkPoiReference [(region, mkRegion [mkBlock [PoiRemoveEntity "Token" "1"; PoiDeterministicError 1]; mkBlock []])]
      (mkDeploymentHash "Qm") [9] None).
Proof.
  destruct (online_poi_is_reference (E := string) sample_blocks (mkBlockPtr 1 [9]) (mkDeploymentHash "Qm") None [region])
    as (db & Hrun & Hfin); [done|done|apply NoDup_singleton|exact sample_regions|].
  exists db. split; [exact Hrun|]. rewrite (Hfin (map_to_list db)) by reflexivity. reflexivity.
Defined.

End PoiSample.
