(* ===== verification/SourceRange.v ===== *)
(** * Changes of entities in a range of blocks

    What a subgraph that is the source of another one gives to it:
    [Layout::find_range] of store/postgres/src/relational.rs with the query
    that it runs (store/postgres/src/relational_queries.rs and
    block_range.rs).  The two queries of [find_range] are not in a
    transaction, so they can see different states of the tables. *)

From Stdlib Require Import ZArith Lia.
From stdpp Require Import base gmap list sorting strings.
From S2P Require Import Prelude Values IdText Intern Entity Write Relational Deployment DataSource.

Local Open Scope Z_scope.

(** ** [EntityBlockRange] *)

Inductive BoundSide := SideLower | SideUpper.

Inductive Bound := Included (b : BlockNumber) | Excluded (b : BlockNumber) | Unbounded.

(** The struct [BlockRange] of block_range.rs *)
Record BlockBounds := mkBlockBounds { bounds_start : Bound; bounds_end : Bound }.

Inductive EntityBlockRange := MutableRange (range : BlockBounds) (side : BoundSide) | ImmutableRange (range : BlockBounds).

Definition entity_block_range_new (immutable : bool) (from to : BlockNumber) (bound_side : BoundSide) : EntityBlockRange :=
  let block_range := mkBlockBounds (Included from) (Excluded to) in
  if immutable then ImmutableRange block_range else MutableRange block_range bound_side.

(** The column that is compared, [None] for a null *)
Definition compare_column (self : EntityBlockRange) (v : Version) : option BlockNumber :=
  match self, v_block v with
  | MutableRange _ SideLower, RangeCol r => range_lower r
  | MutableRange _ SideUpper, RangeCol r => range_upper r
  | ImmutableRange _, BlockCol b => Some b
  | _, _ => None
  end.

Definition first_block_of (b : Bound) : outcome StoreError BlockNumber :=
  match b with Included b => Ok b | Excluded b => Ok (b + 1) | Unbounded => Panic end.

Definition last_block_of (b : Bound) : outcome StoreError BlockNumber :=
  match b with Included b => Ok (b + 1) | Excluded b => Ok b | Unbounded => Panic end.

(** [contains]: the condition on versions that it makes *)
Definition entity_range_contains (self : EntityBlockRange) : outcome StoreError (Version → bool) :=
  let block_range := match self with MutableRange br _ => br | ImmutableRange br => br end in
  start ← first_block_of (bounds_start block_range);
  finish ← last_block_of (bounds_end block_range);
  Ok (λ v, match compare_column self v with Some b => (start <=? b) && (b <=? finish) | None => false end).

(** ** [FindRangeQuery] *)

Record EntityDataExt := mkEntityDataExt {
  ede_entity : string;
  ede_data : Object Value;
  ede_block_number : BlockNumber;
  ede_id : list Z;
  ede_vid : Z;
}.

Fixpoint bytes_cmp (a b : list Z) : comparison :=
  match a, b with
  | [], [] => Eq
  | [], _ => Lt
  | _, [] => Gt
  | x :: a, y :: b => match x ?= y with Eq => bytes_cmp a b | c => c end
  end.

Definition compare_entity_data_ext (a b : EntityDataExt) : comparison :=
  match ede_block_number a ?= ede_block_number b with
  | Eq => match String.compare (ede_entity a) (ede_entity b) with Eq => bytes_cmp (ede_id a) (ede_id b) | c => c end
  | c => c
  end.

(** What the server does: the cast of a text to bytes, the vid that it gives to
    a version without one, and sorting by block, entity and id *)
Class RangeServer := {
  text_to_bytea : string → outcome StoreError (list Z);
  serial_vid : Version → Z;
  order_rows : list EntityDataExt → list EntityDataExt;
}.

Section FindRange.
Context `{RangeServer}.

Definition id_bytea (i : Id) : outcome StoreError (list Z) :=
  match i with
  | IdString s => text_to_bytea s
  | IdBytes b => Ok b
  | IdInt8 i => text_to_bytea (i64_to_string i)
  end.

Definition version_vid (v : Version) : Z := match v_vid v with Some vid => vid | None => serial_vid v end.

(** The row that is selected for a version *)
Definition range_row (table : Table) (range : EntityBlockRange) (v : Version) : outcome StoreError (list EntityDataExt) :=
  match compare_column range v with
  | Some block => id ← id_bytea (v_id v); Ok [mkEntityDataExt (et_name (object table)) (v_data v) block id (version_vid v)]
  | None => Ok []
  end.

Fixpoint range_rows (table : Table) (range : EntityBlockRange) (vs : list Version) : outcome StoreError (list EntityDataExt) :=
  match vs with
  | [] => Ok []
  | v :: vs => row ← range_row table range v; rest ← range_rows table range vs; Ok (row ++ rest)
  end.

(** The select for one table.  The condition on the causality region follows
    the word [where] without a space, which the server does not parse. *)
Definition table_rows (table : Table) (cr : CausalityRegion) (bound_side : BoundSide) (from to : BlockNumber) (vs : list Version)
    : outcome StoreError (list EntityDataExt) :=
  let range := entity_block_range_new (immutable table) from to bound_side in
  contains ← entity_range_contains range;
  if has_causality_region table then Err (UnknownError "syntax error at or near wherecausality_region")
  else range_rows table range (filter (λ v, contains v = true) vs).

(** Immutable entities have no upper bound. *)
Definition in_query (bound_side : BoundSide) (table : Table) : bool :=
  match bound_side with SideLower => true | SideUpper => negb (immutable table) end.

Fixpoint union_rows (tables : list Table) (cr : CausalityRegion) (bound_side : BoundSide) (from to : BlockNumber) (db : DB)
    : outcome StoreError (list EntityDataExt) :=
  match tables with
  | [] => Ok []
  | table :: tables =>
      rws ← (if in_query bound_side table then table_rows table cr bound_side from to (db_versions db (object table)) else Ok []);
      rest ← union_rows tables cr bound_side from to db;
      Ok (rws ++ rest)
  end.

Definition find_range_query (tables : list Table) (cr : CausalityRegion) (bound_side : BoundSide) (from to : BlockNumber) (db : DB)
    : outcome StoreError (list EntityDataExt) :=
  rws ← union_rows tables cr bound_side from to db;
  Ok (order_rows rws).

(** ** [find_range] *)

Definition transform (ede : EntityDataExt) (entity_op : EntityOperationKind) : EntitySourceOperation * BlockNumber :=
  (mkEntityOperation entity_op (mkEntityType (ede_entity ede)) (ede_data ede) (ede_vid ede), ede_block_number ede).

(** The rows of both queries, side by side *)
Fixpoint merge_rows (lower : list EntityDataExt) : list EntityDataExt → list (EntityDataExt * EntityOperationKind) :=
  fix go (upper : list EntityDataExt) : list (EntityDataExt * EntityOperationKind) :=
    match lower, upper with
    | [], [] => []
    | l :: lower', [] => (l, OpCreate) :: merge_rows lower' []
    | [], u :: upper' => (u, OpDelete) :: go upper'
    | l :: lower', u :: upper' =>
        match compare_entity_data_ext l u with
        | Gt => (u, OpDelete) :: go upper'
        | Lt => (l, OpCreate) :: merge_rows lower' upper
        | Eq => (l, OpModify) :: merge_rows lower' upper'
        end
    end.

Definition push_operation (entities : gmap BlockNumber (list EntitySourceOperation)) (o : EntitySourceOperation * BlockNumber)
    : gmap BlockNumber (list EntitySourceOperation) :=
  let '(ewt, block) := o in
  match entities !! block with
  | Some vec => <[block := vec ++ [ewt]]> entities
  | None => <[block := [ewt]]> entities
  end.

Fixpoint range_tables (layout : Layout) (entity_types : list EntityType) : outcome StoreError (list Table) :=
  match entity_types with
  | [] => Ok []
  | et :: ets => table ← table_for_entity layout et; tables ← range_tables layout ets; Ok (table :: tables)
  end.

(** [db] and [db'] are the tables when the first and the second query run. *)
Definition find_range (layout : Layout) (entity_types : list EntityType) (cr : CausalityRegion) (from to : BlockNumber) (db db' : DB)
    : outcome StoreError (gmap BlockNumber (list EntitySourceOperation)) :=
  tables ← range_tables layout entity_types;
  lower_vec ← find_range_query tables cr SideLower from to db;
  upper_vec ← find_range_query tables cr SideUpper from to db';
  let entities := foldl push_operation ∅ ((λ '(ede, op), transform ede op) <$> merge_rows lower_vec upper_vec) in
  Ok (sort_by_key (λ o, Some (eso_vid o)) <$> entities).

End FindRange.
