(* ===== verification/SourceFacts.v ===== *)
(** * What a source subgraph tells about its entities

    [find_range] gives, for every block of a range, exactly the entities that
    the block has created, changed and removed, whatever the tables hold. *)

From Stdlib Require Import ZArith Lia ZifyBool.
From stdpp Require Import base gmap list sorting strings.
From S2P Require Import Prelude Values IdText Intern Entity Write Relational ReadFacts Deployment DataSource SourceRange.

Local Open Scope Z_scope.

(** ** The order of rows *)

Lemma bytes_cmp_eq a b : bytes_cmp a b = Eq ↔ a = b.
Proof.
  revert b. induction a as [|x a IH]; intros [|y b]; cbn; try done.
  destruct (Z.compare_spec x y) as [->|Hlt|Hlt]; [rewrite IH; naive_solver|..]; split; try done; intros [= ? ?]; lia.
Qed.

Lemma bytes_cmp_antisym a b : bytes_cmp b a = CompOpp (bytes_cmp a b).
Proof.
  revert b. induction a as [|x a IH]; intros [|y b]; cbn; try done. rewrite (Z.compare_antisym x y). by destruct (x ?= y); cbn.
Qed.

Lemma bytes_cmp_trans a b c : bytes_cmp a b = Lt → bytes_cmp b c = Lt → bytes_cmp a c = Lt.
Proof.
  revert b c. induction a as [|x a IH]; intros [|y b] [|z c]; cbn; try done.
  destruct (Z.compare_spec x y), (Z.compare_spec y z), (Z.compare_spec x z); try done; try lia. eauto.
Qed.

Lemma string_cmp_eq a b : String.compare a b = Eq ↔ a = b.
Proof.
  split; [apply String.compare_eq_iff|]. intros ->. induction b as [|x b IH]; [done|]. cbn. unfold Ascii.compare. by rewrite N.compare_refl.
Qed.

Lemma string_cmp_trans a b c : String.compare a b = Lt → String.compare b c = Lt → String.compare a c = Lt.
Proof.
  revert b c. induction a as [|x a IH]; intros [|y b] [|z c]; cbn; try done.
  unfold Ascii.compare.
  destruct (N.compare_spec (Ascii.N_of_ascii x) (Ascii.N_of_ascii y)), (N.compare_spec (Ascii.N_of_ascii y) (Ascii.N_of_ascii z)),
    (N.compare_spec (Ascii.N_of_ascii x) (Ascii.N_of_ascii z)); try done; try lia. eauto.
Qed.

Abbreviation row_cmp := compare_entity_data_ext.

Definition row_key_of (r : EntityDataExt) : BlockNumber * string * list Z := (ede_block_number r, ede_entity r, ede_id r).

Lemma row_cmp_eq a b : row_cmp a b = Eq ↔ row_key_of a = row_key_of b.
Proof.
  unfold compare_entity_data_ext, row_key_of. destruct (Z.compare_spec (ede_block_number a) (ede_block_number b)) as [->|?|?].
  - destruct (String.compare _ _) eqn:Hs.
    + apply string_cmp_eq in Hs. rewrite bytes_cmp_eq, Hs. split; [by intros ->|by intros [=]].
    + split; [done|]. intros [= He _]. apply string_cmp_eq in He. by rewrite He in Hs.
    + split; [done|]. intros [= He _]. apply string_cmp_eq in He. by rewrite He in Hs.
  - split; [done|]. intros [= ? _ _]. lia.
  - split; [done|]. intros [= ? _ _]. lia.
Qed.

Lemma row_cmp_antisym a b : row_cmp b a = CompOpp (row_cmp a b).
Proof.
  unfold compare_entity_data_ext. rewrite (Z.compare_antisym (ede_block_number a)). destruct (ede_block_number a ?= ede_block_number b); try done. cbn.
  rewrite (String.compare_antisym (ede_entity b) (ede_entity a)). destruct (String.compare (ede_entity a) (ede_entity b)); try done. cbn. apply bytes_cmp_antisym.
Qed.

Lemma row_cmp_trans a b c : row_cmp a b = Lt → row_cmp b c = Lt → row_cmp a c = Lt.
Proof.
  unfold compare_entity_data_ext.
  destruct (Z.compare_spec (ede_block_number a) (ede_block_number b)), (Z.compare_spec (ede_block_number b) (ede_block_number c)),
    (Z.compare_spec (ede_block_number a) (ede_block_number c)); try done; try lia.
  destruct (String.compare (ede_entity a) (ede_entity b)) eqn:Hab, (String.compare (ede_entity b) (ede_entity c)) eqn:Hbc; try done.
  - apply string_cmp_eq in Hab. rewrite Hab, Hbc. apply bytes_cmp_trans.
  - apply string_cmp_eq in Hab. by rewrite Hab, Hbc.
  - apply string_cmp_eq in Hbc. by rewrite <- Hbc, Hab.
  - by rewrite (string_cmp_trans _ _ _ Hab Hbc).
Qed.

(** ** Merging *)

Definition row_lt (a b : EntityDataExt) : Prop := row_cmp a b = Lt.

Definition has_row (rws : list EntityDataExt) (r : EntityDataExt) : Prop := row_key_of r ∈ row_key_of <$> rws.

#[local] Instance has_row_dec rws r : Decision (has_row rws r).
Proof. unfold has_row. apply _. Defined.

(** What the rows of the two queries say about a key *)
Definition paired (lower upper : list EntityDataExt) (e : EntityDataExt * EntityOperationKind) : Prop :=
  match e with
  | (r, OpCreate) => r ∈ lower ∧ ¬ has_row upper r
  | (r, OpModify) => r ∈ lower ∧ has_row upper r
  | (r, OpDelete) => r ∈ upper ∧ ¬ has_row lower r
  end.

Lemma later_not_in r rws : Forall (row_lt r) rws → ¬ has_row rws r ∧ ∀ r', r' ∈ rws → row_key_of r' ≠ row_key_of r.
Proof.
  rewrite Forall_forall. intros Hr. assert (∀ r', r' ∈ rws → row_key_of r' ≠ row_key_of r) as Hne.
  { intros r' Hin Heq. specialize (Hr r' Hin). unfold row_lt in Hr. symmetry in Heq. apply row_cmp_eq in Heq. by rewrite Heq in Hr. }
  split; [|done]. intros (r' & Heq & Hin)%list_elem_of_fmap. by apply (Hne r' Hin).
Qed.

Lemma has_row_cons r x rws : has_row (x :: rws) r ↔ row_key_of r = row_key_of x ∨ has_row rws r.
Proof. unfold has_row. by rewrite fmap_cons, elem_of_cons. Qed.

Lemma has_row_nil r : has_row [] r ↔ False.
Proof. unfold has_row. cbn. by rewrite elem_of_nil. Qed.

Lemma has_row_key rws r r' : row_key_of r = row_key_of r' → has_row rws r ↔ has_row rws r'.
Proof. unfold has_row. by intros ->. Qed.

Lemma all_later r x rws : row_lt r x → Forall (row_lt x) rws → Forall (row_lt r) (x :: rws).
Proof. intros Hx Hrws. constructor; [done|]. eapply Forall_impl; [exact Hrws|]. intros y. by apply row_cmp_trans. Qed.

Lemma row_pair_eq (r r' : EntityDataExt) (k k' : EntityOperationKind) : (r, k) = (r', k') ↔ r = r' ∧ k = k'.
Proof. split; [by intros [= -> ->]|by intros [-> ->]]. Qed.

Ltac by_row e :=
  let r := fresh "r" in
  destruct e as [r []]; cbn [paired]; rewrite ?row_pair_eq, ?elem_of_nil, ?elem_of_cons, ?has_row_cons, ?has_row_nil in *;
  repeat match goal with Hn : ∀ r', _ → row_key_of r' ≠ _ |- _ => specialize (Hn r) end;
  rewrite ?elem_of_cons in *; intuition (subst; first [congruence|tauto|auto]).

Lemma merge_paired lower upper e : StronglySorted row_lt lower → StronglySorted row_lt upper → e ∈ merge_rows lower upper ↔ paired lower upper e.
Proof.
  intros Hl. revert upper. induction Hl as [|l lower Hl IHl Hlf]; intros upper.
  { induction 1 as [|u upper Hu IHu Huf]; cbn [merge_rows]; rewrite ?elem_of_nil, ?elem_of_cons.
    - by_row e.
    - fold (merge_rows [] upper). rewrite IHu. by_row e. }
  apply later_not_in in Hlf as Hnl. destruct Hnl as [Hnl1 Hnl2]. induction 1 as [|u upper Hu IHu Huf].
  { cbn [merge_rows]. rewrite elem_of_cons, (IHl [] ltac:(constructor)). by_row e. }
  cbn [merge_rows]. apply later_not_in in Huf as Hnu. destruct Hnu as [Hnu1 Hnu2]. destruct (row_cmp l u) eqn:Hc; rewrite elem_of_cons.
  - rewrite IHl by done. apply row_cmp_eq in Hc. pose proof (has_row_key lower _ _ Hc). by_row e.
  - rewrite IHl by by constructor. pose proof (later_not_in _ _ (all_later l u upper Hc Huf)) as [Hn1 Hn2]. by_row e.
  - assert (row_lt u l) as Hc' by (unfold row_lt; by rewrite row_cmp_antisym, Hc).
    pose proof (later_not_in _ _ (all_later u l lower Hc' Hlf)) as [Hn1 Hn2]. fold (merge_rows (l :: lower) upper). rewrite IHu. by_row e.
Qed.

Lemma merge_nodup lower upper : StronglySorted row_lt lower → StronglySorted row_lt upper → NoDup (merge_rows lower upper).
Proof.
  intros Hl. revert upper. induction Hl as [|l lower Hl IHl Hlf]; intros upper.
  { induction 1 as [|u upper Hu IHu Huf]; cbn [merge_rows]; [constructor|]. fold (merge_rows [] upper). constructor; [|done].
    rewrite merge_paired by (done || constructor). intros [Hin _]. by apply later_not_in in Huf as [_ Hne]; apply (Hne u Hin). }
  apply later_not_in in Hlf as Hnl. destruct Hnl as [_ Hnl]. induction 1 as [|u upper Hu IHu Huf].
  { cbn [merge_rows]. constructor; [|apply IHl; constructor]. rewrite merge_paired by (done || constructor). intros [Hin _]. by apply (Hnl l Hin). }
  cbn [merge_rows]. apply later_not_in in Huf as Hnu. destruct Hnu as [_ Hnu]. destruct (row_cmp l u) eqn:Hc.
  - constructor; [|by apply IHl]. rewrite merge_paired by done. intros [Hin _]. by apply (Hnl l Hin).
  - constructor; [|apply IHl; by constructor]. rewrite merge_paired by (done || by constructor). intros [Hin _]. by apply (Hnl l Hin).
  - change (NoDup ((u, OpDelete) :: merge_rows (l :: lower) upper)). constructor; [|done]. rewrite merge_paired by (done || by constructor). intros [Hin _]. by apply (Hnu u Hin).
Qed.

(** ** Operations by block *)

Lemma push_all_lookup m l n :
  default [] (foldl push_operation m l !! n) = default [] (m !! n) ++ (fst <$> filter (λ o, o.2 = n) l) ∧
  (m !! n ≠ Some [] → foldl push_operation m l !! n ≠ Some []).
Proof.
  revert m. induction l as [|[o b] l IH]; intros m; cbn [foldl]; [by rewrite app_nil_r|].
  destruct (IH (push_operation m (o, b))) as [IH1 IH2]. rewrite IH1, filter_cons. cbn [snd].
  assert (default [] (push_operation m (o, b) !! n) = default [] (m !! n) ++ (if decide (b = n) then [o] else []) ∧
    (m !! n ≠ Some [] → push_operation m (o, b) !! n ≠ Some [])) as [Hp1 Hp2].
  { cbn. destruct (m !! b) as [vec|] eqn:Hb; destruct (decide (b = n)) as [->|Hne]; rewrite ?lookup_insert_eq, ?lookup_insert_ne, ?Hb, ?app_nil_r by done;
      cbn; (split; [done|]); try done. intros _ [= Hv]. by destruct vec. }
  split; [|auto]. rewrite Hp1, <- app_assoc. f_equal. by destruct (decide (b = n)).
Qed.

Lemma insert_by_key_perm {A} (key : A → option Z) x l : insert_by_key key x l ≡ₚ x :: l.
Proof. induction l as [|y l IH]; [done|]. cbn. destruct (match key x with Some _ => _ | None => _ end); [done|]. rewrite IH. apply Permutation_swap. Qed.

Lemma sort_by_key_perm {A} (key : A → option Z) l : sort_by_key key l ≡ₚ l.
Proof. unfold sort_by_key. induction l as [|x l IH]; [done|]. cbn. by rewrite insert_by_key_perm, IH. Qed.

Lemma sort_by_key_sorted {A} (key : A → Z) l : StronglySorted (λ a b, key a ≤ key b) (sort_by_key (λ x, Some (key x)) l).
Proof.
  unfold sort_by_key. induction l as [|x l IH]; [constructor|]. cbn. induction IH as [|y k Hk IHk Hy]; cbn; [by repeat constructor|].
  destruct (Z.leb_spec (key x) (key y)).
  - constructor; [by constructor|]. constructor; [done|]. eapply Forall_impl; [exact Hy|]. cbn. lia.
  - constructor; [done|]. rewrite insert_by_key_perm. constructor; [lia|done].
Qed.

(** ** The history of a table *)

(** What the server promises about sorting, for a database with the collation C *)
Class RangeServerSpec `{RangeServer} := {
  order_perm : ∀ rws, order_rows rws ≡ₚ rws;
  order_sorted : ∀ rws, StronglySorted (λ a b, row_cmp a b ≠ Gt) (order_rows rws);
}.

(** Two versions of an entity are never there at the same block. *)
Definition apart (v w : Version) : Prop := v_id v = v_id w → ∀ b, exists_at b v = true → exists_at b w = false.

Definition version_wf (table : Table) (v : Version) : Prop :=
  match v_block v with
  | BlockCol _ => immutable table = true
  | RangeCol (RRange l (Some u)) => immutable table = false ∧ l < u
  | RangeCol _ => immutable table = false
  end.

Definition history_ok (table : Table) (vs : list Version) : Prop := StronglySorted apart vs ∧ Forall (version_wf table) vs.

(** The version of an entity at a block *)
Definition version_at (b : BlockNumber) (id : Id) (vs : list Version) : option Version :=
  head (filter (λ v, v_id v = id ∧ exists_at b v = true) vs).

(** A version that began at a block *)
Definition starts_at (n : BlockNumber) (v : Version) : bool := exists_at n v && negb (exists_at (n - 1) v).

(** What block [n] has done to an entity *)
Definition change (n : BlockNumber) (vs : list Version) (id : Id) : option (Version * EntityOperationKind) :=
  match version_at (n - 1) id vs, version_at n id vs with
  | None, None => None
  | None, Some v => Some (v, OpCreate)
  | Some v, None => Some (v, OpDelete)
  | Some _, Some v => if starts_at n v then Some (v, OpModify) else None
  end.

Lemma version_at_Some b id vs v : StronglySorted apart vs → version_at b id vs = Some v ↔ v ∈ vs ∧ v_id v = id ∧ exists_at b v = true.
Proof.
  intros Hs. unfold version_at. induction Hs as [|w vs Hs IH Hw]; [cbn; set_solver|]. rewrite filter_cons. case_decide as Hd.
  - cbn. split; [intros [= <-]; set_solver|]. intros ([->|Hv]%elem_of_cons & Hid & Hb); [done|].
    rewrite Forall_forall in Hw. destruct Hd as [Hwid Hwb]. specialize (Hw v Hv ltac:(congruence) b Hwb). congruence.
  - rewrite IH, elem_of_cons. naive_solver.
Qed.

Lemma version_at_None b id vs : version_at b id vs = None ↔ ∀ v, v ∈ vs → v_id v = id → exists_at b v = false.
Proof.
  unfold version_at. induction vs as [|w vs IH]; [cbn; set_solver|]. rewrite filter_cons. case_decide as Hd.
  - cbn. split; [done|]. intros Hv. destruct Hd as [Hid Hb]. by rewrite (Hv w ltac:(by left) Hid) in Hb.
  - rewrite IH. split; intros Hv v; [|intros Hin; apply Hv; by right]. intros [->|Hin]%elem_of_cons Hid; [|by apply Hv].
    destruct (exists_at b w) eqn:Hb; [|done]. by destruct Hd.
Qed.

Definition ends_at (n : BlockNumber) (v : Version) : bool := exists_at (n - 1) v && negb (exists_at n v).

(** The columns that the queries compare *)
Lemma lower_column table from to v n : version_wf table v →
  compare_column (entity_block_range_new (immutable table) from to SideLower) v = Some n ↔ starts_at n v = true.
Proof.
  unfold version_wf, entity_block_range_new, compare_column, starts_at, exists_at. destruct (v_block v) as [b|[|l [u|]]] eqn:Hb.
  - intros ->. cbn. split; [intros [= <-]; lia|intros Hn; f_equal; lia].
  - intros ->. cbn. by destruct (immutable table).
  - intros [-> Hlu]. cbn.  split; [intros [= <-]; lia|intros Hn; f_equal; lia].
  - intros ->. cbn.  split; [intros [= <-]; lia|intros Hn; f_equal; lia].
Qed.

Lemma upper_column table from to v n : version_wf table v →
  (in_query SideUpper table = true ∧ compare_column (entity_block_range_new (immutable table) from to SideUpper) v = Some n) ↔ ends_at n v = true.
Proof.
  unfold version_wf, entity_block_range_new, compare_column, ends_at, exists_at, in_query. destruct (v_block v) as [b|[|l [u|]]] eqn:Hb.
  - intros ->. cbn. split; [by intros []|lia].
  - intros ->. cbn. by split; [intros []|].
  - intros [-> Hlu]. cbn.  split; [intros [_ [= <-]]; lia|intros Hn; split; [done|f_equal; lia]].
  - intros ->. cbn.  split; [by intros []|lia].
Qed.

Lemma starts_at_true n v : starts_at n v = true ↔ exists_at n v = true ∧ exists_at (n - 1) v = false.
Proof. unfold starts_at. by rewrite andb_true_iff, negb_true_iff. Qed.
Lemma ends_at_true n v : ends_at n v = true ↔ exists_at (n - 1) v = true ∧ exists_at n v = false.
Proof. unfold ends_at. by rewrite andb_true_iff, negb_true_iff. Qed.

Lemma both_versions n id vs u w : StronglySorted apart vs → version_at (n - 1) id vs = Some u → version_at n id vs = Some w →
  starts_at n w = true ↔ ends_at n u = true.
Proof.
  intros Hs Hu Hw. pose proof (proj1 (version_at_Some _ _ _ _ Hs) Hu) as (Hu1 & Hu2 & Hu3).
  pose proof (proj1 (version_at_Some _ _ _ _ Hs) Hw) as (Hw1 & Hw2 & Hw3). rewrite starts_at_true, ends_at_true. split; intros [Hx Hy]; (split; [done|]).
  - destruct (exists_at n u) eqn:Hn; [|done]. assert (version_at n id vs = Some u) by (by apply version_at_Some). congruence.
  - destruct (exists_at (n - 1) w) eqn:Hn; [|done]. assert (version_at (n - 1) id vs = Some w) by (by apply version_at_Some). congruence.
Qed.

(** What happens to an entity, by the versions that begin and end *)
Lemma change_spec n vs id v k : StronglySorted apart vs →
  change n vs id = Some (v, k) ↔ v ∈ vs ∧ v_id v = id ∧
    match k with
    | OpCreate => starts_at n v = true ∧ ∀ w, w ∈ vs → v_id w = id → ends_at n w = false
    | OpModify => starts_at n v = true ∧ ∃ w, w ∈ vs ∧ v_id w = id ∧ ends_at n w = true
    | OpDelete => ends_at n v = true ∧ ∀ w, w ∈ vs → v_id w = id → starts_at n w = false
    end.
Proof.
  intros Hs.
  assert (∀ x, x ∈ vs → v_id x = id → starts_at n x = true → version_at n id vs = Some x) as Hst
    by (intros x Hx Hi [Hb _]%starts_at_true; by apply version_at_Some).
  assert (∀ x, x ∈ vs → v_id x = id → ends_at n x = true → version_at (n - 1) id vs = Some x) as Hen
    by (intros x Hx Hi [Hb _]%ends_at_true; by apply version_at_Some).
  unfold change. destruct (version_at (n - 1) id vs) as [u|] eqn:Hu, (version_at n id vs) as [w|] eqn:Hw.
  - pose proof (proj1 (version_at_Some _ _ _ _ Hs) Hu) as (Hu1 & Hu2 & Hu3). pose proof (proj1 (version_at_Some _ _ _ _ Hs) Hw) as (Hw1 & Hw2 & Hw3).
    pose proof (both_versions n id vs u w Hs Hu Hw) as Hiff. destruct (starts_at n w) eqn:Hsw.
    + assert (ends_at n u = true) as Heu by by apply Hiff. split; [intros [= <- <-]; eauto 10|]. intros (Hv1 & Hv2 & Hk). destruct k.
      * destruct Hk as [_ He]. by rewrite (He u Hu1 Hu2) in Heu.
      * destruct Hk as [Hv _]. by injection (Hst v Hv1 Hv2 Hv) as ->.
      * destruct Hk as [_ He]. by rewrite (He w Hw1 Hw2) in Hsw.
    + split; [done|]. intros (Hv1 & Hv2 & Hk). destruct k; destruct Hk as [Hv _].
      1, 2: injection (Hst v Hv1 Hv2 Hv) as ->; congruence.
      injection (Hen v Hv1 Hv2 Hv) as ->. apply Hiff in Hv. congruence.
  - pose proof (proj1 (version_at_Some _ _ _ _ Hs) Hu) as (Hu1 & Hu2 & Hu3). rewrite version_at_None in Hw.
    assert (ends_at n u = true) as Heu by (apply ends_at_true; auto).
    assert (∀ x, x ∈ vs → v_id x = id → starts_at n x = false) as Hns.
    { intros x Hx Hi. destruct (starts_at n x) eqn:Hsx; [|done]. by specialize (Hst x Hx Hi Hsx). }
    split; [intros [= <- <-]; eauto|]. intros (Hv1 & Hv2 & Hk). destruct k; destruct Hk as [Hv _].
    1, 2: by rewrite (Hns v Hv1 Hv2) in Hv. by injection (Hen v Hv1 Hv2 Hv) as ->.
  - pose proof (proj1 (version_at_Some _ _ _ _ Hs) Hw) as (Hw1 & Hw2 & Hw3). rewrite version_at_None in Hu.
    assert (starts_at n w = true) as Hsw by (apply starts_at_true; auto).
    assert (∀ x, x ∈ vs → v_id x = id → ends_at n x = false) as Hne.
    { intros x Hx Hi. destruct (ends_at n x) eqn:Hex; [|done]. by specialize (Hen x Hx Hi Hex). }
    split; [intros [= <- <-]; eauto|]. intros (Hv1 & Hv2 & Hk). destruct k; destruct Hk as [Hv Hk].
    + by injection (Hst v Hv1 Hv2 Hv) as ->.
    + destruct Hk as (x & Hx & Hi & Hex). by rewrite (Hne x Hx Hi) in Hex.
    + by rewrite (Hne v Hv1 Hv2) in Hv.
  - split; [done|]. intros (Hv1 & Hv2 & Hk). destruct k; destruct Hk as [Hv _]; [by specialize (Hst v Hv1 Hv2 Hv)..|by specialize (Hen v Hv1 Hv2 Hv)].
Qed.

(** ** The rows of the queries *)

Section Rows.
Context `{RS : RangeServer}.
Context (from to : BlockNumber).
Implicit Types (table : Table) (v w : Version) (vs : list Version) (side : BoundSide).

Definition id_bytes (i : Id) : list Z := match id_bytea i with Ok b => b | _ => [] end.

Definition row_of table (n : BlockNumber) v : EntityDataExt :=
  mkEntityDataExt (et_name (object table)) (v_data v) n (id_bytes (v_id v)) (version_vid v).

(** All ids of a table have different bytes *)
Definition casts_ok vs : Prop :=
  (∀ v, v ∈ vs → ∃ b, id_bytea (v_id v) = Ok b) ∧ ∀ v w, v ∈ vs → w ∈ vs → id_bytes (v_id v) = id_bytes (v_id w) → v_id v = v_id w.

Definition touches side (n : BlockNumber) v : bool := match side with SideLower => starts_at n v | SideUpper => ends_at n v end.

Definition side_rows side table vs : list EntityDataExt :=
  let range := entity_block_range_new (immutable table) from to side in
  if in_query side table then
    omap (λ v, b ← compare_column range v; if (from <=? b) && (b <=? to) then Some (row_of table b v) else None) vs
  else [].

Lemma side_rows_elem side table vs r : Forall (version_wf table) vs →
  r ∈ side_rows side table vs ↔ ∃ v n, v ∈ vs ∧ touches side n v = true ∧ from ≤ n ≤ to ∧ r = row_of table n v.
Proof.
  intros Hwf. rewrite Forall_forall in Hwf. unfold side_rows. assert (∀ v n, v ∈ vs →
    (in_query side table = true ∧ compare_column (entity_block_range_new (immutable table) from to side) v = Some n) ↔ touches side n v = true) as Hcol.
  { intros v n Hv. destruct side; cbn [touches]; [|apply upper_column; auto]. rewrite <- (lower_column table from to) by auto. by split; [intros []|]. }
  destruct (in_query side table) eqn:Hq.
  - rewrite list_elem_of_omap. split.
    + intros (v & Hv & Hb). apply bind_Some in Hb as (n & Hn & Hb). destruct ((from <=? n) && (n <=? to)) eqn:Hin; [|done]. injection Hb as <-.
      exists v, n. split_and!; [done|by apply Hcol|lia|lia|done].
    + intros (v & n & Hv & Ht & Hin & ->). exists v. split; [done|]. apply Hcol in Ht as [_ ->]; [|done]. cbn.
      replace ((from <=? n) && (n <=? to)) with true by lia. done.
  - split; [set_solver|]. intros (v & n & Hv & Ht & _). apply Hcol in Ht as [? _]; done.
Qed.

Lemma touches_apart side n v w : apart v w → v_id v = v_id w → touches side n v = true → touches side n w = false.
Proof.
  intros Ha Hid. destruct side; cbn; intros Hv; apply not_true_iff_false; intros Hw.
  - apply starts_at_true in Hv as [Hv _], Hw as [Hw _]. specialize (Ha Hid n Hv). congruence.
  - apply ends_at_true in Hv as [Hv _], Hw as [Hw _]. specialize (Ha Hid (n - 1) Hv). congruence.
Qed.

Lemma side_rows_cons side table v vs :
  side_rows side table (v :: vs) = side_rows side table [v] ++ side_rows side table vs.
Proof. unfold side_rows. destruct (in_query side table); [|done]. cbn. by destruct (_ ≫= _). Qed.

Lemma side_rows_nodup side table vs : history_ok table vs → casts_ok vs → NoDup (row_key_of <$> side_rows side table vs).
Proof.
  intros [Hs Hwf] [_ Hinj]. induction Hs as [|v vs Hs IH Hv]; [unfold side_rows; destruct (in_query side table); constructor|].
  apply Forall_cons in Hwf as [Hwv Hwf]. rewrite side_rows_cons, fmap_app. apply NoDup_app. split_and!.
  - unfold side_rows. destruct (in_query side table); [|constructor]. cbn. destruct (_ ≫= _); [apply NoDup_singleton|constructor].
  - intros k (r & -> & Hr)%list_elem_of_fmap (r' & Heq & Hr')%list_elem_of_fmap. apply side_rows_elem in Hr as (v' & n & Hv' & Ht & _ & ->); [|by constructor].
    apply side_rows_elem in Hr' as (w & m & Hw & Ht' & _ & ->); [|done]. apply list_elem_of_singleton in Hv' as ->.
    injection Heq as -> Heq. rewrite Forall_forall in Hv. assert (v_id v = v_id w) as Hid by (apply Hinj; [by left|by right|done]).
    rewrite (touches_apart side m v w (Hv w Hw) Hid Ht) in Ht'. done.
  - apply IH; [done|]. intros x y Hx Hy. apply Hinj; by right.
Qed.

Lemma range_rows_ok table range vs : (∀ v, v ∈ vs → ∃ b, id_bytea (v_id v) = Ok b) →
  range_rows table range vs = Ok (omap (λ v, (λ b, row_of table b v) <$> compare_column range v) vs).
Proof.
  induction vs as [|v vs IH]; intros Hc; [done|]. cbn [range_rows]. rewrite IH by (intros w Hw; apply Hc; by right).
  unfold range_row. cbn. destruct (compare_column range v) as [b|]; [|done]. cbn. destruct (Hc v ltac:(by left)) as [bs Hb]. unfold row_of, id_bytes. by rewrite Hb.
Qed.

Lemma omap_filter_rows table range (f : BlockNumber → bool) vs :
  omap (λ v, (λ b, row_of table b v) <$> compare_column range v)
    (filter (λ v, match compare_column range v with Some b => f b | None => false end = true) vs) =
  omap (λ v, b ← compare_column range v; if f b then Some (row_of table b v) else None) vs.
Proof.
  induction vs as [|v vs IH]; [done|]. rewrite filter_cons. case_decide as Hd; cbn; destruct (compare_column range v) as [b|] eqn:Hc; cbn; try done.
  - rewrite Hd, IH. done.
  - destruct (f b); [by destruct Hd|done].
Qed.

Lemma table_rows_ok side table cr vs : has_causality_region table = false → casts_ok vs →
  (if in_query side table then table_rows table cr side from to vs else Ok []) = Ok (side_rows side table vs).
Proof.
  intros Hcr [Hc _]. unfold side_rows. destruct (in_query side table); [|done]. unfold table_rows. rewrite Hcr.
  assert (entity_range_contains (entity_block_range_new (immutable table) from to side) =
    Ok (λ v, match compare_column (entity_block_range_new (immutable table) from to side) v with Some b => (from <=? b) && (b <=? to) | None => false end)) as ->
    by (unfold entity_range_contains, entity_block_range_new; by destruct (immutable table)).
  cbn [mbind outcome_bind]. rewrite range_rows_ok; [by rewrite (omap_filter_rows table _ (λ b, (from <=? b) && (b <=? to)))|].
  intros v [_ Hv]%list_elem_of_filter. auto.
Qed.

End Rows.

(** ** Several tables *)

Lemma NoDup_omap_inj {A B} (f : A → option B) (l : list A) :
  NoDup l → (∀ x y b, x ∈ l → y ∈ l → f x = Some b → f y = Some b → x = y) → NoDup (omap f l).
Proof.
  induction 1 as [|x l Hx Hl IH]; intros Hf; [constructor|]. cbn.
  assert (NoDup (omap f l)) as Hnd by (apply IH; intros y z b Hy Hz; apply Hf; by right).
  destruct (f x) as [b|] eqn:Hb; [|done]. constructor; [|done]. intros (y & Hy & Hyb)%list_elem_of_omap.
  assert (x = y) as -> by (eapply Hf; [by left|by right|done..]). done.
Qed.

Lemma NoDup_bind_by {A B K} (f : A → list B) (tag : A → K) (owner : B → K) (l : list A) :
  NoDup (tag <$> l) → (∀ x, x ∈ l → NoDup (f x) ∧ ∀ b, b ∈ f x → owner b = tag x) → NoDup (l ≫= f).
Proof.
  induction l as [|x l IH]; intros Hn Hf; [constructor|]. cbn. apply NoDup_cons in Hn as [Hx Hn]. apply NoDup_app.
  destruct (Hf x ltac:(by left)) as [Hnd Htag]. split_and!; [done| |apply IH; [done|]; intros y Hy; apply Hf; by right].
  intros b Hb (y & Hby & Hy)%list_elem_of_bind. destruct (Hf y ltac:(by right)) as [_ Hty].
  apply Hx, list_elem_of_fmap. exists y. split; [|done]. rewrite <- (Htag b Hb). by apply Hty.
Qed.

Lemma fmap_bind_list {A B C} (g : B → C) (f : A → list B) (l : list A) : g <$> (l ≫= f) = l ≫= λ x, g <$> f x.
Proof. induction l as [|x l IH]; [done|]. cbn. rewrite fmap_app. f_equal. apply IH. Qed.

Lemma strictly_sorted rws : StronglySorted (λ a b, row_cmp a b ≠ Gt) rws → NoDup (row_key_of <$> rws) → StronglySorted row_lt rws.
Proof.
  induction 1 as [|r rws Hs IH Hr]; [constructor|]. intros [Hn Hnd]%NoDup_cons. constructor; [by apply IH|].
  rewrite Forall_forall in Hr |- *. intros r' Hr'. specialize (Hr r' Hr'). unfold row_lt. destruct (row_cmp r r') eqn:Hc; [|done..].
  apply row_cmp_eq in Hc. destruct Hn. apply list_elem_of_fmap. eauto.
Qed.

Section Tables.
Context `{RS : RangeServer}.
Context (from to : BlockNumber) (db : gmap EntityType (list Version)) (tables : list Table).
Implicit Types (table : Table) (v w : Version) (side : BoundSide).

Definition versions_of table : list Version := db_versions db (object table).

Context (Hnames : NoDup ((λ table, et_name (object table)) <$> tables)).
Context (Htables : ∀ table, table ∈ tables → has_causality_region table = false ∧ history_ok table (versions_of table) ∧ casts_ok (versions_of table)).

Definition all_rows side : list EntityDataExt := tables ≫= λ table, side_rows from to side table (versions_of table).

Lemma same_table table table' : table ∈ tables → table' ∈ tables → et_name (object table) = et_name (object table') → table = table'.
Proof using Hnames.
  intros [i Hi]%list_elem_of_lookup [j Hj]%list_elem_of_lookup Heq.
  assert (i = j) as -> by (eapply NoDup_lookup; [exact Hnames|..]; rewrite list_lookup_fmap, ?Hi, ?Hj; cbn; by f_equal). congruence.
Qed.

Lemma all_rows_elem side r : r ∈ all_rows side ↔
  ∃ table v n, table ∈ tables ∧ v ∈ versions_of table ∧ touches side n v = true ∧ from ≤ n ≤ to ∧ r = row_of table n v.
Proof using Htables.
  unfold all_rows. rewrite list_elem_of_bind. split.
  - intros (table & Hr & Ht). destruct (Htables table Ht) as (_ & [_ Hwf] & _). apply side_rows_elem in Hr as (v & n & ?); [|done]. naive_solver.
  - intros (table & v & n & Ht & ?). destruct (Htables table Ht) as (_ & [_ Hwf] & _). exists table. split; [|done]. apply side_rows_elem; [done|]. eauto.
Qed.

Lemma all_rows_nodup side : NoDup (row_key_of <$> all_rows side).
Proof using Hnames Htables.
  unfold all_rows. rewrite fmap_bind_list. apply (NoDup_bind_by _ (λ table, et_name (object table)) (λ k, k.1.2)); [done|].
  intros table Ht. destruct (Htables table Ht) as (_ & Hh & Hc). split; [by apply side_rows_nodup|].
  intros k (r & -> & Hr)%list_elem_of_fmap. destruct Hh as [_ Hwf]. by apply side_rows_elem in Hr as (v & n & _ & _ & _ & ->).
Qed.

Lemma union_rows_ok side cr : union_rows tables cr side from to db = Ok (all_rows side).
Proof using Htables.
  unfold all_rows. clear Hnames. induction tables as [|table ts IH]; [done|]. cbn [union_rows].
  destruct (Htables table ltac:(by left)) as (Hcr & _ & Hc). unfold versions_of in *.
  rewrite table_rows_ok by done. cbn [mbind outcome_bind]. rewrite IH by (intros t Ht; apply Htables; by right). done.
Qed.

(** ** What the merged rows say *)

Lemma has_row_all side table v n : table ∈ tables → v ∈ versions_of table → from ≤ n ≤ to →
  has_row (all_rows side) (row_of table n v) ↔ ∃ w, w ∈ versions_of table ∧ v_id w = v_id v ∧ touches side n w = true.
Proof using Hnames Htables.
  intros Ht Hv Hn. unfold has_row. rewrite list_elem_of_fmap. split.
  - intros (r & Heq & (table' & w & m & Ht' & Hw & Htou & _ & ->)%all_rows_elem). injection Heq as -> Hname Hid.
    assert (table = table') as <- by by apply same_table. exists w. split_and!; [done| |done].
    destruct (Htables table Ht) as (_ & _ & [_ Hinj]). symmetry. by apply Hinj.
  - intros (w & Hw & Hid & Htou). exists (row_of table n w). split; [unfold row_of, row_key_of; cbn; by rewrite Hid|].
    apply all_rows_elem. eauto 10.
Qed.

Lemma paired_changes r k : paired (all_rows SideLower) (all_rows SideUpper) (r, k) ↔
  ∃ table n v, table ∈ tables ∧ from ≤ n ≤ to ∧ change n (versions_of table) (v_id v) = Some (v, k) ∧ r = row_of table n v.
Proof using Hnames Htables.
  assert (∀ table, table ∈ tables → StronglySorted apart (versions_of table)) as Hs by (intros table Ht; by destruct (Htables table Ht) as (_ & [? _] & _)).
  split.
  - destruct k; cbn [paired]; intros [Hr Hh]; apply all_rows_elem in Hr as (table & v & n & Ht & Hv & Htou & Hn & ->);
      rewrite (has_row_all _ table v n) in Hh by done; exists table, n, v;
      (split; [done|]; split; [done|]; split; [|done]); (apply change_spec; [auto|]); (split; [done|]; split; [done|]; split; [done|]).
    + intros w Hw Hid. apply not_true_iff_false. intros He. apply Hh. eauto.
    + exact Hh.
    + intros w Hw Hid. apply not_true_iff_false. intros He. apply Hh. eauto.
  - intros (table & n & v & Ht & Hn & Hch & ->). apply change_spec in Hch as (Hv & _ & Hk); [|auto].
    destruct k; destruct Hk as [Htou Hk]; cbn [paired]; rewrite all_rows_elem, (has_row_all _ table v n) by done; (split; [eauto 10|]); [..|done|].
    + intros (w & Hw & Hid & He). cbn in He. by rewrite (Hk w Hw Hid) in He.
    + intros (w & Hw & Hid & He). cbn in He. by rewrite (Hk w Hw Hid) in He.
Qed.

(** ** The changes of a block *)

(** What block [n] has done to the entities of a table *)
Definition changed_rows (n : BlockNumber) table : list (EntityDataExt * EntityOperationKind) :=
  omap (λ id, (λ '(v, k), (row_of table n v, k)) <$> change n (versions_of table) id) (remove_dups (v_id <$> versions_of table)).

Lemma changed_rows_elem n table r k : table ∈ tables → (r, k) ∈ changed_rows n table ↔
  ∃ v, change n (versions_of table) (v_id v) = Some (v, k) ∧ r = row_of table n v.
Proof using Htables.
  intros Ht. assert (StronglySorted apart (versions_of table)) as Hs by (by destruct (Htables table Ht) as (_ & [? _] & _)).
  unfold changed_rows. rewrite list_elem_of_omap. split.
  - intros (id & _ & Hid). destruct (change n (versions_of table) id) as [[v k']|] eqn:Hc; [|done]. injection Hid as <- <-.
    exists v. split; [|done]. pose proof Hc as (_ & <- & _)%change_spec; done.
  - intros (v & Hc & ->). exists (v_id v). rewrite Hc. split; [|done]. apply change_spec in Hc as (Hv & _); [|done].
    apply elem_of_remove_dups, list_elem_of_fmap. eauto.
Qed.

Lemma changed_rows_nodup n : NoDup (tables ≫= changed_rows n).
Proof using Hnames Htables.
  apply (NoDup_bind_by _ (λ table, et_name (object table)) (λ e, ede_entity e.1)); [done|]. intros table Ht. split.
  - destruct (Htables table Ht) as (_ & [Hs _] & [_ Hinj]). apply NoDup_omap_inj; [apply NoDup_remove_dups|]. intros x y [r k] _ _ Hx Hy.
    destruct (change n _ x) as [[v kx]|] eqn:Hcx; [|done]. destruct (change n _ y) as [[w ky]|] eqn:Hcy; [|done]. cbn in Hx, Hy. simplify_eq.
    apply change_spec in Hcx as (Hv & <- & _); [|done]. apply change_spec in Hcy as (Hw & <- & _); [|done]. by apply Hinj.
  - intros [r k] Hr. apply changed_rows_elem in Hr as (v & _ & ->); done.
Qed.

End Tables.

(** ** [find_range] *)

Section FindRangeSpec.
Context `{RS : RangeServer} `{RSS : !RangeServerSpec}.
Context (layout : gmap EntityType Table).
Implicit Types (db : gmap EntityType (list Version)) (ets : list EntityType).

(** What block [n] has done to the entities of a type *)
Definition entity_changes db (n : BlockNumber) (t : EntityType) : list EntitySourceOperation :=
  omap (λ id, (λ '(v, k), mkEntityOperation k t (v_data v) (version_vid v)) <$> change n (db_versions db t) id)
    (remove_dups (v_id <$> db_versions db t)).

Definition sourceable db (t : EntityType) : Prop :=
  ∃ table, layout !! t = Some table ∧ object table = t ∧ has_causality_region table = false ∧
    history_ok table (db_versions db t) ∧ casts_ok (db_versions db t).

(** Versions that end in a range *)
Definition ended_in (from to : BlockNumber) (v : Version) : bool :=
  match v_block v with RangeCol r => match range_upper r with Some u => (from <=? u) && (u <=? to) | None => false end | BlockCol _ => false end.

Lemma sourceable_tables db ets : Forall (sourceable db) ets →
  ∃ tables, range_tables layout ets = Ok tables ∧ object <$> tables = ets ∧
    ∀ table, table ∈ tables → has_causality_region table = false ∧ history_ok table (versions_of db table) ∧ casts_ok (versions_of db table).
Proof.
  induction 1 as [|t ets (table & Hl & Ho & Hcr & Hh & Hc) _ (tables & Hr & Hobj & Ht)]; [exists []; set_solver|].
  exists (table :: tables). cbn. unfold table_for_entity. rewrite Hl, Hr. cbn. rewrite Ho, Hobj. split_and!; [done..|].
  intros table' [->|Hin]%elem_of_cons; [|by apply Ht]. unfold versions_of. by rewrite Ho.
Qed.

Lemma union_rows_stable db db' tables cr from to :
  (∀ table, table ∈ tables → filter (λ v, ended_in from to v = true) (db_versions db' (object table)) =
                             filter (λ v, ended_in from to v = true) (db_versions db (object table))) →
  union_rows tables cr SideUpper from to db' = union_rows tables cr SideUpper from to db.
Proof.
  induction tables as [|table tables IH]; intros Hst; [done|]. cbn [union_rows]. rewrite IH by (intros t Ht; apply Hst; by right).
  unfold in_query. destruct (immutable table) eqn:Him; [done|]. cbn [negb]. f_equal. unfold table_rows, entity_range_contains. rewrite Him. cbn.
  destruct (has_causality_region table); [done|]. f_equal.
  assert (∀ vs : list Version, filter (λ v, match compare_column (MutableRange (mkBlockBounds (Included from) (Excluded to)) SideUpper) v with
    Some b => (from <=? b) && (b <=? to) | None => false end = true) vs = filter (λ v, ended_in from to v = true) vs) as Hf.
  { intros vs. apply list_filter_iff. intros v. unfold ended_in, compare_column. by destruct (v_block v). }
  rewrite !Hf. apply Hst. by left.
Qed.

Lemma changed_operations db n tables :
  (λ '(ede, op), (transform ede op).1) <$> (tables ≫= changed_rows db n) = (object <$> tables) ≫= entity_changes db n.
Proof.
  rewrite fmap_bind_list, list_fmap_bind. apply list_bind_ext; [|done]. intros table. unfold changed_rows, entity_changes, versions_of. cbn.
  generalize (remove_dups (v_id <$> db_versions db (object table))). intros ids. induction ids as [|id ids IH]; [done|]. cbn.
  destruct (change n (db_versions db (object table)) id) as [[v k]|]; cbn; [|done]. f_equal; [|done]. by destruct (object table).
Qed.

Lemma operations_at n (M : list (EntityDataExt * EntityOperationKind)) :
  fst <$> filter (λ o : EntitySourceOperation * BlockNumber, o.2 = n) ((λ '(ede, op), transform ede op) <$> M) =
  (λ '(ede, op), (transform ede op).1) <$> filter (λ e, ede_block_number e.1 = n) M.
Proof. induction M as [|[r k] M IH]; [done|]. cbn [fmap list_fmap]. rewrite !filter_cons. cbn. case_decide; cbn; by rewrite IH. Qed.

Lemma merged_changes from to db tables (Hnames : NoDup ((λ table, et_name (object table)) <$> tables))
    (Ht : ∀ table, table ∈ tables → has_causality_region table = false ∧ history_ok table (versions_of db table) ∧ casts_ok (versions_of db table)) n :
  filter (λ e, ede_block_number e.1 = n)
    (merge_rows (order_rows (all_rows from to db tables SideLower)) (order_rows (all_rows from to db tables SideUpper))) ≡ₚ
  (if bool_decide (from ≤ n ≤ to) then tables ≫= changed_rows db n else []).
Proof using RSS.
  assert (∀ side, StronglySorted row_lt (order_rows (all_rows from to db tables side))) as Hsort.
  { intros side. apply strictly_sorted; [apply order_sorted|]. rewrite order_perm. by apply all_rows_nodup. }
  apply NoDup_Permutation.
  - by apply NoDup_filter, merge_nodup.
  - case_bool_decide; [by apply changed_rows_nodup|constructor].
  - intros [r k]. rewrite list_elem_of_filter, merge_paired by done.
    assert (paired (order_rows (all_rows from to db tables SideLower)) (order_rows (all_rows from to db tables SideUpper)) (r, k) ↔
            paired (all_rows from to db tables SideLower) (all_rows from to db tables SideUpper) (r, k)) as ->.
    { destruct k; cbn; unfold has_row; by rewrite !order_perm. }
    rewrite paired_changes by done. cbn [fst]. split.
    + intros (<- & table & m & v & Hin & Hn & Hc & ->). cbn. rewrite bool_decide_eq_true_2 by done. apply list_elem_of_bind.
      exists table. split; [|done]. apply changed_rows_elem with tables; eauto.
    + case_bool_decide; [|set_solver]. intros (table & Hr & Hin)%list_elem_of_bind. eapply changed_rows_elem in Hr as (v & Hc & ->); [|done..].
      split; [done|]. eauto 10.
Qed.

Lemma find_range_ok ets cr from to db db' :
  NoDup ets → Forall (sourceable db) ets →
  (∀ t, t ∈ ets → filter (λ v, ended_in from to v = true) (db_versions db' t) = filter (λ v, ended_in from to v = true) (db_versions db t)) →
  ∃ ops, find_range layout ets cr from to db db' = Ok ops ∧
    ∀ n, default [] (ops !! n) ≡ₚ (if bool_decide (from ≤ n ≤ to) then ets ≫= entity_changes db n else []) ∧
      StronglySorted (λ a b, eso_vid a ≤ eso_vid b) (default [] (ops !! n)) ∧ ops !! n ≠ Some [].
Proof using RSS.
  intros Hnd Hsrc Hst. destruct (sourceable_tables db ets Hsrc) as (tables & Hr & Hobj & Ht).
  assert (NoDup ((λ table, et_name (object table)) <$> tables)) as Hnames.
  { rewrite (list_fmap_compose object et_name), Hobj. apply NoDup_fmap_2; [|done]. intros [x] [y]. cbn. by intros ->. }
  unfold find_range, find_range_query. rewrite Hr. cbn [mbind outcome_bind]. rewrite (union_rows_ok from to db tables) by done. cbn [mbind outcome_bind].
  rewrite (union_rows_stable db db') by (intros table Hin; apply Hst; rewrite <- Hobj; by apply list_elem_of_fmap_2).
  rewrite (union_rows_ok from to db tables) by done. cbn [mbind outcome_bind]. eexists. split; [done|]. intros n.
  rewrite lookup_fmap.
  set (M := merge_rows (order_rows (all_rows from to db tables SideLower)) (order_rows (all_rows from to db tables SideUpper))).
  destruct (push_all_lookup ∅ ((λ '(ede, op), transform ede op) <$> M) n) as [Hops Hne]. specialize (Hne ltac:(done)).
  rewrite lookup_empty, operations_at in Hops. cbn [default app] in Hops.
  assert (default [] (foldl push_operation ∅ ((λ '(ede, op), transform ede op) <$> M) !! n) ≡ₚ
    (if bool_decide (from ≤ n ≤ to) then ets ≫= entity_changes db n else [])) as Hp.
  { rewrite Hops. unfold M. rewrite (merged_changes from to db tables Hnames Ht n). case_bool_decide; [|done]. by rewrite changed_operations, Hobj. }
  destruct (foldl push_operation ∅ _ !! n) as [ops|]; cbn [fmap option_fmap option_map default] in *; [|by split_and!; [|constructor|]].
  split_and!; [by rewrite sort_by_key_perm|apply sort_by_key_sorted|]. intros [= Hnil]. apply Hne. f_equal. apply Permutation_nil_r.
  by rewrite <- (sort_by_key_perm (λ o, Some (eso_vid o)) ops), Hnil.
Qed.

(** C8: For tables with histories, without a causality region and with ids that
    stay different when they are cast to bytes, [find_range] succeeds and returns exactly what each block of the range has
    done to the entities of the types asked for: the new version of an entity
    that the block has created or modified, the last version of one that it has
    deleted, and nothing else, in the order of the vids and without empty
    blocks.  Both queries see the same ends of versions in the range, as the
    blocks up to the head of the source do not change between them. *)
Theorem find_range_gives_changes ets cr from to db db' :
  NoDup ets → Forall (sourceable db) ets →
  (∀ t, t ∈ ets → filter (λ v, ended_in from to v = true) (db_versions db' t) = filter (λ v, ended_in from to v = true) (db_versions db t)) →
  ∃ ops, find_range layout ets cr from to db db' = Ok ops ∧
    ∀ n, default [] (ops !! n) ≡ₚ (if bool_decide (from ≤ n ≤ to) then ets ≫= entity_changes db n else []) ∧
      StronglySorted (λ a b, eso_vid a ≤ eso_vid b) (default [] (ops !! n)) ∧ ops !! n ≠ Some [].
Proof using RSS. apply find_range_ok. Qed.

End FindRangeSpec.
