(* ===== verification/HistoryFacts.v ===== *)
(** * Histories of entities

    Writing batches and reverting blocks keeps the versions of an entity apart:
    no block sees two of them.  This is what [find_range] relies on. *)

From Stdlib Require Import ZArith Lia ZifyBool.
From stdpp Require Import base gmap list sorting strings.
From S2P Require Import Prelude Values Intern Entity Write WriteFacts Relational RelationalFacts AppendFacts BatchFacts ReadFacts RevertFacts.
From S2P Require Import Deployment DeploymentFacts SyncStore Writable WritableFacts SourceRange SourceFacts.

Local Open Scope Z_scope.

Lemma apart_fmap (f : Version → Version) (g : BlockNumber → BlockNumber) vs :
  (∀ v, v ∈ vs → v_id (f v) = v_id v ∧ ∀ c, exists_at c (f v) = true → exists_at (g c) v = true) →
  StronglySorted apart vs → StronglySorted apart (f <$> vs).
Proof.
  intros Hf Hs. induction Hs as [|v vs Hs IH Hv]; [constructor|]. cbn. constructor; [apply IH; intros w Hw; apply Hf; by right|].
  apply Forall_fmap, Forall_forall. intros w Hw. cbn. intros Hid c Hc. rewrite Forall_forall in Hv.
  destruct (Hf v ltac:(by left)) as [Hiv Hev], (Hf w ltac:(by right)) as [Hiw Hew]. rewrite Hiv, Hiw in Hid.
  apply not_true_iff_false. intros Hcw. apply Hew in Hcw. rewrite (Hv w Hw Hid _ (Hev c Hc)) in Hcw. done.
Qed.

Lemma apart_snoc v vs : StronglySorted apart vs → Forall (λ w, apart w v) vs → StronglySorted apart (vs ++ [v]).
Proof.
  intros Hs Hv. apply StronglySorted_app. split_and!; [|done|repeat constructor].
  intros w x Hw ->%list_elem_of_singleton. rewrite Forall_forall in Hv. auto.
Qed.

Lemma clamp_exists ids b v c : ranged v → b ≤ BLOCK_NUMBER_MAX → exists_at c (clamp_fn ids b v) = true → exists_at c v = true.
Proof.
  intros [r Hr] Hb. unfold clamp_fn. destruct (bool_decide _); [|done]. destruct (latest v) eqn:Hl; [|done]. unfold latest in Hl. rewrite Hr in *. cbn in Hl.
  destruct r as [|l u]; [done|]. unfold exists_at. cbn. rewrite Hr. destruct (Z.ltb_spec l b); [|done]. destruct u as [u|]; cbn in *; lia.
Qed.

Lemma clamp_wf table ids b v : version_wf table v → version_wf table (clamp_fn ids b v).
Proof.
  unfold clamp_fn. destruct (_ && _); [|done]. unfold version_wf. destruct (v_block v) as [|[|l u]] eqn:Hb; try by rewrite Hb.
  cbn. intros Hw. assert (immutable table = false) as Him by (destruct u; tauto). destruct (Z.ltb_spec l b); [by split|done].
Qed.

Section Mutable.
Context `{EnvVars} `{InputSchema} `{BuildConfig} (table : Table) (t : EntityType).
Context (Hmut : immutable table = false).

Lemma write_row_history r vs vs' :
  row_wf t r → Forall ranged vs → Forall (before (emod_id r) (emod_block r)) vs → (creates_entity r = true → none_current (emod_id r) vs) →
  history_ok table vs → write_row table r vs = Ok vs' → history_ok table vs'.
Proof using Hmut.
  intros Hr Hrg Hbef Hfresh [Hs Hwf]. unfold write_row. fold (row_clamp r vs). rewrite bind_ok. intros (vs1 & Hc & Hi).
  destruct (row_clamp_fn (emod_id r) _ _ _ eq_refl Hfresh Hc) as [-> _]. pose proof Hr as [Hmax _]. rewrite Forall_forall in Hrg, Hbef.
  assert (history_ok table (clamp_fn [emod_id r] (emod_block r) <$> vs)) as [Hs1 Hwf1].
  { split.
    - apply (apart_fmap _ id); [|done]. intros v Hv. split; [apply clamp_fn_id|]. intros c. by apply clamp_exists; [apply Hrg|].
    - apply Forall_fmap. eapply Forall_impl; [exact Hwf|]. intros v. apply clamp_wf. }
  destruct (as_write r) as [w|] eqn:Hw; [|injection Hi as <-; done]. apply insert_write_ok in Hi as (v & Hv & _ & _ & ->); [|done].
  assert (v_id v = emod_id r) as Hid by (apply new_version_id in Hv; destruct r; simplify_eq/=; congruence). split.
  - apply apart_snoc; [done|]. apply Forall_fmap, Forall_forall. intros x Hx. cbn. intros Hxid c Hcx. rewrite clamp_fn_id, Hid in Hxid.
    rewrite (exists_at_new table Hmut c w v t r Hw Hr Hv). destruct (Z.leb_spec (emod_block r) c) as [Hle|]; [|done].
    pose proof (clamp_exists_before table (emod_id r) Hmut (emod_block r) c x) as Hne. rewrite Hne in Hcx; auto; done.
  - apply Forall_app_2; [done|]. apply Forall_singleton. apply new_version_mut in Hv as (_ & _ & _ & Hb); [|done]. unfold version_wf.
    destruct Hr as (_ & _ & _ & Hr). destruct r as [k d b [e|]|k d b [e|]|k b]; simplify_eq/=; try (rewrite Hb by apply Hr); try rewrite Hb; [split|..|split|]; try done; apply Hr.
Qed.

Lemma rows_seq_history rws vs vs' : chain rws → Forall (row_wf t) rws → Forall ranged vs →
  (∀ r, r ∈ rws → Forall (before (emod_id r) (emod_block r)) vs) → inserts_ok table rws vs →
  history_ok table vs → rows_seq table rws vs = Ok vs' → history_ok table vs'.
Proof using Hmut.
  revert vs. induction rws as [|r rws IH]; intros vs Hch Hwf Hrg Hbef Hins Hh; cbn [rows_seq]; [by intros [= <-]|].
  rewrite bind_ok. intros (vs1 & Hw & Hs). destruct Hch as [Hch1 Hch]. apply Forall_cons in Hwf as [Hr Hwf]. destruct Hins as [Hfresh Hins].
  apply (IH vs1); auto.
  - by eapply write_row_ranged.
  - intros r' Hr'. destruct (decide (emod_id r = emod_id r')) as [Heq|Hne].
    + eapply (write_row_before table (emod_id r') Hmut r _ vs); try done; [by rewrite <- Heq|rewrite Forall_forall in Hch1; by apply Hch1|apply Hbef; by right].
    + eapply (write_row_before_other table (emod_id r') Hmut r); try done. apply Hbef. by right.
  - eapply write_row_history; try done. apply Hbef. by left.
Qed.

End Mutable.

Section Immutable.
Context `{EnvVars} `{InputSchema} `{BuildConfig} (table : Table).
Context (Himm : immutable table = true).

Lemma write_row_history_imm r vs vs' : plain_insert r → history_ok table vs → write_row table r vs = Ok vs' → history_ok table vs'.
Proof using Himm.
  intros [Hop Hcr] Hh. destruct r as [k d b [e|]| |]; try done. unfold write_row, insert_write, insert_version, block_range_value. simpl. rewrite Himm. simpl.
  destruct (entity_vid d) as [vid|[]|]; try done. destruct (existsb _ vs) eqn:Hex.
  { destruct (table_skip_duplicates table); [by intros [= <-]|done]. }
  destruct (existsb (same_vid _) vs); [done|]. intros [= <-]. destruct Hh as [Hs Hwf]. split.
  - apply apart_snoc; [done|]. apply Forall_forall. intros w Hw Hid. exfalso. apply not_true_iff_false in Hex. apply Hex, existsb_exists.
    exists w. split; [by apply list_elem_of_In|]. by rewrite bool_decide_eq_true.
  - apply Forall_app_2; [done|]. by apply Forall_singleton.
Qed.

Lemma rows_seq_history_imm rws vs vs' : Forall plain_insert rws → history_ok table vs → rows_seq table rws vs = Ok vs' → history_ok table vs'.
Proof using Himm.
  intros Hp. revert vs. induction Hp as [|r rws Hr _ IH]; intros vs Hh; cbn [rows_seq]; [by intros [= <-]|].
  rewrite bind_ok. intros (vs1 & Hw & Hs). apply (IH vs1); [|done]. by eapply write_row_history_imm.
Qed.

End Immutable.

(** ** Tables of a deployment *)

Lemma unclamp_wf table b v : version_wf table v → version_wf table (unclamp_version b v).
Proof.
  unfold unclamp_version. destruct (unclamps b v); [|done]. unfold version_wf. destruct (v_block v) as [|[|l [u|]]] eqn:Hb; rewrite ?Hb; cbn; tauto.
Qed.

Lemma revert_table_history table n h vs :
  n ≤ h + 1 → h < BLOCK_NUMBER_MAX → Forall (settled (h + 1)) vs → history_ok table vs → history_ok table (revert_table table n vs).1.
Proof.
  intros Hn Hh Hset [Hs Hwf]. unfold revert_table, revert_remove, revert_clamp. rewrite Forall_forall in Hset.
  assert (history_ok table (filter (λ v, changed_since n v = false) vs)) as [Hs1 Hwf1].
  { split; [by apply StronglySorted_filter|by apply Forall_filter_l]. }
  destruct (immutable table) eqn:Him; [done|]. cbn. split.
  2: { apply Forall_fmap. eapply Forall_impl; [exact Hwf1|]. intros v. apply unclamp_wf. }
  apply (apart_fmap _ (λ c, Z.min c (n - 1))); [|done]. intros v [Hc Hv]%list_elem_of_filter. split; [apply unclamp_version_fields|].
  intros c. rewrite Forall_forall in Hwf. specialize (Hwf v Hv). specialize (Hset v Hv). rewrite revert_exists; [done|..|done].
  - unfold version_wf in Hwf. unfold ranged. destruct (v_block v) as [|r]; [congruence|eauto].
  - unfold range_ok, settled in *. destruct (v_block v) as [|[|l [u|]]]; try done. lia.
Qed.

Section Tables.
Context `{EnvVars} `{InputSchema} `{BuildConfig}.
Context (value_too_large : list EntityWrite → bool) (layout : gmap EntityType Table).
Context (Hlarge : ∀ ws, value_too_large ws = false) (Hlayout : layout_ok layout) (Hintf : ∀ t, share_interfaces t = []).

(** All tables have histories. *)
Definition histories (db : gmap EntityType (list Version)) : Prop :=
  ∀ t table, layout !! t = Some table → history_ok table (db_versions db t).

(** The rows that a batch writes into a table *)
Lemma applied_rows h b db db' c c' t table :
  tables_ok layout h db → batch_fits h b → inserts_fit layout (mods b) db →
  apply_entity_modifications value_too_large layout (groups (mods b)) db c = Ok (db', c') → layout !! t = Some table →
  db_versions db' t = db_versions db t ∨
  ∃ rws, rows_seq table rws (db_versions db t) = Ok (db_versions db' t) ∧ Forall (row_wf t) rws ∧ Forall (λ r, h < emod_block r) rws ∧
    if immutable table then Forall plain_insert rws
    else chain rws ∧ Forall ranged (db_versions db t) ∧
      (∀ r, r ∈ rws → Forall (before (emod_id r) (emod_block r)) (db_versions db t)) ∧ inserts_ok table rws (db_versions db t).
Proof using Hlarge Hlayout Hintf.
  intros [Hdb Htab] (Hwf & Hord & Hh & Hmax) Hfit Happ Ht.
  pose proof (apply_versions value_too_large layout Hlarge Hlayout Hintf b db db' c c' t Hwf Hdb Happ) as Hv.
  destruct (Htab t table Ht) as [Hset _]. destruct (groups_group (mods b) t) as [g|] eqn:Hg; [right|by left].
  destruct (batch_group b t g Hwf Hord Hg) as (_ & Hgw & Hty & Hch & Hwi).
  destruct Hv as (table' & vs' & Ht' & _ & Hs & Hl). rewrite Hty in *. assert (table' = table) as -> by congruence.
  assert (db_versions db' t = vs') as -> by (unfold db_versions; by rewrite Hl).
  destruct Hgw as (_ & _ & Hrw & Hins). rewrite Hty in Hrw, Hins. destruct (Hlayout _ _ Ht) as (_ & Himm & _).
  assert (Forall (λ r, h < emod_block r) (rows g)) as Hblocks by (eapply Forall_impl; [exact Hwi|]; intros r [[? _] _]; lia).
  exists (rows g). split_and!; [done..|]. destruct (immutable table) eqn:Him; [apply Hins; congruence|].
  assert (is_immutable t = false) as Hti by congruence. specialize (Hch Hti).
  assert (Forall ranged (db_versions db t)) as Hrg by by apply Hdb.
  assert (∀ r, r ∈ rows g → Forall (before (emod_id r) (emod_block r)) (db_versions db t)) as Hbef.
  { intros r Hr. eapply Forall_impl; [exact Hset|]. intros v Hsv. eapply settled_before; [exact Hsv|].
    rewrite Forall_forall in Hblocks. specialize (Hblocks r Hr). cbn in Hblocks. lia. }
  split_and!; [done..|]. destruct (Hfit t table Ht Hti) as [Hcon|Hok]; [by eapply constraint_inserts_ok|]. unfold rows_of in Hok. by rewrite Hg in Hok.
Qed.

Lemma apply_histories h b db db' c c' :
  tables_ok layout h db → batch_fits h b → inserts_fit layout (mods b) db → histories db →
  apply_entity_modifications value_too_large layout (groups (mods b)) db c = Ok (db', c') → histories db'.
Proof using Hlarge Hlayout Hintf.
  intros Hdb Hb Hfit Hhist Happ t table Ht. specialize (Hhist t table Ht).
  destruct (applied_rows h b db db' c c' t table Hdb Hb Hfit Happ Ht) as [->|(rws & Hs & Hwf & _ & Hr)]; [done|].
  destruct (immutable table) eqn:Him; [by eapply rows_seq_history_imm|]. destruct Hr as (Hch & Hrg & Hbef & Hins). by eapply (rows_seq_history table t Him).
Qed.

Lemma revert_histories r h db :
  tables_ok layout h db → r ≤ h → h < BLOCK_NUMBER_MAX → histories db → histories (revert_block layout (r + 1) db).1.
Proof.
  intros [_ Htab] Hr Hh Hhist t table Ht. rewrite (revert_block_versions layout _ db t table Ht).
  destruct (Htab t table Ht) as [Hset _]. apply (revert_table_history table _ h); [lia|done|done|by apply Hhist].
Qed.

End Tables.

(** ** The life of a deployment *)

Section Store.
Context `{EnvVars} `{InputSchema} `{BuildConfig} `{DeploymentConfig} `{QueueEnv}.
Context (value_too_large : list EntityWrite → bool) (layout : gmap EntityType Table) (mods_weight : RowGroups → Z).
Context (Hlarge : ∀ ws, value_too_large ws = false) (Hlayout : layout_ok layout) (Hintf : ∀ t, share_interfaces t = []).

#[local] Instance history_store : SyncStore Deployment := deployment_store value_too_large layout.
#[local] Instance history_store_spec : SyncStoreSpec Deployment mods_weight := deployment_store_spec value_too_large layout Hlarge Hlayout Hintf mods_weight.

Lemma deployment_histories ops d d' :
  runs mods_weight ops d d' → deployment_ok layout d → histories layout (d_tables d) →
  deployment_ok layout d' ∧ histories layout (d_tables d').
Proof.
  induction 1 as [d d' Heq|b ops d t u Hacc Htr _ IH|p c ops d t u Htr _ IH]; intros Hok Hh.
  - split; [exact (ok_proper d d' Heq Hok)|]. destruct Heq as [<- _]. done.
  - destruct (transact_spec value_too_large layout b d t Htr) as (c & Happ & _).
    apply IH; [apply (deployment_transact_ok value_too_large layout Hlarge Hlayout Hintf b d t Hok Hacc Htr)|]. destruct Hacc as (Hfit & Hins & _).
    destruct Hok as [Hok _]. by apply (apply_histories value_too_large layout Hlarge Hlayout Hintf _ _ _ _ _ _ Hok Hfit Hins Hh Happ).
  - destruct (revert_spec layout p c d t Htr) as (_ & _ & _ & Htab & _).
    destruct (deployment_revert_ok layout p c d t Hok Htr) as (Hok' & _ & Hlt). apply IH; [done|]. rewrite Htab.
    destruct Hok as [Hok Hmax]. apply (revert_histories layout _ (head_number d)); [done|lia|done|done].
Qed.


End Store.
