(* ===== verification/SourceTriggers.v ===== *)
(** * Triggers from other subgraphs

    [TriggersAdapterWrapper] of graph/src/blockchain/block_stream.rs: with data
    sources that are subgraphs, the triggers of a block are the changes that
    these subgraphs have made in it, and the head of the chain is where they
    all are. *)

From Stdlib Require Import ZArith Lia ZifyBool.
From stdpp Require Import base gmap list sorting strings.
From S2P Require Import Prelude Values Intern Entity Write Relational Deployment DataSource SourceRange EthTriggers BlockStream.

Local Open Scope Z_scope.

Abbreviation Operations := (gmap BlockNumber (list EntitySourceOperation)) (only parsing).

(** The trait [SourceableStore], at the time of a request *)
Record SourceStore := mkSourceStore {
  source_entity_type : string → outcome string EntityType;
  source_get_range : list EntityType → CausalityRegion → BlockNumber → BlockNumber → outcome string Operations;
  source_block_ptr : outcome string (option BlockPtr);
}.

(** [SourceableStore] of store/postgres/src/writable.rs, for a deployment and the
    types of its schema *)
Record SourceDeployment := mkSourceDeployment {
  sd_layout : gmap EntityType Table;
  sd_knows : string → bool;
  sd_store : Deployment;
}.

Definition deployment_get_range `{RangeServer} (sd : SourceDeployment) (types : list EntityType) (cr : CausalityRegion) (from to : BlockNumber)
    : outcome StoreError Operations :=
  find_range (sd_layout sd) types cr from to (d_tables (sd_store sd)) (d_tables (sd_store sd)).

Definition deployment_source `{RangeServer} (error_text : StoreError → string) (sd : SourceDeployment) : SourceStore := {|
  source_entity_type name := if sd_knows sd name then Ok (mkEntityType name) else Err "entity type not found"%string;
  source_get_range types cr from to := map_err error_text (deployment_get_range sd types cr from to);
  source_block_ptr := Ok (head_ptr (d_head (sd_store sd)));
|}.

Definition entity_eqb (a b : Object Value) : outcome string bool :=
  match entity_eq a b with Ok e => Ok e | _ => Panic end.

Definition operation_kind_eqb (a b : EntityOperationKind) : bool :=
  match a, b with OpCreate, OpCreate | OpModify, OpModify | OpDelete, OpDelete => true | _, _ => false end.

(** [PartialEq] of triggers on entities *)
Definition subgraph_trigger_eq (a b : SubgraphTrigger) : outcome string bool :=
  if String.eqb (st_source a) (st_source b) then
    if operation_kind_eqb (eso_op (st_entity a)) (eso_op (st_entity b)) && bool_decide (eso_entity_type (st_entity a) = eso_entity_type (st_entity b)) then
      e ← entity_eqb (eso_entity (st_entity a)) (eso_entity (st_entity b));
      Ok (e && (eso_vid (st_entity a) =? eso_vid (st_entity b)) && (st_source_idx a =? st_source_idx b))
    else Ok false
  else Ok false.

(** [new_with_triggers], for triggers of subgraphs *)
Definition new_with_triggers (triggers : list SubgraphTrigger) : outcome string (list SubgraphTrigger) :=
  sorted ← sort (λ a b, Ok (subgraph_trigger_cmp a b)) triggers;
  dedup subgraph_trigger_eq sorted.

Section Wrapper.
Context {World : Type} `{TA : TriggersAdapter World}.
Context (load_block_ptrs_by_numbers : gset BlockNumber → World → outcome string (list AdapterBlock)).
Context (source_subgraph_stores : World → gmap string SourceStore).
Context (values : gmap string SourceStore → list SourceStore).

(** [BlockWithTriggers], with triggers of the chain or of subgraphs *)
Inductive WrappedBlock :=
| FromChain (b : BlockTriggers)
| FromSources (b : AdapterBlock) (triggers : list SubgraphTrigger).

Definition wrapped_block (b : WrappedBlock) : AdapterBlock :=
  match b with FromChain b => bw_block b | FromSources b _ => b end.

Definition wrapped_count (b : WrappedBlock) : nat :=
  match b with FromChain b => trigger_count b | FromSources _ triggers => length triggers end.

Definition block_number_of (b : AdapterBlock) : BlockNumber := ptr_number (ab_ptr b).

Fixpoint entity_types_of (store : SourceStore) (names : list string) : outcome string (list EntityType) :=
  match names with
  | [] => Ok []
  | name :: names => t ← source_entity_type store name; ts ← entity_types_of store names; Ok (t :: ts)
  end.

Definition get_entities_for_range (store : SourceStore) (filter : SubgraphFilter) (from to : BlockNumber) : outcome string Operations :=
  entity_types ← entity_types_of store (sf_entities filter);
  source_get_range store entity_types ONCHAIN from to.

(** Filters for subgraphs without a store are left out. *)
Fixpoint fetch_entities_for_filters (filters : list SubgraphFilter) (from to : BlockNumber) (w : World)
    : outcome string (list (string * Operations * Z)) :=
  match filters with
  | [] => Ok []
  | filter :: filters =>
      match source_subgraph_stores w !! sf_subgraph filter with
      | None => fetch_entities_for_filters filters from to w
      | Some store =>
          entities ← get_entities_for_range store filter from to;
          rest ← fetch_entities_for_filters filters from to w;
          Ok ((sf_subgraph filter, entities, sf_manifest_idx filter) :: rest)
      end
  end.

Definition create_subgraph_trigger_from_entities (subgraph : string) (entities : list EntitySourceOperation) (manifest_idx : Z) : list SubgraphTrigger :=
  (λ entity, mkSubgraphTrigger subgraph entity manifest_idx) <$> entities.

Definition triggers_of_block (n : BlockNumber) (subgraph_data : list (string * Operations * Z)) : list SubgraphTrigger :=
  subgraph_data ≫= λ '(hash, entities, manifest_idx),
    match entities !! n with
    | Some block_entities => create_subgraph_trigger_from_entities hash block_entities manifest_idx
    | None => []
    end.

Fixpoint create_subgraph_triggers (blocks : list AdapterBlock) (subgraph_data : list (string * Operations * Z)) : outcome string (list WrappedBlock) :=
  match blocks with
  | [] => Ok []
  | block :: blocks =>
      triggers ← new_with_triggers (triggers_of_block (block_number_of block) subgraph_data);
      rest ← create_subgraph_triggers blocks subgraph_data;
      Ok (FromSources block triggers :: rest)
  end.

Inductive SubgraphTriggerScanRange := Single (block : AdapterBlock) | Range (from to : BlockNumber).

Definition blocks_with_subgraph_triggers (filters : list SubgraphFilter) (range : SubgraphTriggerScanRange) (w : World) : outcome string (list WrappedBlock) :=
  match filters with
  | [] => Err "No subgraph filters provided"%string
  | _ =>
      match range with
      | Single block =>
          hash_to_entities ← fetch_entities_for_filters filters (block_number_of block) (block_number_of block) w;
          create_subgraph_triggers [block] hash_to_entities
      | Range from to =>
          hash_to_entities ← fetch_entities_for_filters filters from to w;
          let block_numbers := ⋃ ((λ d : string * Operations * Z, dom d.1.2) <$> hash_to_entities) ∪ {[to]} in
          blocks ← load_block_ptrs_by_numbers block_numbers w;
          create_subgraph_triggers blocks hash_to_entities
      end
  end.

Definition wrapper_scan_triggers (filter : AdapterFilter * list SubgraphFilter) (from to : BlockNumber) (w : World)
    : outcome string (list WrappedBlock * BlockNumber) :=
  match filter.2 with
  | [] => '(blocks, to) ← scan_triggers filter.1 from to w; Ok (FromChain <$> (blocks : list BlockTriggers), to)
  | filters => blocks ← blocks_with_subgraph_triggers filters (Range from to) w; Ok (blocks, to)
  end.

Definition wrapper_triggers_in_block (filter : AdapterFilter * list SubgraphFilter) (block : AdapterBlock) (w : World) : outcome string WrappedBlock :=
  match filter.2 with
  | [] => b ← block_triggers filter.1 block w; Ok (FromChain b)
  | filters =>
      blocks ← blocks_with_subgraph_triggers filters (Single block) w;
      match blocks with b :: _ => Ok b | [] => Panic end
  end.

Fixpoint join_ptrs (stores : list SourceStore) : outcome string (list (option BlockPtr)) :=
  match stores with
  | [] => Ok []
  | store :: stores => p ← source_block_ptr store; ps ← join_ptrs stores; Ok (p :: ps)
  end.

(** [min_by_key], the first one with the smallest number *)
Fixpoint min_ptr (ptrs : list BlockPtr) : option BlockPtr :=
  match ptrs with
  | [] => None
  | p :: ptrs => match min_ptr ptrs with Some q => Some (if ptr_number p <=? ptr_number q then p else q) | None => Some p end
  end.

Definition wrapper_chain_head_ptr (w : World) : outcome string (option BlockPtr) :=
  if decide (source_subgraph_stores w = ∅) then chain_head_ptr w
  else ptrs ← join_ptrs (values (source_subgraph_stores w)); Ok (min_ptr (omap id ptrs)).

(** What the block stream asks *)
Definition wrapper : TriggersAdapter World := {|
  AdapterFilter := AdapterFilter * list SubgraphFilter;
  AdapterBlock := AdapterBlock;
  ab_ptr := ab_ptr;
  ab_parent_hash := ab_parent_hash;
  BlockTriggers := WrappedBlock;
  bw_block := wrapped_block;
  trigger_count := wrapped_count;
  chain_head_ptr := wrapper_chain_head_ptr;
  is_on_main_chain := is_on_main_chain;
  adapter_parent_ptr := adapter_parent_ptr;
  ancestor_block := ancestor_block;
  scan_triggers := wrapper_scan_triggers;
  block_triggers := wrapper_triggers_in_block;
|}.

End Wrapper.
