(* ===== verification/SourceScan.v ===== *)
(** * Scanning source subgraphs

    A scan of source subgraphs leaves out no block in which one of them has
    changed an entity that the filters are about, and each block comes with a
    trigger for every change. *)

From Stdlib Require Import ZArith Lia ZifyBool.
From stdpp Require Import base gmap list sorting strings.
From S2P Require Import Prelude Values Intern Entity Write Relational Deployment DataSource SourceRange SourceFacts EthTriggers EthOrder BlockStream SourceTriggers.

Local Open Scope Z_scope.

(** ** The order of triggers *)

Definition trigger_key (t : SubgraphTrigger) : Z * Z := (st_source_idx t, eso_vid (st_entity t)).

Definition key_le (a b : SubgraphTrigger) : Prop := st_source_idx a < st_source_idx b ∨ st_source_idx a = st_source_idx b ∧ eso_vid (st_entity a) ≤ eso_vid (st_entity b).
Definition key_lt (a b : SubgraphTrigger) : Prop := st_source_idx a < st_source_idx b ∨ st_source_idx a = st_source_idx b ∧ eso_vid (st_entity a) < eso_vid (st_entity b).

#[local] Instance key_le_trans : Transitive key_le.
Proof. intros a b c. unfold key_le. lia. Qed.

Lemma trigger_cmp_le a b : subgraph_trigger_cmp a b ≠ Gt ↔ key_le a b.
Proof.
  unfold subgraph_trigger_cmp, key_le. destruct (Z.compare_spec (st_source_idx a) (st_source_idx b)), (Z.compare_spec (eso_vid (st_entity a)) (eso_vid (st_entity b)));
    split; try done; lia.
Qed.

Lemma sort_triggers ts : ∃ r, sort (λ a b, Ok (subgraph_trigger_cmp a b)) ts = Ok r ∧ r ≡ₚ ts ∧ StronglySorted key_le r.
Proof.
  destruct (sort_spec (λ a b, Ok (subgraph_trigger_cmp a b)) key_le ts) as (r & Hr & Hp & Hs & _); [|by exists r].
  intros a b _ _. split; [unfold key_le; lia|]. eexists. split; [done|]. apply trigger_cmp_le.
Qed.

Lemma strict_triggers ts : StronglySorted key_le ts → NoDup (trigger_key <$> ts) → StronglySorted key_lt ts.
Proof.
  induction 1 as [|t ts Hs IH Ht]; [constructor|]. intros [Hn Hnd]%NoDup_cons. constructor; [by apply IH|].
  rewrite Forall_forall in Ht |- *. intros u Hu. specialize (Ht u Hu). unfold key_le, key_lt in *.
  assert (trigger_key t ≠ trigger_key u) as Hne by (intros Heq; apply Hn; rewrite Heq; by apply list_elem_of_fmap_2).
  unfold trigger_key in Hne. destruct (Z.eq_dec (st_source_idx t) (st_source_idx u)), (Z.eq_dec (eso_vid (st_entity t)) (eso_vid (st_entity u))); [congruence|lia..].
Qed.

Lemma trigger_eq_keys a b : subgraph_trigger_eq a b = Ok true → trigger_key a = trigger_key b.
Proof.
  unfold subgraph_trigger_eq, trigger_key. destruct (String.eqb _ _); [|done]. destruct (_ && _); [|done]. destruct (entity_eqb _ _) as [[]| |]; cbn; [|done..].
  intros [= Hb]. f_equal; lia.
Qed.

Lemma key_lt_ne a b : key_lt a b → trigger_key b ≠ trigger_key a.
Proof. unfold key_lt, trigger_key. intros Hlt [= ? ?]. lia. Qed.

Lemma dedup_from_strict t ts r : StronglySorted key_lt (t :: ts) → dedup_from subgraph_trigger_eq t ts = Ok r → r = t :: ts.
Proof.
  revert t r. induction ts as [|u ts IH]; intros t r Hs; cbn [dedup_from]; [by intros [= <-]|].
  apply StronglySorted_inv in Hs as [Hs Ht]. apply Forall_cons in Ht as [Htu _]. apply key_lt_ne in Htu.
  destruct (subgraph_trigger_eq u t) as [[]|e|] eqn:He; cbn; [by apply trigger_eq_keys in He| |done..].
  destruct (dedup_from _ u ts) as [r'|e|] eqn:Hr; cbn; [|done..]. intros [= <-]. f_equal. by apply IH.
Qed.

Lemma new_triggers_spec ts r : NoDup (trigger_key <$> ts) → new_with_triggers ts = Ok r → r ≡ₚ ts ∧ StronglySorted key_lt r.
Proof.
  intros Hnd. unfold new_with_triggers. destruct (sort_triggers ts) as (s & -> & Hp & Hs). cbn [mbind outcome_bind].
  assert (StronglySorted key_lt s) as Hlt by (apply strict_triggers; [done|by rewrite Hp]).
  destruct s as [|t s]; cbn [dedup]; [intros [= <-]; done|]. intros Hr. by apply dedup_from_strict in Hr as ->.
Qed.

(** ** Scans *)

Section Scan.
Context `{RS : RangeServer, RSS : !RangeServerSpec}.
Context {World : Type} `{TA : TriggersAdapter World}.
Context (load_block_ptrs_by_numbers : gset BlockNumber → World → outcome string (list AdapterBlock)).
Context (deployments : World → gmap string SourceDeployment) (error_text : StoreError → string).

(** The stores are those of deployments. *)
Definition stores_of (w : World) : gmap string SourceStore := deployment_source error_text <$> deployments w.

(** What the entities of a filter's types went through in a block *)
Definition filter_changes (sd : SourceDeployment) (f : SubgraphFilter) (n : BlockNumber) : list EntitySourceOperation :=
  (mkEntityType <$> sf_entities f) ≫= entity_changes (d_tables (sd_store sd)) n.

(** The triggers of a block: one for every change of an entity that a filter is about *)
Definition source_triggers (w : World) (filters : list SubgraphFilter) (n : BlockNumber) : list SubgraphTrigger :=
  filters ≫= λ f, match deployments w !! sf_subgraph f with
    | Some sd => (λ op, mkSubgraphTrigger (sf_subgraph f) op (sf_manifest_idx f)) <$> filter_changes sd f n
    | None => []
    end.

(** A filter that a deployment can answer *)
Definition answers (sd : SourceDeployment) (f : SubgraphFilter) : Prop :=
  NoDup (sf_entities f) ∧ Forall (λ name, sd_knows sd name = true) (sf_entities f) ∧
  Forall (sourceable (sd_layout sd) (d_tables (sd_store sd))) (mkEntityType <$> sf_entities f).

Definition answered (w : World) (filters : list SubgraphFilter) : Prop :=
  ∀ f sd, f ∈ filters → deployments w !! sf_subgraph f = Some sd → answers sd f.

(** Filters come from different data sources, and the versions of a deployment
    are numbered: no two triggers of a block have the same place in the order. *)
Definition told_apart (w : World) (filters : list SubgraphFilter) (n : BlockNumber) : Prop :=
  NoDup (trigger_key <$> source_triggers w filters n).

Lemma entity_types_known sd names :
  Forall (λ name, sd_knows sd name = true) names → entity_types_of (deployment_source error_text sd) names = Ok (mkEntityType <$> names).
Proof. induction 1 as [|name names Hn _ IH]; [done|]. cbn. rewrite Hn. cbn. by rewrite IH. Qed.

Lemma get_entities_ok sd f from to :
  answers sd f →
  ∃ ops, get_entities_for_range (deployment_source error_text sd) f from to = Ok ops ∧
    ∀ n, default [] (ops !! n) ≡ₚ (if bool_decide (from ≤ n ≤ to) then filter_changes sd f n else []) ∧ ops !! n ≠ Some [].
Proof using RSS.
  intros (Hnd & Hk & Hs). unfold get_entities_for_range. rewrite entity_types_known by done. cbn.
  unfold deployment_get_range.
  destruct (find_range_ok (sd_layout sd) (mkEntityType <$> sf_entities f) ONCHAIN from to (d_tables (sd_store sd)) (d_tables (sd_store sd))) as (ops & -> & Hops).
  { apply NoDup_fmap_2; [|done]. intros x y. by intros [= ->]. } { done. } { done. }
  exists ops. split; [done|]. intros n. destruct (Hops n) as (Hp & _ & Hne). done.
Qed.

Definition data_blocks (data : list (string * gmap BlockNumber (list EntitySourceOperation) * Z)) : gset BlockNumber :=
  ⋃ ((λ d : string * gmap BlockNumber (list EntitySourceOperation) * Z, dom d.1.2) <$> data).

Lemma fetch_ok filters from to w :
  answered w filters →
  ∃ data, fetch_entities_for_filters stores_of filters from to w = Ok data ∧
    (∀ n, triggers_of_block n data ≡ₚ if bool_decide (from ≤ n ≤ to) then source_triggers w filters n else []) ∧
    (∀ n, n ∈ data_blocks data ↔ triggers_of_block n data ≠ []).
Proof using RSS.
  induction filters as [|f filters IH]; intros Ha.
  { exists []. split; [done|]. split; intros n; [by case_bool_decide|]. cbn. set_solver. }
  destruct IH as (data & Hd & Ht & Hb). { intros f' sd Hf. apply Ha. set_solver. }
  cbn [fetch_entities_for_filters]. unfold stores_of at 1. rewrite lookup_fmap. destruct (deployments w !! sf_subgraph f) as [sd|] eqn:Hsd; cbn [fmap option_fmap option_map].
  2:{ exists data. split; [done|]. split; [|done]. intros n. rewrite Ht. unfold source_triggers. cbn [mbind list_bind]. by rewrite Hsd. }
  destruct (get_entities_ok sd f from to) as (ops & -> & Hops). { apply Ha; [set_solver|done]. }
  cbn [mbind outcome_bind]. rewrite Hd. cbn [mbind outcome_bind]. eexists. split; [done|]. split; intros n; destruct (Hops n) as [Hp Hne].
  - unfold triggers_of_block, source_triggers in *. cbn [mbind list_bind]. rewrite Hsd. specialize (Ht n).
    assert (∀ A B C D : list SubgraphTrigger, A ≡ₚ C → B ≡ₚ D → A ++ B ≡ₚ C ++ D) as Happ by (intros * -> ->; done).
    transitivity ((if bool_decide (from ≤ n ≤ to) then (λ op, mkSubgraphTrigger (sf_subgraph f) op (sf_manifest_idx f)) <$> filter_changes sd f n else []) ++
      (if bool_decide (from ≤ n ≤ to) then source_triggers w filters n else [])); [|by case_bool_decide].
    apply Happ; [|exact Ht]. transitivity ((λ op, mkSubgraphTrigger (sf_subgraph f) op (sf_manifest_idx f)) <$> default [] (ops !! n)).
    { by destruct (ops !! n). } rewrite Hp. by case_bool_decide.
  - unfold data_blocks in *. rewrite fmap_cons, union_list_cons, elem_of_union, Hb, elem_of_dom. cbn [fst snd].
    unfold triggers_of_block. cbn [mbind list_bind]. destruct (ops !! n) as [[|o os]|]; [done| |].
    + split; [intros _; done|]. intros _. left. by eexists.
    + cbn. split; [intros [[x Hx]|Hx]; done|]. by right.
Qed.

Lemma create_spec blocks data r :
  (∀ b, b ∈ blocks → NoDup (trigger_key <$> triggers_of_block (block_number_of b) data)) →
  create_subgraph_triggers blocks data = Ok r →
  Forall2 (λ b wb, ∃ ts, wb = FromSources b ts ∧ ts ≡ₚ triggers_of_block (block_number_of b) data ∧ StronglySorted key_lt ts) blocks r.
Proof.
  revert r. induction blocks as [|b blocks IH]; intros r Hnd; cbn [create_subgraph_triggers]; [by intros [= <-]; constructor|].
  destruct (new_with_triggers _) as [ts| |] eqn:Hts; cbn; [|done..]. destruct (create_subgraph_triggers blocks data) as [r'| |] eqn:Hr; cbn; [|done..]. intros [= <-].
  constructor; [|apply IH; [intros b' Hb'; apply Hnd; set_solver|done]].
  exists ts. split; [done|]. apply new_triggers_spec; [apply Hnd; set_solver|done].
Qed.

(** The adapter returns the blocks it is asked for, in the order of their numbers. *)
Definition loads_asked (w : World) : Prop :=
  ∀ numbers blocks, load_block_ptrs_by_numbers numbers w = Ok blocks →
    StronglySorted Z.lt (block_number_of <$> blocks) ∧ ∀ n, n ∈ block_number_of <$> blocks ↔ n ∈ numbers.

(** What a block has to say about the sources *)
Definition faithful_block (w : World) (filters : list SubgraphFilter) (wb : WrappedBlock) : Prop :=
  ∃ b ts, wb = FromSources b ts ∧ ts ≡ₚ source_triggers w filters (block_number_of b) ∧ StronglySorted key_lt ts.

Lemma faithful_all w filters from to data blocks r :
  (∀ n, triggers_of_block n data ≡ₚ if bool_decide (from ≤ n ≤ to) then source_triggers w filters n else []) →
  (∀ n, from ≤ n ≤ to → told_apart w filters n) →
  (∀ b, b ∈ blocks → from ≤ block_number_of b ≤ to) →
  create_subgraph_triggers blocks data = Ok r →
  wrapped_block <$> r = blocks ∧ Forall (faithful_block w filters) r.
Proof.
  intros Ht Hapart Hin Hr.
  assert (∀ b, b ∈ blocks → triggers_of_block (block_number_of b) data ≡ₚ source_triggers w filters (block_number_of b)) as Hb.
  { intros b Hb. rewrite Ht, bool_decide_eq_true_2; auto. }
  apply create_spec in Hr; [|intros b Hb'; rewrite Hb by done; by apply Hapart, Hin].
  clear Hin. induction Hr as [|b wb blocks r (ts & -> & Hp & Hs) _ IH]; [done|]. cbn.
  destruct IH as [Hw Hf]; [intros b' Hb'; apply Hb; set_solver|]. rewrite Hw. split; [done|]. constructor; [|done].
  exists b, ts. split; [done|]. split; [|done]. rewrite Hp. apply Hb. set_solver.
Qed.

Lemma wrapper_scan_ok chain_filter filters from to w blocks to' :
  filters ≠ [] → from ≤ to → answered w filters → (∀ n, from ≤ n ≤ to → told_apart w filters n) → loads_asked w →
  wrapper_scan_triggers load_block_ptrs_by_numbers stores_of (chain_filter, filters) from to w = Ok (blocks, to') →
  to' = to ∧ StronglySorted Z.lt (block_number_of ∘ wrapped_block <$> blocks) ∧ Forall (faithful_block w filters) blocks ∧
  ∀ n, n ∈ block_number_of ∘ wrapped_block <$> blocks ↔ n = to ∨ from ≤ n ≤ to ∧ source_triggers w filters n ≠ [].
Proof using RSS.
  intros Hne Hle Ha Hapart Hload. unfold wrapper_scan_triggers, blocks_with_subgraph_triggers. cbn [fst snd]. destruct filters as [|f filters]; [done|].
  destruct (fetch_ok (f :: filters) from to w Ha) as (data & -> & Ht & Hd). cbn [mbind outcome_bind].
  destruct (load_block_ptrs_by_numbers _ w) as [bs| |] eqn:Hbs; cbn [mbind outcome_bind]; [|done..].
  apply Hload in Hbs as [Hs Hbs]. change (⋃ _) with (data_blocks data) in Hbs.
  destruct (create_subgraph_triggers bs data) as [r| |] eqn:Hr; cbn [mbind outcome_bind]; [|done..]. intros [= <- <-].
  assert (∀ n, n ∈ data_blocks data ↔ from ≤ n ≤ to ∧ source_triggers w (f :: filters) n ≠ []) as Hdata.
  { intros n. rewrite Hd. specialize (Ht n). case_bool_decide as Hn; [|apply Permutation_nil_r in Ht; rewrite Ht; tauto].
    split; [intros Hx; split; [done|]|intros [_ Hx]]; intros Hy; apply Hx; apply Permutation_nil_r; [by rewrite Ht, Hy|by rewrite <- Ht, Hy]. }
  apply (faithful_all w (f :: filters) from to) in Hr as [Hw Hf]; [|done|done|].
  2:{ intros b Hb. assert (block_number_of b ∈ data_blocks data ∪ {[to]}) as [Hx|Hx]%elem_of_union by (apply Hbs; by apply list_elem_of_fmap_2);
      [by apply Hdata|]. apply elem_of_singleton in Hx. lia. }
  rewrite list_fmap_compose, Hw. split_and!; [done..|]. intros n. rewrite Hbs, elem_of_union, Hdata, elem_of_singleton. tauto.
Qed.

Lemma wrapper_block_ok chain_filter filters block w wb :
  filters ≠ [] → answered w filters → told_apart w filters (block_number_of block) →
  wrapper_triggers_in_block load_block_ptrs_by_numbers stores_of (chain_filter, filters) block w = Ok wb →
  wrapped_block wb = block ∧ faithful_block w filters wb.
Proof using RSS.
  intros Hne Ha Hapart. unfold wrapper_triggers_in_block, blocks_with_subgraph_triggers. cbn [fst snd]. destruct filters as [|f filters]; [done|].
  destruct (fetch_ok (f :: filters) (block_number_of block) (block_number_of block) w Ha) as (data & -> & Ht & Hd). cbn [mbind outcome_bind].
  destruct (create_subgraph_triggers [block] data) as [r| |] eqn:Hr; cbn [mbind outcome_bind]; [|done..].
  apply (faithful_all w (f :: filters) (block_number_of block) (block_number_of block)) in Hr as [Hw Hf]; [|done| |].
  - destruct r as [|wb' [|]]; [done| |done]. injection Hw as Hw. intros [= <-]. split; [done|]. by apply Forall_cons in Hf as [? _].
  - intros n Hn. by replace n with (block_number_of block) by lia.
  - intros b ->%list_elem_of_singleton. lia.
Qed.

(** ** The head *)

Lemma min_ptr_spec ptrs : match min_ptr ptrs with
  | Some p => p ∈ ptrs ∧ Forall (λ q, ptr_number p ≤ ptr_number q) ptrs
  | None => ptrs = []
  end.
Proof.
  induction ptrs as [|p ptrs IH]; [done|]. cbn [min_ptr]. destruct (min_ptr ptrs) as [q|]; [|subst; split; [by left|by repeat constructor]].
  destruct IH as [Hq Hall]. destruct (Z.leb_spec (ptr_number p) (ptr_number q)).
  - split; [by left|]. constructor; [lia|]. eapply Forall_impl; [exact Hall|]. cbn. lia.
  - split; [by right|]. constructor; [lia|done].
Qed.

Lemma join_ptrs_deployments sds : join_ptrs (deployment_source error_text <$> sds) = Ok ((λ sd, head_ptr (d_head (sd_store sd))) <$> sds).
Proof. induction sds as [|sd sds IH]; [done|]. cbn. by rewrite IH. Qed.

(** The head is where the source that is furthest behind is, among the sources
    that have a block. *)
Lemma head_of_sources (values : gmap string SourceStore → list SourceStore) w sds :
  deployments w ≠ ∅ → values (stores_of w) = deployment_source error_text <$> sds → sds ≡ₚ (map_to_list (deployments w)).*2 →
  ∃ head, wrapper_chain_head_ptr stores_of values w = Ok head ∧
    match head with
    | Some p => (∃ h sd, deployments w !! h = Some sd ∧ head_ptr (d_head (sd_store sd)) = Some p) ∧
        ∀ h sd q, deployments w !! h = Some sd → head_ptr (d_head (sd_store sd)) = Some q → ptr_number p ≤ ptr_number q
    | None => ∀ h sd, deployments w !! h = Some sd → head_ptr (d_head (sd_store sd)) = None
    end.
Proof.
  intros Hne Hv Hp. unfold wrapper_chain_head_ptr. rewrite decide_False by (unfold stores_of; by intros ?%fmap_empty_inv).
  rewrite Hv, join_ptrs_deployments. cbn [mbind outcome_bind]. eexists. split; [done|].
  set (ptrs := omap id _). assert (∀ p, p ∈ ptrs ↔ ∃ h sd, deployments w !! h = Some sd ∧ head_ptr (d_head (sd_store sd)) = Some p) as Hin.
  { intros p. unfold ptrs. rewrite list_elem_of_omap. setoid_rewrite list_elem_of_fmap. setoid_rewrite Hp. setoid_rewrite list_elem_of_fmap. split.
    - intros (o & (sd & -> & [h sd'] & -> & Hsd) & Ho). exists h, sd'. split; [by apply elem_of_map_to_list|done].
    - intros (h & sd & Hsd & Ho). eexists. split; [|exact Ho]. exists sd. split; [done|]. exists (h, sd). split; [done|]. by apply elem_of_map_to_list. }
  pose proof (min_ptr_spec ptrs) as Hmin. destruct (min_ptr ptrs) as [p|].
  - destruct Hmin as [Hm Hall]. split; [by apply Hin|]. rewrite Forall_forall in Hall. intros h sd q Hsd Hq. apply Hall, Hin. eauto.
  - intros h sd Hsd. destruct (head_ptr _) as [q|] eqn:Hq; [|done]. assert (q ∈ ptrs) as Hbad by (apply Hin; eauto). rewrite Hmin in Hbad. set_solver.
Qed.


End Scan.
