(* ===== verification/SourceSamples.v ===== *)
(** * A source subgraph at work

    The theorems on source subgraphs for a deployment that has written two
    blocks, and what goes wrong with ids that look like escaped bytes. *)

From Stdlib Require Import ZArith Lia ZifyBool.
From stdpp Require Import base gmap list sorting strings.
From S2P Require Import Prelude Values Intern Entity Write WriteFacts Relational RelationalFacts AppendFacts BatchFacts ReadFacts RevertFacts.
From S2P Require Import Deployment DeploymentFacts SyncStore Writable WritableFacts WritableSamples DataSource EthTriggers BlockStream.
From S2P Require Import SourceRange SourceFacts HistoryFacts SourceTriggers SourceScan.

Local Open Scope Z_scope.

Module SourceSample.
Import BatchSample WritableSample.
#[local] Existing Instances sample_env sample_schema sample_build sample_sort sample_deployment sample_queue sample_store sample_store_spec.

(** ** The server *)

Definition codes (s : string) : list Z := (λ a, Z.of_nat (Ascii.nat_of_ascii a)) <$> String.list_ascii_of_string s.

Definition hex_digit (c : Z) : option Z :=
  if (48 <=? c) && (c <=? 57) then Some (c - 48) else if (97 <=? c) && (c <=? 102) then Some (c - 87) else None.

Fixpoint hex_bytes (cs : list Z) : option (list Z) :=
  match cs with
  | [] => Some []
  | a :: b :: cs => x ← hex_digit a; y ← hex_digit b; rest ← hex_bytes cs; Some (16 * x + y :: rest)
  | [_] => None
  end.

(** Text is bytes, in hex after a backslash and an x; other escapes are left out. *)
Definition to_bytea (s : string) : outcome StoreError (list Z) :=
  match codes s with
  | 92 :: 120 :: cs => match hex_bytes cs with Some bs => Ok bs | None => Err (UnknownError "invalid hexadecimal data") end
  | cs => if bool_decide (92 ∈ cs) then Err (UnknownError "invalid input syntax for type bytea") else Ok cs
  end.

Definition row_le (a b : EntityDataExt) : Prop := row_cmp a b ≠ Gt.

#[local] Instance row_le_dec : RelDecision row_le.
Proof. intros a b. unfold row_le. destruct (row_cmp a b); [left|left|right]; congruence. Defined.

#[local] Instance row_le_trans : Transitive row_le.
Proof.
  intros a b c. unfold row_le. destruct (row_cmp a b) eqn:Hab; [| |done].
  - intros _ Hbc. apply row_cmp_eq in Hab. unfold compare_entity_data_ext in *. injection Hab as -> -> ->. done.
  - intros _. destruct (row_cmp b c) eqn:Hbc; [| |done]; intros _.
    + apply row_cmp_eq in Hbc. unfold compare_entity_data_ext in *. injection Hbc as <- <- <-. by rewrite Hab.
    + by rewrite (row_cmp_trans a b c).
Qed.

#[local] Instance row_le_total : Total row_le.
Proof. intros a b. unfold row_le. rewrite (row_cmp_antisym a b). destruct (row_cmp a b); [left|left|right]; done. Qed.

#[local] Instance server : RangeServer := {|
  text_to_bytea := to_bytea;
  serial_vid _ := 0;
  order_rows := merge_sort row_le;
|}.

#[local] Instance server_spec : RangeServerSpec.
Proof. split; intros rws; cbn; [apply merge_sort_Permutation|apply StronglySorted_merge_sort; apply _]. Qed.

(** ** The changes of two blocks *)

Lemma d0_histories : histories user_layout (d_tables d0).
Proof. intros t table _. rewrite d0_versions. split; constructor. Defined.


Lemma d2_histories : histories user_layout (d_tables d2).
Proof. apply (deployment_histories never_large user_layout no_weight (λ _, eq_refl) user_layout_ok (λ _, eq_refl) (sys_log sys_merged) d0 d2 sample_runs d0_ok d0_histories). Qed.

Lemma d2_sourceable : sourceable user_layout (d_tables d2) user.
Proof.
  exists user_table. split_and!; [done..| |].
  - by apply d2_histories.
  - assert (v_id <$> db_versions (d_tables d2) user = [IdString "u1"; IdString "u1"]) as Hids by (by vm_compute).
    assert (∀ v, v ∈ db_versions (d_tables d2) user → v_id v = IdString "u1") as Hid.
    { intros v Hv. apply (list_elem_of_fmap_2 v_id) in Hv. rewrite Hids in Hv. set_solver. }
    split; [intros v ->%Hid; by eexists|]. intros v w ->%Hid ->%Hid. done.
Qed.

Lemma find_range_gives_changes_witness :
  ∃ ops, find_range user_layout [user] ONCHAIN 1 2 (d_tables d2) (d_tables d2) = Ok ops ∧
    ∀ n, default [] (ops !! n) ≡ₚ (if bool_decide (1 ≤ n ≤ 2) then [user] ≫= entity_changes (d_tables d2) n else []) ∧
      StronglySorted (λ a b, eso_vid a ≤ eso_vid b) (default [] (ops !! n)) ∧ ops !! n ≠ Some [].
Proof.
  apply (find_range_gives_changes user_layout [user] ONCHAIN 1 2 (d_tables d2) (d_tables d2)).
  - apply NoDup_singleton.
  - constructor; [exact d2_sourceable|constructor].
  - done.
Defined.

(** ** A scan *)

#[local] Instance adapter : TriggersAdapter (gmap string SourceDeployment) := {|
  AdapterFilter := unit;
  AdapterBlock := BlockPtr;
  ab_ptr := id;
  ab_parent_hash _ := None;
  BlockTriggers := BlockPtr;
  bw_block := id;
  trigger_count _ := 0%nat;
  chain_head_ptr _ := Ok (Some (mkBlockPtr 9 []));
  is_on_main_chain _ _ := Ok true;
  adapter_parent_ptr _ _ := Ok None;
  ancestor_block _ _ _ _ := Ok None;
  scan_triggers _ _ to _ := Ok ([], to);
  block_triggers _ b _ := Ok b;
|}.

Definition load (numbers : gset BlockNumber) (_ : gmap string SourceDeployment) : outcome string (list BlockPtr) :=
  Ok ((λ n, mkBlockPtr n []) <$> merge_sort Z.le (elements numbers)).

Definition source : SourceDeployment := mkSourceDeployment user_layout (String.eqb "User") d2.
Definition world : gmap string SourceDeployment := {[ "QmSource"%string := source ]}.
Definition users : SubgraphFilter := mkSubgraphFilter "QmSource" 0 ["User"%string] 0.
Definition no_text (_ : StoreError) : string := "store error".

Lemma adapter_loads w : loads_asked load w.
Proof.
  intros numbers blocks [= <-]. rewrite <- list_fmap_compose. unfold compose, block_number_of. cbn. rewrite list_fmap_id.
  pose proof (merge_sort_Permutation Z.le (elements numbers)) as Hp. split; [|intros n; by rewrite Hp, elem_of_elements].
  assert (NoDup (merge_sort Z.le (elements numbers))) as Hnd by (rewrite Hp; apply NoDup_elements).
  assert (StronglySorted Z.le (merge_sort Z.le (elements numbers))) as Hs by (apply StronglySorted_merge_sort; apply _).
  clear Hp. induction Hs as [|x l Hs IH Hx]; [constructor|]. apply NoDup_cons in Hnd as [Hn Hnd]. constructor; [by apply IH|].
  rewrite Forall_forall in Hx |- *. intros y Hy. specialize (Hx y Hy). destruct (decide (x = y)); [congruence|lia].
Qed.

Lemma world_answers : answered id world [users].
Proof.
  intros f sd ->%list_elem_of_singleton Hsd. unfold id, world in Hsd. apply lookup_singleton_Some in Hsd as [_ <-]. split_and!; [apply NoDup_singleton|by repeat constructor|].
  constructor; [exact d2_sourceable|constructor].
Qed.

Definition scanned : list WrappedBlock :=
  match wrapper_scan_triggers load (stores_of id no_text) (tt, [users]) 1 3 world with Ok (bs, _) => bs | _ => [] end.

(** Block 1 creates a user, block 2 modifies it, and block 3 is the last one. *)
Example source_scanned :
  (λ b, (block_number_of (wrapped_block b), match b with FromSources _ ts => (eso_op ∘ st_entity) <$> ts | _ => [] end)) <$> scanned =
    [(1, [OpCreate]); (2, [OpModify]); (3, [])].
Proof. by vm_compute. Qed.


(** ** Ids that look like escaped bytes *)

Definition text_version (id : string) (range : BlockRange) (vid : Z) : Version := mkVersion (Some vid) (IdString id) ONCHAIN ann (RangeCol range).

(** Block 5 deletes the entity with id [a] and creates one with id [\x61]. *)
Definition collision : list Version := [text_version "a" (RRange 1 (Some 5)) 1; text_version "\x61" (RRange 5 None) 2].

Definition kinds (n : BlockNumber) (r : outcome StoreError (gmap BlockNumber (list EntitySourceOperation))) : list EntityOperationKind :=
  match r with Ok ops => eso_op <$> default [] (ops !! n) | _ => [] end.

(** [find_range] takes the two for one entity that is modified, and the deletion is lost. *)
Example escaped_ids_collide :
  kinds 5 (find_range user_layout [user] ONCHAIN 5 5 {[ user := collision ]} {[ user := collision ]}) = [OpModify] ∧
  snd <$> change 5 collision (IdString "a") = Some OpDelete.
Proof. by vm_compute. Qed.

End SourceSample.
