(* ===== verification/VidBatcher.v ===== *)
(** * Batches of rows

    [VidBatcher] of store/postgres/src/vid_batcher.rs goes through the rows of a
    table in ranges of vids.  It chooses the ranges with an ogive, a cumulative
    histogram (graph/src/util/ogive.rs), such that batches take about the same
    time. *)

From Stdlib Require Import ZArith Lia ZifyBool.
From stdpp Require Import base gmap list sorting strings.
From S2P Require Import Prelude Values LfuCache Float64.

Local Open Scope Z_scope.

(** Arithmetic on [i64] *)
Definition wrap64 (z : Z) : Z := (z + 2 ^ 63) mod 2 ^ 64 - 2 ^ 63.

Definition i64 {E} `{Arithmetic} (z : Z) : outcome E Z :=
  if (I64_MIN <=? z) && (z <=? I64_MAX) then Ok z else if overflow_checks then Panic else Ok (wrap64 z).

(** ** [Ogive] *)

Record Ogive := mkOgive { points : list Z; bin_size : f64; ogive_start : Z; ogive_end : Z }.

Fixpoint dedup_points (l : list Z) : list Z :=
  match l with
  | [] => []
  | x :: l => match dedup_points l with y :: r => if x =? y then y :: r else x :: y :: r | [] => [x] end
  end.

Definition from_equi_histogram (pts : list Z) (total : Z) : outcome StoreError Ogive :=
  match pts with
  | [] => Err (InternalError "histogram must have at least one point")
  | _ =>
      let pts := dedup_points (merge_sort Z.le pts) in
      let bins := (length pts - 1)%nat in
      match pts !! 0%nat, pts !! bins with
      | Some first, Some last => Ok (mkOgive pts (f64_div (f64_of_int total) (f64_of_int (Z.of_nat bins))) first last)
      | _, _ => Panic
      end
  end.

Section Ogives.
Context `{Arithmetic}.

Definition check_in_range (self : Ogive) (point : Z) : outcome StoreError unit :=
  if (ogive_start self <=? point) && (point <=? ogive_end self) then Ok tt
  else Err (InternalError "point is outside of the range").

(** The index of the first point after [point] *)
Definition position_after (self : Ogive) (point : Z) : option nat := fst <$> list_find (λ p, point < p) (points self).

Definition interval_start (self : Ogive) (point : Z) : outcome StoreError nat :=
  _ ← check_in_range self point;
  match default (length (points self) - 1)%nat (position_after self point) with
  | O => Panic
  | S idx => Ok idx
  end.

Definition ogive_value (self : Ogive) (point : Z) : outcome StoreError Z :=
  if (length (points self) =? 1)%nat then Ok (ogive_end self)
  else
    idx ← interval_start self point;
    match points self !! idx, points self !! S idx with
    | Some a, Some b =>
        d ← i64 (point - a); w ← i64 (b - a);
        let offset := f64_div (f64_of_int d) (f64_of_int w) in
        Ok (f64_as_i64 (f64_mul (f64_add (f64_of_int (Z.of_nat idx)) offset) (bin_size self)))
    | _, _ => Panic
    end.

Definition ogive_inverse (self : Ogive) (value : Z) : outcome StoreError Z :=
  if value <? 0 then Err (InternalError "value can not be negative")
  else
    let size := f64_as_i64 (bin_size self) in
    if size =? 0 then Panic
    else
      let j := Z.to_nat (value ÷ size) in
      if (length (points self) - 1 <=? j)%nat then Ok (ogive_end self)
      else
        match points self !! j, points self !! S j with
        | Some a, Some b =>
            w ← i64 (b - a);
            let offset := f64_mul (f64_rem_euclid (f64_of_int value) (bin_size self)) (f64_of_int w) in
            i64 (a + f64_as_i64 (f64_div offset (bin_size self)))
        | _, _ => Panic
        end.

Definition next_point (self : Ogive) (point size : Z) : outcome StoreError Z :=
  if ogive_end self <=? point then Ok (ogive_end self)
  else
    _ ← check_in_range self point;
    point_value ← ogive_value self point;
    next_value ← i64 (point_value + size);
    ogive_inverse self next_value.

(** ** [AdaptiveBatchSize] *)

Definition INITIAL_BATCH_SIZE : Z := 10000.
Definition INITIAL_BATCH_SIZE_LIST : Z := 100.

(** Times are in milliseconds. *)
Record AdaptiveBatchSize := mkBatchSize { bs_size : Z; bs_target : Z }.

Definition adapt (duration : Z) (self : AdaptiveBatchSize) : outcome StoreError AdaptiveBatchSize :=
  let duration := Z.max duration 1 in
  let new_batch_size := f64_div (f64_mul (f64_of_int (bs_size self)) (f64_of_int (bs_target self))) (f64_of_int duration) in
  twice ← i64 (2 * bs_size self);
  Ok (mkBatchSize (Z.min twice (f64_as_i64 (f64_round new_batch_size))) (bs_target self)).

(** ** [VidRange] and [VidBatcher] *)

Record VidRange := mkVidRange { vr_min : Z; vr_max : Z }.

Definition range_is_empty (r : VidRange) : bool := (vr_max r =? -1) || (vr_max r <? vr_min r).

(** [usize], for a range that is not empty *)
Definition vid_range_size (r : VidRange) : Z := vr_max r - vr_min r + 1.

Record VidBatcher := mkVidBatcher {
  vb_batch_size : AdaptiveBatchSize;
  vb_start : Z;
  vb_end : Z;
  vb_max_vid : Z;
  vb_ogive : option Ogive;
}.

(** The bounds of the histogram that are relevant *)
Definition relevant_bounds (bounds : list Z) (range : VidRange) : list Z :=
  let bounds := filter (λ b, vr_min range ≤ b ≤ vr_max range) bounds in
  let len := length bounds in
  if (1 <? len)%nat then <[(len - 1)%nat := vr_max range]> (<[0%nat := vr_min range]> bounds)
  else [vr_min range; vr_max range].

Definition vid_batcher_new (bounds : list Z) (range : VidRange) (batch_size : AdaptiveBatchSize) : outcome StoreError VidBatcher :=
  let start := vr_min range in
  let bounds := relevant_bounds bounds range in
  if range_is_empty range then
    end_ ← i64 (start + bs_size batch_size);
    Ok (mkVidBatcher batch_size start end_ (vr_max range) None)
  else
    ogive ← from_equi_histogram bounds (vid_range_size range);
    end_ ← next_point ogive start (bs_size batch_size);
    Ok (mkVidBatcher batch_size start end_ (vr_max range) (Some ogive)).

Definition batcher_finished (self : VidBatcher) : bool := vb_max_vid self <? vb_start self.

(** [step], with the work [f] on a state, and the time that it takes *)
Definition batcher_step {S A} (f : Z → Z → st S StoreError A) (duration : Z) : st (VidBatcher * S) StoreError (option A) := λ '(self, s),
  if batcher_finished self then ((self, s), Ok None)
  else
    match vb_ogive self with
    | None => ((self, s), Ok None)
    | Some ogive =>
        match f (vb_start self) (vb_end self) s with
        | (s, Ok res) =>
            match adapt duration (vb_batch_size self) with
            | Ok batch_size =>
                match e ← i64 (vb_end self + 1); m ← i64 (vb_max_vid self + 1); Ok (Z.min e m) with
                | Ok start =>
                    match next_point ogive start (bs_size batch_size) with
                    | Ok end_ => ((mkVidBatcher batch_size start end_ (vb_max_vid self) (Some ogive), s), Ok (Some res))
                    | Err e => ((mkVidBatcher batch_size start (vb_end self) (vb_max_vid self) (Some ogive), s), Err e)
                    | Panic => ((mkVidBatcher batch_size start (vb_end self) (vb_max_vid self) (Some ogive), s), Panic)
                    end
                | Err e => ((self, s), Err e)
                | Panic => ((self, s), Panic)
                end
            | Err e => ((self, s), Err e)
            | Panic => ((self, s), Panic)
            end
        | (s, Err e) => ((self, s), Err e)
        | (s, Panic) => ((self, s), Panic)
        end
    end.

(** [next_point] is unwrapped. *)
Definition set_batch_size (size : Z) (self : VidBatcher) : outcome StoreError VidBatcher :=
  let batch_size := mkBatchSize size (bs_target (vb_batch_size self)) in
  end_ ← (match vb_ogive self with
          | Some ogive => match next_point ogive (vb_start self) size with Ok e => Ok e | _ => Panic end
          | None => i64 (vb_start self + size)
          end);
  Ok (mkVidBatcher batch_size (vb_start self) end_ (vb_max_vid self) (vb_ogive self)).

End Ogives.
