(* ===== verification/Prune.v ===== *)
(** * Pruning

    Pruning removes the versions that only queries before a block need
    (store/postgres/src/relational/prune.rs and deployment_store.rs).  A table
    is either pruned by deleting versions, or rebuilt: versions are copied to a
    new table, those that can not change any more while the deployment goes on
    writing, the others under a lock, and then the new table takes the place of
    the old one.  Every statement runs on its own, and the writer of the
    deployment takes its steps between them. *)

From Stdlib Require Import ZArith Lia ZifyBool.
From stdpp Require Import base gmap list sorting strings.
From S2P Require Import Prelude Values Intern Entity Write Relational Deployment LfuCache Float64 VidBatcher.

Local Open Scope Z_scope.

(** ** Requests *)

Class PruneEnv := {
  rebuild_threshold : f64;
  delete_threshold : f64;
  prune_disable_range_bound_estimation : bool;
  batch_target_duration : Z;
}.

Record PruneRequest := mkPruneRequest {
  pr_history_blocks : BlockNumber;
  pr_reorg_threshold : BlockNumber;
  pr_earliest_block : BlockNumber;
  pr_final_block : BlockNumber;
  pr_first_block : BlockNumber;
  pr_latest_block : BlockNumber;
  pr_rebuild_threshold : f64;
  pr_delete_threshold : f64;
}.

Inductive PruningStrategy := Rebuild | Delete.

Record VersionStats := mkVersionStats {
  vs_entities : Z;
  vs_versions : Z;
  vs_tablename : string;
  vs_ratio : f64;
  vs_last_pruned_block : option BlockNumber;
  vs_block_range_upper : list BlockNumber;
}.

Section Requests.
Context `{PruneEnv}.

Definition is_fraction (x : f64) : bool := f64_geb x (f64_of_int 0) && f64_geb (f64_of_int 1) x.

Definition prune_request_new (history_blocks reorg_threshold first_block latest_block : BlockNumber) : outcome StoreError PruneRequest :=
  if negb (is_fraction rebuild_threshold) then Err (InternalError "the copy threshold must be between 0 and 1")
  else if negb (is_fraction delete_threshold) then Err (InternalError "the delete threshold must be between 0 and 1")
  else if history_blocks <=? reorg_threshold then
    Err (InternalError "the deployment needs to keep more blocks of history")
  else if latest_block <=? first_block then Err (InternalError "the earliest block must be before the latest block")
  else Ok (mkPruneRequest history_blocks reorg_threshold (latest_block - history_blocks) (latest_block - reorg_threshold)
             first_block latest_block rebuild_threshold delete_threshold).

Definition history_pct (self : PruneRequest) (stats : VersionStats) : f64 :=
  let total_blocks := pr_latest_block self - default 0 (vs_last_pruned_block stats) in
  if (total_blocks <=? 0) || (total_blocks <? pr_history_blocks self) then f64_of_int 0
  else f64_sub (f64_of_int 1) (f64_div (f64_of_int (pr_history_blocks self)) (f64_of_int total_blocks)).

Definition remove_pct_from_bounds (self : PruneRequest) (stats : VersionStats) : f64 :=
  f64_div (f64_of_int (Z.of_nat (length (filter (λ b, b ≤ pr_earliest_block self) (vs_block_range_upper stats)))))
    (f64_of_int (Z.of_nat (length (vs_block_range_upper stats)))).

Definition strategy (self : PruneRequest) (stats : VersionStats) : option PruningStrategy :=
  if pr_final_block self <=? pr_earliest_block self then None
  else
    let removal_ratio :=
      if (match vs_block_range_upper stats with [] => true | _ => false end) || prune_disable_range_bound_estimation
      then f64_mul (history_pct self stats) (f64_sub (f64_of_int 1) (vs_ratio stats))
      else remove_pct_from_bounds self stats in
    if f64_geb removal_ratio (pr_rebuild_threshold self) then Some Rebuild
    else if f64_geb removal_ratio (pr_delete_threshold self) then Some Delete
    else None.

End Requests.

(** ** The tables to prune *)

Section Prunable.
Context (table_name : Table → string).

Definition name_le (a b : Table * PruningStrategy) : Prop := String.leb (table_name a.1) (table_name b.1) = true.

#[export] Instance name_le_dec : RelDecision name_le.
Proof. intros a b. unfold name_le. apply _. Defined.

Definition prunable_tables `{PruneEnv} (layout : gmap EntityType Table) (stats : list VersionStats) (req : PruneRequest)
    : list (Table * PruningStrategy) :=
  let mutable := filter (λ table, immutable table = false) (map_to_list layout).*2 in
  merge_sort name_le
    (omap (λ table,
       stats ← head (filter (λ stats, vs_tablename stats = table_name table) stats);
       (λ strat, (table, strat)) <$> strategy req stats) mutable).

End Prunable.

(** ** Statements *)

(** What the server does for a statement: an error of its own, or the time the
    statement takes *)
Record Attempt := mkAttempt { at_error : option StoreError; at_duration : Z }.

Section Statements.
Context `{Arithmetic} `{BuildConfig} (vid : Version → Z).

(** [coalesce(upper(block_range), 2147483647)] *)
Definition upper_or_max (r : BlockRange) : BlockNumber := default BLOCK_NUMBER_MAX (range_upper r).

Definition in_blocks (first last : BlockNumber) (range : BlockRange) (v : Version) : bool :=
  match v_block v with
  | RangeCol r =>
      match range_lower r with Some l => l <=? last | None => false end &&
      (first <? upper_or_max r) && (upper_or_max r <=? last) && range_overlaps r range
  | BlockCol _ => false
  end.

(** [coalesce(min(vid), 0)] and [coalesce(max(vid), -1)] *)
Definition vids_of (vs : list Version) : VidRange :=
  match vid <$> vs with
  | [] => mkVidRange 0 (-1)
  | x :: xs => mkVidRange (foldl Z.min x xs) (foldl Z.max x xs)
  end.

Definition for_prune (first_block last_block : BlockNumber) (src : list Version) : outcome StoreError VidRange :=
  range ← int4range first_block (Some last_block);
  Ok (vids_of (filter (λ v, in_blocks first_block last_block range v = true) src)).

Definition in_batch (start end_ : Z) (v : Version) : bool := (start <=? vid v) && (vid v <=? end_).

Definition by_vid (v w : Version) : Prop := vid v ≤ vid w.

#[export] Instance by_vid_dec : RelDecision by_vid.
Proof. intros v w. unfold by_vid. apply _. Defined.

(** [insert into dst(column_list)]: the list of columns does not have the
    causality region, which can not be null. *)
Fixpoint insert_copies (table : Table) (rows dst : list Version) : outcome StoreError (list Version) :=
  match rows with
  | [] => Ok dst
  | v :: rows =>
      if has_causality_region table then Err (UnknownError "null value in column causality_region violates not-null constraint")
      else if existsb (λ w, vid w =? vid v) dst then Err (ConstraintViolation "duplicate key value violates unique constraint")
      else if as_constraint table && existsb (excludes v) dst then
        Err (UnknownError "conflicting key value violates exclusion constraint")
      else insert_copies table rows (dst ++ [v])
  end.

Definition copied (table : Table) (rows dst : list Version) : list Version * outcome StoreError nat :=
  match insert_copies table (merge_sort by_vid rows) dst with
  | Ok dst' => (dst', Ok (length rows))
  | Err e => (dst, Err e)
  | Panic => (dst, Panic)
  end.

Definition copy_final_query (table : Table) (earliest_block final_block : BlockNumber) (src : list Version) (start end_ : Z)
    : st (list Version) StoreError nat := λ dst,
  match int4range earliest_block (Some (final_block + 1)) with
  | Ok range => copied table (filter (λ v, in_blocks earliest_block final_block range v && in_batch start end_ v = true) src) dst
  | Err e => (dst, Err e)
  | Panic => (dst, Panic)
  end.

Definition is_nonfinal (final_block : BlockNumber) (v : Version) : bool :=
  match v_block v with
  | RangeCol r => (final_block <? upper_or_max r) && range_overlaps r (RRange final_block None)
  | BlockCol _ => false
  end.

Definition copy_nonfinal_query (table : Table) (final_block : BlockNumber) (src : list Version) (start end_ : Z)
    : st (list Version) StoreError nat := λ dst,
  copied table (filter (λ v, is_nonfinal final_block v && in_batch start end_ v = true) src) dst.

Definition ended_by (block : BlockNumber) (v : Version) : bool :=
  match v_block v with RangeCol r => upper_or_max r <=? block | BlockCol _ => false end.

Definition delete_query (earliest_block : BlockNumber) (start end_ : Z) : st (list Version) StoreError nat := λ src,
  (filter (λ v, ended_by earliest_block v && in_batch start end_ v = false) src,
   Ok (length (filter (λ v, ended_by earliest_block v && in_batch start end_ v = true) src))).

(** A statement in a transaction *)
Definition run_attempt {S A} (a : Attempt) (query : Z → Z → st S StoreError A) : st (VidBatcher * S) StoreError (option A) :=
  batcher_step (λ start end_ s,
    match at_error a with
    | Some e => (s, Err e)
    | None => query start end_ s
    end) (at_duration a).

Definition batch_with_timeout {S A} (first second : Attempt) (query : Z → Z → st S StoreError A)
    : st (VidBatcher * S) StoreError (option A) := λ s,
  match run_attempt first query s with
  | ((batcher, s), Err StatementTimeout) =>
      match set_batch_size 1 batcher with
      | Ok batcher => run_attempt second query (batcher, s)
      | Err e => ((batcher, s), Err e)
      | Panic => ((batcher, s), Panic)
      end
  | r => r
  end.

End Statements.

(** ** Pruning a deployment *)

(** Where pruning is; while nonfinal versions are copied, the deployment is locked. *)
Inductive PruneTask :=
| NextTable (todo : list (Table * PruningStrategy))
| CopyFinal (table : Table) (batcher : VidBatcher) (dst : list Version) (todo : list (Table * PruningStrategy))
| CopyNonfinal (table : Table) (batcher : VidBatcher) (dst : list Version) (todo : list (Table * PruningStrategy))
| Deleting (table : Table) (batcher : VidBatcher) (todo : list (Table * PruningStrategy))
| PruneFinished
| PruneErrored (error : StoreError)
| PrunePanicked.

Record PruneSystem := mkPruneSystem {
  sy_deployment : Deployment;
  sy_task : PruneTask;
  sy_last_pruned : gmap string BlockNumber;
}.

(** What the server answers in a step *)
Record Answer := mkAnswer {
  an_error : option StoreError;
  an_histogram : list Z;
  an_first : Attempt;
  an_second : Attempt;
}.

Section Pruning.
Context `{Arithmetic} `{BuildConfig} `{PruneEnv}.
Context (vid : Version → Z) (table_name : Table → string) (has_list_column : Table → bool).

Definition batch_size_new (table : Table) : AdaptiveBatchSize :=
  mkBatchSize (if has_list_column table then INITIAL_BATCH_SIZE_LIST else INITIAL_BATCH_SIZE) batch_target_duration.

Definition is_locked (s : PruneSystem) : bool := match sy_task s with CopyNonfinal _ _ _ _ => true | _ => false end.

Definition rows_of_table (table : Table) (d : Deployment) : list Version := db_versions (d_tables d) (object table).

Definition set_rows (table : Table) (vs : list Version) (d : Deployment) : Deployment :=
  set_tables (<[object table := vs]> (d_tables d)) d.

Definition set_task (task : PruneTask) (s : PruneSystem) : PruneSystem := mkPruneSystem (sy_deployment s) task (sy_last_pruned s).

Definition fail_with {A} (r : outcome StoreError A) (s : PruneSystem) : PruneSystem :=
  match r with Ok _ => s | Err e => set_task (PruneErrored e) s | Panic => set_task PrunePanicked s end.

(** The range and the batcher for the next pass over a table *)
Definition load_batcher (a : Answer) (first last : BlockNumber) (table : Table) (d : Deployment) : outcome StoreError VidBatcher :=
  match an_error a with
  | Some e => Err e
  | None =>
      range ← for_prune vid first last (rows_of_table table d);
      vid_batcher_new (an_histogram a) range (batch_size_new table)
  end.

Definition with_batcher (a : Answer) (first last : BlockNumber) (table : Table) (next : VidBatcher → PruneTask) (s : PruneSystem) : PruneSystem :=
  match load_batcher a first last table (sy_deployment s) with
  | Ok batcher => set_task (next batcher) s
  | r => fail_with r s
  end.

Definition switch (table : Table) (dst : list Version) (todo : list (Table * PruningStrategy)) (s : PruneSystem) : PruneSystem :=
  mkPruneSystem (set_rows table dst (sy_deployment s)) (NextTable todo) (sy_last_pruned s).

(** One step of [prune_inner]; [tables] are all tables that are pruned. *)
Definition prune_step (req : PruneRequest) (tables : list (Table * PruningStrategy)) (a : Answer) (s : PruneSystem) : PruneSystem :=
  let batch {A} := batch_with_timeout (A := A) (S := list Version) (an_first a) (an_second a) in
  match sy_task s with
  | NextTable [] =>
      match an_error a with
      | Some e => set_task (PruneErrored e) s
      | None =>
          mkPruneSystem (sy_deployment s) PruneFinished
            (foldl (λ m ts, <[table_name (fst ts) := pr_earliest_block req]> m) (sy_last_pruned s) tables)
      end
  | NextTable ((table, Rebuild) :: todo) =>
      with_batcher a (pr_earliest_block req) (pr_final_block req) table (λ b, CopyFinal table b [] todo) s
  | NextTable ((table, Delete) :: todo) =>
      with_batcher a 0 (pr_earliest_block req) table (λ b, Deleting table b todo) s
  | CopyFinal table batcher dst todo =>
      if batcher_finished batcher then
        with_batcher a (pr_final_block req) BLOCK_NUMBER_MAX table (λ b, CopyNonfinal table b dst todo) s
      else
        match batch (copy_final_query vid table (pr_earliest_block req) (pr_final_block req) (rows_of_table table (sy_deployment s))) (batcher, dst) with
        | ((batcher, dst), Ok _) => set_task (CopyFinal table batcher dst todo) s
        | (_, r) => fail_with r s
        end
  | CopyNonfinal table batcher dst todo =>
      if batcher_finished batcher then
        match an_error a with
        | Some e => set_task (PruneErrored e) s
        | None => switch table dst todo s
        end
      else
        match batch (copy_nonfinal_query vid table (pr_final_block req) (rows_of_table table (sy_deployment s))) (batcher, dst) with
        | ((batcher, dst), Ok _) => set_task (CopyNonfinal table batcher dst todo) s
        | (_, r) => fail_with r s
        end
  | Deleting table batcher todo =>
      if batcher_finished batcher then set_task (NextTable todo) s
      else
        match batch (delete_query vid (pr_earliest_block req)) (batcher, rows_of_table table (sy_deployment s)) with
        | ((batcher, vs), r) =>
            let s := mkPruneSystem (set_rows table vs (sy_deployment s)) (Deleting table batcher todo) (sy_last_pruned s) in
            fail_with r s
        end
  | PruneFinished | PruneErrored _ | PrunePanicked => s
  end.

(** [deployment::set_earliest_block] *)
Definition set_earliest_block (block : BlockNumber) (d : Deployment) : Deployment :=
  let st := d_status d in
  if earliest_block st <? block then
    mkDeployment (d_tables d) (d_head d)
      (mkStatus block (reorg_count st) (current_reorg_depth st) (max_reorg_depth st) (failed st) (health st) (fatal_error st) (non_fatal_errors st))
      (d_data_sources d) (d_errors d)
  else d.

(** The start of [do_prune]: whether there is anything to prune *)
Definition do_prune (layout : gmap EntityType Table) (stats : list VersionStats) (req : PruneRequest) (last_pruned : gmap string BlockNumber)
    (d : Deployment) : outcome StoreError (option PruneSystem) :=
  match head_ptr (d_head d) with
  | None => Err (QueryExecutionError "the subgraph has not started syncing yet")
  | Some latest =>
      if ptr_number latest <=? pr_history_blocks req then Ok None
      else if pr_earliest_block req <? earliest_block (d_status d) then Ok None
      else Ok (Some (mkPruneSystem (set_earliest_block (pr_earliest_block req) d)
                       (NextTable (prunable_tables table_name layout stats req)) last_pruned))
  end.

End Pruning.
