(* ===== verification/PruneFacts.v ===== *)
(** * What pruning keeps

    While a deployment is pruned and the writer goes on writing and reverting
    blocks that are not final, no query for a block from the earliest one on
    notices, whichever statements fail, and in the end the versions that nobody
    can ask for are gone. *)

From Stdlib Require Import ZArith Lia ZifyBool.
From stdpp Require Import base gmap list sorting strings relations.
From S2P Require Import Prelude Values Intern Entity Write WriteFacts Relational RelationalFacts AppendFacts BatchFacts ReadFacts RevertFacts.
From S2P Require Import Deployment DeploymentFacts SyncStore LfuCache Float64 VidBatcher Prune SourceFacts HistoryFacts.

Local Open Scope Z_scope.

(** ** Versions that ended are final *)

Definition same_ended (f : BlockNumber) (vs vs' : list Version) : Prop := ∀ v, ended_by f v = true → v ∈ vs ↔ v ∈ vs'.

#[local] Instance same_ended_equiv f : Equivalence (same_ended f).
Proof.
  split; [done|..].
  - intros vs vs' Hs v Hv. by rewrite (Hs v Hv).
  - intros vs vs' vs'' H1 H2 v Hv. by rewrite (H1 v Hv), (H2 v Hv).
Qed.

Lemma ended_not_latest f v : f < BLOCK_NUMBER_MAX → ranged v → ended_by f v = true → latest v = false.
Proof.
  intros Hf [r Hr]. unfold ended_by, latest, upper_or_max. rewrite Hr. destruct r as [|l [u|]]; cbn; try done; lia.
Qed.

Lemma clamp_ended f ids b v : f < b → b ≤ BLOCK_NUMBER_MAX → f < BLOCK_NUMBER_MAX → clamp_fn ids b v = v ∨ ended_by f (clamp_fn ids b v) = false.
Proof.
  intros Hb Hmax Hf. unfold clamp_fn. destruct (_ && _); [|by left]. destruct (v_block v) as [|[|l u]]; [by left..|]. right.
  unfold ended_by, upper_or_max. cbn. destruct (l <? b); cbn; lia.
Qed.

Lemma clamps_same_ended f ids b vs : f < b → b ≤ BLOCK_NUMBER_MAX → Forall ranged vs → same_ended f vs (clamp_fn ids b <$> vs).
Proof.
  intros Hb Hmax Hr v Hv. split.
  - intros Hin. apply list_elem_of_fmap. exists v. split; [|done]. rewrite Forall_forall in Hr. unfold clamp_fn.
    rewrite (ended_not_latest f v) by (auto; lia). by rewrite andb_false_r.
  - intros (w & -> & Hw)%list_elem_of_fmap. destruct (clamp_ended f ids b w) as [->|Hn]; [lia|done|lia|done|congruence].
Qed.

Lemma snoc_same_ended f v vs : ended_by f v = false → same_ended f vs (vs ++ [v]).
Proof. intros Hv w Hw. rewrite elem_of_app, list_elem_of_singleton. split; [by left|]. intros [?| ->]; [done|congruence]. Qed.

Section Rows.
Context `{EnvVars} `{InputSchema} `{BuildConfig} (table : Table) (t : EntityType) (f : BlockNumber).
Context (Hmut : immutable table = false).

Lemma write_row_ended r vs vs' :
  f < emod_block r → row_wf t r → Forall ranged vs → (creates_entity r = true → none_current (emod_id r) vs) →
  write_row table r vs = Ok vs' → same_ended f vs vs'.
Proof using Hmut.
  intros Hf Hr Hrg Hfresh. unfold write_row. fold (row_clamp r vs). rewrite bind_ok. intros (vs1 & Hc & Hi).
  destruct (row_clamp_fn (emod_id r) _ _ _ eq_refl Hfresh Hc) as [-> _]. pose proof Hr as [Hmax _].
  etrans; [apply (clamps_same_ended f [emod_id r] (emod_block r)); done|].
  destruct (as_write r) as [w|] eqn:Hw; [|injection Hi as <-; done]. apply insert_write_ok in Hi as (v & Hv & _ & _ & ->); [|done].
  apply snoc_same_ended. apply new_version_mut in Hv as (_ & _ & _ & Hb); [|done]. destruct Hr as (_ & _ & _ & Hr).
  assert (∃ u, v_block v = RangeCol (RRange (emod_block r) u) ∧ match u with Some u => emod_block r < u | None => True end) as (u & Hvb & Hu).
  { destruct r as [k d b [e|]|k d b [e|]|k b]; simplify_eq/=; try (rewrite Hb by apply Hr); try rewrite Hb; eexists; (split; [done|]); try apply Hr; done. }
  unfold ended_by, upper_or_max. rewrite Hvb. destruct u as [u|]; cbn; lia.
Qed.

Lemma rows_seq_ended rws vs vs' : Forall (λ r, f < emod_block r) rws → Forall (row_wf t) rws → Forall ranged vs → inserts_ok table rws vs →
  rows_seq table rws vs = Ok vs' → same_ended f vs vs'.
Proof using Hmut.
  revert vs. induction rws as [|r rws IH]; intros vs Hf Hwf Hrg Hins; cbn [rows_seq]; [by intros [= <-]|].
  rewrite bind_ok. intros (vs1 & Hw & Hs). apply Forall_cons in Hf as [Hfr Hf]. apply Forall_cons in Hwf as [Hr Hwf]. destruct Hins as [Hfresh Hins].
  etrans; [by eapply write_row_ended|]. apply IH; auto. by eapply write_row_ranged.
Qed.

Lemma revert_ended n vs : f < n → f < BLOCK_NUMBER_MAX → history_ok table vs → same_ended f vs (revert_table table n vs).1.
Proof using Hmut.
  intros Hn Hf [_ Hwf] v Hv. unfold revert_table, revert_remove, revert_clamp. rewrite Hmut. cbn. rewrite list_elem_of_fmap. rewrite Forall_forall in Hwf. split.
  - intros Hin. exists v. specialize (Hwf v Hin). unfold version_wf in Hwf. unfold ended_by, upper_or_max in Hv. split.
    + unfold unclamp_version, unclamps. destruct (v_block v) as [|[|l [u|]]]; [done|done| |cbn in Hv; lia]. cbn in *.
      destruct (_ && _) eqn:He; [lia|done].
    + apply list_elem_of_filter. split; [|done]. unfold changed_since. destruct (v_block v) as [|[|l [u|]]]; try done; cbn in *; lia.
  - intros (w & -> & [Hc Hw]%list_elem_of_filter). unfold unclamp_version in *. destruct (unclamps _ w) eqn:Hu; [|done].
    exfalso. specialize (Hwf w Hw). unfold unclamps in Hu. unfold ended_by, upper_or_max in Hv. destruct (v_block w) as [|[|l u]] eqn:Hb; try done. cbn in Hv. lia.
Qed.

End Rows.

(** ** Batches *)

Section Batches.
Context `{Arithmetic}.

(** Vids are 64 bits wide. *)
Definition batcher_ok (b : VidBatcher) : Prop :=
  I64_MIN ≤ vb_end b ∧ match vb_ogive b with Some o => I64_MIN ≤ ogive_end o | None => True end.

Lemma wrap64_ge z : I64_MIN ≤ wrap64 z.
Proof. unfold wrap64, I64_MIN. pose proof (Z.mod_pos_bound (z + 2 ^ 63) (2 ^ 64)). lia. Qed.

Lemma i64_ge {E} z r : i64 (E := E) z = Ok r → I64_MIN ≤ r ∧ (I64_MIN ≤ z → r ≤ z).
Proof.
  unfold i64. destruct (_ && _) eqn:Hz; [intros [= <-]; lia|]. destruct overflow_checks; [done|]. intros [= <-]. split; [apply wrap64_ge|].
  intros Hge. assert (I64_MAX < z) as Hgt by lia. unfold wrap64, I64_MAX in *.
  pose proof (Z.mod_le (z + 2 ^ 63 - 2 ^ 64) (2 ^ 64)). rewrite <- (Z_mod_plus_full _ (-1)). replace (z + 2 ^ 63 + -1 * 2 ^ 64) with (z + 2 ^ 63 - 2 ^ 64) by lia. lia.
Qed.

Lemma next_point_ge o p size e : I64_MIN ≤ ogive_end o → next_point o p size = Ok e → I64_MIN ≤ e.
Proof.
  intros Ho. unfold next_point. destruct (_ <=? p); [by intros [= <-]|]. destruct (check_in_range o p); cbn; [|done..].
  destruct (ogive_value o p) as [v| |]; cbn; [|done..]. destruct (i64 (v + size)) as [w| |]; cbn; [|done..]. unfold ogive_inverse.
  destruct (w <? 0); [done|]. destruct (_ =? 0); [done|]. destruct (_ <=? _)%nat; [by intros [= <-]|].
  destruct (points o !! _) as [x|]; [|done]. destruct (points o !! _) as [y|]; [|done]. destruct (i64 (y - x)) as [?| |]; cbn; [|done..]. by intros [? _]%i64_ge.
Qed.

Context {S A : Type} (q : Z → Z → st S StoreError A).

(** What a batch has done: nothing, or the work for the vids from the start on
    to some end, behind which the next batch does not begin later. *)
Definition batch_done (b : VidBatcher) (s : S) (b' : VidBatcher) (s' : S) : Prop :=
  batcher_ok b' ∧ vb_max_vid b' = vb_max_vid b ∧
  (vb_start b' = vb_start b ∧ s' = s ∨ ∃ e n, q (vb_start b) e s = (s', Ok n) ∧ vb_start b' ≤ e + 1).

Lemma attempt_spec a b s b' s' r : batcher_ok b → run_attempt a q (b, s) = ((b', s'), Ok r) → batch_done b s b' s'.
Proof.
  intros Hb. unfold run_attempt, batcher_step. destruct (batcher_finished b).
  { intros [= <- <- _]. split; [done|]. split; [done|]. by left. }
  destruct Hb as [He Ho]. destruct (vb_ogive b) as [o|] eqn:Hog.
  2:{ intros [= <- <- _]. split; [|split; [done|by left]]. split; [done|]. by rewrite Hog. }
  destruct (at_error a); [done|]. destruct (q _ _ s) as [s1 [n| |]] eqn:Hq; [|done..]. destruct (adapt _ _) as [bs| |]; [|done..].
  destruct (i64 (vb_end b + 1)) as [x| |] eqn:Hx; cbn; [|done..]. destruct (i64 (vb_max_vid b + 1)) as [y| |]; cbn; [|done..].
  destruct (next_point _ _ _) as [e| |] eqn:Hn; [|done..]. intros [= <- <- _]. split; [|split; [done|]].
  - split; [|done]. by eapply next_point_ge.
  - right. exists (vb_end b), n. split; [done|]. cbn. apply i64_ge in Hx as [_ Hx]. lia.
Qed.

Lemma i64_not_err {E} z e : i64 (E := E) z ≠ Err e.
Proof. unfold i64. destruct (_ && _); [done|]. by destruct overflow_checks. Qed.

Lemma next_point_no_timeout o p size : next_point o p size ≠ Err StatementTimeout.
Proof.
  unfold next_point. destruct (_ <=? p); [done|]. unfold check_in_range. destruct (_ && _) eqn:Hc; cbn; [|done].
  assert (∀ p, ogive_value o p ≠ Err StatementTimeout) as Hv.
  { intros p'. unfold ogive_value, interval_start, check_in_range. destruct (_ =? _)%nat; [done|]. destruct ((ogive_start o <=? p') && _); [|done]. cbn [mbind outcome_bind].
    destruct (default _ _) as [|idx]; cbn [mbind outcome_bind]; [done|]. destruct (points o !! _) as [x|]; [|done]. destruct (points o !! _) as [y|]; [|done].
    destruct (i64 (p' - x)) as [?|?|] eqn:Hi; cbn; [|by apply i64_not_err in Hi|done]. destruct (i64 (y - x)) as [?|?|] eqn:Hj; cbn; [done|by apply i64_not_err in Hj|done]. }
  specialize (Hv p). destruct (ogive_value o p) as [v| |]; cbn; [|congruence|done]. destruct (i64 (v + size)) as [w|?|] eqn:Hw; cbn; [|by apply i64_not_err in Hw|done].
  unfold ogive_inverse. destruct (w <? 0); [done|]. destruct (_ =? 0); [done|]. destruct (_ <=? _)%nat; [done|].
  destruct (points o !! _) as [x|]; [|done]. destruct (points o !! _) as [y|]; [|done]. destruct (i64 (y - x)) as [?|?|] eqn:Hi; cbn; [|by apply i64_not_err in Hi|done].
  apply i64_not_err.
Qed.

Context (Hq : ∀ x y s, (q x y s).2 ≠ Err StatementTimeout).

Lemma attempt_timeout a b s b' s' : run_attempt a q (b, s) = ((b', s'), Err StatementTimeout) → s' = s ∧ b' = b.
Proof using Hq.
  unfold run_attempt, batcher_step. destruct (batcher_finished b); [done|]. destruct (vb_ogive b) as [o|]; [|done].
  destruct (at_error a) as [e|]; [by intros [= <- <- _]|]. specialize (Hq (vb_start b) (vb_end b) s). destruct (q _ _ s) as [s1 [n|e|]]; cbn in Hq; [|congruence|done].
  destruct (adapt _ _) as [bs|e|] eqn:Ha; [| |done].
  2:{ exfalso. unfold adapt in Ha. destruct (i64 _) as [?|?|] eqn:Hi; cbn in Ha; [done| |done]. by apply i64_not_err in Hi. }
  destruct (i64 (vb_end b + 1)) as [x|?|] eqn:Hx; cbn; [|by apply i64_not_err in Hx|done]. destruct (i64 (vb_max_vid b + 1)) as [y|?|] eqn:Hy; cbn; [|by apply i64_not_err in Hy|done].
  destruct (next_point _ _ _) as [e|e|] eqn:Hn; [done| |done]. intros [= _ _ ->]. by apply next_point_no_timeout in Hn.
Qed.

Lemma set_batch_size_ok size b b' : batcher_ok b → set_batch_size size b = Ok b' → batcher_ok b' ∧ vb_start b' = vb_start b ∧ vb_max_vid b' = vb_max_vid b.
Proof.
  intros [He Ho]. unfold set_batch_size. destruct (vb_ogive b) as [o|] eqn:Hog.
  - destruct (next_point _ _ _) as [e| |] eqn:Hn; cbn; [|done..]. intros [= <-]. split; [|done]. split; [by eapply next_point_ge|done].
  - destruct (i64 _) as [e| |] eqn:Hi; cbn; [|done..]. intros [= <-]. split; [|done]. split; [|done]. by apply i64_ge in Hi as [? _].
Qed.

Lemma batch_spec a1 a2 b s b' s' r : batcher_ok b → batch_with_timeout a1 a2 q (b, s) = ((b', s'), Ok r) → batch_done b s b' s'.
Proof using Hq.
  intros Hb. unfold batch_with_timeout. destruct (run_attempt a1 q (b, s)) as [[b1 s1] [n|e|]] eqn:Hr; [|destruct e|]; try done.
  - intros [= <- <- _]. by eapply attempt_spec.
  - apply attempt_timeout in Hr as [-> ->]. destruct (set_batch_size 1 b) as [b2| |] eqn:Hs; [|done..].
    destruct (set_batch_size_ok _ _ _ Hb Hs) as (Hb2 & Hst & Hmax). intros (Hok & Hm & Hd)%attempt_spec; [|done].
    split; [done|]. rewrite <- Hst, <- Hmax. done.
Qed.

(** Whatever happens, the state is as the work leaves it. *)
Lemma batch_keeps (P : S → S → Prop) `{!PreOrder P} a1 a2 b s : (∀ x y s, P s (q x y s).1) → P s (batch_with_timeout a1 a2 q (b, s)).1.2.
Proof.
  intros HP. assert (∀ a b s, P s (run_attempt a q (b, s)).1.2) as Hatt.
  { intros a b1 s1. unfold run_attempt, batcher_step. destruct (batcher_finished b1); [done|]. destruct (vb_ogive b1) as [o|]; [|done].
    destruct (at_error a); [done|]. specialize (HP (vb_start b1) (vb_end b1) s1). destruct (q _ _ s1) as [s2 [n| |]]; cbn in *; [|done..].
    destruct (adapt _ _); [|done..]. destruct (_ ≫= _); [|done..]. by destruct (next_point _ _ _). }
  unfold batch_with_timeout. pose proof (Hatt a1 b s) as H1. destruct (run_attempt a1 q (b, s)) as [[b1 s1] [n|[]|]]; cbn in *; try done.
  destruct (set_batch_size 1 b1) as [b2| |]; cbn; [|done..]. etrans; [exact H1|]. apply Hatt.
Qed.

End Batches.

(** ** The ranges of batches *)

Lemma dedup_points_elem l x : x ∈ dedup_points l → x ∈ l.
Proof.
  induction l as [|y l IH]; [done|]. cbn. destruct (dedup_points l) as [|z r]; [set_solver|]. destruct (Z.eqb_spec y z); set_solver.
Qed.

Lemma relevant_bounds_in bounds range x : vr_min range ≤ vr_max range → x ∈ relevant_bounds bounds range → vr_min range ≤ x ≤ vr_max range.
Proof.
  intros Hr. unfold relevant_bounds. set (l := filter _ bounds).
  assert (Forall (λ b, vr_min range ≤ b ≤ vr_max range) l) as Hl by (apply Forall_forall; intros b Hb; by apply list_elem_of_filter in Hb as [? _]).
  assert (Forall (λ b, vr_min range ≤ b ≤ vr_max range) (if (1 <? length l)%nat then <[(length l - 1)%nat := vr_max range]> (<[0%nat := vr_min range]> l) else [vr_min range; vr_max range])) as Hall.
  { destruct (1 <? length l)%nat; [|repeat constructor; lia]. repeat (apply Forall_insert; [|lia]). done. }
  rewrite Forall_forall in Hall. apply Hall.
Qed.

Lemma ogive_end_in pts total o : from_equi_histogram pts total = Ok o → ogive_end o ∈ pts.
Proof.
  unfold from_equi_histogram. destruct pts as [|p pts]; [done|]. set (l := dedup_points _). destruct (l !! 0%nat); [|done].
  destruct (l !! (length l - 1)%nat) as [y|] eqn:Hy; [|done]. intros [= <-]. cbn. apply list_elem_of_lookup_2, dedup_points_elem in Hy.
  by rewrite merge_sort_Permutation in Hy.
Qed.

Section Ranges.
Context `{Arithmetic} `{PruneEnv} (vid : Version → Z) (has_list_column : Table → bool).
Context (Hvid : ∀ v, I64_MIN ≤ vid v).

Lemma vids_of_in vs v : v ∈ vs → vr_min (vids_of vid vs) ≤ vid v ≤ vr_max (vids_of vid vs).
Proof.
  intros Hv. unfold vids_of. assert (vid v ∈ vid <$> vs) as Hin by by apply list_elem_of_fmap_2. destruct (vid <$> vs) as [|x xs]; [set_solver|].
  cbn. assert (∀ l a, foldl Z.min a l ≤ a ∧ ∀ y, y ∈ l → foldl Z.min a l ≤ y) as Hmin.
  { induction l as [|y l IH]; intros a; cbn; [split; [lia|set_solver]|]. destruct (IH (Z.min a y)) as [? ?]. split; [lia|]. intros z [->|Hz]%elem_of_cons; [lia|auto]. }
  assert (∀ l a, a ≤ foldl Z.max a l ∧ ∀ y, y ∈ l → y ≤ foldl Z.max a l) as Hmax.
  { induction l as [|y l IH]; intros a; cbn; [split; [lia|set_solver]|]. destruct (IH (Z.max a y)) as [? ?]. split; [lia|]. intros z [->|Hz]%elem_of_cons; [lia|auto]. }
  destruct (Hmin xs x), (Hmax xs x). apply elem_of_cons in Hin as [->|Hin]; split; auto.
Qed.

Lemma vids_of_ge vs : I64_MIN ≤ vr_min (vids_of vid vs).
Proof using Hvid.
  unfold vids_of. destruct vs as [|v vs]; [done|]. cbn. generalize (Hvid v). generalize (vid v). induction vs as [|w vs IH]; intros x Hx; cbn; [done|].
  apply IH. specialize (Hvid w). lia.
Qed.

Lemma vid_batcher_new_ok bounds range size b : I64_MIN ≤ vr_min range → vid_batcher_new bounds range size = Ok b →
  batcher_ok b ∧ vb_start b = vr_min range ∧ vb_max_vid b = vr_max range.
Proof.
  intros Hr. unfold vid_batcher_new, range_is_empty. destruct (_ || _) eqn:He.
  - destruct (i64 _) as [e| |] eqn:Hi; cbn; [|done..]. intros [= <-]. split; [|done]. split; [|done]. by apply i64_ge in Hi as [? _].
  - destruct (from_equi_histogram _ _) as [o| |] eqn:Ho; cbn; [|done..]. apply ogive_end_in, relevant_bounds_in in Ho; [|lia].
    destruct (next_point _ _ _) as [e| |] eqn:Hn; cbn; [|done..]. intros [= <-]. split; [|done]. assert (I64_MIN ≤ ogive_end o) by lia.
    split; [by eapply next_point_ge|done].
Qed.

Lemma load_batcher_ok a first last table d b : load_batcher vid has_list_column a first last table d = Ok b →
  batcher_ok b ∧ ∃ range, int4range first (Some last) = Ok range ∧
    ∀ v, v ∈ rows_of_table table d → in_blocks first last range v = true → vb_start b ≤ vid v ≤ vb_max_vid b.
Proof using Hvid.
  unfold load_batcher, for_prune. destruct (an_error a); [done|]. destruct (int4range first (Some last)) as [range| |]; cbn; [|done..].
  intros (Hok & -> & ->)%vid_batcher_new_ok; [|apply vids_of_ge]. split; [done|]. exists range. split; [done|]. intros v Hv Hb. apply vids_of_in.
  by apply list_elem_of_filter.
Qed.

End Ranges.

Lemma sublist_in {A} (l k : list A) x : sublist l k → x ∈ l → x ∈ k.
Proof. induction 1; set_solver. Qed.

Lemma sublist_Forall {A} (P : A → Prop) (l k : list A) : sublist l k → Forall P k → Forall P l.
Proof. rewrite !Forall_forall. intros Hs Hk x Hx. by apply Hk, (sublist_in l). Qed.

(** ** Copies *)

Section Copies.
Context `{BuildConfig} (vid : Version → Z).

Lemma insert_copies_ok table rows dst dst' : insert_copies vid table rows dst = Ok dst' → dst' = dst ++ rows ∧ (NoDup (vid <$> dst) → NoDup (vid <$> dst')).
Proof.
  revert dst. induction rows as [|v rows IH]; intros dst; cbn; [intros [= <-]; by rewrite app_nil_r|].
  destruct (has_causality_region table); [done|]. destruct (existsb _ dst) eqn:He; [done|]. destruct (_ && _); [done|].
  intros [-> Hnd]%IH. split; [by rewrite <- app_assoc|]. intros Hd. apply Hnd. rewrite fmap_app. apply NoDup_app. split_and!; [done| |apply NoDup_singleton].
  intros x (w & -> & Hw)%list_elem_of_fmap Heq%list_elem_of_singleton. apply not_true_iff_false in He. apply He, existsb_exists.
  exists w. split; [by apply list_elem_of_In|lia].
Qed.

Lemma copied_ok table rows dst dst' n : copied vid table rows dst = (dst', Ok n) →
  (∀ v, v ∈ dst' ↔ v ∈ dst ∨ v ∈ rows) ∧ (NoDup (vid <$> dst) → NoDup (vid <$> dst')).
Proof.
  unfold copied. destruct (insert_copies _ _ _ _) as [d| |] eqn:Hi; [|done..]. intros [= <- _]. apply insert_copies_ok in Hi as [-> Hnd]. split; [|done].
  intros v. by rewrite elem_of_app, merge_sort_Permutation.
Qed.

Lemma insert_copies_no_timeout table rows dst : insert_copies vid table rows dst ≠ Err StatementTimeout.
Proof. revert dst. induction rows as [|v rows IH]; intros dst; cbn; [done|]. destruct (has_causality_region table); [done|]. destruct (existsb _ dst); [done|]. by destruct (_ && _). Qed.

Lemma copied_no_timeout table rows dst : (copied vid table rows dst).2 ≠ Err StatementTimeout.
Proof. unfold copied. pose proof (insert_copies_no_timeout table (merge_sort (by_vid vid) rows) dst). destruct (insert_copies _ _ _ _); cbn; congruence. Qed.

Lemma copy_final_no_timeout table e f src x y dst : (copy_final_query vid table e f src x y dst).2 ≠ Err StatementTimeout.
Proof.
  unfold copy_final_query. destruct (int4range _ _) as [r|err|] eqn:Hr; [apply copied_no_timeout| |done]. unfold int4range in Hr.
  destruct (_ <? _); [done|]. destruct (_ =? _); [done|]. injection Hr as <-. done.
Qed.

(** A part of a history *)
Lemma apart_sym v w : apart v w → apart w v.
Proof. intros Ha Hid b Hb. apply not_true_iff_false. intros Hc. by rewrite (Ha (eq_sym Hid) b Hc) in Hb. Qed.

Lemma apart_any vs v w : StronglySorted apart vs → v ∈ vs → w ∈ vs → v = w ∨ apart v w.
Proof.
  induction 1 as [|u vs Hs IH Hu]; [set_solver|]. rewrite Forall_forall in Hu. rewrite !elem_of_cons.
  intros [->|Hv] [->|Hw]; [by left|right; auto|right; by apply apart_sym, Hu|auto].
Qed.

Lemma history_part table vs vs' : history_ok table vs → (∀ v, v ∈ vs' → v ∈ vs) → NoDup (vid <$> vs') → history_ok table vs'.
Proof.
  intros [Hs Hwf] Hsub Hnd. split; [|apply Forall_forall; intros v Hv; rewrite Forall_forall in Hwf; by apply Hwf, Hsub].
  induction vs' as [|v vs' IH]; [constructor|]. apply NoDup_cons in Hnd as [Hn Hnd]. constructor; [apply IH; [set_solver|done]|].
  apply Forall_forall. intros w Hw. destruct (apart_any vs v w) as [->|Ha]; [done|set_solver..| |done]. destruct Hn. by apply list_elem_of_fmap_2.
Qed.

Lemma history_filter table (P : Version → Prop) `{∀ v, Decision (P v)} vs : history_ok table vs → history_ok table (filter P vs).
Proof. intros [Hs Hwf]. split; [by apply StronglySorted_filter|by apply Forall_filter_l]. Qed.

End Copies.

(** ** Pruning next to the writer *)

Section System.
Set Default Proof Using "Type".
Context `{EnvVars} `{InputSchema} `{BuildConfig} `{DeploymentConfig} `{Arithmetic} `{PruneEnv}.
Context (value_too_large : list EntityWrite → bool) (layout : gmap EntityType Table).
Context (Hlarge : ∀ ws, value_too_large ws = false) (Hlayout : layout_ok layout) (Hintf : ∀ t, share_interfaces t = []).
Context (vid : Version → Z) (table_name : Table → string) (has_list_column : Table → bool).
Context (Hvid : ∀ v, I64_MIN ≤ vid v).
Context (req : PruneRequest) (tables : list (Table * PruningStrategy)).

#[local] Abbreviation e := (pr_earliest_block req).
#[local] Abbreviation f := (pr_final_block req).
#[local] Abbreviation step := (prune_step vid table_name has_list_column req tables).

Definition set_deployment (d : Deployment) (s : PruneSystem) : PruneSystem := mkPruneSystem d (sy_task s) (sy_last_pruned s).

(** The writer and pruning take turns.  The writer waits for the lock, and
    does not revert blocks that are final. *)
Inductive system_step : PruneSystem → PruneSystem → Prop :=
| sys_write b s d : is_locked s = false → deployment_accepts layout b (sy_deployment s) →
    transact_block_operations value_too_large layout b (sy_deployment s) = Ok d → system_step s (set_deployment d s)
| sys_revert p c s d : is_locked s = false → f ≤ ptr_number p →
    revert_block_operations layout p c (sy_deployment s) = Ok d → system_step s (set_deployment d s)
| sys_prune a s : system_step s (step a s).

(** *** The writer *)

Definition ended_kept (d d' : Deployment) : Prop :=
  ∀ table, layout !! object table = Some table → immutable table = false → same_ended f (rows_of_table table d) (rows_of_table table d').

Definition sound (d : Deployment) : Prop := deployment_ok layout d ∧ histories layout (d_tables d) ∧ f ≤ head_number d.

Lemma write_sound b d d' : sound d → deployment_accepts layout b d → transact_block_operations value_too_large layout b d = Ok d' → sound d' ∧ ended_kept d d'.
Proof using Hlarge Hlayout Hintf.
  intros (Hok & Hhist & Hf) Hacc Htr. destruct (deployment_transact_ok value_too_large layout Hlarge Hlayout Hintf b d d' Hok Hacc Htr) as [Hok' Hhd].
  destruct Hacc as (Hfit & Hins & _). destruct (transact_spec value_too_large layout b d d' Htr) as (c & Happ & _).
  destruct Hok as [Hok _]. split; [split_and!; [done|by eapply (apply_histories value_too_large layout Hlarge Hlayout Hintf)|]|].
  { rewrite Hhd. destruct Hfit as (_ & [Hb _] & ? & _). lia. }
  intros table Ht Him. unfold rows_of_table.
  destruct (applied_rows value_too_large layout Hlarge Hlayout Hintf _ b _ _ _ _ _ table Hok Hfit Hins Happ Ht) as [->|(rws & Hs & Hwf & Hbl & Hr)]; [done|].
  rewrite Him in Hr. destruct Hr as (_ & Hrg & _ & Hio). eapply (rows_seq_ended table _ f Him); [|exact Hwf|done|done|exact Hs].
  eapply Forall_impl; [exact Hbl|]. cbn. lia.
Qed.

Lemma revert_sound p c d d' : sound d → f ≤ ptr_number p → revert_block_operations layout p c d = Ok d' → sound d' ∧ ended_kept d d'.
Proof using Hlayout.
  intros (Hok & Hhist & Hf) Hp Hr. destruct (deployment_revert_ok layout p c d d' Hok Hr) as (Hok' & Hhd & Hlt).
  destruct (revert_spec layout p c d d' Hr) as (_ & _ & _ & Htab & _). destruct Hok as [Hok Hmax].
  split; [split_and!; [done|rewrite Htab; apply (revert_histories layout _ (head_number d)); [done|lia|done|done]|lia]|].
  intros table Ht Him. unfold rows_of_table. rewrite Htab, (revert_block_versions layout _ _ _ table Ht).
  apply revert_ended; [done|lia|lia|by apply Hhist].
Qed.

(** *** What holds in every task *)

Context (Hef : 0 ≤ e < f).

Definition pruned (vs : list Version) : Prop := ∀ v, v ∈ vs → ended_by e v = false.

(** A final version that is still needed *)
Definition kept_final (v : Version) : Prop := ended_by f v = true ∧ ended_by e v = false.

Definition prunable (table : Table) : Prop := layout !! object table = Some table ∧ immutable table = false.

(** The tables before those in [todo] are done. *)
Definition covered (todo : list (Table * PruningStrategy)) (d : Deployment) : Prop :=
  ∃ done, tables = done ++ todo ∧ ∀ ts, ts ∈ done → pruned (rows_of_table ts.1 d).

(** The versions with [Q] are copied up to where the batcher is. *)
Definition copying (Q : Version → Prop) (b : VidBatcher) (src dst : list Version) : Prop :=
  ∀ v, v ∈ src → Q v → vid v ≤ vb_max_vid b ∧ (vid v < vb_start b → v ∈ dst).

Definition task_ok (d : Deployment) (task : PruneTask) : Prop :=
  match task with
  | NextTable todo => covered todo d
  | CopyFinal table b dst todo =>
      (∃ strat, covered ((table, strat) :: todo) d) ∧ batcher_ok b ∧ NoDup (vid <$> dst) ∧
      copying kept_final b (rows_of_table table d) dst ∧ ∀ v, v ∈ dst → v ∈ rows_of_table table d ∧ kept_final v
  | CopyNonfinal table b dst todo =>
      (∃ strat, covered ((table, strat) :: todo) d) ∧ batcher_ok b ∧ NoDup (vid <$> dst) ∧
      copying (λ v, is_nonfinal f v = true) b (rows_of_table table d) dst ∧
      (∀ v, v ∈ rows_of_table table d → kept_final v → v ∈ dst) ∧ ∀ v, v ∈ dst → v ∈ rows_of_table table d ∧ ended_by e v = false
  | Deleting table b todo =>
      (∃ strat, covered ((table, strat) :: todo) d) ∧ batcher_ok b ∧
      ∀ v, v ∈ rows_of_table table d → ended_by e v = true → vb_start b ≤ vid v ≤ vb_max_vid b
  | PruneFinished => ∀ ts, ts ∈ tables → pruned (rows_of_table ts.1 d)
  | PruneErrored _ | PrunePanicked => True
  end.

(** Blocks have numbers from 0 on. *)
Definition ends_positive (d : Deployment) : Prop :=
  ∀ table v, prunable table → v ∈ rows_of_table table d → ended_by 0 v = false.

Definition system_ok (s : PruneSystem) : Prop :=
  sound (sy_deployment s) ∧ ends_positive (sy_deployment s) ∧ task_ok (sy_deployment s) (sy_task s) ∧
  Forall (λ ts, prunable ts.1) tables.

Lemma ended_mono a b v : a ≤ b → ended_by a v = true → ended_by b v = true.
Proof. unfold ended_by. destruct (v_block v); [done|]. lia. Qed.

Lemma pruned_same vs vs' : same_ended f vs vs' → pruned vs → pruned vs'.
Proof using Hef.
  intros Hs Hp v Hv. destruct (ended_by e v) eqn:He; [|done]. rewrite <- (Hp v), He; [done|]. apply Hs; [|done]. by apply (ended_mono e); [lia|].
Qed.

Lemma covered_prunable todo d table strat : Forall (λ ts, prunable ts.1) tables → covered ((table, strat) :: todo) d → prunable table.
Proof. intros Hall (don & Ht & _). rewrite Ht in Hall. by apply Forall_app in Hall as [_ [? _]%Forall_cons]. Qed.

Lemma covered_kept todo d d' : Forall (λ ts, prunable ts.1) tables → ended_kept d d' → covered todo d → covered todo d'.
Proof using Hef.
  intros Hall Hk (don & Ht & Hd). exists don. split; [done|]. intros ts Hts. rewrite Ht, Forall_app, Forall_forall in Hall. destruct Hall as [Hall _].
  destruct (Hall ts Hts). eapply pruned_same; [by apply Hk|]. by apply Hd.
Qed.

(** The writer does not get in the way. *)
Lemma writer_task d d' s :
  Forall (λ ts, prunable ts.1) tables → is_locked s = false → ended_kept d d' → task_ok d (sy_task s) → task_ok d' (sy_task s).
Proof using Hef.
  intros Hall Hl Hk. unfold is_locked in Hl. destruct (sy_task s) as [todo|table b dst todo|table b dst todo|table b todo| | |]; cbn; try done.
  - by apply covered_kept.
  - intros ([strat Hc] & Hb & Hnd & Hcp & Hdst). destruct (covered_prunable _ _ _ _ Hall Hc) as [Hlt Him]. specialize (Hk table Hlt Him) as Hs.
    split_and!; [exists strat; by eapply covered_kept|done|done|..].
    + intros v Hv Hq. apply Hcp; [|done]. apply Hs; [apply Hq|done].
    + intros v Hv. destruct (Hdst v Hv) as [Hin Hq]. split; [|done]. apply Hs; [apply Hq|done].
  - intros ([strat Hc] & Hb & Hdel). destruct (covered_prunable _ _ _ _ Hall Hc) as [Hlt Him]. specialize (Hk table Hlt Him) as Hs.
    split_and!; [exists strat; by eapply covered_kept|done|]. intros v Hv He. apply Hdel; [|done]. apply Hs; [|done]. by apply (ended_mono e); [lia|].
  - intros Hp ts Hts. rewrite Forall_forall in Hall. destruct (Hall ts Hts). eapply pruned_same; [by apply Hk|]. by apply Hp.
Qed.

Lemma writer_positive d d' : ended_kept d d' → ends_positive d → ends_positive d'.
Proof using Hef.
  intros Hk Hp table v [Hlt Him] Hv. destruct (ended_by 0 v) eqn:He; [|done]. rewrite <- (Hp table v), He; [done|done|].
  apply (Hk table Hlt Him); [|done]. by apply (ended_mono 0); [lia|].
Qed.

(** *** The conditions of the statements *)

Lemma kept_final_in table range x v : f < BLOCK_NUMBER_MAX → version_wf table v → immutable table = false → f ≤ x → int4range e (Some x) = Ok range →
  in_blocks e f range v = true ↔ kept_final v.
Proof using Hef.
  intros Hmax Hwf Him Hx Hr. unfold int4range in Hr. replace (e <? x) with true in Hr by lia. injection Hr as <-.
  unfold kept_final, in_blocks, ended_by, version_wf, upper_or_max in *. destruct (v_block v) as [|[|l [u|]]]; cbn in *; [congruence| | |]; split; try lia.
Qed.

Lemma ended_in_blocks table range v : f < BLOCK_NUMBER_MAX → version_wf table v → immutable table = false → int4range 0 (Some e) = Ok range →
  ended_by 0 v = false → ended_by e v = true → in_blocks 0 e range v = true.
Proof using Hef.
  intros Hmax Hwf Him Hr. unfold in_blocks, ended_by, version_wf, upper_or_max in *. unfold int4range in Hr.
  destruct (v_block v) as [|[|l [u|]]]; cbn; try done; [lia| |lia].
  destruct (Z.ltb_spec 0 e) as [Hlt|Hge]; [injection Hr as <-; cbn; lia|]. lia.
Qed.

Lemma nonfinal_in_blocks h range v : settled (h + 1) v → h < BLOCK_NUMBER_MAX → int4range f (Some BLOCK_NUMBER_MAX) = Ok range →
  is_nonfinal f v = true → in_blocks f BLOCK_NUMBER_MAX range v = true.
Proof.
  intros Hs Hh Hr. unfold in_blocks, is_nonfinal, settled, upper_or_max in *. unfold int4range in Hr.
  destruct (v_block v) as [|[|l [u|]]]; cbn; try done; destruct (Z.ltb_spec f BLOCK_NUMBER_MAX); try (injection Hr as <-); cbn; lia.
Qed.

Lemma nonfinal_or_ended table v : version_wf table v → immutable table = false → f < BLOCK_NUMBER_MAX →
  v_block v ≠ RangeCol REmpty → ended_by f v = true ∨ is_nonfinal f v = true.
Proof.
  intros Hwf Him Hf He. unfold is_nonfinal, ended_by, version_wf, upper_or_max in *. destruct (v_block v) as [|[|l [u|]]]; cbn; [congruence|done|lia|lia].
Qed.

Lemma visible_not_ended table b v : f < BLOCK_NUMBER_MAX → version_wf table v → immutable table = false → e ≤ b → exists_at b v = true → ended_by e v = false ∧ v_block v ≠ RangeCol REmpty.
Proof using Hef.
  intros Hmax Hwf Him Hb. unfold exists_at, ended_by, version_wf, upper_or_max in *. destruct (v_block v) as [|[|l [u|]]]; cbn; [congruence|done| |].
  - intros ?. split; [lia|done].
  - intros Hx. split; [|done]. unfold range_contains in Hx. lia.
Qed.

(** *** Steps of pruning *)

(** No query from the earliest block on can tell the difference. *)
Definition unseen (d d' : Deployment) : Prop :=
  ∀ t table b v, layout !! t = Some table → e ≤ b → exists_at b v = true → v ∈ db_versions (d_tables d) t ↔ v ∈ db_versions (d_tables d') t.

Definition step_ok (s s' : PruneSystem) : Prop := system_ok s' ∧ unseen (sy_deployment s) (sy_deployment s').

Lemma sound_rows table d v : prunable table → sound d → v ∈ rows_of_table table d →
  version_wf table v ∧ settled (head_number d + 1) v ∧ f < BLOCK_NUMBER_MAX ∧ head_number d < BLOCK_NUMBER_MAX.
Proof.
  intros [Hlt Him] (([_ Htab] & Hmax) & Hhist & Hf) Hv. destruct (Hhist _ _ Hlt) as [_ Hwf]. destruct (Htab _ _ Hlt) as [Hset _].
  rewrite Forall_forall in Hwf, Hset. split_and!; [by apply Hwf|by apply Hset|lia|done].
Qed.

(** Steps that only change the task *)
Lemma task_step s task : system_ok s → task_ok (sy_deployment s) task → step_ok s (set_task task s).
Proof. intros (Hs & Hp & _ & Hall) Ht. by split. Qed.

Lemma fail_step {A} s (r : outcome StoreError A) : system_ok s → (∀ x, r ≠ Ok x) → step_ok s (fail_with r s).
Proof. intros Hs Hr. destruct r as [x| |]; [by edestruct Hr|by apply task_step..]. Qed.

Lemma load_step a first last table next s : system_ok s →
  (∀ b, load_batcher vid has_list_column a first last table (sy_deployment s) = Ok b → task_ok (sy_deployment s) (next b)) →
  step_ok s (with_batcher vid has_list_column a first last table next s).
Proof.
  intros Hs Hn. unfold with_batcher. destruct (load_batcher _ _ _ _ _ _ _) as [b| |]; [apply task_step; auto|by apply task_step..].
Qed.

(** Steps that leave a part of the rows of a table *)
Lemma rows_set table table' vs d : rows_of_table table' (set_rows table vs d) = if decide (object table = object table') then vs else rows_of_table table' d.
Proof.
  unfold rows_of_table, set_rows, db_versions. cbn. case_decide as Ho; [rewrite Ho, lookup_insert_eq; done|by rewrite lookup_insert_ne].
Qed.

Definition part_of (table : Table) (vs : list Version) (d : Deployment) : Prop :=
  history_ok table vs ∧ (∀ v, v ∈ vs → v ∈ rows_of_table table d) ∧
  ∀ v, v ∈ rows_of_table table d → ended_by e v = false → v_block v ≠ RangeCol REmpty → v ∈ vs.

Lemma set_rows_sound table vs d : prunable table → part_of table vs d → sound d → sound (set_rows table vs d).
Proof using Hlayout.
  intros [Hlt Him] (Hh & Hsub & _) (([Hdb Htab] & Hmax) & Hhist & Hf).
  assert (∀ t, db_versions (d_tables (set_rows table vs d)) t = if decide (object table = t) then vs else db_versions (d_tables d) t) as Hrows.
  { intros t. unfold set_rows, db_versions. cbn. case_decide; [subst; by rewrite lookup_insert_eq|by rewrite lookup_insert_ne]. }
  split_and!; [split; [split|done]| |done].
  - intros t Ht. rewrite Hrows. case_decide; [|by apply Hdb]. subst t. specialize (Hdb _ Ht). rewrite Forall_forall in Hdb |- *. intros v Hv. by apply Hdb, Hsub.
  - intros t table' Ht. rewrite Hrows. destruct (Htab _ _ Ht) as [Hset Hbl]. case_decide; [|done]. subst t. assert (table' = table) as -> by congruence.
    split; [|congruence]. rewrite Forall_forall in Hset |- *. intros v Hv. by apply Hset, Hsub.
  - intros t table' Ht. rewrite Hrows. case_decide; [|by apply Hhist]. subst t. assert (table' = table) as -> by congruence. done.
Qed.

Lemma rows_step table vs task s : system_ok s → prunable table → part_of table vs (sy_deployment s) →
  task_ok (set_rows table vs (sy_deployment s)) task →
  step_ok s (mkPruneSystem (set_rows table vs (sy_deployment s)) task (sy_last_pruned s)).
Proof using Hef Hlayout.
  intros (Hs & Hp & _ & Hall) Ht Hpart Htask. pose proof Hpart as (_ & Hsub & Hkeep). split.
  - split_and!; [by apply set_rows_sound| |done|done]. intros table' v Ht' Hv. apply (Hp table'); [done|]. cbn in Hv. rewrite rows_set in Hv.
    case_decide as Ho; [|done]. unfold rows_of_table. rewrite <- Ho. by apply Hsub.
  - intros t table' b v Hlt Hb Hex. cbn [sy_deployment]. destruct (decide (object table = t)) as [<-|Hne].
    + assert (table' = table) as -> by (destruct Ht; congruence). fold (rows_of_table table (sy_deployment s)).
      fold (rows_of_table table (set_rows table vs (sy_deployment s))). rewrite rows_set, decide_True by done. split; [|apply Hsub]. intros Hv.
      destruct (sound_rows _ _ _ Ht Hs Hv) as (Hwf & _ & Hmax & _). destruct (visible_not_ended table b v) as [He Hn]; [done|done|apply Ht|done|done|]. by apply Hkeep.
    + unfold set_rows, db_versions. cbn. by rewrite lookup_insert_ne.
Qed.

Lemma covered_part todo table vs d : part_of table vs d → covered todo d → covered todo (set_rows table vs d).
Proof.
  intros (_ & Hsub & _) (don & Ht & Hd). exists don. split; [done|]. intros ts Hts v. rewrite rows_set. specialize (Hd ts Hts). case_decide as Ho; [|apply Hd].
  intros Hv. apply Hd. unfold rows_of_table. rewrite <- Ho. by apply Hsub.
Qed.

(** A table that is done *)
Lemma covered_next table strat todo d : pruned (rows_of_table table d) → covered ((table, strat) :: todo) d → covered todo d.
Proof.
  intros Hp (don & Ht & Hd). exists (don ++ [(table, strat)]). split; [by rewrite <- app_assoc|]. intros ts [Hts| ->%list_elem_of_singleton]%elem_of_app; [by apply Hd|done].
Qed.

(** *** Batches *)

Lemma copying_batch Q b b' src dst dst' end_ :
  copying Q b src dst → (∀ v, v ∈ dst → v ∈ dst') → (∀ v, v ∈ src → Q v → in_batch vid (vb_start b) end_ v = true → v ∈ dst') →
  vb_start b' ≤ end_ + 1 → vb_max_vid b' = vb_max_vid b → copying Q b' src dst'.
Proof.
  intros Hc Hsub Hnew Hst Hmax v Hv Hq. destruct (Hc v Hv Hq) as [Hm Hin]. split; [lia|]. intros Hlt.
  destruct (Z.lt_ge_cases (vid v) (vb_start b)); [by apply Hsub, Hin|]. apply Hnew; [done|done|]. unfold in_batch. lia.
Qed.

Lemma copying_same Q b b' src dst : copying Q b src dst → vb_start b' = vb_start b → vb_max_vid b' = vb_max_vid b → copying Q b' src dst.
Proof. intros Hc Hs Hm v Hv Hq. rewrite Hs, Hm. by apply Hc. Qed.

Lemma final_batch table b dst todo a1 a2 b' dst' r s :
  system_ok s → sy_task s = CopyFinal table b dst todo →
  batch_with_timeout a1 a2 (copy_final_query vid table e f (rows_of_table table (sy_deployment s))) (b, dst) = ((b', dst'), Ok r) →
  task_ok (sy_deployment s) (CopyFinal table b' dst' todo).
Proof using Hef.
  intros (Hs & _ & Ht & Hall) Htask Hbt. rewrite Htask in Ht. destruct Ht as ([strat Hc] & Hb & Hnd & Hcp & Hdst).
  pose proof (covered_prunable _ _ _ _ Hall Hc) as Hpr. set (src := rows_of_table table (sy_deployment s)) in *.
  apply batch_spec in Hbt as (Hb' & Hm & Hdone); [|intros; apply copy_final_no_timeout|done]. cbn. fold src.
  destruct Hdone as [[Hst ->]|(end_ & n & Hq & Hst)]; [split_and!; eauto; by eapply copying_same|].
  unfold copy_final_query in Hq. destruct (int4range e (Some (f + 1))) as [range| |] eqn:Hr; [|done..]. apply copied_ok in Hq as [Hin Hnd'].
  assert (∀ v, v ∈ src → in_blocks e f range v = true ↔ kept_final v) as Hk.
  { intros v Hv. destruct (sound_rows _ _ _ Hpr Hs Hv) as (Hwf & _ & Hmax & _). apply (kept_final_in table range (f + 1)); [done|done|apply Hpr|lia|done]. }
  split_and!; [by exists strat|done|by apply Hnd'|..].
  - eapply copying_batch; [exact Hcp| | |exact Hst|done]; intros v Hv; [by apply Hin; left|]. intros Hq Hba. apply Hin. right. apply list_elem_of_filter. split; [|done].
    rewrite Hba, andb_true_r. by apply Hk.
  - intros v [Hv|[Hv Hsrc]%list_elem_of_filter]%Hin; [by apply Hdst|]. apply andb_true_iff in Hv as [Hv _]. split; [done|]. by apply Hk.
Qed.

Lemma nonfinal_batch table b dst todo a1 a2 b' dst' r s :
  system_ok s → sy_task s = CopyNonfinal table b dst todo →
  batch_with_timeout a1 a2 (copy_nonfinal_query vid table f (rows_of_table table (sy_deployment s))) (b, dst) = ((b', dst'), Ok r) →
  task_ok (sy_deployment s) (CopyNonfinal table b' dst' todo).
Proof using Hef.
  intros (Hs & _ & Ht & Hall) Htask Hbt. rewrite Htask in Ht. destruct Ht as ([strat Hc] & Hb & Hnd & Hcp & Hfin & Hdst).
  set (src := rows_of_table table (sy_deployment s)) in *.
  apply batch_spec in Hbt as (Hb' & Hm & Hdone); [|intros; apply copied_no_timeout|done]. cbn. fold src.
  destruct Hdone as [[Hst ->]|(end_ & n & Hq & Hst)]; [split_and!; eauto; by eapply copying_same|].
  unfold copy_nonfinal_query in Hq. apply copied_ok in Hq as [Hin Hnd']. split_and!; [by exists strat|done|by apply Hnd'|..].
  - eapply copying_batch; [exact Hcp| | |exact Hst|done]; intros v Hv; [by apply Hin; left|]. intros Hq Hba. apply Hin. right. apply list_elem_of_filter. split; [|done].
    by rewrite Hba, Hq.
  - intros v Hv Hk. apply Hin. left. by apply Hfin.
  - intros v [Hv|[Hv Hsrc]%list_elem_of_filter]%Hin; [by apply Hdst|]. apply andb_true_iff in Hv as [Hv _]. split; [done|].
    unfold is_nonfinal in Hv. unfold ended_by. destruct (v_block v); [done|]. lia.
Qed.

(** Deleting leaves what has not ended. *)
Definition left_of (vs vs' : list Version) : Prop := sublist vs' vs ∧ ∀ v, v ∈ vs → ended_by e v = false → v ∈ vs'.

#[local] Instance left_of_preorder : PreOrder left_of.
Proof.
  split; [done|]. intros x y z [Hs1 Hk1] [Hs2 Hk2]. split; [by etrans|]. intros v Hv He. apply Hk2; [by apply Hk1|done].
Qed.

Lemma delete_left x y vs : left_of vs (delete_query vid e x y vs).1.
Proof.
  split; [apply sublist_filter|]. intros v Hv He. apply list_elem_of_filter. by rewrite He.
Qed.

Lemma left_part table vs d : prunable table → sound d → left_of (rows_of_table table d) vs → part_of table vs d.
Proof.
  intros Hpr (_ & Hhist & _) [Hsub Hk]. destruct Hpr as [Hlt Him]. destruct (Hhist _ _ Hlt) as [Hs Hwf]. split_and!; [split|..].
  - revert Hs. fold (rows_of_table table d). clear -Hsub. induction Hsub as [|x l k Hsub IH|x l k Hsub IH]; intros Hs; [constructor|..];
      apply StronglySorted_inv in Hs as [Hs Hx]; [|by apply IH]. constructor; [by apply IH|]. by eapply sublist_Forall.
  - fold (rows_of_table table d) in Hwf. by eapply sublist_Forall.
  - intros v Hv. by eapply sublist_in.
  - intros v Hv He _. by apply Hk.
Qed.

(** *** Every step *)

Lemma final_start a table strat todo s b : system_ok s → sy_task s = NextTable ((table, strat) :: todo) →
  load_batcher vid has_list_column a e f table (sy_deployment s) = Ok b → task_ok (sy_deployment s) (CopyFinal table b [] todo).
Proof using Hef Hvid.
  intros (Hs & _ & Hc & Hall) Ht Hl. rewrite Ht in Hc. cbn in Hc. pose proof (covered_prunable _ _ _ _ Hall Hc) as Hpr.
  apply load_batcher_ok in Hl as (Hb & range & Hr & Hin); [|done]. split_and!; [by exists strat|done|constructor| |by intros v Hv%not_elem_of_nil].
  intros v Hv Hk. destruct (sound_rows _ _ _ Hpr Hs Hv) as (Hwf & _ & Hmax & _). specialize (Hin v Hv). rewrite (kept_final_in table range f) in Hin; [|done|done|apply Hpr|lia|done].
  specialize (Hin Hk). lia.
Qed.

Lemma nonfinal_start a table b dst todo s b' : system_ok s → sy_task s = CopyFinal table b dst todo → batcher_finished b = true →
  load_batcher vid has_list_column a f BLOCK_NUMBER_MAX table (sy_deployment s) = Ok b' → task_ok (sy_deployment s) (CopyNonfinal table b' dst todo).
Proof using Hef Hvid.
  intros (Hs & _ & Hc & Hall) Ht Hf Hl. rewrite Ht in Hc. destruct Hc as ([strat Hc] & _ & Hnd & Hcp & Hdst). pose proof (covered_prunable _ _ _ _ Hall Hc) as Hpr.
  apply load_batcher_ok in Hl as (Hb & range & Hr & Hin); [|done]. split_and!; [by exists strat|done|done|..].
  - intros v Hv Hk. destruct (sound_rows _ _ _ Hpr Hs Hv) as (_ & Hset & _ & Hh). specialize (Hin v Hv (nonfinal_in_blocks _ _ _ Hset Hh Hr Hk)). lia.
  - intros v Hv Hk. destruct (Hcp v Hv Hk) as [Hm Hd]. apply Hd. unfold batcher_finished in Hf. lia.
  - intros v Hv. destruct (Hdst v Hv) as [? [_ ?]]. done.
Qed.

Lemma delete_start a table strat todo s b : system_ok s → sy_task s = NextTable ((table, strat) :: todo) →
  load_batcher vid has_list_column a 0 e table (sy_deployment s) = Ok b → task_ok (sy_deployment s) (Deleting table b todo).
Proof using Hef Hvid.
  intros (Hs & Hpos & Hc & Hall) Ht Hl. rewrite Ht in Hc. cbn in Hc. pose proof (covered_prunable _ _ _ _ Hall Hc) as Hpr.
  apply load_batcher_ok in Hl as (Hb & range & Hr & Hin); [|done]. split_and!; [by exists strat|done|].
  intros v Hv He. destruct (sound_rows _ _ _ Hpr Hs Hv) as (Hwf & _ & Hmax & _). apply Hin; [done|].
  apply (ended_in_blocks table); [done|done|apply Hpr|done| |done]. by apply (Hpos table).
Qed.

Lemma switch_step table b dst todo s : system_ok s → sy_task s = CopyNonfinal table b dst todo → batcher_finished b = true → step_ok s (switch table dst todo s).
Proof using Hef Hlayout.
  intros Hok Ht Hf. pose proof Hok as (Hs & _ & Hc & Hall). rewrite Ht in Hc. destruct Hc as ([strat Hc] & _ & Hnd & Hcp & Hfin & Hdst).
  pose proof (covered_prunable _ _ _ _ Hall Hc) as Hpr. assert (part_of table dst (sy_deployment s)) as Hpart.
  { split_and!; [|by intros v [? _]%Hdst|].
    - apply (history_part vid table (rows_of_table table (sy_deployment s))); [|by intros v [? _]%Hdst|done]. destruct Hs as (_ & Hhist & _). apply Hhist, Hpr.
    - intros v Hv He Hne. destruct (sound_rows _ _ _ Hpr Hs Hv) as (Hwf & _ & Hmax & _).
      destruct (nonfinal_or_ended table v) as [Hfv|Hn]; [done|apply Hpr|done|done|by apply Hfin|]. destruct (Hcp v Hv Hn) as [? Hin]. apply Hin.
      unfold batcher_finished in Hf. lia. }
  apply rows_step; [done|done|done|]. cbn. apply (covered_next table strat); [|by apply covered_part].
  intros v. rewrite rows_set, decide_True by done. by intros [_ ?]%Hdst.
Qed.

Lemma delete_step table b todo a1 a2 s : system_ok s → sy_task s = Deleting table b todo →
  step_ok s (let '((b', vs), r) := batch_with_timeout a1 a2 (delete_query vid e) (b, rows_of_table table (sy_deployment s)) in
             fail_with r (mkPruneSystem (set_rows table vs (sy_deployment s)) (Deleting table b' todo) (sy_last_pruned s))).
Proof using Hef Hlayout.
  intros Hok Ht. pose proof Hok as (Hs & _ & Hc & Hall). rewrite Ht in Hc. destruct Hc as ([strat Hc] & Hb & Hdel).
  pose proof (covered_prunable _ _ _ _ Hall Hc) as Hpr. set (src := rows_of_table table (sy_deployment s)) in *.
  pose proof (batch_keeps (delete_query vid e) left_of a1 a2 b src (λ x y vs, delete_left x y vs)) as Hleft.
  destruct (batch_with_timeout _ _ _ _) as [[b' vs] r] eqn:Hbt. cbn in Hleft.
  assert (part_of table vs (sy_deployment s)) as Hpart by by apply left_part. destruct r as [n|err|].
  2: exact (rows_step table vs (PruneErrored err) s Hok Hpr Hpart I).
  2: exact (rows_step table vs PrunePanicked s Hok Hpr Hpart I).
  apply (rows_step table vs (Deleting table b' todo) s Hok Hpr Hpart). apply batch_spec in Hbt as (Hb' & Hm & Hdone); [|done|done].
  split_and!; [exists strat; by apply covered_part|done|]. rewrite rows_set, decide_True by done. intros v Hv He.
  destruct Hdone as [[Hst ->]|(end_ & m & Hq & Hst)]; [rewrite Hst, Hm; by apply Hdel|]. unfold delete_query in Hq. injection Hq as <- _.
  apply list_elem_of_filter in Hv as [Hnb Hv]. rewrite He in Hnb. destruct (Hdel v Hv He) as [Hlo Hhi]. unfold in_batch in Hnb. cbn in Hnb. lia.
Qed.

Lemma prune_step_ok a s : system_ok s → step_ok s (step a s).
Proof using Hef Hlayout Hvid.
  intros Hok. unfold prune_step. destruct (sy_task s) as [[|[table []] todo]|table b dst todo|table b dst todo|table b todo| | |] eqn:Ht; try (by split).
  - destruct (an_error a); [by apply task_step|]. pose proof Hok as (Hs & Hp & Hc & Hall). rewrite Ht in Hc. destruct Hc as (don & Hd & Hc). rewrite app_nil_r in Hd.
    split; [|done]. split_and!; [done|done| |done]. cbn. by rewrite Hd.
  - apply load_step; [done|]. intros b. by eapply final_start.
  - apply load_step; [done|]. intros b. by eapply delete_start.
  - destruct (batcher_finished b) eqn:Hf; [apply load_step; [done|]; intros b'; by eapply nonfinal_start|].
    destruct (batch_with_timeout _ _ _ _) as [[b' dst'] [r| |]] eqn:Hbt; [|by apply task_step..]. apply task_step; [done|]. by eapply final_batch.
  - destruct (batcher_finished b) eqn:Hf; [destruct (an_error a); [by apply task_step|by eapply switch_step]|].
    destruct (batch_with_timeout _ _ _ _) as [[b' dst'] [r| |]] eqn:Hbt; [|by apply task_step..]. apply task_step; [done|]. by eapply nonfinal_batch.
  - destruct (batcher_finished b) eqn:Hf; [|by apply delete_step]. apply task_step; [done|]. pose proof Hok as (Hs & _ & Hc & Hall). rewrite Ht in Hc.
    destruct Hc as ([strat Hc] & _ & Hdel). cbn. apply (covered_next table strat); [|done]. intros v Hv. destruct (ended_by e v) eqn:He; [|done].
    destruct (Hdel v Hv He). unfold batcher_finished in Hf. lia.
Qed.

Lemma system_step_ok s s' : system_step s s' → system_ok s → system_ok s'.
Proof using Hef Hlayout Hvid Hlarge Hintf.
  intros Hst Hok. pose proof Hok as (Hs & Hp & Ht & Hall). destruct Hst as [b s d Hl Hacc Htr|p c s d Hl Hfp Hr|a s]; [| |by apply prune_step_ok].
  - destruct (write_sound b _ _ Hs Hacc Htr) as [Hs' Hk]. split_and!; [done|by eapply writer_positive|by eapply (writer_task (sy_deployment s))|done].
  - destruct (revert_sound p c _ _ Hs Hfp Hr) as [Hs' Hk]. split_and!; [done|by eapply writer_positive|by eapply (writer_task (sy_deployment s))|done].
Qed.

Lemma system_reachable_ok s s' : rtc system_step s s' → system_ok s → system_ok s'.
Proof using Hef Hlayout Hvid Hlarge Hintf. induction 1 as [|x y z Hst _ IH]; [done|]. intros Hx. apply IH. by eapply system_step_ok. Qed.

End System.

(** ** Queries *)

Lemma head_filter_same {A} (P : A → Prop) `{∀ x, Decision (P x)} (l l' : list A) :
  (∀ x, P x → x ∈ l ↔ x ∈ l') → (∀ x y, x ∈ l → y ∈ l → P x → P y → x = y) → head (filter P l) = head (filter P l').
Proof.
  intros Hs Hu. destruct (filter P l) as [|x r] eqn:Hl, (filter P l') as [|y r'] eqn:Hl'; cbn; [done|..].
  - exfalso. assert (y ∈ filter P l') as [Hp Hy]%list_elem_of_filter by (rewrite Hl'; left). apply Hs in Hy; [|done].
    assert (y ∈ filter P l) as Hbad by by apply list_elem_of_filter. rewrite Hl in Hbad. set_solver.
  - exfalso. assert (x ∈ filter P l) as [Hp Hx]%list_elem_of_filter by (rewrite Hl; left). apply Hs in Hx; [|done].
    assert (x ∈ filter P l') as Hbad by by apply list_elem_of_filter. rewrite Hl' in Hbad. set_solver.
  - f_equal. assert (x ∈ filter P l) as [Hpx Hx]%list_elem_of_filter by (rewrite Hl; left).
    assert (y ∈ filter P l') as [Hpy Hy]%list_elem_of_filter by (rewrite Hl'; left). apply Hu; [done|by apply Hs|done|done].
Qed.

Section Claims.
Set Default Proof Using "Type".
Context `{EnvVars} `{InputSchema} `{BuildConfig} `{DeploymentConfig} `{Arithmetic} `{PruneEnv}.
Context (value_too_large : list EntityWrite → bool) (layout : gmap EntityType Table).
Context (Hlarge : ∀ ws, value_too_large ws = false) (Hlayout : layout_ok layout) (Hintf : ∀ t, share_interfaces t = []).
Context (vid : Version → Z) (table_name : Table → string) (has_list_column : Table → bool).
Context (Hvid : ∀ v, I64_MIN ≤ vid v).

Lemma find_matches_exists req d table key b v : sound layout req d → layout !! entity_type key = Some table → b ≤ BLOCK_NUMBER_MAX →
  v ∈ db_versions (d_tables d) (entity_type key) → find_matches table key b v = true → v_id v = entity_id key ∧ exists_at b v = true.
Proof.
  intros (((_ & Htab) & Hmax) & _) Ht Hb Hv. unfold find_matches. rewrite !andb_true_iff, bool_decide_eq_true. intros [[Hid Ha] _]. split; [done|].
  rewrite at_block_exists in Ha; [done|]. destruct (Htab _ _ Ht) as [Hset _]. rewrite Forall_forall in Hset. specialize (Hset v Hv). unfold settled in Hset.
  destruct (v_block v) as [l|r]; [|by right; left; eauto]. destruct (Z.lt_ge_cases b BLOCK_NUMBER_MAX); [by left|]. right. right. exists l. split; [done|]. lia.
Qed.

Lemma unseen_find req d d' key b : sound layout req d → sound layout req d' → unseen layout req d d' → pr_earliest_block req ≤ b → b ≤ BLOCK_NUMBER_MAX →
  deployment_get layout key b d' = deployment_get layout key b d.
Proof.
  intros Hd Hd' Hun Hb Hbm. unfold deployment_get, layout_find, table_for_entity. destruct (layout !! entity_type key) as [table|] eqn:Ht; [|done]. cbn.
  do 2 f_equal. symmetry. apply head_filter_same.
  - intros v Hm. split; intros Hv; (apply (Hun _ table b v Ht Hb); [|done]);
      [apply (find_matches_exists req d table key b v Hd Ht Hbm Hv Hm)|apply (find_matches_exists req d' table key b v Hd' Ht Hbm Hv Hm)].
  - intros v w Hv Hw Hmv Hmw. destruct Hd as (Hok & Hhist & Hf). destruct (Hhist _ _ Ht) as [Hs _]. destruct (apart_any _ v w Hs Hv Hw) as [|Ha]; [done|].
    destruct (find_matches_exists req d table key b v) as [Hiv Hev]; [done..|]. destruct (find_matches_exists req d table key b w) as [Hiw Hew]; [done..|].
    rewrite (Ha ltac:(congruence) b Hev) in Hew. done.
Qed.

(** ** From a request on *)

(** What a deployment has to be for pruning *)
Definition can_prune (req : PruneRequest) (d : Deployment) : Prop :=
  sound layout req d ∧ ends_positive layout d ∧ 0 ≤ earliest_block (d_status d).

Lemma request_bounds history reorg first latest req :
  prune_request_new history reorg first latest = Ok req → pr_earliest_block req < pr_final_block req.
Proof.
  unfold prune_request_new. destruct (is_fraction rebuild_threshold); [|done]. destruct (is_fraction delete_threshold); [|done]. cbn.
  destruct (Z.leb_spec history reorg); [done|]. destruct (_ <=? _); [done|]. intros [= <-]. cbn. lia.
Qed.

Lemma prunable_tables_ok stats req : Forall (λ ts, prunable layout ts.1) (prunable_tables table_name layout stats req).
Proof using Hlayout.
  unfold prunable_tables. rewrite merge_sort_Permutation. apply Forall_forall. intros [table strat] (table' & Hin & Ho)%list_elem_of_omap.
  apply list_elem_of_filter in Hin as [Him ([t tb] & -> & Ht)%list_elem_of_fmap]. apply elem_of_map_to_list in Ht. cbn in *.
  destruct (head _) as [st|]; [|done]. cbn in Ho. destruct (strategy req st); [|done]. injection Ho as <- _. split; [|done].
  destruct (Hlayout _ _ Ht) as (-> & _). done.
Qed.

Lemma do_prune_ok stats req last_pruned d s0 :
  do_prune table_name layout stats req last_pruned d = Ok (Some s0) → can_prune req d →
  0 ≤ pr_earliest_block req ∧ system_ok layout vid req (prunable_tables table_name layout stats req) s0.
Proof using Hlayout.
  unfold do_prune. destruct (head_ptr (d_head d)) as [latest|] eqn:Hh; [|done]. destruct (_ <=? _); [done|]. destruct (Z.ltb_spec (pr_earliest_block req) (earliest_block (d_status d))); [done|].
  intros [= <-] (Hs & Hp & He). split; [lia|].
  assert (d_tables (set_earliest_block (pr_earliest_block req) d) = d_tables d ∧ d_head (set_earliest_block (pr_earliest_block req) d) = d_head d) as [Ht Hhd].
  { unfold set_earliest_block. by destruct (_ <? _). }
  unfold system_ok, sound, deployment_ok, ends_positive, rows_of_table, head_number in *. cbn. rewrite Ht, Hhd. split_and!; try apply Hs; [done| |apply prunable_tables_ok].
  exists []. split; [done|]. intros ts Hts. by apply not_elem_of_nil in Hts.
Qed.

Context (history reorg first latest : BlockNumber) (req : PruneRequest) (stats : list VersionStats) (last_pruned : gmap string BlockNumber) (d : Deployment) (s0 s : PruneSystem).
Context (Hreq : prune_request_new history reorg first latest = Ok req).
Context (Hstart : do_prune table_name layout stats req last_pruned d = Ok (Some s0)).
Context (Hd : can_prune req d).

#[local] Abbreviation tables := (prunable_tables table_name layout stats req).

Context (Hreach : rtc (system_step value_too_large layout vid table_name has_list_column req tables) s0 s).

Lemma reached : system_ok layout vid req tables s ∧ 0 ≤ pr_earliest_block req < pr_final_block req.
Proof using All.
  destruct (do_prune_ok _ _ _ _ _ Hstart Hd) as [He Hok]. pose proof (request_bounds _ _ _ _ _ Hreq). split; [|lia].
  eapply (system_reachable_ok value_too_large layout Hlarge Hlayout Hintf vid table_name has_list_column Hvid req tables); [lia|exact Hreach|done].
Qed.

(** C10: Pruning can not be seen.  While a deployment is pruned by deleting
    versions or by rebuilding tables, and the writer goes on writing blocks
    and reverting blocks that are not final, whichever statements time out or fail
    and however the rows are cut into batches, no step of pruning changes the
    answer to a query for any entity at any block from the earliest block of
    the request on. *)
Theorem pruning_is_invisible a key b :
  pr_earliest_block req ≤ b ≤ BLOCK_NUMBER_MAX →
  deployment_get layout key b (sy_deployment (prune_step vid table_name has_list_column req tables a s)) = deployment_get layout key b (sy_deployment s).
Proof using All.
  intros [Hb Hbm]. destruct reached as [Hok Hef]. destruct (prune_step_ok layout Hlayout vid table_name has_list_column Hvid req tables Hef a s Hok) as [[Hs' _] Hun].
  destruct Hok as [Hs _]. by apply (unseen_find req).
Qed.

(** C11: When pruning finishes without an error, all versions that ended up to
    the earliest block of the request are gone from the tables that were chosen,
    whatever the writer has done in the meantime. *)
Theorem pruning_removes_history table strat :
  sy_task s = PruneFinished → (table, strat) ∈ tables → Forall (λ v, ended_by (pr_earliest_block req) v = false) (rows_of_table table (sy_deployment s)).
Proof using All.
  intros Ht Hin. destruct reached as [(_ & _ & Hok & _) _]. rewrite Ht in Hok. apply Forall_forall. exact (Hok _ Hin).
Qed.

End Claims.
