(* ===== verification/PruneSamples.v ===== *)
(** * Pruning at work

    A table is rebuilt while the deployment writes a block.  Two examples show
    where pruning does not get on: a table with causality regions, and a batch
    of size 0. *)

From Stdlib Require Import ZArith Lia ZifyBool.
From stdpp Require Import base gmap list sorting strings relations.
From S2P Require Import Prelude Values Intern InternFacts Entity EntityFacts Write WriteFacts Relational RelationalFacts AppendFacts BatchFacts ReadFacts RevertFacts.
From S2P Require Import Deployment DeploymentFacts SyncStore Writable WritableFacts WritableSamples LfuCache Float64 VidBatcher Prune SourceFacts HistoryFacts PruneFacts.

Local Open Scope Z_scope.

Module PruneSample.
Import BatchSample WritableSample.
#[local] Existing Instances sample_env sample_schema sample_build sample_sort sample_deployment sample_queue sample_store sample_store_spec.

#[local] Instance release : Arithmetic := {| overflow_checks := false |}.

(** Everything that can be rebuilt is rebuilt. *)
#[local] Instance eager : PruneEnv :=
  {| rebuild_threshold := f64_of_int 0; delete_threshold := f64_of_int 0; prune_disable_range_bound_estimation := true; batch_target_duration := 180000 |}.

Definition vid_of (v : Version) : Z := Z.max 0 (default 0 (v_vid v)).

Lemma vid_of_i64 v : I64_MIN ≤ vid_of v.
Proof. unfold vid_of, I64_MIN. lia. Qed.

Definition name_of (table : Table) : string := et_name (object table).
Definition no_lists (_ : Table) : bool := false.

(** ** A deployment with three blocks *)

Definition eve : Object Value := sample_user [(0, VString "u1"); (1, VString "Eve"); (2, VInt8 3)].
Definition joe : Object Value := sample_user [(0, VString "u1"); (1, VString "Joe"); (2, VInt8 4)].

Lemma eve_wf : obj_wf eve.
Proof. apply sample_user_wf; [|done]. by apply (bool_decide_unpack _). Qed.
Lemma joe_wf : obj_wf joe.
Proof. apply sample_user_wf; [|done]. by apply (bool_decide_unpack _). Qed.

Definition batch3 : Batch := sample_batch (Overwrite u1 eve 3 None).
Definition batch4 : Batch := sample_batch (Overwrite u1 joe 4 None).
Definition d3 : Deployment := after batch3 d2.

Lemma d3_ok : deployment_ok user_layout d3 ∧ histories user_layout (d_tables d3).
Proof.
  destruct (deployment_histories never_large user_layout no_weight (λ _, eq_refl) user_layout_ok (λ _, eq_refl) (sys_log sys_merged) d0 d2 sample_runs d0_ok)
    as [Hok Hh]; [intros t table _; rewrite d0_versions; split; constructor|].
  apply (deployment_histories never_large user_layout no_weight (λ _, eq_refl) user_layout_ok (λ _, eq_refl) [LWrite batch3] d2 d3); [|done|done].
  apply (runs_write _ _ _ _ d3); [|by vm_compute|by constructor]. apply sample_accepts; [|by vm_compute..|done]. split_and!; try done; exact eve_wf.
Qed.

Definition request : PruneRequest := mkPruneRequest 1 0 2 3 0 3 (f64_of_int 0) (f64_of_int 0).
Definition user_stats : VersionStats := mkVersionStats 1 3 "User" (f64_of_int 0) None [].

Lemma d3_can_prune : can_prune user_layout request d3.
Proof.
  destruct d3_ok as [Hok Hh]. split_and!; [split_and!; [done|done|by vm_compute]| |by vm_compute].
  intros table v [Ht _] Hv. unfold user_layout in Ht. apply lookup_singleton_Some in Ht as [Ho _]. unfold rows_of_table in Hv. rewrite <- Ho in Hv.
  assert (Forall (λ v, ended_by 0 v = false) (db_versions (d_tables d3) user)) as Hall by (apply (bool_decide_unpack _); by vm_compute).
  rewrite Forall_forall in Hall. by apply Hall.
Qed.

(** ** A run *)

Definition quick : Attempt := mkAttempt None 5.
Definition slow : Attempt := mkAttempt (Some StatementTimeout) 180000.
Definition answer (first : Attempt) : Answer := mkAnswer None [] first quick.

Definition start : PruneSystem :=
  match do_prune name_of user_layout [user_stats] request ∅ d3 with Ok (Some s) => s | _ => mkPruneSystem d3 PrunePanicked ∅ end.

Abbreviation chosen := (prunable_tables name_of user_layout [user_stats] request).
Abbreviation go := (prune_step vid_of name_of no_lists request chosen).

(** The first batch of final versions times out and is tried again, and the
    deployment writes block 4 before the others are copied. *)
Definition after_batch : PruneSystem := go (answer slow) (go (answer quick) start).
Definition after_write : PruneSystem := set_deployment (after batch4 (sy_deployment after_batch)) after_batch.
Definition before_switch : PruneSystem := go (answer quick) (go (answer quick) after_write).
Definition finished : PruneSystem := go (answer quick) (go (answer quick) before_switch).

Definition vids_at (s : PruneSystem) : list (option Z) := v_vid <$> rows_of_table user_table (sy_deployment s).

(** The first version is gone and the others are there. *)
Example pruned_rows :
  vids_at before_switch = [Some 1; Some 2; Some 3; Some 4] ∧ vids_at finished = [Some 2; Some 3; Some 4] ∧ sy_task finished = PruneFinished.
Proof. by vm_compute. Qed.

Lemma go_step a (x y : PruneSystem) :
  rtc (system_step never_large user_layout vid_of name_of no_lists request chosen) x y →
  rtc (system_step never_large user_layout vid_of name_of no_lists request chosen) x (go a y).
Proof. intros Hr. eapply rtc_r; [exact Hr|]. apply sys_prune. Qed.

Lemma before_switch_reached : rtc (system_step never_large user_layout vid_of name_of no_lists request chosen) start before_switch.
Proof.
  do 2 apply go_step. eapply rtc_r; [do 2 apply go_step; reflexivity|]. apply (sys_write _ _ _ _ _ _ _ batch4); [by vm_compute| |by vm_compute].
  apply sample_accepts; [|by vm_compute..|done]. split_and!; try done; exact joe_wf.
Qed.

Lemma pruning_is_invisible_witness :
  deployment_get user_layout u1 2 (sy_deployment (go (answer quick) before_switch)) = deployment_get user_layout u1 2 (sy_deployment before_switch) ∧
  is_Some (match deployment_get user_layout u1 2 (sy_deployment before_switch) with Ok r => r | _ => None end).
Proof.
  split; [|by vm_compute; eauto].
  apply (pruning_is_invisible never_large user_layout (λ _, eq_refl) user_layout_ok (λ _, eq_refl) vid_of name_of no_lists vid_of_i64
           1 0 0 3 request [user_stats] ∅ d3 start before_switch).
  - by vm_compute.
  - by vm_compute.
  - exact d3_can_prune.
  - exact before_switch_reached.
  - by vm_compute.
Defined.

Lemma pruning_removes_history_witness :
  Forall (λ v, ended_by 2 v = false) (rows_of_table user_table (sy_deployment finished)).
Proof.
  apply (pruning_removes_history never_large user_layout (λ _, eq_refl) user_layout_ok (λ _, eq_refl) vid_of name_of no_lists vid_of_i64
           1 0 0 3 request [user_stats] ∅ d3 start finished) with (strat := Rebuild).
  - by vm_compute.
  - by vm_compute.
  - exact d3_can_prune.
  - do 2 apply go_step. exact before_switch_reached.
  - by vm_compute.
  - assert (chosen = [(user_table, Rebuild)]) as -> by by vm_compute. by left.
Defined.

(** ** Where pruning does not get on *)

Definition region_table : Table := mkTable user (columns user_table) false false false true true.

(** A table with causality regions can not be rebuilt. *)
Example rebuild_needs_region :
  (copied vid_of region_table (rows_of_table user_table d3) []).2 =
    Err (UnknownError "null value in column causality_region violates not-null constraint").
Proof. by vm_compute. Qed.

Definition advance (duration : Z) (b : VidBatcher) : outcome StoreError VidBatcher :=
  match batcher_step (λ _ _ s, (s, Ok tt)) duration (b, tt) with ((b, _), Ok _) => Ok b | (_, Err e) => Err e | (_, Panic) => Panic end.

(** A batch times out, and with size 1 it takes more than twice the time that a
    batch should take: batches have size 0 from then on.  The end of the next batch is
    before its start, and the batcher stays where it is. *)
Definition shrunk : outcome StoreError VidBatcher :=
  b ← vid_batcher_new [] (mkVidRange 0 1000) (mkBatchSize 500 180000);
  b ← advance 5 b;
  b ← set_batch_size 1 b;
  advance 400000 b.

Example batch_size_zero :
  match shrunk with
  | Ok b => bs_size (vb_batch_size b) = 0 ∧ batcher_finished b = false ∧ vb_end b < vb_start b ∧ advance 5 b = Ok b
  | _ => False
  end.
Proof. by vm_compute. Qed.

End PruneSample.
