(* ===== verification/TriggerProcessor.v ===== *)
(** * From triggers to handlers

    Models how the triggers of a block find their handlers and run
    (core/src/subgraph/trigger_processor.rs and
    core/src/subgraph/runner/trigger_runner.rs), the indexing context with its
    monitor of files (core/src/subgraph/context/mod.rs), and the creation of a
    data source for a file (graph/src/data_source/offchain.rs). *)

From Stdlib Require Import ZArith Lia.
From stdpp Require Import base gmap list strings.
From S2P Require Import Prelude Values IdText Intern Entity Write Relational LfuCache EntityCache BlockState HostExports DataSource Instance Poi.

Local Open Scope Z_scope.

(** ** Triggers and the hosts that run them *)

Section Decoding.
Context `{Blockchain} `{DeclaredCalls}.
Context (from_entity_trigger : CallDecls → EntitySourceOperation → outcome string (list DeclaredCall)).

(** [Trigger] of graph/src/blockchain *)
Inductive Trigger := TriggerChain (t : ChainTrigger) | TriggerSubgraph (t : SubgraphTrigger).

Definition trigger_data_of (t : Trigger) : TriggerData :=
  match t with TriggerChain t => TrOnchain t | TriggerSubgraph t => TrSubgraph t end.

Record RunnableTriggers := mkRunnable { rt_trigger : TriggerData; hosted_triggers : list HostedTrigger }.

Definition decoder_match_and_decode (block : ChainBlock) (trigger : TriggerData) (m : Atomics) (hosts : list Host)
    : outcome MappingError RunnableTriggers :=
  hosted ← match_and_decode_inner from_entity_trigger block trigger m hosts;
  Ok (mkRunnable trigger hosted).

(** [DecoderHook] of a chain, which gets the triggers before they run *)
Context (after_decode : list RunnableTriggers → outcome MappingError (list RunnableTriggers)).

Fixpoint decode_all (block : ChainBlock) (m : Atomics) (hosts_filter : TriggerData → outcome MappingError (list Host)) (triggers : list TriggerData)
    : outcome MappingError (list RunnableTriggers) :=
  match triggers with
  | [] => Ok []
  | trigger :: triggers =>
      hosts ← hosts_filter trigger;
      runnable ← decoder_match_and_decode block trigger m hosts;
      rest ← decode_all block m hosts_filter triggers;
      Ok (runnable :: rest)
  end.

Definition match_and_decode_many (block : ChainBlock) (m : Atomics) (hosts_filter : TriggerData → outcome MappingError (list Host))
    (triggers : list TriggerData) : outcome MappingError (list RunnableTriggers) :=
  runnables ← decode_all block m hosts_filter triggers;
  after_decode runnables.

End Decoding.

(** ** Running handlers *)

(** What handlers change while the triggers of a block are processed *)
Record BlockRun (Q : Type) `{FastHasher} `{LegacyHasher} := mkBlockRun {
  br_seq : SeqGenerator;
  br_state : BlockState Q;
  br_poi : option ProofOfIndexing;
  br_atomics : Atomics;
}.
Arguments mkBlockRun {Q _ _}.
Arguments br_seq {Q _ _}.
Arguments br_state {Q _ _}.
Arguments br_poi {Q _ _}.
Arguments br_atomics {Q _ _}.

(** The trait [RuntimeHost], by the method that runs a handler on the state of
    the block *)
Class MappingRuntime (Q : Type) `{Blockchain} `{DeclaredCalls} := {
  process_mapping_trigger : ReadStore → Host → TriggerWithHandler MappingTrigger → st (HostState Q) MappingError unit;
}.

Section Processing.
Context {Q : Type} `{Blockchain} `{DeclaredCalls} `{!MappingRuntime Q} `{FH : FastHasher} `{LH : LegacyHasher} `{PR : !StableHashPrims}.

(** One handler; the events that it writes go to the stream of the region. *)
Definition run_handler (rs : ReadStore) (region : string) (t : HostedTrigger) : st (BlockRun Q) MappingError unit := λ r,
  match process_mapping_trigger rs (ht_host t) (mapping_trigger t) (mkHostState (br_seq r) (br_state r) 0 []) with
  | (s, Ok _) =>
      let '(poi, res) := st_for (λ ev, on_shared (poi_write region ev)) (hs_poi s) (br_poi r) in
      (mkBlockRun (hs_seq s) (hs_state s) poi (br_atomics r), res)
  | (s, Err e) => (mkBlockRun (hs_seq s) (hs_state s) (br_poi r) (br_atomics r), Err e)
  | (s, Panic) => (mkBlockRun (hs_seq s) (hs_state s) (br_poi r) (br_atomics r), Panic)
  end.

Definition push_processed (ds : StoredDynamicDataSource) (b : BlockState Q) : BlockState Q :=
  mkBlockState (entity_cache b) (bs_deterministic_errors b) (created_data_sources b) (persisted_data_sources b)
    (handler_created_data_sources b) (processed_data_sources b ++ [ds]) (bs_in_handler b) (write_capacity_remaining b).

(** A file is done once its handler has run. *)
Definition mark_processed (block : ChainBlock) (t : HostedTrigger) : st (BlockRun Q) MappingError unit := λ r,
  match as_offchain (host_ds (ht_host t)) with
  | None => (r, Ok tt)
  | Some ds =>
      let '(m, res) := mark_processed_at ds (block_number block) (br_atomics r) in
      match res with
      | Ok _ => (mkBlockRun (br_seq r) (push_processed (offchain_as_stored ds m) (br_state r)) (br_poi r) m, Ok tt)
      | Err e => (mkBlockRun (br_seq r) (br_state r) (br_poi r) m, Err e)
      | Panic => (mkBlockRun (br_seq r) (br_state r) (br_poi r) m, Panic)
      end
  end.

Definition run_hosted (rs : ReadStore) (block : ChainBlock) (region : string) (t : HostedTrigger) : st (BlockRun Q) MappingError unit :=
  _ ← run_handler rs region t;
  mark_processed block t.

Definition on_poi (m : st ProofOfIndexing MappingError unit) : st (BlockRun Q) MappingError unit := λ r,
  let '(poi, res) := on_shared m (br_poi r) in (mkBlockRun (br_seq r) (br_state r) poi (br_atomics r), res).

Definition process_trigger (rs : ReadStore) (block : ChainBlock) (region : string) (triggers : list HostedTrigger)
    : st (BlockRun Q) MappingError unit := λ r,
  let error_count := length (bs_deterministic_errors (br_state r)) in
  match triggers with
  | [] => (r, Ok tt)
  | _ =>
      (_ ← on_poi (poi_start_handler region);
       _ ← st_for (run_hosted rs block region) triggers;
       r ← st_get;
       let errors := length (bs_deterministic_errors (br_state r)) in
       if bool_decide (errors ≠ error_count) then
         if bool_decide (errors = S error_count) then on_poi (poi_write_deterministic_error region) else lift Panic
       else mret tt) r
  end.

(** [TriggerRunner::execute] *)
Definition execute_runnables (rs : ReadStore) (block : ChainBlock) (region : string) (runnables : list RunnableTriggers)
    : st (BlockRun Q) MappingError unit :=
  st_for (λ runnable, process_trigger rs block region (hosted_triggers runnable)) runnables.

End Processing.

(** ** Data sources for files *)

Inductive DataSourceCreationError := CreationIgnore (source : string) | CreationUnknown (msg : string).

(** [offchain::DataSource::from_template_info]; the atomic is a new one. *)
Definition offchain_from_template_info `{Cids, Urls} (info : InstanceDSTemplateInfo) (template : OffchainTemplate) (region : CausalityRegion)
    : st Atomics DataSourceCreationError OffchainDataSource := λ m,
  match BlockState.template info with
  | Onchain _ _ => (m, Err (CreationUnknown "Cannot create offchain data source from onchain template"))
  | Offchain _ _ =>
      match params info with
      | [] => (m, Err (CreationUnknown "source parameter is missing"))
      | source :: _ =>
          match
            match ot_kind template with
            | Ipfs => match content_path_new source with Some path => Ok (SourceIpfs path) | None => Err (CreationIgnore source) end
            | Arweave => Ok (SourceArweave source)
            end
          with
          | Ok source =>
              let '(cell, m) := alloc NOT_DONE_VALUE m in
              (m, Ok (mkOffchain (ot_kind template) (ot_name template) (ot_manifest_idx template) source (ot_mapping template)
                        (template_context info) (Some (template_creation_block info)) cell region))
          | Err e => (m, Err e)
          | Panic => (m, Panic)
          end
      end
  end.

(** ** The indexing context *)

Section Context.
Context `{Blockchain} `{DeclaredCalls} `{!RuntimeHostBuilder} `{InstanceEnv}.

(** The monitor of files, by the requests it has got so far *)
Record IndexingContext := mkIndexingContext {
  instance : SubgraphInstance;
  monitored : list Source;
}.

Definition monitor_add_source (source : Source) (self : IndexingContext) : IndexingContext :=
  mkIndexingContext (instance self) (monitored self ++ [source]).

Definition on_instance {E A} (m : st SubgraphInstance E A) : st IndexingContext E A := λ self,
  let '(i, r) := m (instance self) in (mkIndexingContext i (monitored self), r).

Definition context_revert_data_sources (reverted_block : BlockNumber) : st IndexingContext string unit := λ self,
  match on_instance (revert_data_sources reverted_block) self with
  | (self, Ok removed) => (foldl (λ self source, monitor_add_source source self) self removed, Ok tt)
  | (self, Err e) => (self, Err e)
  | (self, Panic) => (self, Panic)
  end.

Definition context_add_dynamic_data_source (data_source : DataSource) : st IndexingContext string (option Host) := λ self,
  let offchain_fields := (λ ds, (off_source ds, is_processed ds (atomics (instance self)))) <$> as_offchain data_source in
  match on_instance (add_dynamic_data_source data_source) self with
  | (self, Ok (Some host)) =>
      (match offchain_fields with Some (source, false) => monitor_add_source source self | _ => self end, Ok (Some host))
  | (self, r) => (self, r)
  end.

End Context.
