(* ===== verification/Runner.v ===== *)
(** * The subgraph runner

    Models core/src/subgraph/runner: the state machine that takes events from
    a block stream, runs the handlers for the triggers of a block, gives what
    they have done to the store, and decides what to do about errors.  Errors
    are classified as in core/src/subgraph/error.rs; their messages are left
    out, and so are metrics and delays. *)

From Stdlib Require Import ZArith Lia.
From stdpp Require Import base gmap list strings.
From S2P Require Import Prelude Values IdText Intern Entity Write Relational LfuCache EntityCache BlockState HostExports.
From S2P Require Import Deployment Writable DataSource Instance Poi TriggerProcessor.

Local Open Scope Z_scope.

(** ** Errors *)

Inductive ProcessingErrorKind := KindDeterministic | KindNonDeterministic | KindPossibleReorg | KindCanceled.

Inductive ProcessingError := PeUnknown | PeDeterministic | PePossibleReorg | PeCanceled.

Definition error_kind (self : ProcessingError) : ProcessingErrorKind :=
  match self with
  | PeUnknown => KindNonDeterministic
  | PeDeterministic => KindDeterministic
  | PePossibleReorg => KindPossibleReorg
  | PeCanceled => KindCanceled
  end.

Inductive SubgraphRunnerError := RunnerDuplicate | RunnerUnknown.

(** [StoreError::is_deterministic] *)
Definition store_error_is_deterministic (e : StoreError) : bool :=
  match e with
  | ConflictingId _ _ _ | UnknownTable _ | UnknownAttribute _ _ | ConstraintViolation _ | InputError _ => true
  | UnknownError _ | QueryExecutionError _ | DuplicateBlockProcessing _ | InternalError _ | Poisoned | WriterPanic | WriteFailure _ _ | StatementTimeout | PruneFailure _ => false
  end.

(** ** What the runner uses *)

(** The parts of a chain that make filters and data sources *)
Inductive DataSourceTemplate {ChainTemplate : Type} :=
| TmplOnchain (t : ChainTemplate)
| TmplOffchain (t : OffchainTemplate)
| TmplSubgraph (manifest_idx : Z).
Arguments DataSourceTemplate : clear implicits.

Class ChainRunner `{Blockchain} := {
  ChainFilter : Type;
  ChainTemplate : Type;
  chain_template_idx : ChainTemplate → Z;
  filter_from_data_sources : list ChainDataSource → ChainFilter;
  extend_with_template : list ChainTemplate → ChainFilter → ChainFilter;
  chain_from_template_info : InstanceDSTemplateInfo → DataSourceTemplate ChainTemplate → outcome string ChainDataSource;
}.

(** The trait [WritableStore]; a failed operation may have changed the store. *)
Class WritableStore (S : Type) := {
  ws_block_ptr : S → option BlockPtr;
  ws_is_deployment_synced : S → bool;
  ws_health : S → outcome StoreError SubgraphHealth;
  ws_transact : BlockChanges → S → S * outcome StoreError unit;
  ws_revert : BlockPtr → option string → S → S * outcome StoreError unit;
  ws_unfail_deterministic : BlockPtr → BlockPtr → S → S * outcome StoreError UnfailOutcome;
  ws_unfail_non_deterministic : BlockPtr → S → S * outcome StoreError UnfailOutcome;
  ws_fail : SubgraphError → S → S * outcome StoreError unit;
  ws_restart : S → outcome StoreError (option S);
  ws_flush : S → S * outcome StoreError unit;
  ws_pause : S → S * outcome StoreError unit;
  ws_create_postponed_indexes : S → S * outcome StoreError unit;
  ws_read : S → ReadStore;
}.

(** [EmptyStore] *)
Definition empty_store : ReadStore := {|
  rs_get _ := Ok None;
  rs_get_many _ := Ok ∅;
  rs_get_derived _ := Ok ∅;
|}.

(** Settings of the node *)
Class RunnerEnv := {
  static_filters_threshold : nat;
  disable_fail_fast : bool;
  postpone_indexes_creation_threshold : BlockNumber;
  store_errors_are_nondeterministic : bool;
  block_time_none : Z;
  processing_error_text : ProcessingError → string;
}.

(** [InputSchema::has_aggregations] *)
Class SchemaAggregations := { has_aggregations : bool }.

(** The type of proofs of indexing in the input schema *)
Definition POI_DIGEST : string := "digest".
Definition POI_BLOCK_TIME : string := "blockTime".

Section Runner.
Context `{BC : Blockchain} `{DC : DeclaredCalls} `{RB : !RuntimeHostBuilder} `{IE : InstanceEnv} `{CR : !ChainRunner} `{CI : Cids} `{UR : Urls}.
Context {Q : Type} `{PQ : !PriorityQueue EntityKey (option Entity) Q} `{AR : Arithmetic}.
Context `{CC : !CacheConfig EntityKey (option Entity)} `{IS : InputSchema} `{HO : HashOrder} `{CE : CacheEnv} `{BE : BlockEnv} `{ST : SchemaTypes}.
Context `{FH : FastHasher} `{LH : LegacyHasher} `{DG : Digests} `{PR : !StableHashPrims} `{HX : Hex}.
Context `{MR : !MappingRuntime Q} {S : Type} `{WS : !WritableStore S} `{RE : RunnerEnv} `{SA : SchemaAggregations}.
Context (from_entity_trigger : CallDecls → EntitySourceOperation → outcome string (list DeclaredCall)).
Context (poi_iter : gmap Id BlockEventStream → list (Id * BlockEventStream)).

(** A block as it comes from the block stream *)
Record RunBlock := mkRunBlock { rb_block : ChainBlock; rb_triggers : list Trigger }.

Inductive StreamEvent :=
| EvProcessBlock (block : RunBlock) (cursor : option string)
| EvRevert (to_ptr : BlockPtr) (cursor : option string)
| EvError.

(** A block stream, by where it starts, its filter, and what it has told *)
Record StreamState := mkStreamState {
  stream_start : option BlockPtr;
  stream_filter : ChainFilter * list SubgraphFilter;
  stream_told : list StreamEvent;
}.

(** What is outside of the runner, at some time *)
Record Ext := mkExt {
  x_canceled : bool;
  x_newer_runner : bool;
  x_chain_head : outcome string (option BlockPtr);
  x_parent_ptr : BlockPtr → outcome string (option BlockPtr);
  x_triggers_in_block : ChainBlock → ChainFilter → outcome string (list Trigger);
  x_refetch : ChainBlock → outcome string ChainBlock;
  x_timer_recent : bool;
  x_offchain_events : outcome string (list OffchainTrigger);
  x_new_stream : option BlockPtr → ChainFilter * list SubgraphFilter → outcome string unit;
  x_next_event : StreamState → option StreamEvent;
  x_after_decode : list RunnableTriggers → outcome MappingError (list RunnableTriggers);
  x_flush_metrics : outcome string unit;
}.

Record IndexingInputs := mkInputs {
  in_static_filters : bool;
  in_end_blocks : list BlockNumber;
  in_stop_block : option BlockNumber;
  in_max_end_block : option BlockNumber;
  in_templates : list (DataSourceTemplate ChainTemplate);
  in_errors_are_non_fatal : bool;
  in_poi_version : ProofOfIndexingVersion;
  in_network : string;
}.

Record IndexingState := mkIndexingState {
  should_try_unfail_non_deterministic : bool;
  entity_lfu_cache : LfuCache Q;
  cached_head_ptr : option BlockPtr;
  postponed_indexes_created : bool;
}.

Inductive RestartReason := DynamicDataSourceCreated | RestartStoreError | RestartPossibleReorg.

Inductive StopReason := MaxEndBlockReached | StopCanceled | Unassigned | StreamEnded.

Inductive RunnerState :=
| Initializing
| AwaitingBlock
| ProcessingBlock (block : RunBlock) (cursor : option string)
| Reverting (to_ptr : BlockPtr) (cursor : option string)
| Restarting (reason : RestartReason)
| Stopped (reason : StopReason).

Record SubgraphRunner := mkRunner {
  ru_ctx : IndexingContext;
  ru_state : IndexingState;
  ru_store : S;
  ru_stream : StreamState;
  ru_clock : nat;
}.

Context (ext : nat → Ext) (inputs : IndexingInputs).

Definition set_ctx (ctx : IndexingContext) (self : SubgraphRunner) : SubgraphRunner :=
  mkRunner ctx (ru_state self) (ru_store self) (ru_stream self) (ru_clock self).
Definition set_state (s : IndexingState) (self : SubgraphRunner) : SubgraphRunner :=
  mkRunner (ru_ctx self) s (ru_store self) (ru_stream self) (ru_clock self).
Definition set_store (s : S) (self : SubgraphRunner) : SubgraphRunner :=
  mkRunner (ru_ctx self) (ru_state self) s (ru_stream self) (ru_clock self).
Definition set_stream (s : StreamState) (self : SubgraphRunner) : SubgraphRunner :=
  mkRunner (ru_ctx self) (ru_state self) (ru_store self) s (ru_clock self).

(** Something outside is asked; the next question comes later. *)
Definition ask {E A} (f : Ext → A) : st SubgraphRunner E A := λ self,
  (mkRunner (ru_ctx self) (ru_state self) (ru_store self) (ru_stream self) (ru_clock self + 1), Ok (f (ext (ru_clock self)))).

Definition ask_ok {E A} (e : E) (f : Ext → outcome string A) : st SubgraphRunner E A :=
  r ← ask f; lift (map_err (λ _, e) r).

Definition on_ctx {E E' A} (f : E → E') (m : st IndexingContext E A) : st SubgraphRunner E' A := λ self,
  let '(ctx, r) := m (ru_ctx self) in (set_ctx ctx self, map_err f r).

Definition on_store {E A} (f : StoreError → E) (m : S → S * outcome StoreError A) : st SubgraphRunner E A := λ self,
  let '(s, r) := m (ru_store self) in (set_store s self, map_err f r).

Definition put_store {E} (s : S) : st SubgraphRunner E unit := λ self, (set_store s self, Ok tt).
Definition put_stream {E} (s : StreamState) : st SubgraphRunner E unit := λ self, (set_stream s self, Ok tt).

Definition modify_state {E} (f : IndexingState → IndexingState) : st SubgraphRunner E unit := λ self,
  (set_state (f (ru_state self)) self, Ok tt).

Definition set_lfu_cache (l : LfuCache Q) (s : IndexingState) : IndexingState :=
  mkIndexingState (should_try_unfail_non_deterministic s) l (cached_head_ptr s) (postponed_indexes_created s).
Definition set_try_unfail (b : bool) (s : IndexingState) : IndexingState :=
  mkIndexingState b (entity_lfu_cache s) (cached_head_ptr s) (postponed_indexes_created s).
Definition set_cached_head (p : option BlockPtr) (s : IndexingState) : IndexingState :=
  mkIndexingState (should_try_unfail_non_deterministic s) (entity_lfu_cache s) p (postponed_indexes_created s).
Definition set_postponed (s : IndexingState) : IndexingState :=
  mkIndexingState (should_try_unfail_non_deterministic s) (entity_lfu_cache s) (cached_head_ptr s) true.

(** [classify] for errors of the store *)
Definition classify (e : StoreError) : ProcessingError :=
  if store_errors_are_nondeterministic then PeUnknown
  else if store_error_is_deterministic e then PeDeterministic else PeUnknown.

Definition mapping_error (e : MappingError) : ProcessingError :=
  match e with MappingUnknown => PeUnknown | PossibleReorg => PePossibleReorg end.

(** ** The state that is kept between blocks *)

(** [revert_state_to]; removing hosts does not fail. *)
Definition revert_state_to {E} (block_number : BlockNumber) : st SubgraphRunner E unit := λ self,
  let self := set_state (set_lfu_cache (lfu_new (K := EntityKey) (V := option Entity)) (ru_state self)) self in
  match context_revert_data_sources (block_number + 1) (ru_ctx self) with
  | (ctx, Ok _) => (set_ctx ctx self, Ok tt)
  | (ctx, _) => (set_ctx ctx self, Panic)
  end.

Definition last_good_block (self : SubgraphRunner) : BlockNumber :=
  match ws_block_ptr (ru_store self) with Some ptr => ptr_number ptr | None => 0 end.

Definition is_static_filters_enabled (self : SubgraphRunner) : bool :=
  in_static_filters inputs || (static_filters_threshold <? hosts_len (instance (ru_ctx self)))%nat.

(** ** The filter of the block stream *)

Definition subgraph_filters (data_sources : list DataSource) : list SubgraphFilter :=
  omap (λ ds, (λ ds, mkSubgraphFilter (ss_address (sub_source ds)) (ss_start_block (sub_source ds)) (eh_entity <$> sub_handlers ds)
                       (sub_manifest_idx ds)) <$> as_subgraph ds) data_sources.

Definition not_ended (current_ptr : option BlockPtr) (ds : ChainDataSource) : bool :=
  match current_ptr with
  | Some block => match chain_end_block ds with Some end_block => ptr_number block <? end_block | None => true end
  | None => true
  end.

Definition onchain_templates : list ChainTemplate := omap (λ t, match t with TmplOnchain t => Some t | _ => None end) (in_templates inputs).

Definition build_filter (self : SubgraphRunner) : outcome string (ChainFilter * list SubgraphFilter) :=
  let current_ptr := ws_block_ptr (ru_store self) in
  let data_sources := static_data_sources (instance (ru_ctx self)) in
  let subgraph_filter := subgraph_filters data_sources in
  if negb (is_static_filters_enabled self) then
    onchain ← onchain_data_sources (instance (ru_ctx self));
    Ok (filter_from_data_sources (filter (λ ds, not_ended current_ptr ds = true) onchain), subgraph_filter)
  else
    let filter := filter_from_data_sources (filter (λ ds, not_ended current_ptr ds = true) (omap as_onchain data_sources)) in
    Ok (extend_with_template onchain_templates filter, subgraph_filter).

(** ** Running the triggers of a block *)

Definition put_atomics (m : Atomics) (self : SubgraphRunner) : SubgraphRunner :=
  set_ctx (mkIndexingContext (set_atomics m (instance (ru_ctx self))) (monitored (ru_ctx self))) self.

(** Handlers share the atomics of data sources with the hosts. *)
Definition in_block {E} (m : st (BlockRun Q) E unit) (b : BlockRun Q) : st SubgraphRunner E (BlockRun Q) := λ self,
  let '(b, r) := m (mkBlockRun (br_seq b) (br_state b) (br_poi b) (atomics (instance (ru_ctx self)))) in
  (put_atomics (br_atomics b) self, match r with Ok _ => Ok b | Err e => Err e | Panic => Panic end).

Definition instance_hosts (self : SubgraphRunner) (trigger : TriggerData) : outcome MappingError (list Host) :=
  map_err (λ _, MappingUnknown) (hosts_for_trigger trigger (instance (ru_ctx self))).

Definition decode_triggers (block : ChainBlock) (triggers : list Trigger) (hosts_filter : TriggerData → outcome MappingError (list Host))
    : st SubgraphRunner MappingError (list RunnableTriggers) :=
  x ← ask id;
  self ← st_get;
  lift (match_and_decode_many from_entity_trigger (x_after_decode x) block (atomics (instance (ru_ctx self))) hosts_filter
          (trigger_data_of <$> triggers)).

(** The first two stages: match the triggers and run their handlers *)
Definition run_triggers (block : ChainBlock) (triggers : list Trigger) (hosts_filter : TriggerData → outcome MappingError (list Host))
    (region : string) (b : BlockRun Q) : st SubgraphRunner MappingError (BlockRun Q) :=
  runnables ← decode_triggers block triggers hosts_filter;
  self ← st_get;
  in_block (execute_runnables (ws_read (ru_store self)) block region runnables) b.

(** ** Dynamic data sources *)

Definition template_idx (t : DataSourceTemplate ChainTemplate) : Z :=
  match t with TmplOnchain t => chain_template_idx t | TmplOffchain t => ot_manifest_idx t | TmplSubgraph idx => idx end.

(** The data source for a template, [None] when it is ignored; the template of
    [info] is the one of the manifest with the same index. *)
Definition instantiate (info : InstanceDSTemplateInfo) : st SubgraphRunner ProcessingError (option DataSource) := λ self,
  match template_manifest_idx (template info) with
  | None => (self, Err PeUnknown)
  | Some manifest_idx =>
      match find (λ t, template_idx t =? manifest_idx) (in_templates inputs) with
      | None => (self, Err PeUnknown)
      | Some created_ds_template =>
          match template info with
          | Onchain _ _ =>
              (self, match chain_from_template_info info created_ds_template with
                     | Ok ds => Ok (Some (DsOnchain ds))
                     | Err _ => Err PeUnknown
                     | Panic => Panic
                     end)
          | Offchain _ _ =>
              let '(i, region) := causality_region_next_value (E := Empty_set) (instance (ru_ctx self)) in
              let self := set_ctx (mkIndexingContext i (monitored (ru_ctx self))) self in
              match region, created_ds_template with
              | Ok region, TmplOffchain t =>
                  let '(m, r) := offchain_from_template_info info t region (atomics i) in
                  (put_atomics m self,
                   match r with
                   | Ok ds => Ok (Some (DsOffchain ds))
                   | Err (CreationIgnore _) => Ok None
                   | Err (CreationUnknown _) => Err PeUnknown
                   | Panic => Panic
                   end)
              | Ok _, _ => (self, Err PeUnknown)
              | Err e, _ => match e with end
              | Panic, _ => (self, Panic)
              end
          end
      end
  end.

Fixpoint create_dynamic_data_sources (created : list InstanceDSTemplateInfo) : st SubgraphRunner ProcessingError (list DataSource * list Host) :=
  match created with
  | [] => mret ([], [])
  | info :: created =>
      data_source ← instantiate info;
      host ← match data_source with
             | None => mret None
             | Some ds => host ← on_ctx (λ _, PeUnknown) (context_add_dynamic_data_source ds); mret ((ds,.) <$> host)
             end;
      rest ← create_dynamic_data_sources created;
      mret (match host with Some (ds, host) => (ds :: rest.1, host :: rest.2) | None => rest end)
  end.

Fixpoint persist_dynamic_data_sources (m : Atomics) (data_sources : list DataSource) (b : BlockState Q) : outcome ProcessingError (BlockState Q) :=
  match data_sources with
  | [] => Ok b
  | ds :: data_sources =>
      stored ← map_err (λ _, PeUnknown) (as_stored_dynamic_data_source ds m);
      persist_dynamic_data_sources m data_sources (persist_data_source stored b)
  end.

Definition set_br_state (s : BlockState Q) (b : BlockRun Q) : BlockRun Q := mkBlockRun (br_seq b) s (br_poi b) (br_atomics b).

Definition refetch_block (block : ChainBlock) : st SubgraphRunner ProcessingError ChainBlock := ask_ok PeUnknown (λ x, x_refetch x block).

(** One round: create the data sources that handlers asked for, and run the
    triggers of the block that are for them.  A possible reorg is an unknown
    error here. *)
Definition dynamic_round (block : ChainBlock) (region : string) (b : BlockRun Q) : st SubgraphRunner ProcessingError (BlockRun Q) :=
  '(state, created) ← lift (match drain_created_data_sources (br_state b) with (s, Ok created) => Ok (s, created) | _ => Panic end);
  '(data_sources, runtime_hosts) ← create_dynamic_data_sources created;
  block ← refetch_block block;
  triggers ← ask_ok PeUnknown (λ x, x_triggers_in_block x block (filter_from_data_sources (omap as_onchain data_sources)));
  self ← st_get;
  state ← lift (persist_dynamic_data_sources (atomics (instance (ru_ctx self))) data_sources state);
  st_map_err (λ _, PeUnknown) (run_triggers block triggers (λ _, Ok runtime_hosts) region (set_br_state state b)).

Fixpoint process_dynamic_data_sources (fuel : nat) (block : ChainBlock) (region : string) (b : BlockRun Q) : st SubgraphRunner ProcessingError (BlockRun Q) :=
  created ← lift (map_err (λ _, PeUnknown) (has_created_data_sources (br_state b)));
  if created : bool then
    match fuel with
    | O => lift Panic
    | Datatypes.S fuel => b ← dynamic_round block region b; process_dynamic_data_sources fuel block region b
    end
  else mret b.

(** ** The proof of indexing of a block *)

Definition store_poi_entity (rs : ReadStore) (key : EntityKey) (digest : list Z) (block_time : Z) : st (World Q) ProcessingError unit :=
  let data := [("id"%string, VString (id_to_string (entity_id key))); (POI_DIGEST, VBytes digest)] in
  let data := if has_aggregations then data ++ [(POI_BLOCK_TIME, VInt8 block_time)] else data in
  poi ← lift (map_err (λ _, PeUnknown) (entity_make schema_pool data));
  st_map_err (λ _, PeUnknown) (cache_set key poi).

Definition update_region (rs : ReadStore) (block_time : Z) (entry : Id * BlockEventStream) : st (World Q) ProcessingError unit :=
  let '(region, stream) := entry in
  let key := mkEntityKey (mkEntityType POI_OBJECT) region ONCHAIN in
  prev ← on_cache (λ _, PeUnknown) (cache_get key ScopeStore);
  prev ← lift match prev with
              | None => Ok None
              | Some entity => match entity_get entity POI_DIGEST with Some (VBytes b) => Ok (Some b) | _ => Panic end
              end;
  store_poi_entity rs key (pause stream prev) block_time.

Definition update_proof_of_indexing (rs : ReadStore) (block_time : Z) (poi : ProofOfIndexing) : st (World Q) ProcessingError unit :=
  st_for (update_region rs block_time) (poi_iter (per_causality_region poi)).

(** The cache of the block state with the proof of indexing, if there is one *)
Definition with_poi (rs : ReadStore) (block_time : Z) (b : BlockRun Q) : outcome ProcessingError (EntityCache Q) :=
  match br_poi b with
  | None => Ok (entity_cache (br_state b))
  | Some poi =>
      match update_proof_of_indexing rs block_time poi (mkWorld (br_seq b) None (entity_cache (br_state b))) with
      | (w, Ok _) => Ok (w_cache w)
      | (_, Err e) => Err e
      | (_, Panic) => Panic
      end
  end.

(** [as_modifications]; the loop of its eviction has enough fuel. *)
Definition modifications_of {E} (f : StoreError → E) (rs : ReadStore) (block : BlockNumber) (c : EntityCache Q)
    : outcome E (ModificationsAndCache Q) :=
  match as_modifications block c with Some r => map_err f r | None => Panic end.

(** ** The end of a block *)

Definition close_to_chain_head (deployment_head_ptr : BlockPtr) (chain_head_ptr : option BlockPtr) (n : BlockNumber) : bool :=
  match chain_head_ptr with Some b2 => ptr_number b2 - n <=? ptr_number deployment_head_ptr | None => false end.

Definition CAUGHT_UP_DISTANCE : BlockNumber := 10.

Definition is_caught_up (block_ptr : BlockPtr) : st SubgraphRunner ProcessingError bool :=
  self ← st_get;
  let head := cached_head_ptr (ru_state self) in
  _ ← (if bool_decide (head = None) || close_to_chain_head block_ptr head CAUGHT_UP_DISTANCE then
         head ← ask_ok PeUnknown x_chain_head; modify_state (set_cached_head head)
       else mret tt);
  self ← st_get;
  mret (close_to_chain_head block_ptr (cached_head_ptr (ru_state self)) CAUGHT_UP_DISTANCE).

Definition errors_are_fatal : bool := negb (in_errors_are_non_fatal inputs).

Definition maybe_cancel : st SubgraphRunner ProcessingError unit :=
  self ← st_get;
  if negb disable_fail_fast && negb (ws_is_deployment_synced (ru_store self)) then
    _ ← on_store (λ _, PeUnknown) ws_pause; st_fail PeCanceled
  else mret tt.

Definition create_postponed_indexes (block_ptr : BlockPtr) : st SubgraphRunner ProcessingError unit :=
  self ← st_get;
  if negb (postponed_indexes_created (ru_state self))
     && close_to_chain_head block_ptr (cached_head_ptr (ru_state self)) postpone_indexes_creation_threshold then
    _ ← modify_state set_postponed; on_store (λ _, PeUnknown) ws_create_postponed_indexes
  else mret tt.

(** The cache goes back to the state; the placeholder has not been used. *)
Definition put_cache (cache : LfuCache Q) : st SubgraphRunner ProcessingError unit := λ self,
  if lfu_is_empty (V := option Entity) (entity_lfu_cache (ru_state self)) then (set_state (set_lfu_cache cache (ru_state self)) self, Ok tt)
  else (self, Panic).

(** After a deterministic error, the proof of indexing is the only entity that
    is stored. *)
Definition retain_poi (fatal : bool) (mods : list EntityModification) : outcome ProcessingError (list EntityModification) :=
  if fatal then
    let mods := filter (λ m, is_poi (entity_type (emod_key m)) = true) mods in
    if bool_decide (length mods = 1%nat) then Ok mods else Panic
  else Ok mods.

(** An error of [flush] is only logged. *)
Definition flush_anyway {E} : st SubgraphRunner E unit := λ self, (set_store (ws_flush (ru_store self)).1 self, Ok tt).

Definition transact_block_state (block_ptr : BlockPtr) (cursor : option string) (block_time : Z) (b : BlockRun Q)
    (offchain_mods : list EntityModification) (processed_offchain : list StoredDynamicDataSource) : st SubgraphRunner ProcessingError unit :=
  let errors := bs_deterministic_errors (br_state b) in
  let has_errors := bool_decide (errors ≠ []) in
  let fatal := has_errors && errors_are_fatal in
  canceled ← ask x_canceled;
  if canceled : bool then st_fail PeCanceled
  else
    self ← st_get;
    let rs := ws_read (ru_store self) in
    c ← lift (with_poi rs block_time b);
    m ← lift (modifications_of classify rs (ptr_number block_ptr) c);
    let mods := modifications m ++ offchain_mods in
    _ ← put_cache (EntityCache.entity_lfu_cache m);
    mods ← lift (retain_poi fatal mods);
    caught_up ← is_caught_up block_ptr;
    _ ← create_postponed_indexes block_ptr;
    _ ← on_store classify (ws_transact (mkBlockChanges block_ptr block_time cursor mods (persisted_data_sources (br_state b)) errors
                                          processed_offchain (in_errors_are_non_fatal inputs) caught_up));
    if fatal then _ ← flush_anyway; st_fail PeDeterministic
    else
      _ ← ask_ok PeUnknown x_flush_metrics;
      if has_errors : bool then maybe_cancel else mret tt.

(** ** Files *)

(** What the handlers for files have done *)
Record OffchainRun := mkOffchainRun {
  or_seq : SeqGenerator;
  or_mods : list EntityModification;
  or_processed : list StoredDynamicDataSource;
  or_persisted : list StoredDynamicDataSource;
}.

(** One trigger for a file; it sees nothing of the store or of the other
    triggers, and a deterministic error is one that is not. *)
Definition offchain_trigger (block : ChainBlock) (trigger : OffchainTrigger) (acc : OffchainRun) : st SubgraphRunner ProcessingError OffchainRun :=
  let rs := empty_store in
  let t := TrOffchain trigger in
  self ← st_get;
  let m := atomics (instance (ru_ctx self)) in
  hosts ← lift (map_err (λ _, PeUnknown) (instance_hosts self t));
  runnable ← lift (map_err (λ _, PeUnknown) (decoder_match_and_decode from_entity_trigger block t m hosts));
  b ← st_map_err (λ _, PeUnknown)
        (in_block (process_trigger rs block EmptyString (hosted_triggers runnable))
           (mkBlockRun (or_seq acc) (block_state_new (lfu_new (K := EntityKey) (V := option Entity))) None m));
  onchain ← lift (map_err (λ _, PeUnknown) (has_created_on_chain_data_sources (br_state b)));
  if onchain : bool then st_fail PeUnknown
  else
    '(state, created) ← lift (match drain_created_data_sources (br_state b) with (s, Ok created) => Ok (s, created) | _ => Panic end);
    '(data_sources, _) ← create_dynamic_data_sources created;
    self ← st_get;
    state ← lift (persist_dynamic_data_sources (atomics (instance (ru_ctx self))) data_sources state);
    if bool_decide (bs_deterministic_errors state ≠ []) then st_fail PeUnknown
    else
      m ← lift (modifications_of (λ _, PeUnknown) rs (block_number block) (entity_cache state));
      mret (mkOffchainRun (br_seq b) (or_mods acc ++ modifications m) (or_processed acc ++ processed_data_sources state)
              (or_persisted acc ++ persisted_data_sources state)).

Fixpoint handle_offchain_triggers (block : ChainBlock) (triggers : list OffchainTrigger) (acc : OffchainRun) : st SubgraphRunner ProcessingError OffchainRun :=
  match triggers with
  | [] => mret acc
  | trigger :: triggers => acc ← offchain_trigger block trigger acc; handle_offchain_triggers block triggers acc
  end.

Definition extend_persisted (l : list StoredDynamicDataSource) (b : BlockState Q) : BlockState Q :=
  mkBlockState (entity_cache b) (bs_deterministic_errors b) (created_data_sources b) (persisted_data_sources b ++ l)
    (handler_created_data_sources b) (processed_data_sources b) (bs_in_handler b) (write_capacity_remaining b).

Definition process_offchain_triggers (block : ChainBlock) (b : BlockRun Q)
    : st SubgraphRunner ProcessingError (list EntityModification * list StoredDynamicDataSource * BlockRun Q) :=
  offchain_events ← ask_ok PeUnknown x_offchain_events;
  r ← handle_offchain_triggers block offchain_events (mkOffchainRun (br_seq b) [] [] []);
  mret (or_mods r, or_processed r, mkBlockRun (or_seq r) (extend_persisted (or_persisted r) (br_state b)) (br_poi b) (br_atomics b)).

(** ** Blocks *)

Inductive Action := Continue | Stop | Restart.

(** Rounds for dynamic data sources: a round that adds none is the last. *)
Definition dynamic_rounds : nat := Datatypes.S subgraph_max_data_sources.

Definition process_block (block : RunBlock) (cursor : option string) : st SubgraphRunner ProcessingError Action :=
  let triggers := rb_triggers block in
  let block := rb_block block in
  let ptr := DataSource.block_ptr block in
  let region := from_network (in_network inputs) in
  self ← st_get;
  _ ← modify_state (set_lfu_cache (lfu_new (K := EntityKey) (V := option Entity)));
  b ← st_map_err mapping_error
        (run_triggers block triggers (instance_hosts self) region
           (mkBlockRun (seq_new (ptr_number ptr)) (block_state_new (entity_lfu_cache (ru_state self)))
              (Some (poi_new (ptr_number ptr) (in_poi_version inputs))) (atomics (instance (ru_ctx self)))));
  let has_expired_data_sources := existsb (Z.eqb (ptr_number ptr)) (in_end_blocks inputs) in
  self ← st_get;
  created_data_sources_needs_restart ←
    (if is_static_filters_enabled self then mret false
     else lift (map_err (λ _, PeUnknown) (has_created_on_chain_data_sources (br_state b))));
  _ ← lift (map_err (λ _, PeUnknown) (checkpoint (br_state b)));
  b ← process_dynamic_data_sources dynamic_rounds block region b;
  '(offchain_mods, processed_offchain, b) ← process_offchain_triggers block b;
  _ ← transact_block_state ptr cursor (default block_time_none (block_timestamp block)) b offchain_mods processed_offchain;
  mret (if created_data_sources_needs_restart || has_expired_data_sources then Restart else Continue).

(** ** What follows from a block *)

Definition fail_subgraph (e : ProcessingError) (ptr : BlockPtr) (deterministic : bool) : st SubgraphRunner SubgraphRunnerError unit :=
  on_store (λ _, RunnerUnknown) (ws_fail (mkSubgraphError (processing_error_text e) (Some ptr) None deterministic)).

Definition revert_to_last_good_block : st SubgraphRunner SubgraphRunnerError unit :=
  self ← st_get; revert_state_to (last_good_block self).

Definition reached (limit : option BlockNumber) (ptr : BlockPtr) : bool :=
  match limit with Some n => n <=? ptr_number ptr | None => false end.

Definition after_success (ptr : BlockPtr) (action : Action) : st SubgraphRunner SubgraphRunnerError Action :=
  self ← st_get;
  _ ← (if should_try_unfail_non_deterministic (ru_state self) then
         outcome ← on_store (λ _, RunnerUnknown) (ws_unfail_non_deterministic ptr);
         match outcome with
         | BehindErrorBlock => mret tt
         | Noop | Unfailed => modify_state (set_try_unfail false)
         end
       else mret tt);
  mret (if reached (in_stop_block inputs) ptr || reached (in_max_end_block inputs) ptr then Stop else action).

Definition runner_health : st SubgraphRunner SubgraphRunnerError SubgraphHealth :=
  self ← st_get; lift (map_err (λ _, RunnerUnknown) (ws_health (ru_store self))).

Definition after_error (ptr : BlockPtr) (e : ProcessingError) : st SubgraphRunner SubgraphRunnerError Action :=
  match error_kind e with
  | KindCanceled => mret Stop
  | KindPossibleReorg => _ ← revert_to_last_good_block; mret Restart
  | KindDeterministic =>
      _ ← revert_to_last_good_block;
      _ ← fail_subgraph e ptr true;
      st_fail RunnerUnknown
  | KindNonDeterministic =>
      _ ← revert_to_last_good_block;
      h ← runner_health;
      _ ← (if is_failed h then mret tt else fail_subgraph e ptr false);
      _ ← modify_state (set_try_unfail true);
      mret Restart
  end.

(** [handle_action] on what [process_block] gives *)
Definition handle_action (ptr : BlockPtr) (m : st SubgraphRunner ProcessingError Action) : st SubgraphRunner SubgraphRunnerError Action := λ self,
  match m self with
  | (self, Ok action) => after_success ptr action self
  | (self, Err e) => after_error ptr e self
  | (self, Panic) => (self, Panic)
  end.

Definition cancel : st SubgraphRunner SubgraphRunnerError RunnerState :=
  newer ← ask x_newer_runner;
  if newer : bool then st_fail RunnerDuplicate else mret (Stopped Unassigned).

(** A block without triggers is passed over for a while, far from the head. *)
Definition may_skip (block : RunBlock) : st SubgraphRunner SubgraphRunnerError bool :=
  let ptr := DataSource.block_ptr (rb_block block) in
  match rb_triggers block with
  | _ :: _ => mret false
  | [] =>
      recent ← ask x_timer_recent;
      self ← st_get;
      if recent && negb (ws_is_deployment_synced (ru_store self)) then
        head ← ask_ok RunnerUnknown x_chain_head;
        mret (negb (close_to_chain_head ptr head 1000) && negb (reached (in_max_end_block inputs) ptr))
      else mret false
  end.

Definition process_block_state (block : RunBlock) (cursor : option string) : st SubgraphRunner SubgraphRunnerError RunnerState :=
  skip ← may_skip block;
  if skip : bool then mret AwaitingBlock
  else
    action ← handle_action (DataSource.block_ptr (rb_block block)) (process_block block cursor);
    canceled ← ask x_canceled;
    if canceled : bool then cancel
    else
      mret (match action with
            | Continue => AwaitingBlock
            | Restart => Restarting DynamicDataSourceCreated
            | Stop => Stopped MaxEndBlockReached
            end).

(** ** Reverts *)

(** [end_blocks] has a block in the range *)
Definition needs_restart (revert_to_ptr subgraph_ptr : BlockPtr) : bool :=
  existsb (λ n, (ptr_number revert_to_ptr <=? n) && (n <=? ptr_number subgraph_ptr)) (in_end_blocks inputs).

Definition handle_revert (revert_to_ptr : BlockPtr) (cursor : option string) : st SubgraphRunner SubgraphRunnerError Action := λ self,
  match ws_block_ptr (ru_store self) with
  | None => (self, Panic)
  | Some subgraph_ptr =>
      if ptr_number subgraph_ptr <=? ptr_number revert_to_ptr then (self, Ok Continue)
      else
        match ws_revert revert_to_ptr cursor (ru_store self) with
        | (s, Panic) => (set_store s self, Panic)
        | (s, Err _) => (set_store s self, Ok Restart)
        | (s, Ok _) =>
            (_ ← revert_state_to (ptr_number revert_to_ptr);
             mret (if needs_restart revert_to_ptr subgraph_ptr then Restart else Continue)) (set_store s self)
        end
  end.

Definition handle_revert_state (revert_to_ptr : BlockPtr) (cursor : option string) : st SubgraphRunner SubgraphRunnerError RunnerState :=
  action ← handle_revert revert_to_ptr cursor;
  mret (match action with
        | Continue => AwaitingBlock
        | Restart => Restarting RestartStoreError
        | Stop => Stopped StopCanceled
        end).

(** ** The state machine *)

Definition initialize : st SubgraphRunner SubgraphRunnerError RunnerState :=
  self ← st_get;
  match ws_block_ptr (ru_store self) with
  | None => mret (Restarting RestartStoreError)
  | Some current_ptr =>
      parent ← ask_ok RunnerUnknown (λ x, x_parent_ptr x current_ptr);
      _ ← match parent with
          | Some parent_ptr => _ ← on_store (λ _, RunnerUnknown) (ws_unfail_deterministic current_ptr parent_ptr); mret tt
          | None => mret tt
          end;
      if reached (in_max_end_block inputs) current_ptr then
        _ ← on_store (λ _, RunnerUnknown) ws_flush; mret (Stopped MaxEndBlockReached)
      else mret (Restarting RestartStoreError)
  end.

Definition start_block_stream : st SubgraphRunner SubgraphRunnerError unit :=
  self ← st_get;
  flt ← lift (map_err (λ _, RunnerUnknown) (build_filter self));
  let start := ws_block_ptr (ru_store self) in
  _ ← ask_ok RunnerUnknown (λ x, x_new_stream x start flt);
  put_stream (mkStreamState start flt []).

Definition restart_store : st SubgraphRunner SubgraphRunnerError unit :=
  self ← st_get;
  store ← lift (map_err (λ _, RunnerUnknown) (ws_restart (ru_store self)));
  match store with
  | None => mret tt
  | Some s => _ ← put_store s; revert_to_last_good_block
  end.

Definition restart (reason : RestartReason) : st SubgraphRunner SubgraphRunnerError RunnerState :=
  _ ← match reason with RestartStoreError => restart_store | _ => mret tt end;
  _ ← start_block_stream;
  mret AwaitingBlock.

(** The next event of the block stream *)
Definition next_event : st SubgraphRunner SubgraphRunnerError (option StreamEvent) :=
  self ← st_get;
  event ← ask (λ x, x_next_event x (ru_stream self));
  _ ← put_stream (mkStreamState (stream_start (ru_stream self)) (stream_filter (ru_stream self)) (stream_told (ru_stream self) ++ option_list event));
  mret event.

Definition await_block : st SubgraphRunner SubgraphRunnerError RunnerState :=
  event ← next_event;
  canceled ← ask x_canceled;
  if canceled : bool then cancel
  else
    mret (match event with
          | Some (EvProcessBlock block cursor) => ProcessingBlock block cursor
          | Some (EvRevert to_ptr cursor) => Reverting to_ptr cursor
          | Some EvError => AwaitingBlock
          | None => Stopped StreamEnded
          end).

(** One turn of the loop in [run_inner], without the break for tests; a runner
    that has stopped turns no more. *)
Definition runner_step (state : RunnerState) : st SubgraphRunner SubgraphRunnerError RunnerState :=
  match state with
  | Initializing => initialize
  | Restarting reason => restart reason
  | AwaitingBlock => await_block
  | ProcessingBlock block cursor => process_block_state block cursor
  | Reverting to_ptr cursor => handle_revert_state to_ptr cursor
  | Stopped reason => mret (Stopped reason)
  end.

Definition finalize (reason : StopReason) : st SubgraphRunner SubgraphRunnerError unit := on_store (λ _, RunnerUnknown) ws_flush.

(** [run_inner]: [None] while the runner is at work *)
Fixpoint run_inner (turns : nat) (state : RunnerState) (self : SubgraphRunner)
    : SubgraphRunner * option (outcome SubgraphRunnerError unit) :=
  match state, turns with
  | Stopped reason, _ => let '(self, r) := finalize reason self in (self, Some r)
  | _, O => (self, None)
  | _, Datatypes.S turns =>
      match runner_step state self with
      | (self, Ok state) => run_inner turns state self
      | (self, Err e) => (self, Some (Err e))
      | (self, Panic) => (self, Some Panic)
      end
  end.

End Runner.
