(* ===== verification/Triples.v ===== *)
(** * Triples for methods that change their receiver

    [triple P m Q R] says what a method does from a state in which [P] holds:
    [Q] holds when it returns a value, and [R] when it returns an error; it
    says nothing about a panic.  [keeps I m] is the case of a method that does
    not touch what [I] talks about; the hint database [frames] has the rules
    for it. *)

From Stdlib Require Import ZArith Lia.
From stdpp Require Import base list strings.
From S2P Require Import Prelude.

Definition triple {S E A} (P : S → Prop) (m : st S E A) (Q : A → S → Prop) (R : E → S → Prop) : Prop :=
  ∀ s, P s → match m s with (s', Ok a) => Q a s' | (s', Err e) => R e s' | (_, Panic) => True end.

Definition keeps {S E A} (I : S → Prop) (m : st S E A) : Prop := triple I m (λ _, I) (λ _, I).

Section Rules.
Context {S E A B : Type}.
Implicit Types (P I : S → Prop) (m : st S E A).

Lemma triple_weaken P P' Q Q' R R' m :
  triple P' m Q' R' → (∀ s, P s → P' s) → (∀ a s, Q' a s → Q a s) → (∀ e s, R' e s → R e s) → triple P m Q R.
Proof. intros Hm HP HQ HR s Hs. specialize (Hm s (HP s Hs)). destruct (m s) as [s' [a|e|]]; auto. Qed.

Lemma triple_bind P m (f : A → st S E B) Q Q' R :
  triple P m Q R → (∀ a, triple (Q a) (f a) Q' R) → triple P (m ≫= f) Q' R.
Proof.
  intros Hm Hf s Hs. specialize (Hm s Hs). unfold mbind, st_bind. destruct (m s) as [s' [a|e|]]; [|done..]. by apply Hf.
Qed.

Lemma triple_ret P (a : A) Q (R : E → S → Prop) : (∀ s, P s → Q a s) → triple P (mret a) Q R.
Proof. intros HQ s Hs. by apply HQ. Qed.

Lemma triple_lift P (r : outcome E A) Q R :
  (∀ a s, r = Ok a → P s → Q a s) → (∀ e s, r = Err e → P s → R e s) → triple P (lift r) Q R.
Proof. intros HQ HR s Hs. unfold lift. destruct r; auto. Qed.

Lemma triple_fail P (e : E) (Q : A → S → Prop) R : (∀ s, P s → R e s) → triple P (st_fail e) Q R.
Proof. intros HR s Hs. by apply HR. Qed.

Lemma triple_get P (f : S → st S E B) Q R :
  (∀ s, P s → triple (λ s', s' = s ∧ P s') (f s) Q R) → triple P (st_get ≫= f) Q R.
Proof. intros Hf s Hs. by apply (Hf s Hs s). Qed.

Lemma triple_pure P (φ : Prop) m Q R : (φ → triple P m Q R) → triple (λ s, φ ∧ P s) m Q R.
Proof. intros Hm s [Hφ Hs]. by apply Hm. Qed.

Lemma triple_or P1 P2 m Q R : triple P1 m Q R → triple P2 m Q R → triple (λ s, P1 s ∨ P2 s) m Q R.
Proof. intros Hl Hr s [Hs|Hs]; [by apply Hl|by apply Hr]. Qed.

Lemma triple_exists {X} (P : X → S → Prop) m Q R : (∀ x, triple (P x) m Q R) → triple (λ s, ∃ x, P x s) m Q R.
Proof. intros Hm s [x Hs]. by apply (Hm x). Qed.

Lemma triple_map_err {E'} P (f : E' → E) (m : st S E' A) Q R :
  triple P m Q (λ e, R (f e)) → triple P (st_map_err f m) Q R.
Proof. intros Hm s Hs. specialize (Hm s Hs). unfold st_map_err. by destruct (m s) as [s' [a|e|]]. Qed.

Lemma triple_if P (b : bool) (m1 m2 : st S E A) Q R :
  (b = true → triple P m1 Q R) → (b = false → triple P m2 Q R) → triple P (if b then m1 else m2) Q R.
Proof. destruct b; auto. Qed.

End Rules.

Lemma triple_for {S E X} (I : S → Prop) (f : X → st S E unit) l R :
  (∀ x, triple I (f x) (λ _, I) R) → triple I (st_for f l) (λ _, I) R.
Proof.
  intros Hf. induction l as [|x l IH]; cbn [st_for]; [by apply triple_ret|]. eapply triple_bind; [apply Hf|]. intros ?. apply IH.
Qed.

(** ** Methods that leave something alone *)

Section Frames.
Context {S E A B : Type}.
Implicit Types (I : S → Prop) (m : st S E A).

Lemma keeps_triple I m : keeps I m → triple I m (λ _, I) (λ _, I).
Proof. done. Qed.

Lemma keeps_bind I m (f : A → st S E B) : keeps I m → (∀ a, keeps I (f a)) → keeps I (m ≫= f).
Proof. intros Hm Hf. by eapply triple_bind. Qed.

Lemma keeps_ret I (a : A) : keeps (E := E) I (mret a).
Proof. by apply triple_ret. Qed.

Lemma keeps_lift I (r : outcome E A) : keeps I (lift r).
Proof. by apply triple_lift. Qed.

Lemma keeps_fail I (e : E) : keeps (A := A) I (st_fail e).
Proof. by apply triple_fail. Qed.

Lemma keeps_get I : keeps (E := E) I st_get.
Proof. by intros s Hs. Qed.

Lemma keeps_map_err {E'} I (f : E' → E) (m : st S E' A) : keeps I m → keeps I (st_map_err f m).
Proof. intros Hm. by apply triple_map_err. Qed.

Lemma keeps_if I (b : bool) (m1 m2 : st S E A) : keeps I m1 → keeps I m2 → keeps I (if b then m1 else m2).
Proof. by destruct b. Qed.

Lemma keeps_option {X} I (o : option X) (f : X → st S E A) m : (∀ x, keeps I (f x)) → keeps I m →
  keeps I (match o with Some x => f x | None => m end).
Proof. by destruct o. Qed.

Lemma keeps_pair {X Y} I (p : X * Y) (f : X → Y → st S E A) : (∀ x y, keeps I (f x y)) → keeps I (let '(x, y) := p in f x y).
Proof. by destruct p. Qed.

End Frames.

Lemma keeps_for {S E X} (I : S → Prop) (f : X → st S E unit) l : (∀ x, keeps I (f x)) → keeps I (st_for f l).
Proof. apply triple_for. Qed.

Lemma keeps_for_in {S E X} (I : S → Prop) (f : X → st S E unit) l : (∀ x, x ∈ l → keeps I (f x)) → keeps I (st_for f l).
Proof.
  induction l as [|x l IH]; intros Hf; cbn [st_for]; [apply keeps_ret|]. apply keeps_bind; [apply Hf; by left|].
  intros []. apply IH. intros y Hy. apply Hf. by right.
Qed.

(** What a method does, next to what it leaves alone *)
Lemma triple_frame {S E A} (P I : S → Prop) (m : st S E A) (Q : A → S → Prop) (R : E → S → Prop) :
  triple P m Q R → keeps I m → triple (λ s, P s ∧ I s) m (λ a s, Q a s ∧ I s) (λ e s, R e s ∧ I s).
Proof. intros Hm Hk s [Hs Hi]. specialize (Hm s Hs). specialize (Hk s Hi). by destruct (m s) as [s' [a|e|]]. Qed.

Lemma triple_keeps {S E A B} (I : S → Prop) (m : st S E A) (f : A → st S E B) Q R :
  keeps I m → (∀ e s, I s → R e s) → (∀ a, triple I (f a) Q R) → triple I (m ≫= f) Q R.
Proof. intros Hm HR Hf. apply (triple_bind _ _ _ (λ _, I)); [|done]. by eapply triple_weaken; [apply Hm|..]. Qed.

Lemma triple_keeps_last {S E A} (I : S → Prop) (m : st S E A) (Q : A → S → Prop) R :
  keeps I m → (∀ e s, I s → R e s) → (∀ a s, I s → Q a s) → triple I m Q R.
Proof. intros Hm HR HQ. by eapply triple_weaken; [apply Hm|..]. Qed.

Create HintDb frames.
#[export] Hint Resolve keeps_bind keeps_ret keeps_lift keeps_fail keeps_get keeps_map_err keeps_if keeps_option keeps_pair keeps_for : frames.

(** Goes through a method whose parts have their rules in [frames] *)
Ltac framed :=
  repeat match goal with
  | |- keeps _ (mbind _ _) => apply keeps_bind
  | |- keeps _ (mret _) => apply keeps_ret
  | |- keeps _ (if _ then _ else _) => apply keeps_if
  | |- keeps _ (st_map_err _ _) => apply keeps_map_err
  | |- keeps _ (let '(_, _) := ?p in _) => destruct p
  | |- keeps _ (match ?o with _ => _ end) => destruct o
  | |- ∀ _, _ => intros ?
  | |- keeps _ _ => progress (auto with frames)
  end.
