(* ===== verification/RunnerFacts.v ===== *)
(** * What the runner does to the store

    The blocks that the store has follow the block stream: a block with
    triggers is never left out, a block is not written twice, and a revert
    goes back to the block that the stream says.  The store is any one that
    keeps to [WritableStoreSpec]. *)

From Stdlib Require Import ZArith Lia ZifyBool.
From stdpp Require Import base gmap list sorting strings.
From S2P Require Import Prelude Values IdText Intern Entity Write Relational LfuCache EntityCache BlockState HostExports.
From S2P Require Import Deployment Writable DataSource Instance Poi TriggerProcessor Runner Triples.

Local Open Scope Z_scope.

(** ** What the runner relies on *)

Definition earlier (p q : BlockPtr) : Prop := ptr_number p < ptr_number q.

#[export] Instance earlier_dec p q : Decision (earlier p q).
Proof. unfold earlier. apply _. Defined.

(** The heads of a store after it went back to [p] *)
Definition back_to (p : BlockPtr) (l : list BlockPtr) : list BlockPtr := filter (λ q, earlier q p) l ++ [p].

(** [ws_log] are the blocks that the store has been at, without the ones that
    were reverted. *)
Class WritableStoreSpec (S : Type) `{WritableStore S} := {
  ws_log : S → list BlockPtr;
  ws_ptr_log : ∀ s, ws_block_ptr s = last (ws_log s);
  transact_log : ∀ bc s s' r, ws_transact bc s = (s', r) →
    match r with
    | Ok _ => ws_log s' = ws_log s ++ [bc_ptr bc] ∧ ∀ p, last (ws_log s) = Some p → earlier p (bc_ptr bc)
    | _ => ws_log s' = ws_log s
    end;
  revert_log : ∀ p cursor s s' r, ws_revert p cursor s = (s', r) →
    match r with
    | Ok _ => ws_log s' = back_to p (ws_log s)
    | Err _ => ws_log s' = ws_log s ∨ ws_log s' = back_to p (ws_log s)
    | Panic => True
    end;
  unfail_deterministic_log : ∀ p q s s' r, ws_unfail_deterministic p q s = (s', r) → ws_log s' = ws_log s ∨ ws_log s' = back_to q (ws_log s);
  unfail_non_deterministic_log : ∀ p s, ws_log (ws_unfail_non_deterministic p s).1 = ws_log s;
  fail_log : ∀ e s, ws_log (ws_fail e s).1 = ws_log s;
  flush_log : ∀ s, ws_log (ws_flush s).1 = ws_log s;
  pause_log : ∀ s, ws_log (ws_pause s).1 = ws_log s;
  indexes_log : ∀ s, ws_log (ws_create_postponed_indexes s).1 = ws_log s;
  restart_log : ∀ s s', StronglySorted earlier (ws_log s) → ws_restart s = Ok (Some s') → StronglySorted earlier (ws_log s');
}.

(** ** Chains *)

(** The blocks on which a stream is, each with whether it came with triggers *)
Abbreviation Chain := (list (BlockPtr * bool)).

Definition flagged (n : BlockNumber) (c : Chain) : bool := existsb (λ e, (ptr_number e.1 =? n) && e.2) c.

Definition go_back (p : BlockPtr) (c : Chain) : Chain := filter (λ e, earlier e.1 p) c ++ [(p, flagged (ptr_number p) c)].

(** The store has the blocks of the chain, up to some without triggers. *)
Inductive applied : Chain → list BlockPtr → Prop :=
| applied_nil : applied [] []
| applied_keep p b c l : applied c l → applied ((p, b) :: c) (p :: l)
| applied_skip p c l : applied c l → applied ((p, false) :: c) l.

Lemma applied_app c1 l1 c2 l2 : applied c1 l1 → applied c2 l2 → applied (c1 ++ c2) (l1 ++ l2).
Proof. induction 1; simpl; [done|constructor; auto..]. Qed.

Lemma applied_earlier p c l : applied c l → applied (filter (λ e, earlier e.1 p) c) (filter (λ q, earlier q p) l).
Proof.
  induction 1 as [|q b c l _ IH|q c l _ IH]; [apply applied_nil|..].
  - rewrite !filter_cons. repeat case_decide; by auto using applied_keep.
  - rewrite filter_cons. case_decide; auto using applied_skip.
Qed.

Lemma applied_elem c l p : applied c l → p ∈ l → ∃ b, (p, b) ∈ c.
Proof.
  induction 1 as [|q b c l _ IH|q c l _ IH]; [set_solver|..].
  - intros [->|Hp]%elem_of_cons; [exists b; left|]. destruct (IH Hp) as [b' Hb']. exists b'. by right.
  - intros Hp. destruct (IH Hp) as [b' Hb']. exists b'. by right.
Qed.

Lemma applied_flagged c l p : applied c l → (p, true) ∈ c → p ∈ l.
Proof. induction 1; set_solver. Qed.

Lemma applied_all l : applied ((λ p, (p, true)) <$> l) l.
Proof. induction l; simpl; constructor; auto. Qed.

Lemma last_In {A} (l : list A) x : last l = Some x → x ∈ l.
Proof. intros [k ->]%last_Some. apply elem_of_app. right. by left. Qed.

Lemma sorted_snoc l p : StronglySorted earlier l → (∀ q, last l = Some q → earlier q p) → StronglySorted earlier (l ++ [p]).
Proof.
  intros Hs Hp. apply StronglySorted_app. split_and!; [|done|repeat constructor].
  intros x y Hx ->%list_elem_of_singleton. destruct l as [|z l _] using rev_ind; [set_solver|].
  rewrite last_snoc in Hp. specialize (Hp z eq_refl). apply StronglySorted_app in Hs as (Hz & _ & _).
  apply elem_of_app in Hx as [Hx| ->%list_elem_of_singleton]; [|done]. specialize (Hz x z Hx ltac:(by left)). unfold earlier in *. lia.
Qed.

Lemma sorted_back_to p l : StronglySorted earlier l → StronglySorted earlier (back_to p l).
Proof.
  intros Hs. apply sorted_snoc; [by apply StronglySorted_filter|].
  intros q Hq%last_In. by apply list_elem_of_filter in Hq as [? _].
Qed.

Lemma sorted_last_max l p q : StronglySorted earlier l → last l = Some p → q ∈ l → q = p ∨ earlier q p.
Proof.
  intros Hs [k ->]%last_Some. apply StronglySorted_app in Hs as (Hp & _ & _).
  intros [Hq| ->%list_elem_of_singleton]%elem_of_app; [|by left]. right. apply Hp; [done|by left].
Qed.

Lemma applied_go_back p c l : applied c l → applied (go_back p c) (back_to p l).
Proof. intros Ha. apply applied_app; [by apply applied_earlier|apply applied_keep, applied_nil]. Qed.

Lemma back_to_last p l : StronglySorted earlier (l ++ [p]) → back_to p (l ++ [p]) = l ++ [p].
Proof.
  intros Hs. apply StronglySorted_app in Hs as (Hp & _ & _). unfold back_to. rewrite filter_app. f_equal.
  rewrite filter_all by (intros q Hq; apply Hp; [done|by left]). rewrite filter_cons_False by (unfold earlier; lia). by rewrite app_nil_r.
Qed.

Lemma applied_later p c l : applied c l → (∀ x, x ∈ l → earlier x p) → applied (go_back p c) l.
Proof.
  intros Ha Hlt. pose proof (applied_earlier p c l Ha) as Hf. rewrite (filter_all _ l) in Hf by done.
  rewrite <- (app_nil_r l). apply applied_app; [done|].
  replace (flagged (ptr_number p) c) with false; [apply applied_skip, applied_nil|]. symmetry.
  apply not_true_iff_false. unfold flagged. rewrite existsb_exists. intros ([x b] & Hx%list_elem_of_In & Hb). simpl in Hb.
  destruct b; [|lia]. pose proof (applied_flagged c l x Ha Hx) as Hxl. specialize (Hlt x Hxl). unfold earlier in Hlt. lia.
Qed.

(** A revert to a block that is not before the head of the store changes
    nothing. *)
Lemma applied_ignore p c l : applied c l → StronglySorted earlier l → (∀ e, e ∈ c → ptr_number e.1 = ptr_number p → e.1 = p) →
  (∀ q, last l = Some q → ptr_number q ≤ ptr_number p) → applied (go_back p c) l.
Proof.
  intros Ha Hs Hc Hl. destruct (last l) as [q|] eqn:Hq.
  - specialize (Hl q eq_refl). destruct (Z.eq_dec (ptr_number q) (ptr_number p)) as [Heq|Hne].
    + destruct (applied_elem c l q Ha (last_In _ _ Hq)) as [b Hb]. pose proof (Hc _ Hb Heq) as Hqp. simpl in Hqp. subst q.
      apply last_Some in Hq as [k ->]. rewrite <- (back_to_last p k Hs). by apply applied_go_back.
    + apply applied_later; [done|]. intros x Hx. unfold earlier.
      destruct (sorted_last_max l q x Hs Hq Hx) as [->|Hxq]; unfold earlier in *; lia.
  - apply last_None in Hq as ->. apply applied_later; [done|]. set_solver.
Qed.

(** ** What a turn of the runner does to the store *)

Section Store.
Context `{BC : Blockchain} `{DC : DeclaredCalls} `{RB : !RuntimeHostBuilder} `{IE : InstanceEnv} `{CR : !ChainRunner} `{CI : Cids} `{UR : Urls}.
Context {Q : Type} `{PQ : !PriorityQueue EntityKey (option Entity) Q} `{AR : Arithmetic}.
Context `{CC : !CacheConfig EntityKey (option Entity)} `{IS : InputSchema} `{HO : HashOrder} `{CE : CacheEnv} `{BE : BlockEnv} `{ST : SchemaTypes}.
Context `{FH : FastHasher} `{LH : LegacyHasher} `{DG : Digests} `{PR : !StableHashPrims} `{HX : Hex}.
Context `{MR : !MappingRuntime Q} {S : Type} `{WS : !WritableStore S} `{SP : !WritableStoreSpec S} `{RE : RunnerEnv} `{SA : SchemaAggregations}.
Context (from_entity_trigger : CallDecls → EntitySourceOperation → outcome string (list DeclaredCall)).
Context (poi_iter : gmap Id BlockEventStream → list (Id * BlockEventStream)).
Context (ext : nat → Ext) (inputs : IndexingInputs).
Abbreviation Runner := (SubgraphRunner (Q := Q) (S := S)).
Implicit Types (self : Runner) (l : list BlockPtr) (s : StreamState).

(** The heads of the store are [l], and the stream is [s]. *)
Definition at_log l s self : Prop := ws_log (ru_store self) = l ∧ ru_stream self = s.

(** A new head came after them. *)
Definition written l s (p : BlockPtr) self : Prop := at_log (l ++ [p]) s self ∧ ∀ q, last l = Some q → earlier q p.

Definition at_most l s (p : BlockPtr) self : Prop := at_log l s self ∨ written l s p self.

(** What is said about the store and the stream only *)
Definition about_store (I : Runner → Prop) : Prop :=
  ∀ ctx state clock self, I self → I (mkRunner ctx state (ru_store self) (ru_stream self) clock).

(** What is said about the heads of the store and the stream only *)
Definition about_log (I : Runner → Prop) : Prop :=
  ∀ ctx state st clock self, ws_log st = ws_log (ru_store self) → I self → I (mkRunner ctx state st (ru_stream self) clock).

Lemma about_log_store I : about_log I → about_store I.
Proof. intros HI ctx state clock self. by apply HI. Qed.
Lemma at_log_about l s : about_log (at_log l s).
Proof. intros ctx state st clock self Hst [Hl Hs]. split; [by rewrite <- Hl|done]. Qed.
Lemma written_about l s p : about_log (written l s p).
Proof. intros ctx state st clock self Hst [Hl Hp]. split; [by apply at_log_about|done]. Qed.
Lemma at_most_about l s p : about_log (at_most l s p).
Proof. intros ctx state st clock self Hl [Hs|Hs]; [left; by apply at_log_about|right; by apply written_about]. Qed.

Section Frame.
Context (I : Runner → Prop) (HI : about_store I).

Lemma ask_keeps {E A} (f : Ext → A) : keeps (E := E) I (ask ext f).
Proof using HI. intros self Hs. by apply HI. Qed.

Lemma ask_ok_keeps {E A} (e : E) (f : Ext → outcome string A) : keeps I (ask_ok ext e f).
Proof using HI. apply keeps_bind; [apply ask_keeps|]. intros r. apply keeps_lift. Qed.

Lemma on_ctx_keeps {E E' A} (f : E → E') (m : st IndexingContext E A) : keeps I (on_ctx f m).
Proof using HI. intros self Hs. unfold on_ctx. destruct (m (ru_ctx self)) as [ctx [a|e|]]; simpl; by try apply (HI _ _ _ self). Qed.

Lemma modify_state_keeps {E} f : keeps (E := E) I (modify_state f).
Proof using HI. intros self Hs. by apply HI. Qed.

Lemma revert_state_to_keeps {E} n : keeps (E := E) I (revert_state_to n).
Proof using HI.
  intros self Hs. unfold revert_state_to. destruct (context_revert_data_sources _ _) as [ctx [a|e|]]; simpl; by try apply (HI _ _ _ self).
Qed.

Lemma in_block_keeps {E} (m : st (BlockRun Q) E unit) b : keeps I (in_block m b).
Proof using HI. intros self Hs. unfold in_block. destruct (m _) as [b' [a|e|]]; by try apply (HI _ _ _ self). Qed.

Lemma instantiate_keeps info : keeps I (instantiate inputs info).
Proof using HI.
  intros self Hs. unfold instantiate. destruct (template_manifest_idx _); [|done]. destruct (find _ _) as [t|]; [|done].
  destruct (template info).
  - by destruct (chain_from_template_info info t).
  - destruct (causality_region_next_value _) as [i [region|[]|]]; [|done]. destruct t; try by apply (HI _ _ _ self).
    destruct (offchain_from_template_info _ _ _ _) as [m [ds|[]|]]; by try apply (HI _ _ _ self).
Qed.

Lemma put_cache_keeps c : keeps I (put_cache c).
Proof using HI. intros self Hs. unfold put_cache. destruct (lfu_is_empty _); by try apply (HI _ _ _ self). Qed.

Hint Resolve ask_keeps ask_ok_keeps on_ctx_keeps modify_state_keeps revert_state_to_keeps in_block_keeps instantiate_keeps put_cache_keeps : frames.

Lemma create_dynamic_keeps created : keeps I (create_dynamic_data_sources inputs created).
Proof using HI. induction created as [|info created IH]; cbn [create_dynamic_data_sources]; framed. Qed.

Lemma run_triggers_keeps block triggers hosts_filter region b :
  keeps I (run_triggers from_entity_trigger ext block triggers hosts_filter region b).
Proof using HI. unfold run_triggers, decode_triggers. framed. Qed.

Hint Resolve create_dynamic_keeps run_triggers_keeps : frames.

Lemma dynamic_keeps fuel block region b : keeps I (process_dynamic_data_sources from_entity_trigger ext inputs fuel block region b).
Proof using HI.
  revert b. induction fuel as [|fuel IH]; intros b; cbn [process_dynamic_data_sources]; unfold dynamic_round, refetch_block; framed.
Qed.

Lemma offchain_keeps block triggers acc : keeps I (handle_offchain_triggers from_entity_trigger inputs block triggers acc).
Proof using HI.
  revert acc. induction triggers as [|t triggers IH]; intros acc; cbn [handle_offchain_triggers]; unfold offchain_trigger; framed.
Qed.

Lemma caught_up_keeps p : keeps I (is_caught_up ext p).
Proof using HI. unfold is_caught_up. framed. Qed.

End Frame.

#[local] Hint Resolve about_log_store at_log_about written_about at_most_about : frames.
#[local] Hint Resolve ask_keeps ask_ok_keeps on_ctx_keeps modify_state_keeps revert_state_to_keeps in_block_keeps instantiate_keeps put_cache_keeps : frames.
#[local] Hint Resolve create_dynamic_keeps run_triggers_keeps dynamic_keeps offchain_keeps caught_up_keeps : frames.

Lemma on_store_keeps {E A} I (f : StoreError → E) (m : S → S * outcome StoreError A) :
  about_log I → (∀ st, ws_log (m st).1 = ws_log st) → keeps I (on_store f m).
Proof.
  intros HI Hm self Hs. specialize (Hm (ru_store self)). unfold on_store. destruct (m (ru_store self)) as [st [a|e|]]; simpl in *.
  all: by try apply (HI _ _ _ _ self).
Qed.

Lemma flush_anyway_keeps {E} I : about_log I → keeps (E := E) I flush_anyway.
Proof. intros HI self Hs. apply (HI _ _ _ _ self); [apply flush_log|done]. Qed.

Lemma maybe_cancel_keeps I : about_log I → keeps I maybe_cancel.
Proof. intros HI. unfold maybe_cancel. framed. apply on_store_keeps; [done|apply pause_log]. Qed.

Lemma postponed_keeps I p : about_log I → keeps I (create_postponed_indexes p).
Proof. intros HI. unfold create_postponed_indexes. framed. apply on_store_keeps; [done|apply indexes_log]. Qed.

#[local] Hint Resolve flush_anyway_keeps maybe_cancel_keeps postponed_keeps : frames.

Lemma at_log_most l s p self : at_log l s self → at_most l s p self.
Proof. by left. Qed.
Lemma written_most l s p self : written l s p self → at_most l s p self.
Proof. by right. Qed.
#[local] Hint Resolve at_log_most written_most : frames.

Lemma transact_writes l s {E} (f : StoreError → E) bc :
  triple (at_log l s) (on_store f (ws_transact bc)) (λ _, written l s (bc_ptr bc)) (λ _, at_log l s).
Proof.
  intros self [<- <-]. unfold on_store. destruct (ws_transact bc (ru_store self)) as [st r] eqn:Ht. apply transact_log in Ht.
  destruct r as [[]|e|]; simpl; [|by split|done].
  destruct Ht as [Ht Hp]. by repeat split.
Qed.

Lemma transact_block_writes l s p cursor time b offchain processed :
  triple (at_log l s) (transact_block_state poi_iter ext inputs p cursor time b offchain processed)
    (λ _, written l s p) (λ _, at_most l s p).
Proof.
  unfold transact_block_state. eapply triple_keeps; [framed|auto with frames|]. intros [].
  { apply triple_fail. auto with frames. }
  repeat (eapply triple_keeps; [by framed|auto with frames|intros ?]).
  eapply triple_bind. { eapply triple_weaken; [apply transact_writes|done|intros ? ? Hw; exact Hw|auto with frames]. }
  intros []. cbn [bc_ptr]. eapply triple_keeps_last; [framed|auto with frames|done].
Qed.

Lemma process_block_writes l s block cursor :
  triple (at_log l s) (process_block from_entity_trigger poi_iter ext inputs block cursor)
    (λ _, written l s (DataSource.block_ptr (rb_block block))) (λ _, at_most l s (DataSource.block_ptr (rb_block block))).
Proof.
  unfold process_block, process_offchain_triggers.
  repeat (eapply triple_keeps; [by framed|auto with frames|intros ?]; try match goal with |- triple _ (let '(_, _) := ?p in _) _ _ => destruct p as [[? ?] ?] end).
  eapply triple_bind; [apply transact_block_writes|]. intros []. by apply triple_ret.
Qed.

Lemma after_success_writes l s p action :
  triple (written l s p) (after_success inputs p action) (λ _, written l s p) (λ _ _, True).
Proof.
  unfold after_success. eapply triple_keeps_last; [|done..].
  framed. apply on_store_keeps; [auto with frames|apply unfail_non_deterministic_log].
Qed.

Lemma fail_subgraph_keeps I e p d : about_log I → keeps I (fail_subgraph e p d).
Proof. intros HI. apply on_store_keeps; [done|]. intros st. apply fail_log. Qed.
#[local] Hint Resolve fail_subgraph_keeps : frames.

Lemma after_error_keeps I p e : about_log I → triple I (after_error p e) (λ a self, a ≠ Continue ∧ I self) (λ _ _, True).
Proof.
  intros HI. unfold after_error, revert_to_last_good_block, runner_health. destruct (error_kind e);
    repeat (eapply triple_keeps; [by framed|done|intros ?]); try (apply triple_ret; by intros); by apply triple_fail.
Qed.

Lemma handle_action_writes l s p m :
  triple (at_log l s) m (λ _, written l s p) (λ _, at_most l s p) →
  triple (at_log l s) (handle_action inputs p m) (λ a self, at_most l s p self ∧ (a = Continue → written l s p self)) (λ _ _, True).
Proof.
  intros Hm self Hs. specialize (Hm self Hs). unfold handle_action. destruct (m self) as [self' [a|e|]]; [|..|done].
  - pose proof (after_success_writes l s p a self' Hm) as Ha. destruct (after_success _ _ _ _) as [self'' [a'|e|]]; [|done..]. split; [by right|done].
  - pose proof (after_error_keeps (at_most l s p) p e (at_most_about l s p) self' Hm) as Ha.
    destruct (after_error _ _ _) as [self'' [a'|e'|]]; [|done..]. destruct Ha as [Hne Ha]. by split.
Qed.

Lemma may_skip_keeps I block : about_log I → triple I (may_skip ext inputs block) (λ skip self, (skip = true → rb_triggers block = []) ∧ I self) (λ _ _, True).
Proof.
  intros HI. unfold may_skip. destruct (rb_triggers block) as [|t ts]; [|by apply triple_ret].
  eapply triple_keeps_last; [framed|done|done].
Qed.

Lemma cancel_keeps I : about_log I → triple I (cancel ext) (λ st self, st = Stopped Unassigned ∧ I self) (λ _ _, True).
Proof.
  intros HI. unfold cancel. eapply triple_keeps; [framed|done|]. intros []; [by apply triple_fail|by apply triple_ret].
Qed.

(** What a turn does with a block *)
Lemma process_block_state_writes l s block cursor :
  let p := DataSource.block_ptr (rb_block block) in
  triple (at_log l s) (process_block_state from_entity_trigger poi_iter ext inputs block cursor)
    (λ st self, match st with
                | AwaitingBlock => written l s p self ∨ rb_triggers block = [] ∧ at_log l s self
                | Restarting _ | Stopped _ => at_most l s p self
                | _ => False
                end) (λ _ _, True).
Proof.
  intros p. unfold process_block_state. eapply triple_bind; [apply may_skip_keeps; auto with frames|].
  intros skip. apply triple_pure. intros Hskip. destruct skip; [apply triple_ret; auto|].
  eapply triple_bind; [apply handle_action_writes, process_block_writes|]. intros action.
  apply (triple_keeps (λ self, at_most l s p self ∧ (action = Continue → written l s p self))); [|done|].
  { apply ask_keeps. intros ctx state clock self [Hm Hw]. split; [by apply at_most_about|]. intros Ha. by apply written_about; [|apply Hw]. }
  intros [].
  - eapply triple_weaken; [apply (cancel_keeps (at_most l s p)); auto with frames|by intros ? [? _]| |done]. by intros st self [-> Hs].
  - apply triple_ret. intros self [Hm Hw]. destruct action; auto.
Qed.

Lemma handle_revert_state_goes_back l s p cursor :
  triple (at_log l s) (handle_revert_state inputs p cursor)
    (λ st self, match st with
                | AwaitingBlock => at_log (back_to p l) s self ∨ (∀ q, last l = Some q → ptr_number q ≤ ptr_number p) ∧ at_log l s self
                | Restarting _ | Stopped _ => at_log l s self ∨ at_log (back_to p l) s self
                | _ => False
                end) (λ _ _, True).
Proof.
  intros self [Hl Hs]. unfold handle_revert_state, handle_revert. unfold mbind at 1, st_bind at 1.
  pose proof (ws_ptr_log (ru_store self)) as Hptr. rewrite Hl in Hptr. rewrite Hptr. destruct (last l) as [q|]; [|done].
  destruct (Z.leb_spec (ptr_number q) (ptr_number p)) as [Hle|Hlt].
  { simpl. right. split; [by intros q' [= <-]|done]. }
  destruct (ws_revert p cursor (ru_store self)) as [st [[]|e|]] eqn:Hr; apply revert_log in Hr; [rewrite Hl in Hr..|done];
    [|by destruct Hr; [left|right]].
  assert (at_log (back_to p l) s (set_store st self)) as Hst by done.
  pose proof (revert_state_to_keeps (E := SubgraphRunnerError) _ (about_log_store _ (at_log_about (back_to p l) s)) (ptr_number p) (set_store st self) Hst) as Hk.
  unfold mbind, st_bind. destruct (revert_state_to _ _) as [self' [[]|e|]]; [|done..]. simpl. destruct (needs_restart _ _ _); auto.
Qed.

(** Events are told in order. *)
Definition told s (ev : StreamEvent) : StreamState := mkStreamState (stream_start s) (stream_filter s) (stream_told s ++ [ev]).

Lemma next_event_told l s :
  triple (at_log l s) (next_event ext) (λ ev, at_log l (match ev with Some ev => told s ev | None => s end)) (λ _ _, True).
Proof.
  intros self [Hl Hs]. unfold next_event, put_stream, ask. st_run. cbn [ru_stream]. rewrite Hs.
  split; [done|]. destruct (x_next_event _ _) as [ev|]; simpl; [done|]. rewrite app_nil_r. by destruct s.
Qed.

Lemma await_block_told l s :
  triple (at_log l s) (await_block ext)
    (λ st, match st with
           | AwaitingBlock => at_log l (told s EvError)
           | ProcessingBlock block cursor => at_log l (told s (EvProcessBlock block cursor))
           | Reverting p cursor => at_log l (told s (EvRevert p cursor))
           | Stopped _ => λ self, ws_log (ru_store self) = l
           | _ => λ _, False
           end) (λ _ _, True).
Proof.
  unfold await_block. eapply triple_bind; [apply next_event_told|]. intros ev.
  eapply triple_keeps; [framed|done|]. intros [].
  - eapply triple_weaken; [apply cancel_keeps, at_log_about|intros self Hs; exact Hs| |done]. by intros st self [-> [Hs _]].
  - apply triple_ret. intros self [Hl Hs]. by destruct ev as [[block cursor|q cursor|]|].
Qed.

Lemma restart_starts reason :
  triple (λ self, StronglySorted earlier (ws_log (ru_store self))) (restart ext inputs reason)
    (λ st self, st = AwaitingBlock ∧ StronglySorted earlier (ws_log (ru_store self)) ∧
       stream_start (ru_stream self) = last (ws_log (ru_store self)) ∧ stream_told (ru_stream self) = []) (λ _ _, True).
Proof.
  set (I := λ self, StronglySorted earlier (ws_log (ru_store self))).
  assert (about_log I) as HI by (intros ctx state st clock self Hst; unfold I; simpl; by rewrite Hst).
  assert (triple I restart_store (λ _, I) (λ _ _, True)) as Hstore.
  { unfold restart_store. apply triple_get. intros self Hs. intros self' [-> _]. unfold lift, mbind, st_bind.
    destruct (ws_restart (ru_store self)) as [[st|]|e|] eqn:Hr; simpl; [|done..].
    pose proof (restart_log _ _ Hs Hr) as Hst. unfold revert_to_last_good_block. unfold st_get, mbind, st_bind, put_store.
    pose proof (revert_state_to_keeps (E := SubgraphRunnerError) I (about_log_store _ HI) (last_good_block (set_store st self)) (set_store st self) Hst) as Hk.
    by destruct (revert_state_to _ _) as [self'' [[]|e|]]. }
  unfold restart. eapply triple_bind with (Q := λ _, I).
  { destruct reason; [by apply triple_ret|done|by apply triple_ret]. }
  intros []. unfold start_block_stream. intros self Hs. st_run. unfold ask_ok, ask, put_stream. st_run.
  destruct (build_filter inputs self) as [flt|e|]; simpl; [|done..].
  destruct (x_new_stream _ _ _) as [[]|e|]; simpl; [|done..]. rewrite <- ws_ptr_log. done.
Qed.

Lemma initialize_sorted :
  triple (λ self, StronglySorted earlier (ws_log (ru_store self))) (initialize ext inputs)
    (λ st self, StronglySorted earlier (ws_log (ru_store self)) ∧ match st with Restarting _ | Stopped _ => True | _ => False end) (λ _ _, True).
Proof.
  set (I := λ self, StronglySorted earlier (ws_log (ru_store self))).
  assert (about_log I) as HI by (intros ctx state st clock self Hst; unfold I; simpl; by rewrite Hst).
  unfold initialize. apply triple_get. intros self Hs. destruct (ws_block_ptr _) as [ptr|]; [|by apply triple_ret; intros self' [_ ?]].
  apply triple_weaken with I (λ st self, I self ∧ match st with Restarting _ | Stopped _ => True | _ => False end) (λ _ _, True); [|by intros ? [_ ?]|done..].
  eapply triple_keeps; [framed|done|]. intros parent. apply triple_bind with (λ _, I).
  { destruct parent as [parent|]; [|by apply triple_ret]. apply triple_bind with (λ _, I); [|intros ?; by apply triple_ret].
    intros self' Hs'. unfold on_store. destruct (ws_unfail_deterministic _ _ _) as [st r] eqn:Hu.
    apply unfail_deterministic_log in Hu. unfold I. destruct r; simpl; [|done..].
    destruct Hu as [->| ->]; [done|by apply sorted_back_to]. }
  intros []. apply triple_if; intros _; [|by apply triple_ret].
  eapply triple_keeps; [apply on_store_keeps; [done|apply flush_log]|done|]. intros ?. by apply triple_ret.
Qed.

(** ** Runs *)

Definition has_triggers (block : RunBlock) : bool := match rb_triggers block with [] => false | _ => true end.

(** The chain of a stream after an event *)
Definition chain_step (c : Chain) (ev : StreamEvent) : Chain :=
  match ev with
  | EvProcessBlock block _ => c ++ [(DataSource.block_ptr (rb_block block), has_triggers block)]
  | EvRevert p _ => go_back p c
  | EvError => c
  end.

(** The chain of a stream that was started when the heads of the store were
    [base] *)
Definition chain_of (base : list BlockPtr) (events : list StreamEvent) : Chain :=
  foldl chain_step ((λ p, (p, true)) <$> base) events.

(** The turns of a runner from its start, with the heads of the store when the
    block stream was started.  A revert that the stream tells is to a block of
    its chain, when the chain has one with that number. *)
Inductive runs : RunnerState → Runner → list BlockPtr → Prop :=
| runs_start self : StronglySorted earlier (ws_log (ru_store self)) → runs Initializing self []
| runs_turn state self base state' self' :
    runs state self base →
    runner_step from_entity_trigger poi_iter ext inputs state self = (self', Ok state') →
    (∀ p cursor e, state' = Reverting p cursor → e ∈ chain_of base (stream_told (ru_stream self)) → ptr_number e.1 = ptr_number p → e.1 = p) →
    runs state' self' (match state with Restarting _ => ws_log (ru_store self') | _ => base end).

(** What holds after each turn *)
Definition follows_stream (state : RunnerState) self (base : list BlockPtr) : Prop :=
  StronglySorted earlier (ws_log (ru_store self)) ∧
  let follows (events : list StreamEvent) :=
    last base = stream_start (ru_stream self) ∧ applied (chain_of base events) (ws_log (ru_store self)) in
  match state with
  | AwaitingBlock => follows (stream_told (ru_stream self))
  | ProcessingBlock block cursor => ∃ events, stream_told (ru_stream self) = events ++ [EvProcessBlock block cursor] ∧ follows events
  | Reverting p cursor => ∃ events, stream_told (ru_stream self) = events ++ [EvRevert p cursor] ∧ follows events ∧
      ∀ e, e ∈ chain_of base events → ptr_number e.1 = ptr_number p → e.1 = p
  | _ => True
  end.

Lemma chain_of_snoc base events ev : chain_of base (events ++ [ev]) = chain_step (chain_of base events) ev.
Proof. unfold chain_of. by rewrite foldl_app. Qed.

Lemma step_awaiting base self self' state' :
  follows_stream AwaitingBlock self base → await_block ext self = (self', Ok state') →
  (∀ p cursor e, state' = Reverting p cursor → e ∈ chain_of base (stream_told (ru_stream self)) → ptr_number e.1 = ptr_number p → e.1 = p) →
  follows_stream state' self' base.
Proof.
  intros (Hsort & Hb & Ha) Hstep Hp. pose proof (await_block_told (ws_log (ru_store self)) (ru_stream self) self (conj eq_refl eq_refl)) as Ht.
  rewrite Hstep in Ht. unfold follows_stream. destruct state' as [| |block cursor|p cursor|reason|reason]; try done.
  - destruct Ht as [-> ->]. cbn [told stream_told stream_start]. by rewrite chain_of_snoc.
  - destruct Ht as [-> ->]. eauto.
  - destruct Ht as [-> ->]. split; [done|]. eexists. split; [done|]. split; [done|]. eauto.
  - by rewrite Ht.
Qed.

Lemma step_processing base self self' state' block cursor :
  follows_stream (ProcessingBlock block cursor) self base →
  process_block_state from_entity_trigger poi_iter ext inputs block cursor self = (self', Ok state') → follows_stream state' self' base.
Proof.
  intros (Hsort & events & He & Hb & Ha) Hstep.
  pose proof (process_block_state_writes (ws_log (ru_store self)) (ru_stream self) block cursor self (conj eq_refl eq_refl)) as Ht.
  rewrite Hstep in Ht. unfold follows_stream.
  assert (∀ p, at_most (ws_log (ru_store self)) (ru_stream self) p self' → StronglySorted earlier (ws_log (ru_store self'))) as Hs'.
  { intros p [[-> _]|[[-> _] Hp]]; [done|by apply sorted_snoc]. }
  destruct state' as [| | | |reason|reason]; try done; [|by split; [apply (Hs' _ Ht)|]..].
  destruct Ht as [Hw|[Hnone [-> ->]]].
  - split; [apply (Hs' (DataSource.block_ptr (rb_block block))); by right|]. destruct Hw as [[-> ->] _]. rewrite He, chain_of_snoc.
    split; [done|]. apply applied_app; [done|apply applied_keep, applied_nil].
  - split; [done|]. rewrite He, chain_of_snoc. split; [done|]. rewrite <- (app_nil_r (ws_log _)). apply applied_app; [done|].
    unfold has_triggers. rewrite Hnone. apply applied_skip, applied_nil.
Qed.

Lemma step_reverting base self self' state' p cursor :
  follows_stream (Reverting p cursor) self base → handle_revert_state inputs p cursor self = (self', Ok state') → follows_stream state' self' base.
Proof.
  intros (Hsort & events & He & [Hb Ha] & Hp) Hstep.
  pose proof (handle_revert_state_goes_back (ws_log (ru_store self)) (ru_stream self) p cursor self (conj eq_refl eq_refl)) as Ht.
  rewrite Hstep in Ht. unfold follows_stream. destruct state' as [| | | |reason|reason]; try done;
    [|by split; [destruct Ht as [[-> _]|[-> _]]; auto using sorted_back_to|]..].
  destruct Ht as [[-> ->]|[Hle [-> ->]]]; (split; [auto using sorted_back_to|]); rewrite He, chain_of_snoc; (split; [done|]).
  - by apply applied_go_back.
  - by apply applied_ignore.
Qed.

Lemma runs_follow state self base : runs state self base → follows_stream state self base.
Proof.
  induction 1 as [self Hs|state self base state' self' _ IH Hstep Hp]; [done|]. destruct state as [| |block cursor|p cursor|reason|reason].
  - destruct IH as [Hs _]. pose proof (initialize_sorted self Hs) as Ht. cbn in Hstep. rewrite Hstep in Ht.
    destruct Ht as [Hs' Hst]. split; [done|]. by destruct state'.
  - by eapply step_awaiting.
  - by eapply step_processing.
  - by eapply step_reverting.
  - destruct IH as [Hs _]. pose proof (restart_starts reason self Hs) as Ht. cbn in Hstep. rewrite Hstep in Ht.
    destruct Ht as (-> & Hs' & Hst & Hto). split; [done|]. split; [done|]. rewrite Hto. apply applied_all.
  - destruct IH as [Hs _]. cbn in Hstep. injection Hstep as <- <-. by split.
Qed.

(** C5: In every run of a subgraph, whatever handlers do, whatever fails and
    however often the block stream is restarted, when the runner waits for the
    next block, the store has the heads it had when the block stream was
    started at its last head, followed by the blocks that the stream has told
    since then and not reverted: each of them once, in order, and only blocks
    without triggers can be missing. *)
Theorem runner_applies_blocks self base :
  runs AwaitingBlock self base →
  last base = stream_start (ru_stream self) ∧ applied (chain_of base (stream_told (ru_stream self))) (ws_log (ru_store self)).
Proof. intros Hr. by destruct (runs_follow _ _ _ Hr) as [_ Hf]. Qed.

End Store.
