(* ===== verification/RunnerDynamic.v ===== *)
(** * Dynamic data sources while a block is processed

    The loop in [process_dynamic_data_sources] ends: a round that adds no host
    runs no handler, and each other round takes one of the places for hosts
    that a subgraph has.  [dynamic_rounds] is enough fuel for it. *)

From Stdlib Require Import ZArith Lia ZifyBool.
From stdpp Require Import base gmap list sorting strings.
From S2P Require Import Prelude Values IdText Intern Entity Write Relational LfuCache EntityCache BlockState HostExports.
From S2P Require Import Deployment Writable DataSource Instance InstanceFacts Poi TriggerProcessor Runner Triples.

Local Open Scope Z_scope.

(** ** The number of hosts *)

Section Hosts.
Context `{Blockchain} `{DeclaredCalls} `{!RuntimeHostBuilder} `{InstanceEnv}.
Implicit Types (h : Host) (inst : SubgraphInstance).

Definition added (r : option Host) : nat := match r with Some _ => 1%nat | None => 0%nat end.

Lemma onchain_push_len {E} h s s' u : onchain_push (E := E) h s = (s', Ok u) → onchain_len s' = (onchain_len s + 1)%nat.
Proof.
  unfold onchain_push, onchain_len. destruct (is_chain_based _); [|done]. destruct (host_address h); intros [= <- _]; simpl; by rewrite length_app.
Qed.

Lemma offchain_len_entries s : offchain_len s = length (entries (by_block s)).
Proof. unfold offchain_len, entries. induction (by_block s) as [|e m IH]; [done|]. cbn. rewrite length_app. f_equal. exact IH. Qed.

Lemma offchain_push_len {E} h s s' u : offchain_push (E := E) h s = (s', Ok u) → offchain_len s' = (offchain_len s + 1)%nat.
Proof.
  unfold offchain_push. destruct (as_offchain _); [|done]. destruct (host_address h); intros [= <- _];
    rewrite !offchain_len_entries; cbn [by_block]; rewrite (push_entry_perm _ h); simpl; lia.
Qed.

Lemma push_unless_len {S'} (len : S' → nat) contains (push : Host → st S' string unit) h s s' r :
  (∀ s s' u, push h s = (s', Ok u) → len s' = (len s + 1)%nat) →
  push_unless contains push h s = (s', Ok r) → len s' = (len s + added r)%nat.
Proof.
  intros Hp. unfold push_unless. st_run. destruct (contains h s) as [[]|e|]; simpl; [..|done|done].
  - intros [= <- <-]. simpl. lia.
  - destruct (push h s) as [s1 [u|e|]] eqn:Hs; intros [= <- <-]. by apply (Hp _ _ _ Hs).
Qed.

Lemma new_host_len ds inst : hosts_len (new_host ds inst).1 = hosts_len inst ∧
  ∀ h, (new_host ds inst).2 = Ok (Some h) → host_ds h = ds.
Proof.
  unfold new_host. destruct (ds_runtime ds) as [bytes|]; [|done]. st_run. unfold mapping_request_sender.
  destruct (module_cache inst !! module_hash bytes) as [sender|]; [|destruct (spawn_mapping bytes) as [sender|e|]; [|done|done]].
  all: cbn; destruct (build_host ds sender) as [[]|e|]; cbn; split; try done; by intros h [= <-].
Qed.

(** Data sources for the chain or for files *)
Definition counts (ds : DataSource) : bool := match ds with DsOnchain _ | DsOffchain _ => true | _ => false end.

Lemma register_host_len h inst inst' r : counts (host_ds h) = true →
  register_host h inst = (inst', Ok r) → hosts_len inst' = (hosts_len inst + added r)%nat.
Proof.
  intros Hc. unfold register_host. destruct (host_ds h) as [ds|ds|ds|ds]; try done.
  - st_run. destruct (opt_le _ _); [|done]. unfold on_field. destruct (push_unless _ _ _ _) as [hs r'] eqn:Hp.
    intros [= <- ->]. apply (push_unless_len onchain_len) in Hp; [|apply onchain_push_len].
    unfold hosts_len, set_onchain in *. cbn [onchain_hosts offchain_hosts]. lia.
  - unfold on_field. destruct (push_unless _ _ _ _) as [hs r'] eqn:Hp.
    intros [= <- ->]. apply (push_unless_len offchain_len) in Hp; [|apply offchain_push_len].
    unfold hosts_len, set_offchain in *. cbn [onchain_hosts offchain_hosts]. lia.
Qed.

Lemma add_dynamic_len ds inst inst' r : counts ds = true → add_dynamic_data_source ds inst = (inst', Ok r) →
  hosts_len inst' = (hosts_len inst + added r)%nat ∧ (hosts_len inst < subgraph_max_data_sources)%nat.
Proof.
  intros Hc. unfold add_dynamic_data_source. destruct (Nat.leb_spec subgraph_max_data_sources (hosts_len inst)); [done|].
  pose proof (new_host_len ds inst) as [Hl Hds]. unfold mbind, st_bind. destruct (new_host ds inst) as [inst1 [[h|]|e|]]; try done; simpl in *.
  - intros Hr. apply register_host_len in Hr; [lia|]. by rewrite (Hds h eq_refl).
  - intros [= <- <-]. simpl. lia.
Qed.

End Hosts.

(** ** The loop *)

Section Loop.
Context `{BC : Blockchain} `{DC : DeclaredCalls} `{RB : !RuntimeHostBuilder} `{IE : InstanceEnv} `{CR : !ChainRunner} `{CI : Cids} `{UR : Urls}.
Context {Q : Type} `{PQ : !PriorityQueue EntityKey (option Entity) Q} `{AR : Arithmetic}.
Context `{FH : FastHasher} `{LH : LegacyHasher} `{PR : !StableHashPrims}.
Context `{MR : !MappingRuntime Q} {S : Type} `{WS : !WritableStore S}.
Context (from_entity_trigger : CallDecls → EntitySourceOperation → outcome string (list DeclaredCall)).
Context (ext : nat → Ext) (inputs : IndexingInputs).
Abbreviation Runner := (SubgraphRunner (Q := Q) (S := S)).
Abbreviation dynamic_round := (dynamic_round from_entity_trigger ext inputs).
Implicit Types (self : Runner) (b : BlockRun Q).

(** A hook gives no handlers to triggers that have none. *)
Definition unhandled (r : RunnableTriggers) : Prop := hosted_triggers r = [].
Context (Hhook : ∀ t rs rs', x_after_decode (ext t) rs = Ok rs' → Forall unhandled rs → Forall unhandled rs').

Definition hosts_of self : nat := hosts_len (instance (ru_ctx self)).

Lemma instantiate_len info self self' r : instantiate inputs info self = (self', Ok r) →
  hosts_of self' = hosts_of self ∧ ∀ ds, r = Some ds → counts ds = true.
Proof.
  unfold instantiate. destruct (template_manifest_idx _); [|done]. destruct (find _ _) as [t|]; [|done]. destruct (template info).
  - destruct (chain_from_template_info info t); intros [= <- <-]. split; [done|]. by intros ds [= <-].
  - unfold causality_region_next_value. destruct (region_next _) as [region|[]|]; [|done]. destruct t; try done.
    destruct (offchain_from_template_info _ _ _ _) as [m [ds|[]|]]; intros [= <- <-]; (split; [done|]); [by intros ds' [= <-]|done].
Qed.

Lemma add_len ds self self' r : counts ds = true → on_ctx (λ _, PeUnknown) (context_add_dynamic_data_source ds) self = (self', Ok r) →
  hosts_of self' = (hosts_of self + added r)%nat ∧ (hosts_of self < subgraph_max_data_sources)%nat.
Proof.
  intros Hc. unfold on_ctx, context_add_dynamic_data_source, on_instance, hosts_of.
  destruct (add_dynamic_data_source ds (instance (ru_ctx self))) as [inst [[h|]|e|]] eqn:Ha; intros [= <- <-];
    apply add_dynamic_len in Ha as [Hl Hlt]; try done.
  by destruct (as_offchain ds) as [o|]; cbn; [destruct (is_processed _ _)|]; cbn.
Qed.

Lemma create_dynamic_len created self self' dss hs : create_dynamic_data_sources inputs created self = (self', Ok (dss, hs)) →
  length dss = length hs ∧ hosts_of self' = (hosts_of self + length hs)%nat ∧ (hs ≠ [] → (hosts_of self' ≤ subgraph_max_data_sources)%nat).
Proof.
  revert self self' dss hs. induction created as [|info created IH]; intros self self' dss hs; cbn [create_dynamic_data_sources].
  { intros [= <- <- <-]. repeat split; [simpl; lia|done]. }
  unfold mbind, st_bind. destruct (instantiate inputs info self) as [self1 [[ds|]|e|]] eqn:Hi; try done; apply instantiate_len in Hi as [Hl Hc].
  - destruct (on_ctx _ _ self1) as [self2 [h|e|]] eqn:Ha; try done. apply add_len in Ha as [Hl2 Hlt]; [|by apply Hc].
    cbn. destruct (create_dynamic_data_sources inputs created self2) as [self3 [[dss' hs']|e|]] eqn:Hr; try done.
    apply IH in Hr as (Hd & Hn & Hm). destruct h as [h|]; cbn in *; intros [= <- <- <-]; cbn; [|repeat split; [lia..|done]].
    destruct hs' as [|h' hs']; cbn in *; [repeat split; lia|]. specialize (Hm ltac:(done)). repeat split; lia.
  - cbn. destruct (create_dynamic_data_sources inputs created self1) as [self3 [[dss' hs']|e|]] eqn:Hr; try done.
    apply IH in Hr as (Hd & Hn & Hm). cbn in *. intros [= <- <- <-]. repeat split; [done|lia|done].
Qed.

(** ** Rounds without hosts *)

Lemma decode_no_hosts block m triggers rs :
  decode_all from_entity_trigger block m (λ _, Ok []) triggers = Ok rs → Forall unhandled rs.
Proof.
  revert rs. induction triggers as [|t triggers IH]; intros rs; cbn; [intros [= <-]; constructor|].
  destruct (decode_all _ _ _ _ _) as [rest|e|]; cbn; [|done..]. intros [= <-]. constructor; [done|by apply IH].
Qed.

Lemma execute_unhandled rs block region runnables b : Forall unhandled runnables →
  execute_runnables rs block region runnables b = (b, Ok tt).
Proof.
  unfold execute_runnables. induction 1 as [|r runnables Hr _ IH]; [done|]. cbn [st_for]. unfold mbind, st_bind.
  replace (process_trigger rs block region (hosted_triggers r) b) with (b, Ok (E := MappingError) tt); [done|]. by rewrite Hr.
Qed.

Lemma run_triggers_len block triggers hosts_filter region b self self' b' :
  run_triggers from_entity_trigger ext block triggers hosts_filter region b self = (self', Ok b') → hosts_of self' = hosts_of self.
Proof.
  unfold run_triggers, decode_triggers, ask. st_run.
  destruct (match_and_decode_many _ _ _ _ _ _) as [rs|e|]; [|done..]. unfold in_block. destruct (execute_runnables _ _ _ _ _) as [b1 [u|e|]]; by intros [= <- _].
Qed.

Lemma run_no_hosts block triggers region b self self' b' :
  run_triggers from_entity_trigger ext block triggers (λ _, Ok []) region b self = (self', Ok b') → br_state b' = br_state b.
Proof using Hhook.
  unfold run_triggers, decode_triggers, ask, match_and_decode_many. st_run.
  destruct (decode_all _ _ _ _ _) as [rs|e|] eqn:Hd; [|done..]. apply decode_no_hosts in Hd. cbn.
  destruct (x_after_decode (ext (ru_clock self)) rs) as [rs'|e|] eqn:Hx; [|done..]. apply Hhook in Hx; [|done].
  unfold in_block. rewrite execute_unhandled by done. by intros [= _ <-].
Qed.

Lemma dynamic_round_len block region b self self' b' : dynamic_round block region b self = (self', Ok b') →
  created_data_sources (br_state b') = [] ∨ (hosts_of self < hosts_of self' ≤ subgraph_max_data_sources)%nat.
Proof using Hhook.
  unfold Runner.dynamic_round, refetch_block, ask_ok, ask. unfold mbind at 1, st_bind at 1, lift at 1.
  unfold drain_created_data_sources. destruct (bs_in_handler (br_state b)); [done|]. unfold mbind at 1, st_bind at 1.
  destruct (create_dynamic_data_sources inputs _ self) as [self1 [[dss hs]|e|]] eqn:Hc; [|done..]. apply create_dynamic_len in Hc as (Hd & Hl & Hm).
  st_run. destruct (map_err _ (x_refetch _ _)) as [block'|e|]; [|done..]. cbn beta iota.
  destruct (map_err _ (x_triggers_in_block _ _ _)) as [triggers|e|]; [|done..]. cbn beta iota.
  destruct (persist_dynamic_data_sources _ _ _) as [state|e|] eqn:Hp; [|done..]. unfold st_map_err.
  destruct (run_triggers _ _ _ _ _ _ _ _) as [self2 [b2|e|]] eqn:Hr; intros [= <- <-]. pose proof (run_triggers_len _ _ _ _ _ _ _ _ Hr) as Hl2.
  unfold hosts_of in Hl2 at 2. cbn [ru_ctx] in Hl2. destruct hs as [|h hs].
  - left. destruct dss; [|done]. injection Hp as <-. apply run_no_hosts in Hr. by rewrite Hr.
  - right. specialize (Hm ltac:(done)). fold (hosts_of self1) in Hl2. cbn in Hl. lia.
Qed.

(** What the loop does, without a bound *)
Inductive dynamic_eval (block : ChainBlock) (region : string) : BlockRun Q → Runner → Runner * outcome ProcessingError (BlockRun Q) → Prop :=
| dynamic_done b self : has_created_data_sources (br_state b) = Ok false → dynamic_eval block region b self (self, Ok b)
| dynamic_panic b self : has_created_data_sources (br_state b) = Panic → dynamic_eval block region b self (self, Panic)
| dynamic_failed b self self' e : has_created_data_sources (br_state b) = Ok true →
    dynamic_round block region b self = (self', Err e) → dynamic_eval block region b self (self', Err e)
| dynamic_round_panic b self self' : has_created_data_sources (br_state b) = Ok true →
    dynamic_round block region b self = (self', Panic) → dynamic_eval block region b self (self', Panic)
| dynamic_next b b' self self' r : has_created_data_sources (br_state b) = Ok true →
    dynamic_round block region b self = (self', Ok b') → dynamic_eval block region b' self' r → dynamic_eval block region b self r.

Lemma dynamic_fuel fuel block region b self :
  (created_data_sources (br_state b) ≠ [] → (subgraph_max_data_sources < fuel + hosts_of self)%nat ∧ fuel ≠ 0%nat) →
  dynamic_eval block region b self (process_dynamic_data_sources from_entity_trigger ext inputs fuel block region b self).
Proof using Hhook.
  revert b self. induction fuel as [|fuel IH]; intros b self Hf; cbn [process_dynamic_data_sources]; unfold mbind at 1, st_bind at 1, lift at 1.
  all: destruct (has_created_data_sources (br_state b)) as [[]|e|] eqn:Hc; cbn [map_err]; try by constructor.
  all: unfold has_created_data_sources in Hc; destruct (bs_in_handler (br_state b)) eqn:Hin; try done.
  all: destruct Hf as [Hf Hz]; [by destruct (created_data_sources (br_state b))|]; try done.
  unfold mbind at 1, st_bind at 1. assert (has_created_data_sources (br_state b) = Ok true) as Hc' by (unfold has_created_data_sources; by rewrite Hin).
  destruct (Runner.dynamic_round _ _ _ block region b self) as [self' [b'|e|]] eqn:Hr; [|by eapply dynamic_failed|by eapply dynamic_round_panic].
  eapply dynamic_next; [done..|]. apply IH. intros Hne. destruct (dynamic_round_len _ _ _ _ _ _ Hr) as [?|Hl]; [done|]. lia.
Qed.

(** C35: The loop over data sources that handlers create ends, whatever handlers
    do: every round but the last adds a host, and a subgraph has at most so
    many hosts.  The bound in the definition is not reached. *)
Theorem dynamic_loop_ends block region b self :
  dynamic_eval block region b self (process_dynamic_data_sources from_entity_trigger ext inputs dynamic_rounds block region b self).
Proof using Hhook. apply dynamic_fuel. unfold dynamic_rounds. lia. Qed.

End Loop.
