(* ===== verification/RunnerHosts.v ===== *)
(** * Hosts and stored data sources

    The data sources that handlers create live twice: as hosts of the
    instance, which get triggers, and as rows of the store, from which the
    hosts are made again when a node starts.  The two agree whenever the runner
    goes on: blocks that fail, reverts and restarts of the store take away the
    same data sources from both. *)

From Stdlib Require Import ZArith Lia ZifyBool.
From stdpp Require Import base gmap list sorting strings.
From S2P Require Import Prelude Values IdText Intern Entity Write Relational LfuCache EntityCache BlockState HostExports.
From S2P Require Import Deployment Writable DataSource Instance InstanceFacts InstanceRuns Poi TriggerProcessor.
From S2P Require Import Runner Triples RunnerFacts RunnerDynamic.

Local Open Scope Z_scope.

(** ** What the runner relies on *)

(** A stored data source, without the block in which a file was done *)
Definition core (ds : StoredDynamicDataSource) : StoredDynamicDataSource := set_done_at None ds.

(** The data sources of a store whose head is [head] *)
Definition dds_upto (head : option BlockPtr) (dss : list StoredDynamicDataSource) : list StoredDynamicDataSource :=
  match head with Some p => dds_revert (ptr_number p + 1) dss | None => [] end.

(** Data sources are stored with the block that creates them. *)
Class DataSourceStoreSpec (S : Type) `{WritableStoreSpec S} := {
  ws_dds : S → list StoredDynamicDataSource;
  transact_dds : ∀ bc s s' r, ws_transact bc s = (s', r) →
    match r with
    | Ok _ => core <$> ws_dds s' = core <$> ws_dds s ++ bc_data_sources bc
    | Err _ => ws_dds s' = ws_dds s
    | Panic => True
    end;
  revert_dds : ∀ p cursor s s', ws_revert p cursor s = (s', Ok tt) → ws_dds s' = dds_revert (ptr_number p + 1) (ws_dds s);
  unfail_non_deterministic_dds : ∀ p s, ws_dds (ws_unfail_non_deterministic p s).1 = ws_dds s;
  fail_dds : ∀ e s, ws_dds (ws_fail e s).1 = ws_dds s;
  flush_dds : ∀ s, ws_dds (ws_flush s).1 = ws_dds s;
  pause_dds : ∀ s, ws_dds (ws_pause s).1 = ws_dds s;
  indexes_dds : ∀ s, ws_dds (ws_create_postponed_indexes s).1 = ws_dds s;
  restart_dds : ∀ s s', ws_restart s = Ok (Some s') → ws_dds s' = dds_upto (ws_block_ptr s') (ws_dds s);
}.

(** A data source of a chain has the block in which it was created, and its
    handlers get the block of the trigger. *)
Class ChainRunnerSpec `{ChainRunner} := {
  template_creation : ∀ info t ds, chain_from_template_info info t = Ok ds → chain_creation_block ds = Some (template_creation_block info);
  stored_creation : ∀ ds, creation_block (chain_as_stored ds) = chain_creation_block ds;
  decode_ptr : ∀ ds t b twh, chain_match_and_decode ds t b = Ok (Some twh) → twh_block_ptr twh = block_ptr b;
}.

(** A handler asks for data sources in the block of its trigger. *)
Definition asked_for {Q} (b : BlockState Q) : list InstanceDSTemplateInfo := created_data_sources b ++ handler_created_data_sources b.

Class MappingRuntimeSpec (Q : Type) `{MappingRuntime Q} := {
  handler_persists : ∀ rs h t s s' r, process_mapping_trigger rs h t s = (s', r) →
    persisted_data_sources (hs_state s') = persisted_data_sources (hs_state s);
  handler_asks : ∀ rs h t s s' r info, process_mapping_trigger rs h t s = (s', r) → info ∈ asked_for (hs_state s') →
    info ∈ asked_for (hs_state s) ∨ template_creation_block info = ptr_number (twh_block_ptr t);
}.

(** ** The hosts of an instance *)

Section Instance.
Context `{BS : BlockchainSpec} `{DC : DeclaredCalls} `{RB : !RuntimeHostBuilder} `{RS : !RuntimeHostBuilderSpec} `{IE : InstanceEnv} `{AR : Arithmetic}.
Implicit Types (h : Host) (hs : list Host) (inst : SubgraphInstance).

(** The hosts that get triggers of the chain or files are [hs]. *)
Definition holds hs inst : Prop :=
  ∃ r, represents inst r ∧ reg_onchain r ++ reg_offchain r ≡ₚ hs ∧ 0 ≤ reg_seq r ∧
    Forall (λ h, ∀ c, cell_of h = Some c → (c < next_cell (atomics inst))%nat) hs.

(** A new data source that can be added *)
Definition addable hs (ds : DataSource) inst : Prop :=
  match ds with
  | DsOnchain _ => True
  | DsOffchain ds => 0 < causality_region_seq inst ∧ (off_done_at ds < next_cell (atomics inst))%nat ∧
      Forall (λ h, cell_of h ≠ Some (off_done_at ds)) hs
  | _ => False
  end.

Lemma addable_fits hs ds inst r : represents inst r → reg_onchain r ++ reg_offchain r ≡ₚ hs → addable hs ds inst → op_fits (OpAdd ds) r.
Proof.
  intros Hrep Hp. destruct ds as [|ds| |]; cbn; try done. rewrite (rep_seq _ _ Hrep). intros (Hseq & _ & Hc).
  split; [unfold ONCHAIN; lia|]. intros h ds' Hh Hds Heq. rewrite <- Hp, Forall_app in Hc. destruct Hc as [_ Hc].
  rewrite Forall_forall in Hc. destruct (Hc h Hh). unfold cell_of. rewrite Hds. cbn. by rewrite Heq.
Qed.

Lemma holds_add hs ds inst inst' r : holds hs inst → addable hs ds inst → add_dynamic_data_source ds inst = (inst', r) →
  match r with Ok (Some h) => holds (hs ++ [h]) inst' ∧ host_ds h = ds | _ => holds hs inst' end.
Proof.
  intros (reg & Hrep & Hp & Hseq & Hc) Ha Hadd. pose proof (addable_fits _ _ _ _ Hrep Hp Ha) as Hfit.
  destruct (add_refines ds inst reg Hrep Hfit) as (reg' & Hstep & Hrep'). rewrite Hadd in *. cbn [fst snd] in *.
  assert (∀ l, reg_done reg' = reg_done reg → Forall (λ h, ∀ c, cell_of h = Some c → (c < next_cell (atomics inst))%nat) l →
    Forall (λ h, ∀ c, cell_of h = Some c → (c < next_cell (atomics inst'))%nat) l) as Hcells.
  { intros l Hd. by rewrite (rep_done _ _ Hrep), (rep_done _ _ Hrep'), Hd. }
  inversion Hstep as [| | |ds' h reg0 reg1 a Hroom Hrt Hds Hid Hra| | |]; subst; try (exists reg'; by split_and!; auto).
  unfold registry_add in Hra. destruct (host_ds h) as [ds|ds|ds|ds] eqn:Hds; cbn in Ha; try done.
  - destruct (forallb _ _); [|injection Hra as <- <-; exists reg; by split_and!; auto].
    unfold add_to in Hra. destruct (existsb _ _); injection Hra as <- <-.
    + eexists. by split_and!; [exact Hrep'|cbn; auto..].
    + split; [|done]. eexists. split_and!; [exact Hrep'|cbn; rewrite <- Hp; by solve_Permutation|done|].
      apply Forall_app. split; [auto|]. constructor; [|done]. intros c. unfold cell_of. by rewrite Hds.
  - unfold add_to in Hra. destruct (existsb _ _); injection Hra as <- <-.
    + eexists. by split_and!; [exact Hrep'|cbn; auto..].
    + split; [|done]. eexists. split_and!; [exact Hrep'|cbn; by rewrite app_assoc, Hp|done|].
      apply Hcells; [done|]. apply Forall_app. split; [done|]. constructor; [|done]. intros c. unfold cell_of. rewrite Hds. cbn.
      intros [= <-]. tauto.
Qed.

Lemma unmark_next_cell b hs acc : next_cell (foldl (unmark_step b) acc hs).2 = next_cell acc.2.
Proof.
  revert acc. induction hs as [|h hs IH]; intros acc; [done|]. cbn [foldl]. rewrite IH. unfold unmark_step, host_set_done_at.
  destruct (host_done_at h acc.2); [|done]. by destruct (host_ds h); try destruct (b <=? _).
Qed.

Lemma revert_next_cell b inst inst' r : revert_data_sources b inst = (inst', Ok r) → next_cell (atomics inst') = next_cell (atomics inst).
Proof.
  unfold revert_data_sources, on_field. st_run. destruct (revert_onchain_hosts b _) as [on' [[]|e|]]; [|done..].
  destruct (remove_ge_block b _) as [off' [[]|e|]]; [|done..]. unfold unmark_hosts. case_bool_decide; [by intros [= <- _]|].
  destruct (unmark_done _ _ _) as [sources m] eqn:Hm. intros [= <- _]. cbn. unfold unmark_done in Hm.
  pose proof (unmark_next_cell b (offchain_all off') ([], atomics inst)) as Hn. cbn in Hm, Hn. by rewrite Hm in Hn.
Qed.

Lemma holds_revert hs b inst : holds hs inst →
  ∃ inst' sources, revert_data_sources b inst = (inst', Ok sources) ∧ holds (filter (λ h, created_before b h = true) hs) inst'.
Proof.
  intros (reg & Hrep & Hp & Hseq & Hc). destruct (revert_refines b inst reg Hrep) as (reg' & Hstep & Hrep').
  destruct (revert_data_sources b inst) as [inst' r] eqn:Hr. cbn [fst snd] in *. inversion Hstep; subst.
  eexists _, _. split; [done|]. eexists. split_and!; [exact Hrep'|cbn; by rewrite <- Hp, filter_app|done|].
  apply Forall_filter_l. by rewrite (revert_next_cell _ _ _ _ Hr).
Qed.

Lemma holds_perm hs hs' inst : hs ≡ₚ hs' → holds hs inst → holds hs' inst.
Proof. intros Hp (r & Hrep & Hhs & Hseq & Hc). exists r. by rewrite <- Hp. Qed.

(** Marking files as done changes no host. *)
Lemma holds_atomics hs m inst : next_cell m = next_cell (atomics inst) → holds hs inst → holds hs (set_atomics m inst).
Proof.
  intros Hm (r & Hrep & Hp & Hseq & Hc). exists (mkRegistry (reg_onchain r) (reg_subgraph r) (reg_offchain r) (reg_seq r) m).
  split_and!; [by destruct Hrep|done..|]. cbn. by rewrite Hm.
Qed.

(** Running out of causality regions is a panic. *)
Definition regions_checked : Prop := overflow_checks = true.

Lemma holds_next_region {E} hs inst next :
  regions_checked → holds hs inst → region_next (E := E) (causality_region_seq inst) = Ok next →
  holds hs (set_region next inst) ∧ 0 < next.
Proof.
  intros Hchecks (r & Hrep & Hp & Hseq & Hc). rewrite (rep_seq _ _ Hrep). unfold region_next. rewrite Hchecks.
  destruct (_ <? _); [|done]. intros [= <-]. split; [|lia].
  exists (mkRegistry (reg_onchain r) (reg_subgraph r) (reg_offchain r) (reg_seq r + 1) (reg_done r)).
  split_and!; [|done|cbn; lia|done]. destruct Hrep. constructor; try done. cbn. unfold ONCHAIN. lia.
Qed.

Lemma holds_alloc hs v inst : holds hs inst → holds hs (set_atomics (alloc v (atomics inst)).2 inst).
Proof.
  intros (r & Hrep & Hp & Hseq & Hc).
  exists (mkRegistry (reg_onchain r) (reg_subgraph r) (reg_offchain r) (reg_seq r) (alloc v (atomics inst)).2).
  split_and!; [by destruct Hrep|done..|]. eapply Forall_impl; [exact Hc|]. cbn. intros h Hh c Hcell. specialize (Hh c Hcell). lia.
Qed.

End Instance.

(** ** Handlers *)

Section Handlers.
Context `{BC : Blockchain} `{DC : DeclaredCalls} {Q : Type} `{MR : !MappingRuntime Q} `{FH : FastHasher} `{LH : LegacyHasher} `{PR : !StableHashPrims}.
Context (J : BlockState Q → Prop) (Hpush : ∀ ds s, J s → J (push_processed ds s)).

(** What holds while handlers run; they make no new atomics. *)
Definition running (c : nat) (b : BlockRun Q) : Prop := J (br_state b) ∧ next_cell (br_atomics b) = c.

Definition handler_keeps (t : HostedTrigger) : Prop :=
  ∀ rs s s' r, process_mapping_trigger rs (ht_host t) (mapping_trigger t) s = (s', r) → J (hs_state s) → J (hs_state s').

Lemma on_poi_keeps c m : keeps (running c) (on_poi m).
Proof. intros b Hb. unfold on_poi. by destruct (on_shared m (br_poi b)) as [poi [a|e|]]. Qed.

Lemma run_hosted_keeps c rs block region t : handler_keeps t → keeps (running c) (run_hosted rs block region t).
Proof using Hpush.
  intros Ht. apply keeps_bind.
  - intros b [Hj Hc]. unfold run_handler. destruct (process_mapping_trigger _ _ _ _) as [s' r] eqn:Hp. specialize (Ht _ _ _ _ Hp Hj). cbn in Ht.
    destruct r as [[]|e|]; [|by split|done]. destruct (st_for _ _ _) as [poi [a|e|]]; by split.
  - intros []. intros b [Hj Hc]. unfold mark_processed. destruct (as_offchain _) as [ds|]; [|by split].
    unfold mark_processed_at. case_bool_decide; [done|]. cbn. split; [by apply Hpush|done].
Qed.

Lemma process_trigger_keeps c rs block region ts : Forall handler_keeps ts → keeps (running c) (process_trigger rs block region ts).
Proof using Hpush.
  intros Hts b Hb. unfold process_trigger. destruct ts as [|t ts]; [done|].
  generalize (length (bs_deterministic_errors (br_state b))). intros n. revert b Hb.
  apply keeps_bind; [apply on_poi_keeps|]. intros _. apply keeps_bind.
  { apply keeps_for_in. intros x Hx. rewrite Forall_forall in Hts. by apply run_hosted_keeps, Hts. }
  intros _. apply keeps_bind; [apply keeps_get|]. intros b. apply keeps_if; [apply keeps_if; [apply on_poi_keeps|apply keeps_lift]|apply keeps_ret].
Qed.

Lemma execute_keeps c rs block region runnables : Forall (λ r, Forall handler_keeps (hosted_triggers r)) runnables →
  keeps (running c) (execute_runnables rs block region runnables).
Proof using Hpush. intros Hr. apply keeps_for_in. intros x Hx. rewrite Forall_forall in Hr. by apply process_trigger_keeps, Hr. Qed.

End Handlers.

Section Decoded.
Context `{BC : Blockchain} `{CR : !ChainRunner} `{CS : !ChainRunnerSpec} `{DC : DeclaredCalls}.
Context (from_entity_trigger : CallDecls → EntitySourceOperation → outcome string (list DeclaredCall)).

(** The handlers for a trigger get the block, or they are for a file. *)
Definition for_block (n : BlockNumber) (t : HostedTrigger) : Prop := ptr_number (twh_block_ptr (mapping_trigger t)) = n.
Definition for_file (t : HostedTrigger) : Prop := is_Some (as_offchain (host_ds (ht_host t))).

Lemma decoded_for ds t block m twh : match_and_decode from_entity_trigger ds t block m = Ok (Some twh) →
  match t with TrOffchain _ => is_Some (as_offchain ds) | _ => twh_block_ptr twh = block_ptr block end.
Proof using CS.
  destruct ds as [ds|ds|ds|ds], t as [t|t|t]; cbn; try done.
  - destruct (has_expired _ _); [done|]. destruct (chain_match_and_decode ds t block) as [[twh'|]|e|] eqn:Hd; [|done..].
    intros [= <-]. cbn. by apply decode_ptr in Hd.
  - unfold subgraph_match_and_decode. case_bool_decide; [done|]. destruct (reverse _) as [|handler [|]]; [done| |done].
    destruct (from_entity_trigger _ _); [|done..]. by intros [= <-].
Qed.

Lemma decode_inner_for block t m hs ts : match_and_decode_inner from_entity_trigger block t m hs = Ok ts →
  Forall (λ ht, match t with TrOffchain _ => for_file ht | _ => for_block (block_number block) ht end) ts.
Proof using CS.
  revert ts. induction hs as [|h hs IH]; intros ts; cbn; [intros [= <-]; constructor|].
  destruct (match_and_decode _ _ _ _ _) as [d|e|] eqn:Hd; [|done..]. destruct (match_and_decode_inner _ _ _ _ hs) as [rest|e|]; [|done..].
  intros [= <-]. destruct d as [twh|]; [|by apply IH]. constructor; [|by apply IH]. apply decoded_for in Hd.
  destruct t; [unfold for_block; cbn; by rewrite Hd|done|unfold for_block; cbn; by rewrite Hd].
Qed.

Lemma decode_all_for block m hosts_filter ts rs : decode_all from_entity_trigger block m hosts_filter (trigger_data_of <$> ts) = Ok rs →
  Forall (λ r, Forall (for_block (block_number block)) (hosted_triggers r)) rs.
Proof using CS.
  revert rs. induction ts as [|t ts IH]; intros rs; cbn; [intros [= <-]; constructor|].
  destruct (hosts_filter _) as [hs|e|]; [|done..]. cbn. unfold decoder_match_and_decode.
  destruct (match_and_decode_inner _ _ _ _ hs) as [hosted|e|] eqn:Hd; [|done..]. cbn. destruct (decode_all _ _ _ _ _) as [rest|e|]; [|done..].
  intros [= <-]. constructor; [|by apply IH]. apply decode_inner_for in Hd. by destruct t.
Qed.

End Decoded.

(** ** The runner *)

Section Sync.
Context `{BS : BlockchainSpec} `{DC : DeclaredCalls} `{RB : !RuntimeHostBuilder} `{RS : !RuntimeHostBuilderSpec} `{IE : InstanceEnv}.
Context `{CR : !ChainRunner} `{CS : !ChainRunnerSpec} `{CI : Cids} `{UR : Urls}.
Context {Q : Type} `{PQ : !PriorityQueue EntityKey (option Entity) Q} `{AR : Arithmetic}.
Context `{CC : !CacheConfig EntityKey (option Entity)} `{IS : InputSchema} `{HO : HashOrder} `{CE : CacheEnv} `{BE : BlockEnv} `{ST : SchemaTypes}.
Context `{FH : FastHasher} `{LH : LegacyHasher} `{DG : Digests} `{PR : !StableHashPrims} `{HX : Hex}.
Context `{MR : !MappingRuntime Q} `{MS : !MappingRuntimeSpec Q} {S : Type} `{WS : !WritableStore S} `{SP : !WritableStoreSpec S} `{DS : !DataSourceStoreSpec S}.
Context `{RE : RunnerEnv} `{SA : SchemaAggregations}.
Context (from_entity_trigger : CallDecls → EntitySourceOperation → outcome string (list DeclaredCall)).
Context (poi_iter : gmap Id BlockEventStream → list (Id * BlockEventStream)).
Context (ext : nat → Ext) (inputs : IndexingInputs).
Abbreviation Runner := (SubgraphRunner (Q := Q) (S := S)).
Implicit Types (self : Runner) (b : BlockRun Q) (s : BlockState Q) (hs new : list Host) (n : BlockNumber) (P : list StoredDynamicDataSource).

(** Overflows of the sequence of causality regions are checked, the hook of a
    chain gives no new handlers, a block that is fetched again is the same
    block, and handlers of files create no data sources. *)
Context (Hchecks : regions_checked).
Definition hosted_in (t : HostedTrigger) (rs : list RunnableTriggers) : Prop := ∃ r, r ∈ rs ∧ t ∈ hosted_triggers r.
Context (Hhook : ∀ at_ rs rs' t, x_after_decode (ext at_) rs = Ok rs' → hosted_in t rs' → hosted_in t rs).
Context (Hrefetch : ∀ at_ block block', x_refetch (ext at_) block = Ok block' → block_ptr block' = block_ptr block).
Context (Hfiles : ∀ rs h t st st' r, is_Some (as_offchain (host_ds h)) → process_mapping_trigger rs h t st = (st', r) →
  created_data_sources (hs_state st') = created_data_sources (hs_state st)).

Definition hosting hs self : Prop := holds hs (instance (ru_ctx self)).

(** What has been persisted, and data sources that are asked for in block [n] *)
Definition ready n P s : Prop := persisted_data_sources s = P ∧ Forall (λ info, template_creation_block info = n) (asked_for s).

(** Handlers that have asked for nothing *)
Definition asks_nothing s : Prop := persisted_data_sources s = [] ∧ created_data_sources s = [].

Lemma handler_ready n P t : for_block n t → handler_keeps (ready n P) t.
Proof using MS.
  intros Ht rs st st' r Hp [Hper Hask]. split; [by rewrite (handler_persists _ _ _ _ _ _ Hp)|].
  rewrite Forall_forall in Hask |- *. intros info [Hin| ->]%(handler_asks _ _ _ _ _ _ _ Hp); [by apply Hask|done].
Qed.

Lemma handler_asks_nothing t : for_file t → handler_keeps asks_nothing t.
Proof using MS Hfiles.
  intros Ht rs st st' r Hp [Hper Hcr]. split; [by rewrite (handler_persists _ _ _ _ _ _ Hp)|]. by rewrite (Hfiles _ _ _ _ _ _ Ht Hp).
Qed.

Lemma in_block_hosts {E} (J : BlockState Q → Prop) hs (m : st (BlockRun Q) E unit) b :
  J (br_state b) → (∀ c, keeps (running J c) m) →
  triple (hosting hs) (in_block m b) (λ b' self, hosting hs self ∧ J (br_state b')) (λ _, hosting hs).
Proof.
  intros Hb Hm self Hs. unfold in_block. set (b0 := mkBlockRun _ _ _ _).
  specialize (Hm (next_cell (atomics (instance (ru_ctx self)))) b0 (conj Hb eq_refl)).
  destruct (m b0) as [b' [u|e|]]; [|..|done]; destruct Hm as [Hj Hc]; [split; [|done]|]; by apply holds_atomics.
Qed.

Lemma run_triggers_hosts hs n P block ts hosts_filter region b : block_number block = n → ready n P (br_state b) →
  triple (hosting hs) (run_triggers from_entity_trigger ext block ts hosts_filter region b)
    (λ b' self, hosting hs self ∧ ready n P (br_state b')) (λ _, hosting hs).
Proof using CS MS Hhook.
  intros Hn Hb self Hs. unfold run_triggers, decode_triggers, ask, match_and_decode_many. st_run.
  destruct (decode_all _ _ _ _ _) as [rs|e|] eqn:Hd; [|done..]. apply decode_all_for in Hd. cbn.
  destruct (x_after_decode (ext (ru_clock self)) rs) as [rs'|e|] eqn:Hx; [|done..].
  match goal with |- context [in_block ?m b ?self'] => apply (in_block_hosts (ready n P) hs m b Hb) with (s := self') end; [|done].
  intros c. apply execute_keeps; [by intros ds s|]. rewrite !Forall_forall. intros r Hr. rewrite Forall_forall. intros t Ht.
  apply handler_ready. destruct (Hhook _ _ _ t Hx (ex_intro _ r (conj Hr Ht))) as (r' & Hr' & Ht').
  rewrite Forall_forall in Hd. specialize (Hd r' Hr'). rewrite Forall_forall in Hd. rewrite <- Hn. by apply Hd.
Qed.

(** ** Creating hosts *)

Definition created_at n (h : Host) : Prop := creation_block_number h = Some n.

Lemma instantiate_hosts hs info :
  triple (hosting hs) (instantiate inputs info)
    (λ o self, hosting hs self ∧ ∀ ds, o = Some ds → addable hs ds (instance (ru_ctx self)) ∧ ds_creation_block ds = Some (template_creation_block info))
    (λ _, hosting hs).
Proof using BS RS IE CS Hchecks.
  intros self Hs. unfold instantiate. destruct (template_manifest_idx _); [|done]. destruct (find _ _) as [t|]; [|done].
  destruct (template info) eqn:Ht.
  { destruct (chain_from_template_info info t) as [ds|e|] eqn:Hc; [|done..]. split; [done|]. intros ds' [= <-]. split; [done|]. by apply template_creation in Hc. }
  unfold causality_region_next_value. destruct (region_next _) as [region|[]|] eqn:Hnext; [|done].
  destruct (holds_next_region hs _ _ Hchecks Hs Hnext) as [Hs' Hpos]. destruct t; try done.
  unfold offchain_from_template_info. rewrite Ht. destruct (params info) as [|source ps]; [done|].
  assert (∀ src, let i := set_region region (instance (ru_ctx self)) in let '(cell, m) := alloc NOT_DONE_VALUE (atomics i) in
    hosting hs (put_atomics m (set_ctx (mkIndexingContext i (monitored (ru_ctx self))) self)) ∧
    addable hs (DsOffchain (mkOffchain (ot_kind t) (ot_name t) (ot_manifest_idx t) src (ot_mapping t) (template_context info)
       (Some (template_creation_block info)) cell region)) (set_atomics m i)) as Hnew.
  { intros src. cbn. split; [by apply (holds_alloc _ NOT_DONE_VALUE) in Hs'|]. split_and!; [done|lia|].
    destruct Hs as (r & _ & _ & _ & Hc). eapply Forall_impl; [exact Hc|]. cbn. intros h Hh [=Hcell]. specialize (Hh _ Hcell). lia. }
  destruct (ot_kind t) eqn:Hk; [destruct (content_path_new source) as [path|]|]; [specialize (Hnew (SourceIpfs path))|done|specialize (Hnew (SourceArweave source))];
    destruct Hnew as [Hh Ha]; (split; [exact Hh|]); intros ds [= <-]; (split; [exact Ha|done]).
Qed.

Lemma add_hosts hs ds :
  triple (λ self, hosting hs self ∧ addable hs ds (instance (ru_ctx self))) (on_ctx (λ _, PeUnknown) (context_add_dynamic_data_source ds))
    (λ o self, match o with Some h => hosting (hs ++ [h]) self ∧ host_ds h = ds | None => hosting hs self end) (λ _, hosting hs).
Proof.
  intros self [Hs Ha]. unfold on_ctx, context_add_dynamic_data_source, on_instance.
  destruct (add_dynamic_data_source ds (instance (ru_ctx self))) as [inst r] eqn:Hadd. pose proof (holds_add _ _ _ _ _ Hs Ha Hadd) as Hr.
  destruct r as [[h|]|e|]; [|done..]. unfold hosting. cbn. by destruct (as_offchain ds) as [o|]; cbn; [destruct (is_processed _ _)|].
Qed.

(** Adding hosts on the way through a block *)
Definition grown hs n self : Prop := ∃ new, hosting (hs ++ new) self ∧ Forall (created_at n) new.

Lemma create_hosts hs n created : Forall (λ info, template_creation_block info = n) created →
  triple (hosting hs) (create_dynamic_data_sources inputs created)
    (λ r self, ∃ new, hosting (hs ++ new) self ∧ Forall (created_at n) new ∧ host_ds <$> new = r.1) (λ _, grown hs n).
Proof using BS RS IE CS Hchecks.
  intros Hc. revert hs. induction Hc as [|info created Hinfo Hc IH]; intros hs; cbn [create_dynamic_data_sources].
  { apply triple_ret. intros self Hs. exists []. by rewrite app_nil_r. }
  assert (∀ self, hosting hs self → grown hs n self) as Hnone by (intros self Hs; exists []; by rewrite app_nil_r).
  eapply triple_bind; [eapply triple_weaken; [apply instantiate_hosts|done| |auto]; intros ? ? Hq; exact Hq|]. intros o.
  apply (triple_bind _ _ _ (λ o self, match o with Some (ds, h) => hosting (hs ++ [h]) self ∧ host_ds h = ds ∧ created_at n h | None => hosting hs self end)).
  { destruct o as [ds|]; [|apply triple_ret; by intros self [Hs _]].
    apply (triple_bind _ _ _ (λ o self, match o with Some h => hosting (hs ++ [h]) self ∧ host_ds h = ds ∧ created_at n h | None => hosting hs self end)).
    - intros self [Hs Hds]. destruct (Hds ds eq_refl) as [Ha Hcr]. pose proof (add_hosts hs ds self (conj Hs Ha)) as Hadd.
      destruct (on_ctx _ _ self) as [self' [[h|]|e|]]; [|done|by apply Hnone|done]. destruct Hadd as [Hh Hd].
      split; [done|]. split; [done|]. unfold created_at, creation_block_number. by rewrite Hd, Hcr, Hinfo.
    - intros [h|]; by apply triple_ret. }
  intros [[ds h]|].
  - intros self (Hs & Hd & Hcr). specialize (IH (hs ++ [h]) self Hs). unfold mbind, st_bind.
    destruct (create_dynamic_data_sources inputs created self) as [self' [r|e|]]; [..|done].
    + destruct IH as (new & Hn & Hf & Hr). exists (h :: new). cbn. rewrite <- app_assoc in Hn. split; [done|]. split; [by constructor|]. by rewrite Hd, Hr.
    + destruct IH as (new & Hn & Hf). exists (h :: new). rewrite <- app_assoc in Hn. split; [done|]. by constructor.
  - eapply triple_bind; [apply IH|]. intros r. by apply triple_ret.
Qed.

(** What a host and a data source look like in the store *)
Definition ds_core (ds : DataSource) : option StoredDynamicDataSource :=
  match ds with DsOnchain ds => Some (core (chain_as_stored ds)) | DsOffchain ds => Some (core (offchain_as_stored ds atomics_empty)) | _ => None end.
Definition host_core (h : Host) : option StoredDynamicDataSource := ds_core (host_ds h).

Lemma persist_cores m dss s s' : persist_dynamic_data_sources m dss s = Ok s' →
  core <$> persisted_data_sources s' = (core <$> persisted_data_sources s) ++ omap ds_core dss ∧ asked_for s' = asked_for s.
Proof.
  revert s. induction dss as [|ds dss IH]; intros s; cbn [persist_dynamic_data_sources].
  { intros [= <-]. cbn. by rewrite app_nil_r. }
  destruct ds as [ds|ds|ds|ds]; cbn; [intros Hp; apply IH in Hp as [-> ->]..|done|done].
  all: cbn; rewrite fmap_app, <- app_assoc; done.
Qed.

(** The hosts that were added are the data sources that will be stored. *)
Definition grown_with hs n P self : Prop :=
  ∃ new, hosting (hs ++ new) self ∧ Forall (created_at n) new ∧ omap host_core new = core <$> P.

Lemma grown_with_grown hs n P self : grown_with hs n P self → grown hs n self.
Proof. intros (new & Hs & Hn & _). by exists new. Qed.

Lemma omap_host_core new : omap host_core new = omap ds_core (host_ds <$> new).
Proof. induction new as [|h new IH]; [done|]. cbn. unfold host_core at 1. by destruct (ds_core (host_ds h)); rewrite IH. Qed.

(** ** Methods that change no host and no data source of the store *)

Definition about_hosts (I : Runner → Prop) : Prop :=
  ∀ state st stream clock self, ws_log st = ws_log (ru_store self) → ws_dds st = ws_dds (ru_store self) → I self →
    I (mkRunner (ru_ctx self) state st stream clock).

Section Frame.
Context (I : Runner → Prop) (HI : about_hosts I).

Lemma ask_same {E A} (f : Ext → A) : keeps (E := E) I (ask ext f).
Proof using HI. intros self Hs. by apply HI. Qed.

Lemma ask_ok_same {E A} (e : E) (f : Ext → outcome string A) : keeps I (ask_ok ext e f).
Proof using HI. apply keeps_bind; [apply ask_same|]. intros r. apply keeps_lift. Qed.

Lemma modify_state_same {E} f : keeps (E := E) I (modify_state f).
Proof using HI. intros self Hs. by apply HI. Qed.

Lemma put_cache_same c : keeps I (put_cache c).
Proof using HI. intros self Hs. unfold put_cache. destruct (lfu_is_empty _); by try apply (HI _ _ _ _ self). Qed.

Lemma put_stream_same {E} stream : keeps (E := E) I (put_stream stream).
Proof using HI. intros self Hs. by apply HI. Qed.

Lemma on_store_same {E A} (f : StoreError → E) (m : S → S * outcome StoreError A) :
  (∀ st, ws_log (m st).1 = ws_log st) → (∀ st, ws_dds (m st).1 = ws_dds st) → keeps I (on_store f m).
Proof using HI.
  intros Hl Hd self Hs. specialize (Hl (ru_store self)). specialize (Hd (ru_store self)). unfold on_store.
  destruct (m (ru_store self)) as [st [a|e|]]; simpl in *; by try apply (HI _ _ _ _ self).
Qed.

Hint Resolve ask_same ask_ok_same modify_state_same put_cache_same put_stream_same : frames.

Lemma caught_up_same p : keeps I (is_caught_up ext p).
Proof using HI. unfold is_caught_up. framed. Qed.

Lemma flush_anyway_same {E} : keeps (E := E) I flush_anyway.
Proof using HI. intros self Hs. apply (HI _ _ _ _ self); [apply flush_log|apply flush_dds|done]. Qed.

Lemma maybe_cancel_same : keeps I maybe_cancel.
Proof using HI. unfold maybe_cancel. framed. apply on_store_same; [apply pause_log|apply pause_dds]. Qed.

Lemma postponed_same p : keeps I (create_postponed_indexes p).
Proof using HI. unfold create_postponed_indexes. framed. apply on_store_same; [apply indexes_log|apply indexes_dds]. Qed.

Lemma fail_subgraph_same e p d : keeps I (fail_subgraph e p d).
Proof using HI. apply on_store_same; intros st; [apply fail_log|apply fail_dds]. Qed.

Lemma after_success_same p action : keeps I (after_success inputs p action).
Proof using HI. unfold after_success. framed. apply on_store_same; intros st; [apply unfail_non_deterministic_log|apply unfail_non_deterministic_dds]. Qed.

Lemma may_skip_same block : keeps I (may_skip ext inputs block).
Proof using HI. unfold may_skip. framed. Qed.

Lemma cancel_same : keeps I (cancel ext).
Proof using HI. unfold cancel. framed. Qed.

Lemma start_block_stream_same : keeps I (start_block_stream ext inputs).
Proof using HI. unfold start_block_stream. framed. Qed.

Lemma await_block_same : keeps I (await_block ext).
Proof using HI. unfold await_block, next_event. framed. apply cancel_same. Qed.

End Frame.

Lemma hosting_about hs : about_hosts (hosting hs).
Proof. by intros state st stream clock self. Qed.
Lemma grown_about hs n : about_hosts (grown hs n).
Proof. by intros state st stream clock self. Qed.
Lemma grown_with_about hs n P : about_hosts (grown_with hs n P).
Proof. by intros state st stream clock self. Qed.

#[local] Hint Resolve hosting_about grown_about grown_with_about : frames.
#[local] Hint Resolve ask_same ask_ok_same modify_state_same put_cache_same put_stream_same caught_up_same flush_anyway_same maybe_cancel_same
  postponed_same fail_subgraph_same after_success_same may_skip_same cancel_same start_block_stream_same await_block_same : frames.

(** ** The stages of a block *)

Lemma round_hosts hs n block region b : block_number block = n → Forall (λ info, template_creation_block info = n) (asked_for (br_state b)) →
  triple (grown_with hs n (persisted_data_sources (br_state b))) (dynamic_round from_entity_trigger ext inputs block region b)
    (λ b' self, Forall (λ info, template_creation_block info = n) (asked_for (br_state b')) ∧ grown_with hs n (persisted_data_sources (br_state b')) self)
    (λ _, grown hs n).
Proof using BS RS IE CS Hchecks MS Hhook Hrefetch.
  intros Hn Hask self (new0 & Hs & Hf & Hp). unfold asked_for in Hask. apply Forall_app in Hask as [Hcr Hin].
  unfold dynamic_round, refetch_block, ask_ok, ask. unfold mbind at 1, st_bind at 1, lift at 1.
  unfold drain_created_data_sources. destruct (bs_in_handler (br_state b)); [done|]. unfold mbind at 1, st_bind at 1.
  pose proof (create_hosts _ n _ Hcr self Hs) as Hcreate.
  destruct (create_dynamic_data_sources inputs _ self) as [self1 [[dss rhs]|e|]]; [..|done].
  2: { destruct Hcreate as (new & Hs1 & Hf1). exists (new0 ++ new). rewrite app_assoc. split; [done|]. by apply Forall_app. }
  destruct Hcreate as (new & Hs1 & Hf1 & Hds). cbn in Hds.
  assert (∀ clock, hosting (hs ++ new0 ++ new) (mkRunner (ru_ctx self1) (ru_state self1) (ru_store self1) (ru_stream self1) clock)) as Hany
    by (intros clock; by rewrite app_assoc).
  assert (Forall (created_at n) (new0 ++ new)) as Hf2 by (by apply Forall_app).
  st_run. destruct (x_refetch _ _) as [block'|e|] eqn:Hx; cbn [map_err]; [|by eexists|done]. cbn beta iota.
  apply Hrefetch in Hx. destruct (x_triggers_in_block _ _ _) as [triggers|e|]; cbn [map_err]; [|by eexists|done]. cbn beta iota.
  destruct (persist_dynamic_data_sources _ _ _) as [state|e|] eqn:Hper; [|by eexists|done]. apply persist_cores in Hper as [Hc Ha].
  unfold st_map_err.
  match goal with |- context [run_triggers _ _ _ ?ts ?f _ ?b' ?self'] =>
    pose proof (run_triggers_hosts (hs ++ new0 ++ new) n (persisted_data_sources state) block' ts f region b') as Hrun;
    specialize (Hrun ltac:(unfold block_number in *; by rewrite Hx)); specialize (Hrun ltac:(split; [done|]; cbn; by rewrite Ha) self' (Hany _)) end.
  destruct (run_triggers _ _ _ _ _ _ _ _) as [self2 [b2|e|]]; [|by eexists|done].
  destruct Hrun as [Hs2 [Hp2 Ha2]]. split; [done|]. exists (new0 ++ new). split; [done|]. split; [done|].
  rewrite Hp2, Hc. cbn. rewrite omap_app, Hp, omap_host_core, Hds. done.
Qed.

Lemma dynamic_hosts hs n fuel block region b : block_number block = n → Forall (λ info, template_creation_block info = n) (asked_for (br_state b)) →
  triple (grown_with hs n (persisted_data_sources (br_state b))) (process_dynamic_data_sources from_entity_trigger ext inputs fuel block region b)
    (λ b', grown_with hs n (persisted_data_sources (br_state b'))) (λ _, grown hs n).
Proof using BS RS IE CS Hchecks MS Hhook Hrefetch.
  intros Hn. revert b. induction fuel as [|fuel IH]; intros b Hb; cbn [process_dynamic_data_sources].
  all: apply (triple_keeps (grown_with hs n _)); [apply keeps_lift|intros ? ?; apply grown_with_grown|]; intros [|]; [|by apply triple_ret].
  { by apply triple_lift. }
  eapply triple_bind; [by apply round_hosts|]. intros b'. apply triple_pure. apply IH.
Qed.

Lemma offchain_trigger_hosts hs block t acc :
  triple (hosting hs) (offchain_trigger from_entity_trigger inputs block t acc)
    (λ r self, or_persisted r = or_persisted acc ∧ hosting hs self) (λ _, hosting hs).
Proof using BS RS IE CS Hchecks MS Hfiles.
  unfold offchain_trigger. apply (triple_keeps (hosting hs)); [apply keeps_get|done|]. intros self.
  apply (triple_keeps (hosting hs)); [apply keeps_lift|done|]. intros hosts.
  apply (triple_bind _ _ _ (λ runnable self, Forall for_file (hosted_triggers runnable) ∧ hosting hs self)).
  { apply triple_lift; [|done]. intros runnable self' Hd Hs. split; [|done]. unfold decoder_match_and_decode in Hd.
    destruct (match_and_decode_inner _ _ _ _ hosts) as [ts|e|] eqn:Hi; [|done..]. injection Hd as <-. by apply decode_inner_for in Hi. }
  intros runnable. apply triple_pure. intros Hr.
  apply (triple_bind _ _ _ (λ b self, asks_nothing (br_state b) ∧ hosting hs self)).
  { apply triple_map_err. eapply triple_weaken; [apply (in_block_hosts asks_nothing hs); [done|]|done|by intros b self' [? ?]|done].
    intros c. apply process_trigger_keeps; [by intros ds s|]. eapply Forall_impl; [exact Hr|]. intros ht. apply handler_asks_nothing. }
  intros b. apply triple_pure. intros [Hper Hcr]. apply (triple_keeps (hosting hs)); [apply keeps_lift|done|]. intros [|]; [by apply triple_fail|].
  unfold drain_created_data_sources. destruct (bs_in_handler (br_state b)); [done|]. rewrite Hcr.
  apply (triple_bind _ _ _ (λ p self, (persisted_data_sources p.1 = [] ∧ p.2 = []) ∧ hosting hs self)).
  { apply triple_lift; [|done]. by intros p self' [= <-]. }
  intros [state created]. apply triple_pure. intros [Hp Hcd]. cbn in Hp, Hcd. subst created.
  apply (triple_bind _ _ _ (λ p self, p.1 = [] ∧ hosting hs self)); [by apply triple_ret|].
  intros [dss hs']. apply triple_pure. cbn. intros ->. apply (triple_keeps (hosting hs)); [apply keeps_get|done|]. intros self'.
  apply (triple_bind _ _ _ (λ s self, persisted_data_sources s = [] ∧ hosting hs self)).
  { apply triple_lift; [|done]. by intros s self'' [= <-]. }
  intros s. apply triple_pure. intros Hs. apply triple_if; intros _; [by apply triple_fail|].
  apply (triple_keeps (hosting hs)); [apply keeps_lift|done|]. intros m. apply triple_ret. intros self'' Hself. cbn. by rewrite Hs, app_nil_r.
Qed.

Lemma offchain_hosts_same hs block ts acc :
  triple (hosting hs) (handle_offchain_triggers from_entity_trigger inputs block ts acc)
    (λ r self, or_persisted r = or_persisted acc ∧ hosting hs self) (λ _, hosting hs).
Proof using BS RS IE CS Hchecks MS Hfiles.
  revert acc. induction ts as [|t ts IH]; intros acc; cbn [handle_offchain_triggers]; [by apply triple_ret|].
  eapply triple_bind; [apply offchain_trigger_hosts|]. intros r. apply triple_pure. intros <-. apply IH.
Qed.

Lemma process_offchain_hosts hs n block b :
  triple (grown_with hs n (persisted_data_sources (br_state b))) (process_offchain_triggers from_entity_trigger ext inputs block b)
    (λ r, grown_with hs n (persisted_data_sources (br_state r.2))) (λ _, grown hs n).
Proof using BS RS IE CS Hchecks MS DS Hfiles.
  unfold process_offchain_triggers. apply triple_exists. intros new self (Hs & Hn & Hp). revert self Hs.
  assert (∀ self, hosting (hs ++ new) self → grown hs n self) as Hg by (intros self Hs; by exists new).
  apply (triple_keeps (hosting (hs ++ new))); [auto with frames|auto|]. intros events.
  eapply triple_bind; [eapply triple_weaken; [apply offchain_hosts_same|intros self Hs; exact Hs|intros r self Hr; exact Hr|auto]|].
  intros r. apply triple_pure. cbn. intros Hr. apply triple_ret. intros self Hs. exists new. cbn. by rewrite Hr, app_nil_r.
Qed.

(** ** The store and the hosts *)

Definition dynamic (h : Host) : Prop := is_Some (creation_block_number h).

#[local] Instance dynamic_dec h : Decision (dynamic h).
Proof. unfold dynamic. apply _. Defined.

(** A dynamic host was created after block 0 and not after the head of the
    store. *)
Definition in_chain (l : list BlockPtr) (h : Host) : Prop :=
  ∀ c, creation_block_number h = Some c → 0 < c ∧ ∃ p, last l = Some p ∧ c ≤ ptr_number p.

(** The hosts [hs] are the ones that the store knows, for the heads [l] and
    the data sources [d]. *)
Definition known hs (l : list BlockPtr) (d : list StoredDynamicDataSource) : Prop :=
  omap host_core (filter dynamic hs) ≡ₚ core <$> d ∧ Forall (in_chain l) hs.

Definition in_sync self : Prop := ∃ hs, hosting hs self ∧ known hs (ws_log (ru_store self)) (ws_dds (ru_store self)).

(** The store is as it was *)
Definition with_store (l : list BlockPtr) (d : list StoredDynamicDataSource) self : Prop :=
  ws_log (ru_store self) = l ∧ core <$> ws_dds (ru_store self) = core <$> d.

Lemma with_store_about l d : about_store (with_store l d).
Proof. by intros ctx state clock self. Qed.

Lemma created_in_chain n l p new : Forall (created_at n) new → 0 < n → ptr_number p = n → Forall (in_chain (l ++ [p])) new.
Proof.
  intros Hn Hpos Hp. eapply Forall_impl; [exact Hn|]. intros h Hh c Hc. unfold created_at in Hh. rewrite Hh in Hc. injection Hc as <-.
  split; [done|]. exists p. rewrite last_snoc. split; [done|lia].
Qed.

Lemma in_chain_later l p h : (∀ q, last l = Some q → earlier q p) → in_chain l h → in_chain (l ++ [p]) h.
Proof.
  intros Hl Hh c Hc. destruct (Hh c Hc) as (Hpos & q & Hq & Hle). split; [done|]. exists p. rewrite last_snoc. split; [done|].
  specialize (Hl q Hq). unfold earlier in Hl. lia.
Qed.

Lemma created_dynamic n new : Forall (created_at n) new → filter dynamic new = new.
Proof. intros Hn. apply filter_all. intros h Hh. rewrite Forall_forall in Hn. unfold dynamic. rewrite (Hn h Hh). eauto. Qed.

Lemma known_grown hs l d n p new P d' : known hs l d → Forall (created_at n) new → omap host_core new = core <$> P →
  0 < n → ptr_number p = n → (∀ q, last l = Some q → earlier q p) → core <$> d' = core <$> d ++ P → known (hs ++ new) (l ++ [p]) d'.
Proof.
  intros [Hk Hin] Hn HP Hpos Hp Hl Hd. split.
  - rewrite filter_app, omap_app, (created_dynamic n new Hn), HP, Hk, Hd, fmap_app. done.
  - apply Forall_app. split; [|by eapply created_in_chain]. eapply Forall_impl; [exact Hin|]. intros h. by apply in_chain_later.
Qed.

(** ** Writing a block *)

Definition unwritten hs n (l : list BlockPtr) (d : list StoredDynamicDataSource) self : Prop := grown hs n self ∧ with_store l d self.

Lemma unwritten_about hs n l d : about_hosts (unwritten hs n l d).
Proof. intros state st stream clock self Hl Hd [Hg [Hsl Hsd]]. split; [done|]. split; cbn; by rewrite ?Hl, ?Hd. Qed.

Lemma in_sync_about : about_hosts in_sync.
Proof. intros state st stream clock self Hl Hd (hs & Hs & Hk). exists hs. cbn. by rewrite Hl, Hd. Qed.

Lemma pending_about hs n l d P : about_hosts (λ self, grown_with hs n P self ∧ with_store l d self).
Proof. intros state st stream clock self Hl Hd [Hg [Hsl Hsd]]. split; [done|]. split; cbn; by rewrite ?Hl, ?Hd. Qed.

#[local] Hint Resolve unwritten_about in_sync_about pending_about : frames.

Section Block.
Context (hs : list Host) (n : BlockNumber) (l : list BlockPtr) (d : list StoredDynamicDataSource) (p : BlockPtr).
Context (Hk : known hs l d) (Hpos : 0 < n) (Hp : ptr_number p = n).

(** A block that could not be written, or whose writing had an error later *)
Definition failed_block self : Prop := unwritten hs n l d self ∨ in_sync self.

Lemma transact_hosts P bc : bc_ptr bc = p → bc_data_sources bc = P →
  triple (λ self, grown_with hs n P self ∧ with_store l d self) (on_store classify (ws_transact bc)) (λ _, in_sync) (λ _, unwritten hs n l d).
Proof using Hk Hpos Hp.
  intros Hbp Hbd self [Hg [Hsl Hsd]]. unfold on_store. destruct (ws_transact bc (ru_store self)) as [st r] eqn:Ht.
  pose proof (transact_log _ _ _ _ Ht) as Hlog. pose proof (transact_dds _ _ _ _ Ht) as Hdds.
  destruct r as [[]|e|]; cbn; [|split; [by eapply grown_with_grown|split; cbn; by rewrite ?Hlog, ?Hdds]|done].
  destruct Hlog as [Hlog Hear]. rewrite Hsl, Hbp in Hlog. rewrite Hsl, Hbp in Hear. destruct Hg as (new & Hs & Hn & HP).
  exists (hs ++ new). split; [done|]. cbn. rewrite Hlog. eapply known_grown; [done..|]. by rewrite Hdds, Hbd, !fmap_app, Hsd.
Qed.

Lemma failed_pending P self : grown_with hs n P self ∧ with_store l d self → failed_block self.
Proof. intros [Hg Hs]. left. split; [by eapply grown_with_grown|done]. Qed.

Lemma transact_block_hosts cursor time b offchain processed :
  triple (λ self, grown_with hs n (persisted_data_sources (br_state b)) self ∧ with_store l d self)
    (transact_block_state poi_iter ext inputs p cursor time b offchain processed) (λ _, in_sync) (λ _, failed_block).
Proof using Hk Hpos Hp.
  unfold transact_block_state. eapply triple_keeps; [by framed|intros ? ?; apply failed_pending|]. intros [].
  { apply triple_fail. intros ?. apply failed_pending. }
  repeat (eapply triple_keeps; [by framed|intros ? ?; apply failed_pending|intros ?]).
  apply (triple_bind _ _ _ (λ _, in_sync)).
  { eapply triple_weaken; [by apply transact_hosts|done|done|by left]. }
  intros []. eapply triple_keeps_last; [framed|by right|done].
Qed.

Lemma failed_framed self : grown hs n self ∧ with_store l d self → failed_block self.
Proof. by left. Qed.

Lemma process_block_hosts block cursor : block_ptr (rb_block block) = p →
  triple (λ self, hosting hs self ∧ with_store l d self) (process_block from_entity_trigger poi_iter ext inputs block cursor)
    (λ _, in_sync) (λ _, failed_block).
Proof using BS RS IE CS Hchecks MS DS Hhook Hrefetch Hfiles Hk Hpos Hp.
  intros Hptr. assert (block_number (rb_block block) = n) as Hnum by (unfold block_number; by rewrite Hptr).
  assert (∀ self, hosting hs self ∧ with_store l d self → failed_block self) as Hfail.
  { intros self [Hs Hst]. left. split; [|done]. exists []. by rewrite app_nil_r. }
  assert (∀ I, about_hosts I → about_hosts (λ self, I self ∧ with_store l d self)) as Habout.
  { intros I HI state st stream clock self Hl Hd [Hs [Hsl Hsd]]. split; [by apply HI|]. split; cbn; by rewrite ?Hl, ?Hd. }
  unfold process_block. rewrite Hptr.
  apply (triple_keeps (λ self, hosting hs self ∧ with_store l d self)); [apply keeps_get|auto|]. intros self0.
  apply (triple_keeps (λ self, hosting hs self ∧ with_store l d self)); [auto with frames|auto|]. intros [].
  apply (triple_bind _ _ _ (λ b self, ready n [] (br_state b) ∧ hosting hs self ∧ with_store l d self)).
  { apply triple_map_err. eapply triple_weaken.
    - apply triple_frame; [|apply run_triggers_keeps, (with_store_about l d)]. by apply (run_triggers_hosts hs n []).
    - done.
    - by intros b self [[? ?] ?].
    - by intros e self [? ?]; apply Hfail. }
  intros b. apply triple_pure. intros [Hper Hask].
  repeat (apply (triple_keeps (λ self, hosting hs self ∧ with_store l d self)); [by framed|by auto|intros ?]).
  apply (triple_bind _ _ _ (λ b self, grown_with hs n (persisted_data_sources (br_state b)) self ∧ with_store l d self)).
  { eapply triple_weaken.
    - apply triple_frame; [|apply dynamic_keeps, (with_store_about l d)]. by apply (dynamic_hosts hs n).
    - intros self [Hs Hst]. split; [|done]. exists []. rewrite app_nil_r, Hper. by split_and!.
    - done.
    - intros e self. apply failed_framed. }
  intros b'. apply (triple_bind _ _ _ (λ r self, grown_with hs n (persisted_data_sources (br_state r.2)) self ∧ with_store l d self)).
  { eapply triple_weaken.
    - apply triple_frame; [apply (process_offchain_hosts hs n)|].
      unfold process_offchain_triggers. apply keeps_bind; [apply ask_ok_keeps, (with_store_about l d)|]. intros events.
      apply keeps_bind; [apply offchain_keeps, (with_store_about l d)|]. intros r. apply keeps_ret.
    - done.
    - done.
    - intros e self. apply failed_framed. }
  intros [[mods processed] b'']. eapply triple_bind; [apply transact_block_hosts|]. intros []. by apply triple_ret.
Qed.

End Block.
(** ** Going back *)

Lemma context_revert_hosts hs k ctx : holds hs (instance ctx) →
  ∃ ctx', context_revert_data_sources k ctx = (ctx', Ok tt) ∧ holds (filter (λ h, created_before k h = true) hs) (instance ctx').
Proof.
  intros Hs. destruct (holds_revert hs k _ Hs) as (inst & sources & Hr & Hh). unfold context_revert_data_sources, on_instance. rewrite Hr.
  eexists. split; [done|]. clear Hr. set (m := monitored ctx). generalize m. clear m. induction sources as [|source sources IH]; intros m; [done|]. apply IH.
Qed.

Lemma revert_state_hosts {E} hs k self : hosting hs self →
  ∃ self', revert_state_to (E := E) k self = (self', Ok tt) ∧ hosting (filter (λ h, created_before (k + 1) h = true) hs) self' ∧ ru_store self' = ru_store self.
Proof.
  intros Hs. unfold revert_state_to. destruct (context_revert_hosts hs (k + 1) (ru_ctx self) Hs) as (ctx' & Hr & Hh). cbn [ru_ctx set_state].
  rewrite Hr. eexists. by split_and!.
Qed.

Lemma host_core_creation h x : host_core h = Some x → creation_block x = creation_block_number h.
Proof using CS. unfold host_core, ds_core, creation_block_number. destruct (host_ds h); intros [= <-]; [cbn; apply stored_creation|done]. Qed.

Lemma cores_revert k hs : dds_revert k (omap host_core (filter dynamic hs)) = omap host_core (filter dynamic (filter (λ h, created_before k h = true) hs)).
Proof using CS.
  induction hs as [|h hs IH]; [done|]. rewrite !filter_cons. destruct (decide (dynamic h)) as [Hdyn|Hn].
  2: { rewrite IH. destruct (decide (created_before k h = true)); [|done]. by rewrite filter_cons_False. }
  destruct (host_core h) as [x|] eqn:Hx.
  - cbn [omap list_omap]. rewrite Hx. unfold dds_revert in *. rewrite filter_cons, IH.
    assert (match creation_block x with Some b => b <? k | None => true end = created_before k h) as ->.
    { rewrite (host_core_creation _ _ Hx). unfold created_before. destruct Hdyn as [c ->]. cbn. lia. }
    destruct (decide (created_before k h = true)); [|done]. rewrite filter_cons_True by done. cbn. by rewrite Hx.
  - cbn [omap list_omap]. rewrite Hx, IH. destruct (decide (created_before k h = true)); [|done]. rewrite filter_cons_True by done. cbn. by rewrite Hx.
Qed.

Lemma core_revert k d : core <$> dds_revert k d = dds_revert k (core <$> d).
Proof.
  unfold dds_revert. induction d as [|x d IH]; [done|]. cbn [fmap list_fmap]. rewrite !filter_cons. cbn [core set_done_at creation_block].
  destruct (decide _); [cbn; by f_equal|done].
Qed.

Lemma dds_revert_perm k d d' : d ≡ₚ d' → dds_revert k d ≡ₚ dds_revert k d'.
Proof. intros Hd. unfold dds_revert. by rewrite Hd. Qed.

(** Hosts and rows that are left at a head *)
Lemma known_upto hs l l' d : known hs l d →
  known (filter (λ h, created_before (match last l' with Some q => ptr_number q | None => 0 end + 1) h = true) hs) l' (dds_upto (last l') d).
Proof using CS.
  intros [Hk Hin]. rewrite Forall_forall in Hin. split.
  - rewrite <- cores_revert. destruct (last l') as [q|]; cbn [dds_upto].
    + rewrite core_revert. by apply dds_revert_perm.
    + rewrite cores_revert. replace (filter dynamic _) with (@nil Host); [done|]. symmetry. apply elem_of_nil_inv. intros h [[c Hc] Hh]%list_elem_of_filter.
      apply list_elem_of_filter in Hh as [Hb Hh]. destruct (Hin h Hh c Hc) as [Hpos _]. unfold created_before in Hb. rewrite Hc in Hb. cbn in Hb. lia.
  - apply Forall_forall. intros h [Hb Hh]%list_elem_of_filter c Hc. destruct (Hin h Hh c Hc) as [Hpos _]. split; [done|].
    unfold created_before in Hb. rewrite Hc in Hb. cbn in Hb. destruct (last l') as [q|]; [|lia]. exists q. split; [done|lia].
Qed.

Lemma kept_by_head hs l : Forall (in_chain l) hs →
  filter (λ h, created_before (match last l with Some q => ptr_number q | None => 0 end + 1) h = true) hs = hs.
Proof.
  intros Hin. apply filter_all. intros h Hh. rewrite Forall_forall in Hin. unfold created_before.
  destruct (creation_block_number h) as [c|] eqn:Hc; [|done]. destruct (Hin h Hh c Hc) as (_ & q & -> & Hle). cbn. lia.
Qed.

Lemma last_good_log self : last_good_block self = match last (ws_log (ru_store self)) with Some q => ptr_number q | None => 0 end.
Proof. unfold last_good_block. by rewrite ws_ptr_log. Qed.

Lemma revert_good hs l d self : known hs l d → hosting hs self → ws_log (ru_store self) = l → core <$> ws_dds (ru_store self) = core <$> d →
  ∃ self', revert_to_last_good_block self = (self', Ok tt) ∧ in_sync self'.
Proof.
  intros Hk Hs Hl Hd. unfold revert_to_last_good_block. unfold mbind, st_bind, st_get.
  destruct (revert_state_hosts (E := SubgraphRunnerError) hs (last_good_block self) self Hs) as (self' & Hr & Hh & Hst).
  exists self'. split; [done|]. destruct Hk as [Hp Hin]. rewrite last_good_log, Hl, kept_by_head in Hh by done.
  exists hs. rewrite Hst, Hl. split; [done|]. split; [by rewrite Hd|done].
Qed.

(** ** Turns of the runner *)

Section Failed.
Context (hs : list Host) (n : BlockNumber) (l : list BlockPtr) (d : list StoredDynamicDataSource).
Context (Hk : known hs l d) (Hpos : 0 < n) (Hhead : ∀ q, last l = Some q → ptr_number q < n).

(** The hosts of a block that was not written are later than the head. *)
Lemma new_hosts_dropped new : Forall (created_at n) new →
  filter (λ h, created_before (match last l with Some q => ptr_number q | None => 0 end + 1) h = true) (hs ++ new) = hs.
Proof using Hk Hpos Hhead.
  intros Hn. destruct Hk as [_ Hin]. rewrite filter_app, kept_by_head by done. rewrite <- (app_nil_r hs) at 2. f_equal.
  apply elem_of_nil_inv. intros h [Hb Hh]%list_elem_of_filter. rewrite Forall_forall in Hn. unfold created_before in Hb.
  rewrite (Hn h Hh) in Hb. cbn in Hb. destruct (last l) as [q|]; [specialize (Hhead q eq_refl)|]; lia.
Qed.

Lemma failed_revert self : failed_block hs n l d self → ∃ self', revert_to_last_good_block self = (self', Ok tt) ∧ in_sync self'.
Proof using BS RS IE Hk Hpos Hhead.
  intros [[(new & Hs & Hn) [Hl Hd]]|(hs' & Hs & Hk')]; [|by eapply revert_good].
  unfold revert_to_last_good_block. unfold mbind, st_bind, st_get.
  destruct (revert_state_hosts (E := SubgraphRunnerError) (hs ++ new) (last_good_block self) self Hs) as (self' & Hr & Hh & Hst).
  exists self'. split; [done|]. rewrite last_good_log, Hl, new_hosts_dropped in Hh by done. exists hs. rewrite Hst, Hl.
  split; [done|]. destruct Hk as [Hp Hin]. split; [by rewrite Hd|done].
Qed.

Lemma after_error_hosts p e : triple (failed_block hs n l d) (after_error p e) (λ a self, a = Stop ∨ in_sync self) (λ _ _, True).
Proof using BS RS IE Hk Hpos Hhead.
  intros self Hs. unfold after_error. destruct (error_kind e); [..|by left].
  all: destruct (failed_revert self Hs) as (self' & Hr & Hsync); unfold mbind at 1, st_bind at 1; rewrite Hr; revert self' Hr Hsync.
  - intros self' _. apply (triple_keeps in_sync); [auto with frames|done|]. intros ?. by apply triple_fail.
  - intros self' _. unfold runner_health. revert self'. apply (triple_keeps in_sync); [framed|done|]. intros h.
    apply (triple_keeps in_sync); [framed|done|]. intros ?. apply (triple_keeps in_sync); [framed|done|]. intros ?. apply triple_ret. by right.
  - intros self' _ Hsync. by right.
Qed.

End Failed.

(** A block that comes after the head of the store *)
Definition comes_next (block : RunBlock) self : Prop :=
  let n := block_number (rb_block block) in 0 < n ∧ ∀ q, last (ws_log (ru_store self)) = Some q → ptr_number q < n.

Definition stopped (state : RunnerState) : Prop := ∃ reason, state = Stopped reason.

Lemma process_block_state_hosts block cursor :
  triple (λ self, in_sync self ∧ comes_next block self) (process_block_state from_entity_trigger poi_iter ext inputs block cursor)
    (λ state self, stopped state ∨ in_sync self) (λ _ _, True).
Proof using BS RS IE CS Hchecks MS DS Hhook Hrefetch Hfiles.
  unfold process_block_state. apply (triple_keeps (λ self, in_sync self ∧ comes_next block self)); [|done|].
  { apply may_skip_same. intros state st stream clock self Hl Hd [Hs Hn]. split; [by apply in_sync_about|]. unfold comes_next in *. cbn. by rewrite Hl. }
  intros [|]; [apply triple_ret; intros self [Hs _]; by right|].
  apply (triple_bind _ _ _ (λ a self, a = Stop ∨ in_sync self)).
  { intros self [(hs & Hs & Hk) [Hpos Hhead]]. unfold handle_action.
    pose proof (process_block_hosts hs (block_number (rb_block block)) _ _ _ Hk Hpos eq_refl block cursor eq_refl self (conj Hs (conj eq_refl eq_refl))) as Hb.
    destruct (process_block _ _ _ _ _ _ self) as [self' [a|e|]]; [|..|done].
    - pose proof (after_success_same in_sync in_sync_about (block_ptr (rb_block block)) a self' Hb) as Ha.
      destruct (after_success _ _ _ _) as [self'' [a'|e|]]; [by right|done..].
    - apply (after_error_hosts hs (block_number (rb_block block)) _ _ Hk Hpos Hhead _ e self' Hb). }
  intros a. apply (triple_bind _ _ _ (λ _ self, a = Stop ∨ in_sync self)).
  { intros self Hs. cbn. destruct Hs as [->|Hs]; [by left|right; by apply in_sync_about]. }
  intros [|].
  - intros self _. unfold cancel, ask. st_run. destruct (x_newer_runner _); [done|]. left. by eexists.
  - apply triple_ret. intros self [->|Hs]; [left; by eexists|by right].
Qed.

Lemma handle_revert_state_hosts p cursor self : in_sync self → (∀ e, (ws_revert p cursor (ru_store self)).2 ≠ Err e) →
  match handle_revert_state inputs p cursor self with (self', Ok _) => in_sync self' | _ => True end.
Proof using BS RS IE CS Hchecks.
  intros (hs & Hs & Hk) Hne. unfold handle_revert_state, handle_revert. unfold mbind at 1, st_bind at 1. rewrite ws_ptr_log.
  destruct (last (ws_log (ru_store self))) as [q|]; [|done]. destruct (_ <=? _); [by exists hs|].
  destruct (ws_revert p cursor (ru_store self)) as [st [[]|e|]] eqn:Hr; [|by destruct (Hne e)|done].
  pose proof (revert_log _ _ _ _ _ Hr) as Hlog. apply revert_dds in Hr. cbn in Hlog.
  destruct (revert_state_hosts (E := SubgraphRunnerError) hs (ptr_number p) (set_store st self) Hs) as (self' & Hrs & Hh & Hst).
  unfold mbind at 1, st_bind at 1. rewrite Hrs. cbn. eexists. split; [exact Hh|]. rewrite Hst. cbn [ru_store set_store]. rewrite Hr, Hlog.
  pose proof (known_upto hs (ws_log (ru_store self)) (back_to p (ws_log (ru_store self))) (ws_dds (ru_store self)) Hk) as Hu.
  unfold back_to in *. by rewrite last_snoc in Hu.
Qed.

Lemma restart_hosts reason : triple in_sync (restart ext inputs reason) (λ _, in_sync) (λ _ _, True).
Proof using BS RS IE CS Hchecks.
  unfold restart. apply (triple_bind _ _ _ (λ _, in_sync)).
  2: { intros []. apply (triple_keeps in_sync); [auto with frames|done|]. intros []. by apply triple_ret. }
  destruct reason; [by apply triple_ret| |by apply triple_ret].
  intros self (hs & Hs & Hk). unfold restart_store. unfold st_get, lift, put_store, mbind, st_bind.
  destruct (ws_restart (ru_store self)) as [[st|]|e|] eqn:Hr; cbn; [|by exists hs|done..]. apply restart_dds in Hr.
  unfold revert_to_last_good_block. unfold mbind, st_bind, st_get.
  destruct (revert_state_hosts (E := SubgraphRunnerError) hs (last_good_block (set_store st self)) (set_store st self) Hs) as (self' & Hrs & Hh & Hst).
  rewrite Hrs. eexists. split; [exact Hh|]. rewrite Hst, last_good_log. cbn [ru_store set_store]. rewrite Hr, ws_ptr_log. by eapply known_upto.
Qed.

(** The turns of a runner whose hosts have been made from the store; blocks
    come after the head of the store, and no revert of the store fails. *)
Inductive steady : RunnerState → Runner → Prop :=
| steady_start self : in_sync self → steady (Restarting RestartStoreError) self
| steady_turn state self state' self' :
    steady state self →
    runner_step from_entity_trigger poi_iter ext inputs state self = (self', Ok state') →
    (∀ block cursor, state' = ProcessingBlock block cursor → comes_next block self') →
    (∀ p cursor e, state = Reverting p cursor → (ws_revert p cursor (ru_store self)).2 ≠ Err e) →
    steady state' self'.

(** A runner does not initialize twice. *)
Lemma turn_not_initial state self state' self' : state ≠ Initializing →
  runner_step from_entity_trigger poi_iter ext inputs state self = (self', Ok state') → state' ≠ Initializing.
Proof.
  intros Hne Hstep ->. destruct state as [| |block cursor|p cursor|reason|reason]; cbn in Hstep; [done|..|done].
  - pose proof (await_block_told ext (ws_log (ru_store self)) (ru_stream self) self (conj eq_refl eq_refl)) as Ht. by rewrite Hstep in Ht.
  - pose proof (process_block_state_writes from_entity_trigger poi_iter ext inputs _ _ block cursor self (conj eq_refl eq_refl)) as Ht. by rewrite Hstep in Ht.
  - pose proof (handle_revert_state_goes_back inputs _ _ p cursor self (conj eq_refl eq_refl)) as Ht. by rewrite Hstep in Ht.
  - revert Hstep. unfold restart. unfold mbind, st_bind. match goal with |- context [match ?m self with _ => _ end] => destruct (m self) as [self1 [[]|e|]] end; [|done..].
    by destruct (start_block_stream ext inputs self1) as [self2 [[]|e|]].
Qed.

Lemma steady_sync state self : steady state self →
  (stopped state ∨ in_sync self) ∧ state ≠ Initializing ∧ ∀ block cursor, state = ProcessingBlock block cursor → comes_next block self.
Proof using BS RS IE CS Hchecks MS DS Hhook Hrefetch Hfiles.
  induction 1 as [self Hs|state self state' self' _ (IH & Hinit & Hnext) Hstep Hnext' Hrev]; [split; [by right|done]|].
  split; [|split; [by eapply turn_not_initial|done]].
  destruct IH as [[reason ->]|Hs]; [injection Hstep as <- <-; left; by eexists|].
  destruct state as [| |block cursor|p cursor|reason|reason]; cbn in Hstep; [done|..|injection Hstep as <- <-; by right].
  - right. pose proof (await_block_same in_sync in_sync_about self Hs) as Ht. by rewrite Hstep in Ht.
  - pose proof (process_block_state_hosts block cursor self (conj Hs (Hnext _ _ eq_refl))) as Ht. by rewrite Hstep in Ht.
  - right. pose proof (handle_revert_state_hosts p cursor self Hs (λ e, Hrev _ _ e eq_refl)) as Ht. by rewrite Hstep in Ht.
  - right. pose proof (restart_hosts reason self Hs) as Ht. by rewrite Hstep in Ht.
Qed.

(** C6: From a state in which the dynamic data sources that have hosts in memory
    are those that the store has, this stays so in every turn of the runner
    until it stops, whatever handlers and blocks fail: blocks that are
    processed, reverts, and restarts of the stream and of the store; and no
    data source was created after the head of the store.  The conditions:
    blocks come after the head of the store and are not block 0, reverts of
    the store do not fail, handlers of files create no data sources, and the
    sequence of causality regions does not wrap around.  The turn that
    initializes a runner is not one of these: [unfail_loses_data_source]. *)
Theorem dynamic_hosts_are_stored state self :
  steady state self → stopped state ∨ ∃ hs, hosting hs self ∧ omap host_core (filter dynamic hs) ≡ₚ core <$> ws_dds (ru_store self) ∧
    Forall (in_chain (ws_log (ru_store self))) hs.
Proof using BS RS IE CS Hchecks MS DS Hhook Hrefetch Hfiles. intros Hs. exact (proj1 (steady_sync state self Hs)). Qed.

End Sync.
