(* ===== verification/SyncWritable.v ===== *)
(** * The writable store without a queue

    Models [WritableStore] of store/postgres/src/writable.rs when the size of
    the write queue is 0: [Writer::Sync] gives each block to the deployment
    store at once.  It is an instance of the store that the runner of a
    subgraph uses, and it keeps to what the runner relies on. *)

From Stdlib Require Import ZArith Lia ZifyBool.
From stdpp Require Import base gmap list sorting strings.
From S2P Require Import Prelude Values Intern Entity Write Relational EntityCache Deployment SyncStore Writable.
From S2P Require Import Runner RunnerFacts RunnerHosts.

Local Open Scope Z_scope.

(** What is in the primary database or only about indexes: marking a deployment
    as synced, pausing it, and creating the indexes that were put off *)
Class PrimaryStore := {
  mark_synced : BlockPtr → outcome StoreError unit;
  pause_deployment : outcome StoreError unit;
  postponed_indexes : outcome StoreError unit;
}.

Section SyncWritable.
Context `{EnvVars} `{InputSchema} `{BuildConfig} `{DeploymentConfig} `{UnstableSort} `{PrimaryStore}.
Context (value_too_large : list EntityWrite → bool) (layout : gmap EntityType Table) (mods_weight : RowGroups → Z).

(** The field [block_ptr] is the last of the pointers that it has had and that
    were not reverted. *)
Record SyncWritable := mkSyncWritable {
  sw_store : Deployment;
  sw_ptrs : list BlockPtr;
  sw_cursor : option string;
  sw_synced : bool;
}.

Definition sw_new (d : Deployment) (synced : bool) : SyncWritable :=
  mkSyncWritable d (option_list (head_ptr (d_head d))) (head_cursor (d_head d)) synced.

Definition sw_set_store (d : Deployment) (self : SyncWritable) : SyncWritable :=
  mkSyncWritable d (sw_ptrs self) (sw_cursor self) (sw_synced self).

Definition sw_deployment_synced (ptr : BlockPtr) : st SyncWritable StoreError unit := λ self,
  if sw_synced self then (self, Ok tt)
  else
    match mark_synced ptr with
    | Ok _ => (mkSyncWritable (sw_store self) (sw_ptrs self) (sw_cursor self) true, Ok tt)
    | r => (self, r)
    end.

Definition sw_write (bc : BlockChanges) : st SyncWritable StoreError unit := λ self,
  if match last (sw_ptrs self) with Some p => ptr_number (bc_ptr bc) <=? ptr_number p | None => false end then
    (self, Err (InternalError "transact_block_operations called for a block but its head is already there"))
  else
    match
      batch ← batch_new mods_weight (bc_ptr bc) (bc_time bc) (bc_cursor bc) (bc_mods bc) (bc_data_sources bc) (bc_errors bc)
                (bc_processed bc) (bc_nonfatal bc);
      transact_block_operations value_too_large layout batch (sw_store self)
    with
    | Ok d => (mkSyncWritable d (sw_ptrs self ++ [bc_ptr bc]) (bc_cursor bc) (sw_synced self), Ok tt)
    | Err e => (self, Err e)
    | Panic => (self, Panic)
    end.

Definition sw_transact (bc : BlockChanges) : st SyncWritable StoreError unit :=
  _ ← (if bc_caught_up bc then sw_deployment_synced (bc_ptr bc) else mret tt);
  sw_write bc.

(** The pointer is set before the deployment is reverted. *)
Definition sw_revert (ptr : BlockPtr) (cursor : option string) : st SyncWritable StoreError unit := λ self,
  let self := mkSyncWritable (sw_store self) (back_to ptr (sw_ptrs self)) cursor (sw_synced self) in
  match revert_block_operations layout ptr cursor (sw_store self) with
  | Ok d => (sw_set_store d self, Ok tt)
  | Err e => (self, Err e)
  | Panic => (self, Panic)
  end.

Definition sw_unfail_deterministic (current parent : BlockPtr) : st SyncWritable StoreError UnfailOutcome := λ self,
  match unfail_deterministic_error layout current parent (sw_store self) with
  | Ok (d, Unfailed) =>
      (mkSyncWritable d (match head_ptr (d_head d) with Some p => back_to p (sw_ptrs self) | None => [] end) (head_cursor (d_head d))
         (sw_synced self), Ok Unfailed)
  | Ok (d, outcome) => (sw_set_store d self, Ok outcome)
  | Err e => (self, Err e)
  | Panic => (self, Panic)
  end.

Definition sw_unfail_non_deterministic (current : BlockPtr) : st SyncWritable StoreError UnfailOutcome := λ self,
  match unfail_non_deterministic_error current (sw_store self) with
  | Ok (d, outcome) => (sw_set_store d self, Ok outcome)
  | Err e => (self, Err e)
  | Panic => (self, Panic)
  end.

Definition sw_read (self : SyncWritable) : ReadStore := {|
  rs_get key := deployment_get layout key BLOCK_NUMBER_MAX (sw_store self);
  rs_get_many keys :=
    by_type ← ids_by_type (elements keys) ∅;
    deployment_get_many layout (map_to_list by_type) BLOCK_NUMBER_MAX (sw_store self);
  rs_get_derived q := deployment_get_derived layout q BLOCK_NUMBER_MAX [] (sw_store self);
|}.

(** A writer without a queue is never poisoned. *)
Definition sync_writable : WritableStore SyncWritable := {|
  ws_block_ptr self := last (sw_ptrs self);
  ws_is_deployment_synced := sw_synced;
  ws_health self := Ok (health (d_status (sw_store self)));
  ws_transact := sw_transact;
  ws_revert := sw_revert;
  ws_unfail_deterministic := sw_unfail_deterministic;
  ws_unfail_non_deterministic := sw_unfail_non_deterministic;
  ws_fail e self := (sw_set_store (fail e (sw_store self)) self, Ok tt);
  ws_restart self := Ok None;
  ws_flush self := (self, Ok tt);
  ws_pause self := (self, pause_deployment);
  ws_create_postponed_indexes self := (self, postponed_indexes);
  ws_read := sw_read;
|}.

(** ** What the runner relies on *)

Lemma check_health_head b d : d_head (check_health b d) = d_head d.
Proof. unfold check_health. destruct (has_deterministic_errors b (d_errors d)); by destruct (decide _). Qed.

Lemma revert_metadata_head b d : d_head (revert_metadata b d) = d_head d.
Proof.
  unfold revert_metadata, revert_subgraph_errors. destruct (_ && _); cbn [set_status d_head]; by rewrite check_health_head.
Qed.

Lemma unfail_deterministic_head current parent d d' :
  unfail_deterministic_error layout current parent d = Ok (d', Unfailed) → head_ptr (d_head d') = Some parent.
Proof.
  unfold unfail_deterministic_error. destruct (fatal d) as [e|]; [|done]. destruct (negb (er_deterministic e)); [done|].
  destruct (er_block_hash e) as [bytes|]; [|done]. destruct (decide _); [|done]. unfold revert_block_operations.
  destruct (head_ptr (d_head d)) as [h|]; [|done]. destruct (_ <=? _); [done|]. destruct (match graft_block with Some _ => _ | None => _ end); [done|].
  unfold rewind_or_truncate, revert_block_ptr. destruct (_ <=? _); [|done]. cbn [mbind outcome_bind].
  destruct (revert_block layout _ _) as [db count]. intros [= <-].
  cbn [update_deployment_status d_head set_status]. rewrite revert_metadata_head. cbn. unfold update_entity_count. by destruct (count =? 0).
Qed.

#[export] Instance sync_writable_spec : WritableStoreSpec SyncWritable (H := sync_writable).
Proof.
  refine (Build_WritableStoreSpec SyncWritable sync_writable sw_ptrs _ _ _ _ _ _ _ _ _ _).
  - done.
  - intros bc s s' r. cbn. unfold sw_transact, sw_deployment_synced. unfold mbind, st_bind.
    assert (∀ s1, sw_ptrs s1 = sw_ptrs s → sw_write bc s1 = (s', r) →
      match r with
      | Ok _ => sw_ptrs s' = sw_ptrs s ++ [bc_ptr bc] ∧ ∀ p, last (sw_ptrs s) = Some p → earlier p (bc_ptr bc)
      | _ => sw_ptrs s' = sw_ptrs s
      end) as Hw.
    { intros s1 Hs1. unfold sw_write. rewrite Hs1. destruct (last (sw_ptrs s)) as [p|] eqn:Hl.
      - destruct (Z.leb_spec (ptr_number (bc_ptr bc)) (ptr_number p)); [by intros [= <- <-]|].
        destruct (_ ≫= _); intros [= <- <-]; try done. split; [done|]. intros q [= <-]. unfold earlier. lia.
      - destruct (_ ≫= _); by intros [= <- <-]. }
    destruct (bc_caught_up bc); [|by apply Hw]. destruct (sw_synced s); [by apply Hw|].
    destruct (mark_synced (bc_ptr bc)) as [[]|e|]; [by apply Hw|by intros [= <- <-]..].
  - intros p cursor s s' r. cbn. unfold sw_revert. destruct (revert_block_operations _ _ _ _); intros [= <- <-]; by auto.
  - intros p q s s' r. cbn. unfold sw_unfail_deterministic. destruct (unfail_deterministic_error _ _ _ _) as [[d []]|e|] eqn:Hu; intros [= <- <-]; auto.
    right. cbn. by rewrite (unfail_deterministic_head _ _ _ _ Hu).
  - intros p s. cbn. unfold sw_unfail_non_deterministic. by destruct (unfail_non_deterministic_error _ _) as [[d o]|e|].
  - done.
  - done.
  - done.
  - done.
  - done.
Defined.

(** ** The data sources of the store *)

Lemma mark_all_core l dss : core <$> mark_all l dss = core <$> dss.
Proof.
  revert dss. induction l as [|ds l IH]; intros dss; [done|]. cbn [mark_all]. rewrite IH. unfold mark_done.
  rewrite <- list_fmap_compose. apply list_fmap_ext. intros i row _. cbn. by destruct (_ =? _).
Qed.

Lemma all_dss_new ptr dss : all_dss (data_sources_new ptr dss) = dss.
Proof. unfold all_dss, data_sources_new. destruct dss as [|ds dss]; [done|]. cbn. by rewrite app_nil_r. Qed.

Lemma batch_new_data_sources ptr time cursor raw dss errors processed nonfatal b :
  batch_new mods_weight ptr time cursor raw dss errors processed nonfatal = Ok b → data_sources b = data_sources_new ptr dss.
Proof. unfold batch_new. destruct (st_for _ _ _) as [mods [[]|e|]]; [|done..]. by intros [= <-]. Qed.

Lemma sw_write_dds bc s s' r : sw_write bc s = (s', r) →
  match r with
  | Ok _ => core <$> d_data_sources (sw_store s') = core <$> d_data_sources (sw_store s) ++ bc_data_sources bc
  | Err _ => sw_store s' = sw_store s
  | Panic => True
  end.
Proof.
  unfold sw_write. destruct (match last _ with Some p => _ | None => _ end); [by intros [= <- <-]|].
  destruct (batch_new _ _ _ _ _ _ _ _ _) as [b|e|] eqn:Hb; [|by intros [= <- <-]..]. cbn [mbind outcome_bind].
  destruct (transact_block_operations _ _ b _) as [d|e|] eqn:Ht; intros [= <- <-]; [|done..]. cbn.
  apply transact_spec in Ht as (c & _ & _ & _ & -> & _). by rewrite mark_all_core, (batch_new_data_sources _ _ _ _ _ _ _ _ _ Hb), all_dss_new.
Qed.

#[export] Instance sync_data_sources_spec : DataSourceStoreSpec SyncWritable (H0 := sync_writable_spec).
Proof.
  refine (Build_DataSourceStoreSpec SyncWritable sync_writable sync_writable_spec (λ s, d_data_sources (sw_store s)) _ _ _ _ _ _ _ _).
  - intros bc s s' r. cbn. unfold sw_transact, sw_deployment_synced. unfold mbind, st_bind.
    assert (∀ s1, sw_store s1 = sw_store s → sw_write bc s1 = (s', r) →
      match r with
      | Ok _ => core <$> d_data_sources (sw_store s') = core <$> d_data_sources (sw_store s) ++ bc_data_sources bc
      | Err _ => d_data_sources (sw_store s') = d_data_sources (sw_store s)
      | Panic => True
      end) as Hw.
    { intros s1 Hs1 Hr%sw_write_dds. rewrite Hs1 in Hr. destruct r; [done|by rewrite Hr|done]. }
    destruct (bc_caught_up bc); [|by apply Hw]. destruct (sw_synced s); [by apply Hw|].
    destruct (mark_synced (bc_ptr bc)) as [[]|e|]; [by apply Hw|by intros [= <- <-]..].
  - intros p cursor s s'. cbn. unfold sw_revert. destruct (revert_block_operations _ _ _ _) as [d|e|] eqn:Hr; intros [= <-]. cbn.
    by apply revert_spec in Hr as (_ & _ & _ & _ & -> & _).
  - intros p s. cbn. unfold sw_unfail_non_deterministic, unfail_non_deterministic_error. destruct (fatal _) as [e|]; [|done].
    destruct (er_deterministic e); [done|]. by destruct (_ <=? _).
  - done.
  - done.
  - done.
  - done.
  - done.
Defined.

End SyncWritable.
