(* ===== verification/RunnerSamples.v ===== *)
(** * A run of a subgraph

    A chain whose triggers are addresses, a mapping that creates a data source,
    and a block stream with a revert, on the deployment store.  The witnesses
    for the theorems about the runner are here. *)

From Stdlib Require Import ZArith Lia.
From stdpp Require Import base gmap list sorting strings.
From S2P Require Import Prelude Values IdText Intern InternFacts Entity EntityFacts Write Relational LfuCache LfuFacts EntityCache BlockState HostExports.
From S2P Require Import BatchFacts Deployment SyncStore Writable DataSource Instance InstanceFacts InstanceRuns Poi PoiSamples TriggerProcessor.
From S2P Require Import Runner Triples RunnerFacts RunnerDynamic RunnerHosts SyncWritable.

Local Open Scope Z_scope.

Module RunnerSample.
Import MapQueue BatchSample PoiSample.
#[local] Existing Instances sample_env sample_build sample_sort.

(** ** The chain *)

(** A data source has an address and the block in which it was created. *)
#[local] Instance toy_chain : Blockchain := {|
  ChainDataSource := Z * option BlockNumber;
  ChainTrigger := Z;
  ChainMappingTrigger := Z;
  ChainBlock := Z;
  block_ptr n := mkBlockPtr n [n];
  block_timestamp n := Some n;
  chain_address ds := Some [ds.1];
  chain_start_block _ := 0;
  chain_end_block _ := None;
  chain_creation_block ds := ds.2;
  chain_runtime _ := Some [];
  chain_name _ := "Pair"%string;
  chain_is_duplicate_of a b := a.1 =? b.1;
  chain_as_stored ds := mkDataSource 1 (Some [ds.1]) None ds.2 None ONCHAIN;
  chain_match_and_decode ds t n := Ok (if ds.1 =? t then Some (mkTriggerWithHandler t "handle" (mkBlockPtr n [n]) (Some n)) else None);
  address_match t := Some [t];
|}.

#[local] Instance toy_chain_spec : BlockchainSpec.
Proof.
  split; cbn.
  - intros a b ->%Z.eqb_eq. done.
  - intros [a c] t n x y [= <-] [= <-] Hne. cbn. destruct (Z.eqb_spec a t) as [->|]; [by destruct Hne|done].
Qed.

#[local] Instance toy_calls : DeclaredCalls := {| CallDecls := unit; DeclaredCall := Empty_set |}.
#[local] Instance toy_builder : RuntimeHostBuilder := {|
  Sender := unit; module_hash _ := 0; spawn_mapping _ := Ok tt; build_host _ _ := Ok tt |}.
#[local] Instance toy_builder_spec : RuntimeHostBuilderSpec.
Proof. by split. Qed.
#[local] Instance toy_instance_env : InstanceEnv := {| subgraph_max_data_sources := 10 |}.

(** Filters are lists of addresses, and the only template is for the address in
    the parameters. *)
#[local] Instance toy_runner : ChainRunner := {|
  ChainFilter := list Z;
  ChainTemplate := unit;
  chain_template_idx _ := 1;
  filter_from_data_sources dss := dss.*1;
  extend_with_template _ f := f;
  chain_from_template_info info _ := Ok (Z.of_nat (length (params info)), Some (template_creation_block info));
|}.

#[local] Instance toy_runner_spec : ChainRunnerSpec.
Proof.
  split; cbn.
  - by intros info t ds [= <-].
  - done.
  - intros ds t b twh. destruct (ds.1 =? t); [|done]. by intros [= <-].
Qed.

#[local] Instance toy_cids : Cids := {| parse_cid _ := None |}.
#[local] Instance toy_urls : Urls := {| parse_url _ := None |}.

(** ** The schema and the store *)

#[local] Instance toy_schema : InputSchema := {|
  is_immutable _ := false; skip_duplicates _ := false; schema_id_type _ := IdTString; object_type _ := None; share_interfaces _ := [] |}.

Definition toy_pool : ArcPool := mkArcPool 1 (match pool_from_iter ["id"; "digest"; "vid"]%string with Ok p => p | _ => pool_new end).

#[local] Instance toy_types : SchemaTypes := {| schema_pool := toy_pool; type_kind _ := Some KObject; is_timeseries _ := false |}.
#[local] Instance toy_aggregations : SchemaAggregations := {| has_aggregations := false |}.

Definition poi_type : EntityType := mkEntityType POI_OBJECT.
Definition toy_layout : gmap EntityType Table :=
  {[ poi_type := mkTable poi_type [mkColumn "id" false false None; mkColumn "digest" false false None] false false false false true ]}.

#[local] Instance toy_deployment : DeploymentConfig := {| reorg_threshold := 250; error_id := err_message; graft_block := None |}.
#[local] Instance toy_primary : PrimaryStore := {| mark_synced _ := Ok tt; pause_deployment := Ok tt; postponed_indexes := Ok tt |}.
Definition toy_sync : WritableStore SyncWritable := sync_writable never_large toy_layout no_weight.
Definition toy_sync_spec : WritableStoreSpec SyncWritable := sync_writable_spec never_large toy_layout no_weight.
Definition toy_sync_data_sources : DataSourceStoreSpec SyncWritable := sync_data_sources_spec never_large toy_layout no_weight.

(** The store is opened again whenever the runner asks for it, with the data
    sources up to its head. *)
Definition reopened (self : SyncWritable) : SyncWritable :=
  let d := sw_store self in
  sw_set_store (mkDeployment (d_tables d) (d_head d) (d_status d) (dds_upto (last (sw_ptrs self)) (d_data_sources d)) (d_errors d)) self.

#[local] Instance toy_writable : WritableStore SyncWritable := {|
  ws_block_ptr := @ws_block_ptr _ toy_sync;
  ws_is_deployment_synced := @ws_is_deployment_synced _ toy_sync;
  ws_health := @ws_health _ toy_sync;
  ws_transact := @ws_transact _ toy_sync;
  ws_revert := @ws_revert _ toy_sync;
  ws_unfail_deterministic := @ws_unfail_deterministic _ toy_sync;
  ws_unfail_non_deterministic := @ws_unfail_non_deterministic _ toy_sync;
  ws_fail := @ws_fail _ toy_sync;
  ws_restart self := Ok (Some (reopened self));
  ws_flush := @ws_flush _ toy_sync;
  ws_pause := @ws_pause _ toy_sync;
  ws_create_postponed_indexes := @ws_create_postponed_indexes _ toy_sync;
  ws_read := @ws_read _ toy_sync;
|}.

#[local] Instance toy_writable_spec : WritableStoreSpec SyncWritable.
Proof.
  refine (Build_WritableStoreSpec SyncWritable toy_writable sw_ptrs _ _ _ _ _ _ _ _ _ _).
  - exact (@ws_ptr_log _ _ toy_sync_spec).
  - exact (@transact_log _ _ toy_sync_spec).
  - exact (@revert_log _ _ toy_sync_spec).
  - exact (@unfail_deterministic_log _ _ toy_sync_spec).
  - exact (@unfail_non_deterministic_log _ _ toy_sync_spec).
  - exact (@fail_log _ _ toy_sync_spec).
  - exact (@flush_log _ _ toy_sync_spec).
  - exact (@pause_log _ _ toy_sync_spec).
  - exact (@indexes_log _ _ toy_sync_spec).
  - by intros s s' Hs [= <-].
Defined.

#[local] Instance toy_data_sources_spec : DataSourceStoreSpec SyncWritable.
Proof.
  refine (Build_DataSourceStoreSpec SyncWritable toy_writable toy_writable_spec (λ s, d_data_sources (sw_store s)) _ _ _ _ _ _ _ _).
  - exact (@transact_dds _ _ _ toy_sync_data_sources).
  - exact (@revert_dds _ _ _ toy_sync_data_sources).
  - exact (@unfail_non_deterministic_dds _ _ _ toy_sync_data_sources).
  - exact (@fail_dds _ _ _ toy_sync_data_sources).
  - exact (@flush_dds _ _ _ toy_sync_data_sources).
  - exact (@pause_dds _ _ _ toy_sync_data_sources).
  - exact (@indexes_dds _ _ _ toy_sync_data_sources).
  - by intros s s' [= <-].
Defined.

#[local] Instance toy_checks : Arithmetic := {| overflow_checks := true |}.
#[local] Instance toy_config : CacheConfig EntityKey (option Entity) :=
  {| entry_weight := λ _ v, match v with Some _ => 10 | None => 1 end; entry_size := 48; entity_cache_dead_weight := false |}.
#[local] Instance toy_order : HashOrder := {| hash_iter := λ A m, map_to_list m; hash_iter_perm := λ A m, reflexivity _ |}.
#[local] Instance toy_cache_env : CacheEnv := {| entity_weight := λ _, 10; entity_cache_size := 10000 |}.
#[local] Instance toy_block_env : BlockEnv := {| block_write_capacity := 1000 |}.

(** ** Mappings and the runner *)

Abbreviation toy_queue := (gmap EntityKey (CacheEntry EntityKey (option Entity) * Priority)).

Definition create_second (n : BlockNumber) : st (BlockState toy_queue) StoreError unit :=
  block_enter_handler;;
  push_created_data_source (mkTemplateInfo (Onchain "Pair" (Some 1)) ["a"; "b"]%string None n);;
  block_exit_handler.

(** The handler of the contract 1 creates a data source for the contract 2. *)
#[local] Instance toy_mappings : MappingRuntime toy_queue := {|
  process_mapping_trigger rs host t := λ s,
    match as_onchain (host_ds host), twh_trigger t with
    | Some _, MtOnchain 1 =>
        match
          create_second (ptr_number (twh_block_ptr t)) (hs_state s)
        with
        | (b, Ok _) => (mkHostState (hs_seq s) b (hs_gas s) (hs_poi s), Ok tt)
        | (b, _) => (mkHostState (hs_seq s) b (hs_gas s) (hs_poi s), Panic)
        end
    | _, _ => (s, Ok tt)
    end;
|}.

#[local] Instance toy_env : RunnerEnv := {|
  static_filters_threshold := 100;
  disable_fail_fast := false;
  postpone_indexes_creation_threshold := 0;
  store_errors_are_nondeterministic := false;
  block_time_none := 0;
  processing_error_text _ := "error"%string;
|}.

Definition toy_inputs : IndexingInputs :=
  mkInputs false [] None None [TmplOnchain tt] false VFast "mainnet".

Definition ptr (n : Z) : BlockPtr := mkBlockPtr n [n].
Definition block (n : Z) (addresses : list Z) : StreamEvent := EvProcessBlock (mkRunBlock (n : ChainBlock) (TriggerChain <$> addresses)) None.

(** Block 1 has a trigger of the first contract and one of the second; block 3
    is reverted. *)
Definition toy_events (start : option BlockPtr) : list StreamEvent :=
  match start with
  | None => [block 1 [1]]
  | Some (mkBlockPtr 0 _) => [block 1 [1]]
  | Some _ => [block 2 []; block 3 [2]; EvRevert (ptr 2) None; EvError; block 4 [2]; block 5 []]
  end.

Definition toy_ext (_ : nat) : Ext := {|
  x_canceled := false;
  x_newer_runner := false;
  x_chain_head := Ok (Some (ptr 5000));
  x_parent_ptr p := Ok (Some (ptr (ptr_number p - 1)));
  x_triggers_in_block n f := Ok (TriggerChain <$> filter (λ a, a ∈ f) [1; 2]);
  x_refetch n := Ok n;
  x_timer_recent := true;
  x_offchain_events := Ok [];
  x_new_stream _ _ := Ok tt;
  x_next_event s := toy_events (stream_start s) !! length (stream_told s);
  x_after_decode rs := Ok rs;
  x_flush_metrics := Ok tt;
|}.

Abbreviation Runner := (SubgraphRunner (Q := toy_queue) (S := SyncWritable)).

Definition empty_deployment : Deployment :=
  mkDeployment ∅ (mkHead None None 0) (mkStatus 0 0 0 0 false Healthy None []) [] [].

Definition toy_source : ChainDataSource := (1, None).
Definition toy_instance : SubgraphInstance :=
  (add_dynamic_data_source (DsOnchain toy_source) (instance_new [DsOnchain toy_source] 0 atomics_empty)).1.

Definition toy_start : Runner :=
  mkRunner (mkIndexingContext toy_instance []) (mkIndexingState true (lfu_new (K := EntityKey) (V := option Entity)) None false)
    (sw_new empty_deployment false) (mkStreamState None ([], []) []) 0.

Definition toy_step := runner_step (λ _ _, Ok []) map_to_list toy_ext toy_inputs.

#[local] Instance ptr_eq_dec : EqDecision BlockPtr.
Proof. solve_decision. Defined.

(** The revert that the stream tells is to a block of the chain. *)
Definition toy_consistent (base : list BlockPtr) (told : list StreamEvent) (state : RunnerState) : bool :=
  match state with
  | Reverting p _ => forallb (λ e, negb (ptr_number e.1 =? ptr_number p) || bool_decide (e.1 = p)) (chain_of base told)
  | _ => true
  end.

Fixpoint toy_turns (n : nat) (state : RunnerState) (self : Runner) (base : list BlockPtr) : option (RunnerState * Runner * list BlockPtr) :=
  match n with
  | O => Some (state, self, base)
  | S n =>
      match toy_step state self with
      | (self', Ok state') =>
          if toy_consistent base (stream_told (ru_stream self)) state' then
            toy_turns n state' self' (match state with Restarting _ => ws_log (ru_store self') | _ => base end)
          else None
      | _ => None
      end
  end.

(** What the store has after some turns *)
Definition toy_seen (n : nat) : option (bool * list Z * list (Z * bool) * list (option BlockNumber)) :=
  match toy_turns n Initializing toy_start [] with
  | Some (state, self, base) =>
      Some (match state with AwaitingBlock => true | _ => false end, ptr_number <$> ws_log (ru_store self),
            (λ e, (ptr_number e.1, e.2)) <$> chain_of base (stream_told (ru_stream self)),
            creation_block <$> d_data_sources (sw_store (ru_store self)))
  | None => None
  end.

(** The data source that is created in block 1 is stored; block 2 is not
    written before the store goes back to it. *)
Example toy_run :
  toy_seen <$> [4; 7; 9; 11; 16]%nat =
  [Some (false, [1], [(1, true)], [Some 1]); Some (true, [1], [(1, true); (2, false)], [Some 1]);
   Some (true, [1; 3], [(1, true); (2, false); (3, true)], [Some 1]); Some (true, [1; 2], [(1, true); (2, false)], [Some 1]);
   Some (true, [1; 2; 4], [(1, true); (2, false); (4, true); (5, false)], [Some 1])].
Proof. vm_compute. reflexivity. Qed.

Abbreviation toy_runs := (runs (λ _ _, Ok []) map_to_list toy_ext toy_inputs).

Lemma toy_turns_runs n state self base state' self' base' :
  toy_runs state self base → toy_turns n state self base = Some (state', self', base') → toy_runs state' self' base'.
Proof.
  revert state self base. induction n as [|n IH]; intros state self base Hr; cbn [toy_turns]; [by intros [= <- <- <-]|].
  destruct (toy_step state self) as [self1 [state1|e|]] eqn:Hs; [|done..].
  destruct (toy_consistent _ _ state1) eqn:Hc; [|done]. apply IH. eapply runs_turn; [exact Hr|exact Hs|].
  intros p cursor e -> He Hn. cbn [toy_consistent] in Hc. rewrite forallb_forall in Hc. specialize (Hc e ltac:(by apply list_elem_of_In)).
  apply Z.eqb_eq in Hn. rewrite Hn in Hc. by apply bool_decide_eq_true in Hc.
Defined.

Lemma runner_applies_blocks_witness :
  ∃ self base, toy_turns 16 Initializing toy_start [] = Some (AwaitingBlock, self, base) ∧
    last base = stream_start (ru_stream self) ∧ applied (chain_of base (stream_told (ru_stream self))) (ws_log (ru_store self)).
Proof.
  assert (match toy_turns 16 Initializing toy_start [] with Some (AwaitingBlock, _, _) => true | _ => false end = true) as Hend
    by (vm_compute; reflexivity).
  destruct (toy_turns 16 Initializing toy_start []) as [[[[] self] base]|] eqn:Ht; try discriminate Hend.
  exists self, base. split; [reflexivity|]. apply (runner_applies_blocks (λ _ _, Ok []) map_to_list toy_ext toy_inputs).
  apply (toy_turns_runs 16 Initializing toy_start []); [|exact Ht]. apply runs_start. constructor.
Defined.

(** A block state in which a handler has asked for a data source *)
Definition toy_created : BlockRun toy_queue :=
  mkBlockRun (seq_new 1) (create_second 1 (block_state_new (lfu_new (K := EntityKey) (V := option Entity)))).1 (Some (poi_new 1 VFast)) atomics_empty.

Lemma dynamic_loop_ends_witness :
  has_created_data_sources (br_state toy_created) = Ok true ∧
  dynamic_eval (λ _ _, Ok []) toy_ext toy_inputs (1 : ChainBlock) "mainnet" toy_created toy_start
    (process_dynamic_data_sources (λ _ _, Ok []) toy_ext toy_inputs dynamic_rounds (1 : ChainBlock) "mainnet" toy_created toy_start).
Proof.
  split; [reflexivity|]. apply (dynamic_loop_ends (λ _ _, Ok []) toy_ext toy_inputs). intros t rs rs' [= <-] Hrs. exact Hrs.
Defined.

(** ** Hosts and stored data sources *)

(** What the operations of a handler do to the data sources *)
Definition asks_at (n : BlockNumber) (b b' : BlockState toy_queue) : Prop :=
  persisted_data_sources b' = persisted_data_sources b ∧
  ∀ info, info ∈ asked_for b' → info ∈ asked_for b ∨ template_creation_block info = n.

Lemma create_second_asks n b : asks_at n b (create_second n b).1.
Proof.
  unfold create_second, block_enter_handler, push_created_data_source, block_exit_handler, with_cache, asks_at, asked_for.
  unfold mbind, st_bind. destruct (bs_in_handler b); [by split; [|left]|].
  destruct (enter_handler _) as [c1 [[]|e|]]; cbn; [|by split; [|left]..].
  destruct (exit_handler _) as [c2 [[]|e|]]; cbn; (split; [done|]); intros info.
  all: set_solver.
Qed.

#[local] Instance toy_mappings_spec : MappingRuntimeSpec toy_queue.
Proof.
  assert (∀ rs h t s, asks_at (ptr_number (twh_block_ptr t)) (hs_state s) (hs_state (process_mapping_trigger rs h t s).1)) as Ha.
  { intros rs h t s. cbn. pose proof (create_second_asks (ptr_number (twh_block_ptr t)) (hs_state s)) as Hc.
    assert (asks_at (ptr_number (twh_block_ptr t)) (hs_state s) (hs_state s)) as Hs by (split; [done|by left]).
    destruct (as_onchain _), (twh_trigger t) as [[|[]|]| |]; try done. by destruct (create_second _ _) as [b [[]|e|]]. }
  split; intros rs h t s s' r; [intros Hp|intros info Hp]; specialize (Ha rs h t s); rewrite Hp in Ha; apply Ha.
Qed.

(** The hosts of the instance at the start *)
Lemma toy_in_sync : in_sync toy_start.
Proof.
  assert (holds [] (instance_new [DsOnchain toy_source] 0 atomics_empty)) as Hnew.
  { exists (registry_new 0 atomics_empty). split_and!; [apply represents_new|done..]. }
  pose proof (holds_add [] (DsOnchain toy_source) _ _ _ Hnew I (surjective_pairing _)) as Hadd.
  exists [mkHost 0 (DsOnchain toy_source)]. split; [apply Hadd|]. split; [done|]. apply Forall_singleton. by intros c [=].
Qed.

(** The conditions of [steady] *)
Definition toy_next (state : RunnerState) (self : Runner) : bool :=
  match state with
  | ProcessingBlock block _ =>
      let n := block_number (rb_block block) in
      (0 <? n) && match last (ws_log (ru_store self)) with Some q => ptr_number q <? n | None => true end
  | _ => true
  end.

Definition toy_reverts (state : RunnerState) (self : Runner) : bool :=
  match state with
  | Reverting p cursor => match (ws_revert p cursor (ru_store self)).2 with Err _ => false | _ => true end
  | _ => true
  end.

Fixpoint steady_turns (n : nat) (state : RunnerState) (self : Runner) : option (RunnerState * Runner) :=
  match n with
  | O => Some (state, self)
  | S n =>
      match toy_step state self with
      | (self', Ok state') => if toy_next state' self' && toy_reverts state self then steady_turns n state' self' else None
      | _ => None
      end
  end.

Abbreviation toy_steady := (steady (λ _ _, Ok []) map_to_list toy_ext toy_inputs).

Lemma steady_turns_steady n state self state' self' :
  toy_steady state self → steady_turns n state self = Some (state', self') → toy_steady state' self'.
Proof.
  revert state self. induction n as [|n IH]; intros state self Hr; cbn [steady_turns]; [by intros [= <- <-]|].
  destruct (toy_step state self) as [self1 [state1|e|]] eqn:Hs; [|done..].
  destruct (toy_next state1 self1) eqn:Hn; [|done]. destruct (toy_reverts state self) eqn:Hv; [|done].
  apply IH. eapply steady_turn; [exact Hr|exact Hs|..].
  - intros b cursor ->. cbn in Hn. apply andb_true_iff in Hn as [Hpos Hlast]. split; [by apply Z.ltb_lt|].
    intros q Hq. change (ws_log (ru_store self1)) with (sw_ptrs (ru_store self1)) in Hlast, Hq. rewrite Hq in Hlast. by apply Z.ltb_lt.
  - intros p cursor e -> He. cbn [toy_reverts] in Hv. by rewrite He in Hv.
Defined.

Lemma toy_hook at_ rs rs' t : x_after_decode (toy_ext at_) rs = Ok rs' → hosted_in t rs' → hosted_in t rs.
Proof. by intros [= <-]. Defined.

Lemma toy_refetch at_ b b' : x_refetch (toy_ext at_) b = Ok b' → block_ptr b' = block_ptr b.
Proof. by intros [= <-]. Defined.

Lemma toy_files rs h t (st st' : HostState toy_queue) r : is_Some (as_offchain (host_ds h)) →
  process_mapping_trigger rs h t st = (st', r) → created_data_sources (hs_state st') = created_data_sources (hs_state st).
Proof. intros [ds Hoff] Hp. destruct h as [id [|ds'| |]]; try discriminate Hoff. by injection Hp as <- <-. Defined.

(** A runner that has stored a data source, and whose store is opened again *)
Definition reopening : option (RunnerState * Runner) :=
  match steady_turns 15 (Restarting RestartStoreError) toy_start with
  | Some (AwaitingBlock, self) => steady_turns 1 (Restarting RestartStoreError) self
  | _ => None
  end.

Lemma dynamic_hosts_are_stored_witness :
  ∃ state self, reopening = Some (state, self) ∧ creation_block <$> ws_dds (ru_store self) = [Some 1] ∧
    (stopped state ∨ ∃ hs, hosting hs self ∧ omap host_core (filter dynamic hs) ≡ₚ core <$> ws_dds (ru_store self) ∧
       Forall (in_chain (ws_log (ru_store self))) hs).
Proof.
  assert (match reopening with
          | Some (_, self) => bool_decide (creation_block <$> d_data_sources (sw_store (ru_store self)) = [Some 1])
          | _ => false
          end = true) as Hend by (vm_compute; reflexivity).
  unfold reopening in *. destruct (steady_turns 15 (Restarting RestartStoreError) toy_start) as [[[] self1]|] eqn:Ht1; try discriminate Hend.
  destruct (steady_turns 1 (Restarting RestartStoreError) self1) as [[state self]|] eqn:Ht; [|discriminate Hend].
  exists state, self. split; [reflexivity|]. split; [exact (bool_decide_eq_true_1 _ Hend)|].
  assert (in_sync self1) as Hsync.
  { pose proof (steady_turns_steady 15 _ _ _ _ (steady_start _ _ _ _ _ toy_in_sync) Ht1) as Hsteady.
    apply steady_sync in Hsteady as [[Hstop|Hs] _]; [|exact Hs|reflexivity|exact toy_hook|exact toy_refetch|exact toy_files].
    by destruct Hstop. }
  apply (dynamic_hosts_are_stored (λ _ _, Ok []) map_to_list toy_ext toy_inputs);
    [reflexivity|exact toy_hook|exact toy_refetch|exact toy_files|].
  apply (steady_turns_steady 1 _ _ _ _ (steady_start _ _ _ _ _ Hsync) Ht).
Defined.

(** ** A data source of a failed block *)

(** The handler of the contract 2 fails. *)
Definition fail_handler (p : BlockPtr) : st (BlockState toy_queue) StoreError unit :=
  block_enter_handler;;
  exit_handler_and_discard_changes_due_to_error (mkSubgraphError "failed" (Some p) None true).

Definition failing_mappings : MappingRuntime toy_queue := {|
  process_mapping_trigger rs host t := λ s,
    match twh_trigger t with
    | MtOnchain 2 =>
        let '(b, r) := fail_handler (twh_block_ptr t) (hs_state s) in
        (mkHostState (hs_seq s) b (hs_gas s) (hs_poi s), map_err (λ _, MappingUnknown) r)
    | _ => process_mapping_trigger rs host t s
    end;
|}.

Definition sync_step := runner_step (WS := toy_sync) (λ _ _, Ok []) map_to_list toy_ext toy_inputs.
Definition failing_step := runner_step (MR := failing_mappings) (WS := toy_sync) (λ _ _, Ok []) map_to_list toy_ext toy_inputs.

(** The runner until it fails *)
Fixpoint until_error (turns : nat) (step : RunnerState → st Runner SubgraphRunnerError RunnerState) (state : RunnerState) (self : Runner) : Runner :=
  match turns with
  | O => self
  | S turns => match step state self with (self, Ok state) => until_error turns step state self | (self, _) => self end
  end.

Definition failed_runner : Runner := until_error 10 failing_step Initializing toy_start.

(** A node that starts again makes hosts from the store. *)
Definition reload (self : Runner) : Runner :=
  let d := sw_store (ru_store self) in
  let hosts := omap (λ ds, (λ a, DsOnchain ((a, creation_block ds) : ChainDataSource)) <$> (param ds ≫= head)) (d_data_sources d) in
  let inst := foldl (λ inst ds, (add_dynamic_data_source ds inst).1) toy_instance hosts in
  mkRunner (mkIndexingContext inst []) (ru_state toy_start) (sw_new d false) (mkStreamState None ([], []) []) 0.

Definition seen (self : Runner) : list Z * nat * list (option BlockNumber) :=
  (ptr_number <$> ws_log (ru_store self), hosts_len (instance (ru_ctx self)), creation_block <$> d_data_sources (sw_store (ru_store self))).

(** A data source that was created in a block that failed is stored, and the
    host for it is there when the node starts.  The runner takes back the block,
    and with it the data source in the store, but keeps the host; when the
    block is processed again, the data source counts as a duplicate, and it is
    not in the store any more. *)
Example unfail_loses_data_source :
  (seen failed_runner, seen (reload failed_runner), seen (until_error 1 sync_step Initializing (reload failed_runner)),
   seen (until_error 4 sync_step Initializing (reload failed_runner))) =
  (([1], 2%nat, [Some 1]), ([1], 2%nat, [Some 1]), ([0], 2%nat, []), ([0; 1], 2%nat, [])).
Proof. vm_compute. reflexivity. Qed.

End RunnerSample.
